(* ===== verification/_CoqProject ===== *)
-Q . S2P
Prelude.v
HsmError.v
KeyEntry.v
Crates.v
KeyTable.v
KeyTableSpec.v
KeyTableRefine.v
KeyTableOps.v
KeyTableProps.v
KeyStore.v
KeyStoreProps.v
StoreInterface.v
KeyStoreTheorems.v
VaultKeys.v
KeyVault.v
VaultProps.v
SessionTable.v
PinPolicy.v
CmdScheduler.v
CmdSchedulerProps.v
CmdResource.v
Mbor.v
Simplex.v
SoftAes.v
Aes.v
KeyWrap.v
KeyWrapProps.v
GcmTag.v
GcmTagProps.v
SoftAesEngine.v
Wire.v
IpcChannel.v
IpcMessages.v
IpcMessageTypes.v
MemLog.v
MaskedKey.v
MaskedKeyProps.v
AdminError.v
Queues.v
Crc32.v
PcieFunctions.v
QueueMaps.v
PcieFunctionProps.v
FunctionMgrProps.v
FunctionMgrInv.v
LiveMigration.v
PcieRequests.v
CdmaVault.v
IoQueues.v
IoQueueProps.v
IoQueueSpec.v
Partition.v
PartitionLogin.v
PartitionProps.v
PartitionSessions.v
PartitionCredentials.v
PartitionClose.v
OpenSessionProps.v
PartitionWitnesses.v
DdiCodec.v
DdiCodecProps.v
DdiTypes.v
HostStatus.v
DdiProps.v
HsmSqe.v
HsmFsm.v
HsmFsmProps.v
HsmFsmTheorems.v
HsmFsmSession.v
HsmFsmRollback.v
HsmFsmOrigin.v
HsmFsmWitnesses.v
DmaHeap.v
DmaHeapProps.v
SessionCmds.v
SessionCmdsProps.v
SessionCmdsWitness.v
