(* ===== verification/Prelude.v ===== *)
(** * Verification of the security-module firmware of azihsm-fw

    The development models the Rust firmware of the control processor of the
    Manticore hardware security module, under
    src/projects/microsoft/hsp/manticore/cp/hsm (all paths below are relative
    to it), and proves it correct.  Pure code is translated to functions,
    stateful code to the state monad [M S E A], and a result is an [outcome]:
    [Ok], [Err] or [Panic], so that the absence of panics is a statement.
    The firmware profile inherits [release]: integer overflow wraps, which the
    model writes out with [wrap]; [usize] has 32 bits.

    ** The program and its parts

    A host submits entries ([HsmSqe]) on IO queues ([IoQueues]).  The request
    state machine ([HsmFsm]) takes an entry, fetches the message into a DMA
    buffer ([DmaHeap]), decodes its header and dispatches it; the message is
    a DDI structure ([DdiCodec], [DdiTypes]) in the MBOR encoding ([Mbor]).
    Each request becomes a command state machine run by the scheduler
    ([CmdScheduler]) and waiting for shared engines ([CmdResource]);
    [SessionCmds] holds the commands that end sessions and delete keys.
    Commands work on a partition ([Partition], [PartitionLogin]): its
    session table ([SessionTable]), its PIN policy and credential
    ([PinPolicy]), its bulk keys in the memory of the fast path ([CdmaVault]),
    and its key vault.  The vault ([KeyVault]) opens typed keys
    ([VaultKeys]) over a key store ([KeyStore]), which is a mask over tables
    of shared memory ([KeyTable], [KeyEntry]).  Keys leave the device wrapped
    ([KeyWrap]) or masked ([MaskedKey]).  The software AES engine ([SoftAes])
    wraps keys and repairs the tags of the GCM engine ([GcmTag]).  The
    processors of the module talk over message channels ([IpcChannel],
    [IpcMessages], [IpcMessageTypes]) built on ring buffers in shared memory
    ([Simplex]); [MemLog] is the log in memory.  The admin application owns
    the PCIe functions of the device: it gives them resources, creates and
    deletes their queues through the queue controller, and migrates them
    ([PcieFunctions]).

    ** Files

    - [Prelude]: outcomes, the state monad, integers and bytes, slices,
      tactics ([run], [invert_ok]) and the hint database [fw].
    - [HsmError]: error/src/lib.rs and hsm/src/error.rs, the error codes.
    - [Crates]: zerocopy, zeroize and bitfield, which are not part of the
      repository, as classes with laws and an instance each.
    - [KeyEntry], [KeyTable]: hsm/src/partition/vault/store (entry.rs,
      attributes.rs, key_number.rs, table.rs, tracker.rs).  [KeyTableSpec],
      [KeyTableRefine], [KeyTableOps], [KeyTableProps]: the bitmap and the
      block search, the representation of a list of logical entries by the
      bytes of a table, and the refinement of every operation.
    - [KeyStore], [KeyStoreProps], [KeyStoreTheorems]: store/key_store.rs.
      [StoreInterface]: the interface the vault uses, a class with laws that
      the store satisfies.
    - [VaultKeys], [KeyVault], [VaultProps]: vault/key/*.rs and vault/mod.rs,
      proved against the interface alone.
    - [SessionTable]: hsm/src/partition/session_table.rs.
    - [PinPolicy]: partition/pin_policy_mgr.rs, cred_mgr.rs, bks_table.rs,
      the login of part.rs, and the counter of drivers/tcon.
    - [CmdScheduler], [CmdSchedulerProps], [CmdResource]:
      hsm/src/cmd_scheduler and hsm/src/resource.
    - [Mbor]: serde/ddi/mbor.
    - [Simplex]: drivers/simplex, as sequential code and as single memory
      accesses of two processors with store buffers.
    - [SoftAes], [SoftAesEngine], [KeyWrap], [KeyWrapProps], [GcmTag],
      [GcmTagProps]: drivers/crypto/softaes.  [Aes]: the cipher of FIPS-197,
      the instance of the assembly routines the engine calls.
    - [Wire]: byte layouts of [repr(C)] structures.
    - [IpcChannel]: drivers/ipc.  [IpcMessages], [IpcMessageTypes]: serde/ipc.
    - [MemLog]: mem-log.
    - [MaskedKey], [MaskedKeyProps]: serde/ddi/types/src/masked_key.rs and
      hsm/src/masked_key.
    - [AdminError]: admin/src/error.rs.  [Queues]: types/src/pcie.rs,
      queues.rs, resource.rs and the identifiers of drivers/queue.  [Crc32]:
      the checksum of admin/src/function/mod.rs.
    - [PcieFunctions]: admin/src/function (func.rs, mgr.rs, admin_queue.rs)
      and types/src/lm.rs.  Functions, admin queues and the resource table are
      shared by reference in the code; the record [World] holds each once.
      The trait of the queue controller is the class [QueueController], its
      laws [QueueControllerLaws] and [QueueInfoLaws].
    - [QueueMaps]: the resource table as a map from functions and host queues
      to device queues.  [PcieFunctionProps], [FunctionMgrProps],
      [FunctionMgrInv], [LiveMigration], [PcieRequests]: the invariant, each
      operation against that map, starting and resetting, migration, and
      sequences of requests.
    - [CdmaVault]: hsm/src/partition/cdma_vault.rs and the key identifiers of
      types/src/cdma_io.rs.
    - [IoQueues]: hsm/src/partition/queue, the queue requests of
      hsm/src/handler.rs and the end of an IO in hsm/src/fsm/hsm_fsm.rs, with
      the strong counts of the [Rc] objects explicit.  [IoQueueProps]: their
      invariant.  [IoQueueSpec]: the abstract machine and the refinement.
    - [Partition]: hsm/src/partition/state.rs and part.rs: enable, disable,
      reset, migration, the persistent and the data store, sessions.
      [PartitionLogin]: the ends of the commands that check an encrypted
      credential, and the open-session command of
      hsm/src/fsm/open_session.rs with its rollback.  The cryptographic engines are
      the fields of [LoginEnv].
    - [PartitionProps], [PartitionSessions], [PartitionCredentials],
      [PartitionClose], [OpenSessionProps]: their theorems, on the keys and
      slots a partition represents; [PartitionWitnesses]: a concrete
      partition.

    - [DdiCodec]: the encoders and decoders that serde/ddi/derive generates
      for a structure, over a description of its fields.  [DdiTypes]: the
      structures, operations, status codes, header decoder and key properties
      of serde/ddi/types.  [DdiCodecProps], [DdiProps]: their theorems.
    - [HostStatus]: the conversions of hsm/src/error.rs from error codes to
      the status the host receives.
    - [HsmSqe]: the submission and completion entries of hsm/src/fsm/mod.rs.
      [HsmFsm]: hsm/src/fsm/hsm_fsm.rs and event.rs.  A command is the class
      [HsmCmd] and the partition the class [FsmPartition]; the answers of the
      hardware are an argument, [HalEnv], and what the machine asks of the
      hardware is a trace.  [HsmFsmProps], [HsmFsmTheorems],
      [HsmFsmSession], [HsmFsmRollback], [HsmFsmOrigin]: the invariant of
      every execution and what follows from it; [HsmFsmWitnesses]: concrete executions.
    - [DmaHeap], [DmaHeapProps]: the heap and the DMA buffers, heap.rs, over
      the class [FirstFit] for the allocator crate.
    - [SessionCmds], [SessionCmdsProps], [SessionCmdsWitness]:
      hsm/src/fsm/close_session.rs, flush_session.rs, delete_key.rs and
      unsupported.rs with the steps of part.rs and app_sess/aes.rs they call;
      the answers of the fast path are [FpEnv].

    ** What the theorems show

    - Requests: in every execution of the request state machine a request is
      completed at most once and its entry released once; a transfer touches
      firmware memory and the page of the requesting function that the entry
      names, and no other function; one command runs, started on a partition
      where the entry, the header and the sessions agreed (or by a flush of
      the session it names); it is rolled back at most once, and only after an
      error.
    - Buffers: a buffer handed out is zero and disjoint from every other, and
      the pool serves what fits.
    - Session commands: a command that closes or flushes a session answers
      that no retry is needed exactly when it freed the slot, after the fast
      path was told to forget the keys, whatever other requests do meanwhile.
    - DDI messages: a structure decodes to what was encoded, and decoding
      arbitrary bytes does not panic where enumerations are open (all requests
      but one).

    - Key tables: no reachable table and no argument makes a call panic;
      adding, removing and bulk removing refine the abstract table.  Stores
      are isolated from one another; adding to a store is exact, refusals
      included.
    - Vault: a key opens exactly for its application and session; typed opens
      check kind and usage; importing then opening returns the key.
    - Partition: disabling, migrating and resetting a function erase its keys
      and nobody else's; a session opens only for the credential of the
      partition, encrypted under its nonce with a valid tag; a request with the
      nonce of one that took effect changes nothing; the credential is set once; closing a session removes
      its keys, its bulk keys and its slot and nothing else; a failed
      open-session command changes no key and no session.
    - Bulk keys: every operation changes the one slot it names and slots of
      different partitions are disjoint.
    - IO queues: the deferred answer to a deletion is due once, when the last
      IO it waits for ends; it is lost only when the pipe refuses it.
    - Scheduler and resources: the scheduler adds no panic to those of the
      handlers of commands in any reachable state; exact event delivery and ticks, a drain that always ends, exclusive
      use of instances and hand-over to waiting commands.
    - Authentication: the lockout machine refines its specification, the rate
      of PIN guesses is bounded, login is exact; sessions refine slots.
    - Encodings: MBOR decoding never panics on any bytes and inverts encoding;
      inter-processor messages encode and decode exactly, decoded payloads
      are in range where the message checks them; a channel is two bounded
      queues and a tag under any interleaving, and a request and response
      protocol when the responder answers what it took.
    - Pipes: every message is received once and in order under the store
      buffers of both processors, with the barriers of the code.
    - Cryptography: key wrapping computes RFC 3394 and 5649 and unwrapping
      inverts it, the two unwrapping routines agree; the corrected GCM tag is
      the tag of the whole message; the cached round keys are never
      observable; a masked key decodes exactly when it is well formed and
      authentic, and round trips.
    - PCIe functions: a device queue belongs to one queue of one function;
      creating and deleting queues change exactly one entry of the map, also
      when the controller fails; resources are moved and never lost, and a
      resource given to a function carries no queue of its former owner;
      disabling terminates and deletes every queue of the function and no
      other; no sequence of requests panics or breaks the invariant; a
      migrated function gets back its queues; the CRC of the table and of the
      migration buffer detects every burst of errors up to 32 bits.
    - Memory log: a write stays in the window and appends what fits.
    - A few theorems state where the code departs from its intention: one tag
      on two keys after enabling, the wrapping of eight-byte keys, the counts
      after a table is rejected, a migration buffer that panics, a key left
      behind when an open session is reopened, an unwrapping key of the wrong
      size, and a queue identifier that panics.

    ** Bounds and fuel

    Loops over buffers take their length as fuel, which is the number of
    iterations of the source, or are folds over [seq]; no theorem assumes
    that fuel suffices.  The GCM theorems bound messages by the 32-bit block
    counter, [MemLog] its window by 2^31, [MaskedKey] its parts by the 16-bit
    length fields of the header.  The loops that delete queues have fuel 9 per
    resource and kind, more than the three queues there can be; running out
    would be a panic, and the theorems exclude panics.

    ** Not modelled

    Generated register maps (reg) and the drivers that only move bits to
    devices; the AES rounds in assembly, which are the class [Cm7Aes]; the
    engines behind [CryptEnv]; the fips_validation_hooks, fuzzing and OpenSSL
    test variants; test harnesses and build tools; vendored crates; the
    firmware of other processors in other languages.  The
    operations of partition/part.rs that only drive engines (certificate
    chains, attestation, masking of boot keys) and the fast-path DMA are not
    modelled either.  Also left out: the command state machines of
    hsm/src/fsm that drive an engine (the request state machine runs them
    through [HsmCmd], so its theorems hold for all of them), the test
    operations and test hooks of the messages, DER and certificates, the
    driver of the queue controller, and the command state machines of the
    admin application. *)

From stdpp Require Import base list numbers option strings.

#[global] Set Default Goal Selector "!".

(** [simpl] must not unfold products and quotients of sizes. *)
#[global] Arguments Nat.mul : simpl never.
#[global] Arguments Nat.div : simpl never.
#[global] Arguments Nat.modulo : simpl never.

(** ** Results of fallible Rust code

    [Ok]/[Err] are the constructors of [core::result::Result]; [Panic] is the
    third way a Rust function can leave: an out-of-range slice, an
    [unreachable!()], a failed [copy_from_slice]. *)

Inductive outcome (E A : Type) : Type :=
  | Ok (a : A)
  | Err (e : E)
  | Panic.
Arguments Ok {E A} a.
Arguments Err {E A} e.
Arguments Panic {E A}.

#[global] Instance outcome_ret {E} : MRet (outcome E) := λ A a, Ok a.
#[global] Instance outcome_bind {E} : MBind (outcome E) := λ A B f r,
  match r with
  | Ok a => f a
  | Err e => Err e
  | Panic => Panic
  end.
#[global] Instance outcome_fmap {E} : FMap (outcome E) := λ A B f r,
  match r with
  | Ok a => Ok (f a)
  | Err e => Err e
  | Panic => Panic
  end.
#[global] Instance outcome_eq_dec {E A} `{EqDecision E, EqDecision A} :
  EqDecision (outcome E A).
Proof. solve_decision. Defined.

(** [Result::is_ok] and [Option::ok_or]. *)
Definition is_ok {E A} (r : outcome E A) : bool :=
  match r with Ok _ => true | _ => false end.

Definition ok_or {E A} (o : option A) (e : E) : outcome E A :=
  match o with Some a => Ok a | None => Err e end.

Lemma outcome_bind_Ok {E A B} (f : A → outcome E B) (r : outcome E A) b :
  r ≫= f = Ok b ↔ ∃ a, r = Ok a ∧ f a = Ok b.
Proof. destruct r; naive_solver. Qed.

(** ** Stateful fallible code

    [M S E A] is code that reads and writes a state of type [S] and leaves
    with an [outcome]; the state is returned on every exit, because Rust
    keeps the effects made before an early [return Err(..)]. *)

Definition M (S E A : Type) : Type := S → outcome E A * S.

#[global] Instance M_ret {S E} : MRet (M S E) := λ A a s, (Ok a, s).
#[global] Instance M_bind {S E} : MBind (M S E) := λ A B f m s,
  match m s with
  | (Ok a, s') => f a s'
  | (Err e, s') => (Err e, s')
  | (Panic, s') => (Panic, s')
  end.

Definition lift {S E A} (r : outcome E A) : M S E A := λ s, (r, s).
Definition throw {S E A} (e : E) : M S E A := λ s, (Err e, s).
Definition get {S E} : M S E S := λ s, (Ok s, s).
Definition put {S E} (s' : S) : M S E () := λ _, (Ok tt, s').
Definition modify {S E} (f : S → S) : M S E () := λ s, (Ok tt, f s).
Definition unless {S E} (b : bool) (e : E) : M S E () :=
  if b then mret tt else throw e.

Lemma M_bind_Ok {S E A B} (f : A → M S E B) (m : M S E A) s s' b :
  (m ≫= f) s = (Ok b, s') ↔ ∃ a s1, m s = (Ok a, s1) ∧ f a s1 = (Ok b, s').
Proof.
  unfold mbind, M_bind.
  destruct (m s) as [[a|e|] s1]; naive_solver.
Qed.

(** Running code one bind at a time. *)

Lemma bind_ok {S E A B} (m : M S E A) (f : A → M S E B) s a s' :
  m s = (Ok a, s') → (m ≫= f) s = f a s'.
Proof. intros Hm. unfold mbind, M_bind. by rewrite Hm. Qed.

Lemma bind_err {S E A B} (m : M S E A) (f : A → M S E B) s e s' :
  m s = (Err e, s') → (m ≫= f) s = (Err e, s').
Proof. intros Hm. unfold mbind, M_bind. by rewrite Hm. Qed.

Lemma unless_ok {S E} (b : bool) (e : E) (s : S) : b = true → unless b e s = (Ok tt, s).
Proof. by intros ->. Qed.

Lemma lift_ok {S E A} (r : outcome E A) (a : A) (s : S) : r = Ok a → lift r s = (Ok a, s).
Proof. by intros ->. Qed.

(** ** Machine integers

    A [w]-bit unsigned integer is a [Z] in [0, 2^w); casts and the bitwise
    negation write the truncation out. *)

Definition uint_range (w v : Z) : Prop := (0 ≤ v < 2 ^ w)%Z.
#[global] Instance uint_range_dec w v : Decision (uint_range w v).
Proof. unfold uint_range. apply _. Defined.

Definition wrap (w v : Z) : Z := (v mod 2 ^ w)%Z.
Definition unot (w v : Z) : Z := Z.land (Z.lnot v) (Z.ones w).

Lemma wrap_small w v : uint_range w v → wrap w v = v.
Proof. intros H. unfold wrap. by apply Z.mod_small. Qed.

Lemma wrap_range w v : (0 ≤ w)%Z → uint_range w (wrap w v).
Proof. intros H. unfold uint_range, wrap. apply Z.mod_pos_bound. lia. Qed.

(** [v | (1 << i)] and [v & !(1 << i)] on a [w]-bit word. *)
Definition set_bit_to (w v i : Z) (b : bool) : Z :=
  if b then Z.lor v (Z.shiftl 1 i) else Z.land v (unot w (Z.shiftl 1 i)).

Lemma testbit_above w v i : uint_range w v → (w ≤ i)%Z → Z.testbit v i = false.
Proof.
  intros [H1 H2] Hi. destruct (decide (0 ≤ w)%Z) as [Hw|Hw].
  - rewrite <- (Z.mod_small v (2 ^ w)) by done. apply Z.mod_pow2_bits_high. lia.
  - rewrite Z.pow_neg_r in H2 by lia. lia.
Qed.

Lemma uint_range_bits w v :
  (0 ≤ w)%Z → (0 ≤ v)%Z → (∀ i, (w ≤ i)%Z → Z.testbit v i = false) → uint_range w v.
Proof.
  intros Hw Hv Hb. split; [done|].
  assert (v = v mod 2 ^ w)%Z as ->; [|apply Z.mod_pos_bound; lia].
  apply Z.bits_inj'. intros i Hi. destruct (decide (i < w)%Z).
  - by rewrite Z.mod_pow2_bits_low by lia.
  - rewrite Z.mod_pow2_bits_high by lia. apply Hb. lia.
Qed.

Lemma testbit_one_shiftl i j :
  (0 ≤ i)%Z → (0 ≤ j)%Z → Z.testbit (Z.shiftl 1 i) j = bool_decide (i = j).
Proof.
  intros Hi Hj. rewrite Z.shiftl_1_l. case_bool_decide as H.
  - subst. by rewrite Z.pow2_bits_true.
  - by apply Z.pow2_bits_false.
Qed.

Lemma testbit_unot w v j :
  (0 ≤ j < w)%Z → Z.testbit (unot w v) j = negb (Z.testbit v j).
Proof.
  intros Hj. unfold unot. rewrite Z.land_spec, Z.lnot_spec by lia.
  rewrite Z.ones_spec_low by lia. by rewrite andb_true_r.
Qed.

Lemma testbit_set_bit_to w v i b j :
  (0 ≤ i < w)%Z → (0 ≤ j < w)%Z →
  Z.testbit (set_bit_to w v i b) j = if decide (i = j) then b else Z.testbit v j.
Proof.
  intros Hi Hj. unfold set_bit_to. destruct b.
  - rewrite Z.lor_spec, testbit_one_shiftl by lia.
    case_decide; case_bool_decide; try done.
    + by rewrite orb_true_r.
    + by rewrite orb_false_r.
  - rewrite Z.land_spec, testbit_unot, testbit_one_shiftl by lia.
    case_decide; case_bool_decide; try done.
    + by rewrite andb_false_r.
    + by rewrite andb_true_r.
Qed.

Lemma set_bit_to_range w v i b :
  uint_range w v → (0 ≤ i < w)%Z → uint_range w (set_bit_to w v i b).
Proof.
  intros Hv Hi. pose proof (Z.shiftl_nonneg 1 i).
  apply uint_range_bits; [lia| |].
  - unfold set_bit_to, unot. destruct b, Hv.
    + apply Z.lor_nonneg. lia.
    + apply Z.land_nonneg. lia.
  - intros j Hj. unfold set_bit_to, unot. destruct b.
    + rewrite Z.lor_spec, (testbit_above w v), testbit_one_shiftl by (done || lia).
      case_bool_decide; [lia|done].
    + by rewrite Z.land_spec, (testbit_above w v) by (done || lia).
Qed.

Lemma lxor_range w a b :
  (0 ≤ w)%Z → uint_range w a → uint_range w b → uint_range w (Z.lxor a b).
Proof.
  intros Hw Ha Hb. apply uint_range_bits; [done| |].
  - apply Z.lxor_nonneg. destruct Ha, Hb. lia.
  - intros i Hi. by rewrite Z.lxor_spec, !(testbit_above w) by done.
Qed.

(** ** Integers as bytes

    [to_le_bytes n v] and [from_le_bytes] are [uN::to_le_bytes] and
    [uN::from_le_bytes] of an [8n]-bit integer; the big-endian pair reverses
    the bytes. *)

Fixpoint to_le_bytes (n : nat) (v : Z) : list Z :=
  match n with
  | O => []
  | S n => wrap 8 v :: to_le_bytes n (Z.shiftr v 8)
  end.

Fixpoint from_le_bytes (l : list Z) : Z :=
  match l with
  | [] => 0
  | b :: l => b + 256 * from_le_bytes l
  end.

Definition to_be_bytes (n : nat) (v : Z) : list Z := rev (to_le_bytes n v).
Definition from_be_bytes (l : list Z) : Z := from_le_bytes (rev l).

Lemma length_to_le_bytes n v : length (to_le_bytes n v) = n.
Proof. revert v. induction n as [|n IH]; intros v; simpl; [done|by rewrite IH]. Qed.

Lemma length_to_be_bytes n v : length (to_be_bytes n v) = n.
Proof. unfold to_be_bytes. by rewrite length_rev, length_to_le_bytes. Qed.

Lemma to_le_bytes_range n v : Forall (uint_range 8) (to_le_bytes n v).
Proof.
  revert v. induction n as [|n IH]; intros v; simpl; constructor; [|done].
  by apply wrap_range.
Qed.

Lemma from_to_le_bytes n v :
  uint_range (8 * Z.of_nat n) v → from_le_bytes (to_le_bytes n v) = v.
Proof.
  revert v. induction n as [|n IH]; intros v Hv; simpl.
  - unfold uint_range in Hv. simpl in Hv. lia.
  - rewrite Z.shiftr_div_pow2 by lia. change (2 ^ 8)%Z with 256%Z.
    unfold uint_range in *. replace (8 * Z.of_nat (S n))%Z with (8 * Z.of_nat n + 8)%Z in Hv by lia.
    rewrite Z.pow_add_r in Hv by lia. change (2 ^ 8)%Z with 256%Z in Hv.
    rewrite IH.
    + unfold wrap. change (2 ^ 8)%Z with 256%Z. pose proof (Z.div_mod v 256). lia.
    + split; [apply Z.div_pos; lia|apply Z.div_lt_upper_bound; lia].
Qed.

Lemma from_to_be_bytes n v :
  uint_range (8 * Z.of_nat n) v → from_be_bytes (to_be_bytes n v) = v.
Proof.
  intros Hv. unfold from_be_bytes, to_be_bytes.
  by rewrite rev_involutive, from_to_le_bytes.
Qed.

Lemma from_le_bytes_range l :
  Forall (uint_range 8) l → uint_range (8 * Z.of_nat (length l)) (from_le_bytes l).
Proof.
  induction 1 as [|b l Hb Hl IH]; simpl; unfold uint_range in *; [simpl; lia|].
  replace (8 * Z.of_nat (S (length l)))%Z with (8 * Z.of_nat (length l) + 8)%Z by lia.
  rewrite Z.pow_add_r by lia. change (2 ^ 8)%Z with 256%Z in *. lia.
Qed.

Lemma to_from_le_bytes l :
  Forall (uint_range 8) l → to_le_bytes (length l) (from_le_bytes l) = l.
Proof.
  induction 1 as [|b l Hb Hl IH]; simpl; [done|].
  unfold uint_range in Hb. change (2 ^ 8)%Z with 256%Z in Hb.
  f_equal.
  - unfold wrap. change (2 ^ 8)%Z with 256%Z.
    rewrite Z.mul_comm, Z.mod_add by lia. apply Z.mod_small. lia.
  - rewrite Z.shiftr_div_pow2 by lia. change (2 ^ 8)%Z with 256%Z.
    rewrite Z.mul_comm, Z.div_add, Z.div_small by lia. done.
Qed.

(** ** Slices

    [slice l off len] is the Rust expression [&l[off..off + len]]; it panics
    when the range leaves the slice.  [copy_from_slice l off len d] is
    [l[off..off + len].copy_from_slice(d)], which also panics when the two
    lengths differ. *)

Definition slice {E A} (l : list A) (off len : nat) : outcome E (list A) :=
  if decide (off + len ≤ length l) then Ok (take len (drop off l)) else Panic.

Definition copy_from_slice {E A} (l : list A) (off len : nat) (d : list A) :
    outcome E (list A) :=
  if decide (off + len ≤ length l ∧ length d = len)
  then Ok (take off l ++ d ++ drop (off + len) l)
  else Panic.

Lemma length_splice {A} (l d : list A) off :
  off + length d ≤ length l →
  length (take off l ++ d ++ drop (off + length d) l) = length l.
Proof. intros H. rewrite !length_app, length_take, length_drop. lia. Qed.

Lemma lookup_splice {A} (l d : list A) off j :
  off + length d ≤ length l →
  (take off l ++ d ++ drop (off + length d) l) !! j =
    if decide (off ≤ j < off + length d) then d !! (j - off) else l !! j.
Proof.
  intros H. case_decide as Hj.
  - rewrite lookup_app_r by (rewrite length_take; lia).
    rewrite length_take, Nat.min_l by lia.
    rewrite lookup_app_l by lia. done.
  - destruct (decide (j < off)).
    + rewrite lookup_app_l by (rewrite length_take; lia).
      by rewrite lookup_take_lt.
    + rewrite lookup_app_r by (rewrite length_take; lia).
      rewrite length_take, Nat.min_l by lia.
      rewrite lookup_app_r by lia. rewrite lookup_drop. f_equal. lia.
Qed.

(** Two slices of equal position agree when the bytes they cover agree. *)
Lemma take_drop_ext {A} (l l' : list A) off len :
  (∀ j, off ≤ j < off + len → l !! j = l' !! j) →
  take len (drop off l) = take len (drop off l').
Proof.
  intros H. apply list_eq. intros i. rewrite !lookup_take.
  case_decide; [|done]. rewrite !lookup_drop. apply H. lia.
Qed.

Lemma take_drop_splice_in {A} (l d : list A) off :
  off + length d ≤ length l →
  take (length d) (drop off (take off l ++ d ++ drop (off + length d) l)) = d.
Proof.
  intros H. apply list_eq. intros i. rewrite lookup_take. case_decide.
  - rewrite lookup_drop, lookup_splice by done.
    rewrite decide_True by lia. f_equal. lia.
  - symmetry. apply lookup_ge_None_2. lia.
Qed.

(** Slices of a buffer given as its parts. *)
Lemma slice_middle {E A} (l1 l2 l3 : list A) off len :
  length l1 = off → length l2 = len →
  slice (E:=E) (l1 ++ l2 ++ l3) off len = Ok l2.
Proof.
  intros <- <-. unfold slice. rewrite decide_True by (rewrite !length_app; lia).
  by rewrite drop_app_length, take_app_length.
Qed.

Lemma copy_middle {E A} (l1 l2 l3 d : list A) off len :
  length l1 = off → length l2 = len → length d = len →
  copy_from_slice (E:=E) (l1 ++ l2 ++ l3) off len d = Ok (l1 ++ d ++ l3).
Proof.
  intros <- <- Hd. unfold copy_from_slice.
  rewrite decide_True by (rewrite !length_app; lia).
  rewrite take_app_length, drop_app_add, drop_app_length. done.
Qed.

(** ** Automation *)

Create HintDb fw.
Create Rewrite HintDb fw.

#[export] Hint Resolve wrap_range set_bit_to_range lxor_range : fw.
#[export] Hint Rewrite @length_insert @length_replicate @length_take
  @length_drop @length_app : fw.

(** [run] unfolds the monads of a concrete computation. *)
Ltac run :=
  unfold mbind, mret, M_bind, M_ret, outcome_bind, outcome_ret,
    lift, throw, get, put, modify, unless in *; simpl in *.

(** [invert_ok] splits a hypothesis [(m ≫= f) s = (Ok b, s')]. *)
Ltac invert_ok :=
  repeat match goal with
  | H : (_ ≫= _) _ = (Ok _, _) |- _ =>
      apply M_bind_Ok in H; destruct H as (? & ? & ? & H)
  | H : (Ok _, _) = (Ok _, _) |- _ => injection H as <- <- || injection H as ? ?
  end.
