(* ===== verification/HsmError.v ===== *)
(** * Error codes (hsm/src/error.rs)

    The [HsmErr] enumeration declared by [mcr_err_decl!], its [u32]
    representation, and the scheduler's two questions about an error. *)

From S2P Require Import Prelude.
From stdpp Require Import base numbers option.

(** The variants of [HsmErr], in source order. *)
Inductive HsmErr : Set :=
  | Pending | IoChannelRecvNone | IoChannelRecvErr | SqeDecodeError
  | SqeUnknownOp | SqeInvalidSrcLen | SqeInvalidDstLen | PartitionNotEnabled
  | QueueNotEnabled | QueueNotValid | DmaAllocFailure | SqeInvalidPsdt
  | DmaCompletionEmpty | DmaEndErr | DmaTagMismatch | ExpectedIoQueue
  | ExpectedPcieFn | DmaStartError | IoChannelSendError | ExpectedDmaBuf
  | ReqHdrDecodeErr | DdiDecodeFailed | ExpectedCmdFsm | SqeInvalidSrcPrpAlgin
  | SqeInvalidDstPrpAlgin | CmdError | InvalidMgrCredential | InvalidUserCredential
  | AppNotFound | AppAlreadyExists | SessionNotFound | SessionLimitReached
  | FunctionNotEnabled | SpuriousIpcMessageEvent | InvalidIpcMessage | IpcMessageDecodeErr
  | InvalidMessageOpcode | SessionExpected | IoChannelSendCompleteNone | IoTagMismatch
  | IoChannelSendCompleteError | AnotherKeyInUse | KeyNotInUse | InvalidArgument
  | NotEnoughSpace | DefragNeeded | InvalidKeyIndex | CannotDeleteKeyInUse
  | CannotDeleteSomeKeysInUse | KeyNotFound | KeyTagAlreadyExists | AesEncryptFailed
  | UnsupportedRevision | SessionNotExpected | VaultNotFound | InvalidSessionControlOpcode
  | DerEncodeFailed | AppLimitReached | CannotCloseSessionInUse | CannotCloseSomeSessionsInUse
  | CannotDeleteKeyAndCloseSessionInUse | InvalidPermissions | AesDecryptFailed | DdiEncodeFailed
  | InvalidKeyType | EccGenKeyFailed | EccVerifyFailed | UnsupportedCmd
  | CannotUseDefaultCredentials | InvalidMemoryMapEntry | InvalidEvent | InvalidState
  | PkaTagMismatch | PkaEngineNotBusy | EccSignFailed | EccMontgomeryConstCalcFailed
  | EccGenPubKeyFailed | DerDecodeFailed | ShaCmdFailed | RsaModExpFailed
  | RsaUnwrapInternalErr | RsaUnwrapInvalidReq | RsaUnwrapInvalidKek | RsaUnwrapOaepDecodeFailed
  | RsaUnwrapInvalidAesUnwrapState | RsaUnwrapAesUnwrapFailed | RsaMontgomeryConstCalcFailed | RsaMontgomeryInFailed
  | RsaModularMultiplicationFailed | RsaMontgomeryOutFailed | RsaModularInverseFailed | AttestationReportEncodeFailed
  | CoseKeyEncodeFailed | AttestKeyInternalErr | EcdhComputeFailed | ExpectedIoq
  | InvalidIoq | IpcSendFailure | IpcResponseError | DerAndKeyTypeMismatch
  | KeyDeriveFailed | CannotDeleteAppSessionsOpen | AesBulk256InvalidParameter | InvalidIpcShutdownRequest
  | InvalidCertificate | PendingKeyGeneration | IoTimeOut | DrainBusy
  | CannotDeleteInternalKeys | DeferredQueueDeleteNotifyErr | SoftAesReqSendFailed | SessionEncryptionKeyGenerateFailed
  | PinDecryptionFailed | IpcResponseDecodeError | ReachedMaxAesBulkKeys | HmacInvalidInputSize
  | HmacComputeFailed | NonceMismatch | EstablishCredEncryptionKeyGenerateFailed | HkdfInvalidInputParam
  | HkdfError | KbkdfInvalidInputParam | KbkdfError | InvalidKeyTableIndex
  | UnknownSelfTest | MissingSelfTestEngineInstance | LoginFailed | SoftAesInvalidResp
  | PkaMemoryWipeFailed | DrainReady | KeyStructuralValidationFailed | InvalidPorMeasurementDataAccess
  | PctValidationEccGenKeyFailed | PctValidationEstablishCredEncKeyFailed | PctValidationSessionEncKeyFailed | PctValidationUnwrappingKeyFailed
  | PctValidationRsaUnwrapEccKeyFailed | PctValidationRsaUnwrapRsaKeyFailed | NonFipsApprovedMessageDigest | DigestHashMismatchWithEccCurve
  | UnsupportedDigestHashAlgorithm | BeginEccPointValidationFailed | EndEccPointValidationFailed | EccPointValidationFailed
  | EccPublicKeyValidationFailed | EccDerKeyShorterThanCurve | PartitionIdGenerationFailed | PartitionCertGenerationFailed
  | PartitionCertInvalidTypeConversion | FsmAllocationFailed | PartitionCertTooLarge | MaskedKeyInvalidLength
  | MaskedKeyPreEncodeFailed | MaskedKeyEncodeFailed | MaskedKeyDecodeFailed | InvalidAlgorithm
  | InsufficientBuffer | InvalidKeyLength | MetadataEncodeFailed | MetadataDecodeFailed
  | SessionNeedsRenegotiation | BkBootGenerationFailed | MaskingBk3Failed | UnmaskingBk3Failed
  | MaskingBkBootFailed | UnmaskingBkBootFailed | MaskedBkBootNotPresent | SealedBk3TooLarge
  | PartitionAlreadyProvisioned | SealedBk3NotPresent | InvalidAliasKey | UnmaskUnwrappingKeyNotAllowed
  | InvalidPartIdPrivKeyInternalError | PartitionNotProvisioned | CredentialsNotEstablished | Bk3AlreadyInitialized
  | SealedBk3AlreadySet | PartitionIdKeyGenerationPctFailed | InvalidIpcGetKeyBulkRequest.

(** The literal each variant is declared with. *)
Definition HsmErr_literal (e : HsmErr) : Z :=
  (match e with
  | Pending => 0 | IoChannelRecvNone => 1 | IoChannelRecvErr => 2
  | SqeDecodeError => 3 | SqeUnknownOp => 4 | SqeInvalidSrcLen => 5
  | SqeInvalidDstLen => 6 | PartitionNotEnabled => 7 | QueueNotEnabled => 8
  | QueueNotValid => 9 | DmaAllocFailure => 10 | SqeInvalidPsdt => 11
  | DmaCompletionEmpty => 12 | DmaEndErr => 13 | DmaTagMismatch => 14
  | ExpectedIoQueue => 15 | ExpectedPcieFn => 16 | DmaStartError => 17
  | IoChannelSendError => 18 | ExpectedDmaBuf => 19 | ReqHdrDecodeErr => 20
  | DdiDecodeFailed => 21 | ExpectedCmdFsm => 22 | SqeInvalidSrcPrpAlgin => 23
  | SqeInvalidDstPrpAlgin => 24 | CmdError => 25 | InvalidMgrCredential => 28
  | InvalidUserCredential => 29 | AppNotFound => 30 | AppAlreadyExists => 31
  | SessionNotFound => 33 | SessionLimitReached => 34 | FunctionNotEnabled => 35
  | SpuriousIpcMessageEvent => 36 | InvalidIpcMessage => 37 | IpcMessageDecodeErr => 38
  | InvalidMessageOpcode => 39 | SessionExpected => 40 | IoChannelSendCompleteNone => 41
  | IoTagMismatch => 42 | IoChannelSendCompleteError => 43 | AnotherKeyInUse => 44
  | KeyNotInUse => 45 | InvalidArgument => 47 | NotEnoughSpace => 48
  | DefragNeeded => 49 | InvalidKeyIndex => 50 | CannotDeleteKeyInUse => 51
  | CannotDeleteSomeKeysInUse => 52 | KeyNotFound => 53 | KeyTagAlreadyExists => 54
  | AesEncryptFailed => 55 | UnsupportedRevision => 56 | SessionNotExpected => 57
  | VaultNotFound => 60 | InvalidSessionControlOpcode => 61 | DerEncodeFailed => 62
  | AppLimitReached => 63 | CannotCloseSessionInUse => 64 | CannotCloseSomeSessionsInUse => 65
  | CannotDeleteKeyAndCloseSessionInUse => 66 | InvalidPermissions => 69 | AesDecryptFailed => 70
  | DdiEncodeFailed => 71 | InvalidKeyType => 72 | EccGenKeyFailed => 73
  | EccVerifyFailed => 74 | UnsupportedCmd => 75 | CannotUseDefaultCredentials => 76
  | InvalidMemoryMapEntry => 77 | InvalidEvent => 78 | InvalidState => 79
  | PkaTagMismatch => 83 | PkaEngineNotBusy => 84 | EccSignFailed => 85
  | EccMontgomeryConstCalcFailed => 87 | EccGenPubKeyFailed => 88 | DerDecodeFailed => 89
  | ShaCmdFailed => 90 | RsaModExpFailed => 91 | RsaUnwrapInternalErr => 92
  | RsaUnwrapInvalidReq => 93 | RsaUnwrapInvalidKek => 94 | RsaUnwrapOaepDecodeFailed => 95
  | RsaUnwrapInvalidAesUnwrapState => 96 | RsaUnwrapAesUnwrapFailed => 97 | RsaMontgomeryConstCalcFailed => 98
  | RsaMontgomeryInFailed => 99 | RsaModularMultiplicationFailed => 100 | RsaMontgomeryOutFailed => 101
  | RsaModularInverseFailed => 102 | AttestationReportEncodeFailed => 103 | CoseKeyEncodeFailed => 104
  | AttestKeyInternalErr => 105 | EcdhComputeFailed => 106 | ExpectedIoq => 107
  | InvalidIoq => 108 | IpcSendFailure => 109 | IpcResponseError => 110
  | DerAndKeyTypeMismatch => 111 | KeyDeriveFailed => 112 | CannotDeleteAppSessionsOpen => 113
  | AesBulk256InvalidParameter => 114 | InvalidIpcShutdownRequest => 115 | InvalidCertificate => 116
  | PendingKeyGeneration => 117 | IoTimeOut => 118 | DrainBusy => 119
  | CannotDeleteInternalKeys => 120 | DeferredQueueDeleteNotifyErr => 121 | SoftAesReqSendFailed => 122
  | SessionEncryptionKeyGenerateFailed => 123 | PinDecryptionFailed => 124 | IpcResponseDecodeError => 125
  | ReachedMaxAesBulkKeys => 126 | HmacInvalidInputSize => 127 | HmacComputeFailed => 128
  | NonceMismatch => 129 | EstablishCredEncryptionKeyGenerateFailed => 130 | HkdfInvalidInputParam => 131
  | HkdfError => 132 | KbkdfInvalidInputParam => 133 | KbkdfError => 134
  | InvalidKeyTableIndex => 135 | UnknownSelfTest => 136 | MissingSelfTestEngineInstance => 137
  | LoginFailed => 138 | SoftAesInvalidResp => 139 | PkaMemoryWipeFailed => 140
  | DrainReady => 141 | KeyStructuralValidationFailed => 142 | InvalidPorMeasurementDataAccess => 143
  | PctValidationEccGenKeyFailed => 144 | PctValidationEstablishCredEncKeyFailed => 145 | PctValidationSessionEncKeyFailed => 146
  | PctValidationUnwrappingKeyFailed => 147 | PctValidationRsaUnwrapEccKeyFailed => 148 | PctValidationRsaUnwrapRsaKeyFailed => 149
  | NonFipsApprovedMessageDigest => 150 | DigestHashMismatchWithEccCurve => 151 | UnsupportedDigestHashAlgorithm => 152
  | BeginEccPointValidationFailed => 153 | EndEccPointValidationFailed => 154 | EccPointValidationFailed => 155
  | EccPublicKeyValidationFailed => 156 | EccDerKeyShorterThanCurve => 157 | PartitionIdGenerationFailed => 158
  | PartitionCertGenerationFailed => 159 | PartitionCertInvalidTypeConversion => 160 | FsmAllocationFailed => 161
  | PartitionCertTooLarge => 162 | MaskedKeyInvalidLength => 163 | MaskedKeyPreEncodeFailed => 164
  | MaskedKeyEncodeFailed => 165 | MaskedKeyDecodeFailed => 166 | InvalidAlgorithm => 167
  | InsufficientBuffer => 168 | InvalidKeyLength => 169 | MetadataEncodeFailed => 170
  | MetadataDecodeFailed => 171 | SessionNeedsRenegotiation => 172 | BkBootGenerationFailed => 173
  | MaskingBk3Failed => 174 | UnmaskingBk3Failed => 175 | MaskingBkBootFailed => 176
  | UnmaskingBkBootFailed => 177 | MaskedBkBootNotPresent => 178 | SealedBk3TooLarge => 179
  | PartitionAlreadyProvisioned => 180 | SealedBk3NotPresent => 181 | InvalidAliasKey => 183
  | UnmaskUnwrappingKeyNotAllowed => 184 | InvalidPartIdPrivKeyInternalError => 185 | PartitionNotProvisioned => 186
  | CredentialsNotEstablished => 187 | Bk3AlreadyInitialized => 188 | SealedBk3AlreadySet => 189
  | PartitionIdKeyGenerationPctFailed => 190 | InvalidIpcGetKeyBulkRequest => 191
  end)%Z.

(** [McrComponent::Hsm], the component id [mcr_err_decl!] puts in the upper
    half-word (error/src/lib.rs). *)
Definition McrComponent_Hsm : Z := 0x0E%Z.

(** The discriminant of a variant: [(McrComponent::Hsm as u32) << 16 | literal]. *)
Definition HsmErr_discriminant (e : HsmErr) : Z :=
  Z.lor (Z.shiftl McrComponent_Hsm 16) (HsmErr_literal e).

(** [impl From<HsmErr> for u32]. *)
Definition HsmErr_to_u32 (e : HsmErr) : Z :=
  Z.lor (Z.shiftl McrComponent_Hsm 16) (HsmErr_discriminant e).

(** The variant of a literal: the inverse of [HsmErr_literal]. *)
Definition HsmErr_of_literal (z : Z) : option HsmErr :=
  (match z with
  | 0 => Some Pending | 1 => Some IoChannelRecvNone | 2 => Some IoChannelRecvErr
  | 3 => Some SqeDecodeError | 4 => Some SqeUnknownOp | 5 => Some SqeInvalidSrcLen
  | 6 => Some SqeInvalidDstLen | 7 => Some PartitionNotEnabled | 8 => Some QueueNotEnabled
  | 9 => Some QueueNotValid | 10 => Some DmaAllocFailure | 11 => Some SqeInvalidPsdt
  | 12 => Some DmaCompletionEmpty | 13 => Some DmaEndErr | 14 => Some DmaTagMismatch
  | 15 => Some ExpectedIoQueue | 16 => Some ExpectedPcieFn | 17 => Some DmaStartError
  | 18 => Some IoChannelSendError | 19 => Some ExpectedDmaBuf | 20 => Some ReqHdrDecodeErr
  | 21 => Some DdiDecodeFailed | 22 => Some ExpectedCmdFsm | 23 => Some SqeInvalidSrcPrpAlgin
  | 24 => Some SqeInvalidDstPrpAlgin | 25 => Some CmdError | 28 => Some InvalidMgrCredential
  | 29 => Some InvalidUserCredential | 30 => Some AppNotFound | 31 => Some AppAlreadyExists
  | 33 => Some SessionNotFound | 34 => Some SessionLimitReached | 35 => Some FunctionNotEnabled
  | 36 => Some SpuriousIpcMessageEvent | 37 => Some InvalidIpcMessage | 38 => Some IpcMessageDecodeErr
  | 39 => Some InvalidMessageOpcode | 40 => Some SessionExpected | 41 => Some IoChannelSendCompleteNone
  | 42 => Some IoTagMismatch | 43 => Some IoChannelSendCompleteError | 44 => Some AnotherKeyInUse
  | 45 => Some KeyNotInUse | 47 => Some InvalidArgument | 48 => Some NotEnoughSpace
  | 49 => Some DefragNeeded | 50 => Some InvalidKeyIndex | 51 => Some CannotDeleteKeyInUse
  | 52 => Some CannotDeleteSomeKeysInUse | 53 => Some KeyNotFound | 54 => Some KeyTagAlreadyExists
  | 55 => Some AesEncryptFailed | 56 => Some UnsupportedRevision | 57 => Some SessionNotExpected
  | 60 => Some VaultNotFound | 61 => Some InvalidSessionControlOpcode | 62 => Some DerEncodeFailed
  | 63 => Some AppLimitReached | 64 => Some CannotCloseSessionInUse | 65 => Some CannotCloseSomeSessionsInUse
  | 66 => Some CannotDeleteKeyAndCloseSessionInUse | 69 => Some InvalidPermissions | 70 => Some AesDecryptFailed
  | 71 => Some DdiEncodeFailed | 72 => Some InvalidKeyType | 73 => Some EccGenKeyFailed
  | 74 => Some EccVerifyFailed | 75 => Some UnsupportedCmd | 76 => Some CannotUseDefaultCredentials
  | 77 => Some InvalidMemoryMapEntry | 78 => Some InvalidEvent | 79 => Some InvalidState
  | 83 => Some PkaTagMismatch | 84 => Some PkaEngineNotBusy | 85 => Some EccSignFailed
  | 87 => Some EccMontgomeryConstCalcFailed | 88 => Some EccGenPubKeyFailed | 89 => Some DerDecodeFailed
  | 90 => Some ShaCmdFailed | 91 => Some RsaModExpFailed | 92 => Some RsaUnwrapInternalErr
  | 93 => Some RsaUnwrapInvalidReq | 94 => Some RsaUnwrapInvalidKek | 95 => Some RsaUnwrapOaepDecodeFailed
  | 96 => Some RsaUnwrapInvalidAesUnwrapState | 97 => Some RsaUnwrapAesUnwrapFailed | 98 => Some RsaMontgomeryConstCalcFailed
  | 99 => Some RsaMontgomeryInFailed | 100 => Some RsaModularMultiplicationFailed | 101 => Some RsaMontgomeryOutFailed
  | 102 => Some RsaModularInverseFailed | 103 => Some AttestationReportEncodeFailed | 104 => Some CoseKeyEncodeFailed
  | 105 => Some AttestKeyInternalErr | 106 => Some EcdhComputeFailed | 107 => Some ExpectedIoq
  | 108 => Some InvalidIoq | 109 => Some IpcSendFailure | 110 => Some IpcResponseError
  | 111 => Some DerAndKeyTypeMismatch | 112 => Some KeyDeriveFailed | 113 => Some CannotDeleteAppSessionsOpen
  | 114 => Some AesBulk256InvalidParameter | 115 => Some InvalidIpcShutdownRequest | 116 => Some InvalidCertificate
  | 117 => Some PendingKeyGeneration | 118 => Some IoTimeOut | 119 => Some DrainBusy
  | 120 => Some CannotDeleteInternalKeys | 121 => Some DeferredQueueDeleteNotifyErr | 122 => Some SoftAesReqSendFailed
  | 123 => Some SessionEncryptionKeyGenerateFailed | 124 => Some PinDecryptionFailed | 125 => Some IpcResponseDecodeError
  | 126 => Some ReachedMaxAesBulkKeys | 127 => Some HmacInvalidInputSize | 128 => Some HmacComputeFailed
  | 129 => Some NonceMismatch | 130 => Some EstablishCredEncryptionKeyGenerateFailed | 131 => Some HkdfInvalidInputParam
  | 132 => Some HkdfError | 133 => Some KbkdfInvalidInputParam | 134 => Some KbkdfError
  | 135 => Some InvalidKeyTableIndex | 136 => Some UnknownSelfTest | 137 => Some MissingSelfTestEngineInstance
  | 138 => Some LoginFailed | 139 => Some SoftAesInvalidResp | 140 => Some PkaMemoryWipeFailed
  | 141 => Some DrainReady | 142 => Some KeyStructuralValidationFailed | 143 => Some InvalidPorMeasurementDataAccess
  | 144 => Some PctValidationEccGenKeyFailed | 145 => Some PctValidationEstablishCredEncKeyFailed | 146 => Some PctValidationSessionEncKeyFailed
  | 147 => Some PctValidationUnwrappingKeyFailed | 148 => Some PctValidationRsaUnwrapEccKeyFailed | 149 => Some PctValidationRsaUnwrapRsaKeyFailed
  | 150 => Some NonFipsApprovedMessageDigest | 151 => Some DigestHashMismatchWithEccCurve | 152 => Some UnsupportedDigestHashAlgorithm
  | 153 => Some BeginEccPointValidationFailed | 154 => Some EndEccPointValidationFailed | 155 => Some EccPointValidationFailed
  | 156 => Some EccPublicKeyValidationFailed | 157 => Some EccDerKeyShorterThanCurve | 158 => Some PartitionIdGenerationFailed
  | 159 => Some PartitionCertGenerationFailed | 160 => Some PartitionCertInvalidTypeConversion | 161 => Some FsmAllocationFailed
  | 162 => Some PartitionCertTooLarge | 163 => Some MaskedKeyInvalidLength | 164 => Some MaskedKeyPreEncodeFailed
  | 165 => Some MaskedKeyEncodeFailed | 166 => Some MaskedKeyDecodeFailed | 167 => Some InvalidAlgorithm
  | 168 => Some InsufficientBuffer | 169 => Some InvalidKeyLength | 170 => Some MetadataEncodeFailed
  | 171 => Some MetadataDecodeFailed | 172 => Some SessionNeedsRenegotiation | 173 => Some BkBootGenerationFailed
  | 174 => Some MaskingBk3Failed | 175 => Some UnmaskingBk3Failed | 176 => Some MaskingBkBootFailed
  | 177 => Some UnmaskingBkBootFailed | 178 => Some MaskedBkBootNotPresent | 179 => Some SealedBk3TooLarge
  | 180 => Some PartitionAlreadyProvisioned | 181 => Some SealedBk3NotPresent | 183 => Some InvalidAliasKey
  | 184 => Some UnmaskUnwrappingKeyNotAllowed | 185 => Some InvalidPartIdPrivKeyInternalError | 186 => Some PartitionNotProvisioned
  | 187 => Some CredentialsNotEstablished | 188 => Some Bk3AlreadyInitialized | 189 => Some SealedBk3AlreadySet
  | 190 => Some PartitionIdKeyGenerationPctFailed | 191 => Some InvalidIpcGetKeyBulkRequest
  | _ => None
  end)%Z.

Lemma HsmErr_of_to_literal (e : HsmErr) : HsmErr_of_literal (HsmErr_literal e) = Some e.
Proof. by destruct e. Qed.

#[global] Instance HsmErr_literal_inj : Inj (=) (=) HsmErr_literal.
Proof.
  intros e1 e2 H. pose proof (HsmErr_of_to_literal e1) as H1.
  rewrite H, HsmErr_of_to_literal in H1. by simplify_eq.
Qed.

#[global] Instance HsmErr_eq_dec : EqDecision HsmErr.
Proof.
  refine (λ e1 e2, cast_if (decide (HsmErr_literal e1 = HsmErr_literal e2)));
    [by apply (inj HsmErr_literal)|congruence].
Defined.

(** [impl CmdFsmError for HsmErr]. *)
Definition HsmErr_pending (e : HsmErr) : bool := bool_decide (e = Pending).
Definition HsmErr_drain_ready (e : HsmErr) : bool := bool_decide (e = DrainReady).
