(* ===== verification/KeyEntry.v ===== *)
(** * Key metadata (hsm/src/partition/vault/store: entry.rs, attributes.rs,
      key_number.rs; hsm/src/partition/vault/key: mod.rs, hmac.rs)

    The flags, kinds, classes and attributes of a vault entry, the physical
    entry itself and the key number.  [bitfield] structs are records with one
    field per declared bit-field, in declaration order. *)

From stdpp Require Import base list numbers option.
From S2P Require Import Prelude HsmError.

(** ** Constants (store/mod.rs, entry.rs, attributes.rs) *)

Definition MAX_TABLE_COUNT : nat := 65.
Definition MAX_TABLE_ENTRY_COUNT : nat := 256.
Definition TOTAL_TABLE_LEN : nat := 17 * 1024.
Definition COMMON_ATTRIBUTES_BLOB_SIZE : nat := 24.
Definition ENTRY_SPECIFIC_ATTRIBUTES_BLOB_SIZE : nat := 8.
Definition ATTRIBUTES_BLOB_SIZE : nat :=
  COMMON_ATTRIBUTES_BLOB_SIZE + ENTRY_SPECIFIC_ATTRIBUTES_BLOB_SIZE.
Definition ENTRY_BLOB_BLOCK_ALIGNMENT : nat := 8.
Definition KEY_TAG_UNASSIGNED : Z := 0.
(** [VarLenHmacShaKey::KEY_LENGTH_INDEX] *)
Definition KEY_LENGTH_INDEX : nat := 0.

(** ** Attribute flags (attributes.rs) *)

Record EntryAttributeFlags : Set := mkEntryAttributeFlags {
  af_internal : bool;
  af_session : bool;
  af_private : bool;
  af_modifiable : bool;
  af_destroyable : bool;
  af_local : bool;
  af_extractable : bool;
  af_never_extractable : bool;
  af_trusted : bool;
  af_wrap_with_trusted : bool;
  af_encrypt : bool;
  af_decrypt : bool;
  af_sign : bool;
  af_verify : bool;
  af_wrap : bool;
  af_unwrap : bool;
  af_derive : bool;
  af_rsvd : Z (* 47 bits *)
}.

(** [EntryAttributeFlags::default()]: every bit clear. *)
Definition EntryAttributeFlags_default : EntryAttributeFlags :=
  mkEntryAttributeFlags false false false false false false false false false
    false false false false false false false false 0.

Definition set_session (v : bool) (f : EntryAttributeFlags) : EntryAttributeFlags :=
  let '(mkEntryAttributeFlags i _ p m d l e n t ww en de si ve wr un dv r) := f in
  mkEntryAttributeFlags i v p m d l e n t ww en de si ve wr un dv r.
Definition set_local (v : bool) (f : EntryAttributeFlags) : EntryAttributeFlags :=
  let '(mkEntryAttributeFlags i s p m d _ e n t ww en de si ve wr un dv r) := f in
  mkEntryAttributeFlags i s p m d v e n t ww en de si ve wr un dv r.
Definition set_encrypt (v : bool) (f : EntryAttributeFlags) : EntryAttributeFlags :=
  let '(mkEntryAttributeFlags i s p m d l e n t ww _ de si ve wr un dv r) := f in
  mkEntryAttributeFlags i s p m d l e n t ww v de si ve wr un dv r.
Definition set_decrypt (v : bool) (f : EntryAttributeFlags) : EntryAttributeFlags :=
  let '(mkEntryAttributeFlags i s p m d l e n t ww en _ si ve wr un dv r) := f in
  mkEntryAttributeFlags i s p m d l e n t ww en v si ve wr un dv r.
Definition set_sign (v : bool) (f : EntryAttributeFlags) : EntryAttributeFlags :=
  let '(mkEntryAttributeFlags i s p m d l e n t ww en de _ ve wr un dv r) := f in
  mkEntryAttributeFlags i s p m d l e n t ww en de v ve wr un dv r.
Definition set_verify (v : bool) (f : EntryAttributeFlags) : EntryAttributeFlags :=
  let '(mkEntryAttributeFlags i s p m d l e n t ww en de si _ wr un dv r) := f in
  mkEntryAttributeFlags i s p m d l e n t ww en de si v wr un dv r.
Definition set_unwrap (v : bool) (f : EntryAttributeFlags) : EntryAttributeFlags :=
  let '(mkEntryAttributeFlags i s p m d l e n t ww en de si ve wr _ dv r) := f in
  mkEntryAttributeFlags i s p m d l e n t ww en de si ve wr v dv r.
Definition set_derive (v : bool) (f : EntryAttributeFlags) : EntryAttributeFlags :=
  let '(mkEntryAttributeFlags i s p m d l e n t ww en de si ve wr un _ r) := f in
  mkEntryAttributeFlags i s p m d l e n t ww en de si ve wr un v r.

Record CommonEntryAttributes : Set := mkCommonEntryAttributes {
  ca_flags : EntryAttributeFlags;
  ca_rsvd : list Z (* [u8; 16] *)
}.

Record EntryAttributes : Set := mkEntryAttributes {
  ea_common : CommonEntryAttributes;
  ea_entry_specific : list Z (* [u8; 8] *)
}.

Definition EntryAttributes_default : EntryAttributes :=
  mkEntryAttributes
    (mkCommonEntryAttributes EntryAttributeFlags_default (replicate 16 0%Z))
    (replicate 8 0%Z).

(** [attributes.common.flags] and an update of it. *)
Definition ea_flags (a : EntryAttributes) : EntryAttributeFlags := ca_flags (ea_common a).
Definition map_flags (f : EntryAttributeFlags → EntryAttributeFlags) (a : EntryAttributes) :
    EntryAttributes :=
  mkEntryAttributes
    (mkCommonEntryAttributes (f (ea_flags a)) (ca_rsvd (ea_common a)))
    (ea_entry_specific a).

(** [attributes.entry_specific[VarLenHmacShaKey::KEY_LENGTH_INDEX]] as [usize]
    (the array has eight elements, so the index is always in range). *)
Definition key_length_of (a : EntryAttributes) : nat :=
  Z.to_nat (default 0%Z (ea_entry_specific a !! KEY_LENGTH_INDEX)).

(** The ranges the Rust types impose on an attribute block. *)
Definition attributes_wf (a : EntryAttributes) : Prop :=
  length (ca_rsvd (ea_common a)) = 16 ∧
  length (ea_entry_specific a) = 8 ∧
  Forall (uint_range 8) (ca_rsvd (ea_common a)) ∧
  Forall (uint_range 8) (ea_entry_specific a) ∧
  uint_range 47 (af_rsvd (ea_flags a)).

(** ** Entry flags (entry.rs) *)

Record EntryFlags : Set := mkEntryFlags {
  ef_disabled : bool;
  ef_session : bool;
  ef_reserved : Z (* 14 bits *)
}.

Definition EntryFlags_default : EntryFlags := mkEntryFlags false false 0.

Definition set_disabled (v : bool) (f : EntryFlags) : EntryFlags :=
  mkEntryFlags v (ef_session f) (ef_reserved f).

(** [impl From<EntryAttributeFlags> for EntryFlags] *)
Definition EntryFlags_from (f : EntryAttributeFlags) : EntryFlags :=
  mkEntryFlags (ef_disabled EntryFlags_default) (af_session f)
    (ef_reserved EntryFlags_default).

(** ** Entry kinds (entry.rs) *)

Inductive EntryKind : Set :=
  | EK_Free
  | EK_Rsa2kPublic | EK_Rsa3kPublic | EK_Rsa4kPublic
  | EK_Rsa2kPrivate | EK_Rsa3kPrivate | EK_Rsa4kPrivate
  | EK_Rsa2kPrivateCrt | EK_Rsa3kPrivateCrt | EK_Rsa4kPrivateCrt
  | EK_Ecc256Public | EK_Ecc384Public | EK_Ecc521Public
  | EK_Ecc256Private | EK_Ecc384Private | EK_Ecc521Private
  | EK_Aes128 | EK_Aes192 | EK_Aes256
  | EK_AesXtsBulk256 | EK_AesGcmBulk256 | EK_AesGcmBulk256Unapproved
  | EK_Secret256 | EK_Secret384 | EK_Secret521
  | EK_EstablishCred | EK_SessionEncryption | EK_Session
  | EK_HmacSha256 | EK_HmacSha384 | EK_HmacSha512
  | EK_MaskingKey
  | EK_VarLenHmacSha256 | EK_VarLenHmacSha384 | EK_VarLenHmacSha512.
#[global] Instance EntryKind_eq_dec : EqDecision EntryKind.
Proof. solve_decision. Defined.

(** [EntryKind::raw_key_blob_size]; the variable-length kinds are
    [unreachable!()]. *)
Definition raw_key_blob_size (k : EntryKind) : outcome HsmErr nat :=
  match k with
  | EK_Free => Ok 0
  | EK_Rsa2kPublic => Ok 260
  | EK_Rsa3kPublic => Ok 388
  | EK_Rsa4kPublic => Ok 516
  | EK_Rsa2kPrivate => Ok 516
  | EK_Rsa3kPrivate => Ok 772
  | EK_Rsa4kPrivate => Ok 1028
  | EK_Rsa2kPrivateCrt => Ok 1284
  | EK_Rsa3kPrivateCrt => Ok 1924
  | EK_Rsa4kPrivateCrt => Ok 2564
  | EK_Ecc256Public => Ok 64
  | EK_Ecc384Public => Ok 96
  | EK_Ecc521Public => Ok 136
  | EK_Ecc256Private => Ok 32
  | EK_Ecc384Private => Ok 48
  | EK_Ecc521Private => Ok 68
  | EK_Aes128 => Ok 16
  | EK_Aes192 => Ok 24
  | EK_Aes256 => Ok 32
  | EK_AesXtsBulk256 => Ok 2
  | EK_AesGcmBulk256 => Ok 2
  | EK_AesGcmBulk256Unapproved => Ok 2
  | EK_Secret256 => Ok 32
  | EK_Secret384 => Ok 48
  | EK_Secret521 => Ok 68
  | EK_EstablishCred => Ok (96 + 48)
  | EK_SessionEncryption => Ok (96 + 48)
  | EK_Session => Ok (8 + 80)
  | EK_HmacSha256 => Ok 32
  | EK_HmacSha384 => Ok 48
  | EK_HmacSha512 => Ok 64
  | EK_MaskingKey => Ok 80
  | EK_VarLenHmacSha256 | EK_VarLenHmacSha384 | EK_VarLenHmacSha512 => Panic
  end.

(** [EntryKind::aligned_key_blob_size]: round up to the block alignment. *)
Definition aligned_key_blob_size (k : EntryKind) (key_len : option nat) : outcome HsmErr nat :=
  raw_size ← match key_len with Some len => Ok len | None => raw_key_blob_size k end;
  let alignment := ENTRY_BLOB_BLOCK_ALIGNMENT in
  let remainder := raw_size mod alignment in
  if decide (remainder = 0) then Ok raw_size
  else Ok (raw_size + (alignment - remainder)).

(** [EntryKind::storage_size] *)
Definition storage_size (k : EntryKind) (key_len : option nat) : outcome HsmErr nat :=
  n ← aligned_key_blob_size k key_len; Ok (ATTRIBUTES_BLOB_SIZE + n).

(** [EntryKind::is_bulk_key] and [EntryKind::is_var_hmac_key] *)
Definition is_bulk_key (k : EntryKind) : bool :=
  match k with
  | EK_AesXtsBulk256 | EK_AesGcmBulk256 | EK_AesGcmBulk256Unapproved => true
  | _ => false
  end.
Definition is_var_hmac_key (k : EntryKind) : bool :=
  match k with
  | EK_VarLenHmacSha256 | EK_VarLenHmacSha384 | EK_VarLenHmacSha512 => true
  | _ => false
  end.

(** ** Entry classes (entry.rs) *)

Inductive EntryClass : Set :=
  | EC_Free | EC_Rsa | EC_RsaCrt | EC_Ecc | EC_Aes | EC_AesXtsBulk | EC_AesGcmBulk
  | EC_AesGcmBulkUnapproved | EC_Secret | EC_Session | EC_Hmac | EC_VarLenHmacSha
  | EC_MaskingKey.
#[global] Instance EntryClass_eq_dec : EqDecision EntryClass.
Proof. solve_decision. Defined.

(** [EntryClass::is_bulk_key] *)
Definition EntryClass_is_bulk_key (c : EntryClass) : bool :=
  match c with
  | EC_AesXtsBulk | EC_AesGcmBulk | EC_AesGcmBulkUnapproved => true
  | _ => false
  end.

(** [impl From<EntryKind> for EntryClass] *)
Definition EntryClass_from (k : EntryKind) : EntryClass :=
  match k with
  | EK_Rsa2kPublic | EK_Rsa3kPublic | EK_Rsa4kPublic
  | EK_Rsa2kPrivate | EK_Rsa3kPrivate | EK_Rsa4kPrivate => EC_Rsa
  | EK_Rsa2kPrivateCrt | EK_Rsa3kPrivateCrt | EK_Rsa4kPrivateCrt => EC_RsaCrt
  | EK_Ecc256Public | EK_Ecc384Public | EK_Ecc521Public
  | EK_Ecc256Private | EK_Ecc384Private | EK_Ecc521Private
  | EK_EstablishCred | EK_SessionEncryption => EC_Ecc
  | EK_Aes128 | EK_Aes192 | EK_Aes256 => EC_Aes
  | EK_AesXtsBulk256 => EC_AesXtsBulk
  | EK_AesGcmBulk256 => EC_AesGcmBulk
  | EK_AesGcmBulk256Unapproved => EC_AesGcmBulkUnapproved
  | EK_Secret256 | EK_Secret384 | EK_Secret521 => EC_Secret
  | EK_Session => EC_Session
  | EK_HmacSha256 | EK_HmacSha384 | EK_HmacSha512 => EC_Hmac
  | EK_Free => EC_Free
  | EK_MaskingKey => EC_MaskingKey
  | EK_VarLenHmacSha256 | EK_VarLenHmacSha384 | EK_VarLenHmacSha512 => EC_VarLenHmacSha
  end.

(** ** Variable-length HMAC kinds (vault/key/hmac.rs) *)

Inductive VarLenHmacShaKeyKind : Set :=
  | VarLenHmacShaKey256 | VarLenHmacShaKey384 | VarLenHmacShaKey512.

Definition max_length (k : VarLenHmacShaKeyKind) : nat :=
  match k with
  | VarLenHmacShaKey256 => 64
  | VarLenHmacShaKey384 => 128
  | VarLenHmacShaKey512 => 128
  end.

Definition min_length (k : VarLenHmacShaKeyKind) : nat :=
  match k with
  | VarLenHmacShaKey256 => 32
  | VarLenHmacShaKey384 => 48
  | VarLenHmacShaKey512 => 64
  end.

(** [impl From<VarLenHmacShaKeyKind> for EntryKind] *)
Definition EntryKind_from_var_hmac (k : VarLenHmacShaKeyKind) : EntryKind :=
  match k with
  | VarLenHmacShaKey256 => EK_VarLenHmacSha256
  | VarLenHmacShaKey384 => EK_VarLenHmacSha384
  | VarLenHmacShaKey512 => EK_VarLenHmacSha512
  end.

(** [impl TryFrom<EntryKind> for VarLenHmacShaKeyKind] *)
Definition var_hmac_try_from (k : EntryKind) : outcome HsmErr VarLenHmacShaKeyKind :=
  match k with
  | EK_VarLenHmacSha256 => Ok VarLenHmacShaKey256
  | EK_VarLenHmacSha384 => Ok VarLenHmacShaKey384
  | EK_VarLenHmacSha512 => Ok VarLenHmacShaKey512
  | _ => Err InvalidKeyType
  end.

(** ** The physical entry (entry.rs) *)

Record PhysicalEntry : Set := mkPhysicalEntry {
  pe_offset : Z; (* u16, in 8-byte blocks *)
  pe_flags : EntryFlags;
  pe_session_id_or_key_tag : Z; (* u16 *)
  pe_kind : EntryKind;
  pe_app_id : Z (* u8 *)
}.

(** The entry [PhysicalEntry::new(0, EntryFlags::default(), 0, EntryKind::Free, 0)]. *)
Definition free_entry : PhysicalEntry := mkPhysicalEntry 0 EntryFlags_default 0 EK_Free 0.

Definition attributes_bytes_offset (e : PhysicalEntry) : nat :=
  Z.to_nat (pe_offset e) * ENTRY_BLOB_BLOCK_ALIGNMENT.

Definition key_blob_bytes_offset (e : PhysicalEntry) : nat :=
  attributes_bytes_offset e + ATTRIBUTES_BLOB_SIZE.

Definition session_id (e : PhysicalEntry) : option Z :=
  if ef_session (pe_flags e) then Some (pe_session_id_or_key_tag e) else None.

Definition key_tag (e : PhysicalEntry) : option Z :=
  if ef_session (pe_flags e)
     || bool_decide (pe_session_id_or_key_tag e = KEY_TAG_UNASSIGNED)
  then None
  else Some (pe_session_id_or_key_tag e).

Definition is_empty (e : PhysicalEntry) : bool := bool_decide (pe_kind e = EK_Free).

Definition disabled (e : PhysicalEntry) : bool := ef_disabled (pe_flags e).

Definition with_flags (e : PhysicalEntry) (f : EntryFlags) : PhysicalEntry :=
  mkPhysicalEntry (pe_offset e) f (pe_session_id_or_key_tag e) (pe_kind e) (pe_app_id e).

Definition disable (e : PhysicalEntry) : PhysicalEntry :=
  with_flags e (set_disabled true (pe_flags e)).

Definition enable (e : PhysicalEntry) : PhysicalEntry :=
  with_flags e (set_disabled false (pe_flags e)).

(** ** Key numbers (key_number.rs) *)

(** [KeyNumber::new(table_index, entry_index).0] *)
Definition KeyNumber_new (table_index entry_index : Z) : Z :=
  Z.lor (wrap 16 (Z.shiftl table_index 8)) entry_index.

(** [KeyNumber(n).table()] *)
Definition KeyNumber_table (n : Z) : Z := wrap 8 (Z.shiftr n 8).

(** [KeyNumber(n).entry()] *)
Definition KeyNumber_entry (n : Z) : Z := wrap 8 (Z.land n 0xff).

(** ** Facts *)

(** The storage of an entry is a whole number of blocks, at least five. *)
Definition blocks_of (k : EntryKind) (key_len : option nat) : outcome HsmErr nat :=
  n ← storage_size k key_len; Ok (n / ENTRY_BLOB_BLOCK_ALIGNMENT).

Lemma aligned_round_up n :
  let a := if decide (n mod 8 = 0) then n else n + (8 - n mod 8) in
  a mod 8 = 0 ∧ n ≤ a < n + 8.
Proof.
  intros a. subst a. pose proof (Nat.mod_upper_bound n 8).
  pose proof (Nat.div_mod_eq n 8).
  case_decide; [lia|]. split; [|lia].
  replace (n + (8 - n mod 8)) with ((n / 8 + 1) * 8) by lia.
  apply Nat.Div0.mod_mul.
Qed.

Lemma storage_size_spec k key_len s :
  storage_size k key_len = Ok s →
  ∃ raw, (match key_len with Some len => Ok len | None => raw_key_blob_size k end) = Ok raw ∧
    s mod 8 = 0 ∧ 32 + raw ≤ s < 32 + raw + 8.
Proof.
  unfold storage_size, aligned_key_blob_size. intros H.
  apply outcome_bind_Ok in H as (n & H & Hs).
  assert (s = n + 4 * 8) as -> by (injection Hs as <-; unfold ATTRIBUTES_BLOB_SIZE,
    COMMON_ATTRIBUTES_BLOB_SIZE, ENTRY_SPECIFIC_ATTRIBUTES_BLOB_SIZE; lia).
  apply outcome_bind_Ok in H as (raw & Hraw & Hn). exists raw. split; [done|].
  pose proof (aligned_round_up raw) as [H1 H2].
  change ENTRY_BLOB_BLOCK_ALIGNMENT with 8 in Hn.
  assert (n mod 8 = 0 ∧ raw ≤ n < raw + 8) as [Hm Hr].
  { simpl in *. case_decide; by simplify_eq. }
  split; [by rewrite Nat.Div0.mod_add|lia].
Qed.

Lemma raw_key_blob_size_fixed k :
  is_var_hmac_key k = false → ∃ n, raw_key_blob_size k = Ok n.
Proof. destruct k; naive_solver. Qed.

Lemma storage_size_total k key_len :
  (key_len = None → is_var_hmac_key k = false) → ∃ s, storage_size k key_len = Ok s.
Proof.
  intros H. unfold storage_size, aligned_key_blob_size.
  destruct key_len as [len|]; simpl; [case_decide; eauto|].
  destruct (raw_key_blob_size_fixed k) as [n ->]; [by apply H|].
  simpl. case_decide; eauto.
Qed.

Lemma KeyNumber_range t i :
  uint_range 8 t → uint_range 8 i → uint_range 16 (KeyNumber_new t i).
Proof.
  intros Ht Hi. unfold KeyNumber_new. apply uint_range_bits; [lia| |].
  - apply Z.lor_nonneg. split; [|apply Hi].
    pose proof (wrap_range 16 (Z.shiftl t 8)). unfold uint_range in *. lia.
  - intros j Hj. rewrite Z.lor_spec, (testbit_above 8 i), orb_false_r by (done || lia).
    apply (testbit_above 16); [|lia]. apply wrap_range. lia.
Qed.

Lemma KeyNumber_shape t i :
  uint_range 8 t → uint_range 8 i → KeyNumber_new t i = (t * 256 + i)%Z.
Proof.
  intros Ht Hi. unfold KeyNumber_new.
  assert (Z.shiftl t 8 = t * 256)%Z as Hs by (by rewrite Z.shiftl_mul_pow2).
  rewrite Hs, wrap_small by (unfold uint_range in *; lia).
  assert (Z.land (t * 256) i = 0)%Z.
  { rewrite <- Hs. apply Z.bits_inj'. intros j Hj. rewrite Z.land_spec, Z.bits_0.
    destruct (decide (j < 8)%Z).
    - by rewrite Z.shiftl_spec_low by lia.
    - by rewrite (testbit_above 8 i), andb_false_r by (done || lia). }
  by rewrite Z.add_nocarry_lxor, Z.lxor_lor.
Qed.

Lemma KeyNumber_table_new t i :
  uint_range 8 t → uint_range 8 i → KeyNumber_table (KeyNumber_new t i) = t.
Proof.
  intros Ht Hi. rewrite KeyNumber_shape by done. unfold KeyNumber_table.
  rewrite Z.shiftr_div_pow2 by lia. change (2 ^ 8)%Z with 256%Z.
  unfold uint_range in *. rewrite Z.div_add_l, (Z.div_small i), Z.add_0_r by lia.
  by apply wrap_small.
Qed.

Lemma KeyNumber_entry_new t i :
  uint_range 8 t → uint_range 8 i → KeyNumber_entry (KeyNumber_new t i) = i.
Proof.
  intros Ht Hi. rewrite KeyNumber_shape by done. unfold KeyNumber_entry.
  change 0xff%Z with (Z.ones 8). rewrite Z.land_ones by lia.
  rewrite Z.add_comm. unfold uint_range in *.
  rewrite Z.mod_add by lia. rewrite (Z.mod_small i) by lia.
  by apply wrap_small.
Qed.

Lemma KeyNumber_new_split n :
  uint_range 16 n → KeyNumber_new (KeyNumber_table n) (KeyNumber_entry n) = n.
Proof.
  intros Hn.
  assert (uint_range 8 (KeyNumber_table n)) by (apply wrap_range; lia).
  assert (uint_range 8 (KeyNumber_entry n)) by (apply wrap_range; lia).
  rewrite KeyNumber_shape by done. unfold KeyNumber_table, KeyNumber_entry in *.
  rewrite Z.shiftr_div_pow2 by lia.
  change 0xff%Z with (Z.ones 8). rewrite Z.land_ones by lia.
  change (2 ^ 8)%Z with 256%Z. unfold uint_range in *.
  rewrite wrap_small by (unfold uint_range; split; [apply Z.div_pos; lia|
    apply Z.div_lt_upper_bound; lia]).
  rewrite wrap_small by (unfold uint_range; apply Z.mod_pos_bound; lia).
  pose proof (Z.div_mod n 256). lia.
Qed.
