(* ===== verification/Crates.v ===== *)
(** * Third-party crates used by the vault

    [zerocopy], [zeroize] and [bitfield] are not part of the repository.  The
    components take them as class arguments: the operations they call and
    the documented behaviour they rely on.  Each class has an implementation
    ([zerocopy_le], [zeroize_fill], [bit_crate_Z]), so every theorem proved
    against it can be evaluated. *)

From stdpp Require Import base list numbers option.
From S2P Require Import Prelude HsmError KeyEntry.

(** [zerocopy]: [IntoBytes::as_bytes] and [FromBytes::ref_from_bytes] of
    [EntryAttributes], a [repr(C)] struct of [ATTRIBUTES_BLOB_SIZE] bytes.
    The bytes of a value have the size of the type and read back as it. *)
Class Zerocopy := {
  as_bytes : EntryAttributes → list Z;
  ref_from_bytes : list Z → option EntryAttributes;
  length_as_bytes a : attributes_wf a → length (as_bytes a) = ATTRIBUTES_BLOB_SIZE;
  ref_from_as_bytes a : attributes_wf a → ref_from_bytes (as_bytes a) = Some a
}.

(** [zeroize]: [Zeroize::zeroize] of a byte slice overwrites it with zeros. *)
Class Zeroize := {
  zeroize : list Z → list Z;
  zeroize_spec l : zeroize l = replicate (length l) 0%Z
}.

(** [bitfield]: [Bit::bit] and [BitMut::set_bit] of a [w]-bit unsigned word. *)
Class BitCrate := {
  bit : Z → nat → bool;
  set_bit : Z → Z → nat → bool → Z;
  bit_spec w v i : uint_range w v → (Z.of_nat i < w)%Z → bit v i = Z.testbit v (Z.of_nat i);
  set_bit_range w v i b :
    uint_range w v → (Z.of_nat i < w)%Z → uint_range w (set_bit w v i b);
  set_bit_spec w v i b j :
    uint_range w v → (Z.of_nat i < w)%Z → (Z.of_nat j < w)%Z →
    bit (set_bit w v i b) j = if decide (i = j) then b else bit v j
}.

(** ** Instances *)

(** The little-endian layout: a 64-bit flag word, 16 reserved bytes, 8
    entry-specific bytes. *)
Fixpoint pack_bits (l : list bool) (rest : Z) : Z :=
  match l with
  | [] => rest
  | b :: l => Z.b2z b + 2 * pack_bits l rest
  end.

Fixpoint unpack_bits (n : nat) (v : Z) : list bool * Z :=
  match n with
  | O => ([], v)
  | S n => let '(l, r) := unpack_bits n (Z.div2 v) in (Z.odd v :: l, r)
  end.

Lemma unpack_pack_bits l rest : unpack_bits (length l) (pack_bits l rest) = (l, rest).
Proof.
  induction l as [|b l IH]; simpl; [done|].
  replace (Z.div2 (Z.b2z b + 2 * pack_bits l rest)) with (pack_bits l rest).
  - rewrite IH. f_equal. f_equal. rewrite Z.odd_add, Z.odd_mul. by destruct b.
  - rewrite Z.div2_div, Z.mul_comm, Z.div_add by lia. by destruct b.
Qed.

Lemma pack_bits_range l rest n :
  uint_range (Z.of_nat n) rest → uint_range (Z.of_nat (length l + n)) (pack_bits l rest).
Proof.
  intros H. induction l as [|b l IH]; simpl; [done|]. unfold uint_range in *.
  rewrite Nat2Z.inj_succ, Z.pow_succ_r by lia. destruct b; simpl; lia.
Qed.

Definition flag_bits (f : EntryAttributeFlags) : list bool :=
  [af_internal f; af_session f; af_private f; af_modifiable f; af_destroyable f;
   af_local f; af_extractable f; af_never_extractable f; af_trusted f;
   af_wrap_with_trusted f; af_encrypt f; af_decrypt f; af_sign f; af_verify f;
   af_wrap f; af_unwrap f; af_derive f].

Definition flags_word (f : EntryAttributeFlags) : Z := pack_bits (flag_bits f) (af_rsvd f).

Definition word_flags (v : Z) : option EntryAttributeFlags :=
  match unpack_bits 17 v with
  | ([i; s; p; m; d; l; e; n; t; ww; en; de; si; ve; wr; un; dv], r) =>
      Some (mkEntryAttributeFlags i s p m d l e n t ww en de si ve wr un dv r)
  | _ => None
  end.

Definition attributes_to_bytes (a : EntryAttributes) : list Z :=
  to_le_bytes 8 (flags_word (ea_flags a)) ++ ca_rsvd (ea_common a) ++ ea_entry_specific a.

Definition attributes_of_bytes (l : list Z) : option EntryAttributes :=
  if decide (length l = 32) then
    f ← word_flags (from_le_bytes (take 8 l));
    Some (mkEntryAttributes
            (mkCommonEntryAttributes f (take 16 (drop 8 l))) (drop 24 l))
  else None.

Lemma word_flags_word f : word_flags (flags_word f) = Some f.
Proof.
  unfold word_flags, flags_word. change 17 with (length (flag_bits f)).
  rewrite unpack_pack_bits. by destruct f.
Qed.

Lemma length_attributes_to_bytes a :
  attributes_wf a → length (attributes_to_bytes a) = ATTRIBUTES_BLOB_SIZE.
Proof.
  intros (H1 & H2 & _). unfold attributes_to_bytes.
  rewrite !length_app, length_to_le_bytes, H1, H2. done.
Qed.

Lemma attributes_of_to_bytes a :
  attributes_wf a → attributes_of_bytes (attributes_to_bytes a) = Some a.
Proof.
  intros Hwf. pose proof (length_attributes_to_bytes a Hwf) as Hlen.
  destruct Hwf as (H1 & H2 & _ & _ & Hr). unfold attributes_of_bytes.
  rewrite decide_True by done. unfold attributes_to_bytes.
  set (fb := to_le_bytes 8 _).
  assert (length fb = 8) as H8 by apply length_to_le_bytes.
  assert (from_le_bytes fb = flags_word (ea_flags a)) as Hfb.
  { apply from_to_le_bytes, (pack_bits_range (flag_bits (ea_flags a)) _ 47). done. }
  clearbody fb.
  rewrite take_app_length' by done.
  rewrite Hfb, word_flags_word. cbn [mbind option_bind].
  destruct a as [[f rs] es]. cbn in *. do 3 f_equal.
  - rewrite drop_app_length' by done. by rewrite take_app_length' by done.
  - rewrite (app_assoc fb). rewrite drop_app_length'; [done|].
    rewrite length_app, H8, H1. done.
Qed.

Definition zerocopy_le : Zerocopy := {|
  as_bytes := attributes_to_bytes;
  ref_from_bytes := attributes_of_bytes;
  length_as_bytes := length_attributes_to_bytes;
  ref_from_as_bytes := attributes_of_to_bytes
|}.

Definition zeroize_fill : Zeroize := {|
  zeroize l := replicate (length l) 0%Z;
  zeroize_spec l := eq_refl
|}.

Lemma testbit_bit_spec w v i :
  uint_range w v → (Z.of_nat i < w)%Z → Z.testbit v (Z.of_nat i) = Z.testbit v (Z.of_nat i).
Proof. done. Qed.

Lemma set_bit_to_bit_range w v i b :
  uint_range w v → (Z.of_nat i < w)%Z → uint_range w (set_bit_to w v (Z.of_nat i) b).
Proof. intros. apply set_bit_to_range; [done|lia]. Qed.

Lemma set_bit_to_bit_spec w v i b j :
  uint_range w v → (Z.of_nat i < w)%Z → (Z.of_nat j < w)%Z →
  Z.testbit (set_bit_to w v (Z.of_nat i) b) (Z.of_nat j)
    = if decide (i = j) then b else Z.testbit v (Z.of_nat j).
Proof.
  intros. rewrite testbit_set_bit_to by lia.
  do 2 case_decide; (done || lia).
Qed.

Definition bit_crate_Z : BitCrate := {|
  bit v i := Z.testbit v (Z.of_nat i);
  set_bit w v i b := set_bit_to w v (Z.of_nat i) b;
  bit_spec := testbit_bit_spec;
  set_bit_range := set_bit_to_bit_range;
  set_bit_spec := set_bit_to_bit_spec
|}.
