(* ===== verification/KeyTable.v ===== *)
(** * The physical key table (hsm/src/partition/vault/store: tracker.rs, table.rs)

    One 17 KB table of the vault: 256 metadata entries, a bitmap of used
    8-byte blocks and the blob memory, with every operation of
    [PhysicalTable].  [u8] counters wrap, as in the [firmware] profile, which
    inherits [release]. *)

From stdpp Require Import base list numbers option.
From S2P Require Import Prelude HsmError KeyEntry Crates.

(** ** Layout (table.rs) *)

Definition METADATA_LIST_OFFSET : nat := 0.
Definition METADATA_LIST_SIZE_BYTES : nat := 2048.
Definition USED_BLOCK_TRACKING_OFFSET : nat := METADATA_LIST_OFFSET + METADATA_LIST_SIZE_BYTES.
Definition USED_BLOCK_TRACKING_SIZE_BYTES : nat := 256.
Definition USED_BLOCK_TRACKING_SIZE_WORDS : nat := USED_BLOCK_TRACKING_SIZE_BYTES / 4.
Definition BLOB_MEMORY_OFFSET : nat := USED_BLOCK_TRACKING_OFFSET + USED_BLOCK_TRACKING_SIZE_BYTES.
Definition BLOB_MEMORY_SIZE_BYTES : nat := TOTAL_TABLE_LEN - BLOB_MEMORY_OFFSET.

(** [BLOB_MEMORY_SIZE_BYTES / ENTRY_BLOB_BLOCK_ALIGNMENT] *)
Definition BLOB_BLOCKS : nat := BLOB_MEMORY_SIZE_BYTES / ENTRY_BLOB_BLOCK_ALIGNMENT.

(** ** The used-block bitmap (tracker.rs) *)

Module Tracker.

Definition get (words : list Z) (i : nat) : option bool :=
  if USED_BLOCK_TRACKING_SIZE_WORDS * 32 <=? i then None
  else if BLOB_BLOCKS <=? i then None
  else
    let word := default 0%Z (words !! (i / 32)) in
    Some (negb (Z.land word (Z.shiftl 1 (Z.of_nat (i mod 32))) =? 0)%Z).

Definition set (words : list Z) (i : nat) (x : bool) : list Z :=
  if USED_BLOCK_TRACKING_SIZE_WORDS * 32 <=? i then words
  else if BLOB_BLOCKS <=? i then words
  else
    let word := default 0%Z (words !! (i / 32)) in
    <[i / 32 := set_bit_to 32 word (Z.of_nat (i mod 32)) x]> words.

(** [for i in start..start + n { tracker.set(i, x) }] *)
Fixpoint set_range (words : list Z) (start n : nat) (x : bool) : list Z :=
  match n with
  | O => words
  | S n => set_range (set words start x) (S start) n x
  end.

End Tracker.

(** ** The table (table.rs) *)

Record PhysicalTable : Set := mkPhysicalTable {
  entry_list : list PhysicalEntry;
  used_block_tracking_memory : list Z;
  key_data_memory : list Z
}.

Definition with_entry_list (l : list PhysicalEntry) (t : PhysicalTable) : PhysicalTable :=
  mkPhysicalTable l (used_block_tracking_memory t) (key_data_memory t).
Definition with_tracking (w : list Z) (t : PhysicalTable) : PhysicalTable :=
  mkPhysicalTable (entry_list t) w (key_data_memory t).
Definition with_key_data (d : list Z) (t : PhysicalTable) : PhysicalTable :=
  mkPhysicalTable (entry_list t) (used_block_tracking_memory t) d.

(** The zeroed memory a table starts from (a zero byte is [EntryKind::Free]). *)
Definition zeroed_table : PhysicalTable :=
  mkPhysicalTable (replicate MAX_TABLE_ENTRY_COUNT free_entry)
    (replicate USED_BLOCK_TRACKING_SIZE_WORDS 0%Z)
    (replicate BLOB_MEMORY_SIZE_BYTES 0%Z).

Module Table.
Section table.
Context `{ZC : Zerocopy, ZZ : Zeroize}.

(** *** [add_entry] *)

(** The key length [add_entry] expects of the blob. *)
Definition expected_key_len (attributes : EntryAttributes) (kind : EntryKind) :
    outcome HsmErr nat :=
  if is_var_hmac_key kind then
    let key_len := key_length_of attributes in
    var_hmac_key_kind ← var_hmac_try_from kind;
    if (key_len <? min_length var_hmac_key_kind) || (max_length var_hmac_key_kind <? key_len)
    then Err InvalidArgument
    else Ok key_len
  else raw_key_blob_size kind.

(** Whether a kind's storage depends on the length of the blob. *)
Definition storage_key_len (kind : EntryKind) (len : nat) : option nat :=
  if is_var_hmac_key kind then Some len else None.

(** The local variables of the block search. *)
Record scan : Set := mkScan {
  slot_found : bool;
  total_free_slots_count : nat;
  last_consecutive_free_slots_count : nat;
  last_consecutive_free_slots_started_at : nat;
  last_consecutive_free_slots_ended_at : nat
}.

(** The body of one iteration up to the [break] test. *)
Definition scan_step (words : list Z) (index : nat) (s : scan) : scan :=
  let used := default true (Tracker.get words index) in
  if used then
    mkScan (slot_found s) (total_free_slots_count s) 0 0
      (last_consecutive_free_slots_ended_at s)
  else
    mkScan (slot_found s) (total_free_slots_count s + 1)
      (last_consecutive_free_slots_count s + 1)
      (if last_consecutive_free_slots_count s =? 0 then index
       else last_consecutive_free_slots_started_at s)
      (last_consecutive_free_slots_ended_at s).

(** [for index in index..index + n], leaving at the first run of
    [blocks_needed] free blocks. *)
Fixpoint scan_loop (words : list Z) (blocks_needed n index : nat) (s : scan) : scan :=
  match n with
  | O => s
  | S n =>
      let s := scan_step words index s in
      if blocks_needed =? last_consecutive_free_slots_count s then
        mkScan true (total_free_slots_count s) (last_consecutive_free_slots_count s)
          (last_consecutive_free_slots_started_at s) index
      else scan_loop words blocks_needed n (S index) s
  end.

Definition scan_init : scan := mkScan false 0 0 0 0.

(** The search and its two failures. *)
Definition find_blocks (words : list Z) (blocks_needed : nat) : outcome HsmErr (nat * nat) :=
  let s := scan_loop words blocks_needed BLOB_BLOCKS 0 scan_init in
  if slot_found s then
    Ok (last_consecutive_free_slots_started_at s, last_consecutive_free_slots_ended_at s)
  else if total_free_slots_count s <? blocks_needed then Err NotEnoughSpace
  else Err DefragNeeded.

Definition add_entry (attributes : EntryAttributes) (session_id_or_key_tag : Z)
    (kind : EntryKind) (app_id : Z) (blob : list Z) : M PhysicalTable HsmErr Z :=
  let flags := EntryFlags_from (ea_flags attributes) in
  key_len ← lift (expected_key_len attributes kind);
  _ ← unless (length blob =? key_len) InvalidArgument;
  _ ← unless (negb (bool_decide (kind = EK_Free))) InvalidArgument;
  size_needed ← lift (storage_size kind (storage_key_len kind (length blob)));
  let blocks_needed := size_needed / ENTRY_BLOB_BLOCK_ALIGNMENT in
  t ← get;
  slot ← lift (ok_or (list_find (λ e, is_empty e = true) (entry_list t)) NotEnoughSpace);
  let entry_number_to_use := slot.1 in
  run ← lift (find_blocks (used_block_tracking_memory t) blocks_needed);
  let '(started_at, ended_at) := run in
  _ ← modify (λ t, with_tracking
        (Tracker.set_range (used_block_tracking_memory t) started_at
           (ended_at + 1 - started_at) true) t);
  let offset := wrap 16 (Z.of_nat started_at) in
  let entry_index := wrap 8 (Z.of_nat entry_number_to_use) in
  let attributes_offset := Z.to_nat offset * ENTRY_BLOB_BLOCK_ALIGNMENT in
  let key_blob_offset := attributes_offset + ATTRIBUTES_BLOB_SIZE in
  t ← get;
  mem ← lift (copy_from_slice (key_data_memory t) attributes_offset
                ATTRIBUTES_BLOB_SIZE (as_bytes attributes));
  _ ← modify (with_key_data mem);
  mem ← lift (copy_from_slice mem key_blob_offset (length blob) blob);
  _ ← modify (with_key_data mem);
  _ ← modify (λ t, with_entry_list
        (<[entry_number_to_use :=
            mkPhysicalEntry offset flags session_id_or_key_tag kind app_id]>
           (entry_list t)) t);
  mret entry_index.

(** *** Lookups *)

Definition get_entry (t : PhysicalTable) (entry_index : Z) (allow_disabled : bool) :
    outcome HsmErr PhysicalEntry :=
  match entry_list t !! Z.to_nat entry_index with
  | None => Panic
  | Some entry =>
      if is_empty entry then Err InvalidKeyIndex
      else if negb allow_disabled && disabled entry then Err InvalidKeyIndex
      else Ok entry
  end.

Definition get_attributes_from_entry (t : PhysicalTable) (entry : PhysicalEntry) :
    outcome HsmErr EntryAttributes :=
  attributes_slice ← slice (key_data_memory t) (attributes_bytes_offset entry)
                       ATTRIBUTES_BLOB_SIZE;
  ok_or (ref_from_bytes attributes_slice) InvalidKeyIndex.

Definition get_entry_attributes (t : PhysicalTable) (entry_index : Z) (allow_disabled : bool) :
    outcome HsmErr EntryAttributes :=
  entry ← get_entry t entry_index allow_disabled;
  get_attributes_from_entry t entry.

Definition get_entry_blob (t : PhysicalTable) (entry_index : Z) : outcome HsmErr (list Z) :=
  entry ← get_entry t entry_index true;
  key_blob_size ← (if is_var_hmac_key (pe_kind entry)
                   then key_length_of <$> get_attributes_from_entry t entry
                   else raw_key_blob_size (pe_kind entry));
  slice (key_data_memory t) (key_blob_bytes_offset entry) key_blob_size.

Definition get_entry_index_by_tag (t : PhysicalTable) (app_id key_tag_ : Z) :
    outcome HsmErr Z :=
  if bool_decide (key_tag_ = KEY_TAG_UNASSIGNED) then Err InvalidArgument
  else
    match list_find (λ e, (negb (is_empty e) && negb (disabled e)
                           && bool_decide (pe_app_id e = app_id)
                           && bool_decide (key_tag e = Some key_tag_)) = true)
            (entry_list t) with
    | Some (i, _) => Ok (wrap 8 (Z.of_nat i))
    | None => Err KeyNotFound
    end.

(** *** Updates *)

(** [entry_list[entry_index] = f(entry)] on an existing entry: [get_entry_mut]
    followed by a write through the reference. *)
Definition update_entry (entry_index : Z) (f : PhysicalEntry → PhysicalEntry) :
    M PhysicalTable HsmErr () :=
  t ← get;
  entry ← lift (get_entry t entry_index true);
  modify (λ t, with_entry_list (<[Z.to_nat entry_index := f entry]> (entry_list t)) t).

Definition enable_entry (entry_index : Z) : M PhysicalTable HsmErr () :=
  update_entry entry_index enable.

Definition disable_entry (entry_index : Z) : M PhysicalTable HsmErr () :=
  update_entry entry_index disable.

Definition remove_entry (key_in_use_cb : Z → bool) (table_index entry_index : Z) :
    M PhysicalTable HsmErr () :=
  t ← get;
  key_length_in_attributes ← lift (key_length_of <$> get_entry_attributes t entry_index true);
  entry ← lift (get_entry t entry_index true);
  if key_in_use_cb (KeyNumber_new table_index entry_index) then
    _ ← update_entry entry_index disable;
    throw CannotDeleteKeyInUse
  else
    let entry_storage_offset := attributes_bytes_offset entry in
    let kind := pe_kind entry in
    storage_size ← lift (storage_size kind (storage_key_len kind key_length_in_attributes));
    let entry_raw_offset := Z.to_nat (pe_offset entry) in
    _ ← modify (λ t, with_entry_list
          (<[Z.to_nat entry_index := free_entry]> (entry_list t)) t);
    entry_blob ← lift (slice (key_data_memory t) entry_storage_offset storage_size);
    mem ← lift (copy_from_slice (key_data_memory t) entry_storage_offset storage_size
                  (zeroize entry_blob));
    _ ← modify (with_key_data mem);
    modify (λ t, with_tracking
      (Tracker.set_range (used_block_tracking_memory t) entry_raw_offset
         (storage_size / ENTRY_BLOB_BLOCK_ALIGNMENT) false) t).

(** The loop shared by [remove_all_session_only_entries] and
    [remove_all_entries_for_app]: remove every entry that [matching] selects,
    counting in [u8]. *)
Fixpoint remove_loop (matching : PhysicalEntry → bool) (key_in_use_cb : Z → bool)
    (table_index : Z) (indices : list nat) (delete_count failed_delete_count : Z) :
    M PhysicalTable HsmErr (Z * Z) :=
  match indices with
  | [] => mret (delete_count, failed_delete_count)
  | i :: indices => λ t,
      match entry_list t !! i with
      | None => (Panic, t)
      | Some entry =>
          if is_empty entry || negb (matching entry) then
            remove_loop matching key_in_use_cb table_index indices
              delete_count failed_delete_count t
          else
            match remove_entry key_in_use_cb table_index (wrap 8 (Z.of_nat i)) t with
            | (Ok _, t) =>
                remove_loop matching key_in_use_cb table_index indices
                  (wrap 8 (delete_count + 1)) failed_delete_count t
            | (Err _, t) =>
                remove_loop matching key_in_use_cb table_index indices
                  delete_count (wrap 8 (failed_delete_count + 1)) t
            | (Panic, t) => (Panic, t)
            end
      end
  end.

Definition remove_matching (matching : PhysicalEntry → bool) (key_in_use_cb : Z → bool)
    (table_index : Z) : M PhysicalTable HsmErr Z :=
  counts ← remove_loop matching key_in_use_cb table_index (seq 0 MAX_TABLE_ENTRY_COUNT) 0 0;
  let '(delete_count, failed_delete_count) := counts in
  if (failed_delete_count =? 0)%Z then mret delete_count
  else if (failed_delete_count =? 1)%Z then throw CannotDeleteKeyInUse
  else throw CannotDeleteSomeKeysInUse.

Definition session_only_of (session_id_ : Z) (entry : PhysicalEntry) : bool :=
  ef_session (pe_flags entry) && bool_decide (session_id entry = Some session_id_).

Definition remove_all_session_only_entries (key_in_use_cb : Z → bool)
    (table_index session_id_ : Z) : M PhysicalTable HsmErr Z :=
  remove_matching (session_only_of session_id_) key_in_use_cb table_index.

Definition app_entry_of (app_id : Z) (entry : PhysicalEntry) : bool :=
  bool_decide (pe_app_id entry = app_id).

Definition remove_all_entries_for_app (key_in_use_cb : Z → bool) (table_index app_id : Z) :
    M PhysicalTable HsmErr Z :=
  remove_matching (app_entry_of app_id) key_in_use_cb table_index.

Definition nuke (t : PhysicalTable) : PhysicalTable :=
  mkPhysicalTable ((λ _, free_entry) <$> entry_list t)
    (replicate (length (used_block_tracking_memory t)) 0%Z)
    (zeroize (key_data_memory t)).

End table.
End Table.
