(* ===== verification/KeyTableSpec.v ===== *)
(** * Correctness of the physical key table

    The bitmap and block-search lemmas of [KeyTable], the abstract table (a
    list of optional logical entries), the representation invariant [Rep]
    that ties the two, and the refinement theorems of every operation. *)

From stdpp Require Import base list numbers option.
From S2P Require Import Prelude HsmError KeyEntry Crates KeyTable.

(** Facts on the layout constants, which the proofs keep folded. *)
Lemma BLOB_BLOCKS_bound : BLOB_BLOCKS ≤ USED_BLOCK_TRACKING_SIZE_WORDS * 32.
Proof. apply Nat.leb_le. vm_compute. done. Qed.
Lemma BLOB_BLOCKS_u16 : (Z.of_nat BLOB_BLOCKS < 65536)%Z.
Proof. apply Z.ltb_lt. vm_compute. done. Qed.
Lemma BLOB_MEMORY_blocks : BLOB_MEMORY_SIZE_BYTES = BLOB_BLOCKS * 8.
Proof. vm_compute. done. Qed.
Lemma BLOB_BLOCKS_pos : 0 < BLOB_BLOCKS.
Proof. apply Nat.ltb_lt. vm_compute. done. Qed.
#[global] Opaque BLOB_BLOCKS BLOB_MEMORY_SIZE_BYTES USED_BLOCK_TRACKING_SIZE_WORDS.

(** ** The bitmap *)

Definition words_wf (words : list Z) : Prop :=
  length words = USED_BLOCK_TRACKING_SIZE_WORDS ∧ Forall (uint_range 32) words.

Lemma words_wf_lookup words i :
  words_wf words → i < BLOB_BLOCKS → ∃ w, words !! (i / 32) = Some w ∧ uint_range 32 w.
Proof.
  intros [Hl Hf] Hi. destruct (lookup_lt_is_Some_2 words (i / 32)) as [w Hw].
  - rewrite Hl. apply Nat.Div0.div_lt_upper_bound. pose proof BLOB_BLOCKS_bound. lia.
  - exists w. split; [done|]. by eapply Forall_lookup_1.
Qed.

Lemma Tracker_get_testbit words i w :
  i < BLOB_BLOCKS → words !! (i / 32) = Some w →
  Tracker.get words i = Some (Z.testbit w (Z.of_nat (i mod 32))).
Proof.
  intros Hi Hw. unfold Tracker.get. pose proof BLOB_BLOCKS_bound.
  destruct (Nat.leb_spec (USED_BLOCK_TRACKING_SIZE_WORDS * 32) i); [lia|].
  destruct (Nat.leb_spec BLOB_BLOCKS i); [lia|].
  rewrite Hw. change (default 0%Z (Some w)) with w. f_equal. rewrite Z.shiftl_1_l.
  destruct (Z.testbit w (Z.of_nat (i mod 32))) eqn:Hb.
  - apply negb_true_iff, Z.eqb_neq. intros Hz.
    assert (Z.testbit (Z.land w (2 ^ Z.of_nat (i mod 32))) (Z.of_nat (i mod 32)) = true) as Ht.
    { rewrite Z.land_spec, Hb, Z.pow2_bits_true by lia. done. }
    rewrite Hz, Z.bits_0 in Ht. done.
  - apply negb_false_iff, Z.eqb_eq, Z.bits_inj'. intros j Hj.
    rewrite Z.land_spec, Z.bits_0. destruct (decide (j = Z.of_nat (i mod 32))) as [->|].
    + by rewrite Hb.
    + rewrite Z.pow2_bits_false by lia. apply andb_false_r.
Qed.

Lemma Tracker_get_Some words i :
  words_wf words → i < BLOB_BLOCKS → ∃ b, Tracker.get words i = Some b.
Proof.
  intros Hwf Hi. destruct (words_wf_lookup words i) as (w & Hw & _); [done..|].
  eauto using Tracker_get_testbit.
Qed.

Lemma Tracker_get_lt words i b : Tracker.get words i = Some b → i < BLOB_BLOCKS.
Proof.
  unfold Tracker.get. destruct (_ <=? i); [done|].
  by destruct (Nat.leb_spec BLOB_BLOCKS i).
Qed.

Lemma Tracker_set_eq words i x w :
  i < BLOB_BLOCKS → words !! (i / 32) = Some w →
  Tracker.set words i x = <[i / 32 := set_bit_to 32 w (Z.of_nat (i mod 32)) x]> words.
Proof.
  intros Hi Hw. unfold Tracker.set. pose proof BLOB_BLOCKS_bound.
  destruct (Nat.leb_spec (USED_BLOCK_TRACKING_SIZE_WORDS * 32) i); [lia|].
  destruct (Nat.leb_spec BLOB_BLOCKS i); [lia|]. by rewrite Hw.
Qed.

Lemma Tracker_set_ge words i x : BLOB_BLOCKS ≤ i → Tracker.set words i x = words.
Proof.
  intros Hi. unfold Tracker.set. destruct (_ <=? i); [done|].
  by destruct (Nat.leb_spec BLOB_BLOCKS i); [|lia].
Qed.

Lemma Tracker_set_wf words i x : words_wf words → words_wf (Tracker.set words i x).
Proof.
  intros Hwf. destruct (decide (i < BLOB_BLOCKS)).
  - destruct (words_wf_lookup words i) as (w & Hw & Hr); [done..|].
    rewrite (Tracker_set_eq _ _ _ w) by done. destruct Hwf as [Hl Hf].
    pose proof (Nat.mod_upper_bound i 32). split.
    + by rewrite length_insert.
    + apply Forall_insert; [done|]. apply set_bit_to_range; [done|lia].
  - rewrite Tracker_set_ge by lia. done.
Qed.

Lemma Tracker_get_set words i j x :
  words_wf words → j < BLOB_BLOCKS →
  Tracker.get (Tracker.set words i x) j = if decide (i = j) then Some x else Tracker.get words j.
Proof.
  intros Hwf Hj. destruct (decide (i < BLOB_BLOCKS)) as [Hi|Hi].
  2:{ rewrite Tracker_set_ge by lia. rewrite decide_False by lia. done. }
  destruct (words_wf_lookup words i) as (w & Hw & Hr); [done..|].
  rewrite (Tracker_set_eq _ _ _ w) by done.
  pose proof (Nat.mod_upper_bound i 32). pose proof (Nat.mod_upper_bound j 32).
  pose proof (Nat.div_mod_eq i 32). pose proof (Nat.div_mod_eq j 32).
  destruct (words_wf_lookup words j) as (w' & Hw' & _); [done..|].
  rewrite (Tracker_get_testbit words j w') by done.
  destruct (decide (i / 32 = j / 32)) as [Heq|Hne].
  - rewrite Heq in *. simplify_eq.
    erewrite Tracker_get_testbit; [|done|].
    2:{ apply list_lookup_insert_eq. by eapply lookup_lt_Some. }
    rewrite testbit_set_bit_to by lia.
    repeat case_decide; try done; lia.
  - rewrite decide_False by (intros ->; done).
    erewrite Tracker_get_testbit; [done|done|].
    rewrite list_lookup_insert_ne by done. done.
Qed.

Lemma Tracker_set_range_wf words s n x :
  words_wf words → words_wf (Tracker.set_range words s n x).
Proof.
  revert words s. induction n as [|n IH]; intros words s Hwf; simpl; [done|].
  apply IH, Tracker_set_wf, Hwf.
Qed.

Lemma Tracker_get_set_range words s n x j :
  words_wf words → j < BLOB_BLOCKS →
  Tracker.get (Tracker.set_range words s n x) j
    = if decide (s ≤ j < s + n) then Some x else Tracker.get words j.
Proof.
  revert words s. induction n as [|n IH]; intros words s Hwf Hj; simpl.
  - rewrite decide_False by lia. done.
  - rewrite IH, Tracker_get_set by auto using Tracker_set_wf.
    repeat case_decide; try done; lia.
Qed.

Lemma words_wf_zero : words_wf (replicate USED_BLOCK_TRACKING_SIZE_WORDS 0%Z).
Proof. split; [apply length_replicate|]. apply Forall_replicate. done. Qed.

Lemma Tracker_get_zero j :
  j < BLOB_BLOCKS →
  Tracker.get (replicate USED_BLOCK_TRACKING_SIZE_WORDS 0%Z) j = Some false.
Proof.
  intros Hj. destruct (words_wf_lookup _ j words_wf_zero) as (w & Hw & _); [done|].
  rewrite (Tracker_get_testbit _ _ w) by done.
  apply lookup_replicate in Hw as [-> _]. by rewrite Z.bits_0.
Qed.
#[export] Hint Resolve Tracker_set_wf Tracker_set_range_wf words_wf_zero : fw.

(** ** The block search *)

Definition block_free (words : list Z) (b : nat) : bool :=
  negb (default true (Tracker.get words b)).

(** [n] consecutive free blocks from [s]. *)
Definition free_window (words : list Z) (s n : nat) : Prop :=
  ∀ b, s ≤ b < s + n → block_free words b = true.

(** The number of free blocks among the first [n]. *)
Definition free_count (words : list Z) (n : nat) : nat :=
  length (filter (λ b, block_free words b = true) (seq 0 n)).

Lemma free_count_S words n :
  free_count words (S n) = free_count words n + if block_free words n then 1 else 0.
Proof.
  unfold free_count. rewrite seq_S, list.filter_app, length_app. f_equal. simpl.
  destruct (block_free words n) eqn:H; [rewrite filter_cons_True|rewrite filter_cons_False];
    simpl; congruence.
Qed.

(** What the loop knows before it looks at block [index]. *)
Record scan_inv (words : list Z) (needed index : nat) (s : Table.scan) : Prop := {
  si_not_found : Table.slot_found s = false;
  si_total : Table.total_free_slots_count s = free_count words index;
  si_count : Table.last_consecutive_free_slots_count s ≤ index;
  si_short : Table.last_consecutive_free_slots_count s < needed;
  si_start : Table.last_consecutive_free_slots_count s ≠ 0 →
    Table.last_consecutive_free_slots_started_at s
      = index - Table.last_consecutive_free_slots_count s;
  si_window : free_window words (index - Table.last_consecutive_free_slots_count s)
                (Table.last_consecutive_free_slots_count s);
  si_maximal : Table.last_consecutive_free_slots_count s < index →
    block_free words (index - Table.last_consecutive_free_slots_count s - 1) = false;
  si_none : ∀ s', s' + needed ≤ index → ¬ free_window words s' needed
}.

Definition scan_post (words : list Z) (needed limit : nat) (s : Table.scan) : Prop :=
  if Table.slot_found s then
    let start := Table.last_consecutive_free_slots_started_at s in
    Table.last_consecutive_free_slots_ended_at s = start + needed - 1 ∧
    start + needed ≤ limit ∧ free_window words start needed ∧
    ∀ s', s' < start → ¬ free_window words s' needed
  else
    Table.total_free_slots_count s = free_count words limit ∧
    ∀ s', s' + needed ≤ limit → ¬ free_window words s' needed.

(** One used block: the run ends. *)
Lemma scan_step_used words needed index s :
  scan_inv words needed index s → block_free words index = false → 0 < needed →
  scan_inv words needed (S index) (Table.scan_step words index s).
Proof.
  intros [] Hb Hn. unfold Table.scan_step.
  unfold block_free in Hb. apply negb_false_iff in Hb. rewrite Hb.
  assert (block_free words index = false) as Hf by (unfold block_free; by rewrite Hb).
  constructor; cbn [Table.slot_found Table.total_free_slots_count
    Table.last_consecutive_free_slots_count Table.last_consecutive_free_slots_started_at];
    try (done || lia).
  - rewrite free_count_S, Hf. lia.
  - intros b. lia.
  - intros _. replace (S index - 0 - 1) with index by lia. done.
  - intros s' Hs' Hw. destruct (decide (s' + needed ≤ index)) as [|Hgt].
    + by eapply si_none0.
    + rewrite (Hw index) in Hf by lia. done.
Qed.

(** One free block: the run grows by one. *)
Lemma scan_step_free words needed index s :
  scan_inv words needed index s → block_free words index = true →
  let s' := Table.scan_step words index s in
  let c := Table.last_consecutive_free_slots_count s' in
  c = Table.last_consecutive_free_slots_count s + 1 ∧
  Table.slot_found s' = false ∧
  Table.total_free_slots_count s' = free_count words (S index) ∧
  Table.last_consecutive_free_slots_started_at s' = S index - c ∧
  free_window words (S index - c) c ∧
  (c < S index → block_free words (S index - c - 1) = false).
Proof.
  intros [] Hb. unfold Table.scan_step.
  pose proof Hb as Hu. unfold block_free in Hu. apply negb_true_iff in Hu. rewrite Hu.
  cbn [Table.slot_found Table.total_free_slots_count
    Table.last_consecutive_free_slots_count Table.last_consecutive_free_slots_started_at].
  rewrite free_count_S, Hb.
  destruct s as [f tot c st en]; simpl in *.
  replace (S index - (c + 1)) with (index - c) by lia.
  split_and!; [lia|done|lia| | |].
  - destruct (Nat.eqb_spec c 0); [lia|]. apply si_start0. lia.
  - intros b Hb'. destruct (decide (b = index)) as [->|]; [done|]. apply si_window0. lia.
  - intros Hc. apply si_maximal0. lia.
Qed.

Lemma scan_loop_post words needed n index s :
  0 < needed → scan_inv words needed index s →
  scan_post words needed (index + n) (Table.scan_loop words needed n index s).
Proof.
  intros Hn. revert index s. induction n as [|n IH]; intros index s Hinv.
  - simpl. unfold scan_post. rewrite (si_not_found _ _ _ _ Hinv), Nat.add_0_r.
    split; [by destruct Hinv|apply (si_none _ _ _ _ Hinv)].
  - cbn [Table.scan_loop]. rewrite Nat.add_succ_r, <- Nat.add_succ_l.
    destruct (block_free words index) eqn:Hb.
    + pose proof (scan_step_free _ _ _ _ Hinv Hb) as (Hc & Hf & Ht & Hst & Hw & Hmax).
      set (s' := Table.scan_step words index s) in *. destruct Hinv.
      destruct (Nat.eqb_spec needed (Table.last_consecutive_free_slots_count s')) as [He|He].
      * unfold scan_post. cbn [Table.slot_found Table.last_consecutive_free_slots_started_at
          Table.last_consecutive_free_slots_ended_at].
        rewrite Hst, <- He in *. split_and!; [lia|lia|done|].
        intros s1 Hs1. apply si_none0. lia.
      * apply IH. constructor; try (done || lia).
        -- intros s1 Hs1 Hw1. destruct (decide (s1 + needed ≤ index)).
           ++ by eapply si_none0.
           ++ rewrite (Hw1 (S index - Table.last_consecutive_free_slots_count s' - 1)) in Hmax
                by lia.
              assert (Table.last_consecutive_free_slots_count s' < S index) as Hlt by lia.
              by specialize (Hmax Hlt).
    + pose proof (scan_step_used _ _ _ _ Hinv Hb Hn) as Hinv'.
      destruct (Nat.eqb_spec needed
        (Table.last_consecutive_free_slots_count (Table.scan_step words index s))) as [He|He].
      * destruct Hinv'. lia.
      * by apply IH.
Qed.

Lemma scan_inv_init words needed : 0 < needed → scan_inv words needed 0 Table.scan_init.
Proof.
  intros Hn. constructor; cbn; try (done || lia).
  intros b. lia.
Qed.

Lemma block_free_lt words b : block_free words b = true → b < BLOB_BLOCKS.
Proof.
  unfold block_free. destruct (Tracker.get words b) eqn:H; [|done].
  intros _. by eapply Tracker_get_lt.
Qed.

(** What [find_blocks] answers: the first window, or the reason there is none. *)
Definition find_blocks_post (words : list Z) (needed : nat) (r : outcome HsmErr (nat * nat)) :
    Prop :=
  (∃ s, r = Ok (s, s + needed - 1) ∧ s + needed ≤ BLOB_BLOCKS ∧
        free_window words s needed ∧ ∀ s', s' < s → ¬ free_window words s' needed) ∨
  (r = Err NotEnoughSpace ∧ free_count words BLOB_BLOCKS < needed ∧
   ∀ s', ¬ free_window words s' needed) ∨
  (r = Err DefragNeeded ∧ needed ≤ free_count words BLOB_BLOCKS ∧
   ∀ s', ¬ free_window words s' needed).

Lemma find_blocks_spec words needed :
  0 < needed → find_blocks_post words needed (Table.find_blocks words needed).
Proof.
  intros Hn. unfold Table.find_blocks, find_blocks_post.
  pose proof (scan_loop_post words needed BLOB_BLOCKS 0 _ Hn (scan_inv_init words needed Hn))
    as Hpost. simpl in Hpost. unfold scan_post in Hpost.
  set (s := Table.scan_loop _ _ _ _ _) in *. destruct (Table.slot_found s).
  - left. destruct Hpost as (He & Hle & Hw & Hfirst). rewrite He. eauto 10.
  - right. destruct Hpost as [Ht Hnone].
    assert (∀ s', ¬ free_window words s' needed) as Hall.
    { intros s' Hw. apply (Hnone s'); [|done].
      pose proof (block_free_lt words (s' + needed - 1)) as Hlt.
      rewrite (Hw (s' + needed - 1)) in Hlt by lia. specialize (Hlt eq_refl). lia. }
    rewrite Ht. destruct (Nat.ltb_spec (free_count words BLOB_BLOCKS) needed);
      [left|right]; auto.
Qed.
