(* ===== verification/KeyTableRefine.v ===== *)
(** * The physical key table refines an abstract table

    The abstract table is a list of optional logical entries.  [Rep t A]
    relates it to the physical memory: metadata, attribute and blob bytes of
    every entry, pairwise disjoint block regions, a bitmap that marks exactly
    the owned blocks, and zero bytes in every free block. *)

From stdpp Require Import base list numbers option.
From S2P Require Import Prelude HsmError KeyEntry Crates KeyTable KeyTableSpec.

(** ** The abstract table *)

Record LogicalEntry : Set := mkLogicalEntry {
  le_flags : EntryFlags;
  le_session_id_or_key_tag : Z;
  le_kind : EntryKind;
  le_app_id : Z;
  le_attributes : EntryAttributes;
  le_blob : list Z
}.

Abbreviation LogicalTable := (list (option LogicalEntry)).

Definition empty_table : LogicalTable := replicate MAX_TABLE_ENTRY_COUNT None.

(** Bytes and blocks a key of the given kind and length occupies. *)
Definition storage_bytes (kind : EntryKind) (len : nat) : nat :=
  match storage_size kind (Table.storage_key_len kind len) with Ok s => s | _ => 0 end.

Definition le_blocks (le : LogicalEntry) : nat :=
  storage_bytes (le_kind le) (length (le_blob le)) / 8.

Definition entry_blocks (a : option LogicalEntry) : nat :=
  match a with Some le => le_blocks le | None => 0 end.

Definition used_blocks (A : LogicalTable) : nat := sum_list (entry_blocks <$> A).

Definition first_free (A : LogicalTable) : option nat :=
  fst <$> list_find (λ a, a = None) A.

(** The arguments [add_entry] accepts. *)
Definition args_ok (attributes : EntryAttributes) (kind : EntryKind) (blob : list Z) : Prop :=
  Table.expected_key_len attributes kind = Ok (length blob) ∧ kind ≠ EK_Free.

#[global] Instance args_ok_dec attributes kind blob : Decision (args_ok attributes kind blob).
Proof. unfold args_ok. apply _. Defined.

Record le_wf (le : LogicalEntry) : Prop := {
  le_args : args_ok (le_attributes le) (le_kind le) (le_blob le);
  le_attrs : attributes_wf (le_attributes le);
  le_session : ef_session (le_flags le) = af_session (ea_flags (le_attributes le))
}.

(** ** Sizes *)

Ltac fold_sizes :=
  change ENTRY_BLOB_BLOCK_ALIGNMENT with 8 in *;
  change ATTRIBUTES_BLOB_SIZE with 32 in *.

Lemma storage_bytes_ok kind len :
  storage_size kind (Table.storage_key_len kind len) = Ok (storage_bytes kind len).
Proof.
  unfold storage_bytes, Table.storage_key_len.
  destruct (storage_size_total kind (if is_var_hmac_key kind then Some len else None))
    as [s ->]; [|done].
  by destruct (is_var_hmac_key kind).
Qed.

Lemma expected_key_len_raw attributes kind n :
  Table.expected_key_len attributes kind = Ok n →
  match Table.storage_key_len kind n with
  | Some len => len = n ∧ key_length_of attributes = n
  | None => raw_key_blob_size kind = Ok n
  end.
Proof.
  unfold Table.expected_key_len, Table.storage_key_len.
  destruct (is_var_hmac_key kind); [|done].
  intros H. apply outcome_bind_Ok in H as (k & _ & H).
  destruct (_ || _); naive_solver.
Qed.

Lemma expected_key_len_cases attributes kind :
  (∃ n, Table.expected_key_len attributes kind = Ok n) ∨
  Table.expected_key_len attributes kind = Err InvalidArgument.
Proof.
  unfold Table.expected_key_len. destruct (is_var_hmac_key kind) eqn:Hk.
  - destruct kind; try done; cbn [var_hmac_try_from mbind outcome_bind];
      destruct (_ || _); eauto.
  - left. by apply raw_key_blob_size_fixed.
Qed.

Lemma storage_bytes_spec attributes kind n :
  Table.expected_key_len attributes kind = Ok n →
  storage_bytes kind n = 8 * (storage_bytes kind n / 8) ∧ 32 + n ≤ storage_bytes kind n.
Proof.
  intros H. apply expected_key_len_raw in H.
  pose proof (storage_size_spec _ _ _ (storage_bytes_ok kind n)) as (raw & Hraw & Hm & Hs).
  split; [apply Nat.Div0.div_exact; lia|].
  destruct (Table.storage_key_len kind n) as [len|]; [destruct H as [-> _]|];
    rewrite ?H in Hraw; injection Hraw as <-; lia.
Qed.

Lemma le_blocks_spec le :
  le_wf le →
  storage_bytes (le_kind le) (length (le_blob le)) = 8 * le_blocks le ∧
  32 + length (le_blob le) ≤ 8 * le_blocks le ∧ 0 < le_blocks le.
Proof.
  intros [[H _] _ _]. apply storage_bytes_spec in H as [H1 H2].
  unfold le_blocks. lia.
Qed.

Section refine.
Context `{ZC : Zerocopy, ZZ : Zeroize}.

(** ** The representation invariant *)

Definition physical_of (off : nat) (le : LogicalEntry) : PhysicalEntry :=
  mkPhysicalEntry (Z.of_nat off) (le_flags le) (le_session_id_or_key_tag le)
    (le_kind le) (le_app_id le).

Definition entry_rel (mem : list Z) (e : PhysicalEntry) (a : option LogicalEntry) : Prop :=
  match a with
  | None => e = free_entry
  | Some le => ∃ off,
      e = physical_of off le ∧ le_wf le ∧ off + le_blocks le ≤ BLOB_BLOCKS ∧
      take 32 (drop (8 * off) mem) = as_bytes (le_attributes le) ∧
      take (length (le_blob le)) (drop (8 * off + 32) mem) = le_blob le
  end.

Definition in_region (e : PhysicalEntry) (a : option LogicalEntry) (b : nat) : Prop :=
  Z.to_nat (pe_offset e) ≤ b < Z.to_nat (pe_offset e) + entry_blocks a.

(** Entry [i] owns block [b]. *)
Definition owns (es : list PhysicalEntry) (A : LogicalTable) (i b : nat) : Prop :=
  ∃ e a, es !! i = Some e ∧ A !! i = Some a ∧ in_region e a b.

Record Rep (t : PhysicalTable) (A : LogicalTable) : Prop := {
  rep_words : words_wf (used_block_tracking_memory t);
  rep_mem : length (key_data_memory t) = 8 * BLOB_BLOCKS;
  rep_length : length A = MAX_TABLE_ENTRY_COUNT;
  rep_entries : Forall2 (entry_rel (key_data_memory t)) (entry_list t) A;
  rep_disjoint i j b : owns (entry_list t) A i b → owns (entry_list t) A j b → i = j;
  rep_bitmap b :
    Tracker.get (used_block_tracking_memory t) b = Some true ↔ ∃ i, owns (entry_list t) A i b;
  rep_zero b k :
    block_free (used_block_tracking_memory t) b = true → k < 8 →
    key_data_memory t !! (8 * b + k) = Some 0%Z
}.

(** ** Consequences of the invariant *)

Lemma rep_entry_list_length t A : Rep t A → length (entry_list t) = MAX_TABLE_ENTRY_COUNT.
Proof.
  intros H. erewrite Forall2_length by apply (rep_entries _ _ H). apply (rep_length _ _ H).
Qed.

Lemma rep_lookup t A i :
  Rep t A → i < MAX_TABLE_ENTRY_COUNT →
  ∃ e a, entry_list t !! i = Some e ∧ A !! i = Some a ∧ entry_rel (key_data_memory t) e a.
Proof.
  intros H Hi. destruct (lookup_lt_is_Some_2 A i) as [a Ha].
  { by rewrite (rep_length _ _ H). }
  destruct (Forall2_lookup_r _ _ _ _ _ (rep_entries _ _ H) Ha) as (e & He & Hr). eauto.
Qed.

Lemma entry_rel_is_empty mem e a :
  entry_rel mem e a → is_empty e = bool_decide (a = None).
Proof.
  destruct a as [le|]; simpl.
  - intros (off & -> & [[_ Hk] _ _] & _). unfold is_empty. simpl.
    rewrite !bool_decide_false; done.
  - intros ->. done.
Qed.

Lemma rep_find_free t A :
  Rep t A →
  fst <$> list_find (λ e, is_empty e = true) (entry_list t) = first_free A.
Proof.
  intros H. unfold first_free. pose proof (rep_entries _ _ H) as HF. clear H.
  induction HF as [|e a es A' Hea HF IH]; [done|]. simpl.
  pose proof (entry_rel_is_empty _ _ _ Hea) as Hemp.
  destruct a as [le|]; (rewrite bool_decide_false in Hemp by done) ||
    (rewrite bool_decide_true in Hemp by done); rewrite Hemp.
  - rewrite !decide_False by congruence. rewrite <- !option_fmap_compose.
    assert (∀ {B} (o : option (nat * B)), fst ∘ prod_map S id <$> o = S <$> (fst <$> o)) as Hc.
    { by intros B [[]|]. }
    rewrite !Hc. by rewrite IH.
  - by rewrite !decide_True by congruence.
Qed.

(** The region of an entry is inside the blob memory. *)
Lemma entry_rel_region mem e a b :
  entry_rel mem e a → in_region e a b → b < BLOB_BLOCKS.
Proof.
  destruct a as [le|]; simpl.
  - intros (off & -> & _ & Hb & _). unfold in_region. simpl. rewrite Nat2Z.id. lia.
  - intros ->. unfold in_region. simpl. lia.
Qed.

(** An entry keeps its contents when the bytes of its region do. *)
Lemma entry_rel_mem_ext mem mem' e a :
  (∀ b k, in_region e a b → k < 8 → mem' !! (8 * b + k) = mem !! (8 * b + k)) →
  entry_rel mem e a → entry_rel mem' e a.
Proof.
  destruct a as [le|]; simpl; [|done].
  intros Hext (off & -> & Hwf & Hb & Hattr & Hblob).
  pose proof (le_blocks_spec _ Hwf) as (_ & Hlen & _).
  assert (∀ j, 8 * off ≤ j < 8 * off + 8 * le_blocks le → mem' !! j = mem !! j) as Hbytes.
  { intros j Hj. rewrite (Nat.div_mod_eq j 8). pose proof (Nat.mod_upper_bound j 8).
    pose proof (Nat.div_mod_eq j 8). apply Hext; [|lia].
    unfold in_region. simpl. rewrite Nat2Z.id. lia. }
  exists off. split_and!; [done..| |].
  - rewrite <- Hattr. apply take_drop_ext. intros j Hj. apply Hbytes. lia.
  - rewrite <- Hblob at 2. apply take_drop_ext. intros j Hj. apply Hbytes. lia.
Qed.

Lemma rep_block_free t A b :
  Rep t A → b < BLOB_BLOCKS →
  block_free (used_block_tracking_memory t) b = false ↔ ∃ i, owns (entry_list t) A i b.
Proof.
  intros H Hb. rewrite <- (rep_bitmap _ _ H). unfold block_free.
  destruct (Tracker_get_Some _ b (rep_words _ _ H) Hb) as [[] ->]; naive_solver.
Qed.

Lemma owns_lt t A i b : Rep t A → owns (entry_list t) A i b → b < BLOB_BLOCKS.
Proof.
  intros H (e & a & He & Ha & Hin). eapply entry_rel_region; [|done].
  by eapply Forall2_lookup_lr; [apply (rep_entries _ _ H)|..].
Qed.

Lemma owns_insert es A i e a j b :
  i < length es → i < length A →
  owns (<[i:=e]> es) (<[i:=a]> A) j b ↔
    if decide (i = j) then in_region e a b else owns es A j b.
Proof.
  intros Hes HA. unfold owns. case_decide as Hij.
  - subst j. rewrite (list_lookup_insert_eq es), (list_lookup_insert_eq A) by done. split.
    + intros (e' & a' & ? & ? & ?). by simplify_eq.
    + intros Hin. by exists e, a.
  - by rewrite (list_lookup_insert_ne es), (list_lookup_insert_ne A) by done.
Qed.

(** ** Counting blocks *)

Definition blocks_owned (es : list PhysicalEntry) (A : LogicalTable) (i : nat) : list nat :=
  match es !! i, A !! i with
  | Some e, Some a => seq (Z.to_nat (pe_offset e)) (entry_blocks a)
  | _, _ => []
  end.

Lemma elem_of_blocks_owned es A i b : b ∈ blocks_owned es A i ↔ owns es A i b.
Proof.
  unfold blocks_owned, owns, in_region.
  destruct (es !! i) as [e|], (A !! i) as [a|];
    rewrite ?elem_of_seq, ?elem_of_nil; naive_solver.
Qed.

Lemma sum_entry_blocks es A :
  length es = length A →
  sum_list (length <$> (blocks_owned es A <$> seq 0 (length A))) = used_blocks A.
Proof.
  intros Hl. unfold used_blocks. f_equal. apply list_eq. intros i.
  rewrite !list_lookup_fmap.
  destruct (decide (i < length A)) as [Hi|Hi].
  - rewrite lookup_seq_lt by done. simpl. unfold blocks_owned.
    destruct (lookup_lt_is_Some_2 A i Hi) as [a Ha].
    destruct (lookup_lt_is_Some_2 es i) as [e He]; [by rewrite Hl|].
    rewrite He, Ha. simpl. by rewrite length_seq.
  - rewrite (lookup_ge_None_2 A) by lia. by rewrite lookup_seq_ge by lia.
Qed.

Lemma length_bind_sum {B C} (f : B → list C) (l : list B) :
  length (l ≫= f) = sum_list (length <$> (f <$> l)).
Proof. induction l as [|x l IH]; [done|]. csimpl. by rewrite length_app, IH. Qed.

(** Free blocks and the blocks of the entries add up to the memory. *)
Lemma free_count_used_blocks t A :
  Rep t A →
  free_count (used_block_tracking_memory t) BLOB_BLOCKS + used_blocks A = BLOB_BLOCKS.
Proof.
  intros H. set (free b := block_free (used_block_tracking_memory t) b = true).
  set (owned := seq 0 (length A) ≫= blocks_owned (entry_list t) A).
  assert (filter (λ b, ¬ free b) (seq 0 BLOB_BLOCKS) ≡ₚ owned) as Hperm.
  { apply NoDup_Permutation.
    - apply list.NoDup_filter, NoDup_seq.
    - apply NoDup_bind; [|intros i _|apply NoDup_seq].
      + intros i j b _ _. rewrite !elem_of_blocks_owned. by eapply rep_disjoint.
      + unfold blocks_owned. repeat case_match; auto using NoDup_seq, NoDup_nil_2.
    - intros b. unfold owned. rewrite list_elem_of_filter, elem_of_seq, list_elem_of_bind.
      setoid_rewrite elem_of_blocks_owned. setoid_rewrite elem_of_seq. split.
      + intros [Hf Hb]. apply not_true_is_false in Hf.
        apply (rep_block_free t A) in Hf as [i Hi]; [|done|lia].
        exists i. split; [done|]. destruct Hi as (e & a & _ & Ha & _).
        apply lookup_lt_Some in Ha. lia.
      + intros (i & Hi & _). pose proof (owns_lt _ _ _ _ H Hi). split; [|lia].
        unfold free. by rewrite (proj2 (rep_block_free t A b H ltac:(lia))) by eauto. }
  assert (length owned = used_blocks A) as Hlen.
  { unfold owned. rewrite <- (sum_entry_blocks (entry_list t) A).
    - apply length_bind_sum.
    - by rewrite (rep_entry_list_length _ _ H), (rep_length _ _ H). }
  rewrite <- Hlen, <- Hperm. unfold free_count. subst free.
  rewrite <- length_app. trans (length (seq 0 BLOB_BLOCKS)); [|apply length_seq].
  apply Permutation_length, filter_app_complement.
Qed.

(** ** Replacing one entry

    The obligation every mutating operation discharges: outside the old and
    the new region of entry [i] nothing changes; the new region is owned by
    nobody else and marked used; what is given back is marked free and
    zeroed. *)

#[global] Instance in_region_dec e a b : Decision (in_region e a b).
Proof. unfold in_region. apply _. Defined.

Section replace.
Variables (t t' : PhysicalTable) (A : LogicalTable) (i : nat).
Variables (e e' : PhysicalEntry) (a a' : option LogicalEntry).
Hypothesis HR : Rep t A.
Hypothesis He : entry_list t !! i = Some e.
Hypothesis Ha : A !! i = Some a.
Hypothesis Hlist : entry_list t' = <[i:=e']> (entry_list t).
Hypothesis Hwords : words_wf (used_block_tracking_memory t').
Hypothesis Hlen : length (key_data_memory t') = length (key_data_memory t).
Hypothesis Hrel : entry_rel (key_data_memory t') e' a'.
Hypothesis Hother : ∀ b, in_region e' a' b → ∀ j, j ≠ i → ¬ owns (entry_list t) A j b.
Hypothesis Hnew : ∀ b, in_region e' a' b →
  Tracker.get (used_block_tracking_memory t') b = Some true.
Hypothesis Hold : ∀ b, in_region e a b → ¬ in_region e' a' b →
  Tracker.get (used_block_tracking_memory t') b = Some false ∧
  ∀ k, k < 8 → key_data_memory t' !! (8 * b + k) = Some 0%Z.
Hypothesis Hsame : ∀ b, b < BLOB_BLOCKS → ¬ in_region e a b → ¬ in_region e' a' b →
  Tracker.get (used_block_tracking_memory t') b
    = Tracker.get (used_block_tracking_memory t) b ∧
  ∀ k, k < 8 → key_data_memory t' !! (8 * b + k) = key_data_memory t !! (8 * b + k).

Lemma replace_owns j b :
  owns (entry_list t') (<[i:=a']> A) j b ↔
    if decide (i = j) then in_region e' a' b else owns (entry_list t) A j b.
Proof using He Ha Hlist.
  rewrite Hlist. apply owns_insert; by eapply lookup_lt_Some.
Qed.

Lemma replace_old b : in_region e a b → owns (entry_list t) A i b.
Proof using He Ha. intros H. by exists e, a. Qed.

Lemma replace_entries : Forall2 (entry_rel (key_data_memory t')) (entry_list t') (<[i:=a']> A).
Proof using All.
  apply Forall2_same_length_lookup_2.
  { rewrite Hlist, !length_insert. by rewrite (rep_entry_list_length _ _ HR), (rep_length _ _ HR). }
  intros j x y. rewrite Hlist. destruct (decide (i = j)) as [<-|Hij].
  - rewrite (list_lookup_insert_eq (entry_list t)) by (by eapply lookup_lt_Some).
    rewrite (list_lookup_insert_eq A) by (by eapply lookup_lt_Some).
    intros. by simplify_eq.
  - rewrite (list_lookup_insert_ne (entry_list t)), (list_lookup_insert_ne A) by done.
    intros Hx Hy. pose proof (Forall2_lookup_lr _ _ _ _ _ _ (rep_entries _ _ HR) Hx Hy) as Hxy.
    eapply entry_rel_mem_ext; [|done]. intros b k Hb Hk.
    assert (owns (entry_list t) A j b) as Hj by (by exists x, y).
    apply Hsame; [by eapply owns_lt| | |done].
    + intros Hi%replace_old. apply Hij. by eapply (rep_disjoint _ _ HR).
    + intros Hi. by eapply Hother.
Qed.

Lemma replace_bitmap b :
  Tracker.get (used_block_tracking_memory t') b = Some true ↔
    ∃ j, owns (entry_list t') (<[i:=a']> A) j b.
Proof using All.
  setoid_rewrite replace_owns. destruct (decide (in_region e' a' b)) as [Hin|Hin].
  { rewrite Hnew by done. split; [|done]. intros _. exists i. by rewrite decide_True. }
  destruct (decide (in_region e a b)) as [Ho|Ho].
  { rewrite (proj1 (Hold b Ho Hin)). split; [done|]. intros [j Hj]. case_decide as Hij; [done|].
    exfalso. apply Hij. eapply (rep_disjoint _ _ HR); [by apply replace_old|done]. }
  destruct (decide (b < BLOB_BLOCKS)) as [Hb|Hb].
  - rewrite (proj1 (Hsame b Hb Ho Hin)), (rep_bitmap _ _ HR). split; intros [j Hj].
    + exists j. case_decide as Hij; [|done]. subst j. destruct Hj as (e1 & a1 & ? & ? & ?).
      by simplify_eq.
    + case_decide; [done|]. by exists j.
  - split; [intros H%Tracker_get_lt; lia|]. intros [j Hj]. exfalso. apply Hb.
    case_decide; [done|]. by eapply owns_lt.
Qed.

Lemma rep_replace : Rep t' (<[i:=a']> A).
Proof using All.
  constructor.
  - done.
  - by rewrite Hlen, (rep_mem _ _ HR).
  - by rewrite length_insert, (rep_length _ _ HR).
  - apply replace_entries.
  - intros j1 j2 b. rewrite !replace_owns. intros H1 H2. repeat case_decide; subst; try done.
    + exfalso. by eapply Hother.
    + exfalso. by eapply Hother.
    + by eapply (rep_disjoint _ _ HR).
  - apply replace_bitmap.
  - intros b k Hf Hk. pose proof (block_free_lt _ _ Hf) as Hb. unfold block_free in Hf.
    destruct (decide (in_region e' a' b)) as [Hin|Hin]; [by rewrite Hnew in Hf|].
    destruct (decide (in_region e a b)) as [Ho|Ho]; [by apply Hold|].
    destruct (Hsame b Hb Ho Hin) as [Hg Hm]. rewrite Hm by done.
    apply (rep_zero _ _ HR); [|done]. unfold block_free. by rewrite <- Hg.
Qed.

End replace.

Lemma rep_zeroed : Rep zeroed_table empty_table.
Proof.
  assert (∀ i b, ¬ owns (entry_list zeroed_table) empty_table i b) as Hown.
  { intros i b (e & a & _ & Ha & Hin). apply lookup_replicate in Ha as [-> _].
    unfold in_region in Hin. simpl in Hin. lia. }
  constructor; cbn [zeroed_table used_block_tracking_memory key_data_memory entry_list].
  - apply words_wf_zero.
  - rewrite length_replicate, BLOB_MEMORY_blocks. lia.
  - apply length_replicate.
  - apply Forall2_replicate. done.
  - intros i j b Hi. by apply Hown in Hi.
  - intros b. split; [|intros [i Hi]; by apply Hown in Hi].
    intros Hg. pose proof (Tracker_get_lt _ _ _ Hg) as Hb.
    by rewrite Tracker_get_zero in Hg.
  - intros b k Hf Hk. apply block_free_lt in Hf. apply lookup_replicate.
    rewrite BLOB_MEMORY_blocks. split; [done|lia].
Qed.

End refine.
