(* ===== verification/KeyTableOps.v ===== *)
(** * Refinement theorems of the key-table operations

    Every operation of [KeyTable.Table] against its abstract counterpart on
    the table of logical entries, and the invariant over all reachable
    tables. *)

From stdpp Require Import base list numbers option.
From S2P Require Import Prelude HsmError KeyEntry Crates KeyTable KeyTableSpec KeyTableRefine.

(** ** Abstract operations *)

Definition le_set_disabled (b : bool) (le : LogicalEntry) : LogicalEntry :=
  mkLogicalEntry (set_disabled b (le_flags le)) (le_session_id_or_key_tag le)
    (le_kind le) (le_app_id le) (le_attributes le) (le_blob le).

(** The entry an index names. *)
Definition spec_get (A : LogicalTable) (i : Z) (allow_disabled : bool) :
    outcome HsmErr LogicalEntry :=
  match A !! Z.to_nat i with
  | Some (Some le) =>
      if negb allow_disabled && ef_disabled (le_flags le) then Err InvalidKeyIndex else Ok le
  | Some None => Err InvalidKeyIndex
  | None => Panic
  end.

(** The metadata a caller can read of an entry (everything but its offset). *)
Definition metadata (e : PhysicalEntry) : EntryFlags * Z * EntryKind * Z :=
  (pe_flags e, pe_session_id_or_key_tag e, pe_kind e, pe_app_id e).
Definition le_metadata (le : LogicalEntry) : EntryFlags * Z * EntryKind * Z :=
  (le_flags le, le_session_id_or_key_tag le, le_kind le, le_app_id le).

(** The entry [add_entry] stores. *)
Definition new_entry (attributes : EntryAttributes) (session_id_or_key_tag : Z)
    (kind : EntryKind) (app_id : Z) (blob : list Z) : LogicalEntry :=
  mkLogicalEntry (EntryFlags_from (ea_flags attributes)) session_id_or_key_tag kind app_id
    attributes blob.

(** Whether a logical entry carries a tag of an application. *)
Definition has_tag (app_id key_tag_ : Z) (a : option LogicalEntry) : Prop :=
  match a with
  | Some le => ef_disabled (le_flags le) = false ∧ le_app_id le = app_id ∧
      ef_session (le_flags le) = false ∧ le_session_id_or_key_tag le = key_tag_
  | None => False
  end.
#[global] Instance has_tag_dec app_id key_tag_ a : Decision (has_tag app_id key_tag_ a).
Proof. destruct a; simpl; apply _. Defined.

Definition spec_by_tag (A : LogicalTable) (app_id key_tag_ : Z) : outcome HsmErr Z :=
  if decide (key_tag_ = KEY_TAG_UNASSIGNED) then Err InvalidArgument
  else match list_find (has_tag app_id key_tag_) A with
       | Some (i, _) => Ok (Z.of_nat i)
       | None => Err KeyNotFound
       end.

(** What a removal does to an entry. *)
Definition spec_remove (in_use : bool) (le : LogicalEntry) : option LogicalEntry :=
  if in_use then Some (le_set_disabled true le) else None.

Lemma index_lt i : uint_range 8 i → Z.to_nat i < MAX_TABLE_ENTRY_COUNT.
Proof. unfold uint_range, MAX_TABLE_ENTRY_COUNT. lia. Qed.

Section ops.
Context `{ZC : Zerocopy, ZZ : Zeroize}.

(** ** Lookups *)

Lemma get_entry_rep t A i allow e a :
  Rep t A → entry_list t !! Z.to_nat i = Some e → A !! Z.to_nat i = Some a →
  Table.get_entry t i allow = (λ _, e) <$> spec_get A i allow.
Proof.
  intros H He Ha. unfold Table.get_entry, spec_get. rewrite He, Ha.
  pose proof (Forall2_lookup_lr _ _ _ _ _ _ (rep_entries _ _ H) He Ha) as Hrel.
  rewrite (entry_rel_is_empty _ _ _ Hrel). destruct a as [le|]; [|done].
  destruct Hrel as (off & -> & _). rewrite bool_decide_false by done.
  unfold disabled. simpl. by destruct (negb allow && _).
Qed.

Lemma get_attributes_rep t A e le :
  Rep t A → entry_rel (key_data_memory t) e (Some le) →
  Table.get_attributes_from_entry t e = Ok (le_attributes le).
Proof.
  intros H (off & -> & Hwf & Hb & Hattr & _).
  unfold Table.get_attributes_from_entry, slice, attributes_bytes_offset. simpl.
  fold_sizes. rewrite Nat2Z.id, (Nat.mul_comm off 8).
  pose proof (le_blocks_spec _ Hwf) as (_ & Hlen & _).
  rewrite decide_True by (rewrite (rep_mem _ _ H); lia). rewrite Hattr.
  cbn. by rewrite ref_from_as_bytes by apply Hwf.
Qed.

Lemma get_entry_attributes_rep t A i allow :
  Rep t A → uint_range 8 i →
  Table.get_entry_attributes t i allow = le_attributes <$> spec_get A i allow.
Proof.
  intros H Hi. destruct (rep_lookup _ _ _ H (index_lt _ Hi)) as (e & a & He & Ha & Hrel).
  unfold Table.get_entry_attributes. rewrite (get_entry_rep _ _ _ _ _ _ H He Ha).
  unfold spec_get. rewrite Ha. destruct a as [le|]; [|done].
  destruct (negb allow && _); [done|]. cbn. by eapply get_attributes_rep.
Qed.

Lemma get_entry_blob_rep t A i :
  Rep t A → uint_range 8 i →
  Table.get_entry_blob t i = le_blob <$> spec_get A i true.
Proof.
  intros H Hi. destruct (rep_lookup _ _ _ H (index_lt _ Hi)) as (e & a & He & Ha & Hrel).
  unfold Table.get_entry_blob. rewrite (get_entry_rep _ _ _ _ _ _ H He Ha).
  unfold spec_get. rewrite Ha. destruct a as [le|]; [|done].
  cbn [negb andb fmap outcome_fmap mbind outcome_bind].
  rewrite (get_attributes_rep _ _ _ _ H Hrel).
  destruct Hrel as (off & -> & Hwf & Hb & _ & Hblob). cbn [pe_kind physical_of].
  pose proof (le_args _ Hwf) as [Hargs _]. apply expected_key_len_raw in Hargs.
  unfold Table.storage_key_len in Hargs.
  assert ((if is_var_hmac_key (le_kind le) then Ok (key_length_of (le_attributes le))
           else raw_key_blob_size (le_kind le)) = Ok (length (le_blob le))) as Hsz.
  { destruct (is_var_hmac_key (le_kind le)); [|done]. by destruct Hargs as [_ ->]. }
  cbn [fmap outcome_fmap]. rewrite Hsz. cbn [mbind outcome_bind].
  unfold slice, key_blob_bytes_offset, attributes_bytes_offset. cbn [pe_offset physical_of].
  fold_sizes. rewrite Nat2Z.id, (Nat.mul_comm off 8).
  pose proof (le_blocks_spec _ Hwf) as (_ & Hlen & _).
  rewrite decide_True by (rewrite (rep_mem _ _ H); lia). by rewrite Hblob.
Qed.

Lemma tag_predicate_rep mem e a app_id key_tag_ :
  entry_rel mem e a → key_tag_ ≠ KEY_TAG_UNASSIGNED →
  (negb (is_empty e) && negb (disabled e) && bool_decide (pe_app_id e = app_id)
     && bool_decide (key_tag e = Some key_tag_)) = true ↔ has_tag app_id key_tag_ a.
Proof.
  intros Hrel Hne. rewrite (entry_rel_is_empty _ _ _ Hrel). destruct a as [le|]; [|by split].
  destruct Hrel as (off & -> & _). unfold disabled, key_tag. simpl.
  destruct (ef_disabled _), (ef_session _); simpl;
    repeat case_bool_decide; split; intros; destruct_and?; simplify_eq; done || naive_solver.
Qed.

Lemma list_find_Forall2 {B C} (P : B → Prop) (Q : C → Prop)
    `{∀ x, Decision (P x), ∀ y, Decision (Q y)} (l : list B) (k : list C) :
  Forall2 (λ x y, P x ↔ Q y) l k → fst <$> list_find P l = fst <$> list_find Q k.
Proof.
  induction 1 as [|x y l k Hxy Hlk IH]; [done|]. simpl.
  destruct (decide (P x)), (decide (Q y)); try tauto.
  destruct (list_find P l) as [[]|], (list_find Q k) as [[]|]; naive_solver.
Qed.

Lemma get_entry_index_by_tag_rep t A app_id key_tag_ :
  Rep t A →
  Table.get_entry_index_by_tag t app_id key_tag_ = spec_by_tag A app_id key_tag_.
Proof.
  intros H. unfold Table.get_entry_index_by_tag, spec_by_tag.
  case_bool_decide as Hk; [by rewrite decide_True|]. rewrite decide_False by done.
  set (P e := _ = true).
  assert (fst <$> list_find P (entry_list t) = fst <$> list_find (has_tag app_id key_tag_) A)
    as Hf.
  { apply list_find_Forall2. eapply list.Forall2_impl; [apply (rep_entries _ _ H)|].
    intros e a Hrel. exact (tag_predicate_rep _ _ _ _ _ Hrel Hk). }
  destruct (list_find P _) as [[i e]|] eqn:Hi, (list_find (has_tag _ _) A) as [[j a]|];
    try done. simpl in Hf. injection Hf as <-. f_equal.
  apply list_find_Some in Hi as (Hi & _). apply lookup_lt_Some in Hi.
  rewrite (rep_entry_list_length _ _ H) in Hi. apply wrap_small.
  unfold uint_range. unfold MAX_TABLE_ENTRY_COUNT in Hi. lia.
Qed.

(** ** Enabling and disabling *)

Lemma rep_set_disabled t A i e le b :
  Rep t A → entry_list t !! i = Some e → A !! i = Some (Some le) →
  Rep (with_entry_list (<[i := with_flags e (set_disabled b (pe_flags e))]> (entry_list t)) t)
    (<[i := Some (le_set_disabled b le)]> A).
Proof.
  intros H He Ha.
  pose proof (Forall2_lookup_lr _ _ _ _ _ _ (rep_entries _ _ H) He Ha) as Hrel.
  set (e' := with_flags _ _).
  assert (∀ c, in_region e' (Some (le_set_disabled b le)) c ↔ in_region e (Some le) c) as Hreg.
  { done. }
  assert (∀ c, in_region e (Some le) c → owns (entry_list t) A i c) as Hown.
  { intros c Hc. by exists e, (Some le). }
  eapply rep_replace; cbn [with_entry_list entry_list used_block_tracking_memory
    key_data_memory]; try done.
  - apply (rep_words _ _ H).
  - destruct Hrel as (off & -> & Hwf & Hrest). exists off. split; [done|].
    split; [by destruct Hwf as [? ? ?]|done].
  - intros c Hc j Hj Ho. apply Hj. eapply (rep_disjoint _ _ H); [done|]. apply Hown, Hc.
  - intros c Hc. apply (rep_bitmap _ _ H). exists i. apply Hown, Hc.
Qed.

Lemma update_disabled_rep t A i b :
  Rep t A → uint_range 8 i →
  match spec_get A i true with
  | Ok le => ∃ t',
      Table.update_entry i (λ e, with_flags e (set_disabled b (pe_flags e))) t = (Ok tt, t') ∧
      Rep t' (<[Z.to_nat i := Some (le_set_disabled b le)]> A)
  | Err err =>
      Table.update_entry i (λ e, with_flags e (set_disabled b (pe_flags e))) t = (Err err, t)
  | Panic => False
  end.
Proof.
  intros H Hi. destruct (rep_lookup _ _ _ H (index_lt _ Hi)) as (e & a & He & Ha & _).
  unfold Table.update_entry, get, lift, modify, mbind, M_bind.
  rewrite (get_entry_rep _ _ _ _ _ _ H He Ha). unfold spec_get. rewrite Ha.
  destruct a as [le|]; [|done]. cbn. eexists. split; [done|].
  by apply rep_set_disabled.
Qed.

(** ** Removal *)

Lemma zeroed_lookup (mem : list Z) o n j :
  o + n ≤ length mem →
  (take o mem ++ replicate n 0%Z ++ drop (o + n) mem) !! j
    = if decide (o ≤ j < o + n) then Some 0%Z else mem !! j.
Proof.
  intros H. pose proof (lookup_splice mem (replicate n 0%Z) o j) as Hs.
  rewrite length_replicate in Hs. rewrite Hs by lia.
  case_decide; [|done]. apply lookup_replicate. lia.
Qed.

Lemma zeroed_region_rep t A i off le :
  Rep t A → entry_list t !! i = Some (physical_of off le) → A !! i = Some (Some le) →
  ∀ mem', mem' = take (8 * off) (key_data_memory t) ++ replicate (8 * le_blocks le) 0%Z
                   ++ drop (8 * off + 8 * le_blocks le) (key_data_memory t) →
  Rep (mkPhysicalTable (<[i := free_entry]> (entry_list t))
         (Tracker.set_range (used_block_tracking_memory t) off (le_blocks le) false) mem')
    (<[i := None]> A).
Proof.
  intros H He Ha mem' Hmem.
  pose proof (Forall2_lookup_lr _ _ _ _ _ _ (rep_entries _ _ H) He Ha) as (off' & Hoff & _ & Hb & _).
  injection Hoff as Hoff. apply Nat2Z.inj in Hoff as <-.
  pose proof (rep_mem _ _ H) as Hmlen.
  assert (∀ j, mem' !! j = if decide (8 * off ≤ j < 8 * off + 8 * le_blocks le)
                           then Some 0%Z else key_data_memory t !! j) as Hlook.
  { intros j. rewrite Hmem. apply zeroed_lookup. lia. }
  assert (∀ c, in_region (physical_of off le) (Some le) c ↔ off ≤ c < off + le_blocks le) as Hreg.
  { intros c. unfold in_region. simpl. by rewrite Nat2Z.id. }
  eapply (rep_replace t _ A i (physical_of off le) free_entry (Some le) None);
    cbn [entry_list used_block_tracking_memory key_data_memory]; try fast_done.
  - apply Tracker_set_range_wf, (rep_words _ _ H).
  - rewrite Hmem, !length_app, length_replicate, length_take, length_drop. lia.
  - intros c. unfold in_region. simpl. lia.
  - intros c. unfold in_region. simpl. lia.
  - intros c Hc _. rewrite Hreg in Hc.
    rewrite Tracker_get_set_range by (apply (rep_words _ _ H) || lia).
    rewrite decide_True by done. split; [done|]. intros k Hk.
    rewrite Hlook, decide_True by lia. done.
  - intros c Hc Hout _. rewrite Hreg in Hout.
    rewrite Tracker_get_set_range by (apply (rep_words _ _ H) || lia).
    rewrite decide_False by done. split; [done|]. intros k Hk.
    rewrite Hlook, decide_False by lia. done.
Qed.

Definition in_use_at (key_in_use_cb : Z → bool) (table_index i : Z) : bool :=
  key_in_use_cb (KeyNumber_new table_index i).

Lemma remove_entry_rep cb ti t A i :
  Rep t A → uint_range 8 i →
  match spec_get A i true with
  | Ok le => ∃ t',
      Table.remove_entry cb ti i t
        = (if in_use_at cb ti i then Err CannotDeleteKeyInUse else Ok tt, t') ∧
      Rep t' (<[Z.to_nat i := spec_remove (in_use_at cb ti i) le]> A) ∧
      (in_use_at cb ti i = false → ∀ b k, owns (entry_list t) A (Z.to_nat i) b → k < 8 →
         key_data_memory t' !! (8 * b + k) = Some 0%Z)
  | Err err => Table.remove_entry cb ti i t = (Err err, t)
  | Panic => False
  end.
Proof.
  intros H Hi. destruct (rep_lookup _ _ _ H (index_lt _ Hi)) as (e & a & He & Ha & Hrel).
  pose proof (get_entry_attributes_rep t A i true H Hi) as Hattr.
  pose proof (get_entry_rep _ _ _ true _ _ H He Ha) as Hget.
  pose proof (update_disabled_rep t A i true H Hi) as Hupd.
  unfold Table.remove_entry, get, lift, modify, throw, mbind, M_bind, in_use_at, spec_remove.
  rewrite Hattr, Hget. unfold spec_get in *. rewrite Ha in *. destruct a as [le|]; [|done].
  cbn [negb andb fmap outcome_fmap] in *. destruct (cb _).
  { destruct Hupd as (t' & Hupd & HR'). exists t'. unfold disable. by rewrite Hupd. }
  destruct Hrel as (off & -> & Hwf & Hb & _). cbn [pe_kind physical_of].
  pose proof (le_args _ Hwf) as [Hargs _]. apply expected_key_len_raw in Hargs.
  assert (Table.storage_key_len (le_kind le) (key_length_of (le_attributes le))
          = Table.storage_key_len (le_kind le) (length (le_blob le))) as ->.
  { unfold Table.storage_key_len in *. destruct (is_var_hmac_key _); [|done].
    by destruct Hargs as [_ ->]. }
  rewrite storage_bytes_ok. pose proof (le_blocks_spec _ Hwf) as (Hsz & _ & _). rewrite Hsz.
  unfold attributes_bytes_offset. cbn [pe_offset physical_of with_entry_list key_data_memory
    entry_list used_block_tracking_memory]. fold_sizes. rewrite Nat2Z.id, (Nat.mul_comm off 8).
  pose proof (rep_mem _ _ H) as Hm.
  unfold slice. rewrite decide_True by (rewrite Hm; lia). unfold copy_from_slice.
  assert (length (zeroize (take (8 * le_blocks le) (drop (8 * off) (key_data_memory t))))
          = 8 * le_blocks le) as Hz.
  { rewrite zeroize_spec, length_replicate, length_take, length_drop. lia. }
  rewrite decide_True by (rewrite Hm, Hz; split; lia).
  eexists. split; [done|]. cbn [with_tracking with_key_data with_entry_list entry_list
    used_block_tracking_memory key_data_memory].
  rewrite (Nat.mul_comm 8), Nat.div_mul by lia.
  rewrite zeroize_spec, length_take, length_drop, Nat.min_l by lia.
  rewrite (Nat.mul_comm (le_blocks le) 8).
  split; [by eapply zeroed_region_rep|]. intros _ b k (e & a & He' & Ha' & Hin) Hk.
  rewrite He in He'. rewrite Ha in Ha'. simplify_eq.
  unfold in_region in Hin. simpl in Hin. rewrite Nat2Z.id in Hin.
  rewrite zeroed_lookup, decide_True by lia. done.
Qed.

(** ** Addition *)

(** The two copies of [add_entry]: attributes, then the blob behind them. *)
Definition stored (mem : list Z) (o : nat) (ab blob : list Z) : list Z :=
  let mem1 := take o mem ++ ab ++ drop (o + 32) mem in
  take (o + 32) mem1 ++ blob ++ drop (o + 32 + length blob) mem1.

Lemma stored_spec mem o ab blob :
  length ab = 32 → o + 32 + length blob ≤ length mem →
  length (stored mem o ab blob) = length mem ∧
  take 32 (drop o (stored mem o ab blob)) = ab ∧
  take (length blob) (drop (o + 32) (stored mem o ab blob)) = blob ∧
  ∀ j, ¬ (o ≤ j < o + 32 + length blob) → stored mem o ab blob !! j = mem !! j.
Proof.
  intros Hab Hlen. unfold stored.
  pose proof (length_splice mem ab o) as H1. rewrite Hab in H1. specialize (H1 ltac:(lia)).
  assert (∀ j, ¬ (o ≤ j < o + 32) →
    (take o mem ++ ab ++ drop (o + 32) mem) !! j = mem !! j) as H2.
  { intros j Hj. pose proof (lookup_splice mem ab o j) as Hsp. rewrite Hab in Hsp.
    rewrite Hsp, decide_False by lia. done. }
  pose proof (take_drop_splice_in mem ab o) as H3. rewrite Hab in H3. specialize (H3 ltac:(lia)).
  set (mem1 := take o mem ++ ab ++ drop (o + 32) mem) in *.
  split_and!.
  - rewrite length_splice; lia.
  - trans (take 32 (drop o mem1)); [|done]. apply take_drop_ext. intros j Hj.
    rewrite lookup_splice by lia. rewrite decide_False by lia. done.
  - apply take_drop_splice_in. lia.
  - intros j Hj. rewrite lookup_splice by lia. rewrite decide_False by lia.
    apply H2. lia.
Qed.

Lemma stored_rep t A i s le :
  Rep t A → A !! i = Some None → le_wf le → s + le_blocks le ≤ BLOB_BLOCKS →
  free_window (used_block_tracking_memory t) s (le_blocks le) →
  Rep (mkPhysicalTable (<[i := physical_of s le]> (entry_list t))
         (Tracker.set_range (used_block_tracking_memory t) s (le_blocks le) true)
         (stored (key_data_memory t) (8 * s) (as_bytes (le_attributes le)) (le_blob le)))
    (<[i := Some le]> A).
Proof.
  intros H Ha Hwf Hs Hwin.
  destruct (Forall2_lookup_r _ _ _ _ _ (rep_entries _ _ H) Ha) as (e & He & Hrel).
  simpl in Hrel. subst e. pose proof (rep_mem _ _ H) as Hmlen.
  pose proof (le_blocks_spec _ Hwf) as (_ & Hsz & _).
  destruct (stored_spec (key_data_memory t) (8 * s) (as_bytes (le_attributes le)) (le_blob le))
    as (Hl & Hattr & Hblob & Hout); [apply length_as_bytes, Hwf|lia|].
  assert (∀ c, in_region (physical_of s le) (Some le) c ↔ s ≤ c < s + le_blocks le) as Hreg.
  { intros c. unfold in_region. simpl. by rewrite Nat2Z.id. }
  eapply (rep_replace t _ A i free_entry (physical_of s le) None (Some le));
    cbn [entry_list used_block_tracking_memory key_data_memory]; try fast_done.
  - apply Tracker_set_range_wf, (rep_words _ _ H).
  - exists s. by split_and!.
  - intros c Hc j Hj Ho. rewrite Hreg in Hc. specialize (Hwin c Hc).
    assert (block_free (used_block_tracking_memory t) c = false) as Hf; [|congruence].
    apply (rep_block_free t A); [done|lia|]. by exists j.
  - intros c Hc. rewrite Hreg in Hc.
    rewrite Tracker_get_set_range by (apply (rep_words _ _ H) || lia).
    by rewrite decide_True.
  - intros c. unfold in_region. simpl. lia.
  - intros c Hc _ Hnot. rewrite Hreg in Hnot.
    rewrite Tracker_get_set_range by (apply (rep_words _ _ H) || lia).
    rewrite decide_False by done. split; [done|]. intros k Hk. apply Hout. lia.
Qed.

(** The outcome of [add_entry], case by case; the cases exclude each other. *)
Definition add_post (t : PhysicalTable) (A : LogicalTable) (le : LogicalEntry)
    (r : outcome HsmErr Z) (t' : PhysicalTable) : Prop :=
  let ok := args_ok (le_attributes le) (le_kind le) (le_blob le) in
  let needed := le_blocks le in
  let window := free_window (used_block_tracking_memory t) in
  match r with
  | Ok index => ok ∧ ∃ i, first_free A = Some i ∧ index = Z.of_nat i ∧
      used_blocks A + needed ≤ BLOB_BLOCKS ∧ Rep t' (<[i := Some le]> A) ∧
      ∃ s, window s needed ∧ (∀ s', s' < s → ¬ window s' needed) ∧
        used_block_tracking_memory t'
          = Tracker.set_range (used_block_tracking_memory t) s needed true
  | Err err => t' = t ∧
      ((err = InvalidArgument ∧ ¬ ok) ∨
       (err = NotEnoughSpace ∧ ok ∧
        (first_free A = None ∨ BLOB_BLOCKS < used_blocks A + needed)) ∨
       (err = DefragNeeded ∧ ok ∧ is_Some (first_free A) ∧
        used_blocks A + needed ≤ BLOB_BLOCKS ∧ ∀ s, ¬ window s needed))
  | Panic => False
  end.

Lemma window_count words s n :
  free_window words s n → s + n ≤ BLOB_BLOCKS → n ≤ free_count words BLOB_BLOCKS.
Proof.
  intros Hw Hs. unfold free_count. rewrite <- (length_seq n s) at 1.
  apply submseteq_length, NoDup_submseteq; [apply NoDup_seq|].
  intros b. rewrite elem_of_seq, list_elem_of_filter, elem_of_seq.
  intros Hb. split; [by apply Hw|lia].
Qed.

(** The search and the stores, once the arguments are accepted. *)
Lemma add_entry_stores t A attributes sid kind app blob slot :
  Rep t A → attributes_wf attributes → args_ok attributes kind blob →
  list_find (λ e, is_empty e = true) (entry_list t) = Some slot →
  let le := new_entry attributes sid kind app blob in
  ∃ r t', Table.add_entry attributes sid kind app blob t = (r, t') ∧ add_post t A le r t'.
Proof.
  intros H Hwf [Hkl Hfree] Hslot le.
  pose proof (rep_find_free _ _ H) as Hff. rewrite Hslot in Hff. simpl in Hff.
  assert (le_wf le) as Hle by (by constructor).
  pose proof (le_blocks_spec _ Hle) as (Hsz & Hlen & Hpos).
  change (storage_bytes kind (length blob) = 8 * le_blocks le) in Hsz.
  change (32 + length blob ≤ 8 * le_blocks le) in Hlen.
  pose proof (free_count_used_blocks _ _ H) as Hcount. pose proof (rep_mem _ _ H) as Hm.
  unfold Table.add_entry, get, lift, modify, unless, throw, mbind, mret, M_bind, M_ret.
  rewrite Hkl, Nat.eqb_refl, bool_decide_false by done. cbn [negb].
  rewrite storage_bytes_ok, Hslot, Hsz. cbn [ok_or]. fold_sizes.
  rewrite (Nat.mul_comm 8), Nat.div_mul by lia.
  destruct (find_blocks_spec (used_block_tracking_memory t) (le_blocks le) Hpos)
    as [(s & -> & Hs & Hwin & Hfirst)|[(-> & Hc & Hnone)|(-> & Hc & Hnone)]].
  2,3: eexists _, _; split; [done|]; split; [done|]; right.
  2:{ left. repeat split; [done..|]. right. lia. }
  2:{ right. rewrite <- Hff. split_and!; [done..|lia|done]. }
  assert (wrap 16 (Z.of_nat s) = Z.of_nat s) as Hw16.
  { apply wrap_small. pose proof BLOB_BLOCKS_u16. unfold uint_range. lia. }
  cbn [with_tracking with_key_data with_entry_list entry_list used_block_tracking_memory
    key_data_memory fst snd]. unfold copy_from_slice. rewrite Hw16, Nat2Z.id, (Nat.mul_comm s 8).
  rewrite decide_True by (rewrite Hm, (length_as_bytes _ Hwf); split; [lia|done]).
  pose proof (length_splice (key_data_memory t) (as_bytes attributes) (8 * s)) as Hsp.
  rewrite (length_as_bytes _ Hwf) in Hsp. fold_sizes. specialize (Hsp ltac:(lia)).
  rewrite decide_True by (rewrite Hsp; split; [lia|done]).
  eexists _, _. split; [done|]. split; [done|]. destruct slot as [i e]. cbn [fst] in *.
  exists i. rewrite <- Hff.
  apply list_find_Some in Hslot as (Hslot & _ & _). apply lookup_lt_Some in Hslot.
  rewrite (rep_entry_list_length _ _ H) in Hslot.
  split_and!; [done| | | |].
  - apply wrap_small. unfold uint_range, MAX_TABLE_ENTRY_COUNT in *. lia.
  - pose proof (window_count _ _ _ Hwin Hs). lia.
  - replace (s + le_blocks le - 1 + 1 - s) with (le_blocks le) by lia.
    apply (stored_rep t A i s le); [done| |done..]. unfold first_free in Hff.
    destruct (list_find (λ a, a = None) A) as [[j a]|] eqn:Hj; [|done].
    simpl in Hff. injection Hff as ->. apply list_find_Some in Hj as (Hj & -> & _). done.
  - exists s. split_and!; [done..|]. cbn. by replace (s + le_blocks le - 1 + 1 - s)
      with (le_blocks le) by lia.
Qed.

Lemma add_entry_rep t A attributes sid kind app blob :
  Rep t A → attributes_wf attributes →
  ∃ r t', Table.add_entry attributes sid kind app blob t = (r, t') ∧
    add_post t A (new_entry attributes sid kind app blob) r t'.
Proof.
  intros H Hwf. set (le := new_entry _ _ _ _ _).
  destruct (list_find (λ e, is_empty e = true) (entry_list t)) as [slot|] eqn:Hslot,
    (decide (args_ok attributes kind blob)) as [Hargs|Hargs].
  1:{ by eapply add_entry_stores. }
  2:{ pose proof (rep_find_free _ _ H) as Hff. rewrite Hslot in Hff. simpl in Hff.
      exists (Err NotEnoughSpace), t. split.
      - destruct Hargs as [Hkl Hfree].
        unfold Table.add_entry, get, lift, unless, throw, mbind, mret, M_bind, M_ret.
        rewrite Hkl, Nat.eqb_refl, bool_decide_false by done. cbn [negb].
        by rewrite storage_bytes_ok, Hslot.
      - split; [done|]. right. left. split_and!; [done..|]. by left. }
  all: exists (Err InvalidArgument), t; (split; [|split; [done|by left]]);
    unfold Table.add_entry, get, lift, unless, throw, mbind, mret, M_bind, M_ret;
    destruct (expected_key_len_cases attributes kind) as [[n Hn]|Hn]; rewrite Hn; [|done];
    destruct (Nat.eqb_spec (length blob) n) as [<-|]; [|done];
    case_bool_decide as Hk; [done|]; by destruct Hargs.
Qed.

(** ** Bulk removal *)

Section bulk.
Variables (matching : PhysicalEntry → bool) (sel : LogicalEntry → bool).
Variables (cb : Z → bool) (ti : Z).
Hypothesis Hsel : ∀ off le, matching (physical_of off le) = sel le.

(** The entry at index [i] afterwards, and what it adds to the two counts. *)
Definition remove_at (i : nat) (a : option LogicalEntry) : option LogicalEntry :=
  match a with
  | Some le => if sel le then spec_remove (in_use_at cb ti (Z.of_nat i)) le else Some le
  | None => None
  end.

Definition deleted_at (i : nat) (a : option LogicalEntry) : nat :=
  match a with
  | Some le => if sel le && negb (in_use_at cb ti (Z.of_nat i)) then 1 else 0
  | None => 0
  end.

Definition refused_at (i : nat) (a : option LogicalEntry) : nat :=
  match a with
  | Some le => if sel le && in_use_at cb ti (Z.of_nat i) then 1 else 0
  | None => 0
  end.

Fixpoint remove_from (k : nat) (A : LogicalTable) : LogicalTable :=
  match A with
  | [] => []
  | a :: A => remove_at k a :: remove_from (S k) A
  end.

Fixpoint count_from (f : nat → option LogicalEntry → nat) (k : nat) (A : LogicalTable) : nat :=
  match A with
  | [] => 0
  | a :: A => f k a + count_from f (S k) A
  end.

Lemma lookup_remove_from k A i : remove_from k A !! i = remove_at (k + i) <$> A !! i.
Proof.
  revert k i. induction A as [|a A IH]; intros k [|i]; simpl; try done.
  - by rewrite Nat.add_0_r.
  - rewrite IH. by replace (S k + i) with (k + S i) by lia.
Qed.

Lemma wrap8_succ d n : wrap 8 (wrap 8 (d + 1) + n) = wrap 8 (d + (1 + n)).
Proof.
  unfold wrap. rewrite Zplus_mod_idemp_l. f_equal. lia.
Qed.

Lemma remove_loop_rep rest A0 t d f :
  Rep t (A0 ++ rest) → uint_range 8 d → uint_range 8 f →
  ∃ t', Table.remove_loop matching cb ti (seq (length A0) (length rest)) d f t
    = (Ok (wrap 8 (d + Z.of_nat (count_from deleted_at (length A0) rest)),
           wrap 8 (f + Z.of_nat (count_from refused_at (length A0) rest))), t') ∧
    Rep t' (A0 ++ remove_from (length A0) rest).
Proof using Hsel.
  revert A0 t d f. induction rest as [|a rest IH]; intros A0 t d f H Hd Hf.
  { exists t. simpl. rewrite !Z.add_0_r, !wrap_small by done. by rewrite app_nil_r in *. }
  set (k := length A0) in *. cbn [length seq Table.remove_loop].
  assert (k < MAX_TABLE_ENTRY_COUNT) as Hk.
  { rewrite <- (rep_length _ _ H), length_app. simpl. lia. }
  assert (uint_range 8 (Z.of_nat k)) as Hk8 by (unfold uint_range, MAX_TABLE_ENTRY_COUNT in *; lia).
  destruct (rep_lookup _ _ _ H Hk) as (e & a' & He & Ha & Hrel).
  rewrite list_lookup_middle in Ha by done. injection Ha as <-. rewrite He.
  rewrite (entry_rel_is_empty _ _ _ Hrel), (wrap_small 8 (Z.of_nat k)) by done.
  assert (∀ a2 t2 d2 f2, Rep t2 (A0 ++ a2 :: rest) → uint_range 8 d2 → uint_range 8 f2 →
    ∃ t', Table.remove_loop matching cb ti (seq (S k) (length rest)) d2 f2 t2
      = (Ok (wrap 8 (d2 + Z.of_nat (count_from deleted_at (S k) rest)),
             wrap 8 (f2 + Z.of_nat (count_from refused_at (S k) rest))), t') ∧
      Rep t' (A0 ++ a2 :: remove_from (S k) rest)) as Hnext.
  { intros a2 t2 d2 f2 H2 Hd2 Hf2. specialize (IH (A0 ++ [a2]) t2 d2 f2).
    rewrite length_app, <- !app_assoc in IH. simpl in IH. rewrite Nat.add_1_r in IH.
    by apply IH. }
  destruct a as [le|]; cbn [count_from deleted_at refused_at remove_from remove_at].
  2:{ rewrite bool_decide_true by done. cbn [orb]. by apply Hnext. }
  rewrite bool_decide_false by done. destruct Hrel as (off & -> & _). rewrite Hsel.
  cbn [orb]. destruct (sel le); cbn [negb andb]; [|by apply Hnext].
  pose proof (remove_entry_rep cb ti t _ (Z.of_nat k) H Hk8) as Hrm.
  unfold spec_get in Hrm. rewrite Nat2Z.id, list_lookup_middle in Hrm by done.
  cbn [negb andb] in Hrm. destruct Hrm as (t1 & -> & HR1 & _).
  rewrite (insert_app_r_alt A0) in HR1 by lia. subst k. rewrite Nat.sub_diag in HR1.
  cbn [insert list_insert] in HR1.
  destruct (in_use_at cb ti _); cbn [negb].
  - destruct (Hnext _ t1 d (wrap 8 (f + 1)) HR1) as (t' & -> & HR'); [done|by apply wrap_range|].
    exists t'. split; [|done]. rewrite wrap8_succ. do 3 f_equal; f_equal; lia.
  - destruct (Hnext _ t1 (wrap 8 (d + 1)) f HR1) as (t' & -> & HR'); [by apply wrap_range|done|].
    exists t'. split; [|done]. rewrite wrap8_succ. do 3 f_equal; f_equal; lia.
Qed.

(** The [u8] counts decide the answer. *)
Definition remove_all_result (deleted refused : nat) : outcome HsmErr Z :=
  if (wrap 8 (Z.of_nat refused) =? 0)%Z then Ok (wrap 8 (Z.of_nat deleted))
  else if (wrap 8 (Z.of_nat refused) =? 1)%Z then Err CannotDeleteKeyInUse
  else Err CannotDeleteSomeKeysInUse.

Lemma remove_matching_rep t A :
  Rep t A →
  ∃ t', Table.remove_matching matching cb ti t
    = (remove_all_result (count_from deleted_at 0 A) (count_from refused_at 0 A), t') ∧
    Rep t' (remove_from 0 A).
Proof using Hsel.
  intros H. destruct (remove_loop_rep A [] t 0 0 H) as (t' & Hl & HR'); [done..|].
  exists t'. split; [|done]. unfold Table.remove_matching, mbind, M_bind.
  rewrite <- (rep_length _ _ H). simpl in Hl. rewrite Hl. unfold remove_all_result.
  destruct (_ =? 0)%Z; [done|]. by destruct (_ =? 1)%Z.
Qed.

End bulk.

(** ** Nuke *)

Lemma nuke_zeroed t A : Rep t A → Table.nuke t = zeroed_table.
Proof.
  intros H. unfold Table.nuke, zeroed_table.
  rewrite (proj1 (rep_words _ _ H)), zeroize_spec, (rep_mem _ _ H), BLOB_MEMORY_blocks.
  rewrite (Nat.mul_comm 8). f_equal.
  rewrite <- (rep_entry_list_length _ _ H). apply list_eq. intros i.
  rewrite list_lookup_fmap. destruct (entry_list t !! i) as [e|] eqn:He; simpl; symmetry.
  - apply lookup_replicate. split; [done|]. by eapply lookup_lt_Some.
  - apply lookup_replicate_None. by apply lookup_ge_None.
Qed.

End ops.
