(* ===== verification/KeyTableProps.v ===== *)
(** * Properties of the physical key table

    The theorems on [PhysicalTable] that clients rely on, over the operations
    of [KeyTable.Table] and every table they can reach. *)

From stdpp Require Import base list numbers option.
From S2P Require Import Prelude HsmError KeyEntry Crates KeyTable KeyTableSpec KeyTableRefine KeyTableOps.

(** ** Reachable tables *)

Inductive table_op : Type :=
  | OpAdd (attributes : EntryAttributes) (session_id_or_key_tag : Z) (kind : EntryKind)
      (app_id : Z) (blob : list Z)
  | OpRemove (key_in_use_cb : Z → bool) (table_index entry_index : Z)
  | OpEnable (entry_index : Z)
  | OpDisable (entry_index : Z)
  | OpRemoveSession (key_in_use_cb : Z → bool) (table_index session_id : Z)
  | OpRemoveApp (key_in_use_cb : Z → bool) (table_index app_id : Z)
  | OpNuke.

(** The ranges of the Rust argument types. *)
Definition op_typed (op : table_op) : Prop :=
  match op with
  | OpAdd attributes _ _ _ _ => attributes_wf attributes
  | OpRemove _ _ i | OpEnable i | OpDisable i => uint_range 8 i
  | _ => True
  end.

Section props.
Context `{ZC : Zerocopy, ZZ : Zeroize}.

(** One call on a table: how it leaves, and the table afterwards. *)
Definition run_op (op : table_op) (t : PhysicalTable) : outcome HsmErr () * PhysicalTable :=
  let unit {A} (p : outcome HsmErr A * PhysicalTable) := ((λ _, tt) <$> p.1, p.2) in
  match op with
  | OpAdd a s k app blob => unit (Table.add_entry a s k app blob t)
  | OpRemove cb ti i => Table.remove_entry cb ti i t
  | OpEnable i => Table.enable_entry i t
  | OpDisable i => Table.disable_entry i t
  | OpRemoveSession cb ti sid => unit (Table.remove_all_session_only_entries cb ti sid t)
  | OpRemoveApp cb ti app => unit (Table.remove_all_entries_for_app cb ti app t)
  | OpNuke => (Ok tt, Table.nuke t)
  end.

(** Tables reachable from zeroed memory by any sequence of calls. *)
Inductive reachable : PhysicalTable → Prop :=
  | reach_init : reachable zeroed_table
  | reach_step t op : reachable t → op_typed op → reachable (run_op op t).2.

Lemma le_session_only_of sid off le :
  Table.session_only_of sid (physical_of off le)
    = ef_session (le_flags le) && bool_decide (le_session_id_or_key_tag le = sid).
Proof.
  unfold Table.session_only_of, session_id. simpl. destruct (ef_session _); [|done].
  simpl. repeat case_bool_decide; congruence.
Qed.

Lemma run_op_rep t A op :
  Rep t A → op_typed op → (run_op op t).1 ≠ Panic ∧ ∃ A', Rep (run_op op t).2 A'.
Proof.
  intros H Hop. destruct op as [a s k app blob|cb ti i|i|i|cb ti sid|cb ti app|]; simpl in Hop;
    cbn [run_op].
  - destruct (add_entry_rep t A a s k app blob H Hop) as (r & t' & -> & Hpost). simpl.
    destruct r as [i|e|]; [|destruct Hpost as [-> _]; by eauto|done].
    destruct Hpost as (_ & j & _ & _ & _ & HR & _). eauto.
  - pose proof (remove_entry_rep cb ti t A i H Hop) as Hr.
    destruct (spec_get A i true); [destruct Hr as (t' & -> & HR & _)|rewrite Hr|done]; simpl.
    + split; [by destruct (in_use_at cb ti i)|eauto].
    + eauto.
  - pose proof (update_disabled_rep t A i false H Hop) as Hr.
    unfold Table.enable_entry, enable.
    destruct (spec_get A i true); [destruct Hr as (t' & -> & HR)|rewrite Hr|done]; simpl; eauto.
  - pose proof (update_disabled_rep t A i true H Hop) as Hr.
    unfold Table.disable_entry, disable.
    destruct (spec_get A i true); [destruct Hr as (t' & -> & HR)|rewrite Hr|done]; simpl; eauto.
  - destruct (remove_matching_rep _ _ cb ti (le_session_only_of sid) t A H) as (t' & Hr & HR).
    unfold Table.remove_all_session_only_entries. rewrite Hr. split; [|by eauto].
    simpl. unfold remove_all_result. by repeat destruct (_ =? _)%Z.
  - destruct (remove_matching_rep (Table.app_entry_of app)
      (λ le, bool_decide (le_app_id le = app)) cb ti (λ _ _, eq_refl) t A H) as (t' & Hr & HR).
    unfold Table.remove_all_entries_for_app. rewrite Hr. split; [|by eauto].
    simpl. unfold remove_all_result. by repeat destruct (_ =? _)%Z.
  - split; [done|]. simpl. rewrite (nuke_zeroed t A H). exists empty_table. apply rep_zeroed.
Qed.

Lemma reachable_rep t : reachable t → ∃ A, Rep t A.
Proof.
  induction 1 as [|t op _ [A IH] Hop]; [exists empty_table; apply rep_zeroed|].
  by eapply run_op_rep.
Qed.

(** C1: every table reachable by any sequence of add, remove, enable, disable,
    bulk-removal and nuke calls represents an abstract table (so its entries
    own disjoint block regions, the bitmap marks exactly the owned blocks and
    every free block is zero), and no call on it panics: every slice and
    [unreachable!] in the code is in range. *)
Theorem table_calls_never_panic t op :
  reachable t → op_typed op →
  (∃ A, Rep t A) ∧ (run_op op t).1 ≠ Panic ∧ ∃ A', Rep (run_op op t).2 A'.
Proof.
  intros Ht Hop. destruct (reachable_rep t Ht) as [A HA]. split; [eauto|].
  by eapply run_op_rep.
Qed.

(** C2: [PhysicalTable::add_entry] on a table that represents [A].  It answers
    [InvalidArgument] exactly when the blob length or kind is wrong,
    [NotEnoughSpace] exactly when no metadata slot is free or the blocks of
    the stored keys leave too few, [DefragNeeded] exactly when the blocks
    would suffice but no run of them is long enough (all three leave the
    table as it was); otherwise it stores the key in the first free slot, at
    the lowest run of free blocks, and leaves every other entry alone. *)
Theorem add_entry_refines t A attributes sid kind app blob :
  Rep t A → attributes_wf attributes →
  ∃ r t', Table.add_entry attributes sid kind app blob t = (r, t') ∧
    add_post t A (new_entry attributes sid kind app blob) r t'.
Proof. apply add_entry_rep. Qed.

(** What [add_entry] stores is what the lookups return: the blob, the
    attributes and the metadata of the new entry, enabled; and every lookup
    at another index answers as before. *)
Theorem add_then_get t A attributes sid kind app blob index t' :
  Rep t A → attributes_wf attributes →
  Table.add_entry attributes sid kind app blob t = (Ok index, t') →
  Table.get_entry_blob t' index = Ok blob ∧
  Table.get_entry_attributes t' index false = Ok attributes ∧
  metadata <$> Table.get_entry t' index false
    = Ok (EntryFlags_from (ea_flags attributes), sid, kind, app) ∧
  ∀ j allow, uint_range 8 j → j ≠ index →
    Table.get_entry_blob t' j = Table.get_entry_blob t j ∧
    Table.get_entry_attributes t' j allow = Table.get_entry_attributes t j allow.
Proof.
  intros H Hwf Hadd.
  destruct (add_entry_rep t A attributes sid kind app blob H Hwf) as (r & t1 & Heq & Hpost).
  rewrite Hadd in Heq. injection Heq as <- <-. destruct Hpost as (_ & i & Hi & -> & _ & HR & _).
  assert (i < length A) as Hlt.
  { unfold first_free in Hi. destruct (list_find _ A) as [[j a]|] eqn:Hj; [|done].
    simpl in Hi. injection Hi as ->. apply list_find_Some in Hj as [Hj _].
    by eapply lookup_lt_Some. }
  assert (uint_range 8 (Z.of_nat i)) as Hr8.
  { rewrite (rep_length _ _ H) in Hlt. unfold uint_range, MAX_TABLE_ENTRY_COUNT in *. lia. }
  set (A' := <[i := _]> A) in HR.
  assert (A' !! Z.to_nat (Z.of_nat i) = Some (Some (new_entry attributes sid kind app blob))) as HA'.
  { rewrite Nat2Z.id. by apply list_lookup_insert_eq. }
  split_and!.
  - rewrite (get_entry_blob_rep _ _ _ HR Hr8). unfold spec_get. by rewrite HA'.
  - rewrite (get_entry_attributes_rep _ _ _ _ HR Hr8). unfold spec_get. by rewrite HA'.
  - destruct (rep_lookup _ _ _ HR (index_lt _ Hr8)) as (e & a & He & Ha & Hrel).
    rewrite (get_entry_rep _ _ _ _ _ _ HR He Ha). rewrite HA' in Ha. injection Ha as <-.
    unfold spec_get. rewrite HA'. by destruct Hrel as (off & -> & _).
  - intros j allow Hj Hne.
    assert (A' !! Z.to_nat j = A !! Z.to_nat j) as Hj'.
    { apply list_lookup_insert_ne. unfold uint_range in Hj. lia. }
    rewrite !(get_entry_blob_rep t' _ _ HR), !(get_entry_blob_rep t _ _ H) by done.
    rewrite !(get_entry_attributes_rep t' _ _ _ HR), !(get_entry_attributes_rep t _ _ _ H) by done.
    unfold spec_get. by rewrite Hj'.
Qed.

(** C3: [PhysicalTable::remove_entry].  A free index is [InvalidKeyIndex].  A
    key in use stays, disabled, and the call answers [CannotDeleteKeyInUse].
    Otherwise exactly that entry disappears and every byte of the blocks it
    owned reads zero. *)
Theorem remove_entry_refines cb ti t A i :
  Rep t A → uint_range 8 i →
  match spec_get A i true with
  | Ok le => ∃ t',
      Table.remove_entry cb ti i t
        = (if in_use_at cb ti i then Err CannotDeleteKeyInUse else Ok tt, t') ∧
      Rep t' (<[Z.to_nat i := spec_remove (in_use_at cb ti i) le]> A) ∧
      (in_use_at cb ti i = false → ∀ b k, owns (entry_list t) A (Z.to_nat i) b → k < 8 →
         key_data_memory t' !! (8 * b + k) = Some 0%Z)
  | Err err => Table.remove_entry cb ti i t = (Err err, t)
  | Panic => False
  end.
Proof. apply remove_entry_rep. Qed.

(** The bulk removal at session close ([remove_all_session_only_entries]):
    exactly the session-only keys of that session are removed, those in use
    are disabled instead, all other entries stay; with fewer than 256
    refusals the answer is [Ok] of the number removed (mod 256) exactly when
    none was refused. *)
Theorem remove_all_session_refines cb ti sid t A :
  Rep t A →
  let sel le := ef_session (le_flags le) && bool_decide (le_session_id_or_key_tag le = sid) in
  let deleted := count_from (deleted_at sel cb ti) 0 A in
  let refused := count_from (refused_at sel cb ti) 0 A in
  refused < 256 →
  ∃ t', Table.remove_all_session_only_entries cb ti sid t
    = (match refused with
       | 0 => Ok (wrap 8 (Z.of_nat deleted))
       | 1 => Err CannotDeleteKeyInUse
       | _ => Err CannotDeleteSomeKeysInUse
       end, t') ∧
    ∃ A', Rep t' A' ∧ ∀ i, A' !! i = remove_at sel cb ti i <$> A !! i.
Proof.
  intros H sel deleted refused Hlt.
  destruct (remove_matching_rep _ _ cb ti (le_session_only_of sid) t A H) as (t' & Hr & HR).
  exists t'. split; [|exists (remove_from sel cb ti 0 A); split; [done|intros i;
    apply (lookup_remove_from sel cb ti 0)]].
  unfold Table.remove_all_session_only_entries. rewrite Hr.
  fold sel. fold deleted. fold refused. f_equal. unfold remove_all_result.
  rewrite (wrap_small 8 (Z.of_nat refused)) by (unfold uint_range; lia).
  destruct refused as [|[|n]]; [done..|].
  destruct (Z.eqb_spec (Z.of_nat (S (S n))) 0); [lia|].
  destruct (Z.eqb_spec (Z.of_nat (S (S n))) 1); [lia|done].
Qed.

(** The block search is first-fit and complete: it returns the lowest run
    of [needed] free blocks when there is one; without one it answers
    [NotEnoughSpace] exactly when fewer than [needed] blocks are free in all,
    and [DefragNeeded] otherwise. *)
Theorem find_blocks_first_fit words needed :
  0 < needed → find_blocks_post words needed (Table.find_blocks words needed).
Proof. apply find_blocks_spec. Qed.

(** The lookups read the abstract table: blob, attributes and tag search. *)
Theorem lookups_refine t A :
  Rep t A →
  (∀ i, uint_range 8 i → Table.get_entry_blob t i = le_blob <$> spec_get A i true) ∧
  (∀ i allow, uint_range 8 i →
     Table.get_entry_attributes t i allow = le_attributes <$> spec_get A i allow) ∧
  (∀ app_id tag, Table.get_entry_index_by_tag t app_id tag = spec_by_tag A app_id tag).
Proof.
  intros H. split_and!; intros.
  - by apply get_entry_blob_rep.
  - by apply get_entry_attributes_rep.
  - by apply get_entry_index_by_tag_rep.
Qed.

(** ** A full table of keys in use *)

Lemma add_with_window t A attributes sid kind app blob i s :
  Rep t A → attributes_wf attributes → args_ok attributes kind blob →
  first_free A = Some i →
  let le := new_entry attributes sid kind app blob in
  free_window (used_block_tracking_memory t) s (le_blocks le) →
  s + le_blocks le ≤ BLOB_BLOCKS →
  ∃ t' s0, Table.add_entry attributes sid kind app blob t = (Ok (Z.of_nat i), t') ∧
    Rep t' (<[i := Some le]> A) ∧ s0 ≤ s ∧
    used_block_tracking_memory t'
      = Tracker.set_range (used_block_tracking_memory t) s0 (le_blocks le) true.
Proof.
  intros H Hwf Hargs Hff le Hw Hs.
  destruct (add_entry_rep t A attributes sid kind app blob H Hwf) as (r & t' & Hadd & Hpost).
  fold le in Hpost. pose proof (free_count_used_blocks _ _ H) as Hc.
  pose proof (window_count _ _ _ Hw Hs) as Hwc. destruct r as [index|err|]; [| |done].
  - destruct Hpost as (_ & j & Hj & -> & _ & HR & s0 & _ & Hlow & Hwords).
    rewrite Hff in Hj. injection Hj as ->. exists t', s0. split_and!; [done..| |done].
    destruct (decide (s < s0)) as [Hlt|]; [|lia]. exfalso. by eapply Hlow.
  - exfalso. destruct Hpost as [_ [[_ Hn]|[(_ & _ & [Hn|Hn])|(_ & _ & _ & _ & Hn)]]].
    + by apply Hn.
    + congruence.
    + lia.
    + by eapply Hn.
Qed.

(** An AES-128 key of application 0 with default attributes: six blocks. *)
Definition sample_key : LogicalEntry :=
  new_entry EntryAttributes_default 0 EK_Aes128 0 (replicate 16 1%Z).

Lemma sample_wf : attributes_wf EntryAttributes_default.
Proof. unfold attributes_wf. split_and!; try done; simpl; repeat constructor; done. Qed.

Lemma sample_args : args_ok EntryAttributes_default EK_Aes128 (replicate 16 1%Z).
Proof. split; [done|discriminate]. Qed.

Lemma sample_blocks : le_blocks sample_key = 6.
Proof. vm_compute. done. Qed.

Lemma first_free_filled n m le :
  first_free (replicate n (Some le) ++ replicate (S m) None) = Some n.
Proof.
  unfold first_free. erewrite (proj2 (list_find_Some _ _ n None)); [done|].
  split_and!; [|done|].
  - rewrite lookup_app_r by (rewrite length_replicate; lia).
    rewrite length_replicate, Nat.sub_diag. done.
  - intros j y Hy Hj. rewrite lookup_app_l in Hy by (by rewrite length_replicate).
    apply lookup_replicate in Hy as [-> _]. done.
Qed.

Lemma fill_table n :
  n ≤ MAX_TABLE_ENTRY_COUNT →
  ∃ t, reachable t ∧
    Rep t (replicate n (Some sample_key) ++ replicate (MAX_TABLE_ENTRY_COUNT - n) None) ∧
    free_window (used_block_tracking_memory t) (6 * n) (BLOB_BLOCKS - 6 * n).
Proof.
  assert (6 * MAX_TABLE_ENTRY_COUNT ≤ BLOB_BLOCKS) as Hfit.
  { apply Nat.leb_le. vm_compute. done. }
  induction n as [|n IH]; intros Hn.
  - exists zeroed_table. split_and!; [constructor|apply rep_zeroed|].
    intros b Hb. unfold block_free. cbn [zeroed_table used_block_tracking_memory].
    rewrite Tracker_get_zero by lia. done.
  - destruct IH as (t & Hreach & HR & Hw); [lia|].
    replace (MAX_TABLE_ENTRY_COUNT - n) with (S (MAX_TABLE_ENTRY_COUNT - S n)) in HR by lia.
    destruct (add_with_window t _ EntryAttributes_default 0 EK_Aes128 0 (replicate 16 1%Z) n (6 * n)
      HR sample_wf sample_args (first_free_filled _ _ _)) as (t' & s0 & Hadd & HR' & Hs0 & Hwords).
    + fold sample_key. rewrite sample_blocks. intros b Hb. apply Hw. lia.
    + fold sample_key. rewrite sample_blocks. lia.
    + exists t'. split_and!.
      * pose proof (reach_step t (OpAdd EntryAttributes_default 0 EK_Aes128 0 (replicate 16 1%Z))
          Hreach sample_wf) as Hstep. cbn [run_op fst snd] in Hstep. by rewrite Hadd in Hstep.
      * fold sample_key in HR'. rewrite insert_app_r_alt in HR' by (by rewrite length_replicate).
        rewrite length_replicate, Nat.sub_diag in HR'. cbn [replicate insert list_insert] in HR'.
        rewrite replicate_S_end, <- app_assoc. exact HR'.
      * fold sample_key in Hwords. rewrite sample_blocks in Hwords. rewrite Hwords.
        intros b Hb. unfold block_free.
        rewrite Tracker_get_set_range by (apply (rep_words _ _ HR) || lia).
        rewrite decide_False by lia. apply Hw. lia.
Qed.

Lemma count_from_replicate f n k a :
  (∀ i, f i a = 1) → count_from f k (replicate n a) = n.
Proof. intros Hf. revert k. induction n as [|n IH]; intros k; simpl; [done|]. by rewrite Hf, IH. Qed.

(** The failure count of the bulk removals is a [u8] and wraps: there is a
    reachable table with 256 keys of one application, all in use, on which
    [remove_all_entries_for_app] answers [Ok(0)] although every removal was
    refused and all 256 keys are still there (disabled). *)
Theorem remove_all_refusals_wrap :
  ∃ t t', reachable t ∧ Rep t (replicate 256 (Some sample_key)) ∧
    Table.remove_all_entries_for_app (λ _, true) 0 0 t = (Ok 0%Z, t') ∧
    Rep t' (replicate 256 (Some (le_set_disabled true sample_key))).
Proof.
  destruct (fill_table 256) as (t & Hreach & HR & _); [done|].
  rewrite Nat.sub_diag, app_nil_r in HR.
  destruct (remove_matching_rep (Table.app_entry_of 0)
    (λ le, bool_decide (le_app_id le = 0%Z)) (λ _, true) 0 (λ _ _, eq_refl) t _ HR)
    as (t' & Hr & HR').
  exists t, t'. split_and!; [done..| |].
  - unfold Table.remove_all_entries_for_app. rewrite Hr. unfold remove_all_result.
    rewrite (count_from_replicate (refused_at _ _ _)) by done. reflexivity.
  - assert (remove_from (λ le, bool_decide (le_app_id le = 0%Z)) (λ _, true) 0 0
      (replicate 256 (Some sample_key)) = replicate 256 (Some (le_set_disabled true sample_key)))
      as <-; [vm_compute; done|done].
Qed.

End props.

(** ** Witnesses *)

(** The crates at their reference implementations. *)
#[local] Existing Instance zerocopy_le.
#[local] Existing Instance zeroize_fill.

Definition sample_op : table_op :=
  OpAdd EntryAttributes_default 0 EK_Aes128 0 (replicate 16 1%Z).

Lemma table_calls_never_panic_witness :
  (run_op sample_op zeroed_table).1 ≠ Panic ∧ ∃ A', Rep (run_op sample_op zeroed_table).2 A'.
Proof. apply (table_calls_never_panic zeroed_table sample_op reach_init sample_wf). Defined.

Lemma add_entry_refines_witness :
  ∃ r t', Table.add_entry EntryAttributes_default 0 EK_Aes128 0 (replicate 16 1%Z) zeroed_table
            = (r, t') ∧ add_post zeroed_table empty_table sample_key r t'.
Proof. exact (add_entry_refines _ _ _ 0 EK_Aes128 0 _ rep_zeroed sample_wf). Defined.

Lemma sample_add :
  ∃ t', Table.add_entry EntryAttributes_default 0 EK_Aes128 0 (replicate 16 1%Z) zeroed_table
    = (Ok 0%Z, t') ∧ Rep t' (<[0 := Some sample_key]> empty_table).
Proof.
  destruct (add_with_window zeroed_table empty_table EntryAttributes_default 0 EK_Aes128 0
    (replicate 16 1%Z) 0 0 rep_zeroed sample_wf sample_args eq_refl) as (t' & _ & Hadd & HR & _).
  - fold sample_key. rewrite sample_blocks. intros b Hb. unfold block_free.
    cbn [zeroed_table used_block_tracking_memory].
    rewrite Tracker_get_zero; [done|]. pose proof (Nat.leb_le 6 BLOB_BLOCKS). vm_compute in H.
    apply (Nat.lt_le_trans _ 6); [lia|by apply H].
  - fold sample_key. rewrite sample_blocks. apply Nat.leb_le. vm_compute. done.
  - change (Z.of_nat 0) with 0%Z in Hadd. exists t'. split; [exact Hadd|exact HR].
Qed.

Lemma add_then_get_witness :
  ∃ t', Table.add_entry EntryAttributes_default 0 EK_Aes128 0 (replicate 16 1%Z) zeroed_table
    = (Ok 0%Z, t') ∧ Table.get_entry_blob t' 0 = Ok (replicate 16 1%Z).
Proof.
  destruct sample_add as (t' & Hadd & _). exists t'. split; [exact Hadd|].
  exact (proj1 (add_then_get _ _ _ _ _ _ _ _ _ rep_zeroed sample_wf Hadd)).
Defined.

Lemma remove_entry_refines_witness :
  ∃ t t', Rep t (<[0 := Some sample_key]> empty_table) ∧
    Table.remove_entry (λ _, false) 0 0 t = (Ok tt, t') ∧ Rep t' empty_table.
Proof.
  destruct sample_add as (t & _ & HR).
  pose proof (remove_entry_refines (λ _, false) 0 t _ 0 HR ltac:(done)) as Hr.
  destruct Hr as (t' & Hr & HR' & _). exists t, t'. split; [exact HR|]. split; [exact Hr|exact HR'].
Defined.

Lemma remove_all_session_refines_witness :
  ∃ t', Table.remove_all_session_only_entries (λ _, false) 0 7 zeroed_table = (Ok 0%Z, t').
Proof.
  destruct (remove_all_session_refines (λ _, false) 0 7 zeroed_table empty_table rep_zeroed)
    as (t' & Hr & _).
  - vm_compute. lia.
  - exists t'. exact Hr.
Defined.

Lemma find_blocks_first_fit_witness :
  find_blocks_post (replicate USED_BLOCK_TRACKING_SIZE_WORDS 0%Z) 6
    (Table.find_blocks (replicate USED_BLOCK_TRACKING_SIZE_WORDS 0%Z) 6).
Proof. apply find_blocks_first_fit. lia. Defined.

Lemma lookups_refine_witness :
  Table.get_entry_blob zeroed_table 3 = Err InvalidKeyIndex ∧
  Table.get_entry_index_by_tag zeroed_table 1 5 = Err KeyNotFound.
Proof.
  destruct (lookups_refine zeroed_table empty_table rep_zeroed) as (H1 & _ & H3). split.
  - rewrite H1 by done. reflexivity.
  - rewrite H3. reflexivity.
Defined.
