(* ===== verification/KeyStore.v ===== *)
(** * The key store (hsm/src/partition/vault/store/key_store.rs)

    A key store is a mask over the 65 tables of the vault memory.  All stores
    share that memory; the operations thread it as the state. *)

From stdpp Require Import base list numbers option.
From S2P Require Import Prelude HsmError KeyEntry Crates KeyTable.

(** The table memory: [MAX_TABLE_COUNT] tables. *)
Abbreviation memory := (list PhysicalTable).

(** [KeyStoreImpl]: the base address is the memory itself. *)
Record KeyStoreImpl : Set := mkKeyStoreImpl { mask : Z (* u128 *) }.

Module Store.
Section store.
Context `{ZC : Zerocopy, ZZ : Zeroize}.

Definition is_valid_table (st : KeyStoreImpl) (table_index : Z) : bool :=
  (table_index <? Z.of_nat MAX_TABLE_COUNT)%Z
  && negb (Z.land (mask st) (Z.shiftl 1 table_index) =? 0)%Z.

(** [get_table] and [get_table_mut]; the pointer is in the memory by the mask
    check. *)
Definition get_table (st : KeyStoreImpl) (mem : memory) (table_index : Z) :
    outcome HsmErr PhysicalTable :=
  if is_valid_table st table_index then
    match mem !! Z.to_nat table_index with Some t => Ok t | None => Panic end
  else Err InvalidKeyIndex.

(** A call on one table through [get_table_mut]. *)
Definition on_table {A} (st : KeyStoreImpl) (table_index : Z)
    (op : M PhysicalTable HsmErr A) : M memory HsmErr A := λ mem,
  match get_table st mem table_index with
  | Ok t => let '(r, t') := op t in (r, <[Z.to_nat table_index := t']> mem)
  | Err e => (Err e, mem)
  | Panic => (Panic, mem)
  end.

(** [get_entry_index_by_tag]: the first valid table that knows the tag. *)
Fixpoint index_by_tag_loop (st : KeyStoreImpl) (mem : memory) (app_id key_tag_ : Z)
    (indices : list nat) : outcome HsmErr Z :=
  match indices with
  | [] => Err KeyNotFound
  | i :: indices =>
      let table_index := Z.of_nat i in
      if is_valid_table st table_index then
        table ← get_table st mem table_index;
        match Table.get_entry_index_by_tag table app_id key_tag_ with
        | Ok entry_index => Ok (KeyNumber_new table_index entry_index)
        | _ => index_by_tag_loop st mem app_id key_tag_ indices
        end
      else index_by_tag_loop st mem app_id key_tag_ indices
  end.

Definition get_entry_index_by_tag (st : KeyStoreImpl) (mem : memory) (app_id key_tag_ : Z) :
    outcome HsmErr Z :=
  index_by_tag_loop st mem app_id key_tag_ (seq 0 MAX_TABLE_COUNT).

(** The length the store expects of the blob. *)
Definition expected_key_len (attributes : EntryAttributes) (kind : EntryKind) :
    outcome HsmErr nat :=
  if is_var_hmac_key kind then
    let key_len := key_length_of attributes in
    if key_len =? 0 then Err InvalidArgument else Ok key_len
  else raw_key_blob_size kind.

(** The [find_map] over the tables with its captured [defrag_needed]. *)
Fixpoint add_loop (st : KeyStoreImpl) (attributes : EntryAttributes)
    (session_id_or_key_tag : Z) (kind : EntryKind) (app_id : Z) (blob : list Z)
    (indices : list nat) (defrag_needed : bool) : M memory HsmErr Z :=
  match indices with
  | [] => throw (if defrag_needed then DefragNeeded else NotEnoughSpace)
  | i :: indices => λ mem,
      let table_index := wrap 8 (Z.of_nat i) in
      match get_table st mem table_index with
      | Err _ =>
          add_loop st attributes session_id_or_key_tag kind app_id blob indices
            defrag_needed mem
      | Panic => (Panic, mem)
      | Ok _ =>
          match on_table st table_index
                  (Table.add_entry attributes session_id_or_key_tag kind app_id blob) mem with
          | (Ok entry_index, mem) => (Ok (KeyNumber_new table_index entry_index), mem)
          | (Err err, mem) =>
              add_loop st attributes session_id_or_key_tag kind app_id blob indices
                (if bool_decide (err = DefragNeeded) then true else defrag_needed) mem
          | (Panic, mem) => (Panic, mem)
          end
      end
  end.

Definition add_entry (st : KeyStoreImpl) (attributes : EntryAttributes)
    (session_id_or_key_tag : Z) (kind : EntryKind) (app_id : Z) (blob : list Z) :
    M memory HsmErr Z :=
  _ ← unless (negb (bool_decide (kind = EK_Free))) InvalidArgument;
  key_len ← lift (expected_key_len attributes kind);
  _ ← unless (length blob =? key_len) InvalidArgument;
  mem ← get;
  let tagged := negb (af_session (ea_flags attributes))
                && negb (bool_decide (session_id_or_key_tag = KEY_TAG_UNASSIGNED)) in
  _ ← unless (negb (tagged && is_ok (get_entry_index_by_tag st mem app_id session_id_or_key_tag)))
        KeyTagAlreadyExists;
  add_loop st attributes session_id_or_key_tag kind app_id blob (seq 0 MAX_TABLE_COUNT) false.

Definition enable_entry (st : KeyStoreImpl) (entry : Z) : M memory HsmErr () :=
  on_table st (KeyNumber_table entry) (Table.enable_entry (KeyNumber_entry entry)).

Definition disable_entry (st : KeyStoreImpl) (entry : Z) : M memory HsmErr () :=
  on_table st (KeyNumber_table entry) (Table.disable_entry (KeyNumber_entry entry)).

Definition remove_entry (st : KeyStoreImpl) (key_in_use_cb : Z → bool) (entry : Z) :
    M memory HsmErr () :=
  on_table st (KeyNumber_table entry)
    (Table.remove_entry key_in_use_cb (KeyNumber_table entry) (KeyNumber_entry entry)).

(** The loop shared by the two bulk removals; [op] is the table's own bulk
    removal.  The counts are [u16]. *)
Fixpoint remove_all_loop (st : KeyStoreImpl) (op : Z → M PhysicalTable HsmErr Z)
    (indices : list nat) (delete_count failed_delete_count : Z) : M memory HsmErr (Z * Z) :=
  match indices with
  | [] => mret (delete_count, failed_delete_count)
  | i :: indices => λ mem,
      let table_index := Z.of_nat i in
      if negb (is_valid_table st table_index) then
        remove_all_loop st op indices delete_count failed_delete_count mem
      else
        match on_table st table_index (op table_index) mem with
        | (Ok count, mem) =>
            remove_all_loop st op indices (wrap 16 (delete_count + count))
              failed_delete_count mem
        | (Err err, mem) =>
            remove_all_loop st op indices delete_count
              (wrap 16 (failed_delete_count
                        + if bool_decide (err = CannotDeleteKeyInUse) then 1 else 2)) mem
        | (Panic, mem) => (Panic, mem)
        end
  end.

Definition remove_all (st : KeyStoreImpl) (op : Z → M PhysicalTable HsmErr Z) :
    M memory HsmErr Z :=
  counts ← remove_all_loop st op (seq 0 MAX_TABLE_COUNT) 0 0;
  let '(delete_count, failed_delete_count) := counts in
  if (failed_delete_count =? 0)%Z then mret delete_count
  else if (failed_delete_count =? 1)%Z then throw CannotDeleteKeyInUse
  else throw CannotDeleteSomeKeysInUse.

Definition remove_all_session_only_entries (st : KeyStoreImpl) (key_in_use_cb : Z → bool)
    (session_id_ : Z) : M memory HsmErr Z :=
  remove_all st (λ table_index,
    Table.remove_all_session_only_entries key_in_use_cb table_index session_id_).

Definition remove_all_entries_for_app (st : KeyStoreImpl) (key_in_use_cb : Z → bool)
    (app_id : Z) : M memory HsmErr Z :=
  remove_all st (λ table_index,
    Table.remove_all_entries_for_app key_in_use_cb table_index app_id).

Definition get_entry (st : KeyStoreImpl) (mem : memory) (entry : Z) (allow_disabled : bool) :
    outcome HsmErr PhysicalEntry :=
  table ← get_table st mem (KeyNumber_table entry);
  Table.get_entry table (KeyNumber_entry entry) allow_disabled.

Definition get_entry_attributes (st : KeyStoreImpl) (mem : memory) (entry : Z)
    (allow_disabled : bool) : outcome HsmErr EntryAttributes :=
  table ← get_table st mem (KeyNumber_table entry);
  Table.get_entry_attributes table (KeyNumber_entry entry) allow_disabled.

Definition get_entry_blob (st : KeyStoreImpl) (mem : memory) (entry : Z) :
    outcome HsmErr (list Z) :=
  table ← get_table st mem (KeyNumber_table entry);
  Table.get_entry_blob table (KeyNumber_entry entry).

(** [nuke]: every table of the mask. *)
Fixpoint nuke_loop (st : KeyStoreImpl) (indices : list nat) (mem : memory) : memory :=
  match indices with
  | [] => mem
  | i :: indices =>
      match get_table st mem (Z.of_nat i) with
      | Ok t => nuke_loop st indices (<[i := Table.nuke t]> mem)
      | _ => nuke_loop st indices mem
      end
  end.

Definition nuke (st : KeyStoreImpl) (mem : memory) : memory :=
  nuke_loop st (seq 0 MAX_TABLE_COUNT) mem.

End store.
End Store.
