(* ===== verification/KeyStoreProps.v ===== *)
(** * Correctness of the key store

    The store refines a map from key numbers to logical entries, confined to
    the tables of its mask. *)

From stdpp Require Import base list numbers option.
From S2P Require Import Prelude HsmError KeyEntry Crates KeyTable KeyTableSpec KeyTableRefine KeyTableOps KeyStore.

Lemma is_valid_table_spec st i :
  (0 ≤ i)%Z →
  Store.is_valid_table st i = bool_decide (i < Z.of_nat MAX_TABLE_COUNT)%Z && Z.testbit (mask st) i.
Proof.
  intros Hi. unfold Store.is_valid_table.
  destruct (Z.ltb_spec i (Z.of_nat MAX_TABLE_COUNT)).
  - rewrite bool_decide_true by done. simpl. rewrite Z.shiftl_1_l.
    destruct (Z.testbit (mask st) i) eqn:Hb.
    + apply negb_true_iff, Z.eqb_neq. intros Hz.
      assert (Z.testbit (Z.land (mask st) (2 ^ i)) i = true) as Ht.
      { by rewrite Z.land_spec, Hb, Z.pow2_bits_true by done. }
      by rewrite Hz, Z.bits_0 in Ht.
    + apply negb_false_iff, Z.eqb_eq, Z.bits_inj'. intros j Hj.
      rewrite Z.land_spec, Z.bits_0. destruct (decide (j = i)) as [->|].
      * by rewrite Hb.
      * rewrite Z.pow2_bits_false by done. apply andb_false_r.
  - by rewrite bool_decide_false by lia.
Qed.

Lemma is_valid_table_lt st i : Store.is_valid_table st i = true → (i < Z.of_nat MAX_TABLE_COUNT)%Z.
Proof. unfold Store.is_valid_table. intros H. apply andb_true_iff in H as [H _]. lia. Qed.

(** ** The abstract store *)

(** The entry a key number names in a store with this mask. *)
Definition key_at (st : KeyStoreImpl) (As : list LogicalTable) (n : Z) : option LogicalEntry :=
  if Store.is_valid_table st (KeyNumber_table n)
  then mjoin (As !! Z.to_nat (KeyNumber_table n) ≫= λ A, A !! Z.to_nat (KeyNumber_entry n))
  else None.

Definition set_key (As : list LogicalTable) (n : Z) (a : option LogicalEntry) :
    list LogicalTable :=
  alter (λ A, <[Z.to_nat (KeyNumber_entry n) := a]> A) (Z.to_nat (KeyNumber_table n)) As.

(** What a lookup by number answers, given the entry. *)
Definition spec_lookup (o : option LogicalEntry) (allow_disabled : bool) :
    outcome HsmErr LogicalEntry :=
  match o with
  | Some le =>
      if negb allow_disabled && ef_disabled (le_flags le) then Err InvalidKeyIndex else Ok le
  | None => Err InvalidKeyIndex
  end.

Lemma KeyNumber_parts_inj n m :
  uint_range 16 n → uint_range 16 m →
  KeyNumber_table n = KeyNumber_table m → KeyNumber_entry n = KeyNumber_entry m → n = m.
Proof.
  intros Hn Hm H1 H2.
  rewrite <- (KeyNumber_new_split n), <- (KeyNumber_new_split m) by done. by rewrite H1, H2.
Qed.

Lemma KeyNumber_entry_range n : uint_range 8 (KeyNumber_entry n).
Proof. by apply wrap_range. Qed.
Lemma KeyNumber_table_range n : uint_range 8 (KeyNumber_table n).
Proof. by apply wrap_range. Qed.
#[export] Hint Resolve KeyNumber_entry_range KeyNumber_table_range : fw.

Section store_props.
Context `{ZC : Zerocopy, ZZ : Zeroize}.
Implicit Types (st : KeyStoreImpl) (mem : memory) (As : list LogicalTable).

Record StoreRep mem As : Prop := {
  sr_length : length As = MAX_TABLE_COUNT;
  sr_tables : Forall2 Rep mem As
}.

Lemma store_table st mem As i :
  StoreRep mem As → Store.is_valid_table st i = true →
  ∃ t A, Store.get_table st mem i = Ok t ∧ mem !! Z.to_nat i = Some t ∧
    As !! Z.to_nat i = Some A ∧ Rep t A.
Proof.
  intros [Hl HF] Hv. pose proof (is_valid_table_lt _ _ Hv) as Hlt.
  destruct (lookup_lt_is_Some_2 As (Z.to_nat i)) as [A HA].
  { rewrite Hl. unfold MAX_TABLE_COUNT in *. lia. }
  destruct (Forall2_lookup_r _ _ _ _ _ HF HA) as (t & Ht & HR).
  exists t, A. unfold Store.get_table. rewrite Hv, Ht. done.
Qed.

Lemma store_invalid st mem i :
  Store.is_valid_table st i = false → Store.get_table st mem i = Err InvalidKeyIndex.
Proof. intros Hv. unfold Store.get_table. by rewrite Hv. Qed.

Lemma store_insert mem As i t A :
  StoreRep mem As → Rep t A → StoreRep (<[i := t]> mem) (<[i := A]> As).
Proof.
  intros [Hl HF] HR. split; [by rewrite length_insert|]. by apply Forall2_insert.
Qed.

Lemma set_key_insert As n A a :
  As !! Z.to_nat (KeyNumber_table n) = Some A →
  set_key As n a
    = <[Z.to_nat (KeyNumber_table n) := <[Z.to_nat (KeyNumber_entry n) := a]> A]> As.
Proof.
  intros HA. unfold set_key. apply list_eq. intros j.
  destruct (decide (Z.to_nat (KeyNumber_table n) = j)) as [<-|Hj].
  - rewrite list_lookup_alter_eq, HA. rewrite list_lookup_insert_eq; [done|].
    by eapply lookup_lt_Some.
  - by rewrite list_lookup_alter_ne, list_lookup_insert_ne by done.
Qed.

Lemma key_at_set_key st mem As n m a :
  StoreRep mem As → uint_range 16 n → uint_range 16 m →
  Store.is_valid_table st (KeyNumber_table n) = true →
  key_at st (set_key As n a) m = if decide (n = m) then a else key_at st As m.
Proof.
  intros HS Hn Hm Hv. destruct (store_table _ _ _ _ HS Hv) as (t & A & _ & _ & HA & HR).
  rewrite (set_key_insert _ _ A) by done. unfold key_at.
  pose proof (index_lt _ (KeyNumber_entry_range n)) as He. rewrite <- (rep_length _ _ HR) in He.
  destruct (decide (KeyNumber_table n = KeyNumber_table m)) as [Ht|Ht].
  - rewrite <- Ht, Hv. rewrite list_lookup_insert_eq by (by eapply lookup_lt_Some).
    rewrite HA. simpl. destruct (decide (KeyNumber_entry n = KeyNumber_entry m)) as [Hen|Hen].
    + rewrite decide_True by (by apply KeyNumber_parts_inj). rewrite <- Hen.
      rewrite list_lookup_insert_eq by done. by destruct a.
    + rewrite decide_False by (intros ->; done). rewrite list_lookup_insert_ne; [done|].
      pose proof (KeyNumber_entry_range n). pose proof (KeyNumber_entry_range m).
      unfold uint_range in *. lia.
  - rewrite decide_False by (intros ->; done). rewrite list_lookup_insert_ne; [done|].
    pose proof (KeyNumber_table_range n). pose proof (KeyNumber_table_range m).
    unfold uint_range in *. lia.
Qed.

(** ** Lookups by number *)

Lemma spec_get_key_at st mem As n allow :
  StoreRep mem As → Store.is_valid_table st (KeyNumber_table n) = true →
  ∃ t A, Store.get_table st mem (KeyNumber_table n) = Ok t ∧ Rep t A ∧
    As !! Z.to_nat (KeyNumber_table n) = Some A ∧
    spec_get A (KeyNumber_entry n) allow = spec_lookup (key_at st As n) allow.
Proof.
  intros HS Hv. destruct (store_table _ _ _ _ HS Hv) as (t & A & Hg & _ & HA & HR).
  exists t, A. split_and!; [done..|]. unfold spec_get, key_at. rewrite Hv, HA. simpl.
  destruct (rep_lookup _ _ _ HR (index_lt _ (KeyNumber_entry_range n))) as (e & a & _ & -> & _).
  by destruct a.
Qed.

Lemma key_at_invalid st As n :
  Store.is_valid_table st (KeyNumber_table n) = false → key_at st As n = None.
Proof. intros Hv. unfold key_at. by rewrite Hv. Qed.

Lemma store_get_entry_attributes_rep st mem As n allow :
  StoreRep mem As →
  Store.get_entry_attributes st mem n allow
    = le_attributes <$> spec_lookup (key_at st As n) allow.
Proof.
  intros HS. unfold Store.get_entry_attributes.
  destruct (Store.is_valid_table st (KeyNumber_table n)) eqn:Hv.
  - destruct (spec_get_key_at st mem As n allow HS Hv) as (t & A & -> & HR & _ & <-).
    cbn. apply get_entry_attributes_rep; [done|apply KeyNumber_entry_range].
  - rewrite store_invalid by done. by rewrite key_at_invalid.
Qed.

Lemma store_get_entry_blob_rep st mem As n :
  StoreRep mem As →
  Store.get_entry_blob st mem n = le_blob <$> spec_lookup (key_at st As n) true.
Proof.
  intros HS. unfold Store.get_entry_blob.
  destruct (Store.is_valid_table st (KeyNumber_table n)) eqn:Hv.
  - destruct (spec_get_key_at st mem As n true HS Hv) as (t & A & -> & HR & _ & <-).
    cbn. apply get_entry_blob_rep; [done|apply KeyNumber_entry_range].
  - rewrite store_invalid by done. by rewrite key_at_invalid.
Qed.

Lemma store_get_entry_rep st mem As n allow :
  StoreRep mem As →
  ∃ off, Store.get_entry st mem n allow
    = physical_of off <$> spec_lookup (key_at st As n) allow.
Proof.
  intros HS. unfold Store.get_entry.
  destruct (Store.is_valid_table st (KeyNumber_table n)) eqn:Hv.
  - destruct (spec_get_key_at st mem As n allow HS Hv) as (t & A & -> & HR & _ & Hs).
    cbn. destruct (rep_lookup _ _ _ HR (index_lt _ (KeyNumber_entry_range n)))
      as (e & a & He & Ha & Hrel).
    rewrite (get_entry_rep _ _ _ _ _ _ HR He Ha). unfold spec_get in *. rewrite Ha in *.
    destruct a as [le|].
    + destruct Hrel as (off & -> & _). exists off. rewrite <- Hs.
      by destruct (negb allow && _).
    + exists 0. by rewrite <- Hs.
  - exists 0. rewrite store_invalid by done. by rewrite key_at_invalid.
Qed.

(** ** Search by tag *)

Lemma has_tag_key_number st As i A e a :
  (i < MAX_TABLE_COUNT)%nat → Store.is_valid_table st (Z.of_nat i) = true →
  As !! i = Some A → uint_range 8 (Z.of_nat e) → A !! e = Some a →
  uint_range 16 (KeyNumber_new (Z.of_nat i) (Z.of_nat e)) ∧
  key_at st As (KeyNumber_new (Z.of_nat i) (Z.of_nat e)) = a.
Proof.
  intros Hi Hv HA He Ha.
  assert (uint_range 8 (Z.of_nat i)) by (unfold uint_range, MAX_TABLE_COUNT in *; lia).
  split; [by apply KeyNumber_range|]. unfold key_at.
  rewrite KeyNumber_table_new, KeyNumber_entry_new by done.
  rewrite Hv, !Nat2Z.id, HA. simpl. rewrite Ha. by destruct a.
Qed.

Lemma spec_by_tag_cases A app_id tag :
  length A = MAX_TABLE_ENTRY_COUNT → tag ≠ KEY_TAG_UNASSIGNED →
  (∃ e a, spec_by_tag A app_id tag = Ok (Z.of_nat e) ∧ A !! e = Some a ∧
     uint_range 8 (Z.of_nat e) ∧ has_tag app_id tag a) ∨
  (spec_by_tag A app_id tag = Err KeyNotFound ∧
   ∀ e a, A !! e = Some a → ¬ has_tag app_id tag a).
Proof.
  intros Hl Htag. unfold spec_by_tag. rewrite decide_False by done.
  destruct (list_find (has_tag app_id tag) A) as [[e a]|] eqn:Hf; [left|right].
  - apply list_find_Some in Hf as (He & Ht & _). exists e, a. split_and!; [done..| |done].
    apply lookup_lt_Some in He. unfold uint_range, MAX_TABLE_ENTRY_COUNT in *. lia.
  - split; [done|]. apply list_find_None in Hf. intros e a He.
    exact (Forall_lookup_1 _ _ _ _ Hf He).
Qed.

Lemma index_by_tag_loop_rep st mem As app_id tag indices :
  StoreRep mem As → tag ≠ KEY_TAG_UNASSIGNED → Forall (λ i, (i < MAX_TABLE_COUNT)%nat) indices →
  (∃ n le, Store.index_by_tag_loop st mem app_id tag indices = Ok n ∧ uint_range 16 n ∧
     key_at st As n = Some le ∧ has_tag app_id tag (Some le)) ∨
  (Store.index_by_tag_loop st mem app_id tag indices = Err KeyNotFound ∧
   ∀ i A e a, i ∈ indices → Store.is_valid_table st (Z.of_nat i) = true →
     As !! i = Some A → A !! e = Some a → ¬ has_tag app_id tag a).
Proof.
  intros HS Htag. induction 1 as [|i indices Hi HF IH].
  { right. split; [done|]. intros i A e a Hin. by apply elem_of_nil in Hin. }
  cbn [Store.index_by_tag_loop]. destruct (Store.is_valid_table st (Z.of_nat i)) eqn:Hv.
  - destruct (store_table _ _ _ _ HS Hv) as (t & A & -> & _ & HA & HR). cbn.
    rewrite Nat2Z.id in HA. rewrite (get_entry_index_by_tag_rep _ _ _ _ HR).
    destruct (spec_by_tag_cases A app_id tag (rep_length _ _ HR) Htag)
      as [(e & a & -> & Ha & He & Ht)|[-> Hnone]].
    + left. destruct (has_tag_key_number st As i A e a) as [Hr Hk]; [done..|].
      destruct a as [le|]; [|done]. by exists (KeyNumber_new (Z.of_nat i) (Z.of_nat e)), le.
    + destruct IH as [IH|[-> Hrest]]; [by left|]. right. split; [done|].
      intros j A' e a [->|Hj]%elem_of_cons Hvj HA' Ha; [|by eapply Hrest].
      simplify_eq. by eapply Hnone.
  - destruct IH as [IH|[-> Hrest]]; [by left|]. right. split; [done|].
    intros j A' e a [->|Hj]%elem_of_cons Hvj; [congruence|by eapply Hrest].
Qed.

Lemma key_at_inv st As n le :
  length As = MAX_TABLE_COUNT → key_at st As n = Some le →
  ∃ i A, i ∈ seq 0 MAX_TABLE_COUNT ∧ Z.of_nat i = KeyNumber_table n ∧
    Store.is_valid_table st (Z.of_nat i) = true ∧ As !! i = Some A ∧
    A !! Z.to_nat (KeyNumber_entry n) = Some (Some le).
Proof.
  intros Hl. unfold key_at. destruct (Store.is_valid_table _ _) eqn:Hv; [|done].
  destruct (As !! _) as [A|] eqn:HA; [|done]. cbn [mbind option_bind]. intros Hk.
  exists (Z.to_nat (KeyNumber_table n)), A. pose proof (KeyNumber_table_range n) as Hr.
  unfold uint_range in Hr. rewrite Z2Nat.id by lia. split_and!; [|done..|].
  - apply elem_of_seq. apply lookup_lt_Some in HA. lia.
  - destruct (A !! _) as [[]|]; naive_solver.
Qed.

Lemma store_index_by_tag_rep st mem As app_id tag :
  StoreRep mem As → tag ≠ KEY_TAG_UNASSIGNED →
  (∃ n le, Store.get_entry_index_by_tag st mem app_id tag = Ok n ∧ uint_range 16 n ∧
     key_at st As n = Some le ∧ has_tag app_id tag (Some le)) ∨
  (Store.get_entry_index_by_tag st mem app_id tag = Err KeyNotFound ∧
   ∀ n le, key_at st As n = Some le → ¬ has_tag app_id tag (Some le)).
Proof.
  intros HS Htag. unfold Store.get_entry_index_by_tag.
  destruct (index_by_tag_loop_rep st mem As app_id tag (seq 0 MAX_TABLE_COUNT)) as [H|[H1 H2]];
    [done..| | |].
  - apply Forall_seq. lia.
  - by left.
  - right. split; [done|]. intros n le Hk.
    destruct (key_at_inv _ _ _ _ (sr_length _ _ HS) Hk) as (i & A & Hi & _ & Hv & HA & Ha).
    by eapply H2.
Qed.

(** ** Updates by number *)

Lemma on_table_valid {B} st mem As n (op : M PhysicalTable HsmErr B) :
  StoreRep mem As → Store.is_valid_table st (KeyNumber_table n) = true →
  ∃ t A, mem !! Z.to_nat (KeyNumber_table n) = Some t ∧ Rep t A ∧
    As !! Z.to_nat (KeyNumber_table n) = Some A ∧
    spec_get A (KeyNumber_entry n) true = spec_lookup (key_at st As n) true ∧
    Store.on_table st (KeyNumber_table n) op mem
      = ((op t).1, <[Z.to_nat (KeyNumber_table n) := (op t).2]> mem).
Proof.
  intros HS Hv. destruct (spec_get_key_at st mem As n true HS Hv) as (t & A & Hg & HR & HA & Hs).
  exists t, A. pose proof Hg as Hm. unfold Store.get_table in Hm. rewrite Hv in Hm.
  destruct (mem !! _) as [t'|] eqn:Ht; [|done]. injection Hm as ->.
  split_and!; [done..|]. unfold Store.on_table. rewrite Hg. by destruct (op t).
Qed.

Lemma store_set_disabled_rep st mem As n b :
  StoreRep mem As →
  let op := Table.update_entry (KeyNumber_entry n)
              (λ e, with_flags e (set_disabled b (pe_flags e))) in
  match key_at st As n with
  | Some le => ∃ mem', Store.on_table st (KeyNumber_table n) op mem = (Ok tt, mem') ∧
      StoreRep mem' (set_key As n (Some (le_set_disabled b le)))
  | None => Store.on_table st (KeyNumber_table n) op mem = (Err InvalidKeyIndex, mem)
  end.
Proof.
  intros HS op. destruct (Store.is_valid_table st (KeyNumber_table n)) eqn:Hv.
  2:{ rewrite key_at_invalid by done. unfold Store.on_table. by rewrite store_invalid. }
  destruct (on_table_valid st mem As n op HS Hv) as (t & A & Ht & HR & HA & Hs & ->).
  pose proof (update_disabled_rep t A (KeyNumber_entry n) b HR (KeyNumber_entry_range n)) as Hu.
  rewrite Hs in Hu. fold op in Hu. unfold spec_lookup in Hu.
  destruct (key_at st As n) as [le|]; cbn [negb andb] in Hu.
  - destruct Hu as (t' & -> & HR'). eexists. split; [done|].
    rewrite (set_key_insert _ _ A) by done. by apply store_insert.
  - rewrite Hu. cbn. by rewrite list_insert_id.
Qed.

Lemma store_remove_entry_rep st mem As cb n :
  StoreRep mem As → uint_range 16 n →
  match key_at st As n with
  | Some le => ∃ mem',
      Store.remove_entry st cb n mem
        = (if cb n then Err CannotDeleteKeyInUse else Ok tt, mem') ∧
      StoreRep mem' (set_key As n (spec_remove (cb n) le))
  | None => Store.remove_entry st cb n mem = (Err InvalidKeyIndex, mem)
  end.
Proof.
  intros HS Hn. unfold Store.remove_entry.
  destruct (Store.is_valid_table st (KeyNumber_table n)) eqn:Hv.
  2:{ rewrite key_at_invalid by done. unfold Store.on_table. by rewrite store_invalid. }
  set (op := Table.remove_entry _ _ _).
  destruct (on_table_valid st mem As n op HS Hv) as (t & A & Ht & HR & HA & Hs & ->).
  pose proof (remove_entry_rep cb (KeyNumber_table n) t A (KeyNumber_entry n) HR
    (KeyNumber_entry_range n)) as Hu.
  rewrite Hs in Hu. fold op in Hu. unfold spec_lookup, in_use_at in Hu.
  rewrite KeyNumber_new_split in Hu by done.
  destruct (key_at st As n) as [le|]; cbn [negb andb] in Hu.
  - destruct Hu as (t' & -> & HR' & _). eexists. split; [done|].
    rewrite (set_key_insert _ _ A) by done. by apply store_insert.
  - rewrite Hu. cbn. by rewrite list_insert_id.
Qed.

(** ** Addition *)

Lemma store_expected_key_len attributes kind n :
  Table.expected_key_len attributes kind = Ok n →
  Store.expected_key_len attributes kind = Ok n.
Proof.
  unfold Table.expected_key_len, Store.expected_key_len.
  destruct (is_var_hmac_key kind) eqn:Hk; [|done]. intros H.
  apply outcome_bind_Ok in H as (k & _ & H). destruct (_ || _) eqn:Hb; [done|].
  injection H as <-. apply orb_false_iff in Hb as [Hb _]. apply Nat.ltb_ge in Hb.
  destruct (Nat.eqb_spec (key_length_of attributes) 0) as [H0|]; [|done].
  destruct k; simpl in Hb; lia.
Qed.

(** What the search over the tables [indices] establishes. *)
Definition add_loop_post st mem As (le : LogicalEntry) (indices : list nat) (defrag : bool)
    (r : outcome HsmErr Z) mem' : Prop :=
  let refused i A t := ∃ err, add_post t A le (Err err) t in
  match r with
  | Ok n => ∃ i A t e, i ∈ indices ∧ Store.is_valid_table st (Z.of_nat i) = true ∧
      As !! i = Some A ∧ first_free A = Some e ∧ n = KeyNumber_new (Z.of_nat i) (Z.of_nat e) ∧
      mem' = <[i := t]> mem ∧ Rep t (<[e := Some le]> A)
  | Err err => mem' = mem ∧
      (∀ i A t, i ∈ indices → Store.is_valid_table st (Z.of_nat i) = true →
         As !! i = Some A → mem !! i = Some t → refused i A t) ∧
      ((err = DefragNeeded ∧
        (defrag = true ∨ ∃ i A t, i ∈ indices ∧ Store.is_valid_table st (Z.of_nat i) = true ∧
           As !! i = Some A ∧ mem !! i = Some t ∧ add_post t A le (Err DefragNeeded) t)) ∨
       (err = NotEnoughSpace ∧ defrag = false ∧
        ∀ i A t, i ∈ indices → Store.is_valid_table st (Z.of_nat i) = true →
           As !! i = Some A → mem !! i = Some t → ¬ add_post t A le (Err DefragNeeded) t))
  | Panic => False
  end.

Lemma add_post_err_unique t A le e1 e2 :
  add_post t A le (Err e1) t → add_post t A le (Err e2) t → e1 = e2.
Proof.
  intros [_ H1] [_ H2].
  destruct H1 as [[-> H1]|[(-> & H1 & C1)|(-> & H1 & S1 & C1 & _)]],
    H2 as [[-> H2]|[(-> & H2 & C2)|(-> & H2 & S2 & C2 & _)]]; try done.
  - destruct C1 as [C1|C1]; [rewrite C1 in S2; by destruct S2|lia].
  - destruct C2 as [C2|C2]; [rewrite C2 in S1; by destruct S1|lia].
Qed.

Lemma add_loop_post_skip st mem As le i indices defrag r mem' :
  Store.is_valid_table st (Z.of_nat i) = false →
  add_loop_post st mem As le indices defrag r mem' →
  add_loop_post st mem As le (i :: indices) defrag r mem'.
Proof.
  intros Hv. destruct r as [n|err|]; simpl; [| |done].
  - intros (j & A & t & e & Hj & Hrest). exists j, A, t, e. split; [by right|done].
  - intros (-> & Href & Hdef). split; [done|]. split.
    + intros j A t [->|Hj]%elem_of_cons; [congruence|by apply Href].
    + destruct Hdef as [(-> & [Hd|Hd])|(-> & Hd & Hn)].
      * left. auto.
      * left. split; [done|]. right. destruct Hd as (j & A & t & Hj & Hrest).
        exists j, A, t. split; [by right|done].
      * right. split_and!; [done..|]. intros j A t [->|Hj]%elem_of_cons; [congruence|by apply Hn].
Qed.

Lemma add_loop_post_refused st mem As le i indices defrag r mem' t A err :
  As !! i = Some A → mem !! i = Some t → Store.is_valid_table st (Z.of_nat i) = true →
  add_post t A le (Err err) t →
  add_loop_post st mem As le indices (if bool_decide (err = DefragNeeded) then true else defrag)
    r mem' →
  add_loop_post st mem As le (i :: indices) defrag r mem'.
Proof.
  intros HA Ht Hv Hpost. destruct r as [n|err'|]; simpl; [| |done].
  - intros (j & A' & t' & e & Hj & Hrest). exists j, A', t', e. split; [by right|done].
  - intros (-> & Href & Hdef). split; [done|]. split.
    + intros j A' t' [->|Hj]%elem_of_cons; [|by apply Href].
      intros _ ? ?. simplify_eq. by exists err.
    + destruct Hdef as [(-> & [Hd|Hd])|(-> & Hd & Hn)].
      * left. split; [done|]. case_bool_decide as He; [|by left].
        subst err. right. exists i, A, t. split; [by left|done].
      * left. split; [done|]. right. destruct Hd as (j & A' & t' & Hj & Hrest).
        exists j, A', t'. split; [by right|done].
      * right. case_bool_decide as He; [done|]. split_and!; [done..|].
        intros j A' t' [->|Hj]%elem_of_cons; [|by apply Hn].
        intros _ ? ? Hp. simplify_eq. apply He. by eapply add_post_err_unique.
Qed.

Lemma add_loop_rep st mem As attributes sid kind app blob indices defrag :
  StoreRep mem As → attributes_wf attributes →
  Forall (λ i, (i < MAX_TABLE_COUNT)%nat) indices →
  let le := new_entry attributes sid kind app blob in
  ∃ r mem', Store.add_loop st attributes sid kind app blob indices defrag mem = (r, mem') ∧
    add_loop_post st mem As le indices defrag r mem'.
Proof.
  intros HS Hwf HF le. revert defrag. induction HF as [|i indices Hi HF IH]; intros defrag.
  { eexists _, _. split; [done|]. split; [done|]. split.
    - intros i A t Hin. by apply elem_of_nil in Hin.
    - destruct defrag; [left; auto|right]. split_and!; [done..|].
      intros i A t Hin. by apply elem_of_nil in Hin. }
  cbn [Store.add_loop].
  rewrite (wrap_small 8 (Z.of_nat i)) by (unfold uint_range, MAX_TABLE_COUNT in *; lia).
  destruct (Store.is_valid_table st (Z.of_nat i)) eqn:Hv.
  2:{ rewrite store_invalid by done. destruct (IH defrag) as (r & mem' & -> & Hp).
      exists r, mem'. split; [done|]. by apply add_loop_post_skip. }
  destruct (store_table _ _ _ _ HS Hv) as (t & A & Hg & Ht & HA & HR). rewrite Nat2Z.id in *.
  unfold Store.on_table. rewrite Hg.
  destruct (add_entry_rep t A attributes sid kind app blob HR Hwf) as (r & t' & -> & Hpost).
  fold le in Hpost. rewrite Nat2Z.id. destruct r as [index|err|]; [| |done].
  - eexists _, _. split; [done|]. simpl.
    destruct Hpost as (_ & e & He & -> & _ & HR' & _). exists i, A, t', e.
    split; [by left|done].
  - pose proof Hpost as [-> _]. rewrite list_insert_id by done.
    destruct (IH (if bool_decide (err = DefragNeeded) then true else defrag))
      as (r & mem' & Hrun & Hp).
    exists r, mem'. split; [done|]. by eapply add_loop_post_refused.
Qed.

(** [KeyStoreImpl::add_entry] accepts the arguments, wants a tag, and the tag
    is already taken by an enabled key of the application. *)
Definition store_args_ok (le : LogicalEntry) : Prop :=
  le_kind le ≠ EK_Free ∧
  Store.expected_key_len (le_attributes le) (le_kind le) = Ok (length (le_blob le)).
Definition tagged (le : LogicalEntry) : bool :=
  negb (af_session (ea_flags (le_attributes le)))
  && negb (bool_decide (le_session_id_or_key_tag le = KEY_TAG_UNASSIGNED)).
Definition tag_taken st As (le : LogicalEntry) : Prop :=
  ∃ n old, key_at st As n = Some old ∧
    has_tag (le_app_id le) (le_session_id_or_key_tag le) (Some old).

Definition store_add_post st mem As (le : LogicalEntry) (r : outcome HsmErr Z) mem' : Prop :=
  let free := store_args_ok le ∧ ¬ (tagged le = true ∧ tag_taken st As le) in
  match r with
  | Ok n => free ∧ uint_range 16 n ∧
      Store.is_valid_table st (KeyNumber_table n) = true ∧ key_at st As n = None ∧
      StoreRep mem' (set_key As n (Some le)) ∧
      ∀ j, j ≠ Z.to_nat (KeyNumber_table n) → mem' !! j = mem !! j
  | Err err => mem' = mem ∧
      ((err = InvalidArgument ∧ ¬ store_args_ok le) ∨
       (err = KeyTagAlreadyExists ∧ store_args_ok le ∧ tagged le = true ∧ tag_taken st As le) ∨
       (free ∧ add_loop_post st mem As le (seq 0 MAX_TABLE_COUNT) false (Err err) mem))
  | Panic => False
  end.

Lemma store_expected_key_len_cases attributes kind :
  (∃ n, Store.expected_key_len attributes kind = Ok n) ∨
  Store.expected_key_len attributes kind = Err InvalidArgument.
Proof.
  unfold Store.expected_key_len. destruct (is_var_hmac_key kind) eqn:Hk.
  - destruct (_ =? 0); eauto.
  - left. by apply raw_key_blob_size_fixed.
Qed.

Lemma tag_check_rep st mem As le :
  StoreRep mem As →
  let found := is_ok (Store.get_entry_index_by_tag st mem (le_app_id le)
                        (le_session_id_or_key_tag le)) in
  tagged le && found = true ↔ tagged le = true ∧ tag_taken st As le.
Proof.
  intros HS found. rewrite andb_true_iff. unfold found.
  assert (tagged le = true → le_session_id_or_key_tag le ≠ KEY_TAG_UNASSIGNED) as Ht.
  { unfold tagged. case_bool_decide; [by rewrite andb_false_r|done]. }
  split; intros [H1 H2]; (split; [done|]); specialize (Ht H1);
    destruct (store_index_by_tag_rep st mem As (le_app_id le) _ HS Ht)
      as [(n & old & Hf & _ & Hk & Htag)|[Hf Hnone]]; rewrite ?Hf in *; try done.
  - by exists n, old.
  - destruct H2 as (n & old & Hk & Htag). exfalso. by eapply Hnone.
Qed.

Lemma first_free_None A e : first_free A = Some e → A !! e = Some None.
Proof.
  unfold first_free. destruct (list_find _ A) as [[j a]|] eqn:Hj; [|done].
  simpl. intros [= ->]. by apply list_find_Some in Hj as (Hj & -> & _).
Qed.

Lemma store_add_entry_rep st mem As attributes sid kind app blob :
  StoreRep mem As → attributes_wf attributes →
  ∃ r mem', Store.add_entry st attributes sid kind app blob mem = (r, mem') ∧
    store_add_post st mem As (new_entry attributes sid kind app blob) r mem'.
Proof.
  intros HS Hwf. set (le := new_entry attributes sid kind app blob).
  pose proof (tag_check_rep st mem As le HS) as Htag. cbv zeta in Htag.
  unfold Store.add_entry, unless, throw, lift, get, mbind, mret, M_bind, M_ret.
  case_bool_decide as Hk; cbn [negb].
  { eexists _, _. split; [done|]. split; [done|]. left. split; [done|]. by intros [? _]. }
  destruct (store_expected_key_len_cases attributes kind) as [[n Hn]|Hn]; rewrite Hn.
  2:{ eexists _, _. split; [done|]. split; [done|]. left. split; [done|].
      intros [_ He]. simpl in He. congruence. }
  destruct (Nat.eqb_spec (length blob) n) as [<-|Hne].
  2:{ eexists _, _. split; [done|]. split; [done|]. left. split; [done|].
      intros [_ He]. simpl in He. congruence. }
  assert (store_args_ok le) as Hargs by done.
  change (negb (af_session (ea_flags attributes)) && negb (bool_decide (sid = KEY_TAG_UNASSIGNED)))
    with (tagged le). destruct (tagged le && _) eqn:Hfound; cbn [negb].
  { eexists _, _. split; [done|]. split; [done|]. right. left. by destruct (proj1 Htag eq_refl). }
  assert (¬ (tagged le = true ∧ tag_taken st As le)) as Hfree.
  { intros H. by apply Htag in H. }
  destruct (add_loop_rep st mem As attributes sid kind app blob (seq 0 MAX_TABLE_COUNT) false
    HS Hwf) as (r & mem' & Hrun & Hpost); [apply Forall_seq; lia|].
  exists r, mem'. split; [done|]. fold le in Hpost. destruct r as [m|err|]; [| |done].
  2:{ pose proof Hpost as [-> _]. split; [done|]. by right; right. }
  destruct Hpost as (i & A & t & e & Hi & Hv & HA & He & -> & -> & HR).
  apply elem_of_seq in Hi. pose proof (first_free_None _ _ He) as HAe.
  assert (uint_range 8 (Z.of_nat e)) as He8.
  { apply lookup_lt_Some in HAe. pose proof (rep_length _ _ HR) as Hl.
    rewrite length_insert in Hl. unfold uint_range, MAX_TABLE_ENTRY_COUNT in *. lia. }
  assert (uint_range 8 (Z.of_nat i)) as Hi8 by (unfold uint_range, MAX_TABLE_COUNT in *; lia).
  destruct (has_tag_key_number st As i A e None) as [Hn16 Hkey]; [lia|done..|].
  split; [exact (conj Hargs Hfree)|]. split; [done|]. split; [|split; [done|split]].
  - by rewrite KeyNumber_table_new.
  - rewrite (set_key_insert _ _ A); rewrite KeyNumber_table_new, Nat2Z.id by done; [|done].
    rewrite KeyNumber_entry_new, Nat2Z.id by done. by apply store_insert.
  - intros j. rewrite KeyNumber_table_new, Nat2Z.id by done. intros Hj.
    by apply list_lookup_insert_ne.
Qed.

(** ** Bulk removal *)

Section store_bulk.
Variables (st : KeyStoreImpl) (matching : PhysicalEntry → bool) (sel : LogicalEntry → bool).
Variable cb : Z → bool.
Hypothesis Hsel : ∀ off le, matching (physical_of off le) = sel le.

#[local] Abbreviation bulk_op :=
  (λ table_index, Table.remove_matching matching cb table_index).

Definition table_result (k : nat) (A : LogicalTable) : outcome HsmErr Z :=
  remove_all_result (count_from (deleted_at sel cb (Z.of_nat k)) 0 A)
    (count_from (refused_at sel cb (Z.of_nat k)) 0 A).

(** What one table adds to the store's two counts. *)
Definition table_deleted (k : nat) (A : LogicalTable) : Z :=
  match table_result k A with Ok n => n | _ => 0%Z end.
Definition table_failed (k : nat) (A : LogicalTable) : Z :=
  match table_result k A with
  | Ok _ => 0%Z
  | Err e => if bool_decide (e = CannotDeleteKeyInUse) then 1%Z else 2%Z
  | Panic => 0%Z
  end.

Fixpoint tables_from (k : nat) (As : list LogicalTable) : list LogicalTable :=
  match As with
  | [] => []
  | A :: As =>
      (if Store.is_valid_table st (Z.of_nat k) then remove_from sel cb (Z.of_nat k) 0 A else A)
        :: tables_from (S k) As
  end.

Fixpoint tables_sum (f : nat → LogicalTable → Z) (k : nat) (As : list LogicalTable) : Z :=
  match As with
  | [] => 0
  | A :: As =>
      (if Store.is_valid_table st (Z.of_nat k) then f k A else 0) + tables_sum f (S k) As
  end.

Lemma lookup_tables_from k As i :
  tables_from k As !! i =
    (λ A, if Store.is_valid_table st (Z.of_nat (k + i))
          then remove_from sel cb (Z.of_nat (k + i)) 0 A else A) <$> As !! i.
Proof.
  revert k i. induction As as [|A As IH]; intros k [|i]; simpl; try done.
  - by rewrite Nat.add_0_r.
  - rewrite IH. by replace (S k + i) with (k + S i) by lia.
Qed.

Lemma table_result_cases k A :
  (∃ n, table_result k A = Ok n ∧ uint_range 8 n) ∨ table_result k A = Err CannotDeleteKeyInUse ∨
  table_result k A = Err CannotDeleteSomeKeysInUse.
Proof.
  unfold table_result, remove_all_result. destruct (_ =? 0)%Z.
  - left. eexists. split; [done|]. by apply wrap_range.
  - right. destruct (_ =? 1)%Z; auto.
Qed.

Lemma table_failed_bounds k A : (0 ≤ table_failed k A ≤ 2)%Z.
Proof.
  unfold table_failed. destruct (table_result_cases k A) as [(n & -> & _)|[-> | ->]];
    try case_bool_decide; lia.
Qed.

Lemma tables_failed_bounds k As : (0 ≤ tables_sum table_failed k As ≤ 2 * Z.of_nat (length As))%Z.
Proof.
  revert k. induction As as [|A As IH]; intros k; cbn [tables_sum length]; [lia|].
  specialize (IH (S k)). pose proof (table_failed_bounds k A).
  destruct (Store.is_valid_table _ _); lia.
Qed.

Lemma remove_all_loop_rep As1 : ∀ As0 mem d f,
  StoreRep mem (As0 ++ As1) → length As0 + length As1 ≤ MAX_TABLE_COUNT →
  uint_range 16 d → (0 ≤ f)%Z → (f + 2 * Z.of_nat (length As1) < 2 ^ 16)%Z →
  ∃ mem', Store.remove_all_loop st bulk_op (seq (length As0) (length As1)) d f mem
    = (Ok (wrap 16 (d + tables_sum table_deleted (length As0) As1),
           (f + tables_sum table_failed (length As0) As1)%Z), mem') ∧
    StoreRep mem' (As0 ++ tables_from (length As0) As1) ∧
    ∀ j, Store.is_valid_table st (Z.of_nat j) = false → mem' !! j = mem !! j.
Proof using Hsel.
  induction As1 as [|A As1 IH]; intros As0 mem d f HS Hlen Hd Hf Hmax.
  { exists mem. simpl in *. rewrite !Z.add_0_r, wrap_small by done. by rewrite app_nil_r in *. }
  cbn [length seq Store.remove_all_loop tables_sum tables_from]. set (k := length As0) in *.
  assert (∀ A2 mem2 d2 f2, StoreRep mem2 (As0 ++ A2 :: As1) → uint_range 16 d2 → (0 ≤ f2)%Z →
    (f2 + 2 * Z.of_nat (length As1) < 2 ^ 16)%Z →
    ∃ mem', Store.remove_all_loop st bulk_op (seq (S k) (length As1)) d2 f2 mem2
      = (Ok (wrap 16 (d2 + tables_sum table_deleted (S k) As1),
             (f2 + tables_sum table_failed (S k) As1)%Z), mem') ∧
      StoreRep mem' (As0 ++ A2 :: tables_from (S k) As1) ∧
      ∀ j, Store.is_valid_table st (Z.of_nat j) = false → mem' !! j = mem2 !! j) as Hnext.
  { intros A2 mem2 d2 f2 HS2 Hd2 Hf2 Hm2. specialize (IH (As0 ++ [A2]) mem2 d2 f2).
    rewrite length_app, <- !app_assoc in IH. simpl in IH. rewrite Nat.add_1_r in IH.
    apply IH; try done. simpl in Hlen. fold k. lia. }
  simpl in Hmax. destruct (Store.is_valid_table st (Z.of_nat k)) eqn:Hv; cbn [negb].
  2:{ destruct (Hnext A mem d f HS Hd Hf ltac:(lia)) as (mem' & Hrun & HS' & Hsame).
      exists mem'. rewrite Hrun. done. }
  destruct (store_table _ _ _ _ HS Hv) as (t & A' & Hg & Ht & HA & HR). rewrite Nat2Z.id in *.
  rewrite list_lookup_middle in HA by done. injection HA as <-.
  unfold Store.on_table at 1. rewrite Hg.
  destruct (remove_matching_rep matching sel cb (Z.of_nat k) Hsel t A HR) as (t' & -> & HR').
  rewrite Nat2Z.id. fold (table_result k A).
  assert (StoreRep (<[k := t']> mem) (As0 ++ remove_from sel cb (Z.of_nat k) 0 A :: As1)) as HS2.
  { pose proof (store_insert _ _ k _ _ HS HR') as H. rewrite insert_app_r_alt in H by lia.
    by rewrite Nat.sub_diag in H. }
  assert (∀ j, Store.is_valid_table st (Z.of_nat j) = false →
    <[k := t']> mem !! j = mem !! j) as Hins.
  { intros j Hj. apply list_lookup_insert_ne. intros ->. congruence. }
  assert (∀ d2 f2, uint_range 16 d2 → (0 ≤ f2 ≤ f + 2)%Z →
    wrap 16 (d2 + tables_sum table_deleted (S k) As1)
      = wrap 16 (d + (table_deleted k A + tables_sum table_deleted (S k) As1)) →
    f2 = (f + table_failed k A)%Z →
    ∃ mem', Store.remove_all_loop st bulk_op (seq (S k) (length As1)) d2 f2 (<[k := t']> mem)
      = (Ok (wrap 16 (d + (table_deleted k A + tables_sum table_deleted (S k) As1)),
             (f + (table_failed k A + tables_sum table_failed (S k) As1))%Z), mem') ∧
      StoreRep mem' (As0 ++ remove_from sel cb (Z.of_nat k) 0 A :: tables_from (S k) As1) ∧
      ∀ j, Store.is_valid_table st (Z.of_nat j) = false → mem' !! j = mem !! j) as Hfin.
  { intros d2 f2 Hd2 Hf2 Hd3 ->. destruct (Hnext _ _ d2 _ HS2 Hd2 (proj1 Hf2) ltac:(lia))
      as (mem' & -> & HS' & Hsame).
    exists mem'. split_and!; [|done|].
    - rewrite Hd3. by rewrite <- Z.add_assoc.
    - intros j Hj. by rewrite Hsame, Hins. }
  unfold table_deleted, table_failed in Hfin. unfold table_deleted, table_failed.
  destruct (table_result_cases k A) as [(n & Hres & Hn)|[Hres|Hres]]; rewrite Hres in *.
  - apply Hfin; [by apply wrap_range|lia| |lia]. unfold wrap.
    rewrite Zplus_mod_idemp_l. f_equal. lia.
  - rewrite bool_decide_true in * by done. rewrite wrap_small by (unfold uint_range; lia).
    apply Hfin; [done|lia|f_equal; lia|lia].
  - rewrite bool_decide_false in * by done. rewrite wrap_small by (unfold uint_range; lia).
    apply Hfin; [done|lia|f_equal; lia|lia].
Qed.

Definition store_result (As : list LogicalTable) : outcome HsmErr Z :=
  let failed := tables_sum table_failed 0 As in
  if (failed =? 0)%Z then Ok (wrap 16 (tables_sum table_deleted 0 As))
  else if (failed =? 1)%Z then Err CannotDeleteKeyInUse
  else Err CannotDeleteSomeKeysInUse.

Lemma store_remove_all_rep mem As :
  StoreRep mem As →
  ∃ mem', Store.remove_all st bulk_op mem = (store_result As, mem') ∧
    StoreRep mem' (tables_from 0 As) ∧
    ∀ j, Store.is_valid_table st (Z.of_nat j) = false → mem' !! j = mem !! j.
Proof using Hsel.
  intros HS. pose proof (sr_length _ _ HS) as Hl.
  destruct (remove_all_loop_rep As [] mem 0 0) as (mem' & Hrun & HS' & Hsame);
    [done|simpl; lia|done|done|unfold MAX_TABLE_COUNT in Hl; lia|].
  exists mem'. split_and!; [|done..]. unfold Store.remove_all, mbind, M_bind.
  rewrite <- Hl. cbn [length] in Hrun. rewrite Hrun, !Z.add_0_l. unfold store_result.
  destruct (_ =? 0)%Z; [done|]. by destruct (_ =? 1)%Z.
Qed.

(** A key after the bulk removal. *)
Lemma key_at_tables_from mem As n :
  StoreRep mem As → uint_range 16 n →
  key_at st (tables_from 0 As) n =
    match key_at st As n with
    | Some le => if sel le then spec_remove (cb n) le else Some le
    | None => None
    end.
Proof.
  intros HS Hn. unfold key_at.
  destruct (Store.is_valid_table st (KeyNumber_table n)) eqn:Hv; [|done].
  rewrite lookup_tables_from. cbn [Nat.add].
  pose proof (KeyNumber_table_range n) as Ht. pose proof (KeyNumber_entry_range n) as He.
  unfold uint_range in Ht, He. rewrite Z2Nat.id by lia.
  destruct (As !! _) as [A|]; [|done]. cbn. rewrite Hv, lookup_remove_from.
  destruct (A !! _) as [[le|]|]; [|done..]. cbn. unfold in_use_at.
  rewrite Z2Nat.id, KeyNumber_new_split by (done || lia).
  by destruct (sel le), (spec_remove (cb n) le).
Qed.

(** With no selected key in use every table answers [Ok]. *)
Lemma tables_failed_zero As k :
  (∀ i A e le, As !! i = Some A → A !! e = Some (Some le) →
     Store.is_valid_table st (Z.of_nat (k + i)) = true → sel le = true →
     in_use_at cb (Z.of_nat (k + i)) (Z.of_nat e) = false) →
  tables_sum table_failed k As = 0%Z.
Proof.
  revert k. induction As as [|A As IH]; intros k Hno; [done|]. cbn [tables_sum].
  rewrite IH.
  2:{ intros i A' e le HA' Ha Hv Hs. specialize (Hno (S i) A' e le HA' Ha).
      rewrite Nat.add_succ_r in Hno. by apply Hno. }
  destruct (Store.is_valid_table st (Z.of_nat k)) eqn:Hv; [|done].
  assert (∀ j B, (∀ e le, B !! e = Some (Some le) → sel le = true →
    in_use_at cb (Z.of_nat k) (Z.of_nat (j + e)) = false) →
    count_from (refused_at sel cb (Z.of_nat k)) j B = 0) as Hcount.
  { intros j B. revert j. induction B as [|b B IHB]; intros j HB; [done|]. cbn [count_from].
    rewrite IHB by (intros e le He; specialize (HB (S e) le He); by rewrite Nat.add_succ_r in HB).
    specialize (HB 0). rewrite Nat.add_0_r in HB. destruct b as [le|]; [|done]. cbn.
    specialize (HB le eq_refl). destruct (sel le); [|done]. by rewrite HB. }
  unfold table_failed, table_result. rewrite Hcount; [done|].
  intros e le He Hs. specialize (Hno 0 A e le eq_refl He). rewrite Nat.add_0_r in Hno.
  by apply Hno.
Qed.

Lemma store_result_ok mem As :
  StoreRep mem As →
  (∀ n le, uint_range 16 n → key_at st As n = Some le → sel le = true → cb n = false) →
  store_result As = Ok (wrap 16 (tables_sum table_deleted 0 As)).
Proof.
  intros HS Hno. unfold store_result. rewrite tables_failed_zero; [done|].
  intros i A e le HA Ha Hv Hs. cbn [Nat.add] in *. pose proof (lookup_lt_Some _ _ _ HA) as Hi.
  rewrite (sr_length _ _ HS) in Hi.
  destruct (Forall2_lookup_r _ _ _ _ _ (sr_tables _ _ HS) HA) as (t & _ & HR).
  pose proof (lookup_lt_Some _ _ _ Ha) as He. rewrite (rep_length _ _ HR) in He.
  destruct (has_tag_key_number st As i A e (Some le)) as [Hr Hk]; [done..| |done|].
  { unfold uint_range, MAX_TABLE_ENTRY_COUNT in *. lia. }
  unfold in_use_at. by eapply Hno.
Qed.

End store_bulk.

(** ** Nuke *)

Lemma nuke_loop_rep st mem As indices :
  StoreRep mem As →
  ∃ As', StoreRep (Store.nuke_loop st indices mem) As' ∧
    (∀ j, ¬ (j ∈ indices ∧ Store.is_valid_table st (Z.of_nat j) = true) →
       Store.nuke_loop st indices mem !! j = mem !! j ∧ As' !! j = As !! j) ∧
    (∀ j, j ∈ indices → Store.is_valid_table st (Z.of_nat j) = true →
       As' !! j = Some empty_table).
Proof.
  revert mem As. induction indices as [|i indices IH]; intros mem As HS.
  { exists As. split_and!; [done..|]. intros j Hj. by apply elem_of_nil in Hj. }
  cbn [Store.nuke_loop]. destruct (Store.is_valid_table st (Z.of_nat i)) eqn:Hv.
  - destruct (store_table _ _ _ _ HS Hv) as (t & A & -> & Ht & HA & HR). rewrite Nat2Z.id in *.
    rewrite (nuke_zeroed t A HR).
    pose proof (store_insert _ _ i _ _ HS rep_zeroed) as HS1.
    destruct (IH _ _ HS1) as (As' & HS' & Hout & Hin). exists As'. split_and!; [done|..].
    + intros j Hj. assert (j ≠ i) as Hji by (intros ->; apply Hj; split; [by left|done]).
      destruct (Hout j) as [H1 H2]; [intros [? ?]; apply Hj; split; [by right|done]|].
      by rewrite H1, H2, !list_lookup_insert_ne by done.
    + intros j Hj Hvj. destruct (decide (j ∈ indices)) as [|Hn]; [by apply Hin|].
      apply elem_of_cons in Hj as [->|]; [|done].
      destruct (Hout i) as [_ ->]; [by intros [? _]|].
      apply list_lookup_insert_eq. by eapply lookup_lt_Some.
  - rewrite store_invalid by done. destruct (IH _ _ HS) as (As' & HS' & Hout & Hin).
    exists As'. split_and!; [done|..].
    + intros j Hj. apply Hout. intros [? ?]. apply Hj. split; [by right|done].
    + intros j [->|Hj]%elem_of_cons Hvj; [congruence|by apply Hin].
Qed.

Lemma store_nuke_rep st mem As :
  StoreRep mem As →
  ∃ As', StoreRep (Store.nuke st mem) As' ∧ (∀ n, key_at st As' n = None) ∧
    ∀ j, Store.is_valid_table st (Z.of_nat j) = false → Store.nuke st mem !! j = mem !! j.
Proof.
  intros HS. destruct (nuke_loop_rep st mem As (seq 0 MAX_TABLE_COUNT) HS)
    as (As' & HS' & Hout & Hin). exists As'. split_and!; [done|..].
  - intros n. destruct (key_at st As' n) as [le|] eqn:Hk; [|done].
    destruct (key_at_inv _ _ _ _ (sr_length _ _ HS') Hk) as (i & A & Hi & _ & Hv & HA & Ha).
    rewrite (Hin i Hi Hv) in HA. injection HA as <-.
    apply lookup_replicate in Ha as [? _]. done.
  - intros j Hj. apply Hout. intros [_ ?]. congruence.
Qed.

End store_props.
