(* ===== verification/StoreInterface.v ===== *)
(** * What the key store promises the vault

    [KeyStoreI] lists the operations the vault calls; [KeyStoreSpec] states
    their behaviour on the finite map from key numbers to logical entries the
    state represents.  The store of key_store.rs is an instance: the vault's
    theorems are proved against the interface alone. *)

From stdpp Require Import base list numbers option gmap.
From S2P Require Import Prelude HsmError KeyEntry Crates KeyTable KeyTableSpec KeyTableRefine KeyTableOps KeyStore KeyStoreProps.

Abbreviation KeyMap := (gmap Z LogicalEntry).

Class KeyStoreI (S : Type) := {
  ks_add_entry : EntryAttributes → Z → EntryKind → Z → list Z → M S HsmErr Z;
  ks_enable_entry : Z → M S HsmErr ();
  ks_disable_entry : Z → M S HsmErr ();
  ks_remove_entry : (Z → bool) → Z → M S HsmErr ();
  ks_remove_all_session_only_entries : (Z → bool) → Z → M S HsmErr Z;
  ks_remove_all_entries_for_app : (Z → bool) → Z → M S HsmErr Z;
  ks_get_entry_index_by_tag : S → Z → Z → outcome HsmErr Z;
  ks_get_entry : S → Z → bool → outcome HsmErr PhysicalEntry;
  ks_get_entry_attributes : S → Z → bool → outcome HsmErr EntryAttributes;
  ks_get_entry_blob : S → Z → outcome HsmErr (list Z);
  ks_nuke : S → S
}.

(** An enabled key of the application carries the tag. *)
Definition tag_in (K : KeyMap) (app_id tag : Z) : Prop :=
  ∃ n le, K !! n = Some le ∧ has_tag app_id tag (Some le).

(** The keys a bulk removal keeps: the unselected ones, and, disabled, the
    selected ones in use. *)
Definition bulk_remove (sel : LogicalEntry → bool) (cb : Z → bool) (K : KeyMap) : KeyMap :=
  map_imap (λ n le, if sel le then spec_remove (cb n) le else Some le) K.

Definition session_sel (sid : Z) (le : LogicalEntry) : bool :=
  ef_session (le_flags le) && bool_decide (le_session_id_or_key_tag le = sid).
Definition app_sel (app_id : Z) (le : LogicalEntry) : bool :=
  bool_decide (le_app_id le = app_id).

(** The outcome of an addition. *)
Definition add_law {S} (rep : S → KeyMap → Prop) (K : KeyMap) (le : LogicalEntry)
    (r : outcome HsmErr Z) (s s' : S) : Prop :=
  let tag := le_session_id_or_key_tag le in
  match r with
  | Ok n => uint_range 16 n ∧ K !! n = None ∧ rep s' (<[n := le]> K) ∧ store_args_ok le ∧
      (tagged le = true → ¬ tag_in K (le_app_id le) tag)
  | Err err => s' = s ∧
      ((err = InvalidArgument ∧ ¬ store_args_ok le) ∨
       (err = KeyTagAlreadyExists ∧ store_args_ok le ∧ tagged le = true ∧
        tag_in K (le_app_id le) tag) ∨
       ((err = DefragNeeded ∨ err = NotEnoughSpace) ∧ store_args_ok le ∧
        ¬ (tagged le = true ∧ tag_in K (le_app_id le) tag)))
  | Panic => False
  end.

Class KeyStoreSpec (S : Type) `{I : KeyStoreI S} := {
  ks_rep : S → KeyMap → Prop;
  ks_wf s K n le : ks_rep s K → K !! n = Some le → uint_range 16 n ∧ le_wf le;
  ks_get_entry_law s K n allow :
    ks_rep s K → uint_range 16 n →
    ∃ off, ks_get_entry s n allow = physical_of off <$> spec_lookup (K !! n) allow;
  ks_get_entry_attributes_law s K n allow :
    ks_rep s K → uint_range 16 n →
    ks_get_entry_attributes s n allow = le_attributes <$> spec_lookup (K !! n) allow;
  ks_get_entry_blob_law s K n :
    ks_rep s K → uint_range 16 n →
    ks_get_entry_blob s n = le_blob <$> spec_lookup (K !! n) true;
  ks_get_entry_index_by_tag_law s K app_id tag :
    ks_rep s K → tag ≠ KEY_TAG_UNASSIGNED →
    (∃ n le, ks_get_entry_index_by_tag s app_id tag = Ok n ∧ K !! n = Some le ∧
       has_tag app_id tag (Some le)) ∨
    (ks_get_entry_index_by_tag s app_id tag = Err KeyNotFound ∧ ¬ tag_in K app_id tag);
  ks_add_entry_law s K attributes sid kind app blob :
    ks_rep s K → attributes_wf attributes →
    ∃ r s', ks_add_entry attributes sid kind app blob s = (r, s') ∧
      add_law ks_rep K (new_entry attributes sid kind app blob) r s s';
  ks_enable_entry_law s K n :
    ks_rep s K → uint_range 16 n →
    match K !! n with
    | Some le => ∃ s', ks_enable_entry n s = (Ok tt, s') ∧
        ks_rep s' (<[n := le_set_disabled false le]> K)
    | None => ks_enable_entry n s = (Err InvalidKeyIndex, s)
    end;
  ks_disable_entry_law s K n :
    ks_rep s K → uint_range 16 n →
    match K !! n with
    | Some le => ∃ s', ks_disable_entry n s = (Ok tt, s') ∧
        ks_rep s' (<[n := le_set_disabled true le]> K)
    | None => ks_disable_entry n s = (Err InvalidKeyIndex, s)
    end;
  ks_remove_entry_law s K cb n :
    ks_rep s K → uint_range 16 n →
    match K !! n with
    | Some le => ∃ s',
        ks_remove_entry cb n s = (if cb n then Err CannotDeleteKeyInUse else Ok tt, s') ∧
        ks_rep s' (if cb n then <[n := le_set_disabled true le]> K else delete n K)
    | None => ks_remove_entry cb n s = (Err InvalidKeyIndex, s)
    end;
  ks_remove_session_law s K cb sid :
    ks_rep s K →
    ∃ r s', ks_remove_all_session_only_entries cb sid s = (r, s') ∧ r ≠ Panic ∧
      ks_rep s' (bulk_remove (session_sel sid) cb K) ∧
      ((∀ n le, K !! n = Some le → session_sel sid le = true → cb n = false) → is_ok r = true);
  ks_remove_app_law s K cb app :
    ks_rep s K →
    ∃ r s', ks_remove_all_entries_for_app cb app s = (r, s') ∧ r ≠ Panic ∧
      ks_rep s' (bulk_remove (app_sel app) cb K) ∧
      ((∀ n le, K !! n = Some le → app_sel app le = true → cb n = false) → is_ok r = true);
  ks_nuke_law s K : ks_rep s K → ks_rep (ks_nuke s) ∅
}.

(** ** The instance of key_store.rs *)

Section instance.
Context `{ZC : Zerocopy, ZZ : Zeroize}.
Variable st : KeyStoreImpl.

#[global] Instance key_store_ops : KeyStoreI memory := {|
  ks_add_entry := Store.add_entry st;
  ks_enable_entry := Store.enable_entry st;
  ks_disable_entry := Store.disable_entry st;
  ks_remove_entry := Store.remove_entry st;
  ks_remove_all_session_only_entries := Store.remove_all_session_only_entries st;
  ks_remove_all_entries_for_app := Store.remove_all_entries_for_app st;
  ks_get_entry_index_by_tag := Store.get_entry_index_by_tag st;
  ks_get_entry := Store.get_entry st;
  ks_get_entry_attributes := Store.get_entry_attributes st;
  ks_get_entry_blob := Store.get_entry_blob st;
  ks_nuke := Store.nuke st
|}.

(** The memory represents exactly the keys the store can reach. *)
Definition store_keys (mem : memory) (K : KeyMap) : Prop :=
  ∃ As, StoreRep mem As ∧ (∀ n, uint_range 16 n → K !! n = key_at st As n) ∧
    ∀ n, ¬ uint_range 16 n → K !! n = None.

Lemma store_keys_range mem K n le :
  store_keys mem K → K !! n = Some le → uint_range 16 n.
Proof.
  intros (As & _ & _ & Hout) Hk. destruct (decide (uint_range 16 n)) as [|Hn]; [done|].
  by rewrite Hout in Hk.
Qed.

Lemma store_keys_set mem mem' As K n a :
  StoreRep mem As → (∀ n, uint_range 16 n → K !! n = key_at st As n) →
  (∀ n, ¬ uint_range 16 n → K !! n = None) →
  uint_range 16 n → Store.is_valid_table st (KeyNumber_table n) = true →
  StoreRep mem' (set_key As n a) →
  store_keys mem' (partial_alter (λ _, a) n K).
Proof.
  intros HS HK Hout Hn Hv HS'. exists (set_key As n a). split_and!; [done|..].
  - intros m Hm. rewrite (key_at_set_key st mem) by done. case_decide as Hnm.
    + subst m. by rewrite lookup_partial_alter_eq.
    + by rewrite lookup_partial_alter_ne, HK by done.
  - intros m Hm. rewrite lookup_partial_alter_ne; [by apply Hout|]. by intros ->.
Qed.

Lemma key_at_valid As n le :
  key_at st As n = Some le → Store.is_valid_table st (KeyNumber_table n) = true.
Proof. unfold key_at. by destruct (Store.is_valid_table _ _). Qed.

Lemma store_tag_in mem As K le :
  StoreRep mem As → (∀ n, uint_range 16 n → K !! n = key_at st As n) →
  (∀ n, ¬ uint_range 16 n → K !! n = None) →
  tag_taken st As le ↔ tag_in K (le_app_id le) (le_session_id_or_key_tag le).
Proof.
  intros HS HK Hout. split.
  - intros (n & old & Hk & Ht).
    destruct (key_at_inv _ _ _ _ (sr_length _ _ HS) Hk) as (i & A & Hi & Hin & Hv & HA & Ha).
    apply elem_of_seq in Hi.
    set (m := KeyNumber_new (KeyNumber_table n) (KeyNumber_entry n)).
    assert (uint_range 16 m) as Hm by (apply KeyNumber_range; apply wrap_range; done).
    exists m, old. split; [|done]. rewrite HK by done.
    unfold key_at, m. rewrite KeyNumber_table_new, KeyNumber_entry_new by (by apply wrap_range).
    exact Hk.
  - intros (n & old & Hk & Ht). exists n, old. split; [|done].
    destruct (decide (uint_range 16 n)) as [Hn|Hn]; [by rewrite <- HK|].
    by rewrite Hout in Hk.
Qed.

Lemma store_keys_wf mem K n le :
  store_keys mem K → K !! n = Some le → uint_range 16 n ∧ le_wf le.
Proof.
  intros HK Hk. pose proof (store_keys_range _ _ _ _ HK Hk) as Hn. split; [done|].
  destruct HK as (As & HS & HK & _). rewrite HK in Hk by done.
  destruct (key_at_inv _ _ _ _ (sr_length _ _ HS) Hk) as (i & A & _ & _ & _ & HA & Ha).
  destruct (Forall2_lookup_r _ _ _ _ _ (sr_tables _ _ HS) HA) as (t & _ & HR).
  destruct (Forall2_lookup_r _ _ _ _ _ (rep_entries _ _ HR) Ha) as (e & _ & off & _ & Hwf & _).
  done.
Qed.

Lemma store_add_law mem K attributes sid kind app blob :
  store_keys mem K → attributes_wf attributes →
  ∃ r mem', Store.add_entry st attributes sid kind app blob mem = (r, mem') ∧
    add_law store_keys K (new_entry attributes sid kind app blob) r mem mem'.
Proof.
  intros (As & HS & HK & Hout) Hwf.
  destruct (store_add_entry_rep st mem As attributes sid kind app blob HS Hwf)
    as (r & mem' & Hadd & Hpost). exists r, mem'. split; [done|].
  set (le := new_entry _ _ _ _ _) in *. pose proof (store_tag_in _ _ _ le HS HK Hout) as Htag.
  destruct r as [n|err|]; [| |done].
  - destruct Hpost as ((Hargs & Hfree) & Hn & Hv & Hnone & HS' & _).
    split; [done|]. split; [by rewrite HK|]. split; [|split; [exact Hargs|]].
    + by eapply (store_keys_set mem mem' As K n (Some le)).
    + intros H1 H2. apply Hfree. split; [done|]. by apply Htag.
  - destruct Hpost as [-> [[-> Hn]|[(-> & Ha & Ht & Hin)|[[Ha Hfree] Hloop]]]]; (split; [done|]).
    + by left.
    + right. left. rewrite <- Htag. done.
    + right. right. rewrite <- Htag. split; [|done].
      destruct Hloop as (_ & _ & [[-> _]|[-> _]]); auto.
Qed.

Lemma store_set_disabled_law mem K n b op :
  op = Table.update_entry (KeyNumber_entry n) (λ e, with_flags e (set_disabled b (pe_flags e))) →
  store_keys mem K → uint_range 16 n →
  match K !! n with
  | Some le => ∃ mem', Store.on_table st (KeyNumber_table n) op mem = (Ok tt, mem') ∧
      store_keys mem' (<[n := le_set_disabled b le]> K)
  | None => Store.on_table st (KeyNumber_table n) op mem = (Err InvalidKeyIndex, mem)
  end.
Proof.
  intros -> (As & HS & HK & Hout) Hn.
  pose proof (store_set_disabled_rep st mem As n b HS) as Hr. cbv zeta in Hr.
  rewrite HK by done. destruct (key_at st As n) as [le|] eqn:Hk; [|done].
  destruct Hr as (mem' & Hrun & HS'). exists mem'. split; [done|].
  eapply (store_keys_set mem mem' As K n (Some _)); try done. by eapply key_at_valid.
Qed.

Lemma store_remove_law mem K cb n :
  store_keys mem K → uint_range 16 n →
  match K !! n with
  | Some le => ∃ mem',
      Store.remove_entry st cb n mem = (if cb n then Err CannotDeleteKeyInUse else Ok tt, mem') ∧
      store_keys mem' (if cb n then <[n := le_set_disabled true le]> K else delete n K)
  | None => Store.remove_entry st cb n mem = (Err InvalidKeyIndex, mem)
  end.
Proof.
  intros (As & HS & HK & Hout) Hn.
  pose proof (store_remove_entry_rep st mem As cb n HS Hn) as Hr.
  rewrite HK by done. destruct (key_at st As n) as [le|] eqn:Hk; [|done].
  destruct Hr as (mem' & Hrun & HS'). exists mem'. split; [done|].
  unfold spec_remove in HS'. pose proof (key_at_valid _ _ _ Hk) as Hv.
  destruct (cb n).
  - by eapply (store_keys_set mem mem' As K n (Some _)).
  - by eapply (store_keys_set mem mem' As K n None).
Qed.

Lemma store_bulk_law mem K matching sel cb :
  (∀ off le, matching (physical_of off le) = sel le) →
  store_keys mem K →
  ∃ r mem', Store.remove_all st (λ ti, Table.remove_matching matching cb ti) mem = (r, mem') ∧
    r ≠ Panic ∧ store_keys mem' (bulk_remove sel cb K) ∧
    ((∀ n le, K !! n = Some le → sel le = true → cb n = false) → is_ok r = true).
Proof.
  intros Hsel (As & HS & HK & Hout).
  destruct (store_remove_all_rep st matching sel cb Hsel mem As HS) as (mem' & Hrun & HS' & _).
  exists (store_result st sel cb As), mem'. split; [exact Hrun|]. split_and!.
  - unfold store_result. by repeat destruct (_ =? _)%Z.
  - exists (tables_from st sel cb 0 As). split; [exact HS'|]. unfold bulk_remove.
    split; intros n Hn; rewrite map_lookup_imap.
    + rewrite (key_at_tables_from st sel cb mem), HK by done. by destruct (key_at st As n).
    + by rewrite Hout.
  - intros Hno. rewrite (store_result_ok st sel cb mem); [done..|].
    intros n le Hn Hk. apply Hno. by rewrite HK.
Qed.

Lemma store_nuke_law mem K : store_keys mem K → store_keys (Store.nuke st mem) ∅.
Proof.
  intros (As & HS & _). destruct (store_nuke_rep st mem As HS) as (As' & HS' & Hnone & _).
  exists As'. split_and!; [done|..]; intros n _; by rewrite lookup_empty, ?Hnone.
Qed.

Lemma store_by_tag_law mem K app_id tag :
  store_keys mem K → tag ≠ KEY_TAG_UNASSIGNED →
  (∃ n le, Store.get_entry_index_by_tag st mem app_id tag = Ok n ∧ K !! n = Some le ∧
     has_tag app_id tag (Some le)) ∨
  (Store.get_entry_index_by_tag st mem app_id tag = Err KeyNotFound ∧ ¬ tag_in K app_id tag).
Proof.
  intros (As & HS & HK & Hout) Htag.
  destruct (store_index_by_tag_rep st mem As app_id tag HS Htag)
    as [(n & le & Hf & Hn & Hk & Ht)|[Hf Hnone]].
  - left. exists n, le. by rewrite HK.
  - right. split; [done|]. intros (n & le & Hk & Ht).
    destruct (decide (uint_range 16 n)) as [Hn|Hn]; [|by rewrite Hout in Hk].
    rewrite HK in Hk by done. by eapply Hnone.
Qed.

Lemma store_get_entry_law mem K n allow :
  store_keys mem K → uint_range 16 n →
  ∃ off, Store.get_entry st mem n allow = physical_of off <$> spec_lookup (K !! n) allow.
Proof.
  intros (As & HS & HK & _) Hn. rewrite HK by done. by apply store_get_entry_rep.
Qed.

Lemma store_get_entry_attributes_law mem K n allow :
  store_keys mem K → uint_range 16 n →
  Store.get_entry_attributes st mem n allow = le_attributes <$> spec_lookup (K !! n) allow.
Proof.
  intros (As & HS & HK & _) Hn. rewrite HK by done. by apply store_get_entry_attributes_rep.
Qed.

Lemma store_get_entry_blob_law mem K n :
  store_keys mem K → uint_range 16 n →
  Store.get_entry_blob st mem n = le_blob <$> spec_lookup (K !! n) true.
Proof.
  intros (As & HS & HK & _) Hn. rewrite HK by done. by apply store_get_entry_blob_rep.
Qed.

Lemma session_sel_of sid off le :
  Table.session_only_of sid (physical_of off le) = session_sel sid le.
Proof.
  unfold Table.session_only_of, session_id, session_sel. simpl.
  destruct (ef_session _); [|done]. simpl. repeat case_bool_decide; congruence.
Qed.

#[global] Instance key_store_spec : KeyStoreSpec memory := {|
  ks_rep := store_keys;
  ks_wf := store_keys_wf;
  ks_get_entry_law := store_get_entry_law;
  ks_get_entry_attributes_law := store_get_entry_attributes_law;
  ks_get_entry_blob_law := store_get_entry_blob_law;
  ks_get_entry_index_by_tag_law := store_by_tag_law;
  ks_add_entry_law := store_add_law;
  ks_enable_entry_law mem K n := store_set_disabled_law mem K n false _ eq_refl;
  ks_disable_entry_law mem K n := store_set_disabled_law mem K n true _ eq_refl;
  ks_remove_entry_law := store_remove_law;
  ks_remove_session_law mem K cb sid :=
    store_bulk_law mem K (Table.session_only_of sid) (session_sel sid) cb (session_sel_of sid);
  ks_remove_app_law mem K cb app :=
    store_bulk_law mem K (Table.app_entry_of app) (app_sel app) cb (λ _ _, eq_refl);
  ks_nuke_law := store_nuke_law
|}.

(** Zeroed memory holds no key. *)
Definition zeroed_memory : memory := replicate MAX_TABLE_COUNT zeroed_table.

Lemma store_keys_zeroed : store_keys zeroed_memory ∅.
Proof.
  exists (replicate MAX_TABLE_COUNT empty_table). split_and!.
  - split; [apply length_replicate|]. apply Forall2_replicate. apply rep_zeroed.
  - intros n _. rewrite lookup_empty. symmetry.
    destruct (key_at st _ n) as [le|] eqn:Hk; [|done]. exfalso. unfold key_at in Hk.
    destruct (Store.is_valid_table st _); [|done].
    destruct (replicate _ _ !! _) as [A|] eqn:HA; [|done].
    apply lookup_replicate in HA as [-> _]. cbn [mbind option_bind] in Hk.
    destruct (empty_table !! _) as [a|] eqn:Ha; [|done].
    apply lookup_replicate in Ha as [-> _]. done.
  - done.
Qed.

End instance.
