(* ===== verification/KeyStoreTheorems.v ===== *)
(** * Theorems on the key store

    Isolation between the stores that share the table memory, the exact
    behaviour of an addition, and the tag discipline. *)

From stdpp Require Import base list numbers option gmap.
From S2P Require Import Prelude HsmError KeyEntry Crates KeyTable KeyTableSpec KeyTableRefine KeyTableOps KeyTableProps KeyStore KeyStoreProps StoreInterface.

(** One call on a store, with the ranges of its Rust argument types. *)
Inductive store_op : Type :=
  | SAdd (attributes : EntryAttributes) (session_id_or_key_tag : Z) (kind : EntryKind)
      (app_id : Z) (blob : list Z)
  | SEnable (entry : Z)
  | SDisable (entry : Z)
  | SRemove (key_in_use_cb : Z → bool) (entry : Z)
  | SRemoveSession (key_in_use_cb : Z → bool) (session_id : Z)
  | SRemoveApp (key_in_use_cb : Z → bool) (app_id : Z)
  | SNuke.

Definition store_op_typed (op : store_op) : Prop :=
  match op with
  | SAdd attributes _ _ _ _ => attributes_wf attributes
  | SEnable n | SDisable n | SRemove _ n => uint_range 16 n
  | _ => True
  end.

(** Two keys of one application never carry the same tag while both are
    enabled. *)
Definition tags_unique (K : KeyMap) : Prop :=
  ∀ n m le1 le2 app tag, tag ≠ KEY_TAG_UNASSIGNED →
    K !! n = Some le1 → K !! m = Some le2 →
    has_tag app tag (Some le1) → has_tag app tag (Some le2) → n = m.

Section theorems.
Context `{ZC : Zerocopy, ZZ : Zeroize}.
Implicit Types (st : KeyStoreImpl) (mem : memory).

Definition run_store_op st (op : store_op) mem : outcome HsmErr () * memory :=
  let unit {A} (p : outcome HsmErr A * memory) := ((λ _, tt) <$> p.1, p.2) in
  match op with
  | SAdd a s k app blob => unit (Store.add_entry st a s k app blob mem)
  | SEnable n => Store.enable_entry st n mem
  | SDisable n => Store.disable_entry st n mem
  | SRemove cb n => Store.remove_entry st cb n mem
  | SRemoveSession cb sid => unit (Store.remove_all_session_only_entries st cb sid mem)
  | SRemoveApp cb app => unit (Store.remove_all_entries_for_app st cb app mem)
  | SNuke => (Ok tt, Store.nuke st mem)
  end.

Lemma on_table_frame {B} st i (op : M PhysicalTable HsmErr B) mem j :
  (0 ≤ i)%Z → Store.is_valid_table st (Z.of_nat j) = false ∨ Z.of_nat j ≠ i →
  (Store.on_table st i op mem).2 !! j = mem !! j.
Proof.
  intros Hi Hj. unfold Store.on_table, Store.get_table.
  destruct (Store.is_valid_table st i) eqn:Hv; [|done].
  destruct (mem !! Z.to_nat i) as [t|] eqn:Ht; [|done]. destruct (op t) as [r t'].
  cbn. apply list_lookup_insert_ne. intros Hij. subst j. rewrite Z2Nat.id in Hj by lia.
  destruct Hj; congruence.
Qed.

Lemma run_store_op_rep st mem As op :
  StoreRep mem As → store_op_typed op →
  (run_store_op st op mem).1 ≠ Panic ∧ (∃ As', StoreRep (run_store_op st op mem).2 As') ∧
  ∀ j, Store.is_valid_table st (Z.of_nat j) = false →
    (run_store_op st op mem).2 !! j = mem !! j.
Proof.
  intros HS Hop.
  destruct op as [a sid k app blob|n|n|cb n|cb sid|cb app|]; cbn in Hop; cbn [run_store_op].
  - destruct (store_add_entry_rep st mem As a sid k app blob HS Hop) as (r & mem' & -> & Hp).
    cbn. destruct r as [n|e|]; [|destruct Hp as [-> _]; split_and!; by eauto|done].
    destruct Hp as (_ & _ & Hv & _ & HS' & Hframe). split_and!; [done|by eauto|].
    intros j Hj. apply Hframe. intros ->.
    pose proof (KeyNumber_table_range n) as Hr. unfold uint_range in Hr.
    rewrite Z2Nat.id in Hj by lia. congruence.
  - pose proof (store_set_disabled_rep st mem As n false HS) as Hr. cbv zeta in Hr.
    split_and!; [..|intros j Hj; apply on_table_frame; [apply KeyNumber_table_range|by left]];
      unfold Store.enable_entry, Table.enable_entry, enable;
      (destruct (key_at st As n); [destruct Hr as (mem' & -> & HS')|rewrite Hr]); by eauto.
  - pose proof (store_set_disabled_rep st mem As n true HS) as Hr. cbv zeta in Hr.
    split_and!; [..|intros j Hj; apply on_table_frame; [apply KeyNumber_table_range|by left]];
      unfold Store.disable_entry, Table.disable_entry, disable;
      (destruct (key_at st As n); [destruct Hr as (mem' & -> & HS')|rewrite Hr]); by eauto.
  - pose proof (store_remove_entry_rep st mem As cb n HS Hop) as Hr.
    split_and!; [..|intros j Hj; apply on_table_frame; [apply KeyNumber_table_range|by left]];
      (destruct (key_at st As n); [destruct Hr as (mem' & -> & HS')|rewrite Hr]);
      try destruct (cb n); by eauto.
  - destruct (store_remove_all_rep st _ _ cb (session_sel_of sid) mem As HS)
      as (mem' & Hrun & HS' & Hf).
    unfold Store.remove_all_session_only_entries, Table.remove_all_session_only_entries.
    rewrite Hrun. split_and!; [|by eauto|done]. cbn. unfold store_result.
    by repeat destruct (_ =? _)%Z.
  - destruct (store_remove_all_rep st (Table.app_entry_of app) (app_sel app) cb (λ _ _, eq_refl)
      mem As HS) as (mem' & Hrun & HS' & Hf).
    unfold Store.remove_all_entries_for_app, Table.remove_all_entries_for_app.
    rewrite Hrun. split_and!; [|by eauto|done]. cbn. unfold store_result.
    by repeat destruct (_ =? _)%Z.
  - destruct (store_nuke_rep st mem As HS) as (As' & HS' & _ & Hf). split_and!; by eauto.
Qed.

Lemma disjoint_masks_invalid st1 st2 i :
  (0 ≤ i)%Z → Z.land (mask st1) (mask st2) = 0%Z →
  Store.is_valid_table st2 i = true → Store.is_valid_table st1 i = false.
Proof.
  intros Hi Hdisj Hv. rewrite is_valid_table_spec in * by lia. apply andb_true_iff in Hv as [_ Hv].
  apply andb_false_iff. right.
  assert (Z.testbit (Z.land (mask st1) (mask st2)) i = false) as Hb by (by rewrite Hdisj, Z.bits_0).
  by rewrite Z.land_spec, Hv, andb_true_r in Hb.
Qed.

Lemma index_by_tag_same st mem mem' app tag l :
  (∀ i, (0 ≤ i)%Z → Store.get_table st mem' i = Store.get_table st mem i) →
  Store.index_by_tag_loop st mem' app tag l = Store.index_by_tag_loop st mem app tag l.
Proof.
  intros Ht. induction l as [|i l IH]; [done|]. cbn [Store.index_by_tag_loop]. rewrite Ht by lia.
  destruct (Store.is_valid_table _ _); [|done]. destruct (Store.get_table _ _ _); [|done..].
  cbn. by destruct (Table.get_entry_index_by_tag _ _ _).
Qed.

(** C4: partitions are isolated.  Whatever call a store makes, it does not
    panic, and every table outside its mask keeps everything it holds: the
    entries, the blobs, the map of used blocks and the counts.  So for a
    second store whose mask shares no table with the first, each of its tables
    is as it was, and every lookup, by number (metadata, attributes and blob)
    or by tag, answers as before. *)
Theorem store_isolation st1 st2 mem As op :
  StoreRep mem As → store_op_typed op →
  Z.land (mask st1) (mask st2) = 0%Z →
  let mem' := (run_store_op st1 op mem).2 in
  (run_store_op st1 op mem).1 ≠ Panic ∧
  (∀ j, Store.is_valid_table st1 (Z.of_nat j) = false → mem' !! j = mem !! j) ∧
  (∀ i, (0 ≤ i)%Z → Store.get_table st2 mem' i = Store.get_table st2 mem i) ∧
  (∀ app tag, Store.get_entry_index_by_tag st2 mem' app tag = Store.get_entry_index_by_tag st2 mem app tag) ∧
  ∀ n allow, uint_range 16 n →
    Store.get_entry st2 mem' n allow = Store.get_entry st2 mem n allow ∧
    Store.get_entry_attributes st2 mem' n allow = Store.get_entry_attributes st2 mem n allow ∧
    Store.get_entry_blob st2 mem' n = Store.get_entry_blob st2 mem n.
Proof.
  intros HS Hop Hdisj mem'. destruct (run_store_op_rep st1 mem As op HS Hop) as (Hp & _ & Hf).
  assert (∀ i, (0 ≤ i)%Z → Store.get_table st2 mem' i = Store.get_table st2 mem i) as Ht.
  { intros i Hi. unfold Store.get_table. destruct (Store.is_valid_table st2 _) eqn:Hv; [|done].
    unfold mem'. rewrite Hf; [done|]. rewrite Z2Nat.id by lia. by eapply disjoint_masks_invalid. }
  split_and!; [done|done|done|intros; by apply index_by_tag_same|]. intros n allow Hn.
  pose proof (KeyNumber_table_range n) as Hr. unfold uint_range in Hr.
  unfold Store.get_entry, Store.get_entry_attributes, Store.get_entry_blob. by rewrite Ht by lia.
Qed.

(** C5: [KeyStoreImpl::add_entry].  [InvalidArgument] exactly for a bad kind
    or length, [KeyTagAlreadyExists] exactly when an enabled key of the
    application in this store has the tag, otherwise the table search decides;
    an error leaves the memory as it was.  On success the number returned was
    free, names the new key afterwards, lies in a table of the mask, and no
    other table changes. *)
Theorem store_add_refines st mem As attributes sid kind app blob :
  StoreRep mem As → attributes_wf attributes →
  ∃ r mem', Store.add_entry st attributes sid kind app blob mem = (r, mem') ∧
    store_add_post st mem As (new_entry attributes sid kind app blob) r mem'.
Proof. apply store_add_entry_rep. Qed.

(** An addition succeeds when a table of the mask has a slot and a run. *)
Lemma store_add_succeeds st mem As attributes sid kind app blob i t A s :
  StoreRep mem As → attributes_wf attributes → args_ok attributes kind blob →
  let le := new_entry attributes sid kind app blob in
  (tagged le = true → ¬ tag_taken st As le) →
  (i < MAX_TABLE_COUNT)%nat → Store.is_valid_table st (Z.of_nat i) = true →
  mem !! i = Some t → As !! i = Some A → Rep t A → is_Some (first_free A) →
  free_window (used_block_tracking_memory t) s (le_blocks le) →
  s + le_blocks le ≤ BLOB_BLOCKS →
  ∃ n mem', Store.add_entry st attributes sid kind app blob mem = (Ok n, mem') ∧
    store_add_post st mem As le (Ok n) mem'.
Proof.
  intros HS Hwf Hargs le Htag Hi Hv Ht HA HR Hff Hw Hs.
  destruct (store_add_entry_rep st mem As attributes sid kind app blob HS Hwf)
    as (r & mem' & Hadd & Hpost). fold le in Hpost.
  assert (store_args_ok le) as Hsa.
  { split; [apply Hargs|]. apply store_expected_key_len, Hargs. }
  destruct r as [n|err|]; [by exists n, mem'| |done]. exfalso.
  destruct Hpost as [_ [[_ Hn]|[(_ & _ & H1 & H2)|[_ (_ & Href & _)]]]].
  - by apply Hn.
  - by apply Htag.
  - destruct (Href i A t) as (err' & _ & [[_ Hn]|[(_ & _ & [Hn|Hn])|(_ & _ & _ & _ & Hn)]]);
      [by apply elem_of_seq; lia|done..| | | |].
    + by apply Hn.
    + rewrite Hn in Hff. by destruct Hff.
    + pose proof (window_count _ _ _ Hw Hs). pose proof (free_count_used_blocks _ _ HR). lia.
    + by eapply Hn.
Qed.

(** ** Tags *)

Lemma tags_unique_insert_untagged K n le :
  tags_unique K → (∀ app tag, tag ≠ KEY_TAG_UNASSIGNED → ¬ has_tag app tag (Some le)) →
  tags_unique (<[n := le]> K).
Proof.
  intros HK Hno a b le1 le2 app tag Htag Ha Hb H1 H2.
  apply lookup_insert_Some in Ha as [[<- <-]|[_ Ha]]; [exfalso; by eapply Hno|].
  apply lookup_insert_Some in Hb as [[<- <-]|[_ Hb]]; [exfalso; by eapply Hno|].
  by eapply HK.
Qed.

Lemma tags_unique_add K n le :
  tags_unique K → K !! n = None →
  ef_session (le_flags le) = af_session (ea_flags (le_attributes le)) →
  (tagged le = true → ¬ tag_in K (le_app_id le) (le_session_id_or_key_tag le)) →
  tags_unique (<[n := le]> K).
Proof.
  intros HK Hn Hsess Hfree.
  assert (∀ m le' app tag, tag ≠ KEY_TAG_UNASSIGNED → K !! m = Some le' →
    has_tag app tag (Some le') → ¬ has_tag app tag (Some le)) as Hnew.
  { intros m le' app tag Htag Hm H1 (_ & Happ & Hs & Hsid). apply Hfree.
    - unfold tagged. rewrite <- Hsess, Hs, Hsid, bool_decide_false by done. done.
    - exists m, le'. by rewrite Happ, Hsid. }
  intros a b le1 le2 app tag Htag Ha Hb H1 H2.
  apply lookup_insert_Some in Ha as [[<- <-]|[_ Ha]];
    apply lookup_insert_Some in Hb as [[<- <-]|[_ Hb]]; [done| | |by eapply HK].
  - exfalso. by eapply (Hnew b le2).
  - exfalso. by eapply (Hnew a le1).
Qed.

Lemma tags_unique_bulk K sel cb : tags_unique K → tags_unique (bulk_remove sel cb K).
Proof.
  intros HK.
  assert (∀ n le app tag, bulk_remove sel cb K !! n = Some le → has_tag app tag (Some le) →
    K !! n = Some le) as Hold.
  { intros n le app tag. unfold bulk_remove. rewrite map_lookup_imap.
    destruct (K !! n) as [le'|]; [|done]. cbn. unfold spec_remove.
    destruct (sel le'), (cb n); try done. intros [= <-] (Hd & _). done. }
  intros a b le1 le2 app tag Htag Ha Hb H1 H2. eapply HK; [done|..]; by eauto.
Qed.

(** Key tags are unique: starting from keys whose tags are unique among
    the enabled ones, every call except [enable_entry] (whatever it answers)
    leaves them unique. *)
Theorem store_tags_stay_unique st mem K op :
  store_keys st mem K → tags_unique K → store_op_typed op →
  (∀ n, op ≠ SEnable n) →
  ∃ K', store_keys st (run_store_op st op mem).2 K' ∧ tags_unique K'.
Proof.
  intros HK Hu Hop Hne.
  destruct op as [a sid k app blob|n|n|cb n|cb sid|cb app|]; cbn in Hop; cbn [run_store_op].
  - destruct (store_add_law st mem K a sid k app blob HK Hop) as (r & mem' & -> & Hlaw). cbn.
    destruct r as [n|e|]; [|destruct Hlaw as [-> _]; by exists K|done].
    destruct Hlaw as (_ & Hn & HK' & _ & Hfree). eexists. split; [exact HK'|].
    by apply tags_unique_add.
  - by destruct (Hne n).
  - pose proof (store_set_disabled_law st mem K n true _ eq_refl HK Hop) as Hr.
    unfold Store.disable_entry, Table.disable_entry, disable.
    destruct (K !! n) as [le|]; [destruct Hr as (mem' & -> & HK')|rewrite Hr; by exists K].
    eexists. split; [exact HK'|]. apply tags_unique_insert_untagged; [done|].
    by intros app tag _ [? _].
  - pose proof (store_remove_law st mem K cb n HK Hop) as Hr.
    destruct (K !! n) as [le|]; [destruct Hr as (mem' & -> & HK')|rewrite Hr; by exists K].
    eexists. split; [exact HK'|]. destruct (cb n).
    + apply tags_unique_insert_untagged; [done|]. by intros app tag _ [? _].
    + intros x y le1 le2 app tag Htag Hx Hy. apply lookup_delete_Some in Hx as [_ Hx].
      apply lookup_delete_Some in Hy as [_ Hy]. by eapply Hu.
  - destruct (store_bulk_law st mem K _ _ cb (session_sel_of sid) HK) as (r & mem' & Hr & _ & HK' & _).
    unfold Store.remove_all_session_only_entries, Table.remove_all_session_only_entries.
    rewrite Hr. eexists. split; [exact HK'|]. by apply tags_unique_bulk.
  - destruct (store_bulk_law st mem K (Table.app_entry_of app) (app_sel app) cb (λ _ _, eq_refl) HK)
      as (r & mem' & Hr & _ & HK' & _).
    unfold Store.remove_all_entries_for_app, Table.remove_all_entries_for_app.
    rewrite Hr. eexists. split; [exact HK'|]. by apply tags_unique_bulk.
  - exists ∅. cbn [snd]. split; [exact (store_nuke_law st mem K HK)|].
    intros x y le1 le2 app tag Htag Hx. by rewrite lookup_empty in Hx.
Qed.

(** A store of the first two tables, and an AES-128 key of application 3 with
    tag 7. *)
Definition two_tables : KeyStoreImpl := mkKeyStoreImpl 3.
Definition tagged_key : LogicalEntry :=
  new_entry EntryAttributes_default 7 EK_Aes128 3 (replicate 16 1%Z).

Lemma zeroed_window s n :
  s + n ≤ BLOB_BLOCKS → free_window (used_block_tracking_memory zeroed_table) s n.
Proof.
  intros H b Hb. unfold block_free. cbn [zeroed_table used_block_tracking_memory].
  rewrite Tracker_get_zero by lia. done.
Qed.

Lemma tagged_key_fits : 0 + le_blocks tagged_key ≤ BLOB_BLOCKS.
Proof. apply Nat.leb_le. vm_compute. done. Qed.

Lemma two_tables_valid n :
  Store.is_valid_table two_tables (KeyNumber_table n) = true →
  KeyNumber_table n = 0%Z ∨ KeyNumber_table n = 1%Z.
Proof.
  pose proof (KeyNumber_table_range n) as Hr. unfold uint_range in Hr.
  rewrite is_valid_table_spec by lia. intros Hv. apply andb_true_iff in Hv as [_ Hv].
  change (mask two_tables) with (Z.ones 2) in Hv. apply Z.ones_spec_iff in Hv; lia.
Qed.

(** Adding the tagged key works whenever table 0 or table 1 is still zeroed
    and the tag is not taken. *)
Lemma add_tagged_key mem As i :
  StoreRep mem As → (i < 2)%nat → mem !! i = Some zeroed_table →
  ¬ tag_taken two_tables As tagged_key →
  ∃ n mem', Store.add_entry two_tables EntryAttributes_default 7 EK_Aes128 3 (replicate 16 1%Z)
      mem = (Ok n, mem') ∧ store_add_post two_tables mem As tagged_key (Ok n) mem'.
Proof.
  intros HS Hi Hm Htag.
  destruct (Forall2_lookup_l _ _ _ _ _ (sr_tables _ _ HS) Hm) as (A & HA & HR).
  assert (is_Some (first_free A)) as Hff.
  { rewrite <- (rep_find_free _ _ HR). by eexists. }
  apply (store_add_succeeds two_tables mem As EntryAttributes_default 7 EK_Aes128 3
    (replicate 16 1%Z) i zeroed_table A 0 HS sample_wf sample_args); try done.
  - unfold MAX_TABLE_COUNT. lia.
  - destruct i as [|[|]]; [done..|lia].
  - apply zeroed_window, tagged_key_fits.
  - apply tagged_key_fits.
Qed.

(** [enable_entry] is the exception: from empty memory, adding a tagged
    key, disabling it, adding a second key of the same application with the
    same tag (accepted, because the search skips disabled keys) and enabling
    the first leaves two enabled keys under one tag. *)
Theorem enable_duplicates_tag :
  ∃ n1 n2 mem1 mem2 mem3 mem4 K,
    let add := Store.add_entry two_tables EntryAttributes_default 7 EK_Aes128 3
                 (replicate 16 1%Z) in
    add zeroed_memory = (Ok n1, mem1) ∧
    Store.disable_entry two_tables n1 mem1 = (Ok tt, mem2) ∧
    add mem2 = (Ok n2, mem3) ∧
    Store.enable_entry two_tables n1 mem3 = (Ok tt, mem4) ∧
    store_keys two_tables mem4 K ∧ n1 ≠ n2 ∧
    has_tag 3 7 (K !! n1) ∧ has_tag 3 7 (K !! n2).
Proof.
  destruct (store_keys_zeroed two_tables) as (As & HS & HK & Hout).
  destruct (add_tagged_key zeroed_memory As 0 HS) as (n1 & mem1 & Hadd1 & Hp1); [lia|done| |].
  { rewrite (store_tag_in two_tables zeroed_memory As ∅ tagged_key HS HK Hout).
    intros (n & le & Hn & _). by rewrite lookup_empty in Hn. }
  destruct Hp1 as (_ & Hn1 & Hv1 & _ & HS1 & Hframe1).
  set (le1 := le_set_disabled true tagged_key).
  assert (store_keys two_tables mem1 (<[n1 := tagged_key]> ∅)) as HK1.
  { by eapply (store_keys_set two_tables zeroed_memory mem1 As ∅ n1 (Some _)). }
  pose proof (store_set_disabled_law two_tables mem1 _ n1 true _ eq_refl HK1 Hn1) as Hd.
  rewrite lookup_insert_eq in Hd. destruct Hd as (mem2 & Hdis & HK2).
  rewrite insert_insert_eq in HK2. fold le1 in HK2.
  destruct HK2 as (As2 & HS2 & HKl & Hout2).
  set (i := if decide (KeyNumber_table n1 = 0%Z) then 1 else 0).
  assert (mem2 !! i = Some zeroed_table) as Hi.
  { assert (Z.of_nat i ≠ KeyNumber_table n1) as Hne.
    { unfold i. destruct (two_tables_valid n1 Hv1) as [-> | ->]; done. }
    pose proof (on_table_frame two_tables (KeyNumber_table n1) (Table.update_entry (KeyNumber_entry n1)
      (λ e, with_flags e (set_disabled true (pe_flags e)))) mem1 i) as Hf.
    rewrite Hdis in Hf. cbn in Hf. rewrite Hf; [|apply KeyNumber_table_range|by right].
    rewrite Hframe1.
    - apply lookup_replicate. split; [done|]. unfold i, MAX_TABLE_COUNT. case_decide; lia.
    - intros Heq. apply Hne. rewrite Heq. apply Z2Nat.id. apply KeyNumber_table_range. }
  destruct (add_tagged_key mem2 As2 i HS2) as (n2 & mem3 & Hadd2 & Hp2);
    [unfold i; case_decide; lia|done| |].
  { rewrite (store_tag_in two_tables mem2 As2 _ tagged_key HS2 HKl Hout2).
    intros (n & le & Hn & Ht). apply lookup_insert_Some in Hn as [[_ <-]|[_ Hn]].
    - by destruct Ht as [? _].
    - by rewrite lookup_empty in Hn. }
  destruct Hp2 as (_ & Hn2 & Hv2 & Hnone2 & HS3 & _).
  assert (n1 ≠ n2) as Hne.
  { intros <-. rewrite <- HKl, lookup_insert_eq in Hnone2 by done. done. }
  assert (store_keys two_tables mem3 (<[n2 := tagged_key]> (<[n1 := le1]> ∅))) as HK3.
  { by eapply (store_keys_set two_tables mem2 mem3 As2 _ n2 (Some _)). }
  pose proof (store_set_disabled_law two_tables mem3 _ n1 false _ eq_refl HK3 Hn1) as He.
  rewrite lookup_insert_ne, lookup_insert_eq in He by done. destruct He as (mem4 & Hen & HK4).
  exists n1, n2, mem1, mem2, mem3, mem4,
    (<[n1 := le_set_disabled false le1]> (<[n2 := tagged_key]> (<[n1 := le1]> ∅))).
  split; [exact Hadd1|]. split; [exact Hdis|]. split; [exact Hadd2|]. split; [exact Hen|].
  split; [exact HK4|]. split; [exact Hne|]. split.
  - rewrite lookup_insert_eq. clear. repeat split.
  - rewrite lookup_insert_ne, lookup_insert_eq by exact Hne. clear. repeat split.
Qed.

(** A variable-length HMAC key whose declared length is outside its kind's
    bounds passes the store's own argument check and is then refused by every
    table, so the store reports [NotEnoughSpace] for it, however empty the
    memory is. *)
Theorem var_hmac_length_misreported st mem As attributes sid kind app blob vk :
  StoreRep mem As → attributes_wf attributes →
  var_hmac_try_from kind = Ok vk → key_length_of attributes = length blob →
  0 < length blob < min_length vk →
  af_session (ea_flags attributes) = true →
  Store.add_entry st attributes sid kind app blob mem = (Err NotEnoughSpace, mem).
Proof.
  intros HS Hwf Hvk Hkl Hlen Hsess.
  set (le := new_entry attributes sid kind app blob).
  assert (is_var_hmac_key kind = true) as Hvar by (by destruct kind).
  assert (¬ args_ok attributes kind blob) as Hbad.
  { intros [H _]. unfold Table.expected_key_len in H. rewrite Hvar, Hvk in H.
    cbn [mbind outcome_bind] in H. rewrite (proj2 (Nat.ltb_lt _ _)) in H by lia. done. }
  assert (store_args_ok le) as Hok.
  { split; [by destruct kind|]. cbn. unfold Store.expected_key_len. rewrite Hvar, Hkl.
    destruct (Nat.eqb_spec (length blob) 0); [lia|done]. }
  destruct (store_add_entry_rep st mem As attributes sid kind app blob HS Hwf)
    as (r & mem' & Hadd & Hpost). fold le in Hpost. rewrite Hadd.
  assert (∀ A t, add_post t A le (Err DefragNeeded) t → False) as Hnodef.
  { intros A t [_ [[? _]|[(? & _)|(_ & Ha & _)]]]; [discriminate..|exact (Hbad Ha)]. }
  destruct r as [n|err|]; [| |done].
  - exfalso. destruct Hpost as (_ & Hn & Hv & _ & HS' & _).
    assert (key_at st (set_key As n (Some le)) n = Some le) as Hk.
    { rewrite (key_at_set_key st mem) by done. by rewrite decide_True. }
    destruct (key_at_inv _ _ _ _ (sr_length _ _ HS') Hk) as (i & A & _ & _ & _ & HA & Ha).
    destruct (Forall2_lookup_r _ _ _ _ _ (sr_tables _ _ HS') HA) as (t & _ & HR).
    destruct (Forall2_lookup_r _ _ _ _ _ (rep_entries _ _ HR) Ha)
      as (e & _ & off & _ & Hle & _). apply Hbad, (le_args _ Hle).
  - destruct Hpost as [-> [[_ Hn]|[(_ & _ & Ht & _)|[_ (_ & _ & [[-> Hd]|[-> _]])]]]].
    + done.
    + unfold tagged in Ht. cbn in Ht. by rewrite Hsess in Ht.
    + destruct Hd as [?|(i & A & t & _ & _ & _ & _ & Hp)]; [done|]. exfalso. by eapply Hnodef.
    + done.
Qed.

End theorems.

(** ** Witnesses *)

#[local] Existing Instance zerocopy_le.
#[local] Existing Instance zeroize_fill.

Lemma zeroed_store_rep : StoreRep zeroed_memory (replicate MAX_TABLE_COUNT empty_table).
Proof. split; [apply length_replicate|]. apply Forall2_replicate. apply rep_zeroed. Qed.

Definition sample_store_op : store_op :=
  SAdd EntryAttributes_default 7 EK_Aes128 3 (replicate 16 1%Z).

Lemma store_isolation_witness :
  let mem' := (run_store_op two_tables sample_store_op zeroed_memory).2 in
  mem' !! 2 = zeroed_memory !! 2 ∧
  Store.get_entry_blob (mkKeyStoreImpl 4) mem' 512 = Store.get_entry_blob (mkKeyStoreImpl 4) zeroed_memory 512.
Proof.
  destruct (store_isolation two_tables (mkKeyStoreImpl 4) zeroed_memory _ sample_store_op
    zeroed_store_rep sample_wf eq_refl) as (_ & Hf & _ & _ & H).
  split; [apply Hf; reflexivity|]. apply (H 512%Z true). done.
Defined.

Lemma store_add_refines_witness :
  ∃ r mem', Store.add_entry two_tables EntryAttributes_default 7 EK_Aes128 3 (replicate 16 1%Z)
      zeroed_memory = (r, mem') ∧
    store_add_post two_tables zeroed_memory (replicate MAX_TABLE_COUNT empty_table) tagged_key r mem'.
Proof. exact (store_add_refines two_tables _ _ _ 7 EK_Aes128 3 _ zeroed_store_rep sample_wf). Defined.

Lemma store_tags_stay_unique_witness :
  ∃ K', store_keys two_tables (run_store_op two_tables sample_store_op zeroed_memory).2 K' ∧
    tags_unique K'.
Proof.
  apply (store_tags_stay_unique two_tables zeroed_memory ∅ sample_store_op
    (store_keys_zeroed two_tables)).
  - intros x y le1 le2 app tag Htag Hx. rewrite lookup_empty in Hx. discriminate.
  - exact sample_wf.
  - intros n. discriminate.
Defined.

(** A session-only HMAC-SHA-256 key that declares 8 bytes. *)
Definition short_hmac_attributes : EntryAttributes :=
  mkEntryAttributes
    (mkCommonEntryAttributes (set_session true EntryAttributeFlags_default) (replicate 16 0%Z))
    (8%Z :: replicate 7 0%Z).

Lemma var_hmac_length_misreported_witness :
  Store.add_entry two_tables short_hmac_attributes 1 EK_VarLenHmacSha256 0 (replicate 8 0%Z)
    zeroed_memory = (Err NotEnoughSpace, zeroed_memory).
Proof.
  apply (var_hmac_length_misreported two_tables zeroed_memory _ short_hmac_attributes 1
    EK_VarLenHmacSha256 0 (replicate 8 0%Z) VarLenHmacShaKey256 zeroed_store_rep).
  - unfold attributes_wf. split_and!; try done; simpl; repeat constructor; done.
  - reflexivity.
  - reflexivity.
  - simpl. lia.
  - reflexivity.
Defined.
