(* ===== verification/VaultKeys.v ===== *)
(** * Typed vault keys (hsm/src/partition/vault/key: mod.rs, aes.rs, ecc.rs,
      hmac.rs, rsa.rs, session.rs, session_enc.rs, establish_cred.rs,
      masking.rs)

    Per key family: the kinds and usages, the conversions from and to the DDI
    and entry enumerations, the usage check against the attribute flags, and
    the [*Imported] values an import takes.  A [VaultKey] is a key number; the
    store it is read from is the explicit state. *)

From stdpp Require Import base list numbers option.
From S2P Require Import Prelude HsmError KeyEntry KeyTableRefine StoreInterface.

(** ** DDI enumerations (serde/ddi/types/src/lib.rs, aes.rs, rsa.rs)

    [open_enum] types: any [u32] is a value; the ones without a name are
    [*_other]. *)

Inductive DdiKeyType : Set :=
  | DKT_Rsa2kPrivate | DKT_Rsa3kPrivate | DKT_Rsa4kPrivate
  | DKT_Rsa2kPrivateCrt | DKT_Rsa3kPrivateCrt | DKT_Rsa4kPrivateCrt
  | DKT_Ecc256Private | DKT_Ecc384Private | DKT_Ecc521Private
  | DKT_Aes128 | DKT_Aes192 | DKT_Aes256
  | DKT_AesXtsBulk256 | DKT_AesGcmBulk256 | DKT_AesGcmBulk256Unapproved
  | DKT_Secret256 | DKT_Secret384 | DKT_Secret521
  | DKT_Rsa2kPublic | DKT_Rsa3kPublic | DKT_Rsa4kPublic
  | DKT_Ecc256Public | DKT_Ecc384Public | DKT_Ecc521Public
  | DKT_HmacSha256 | DKT_HmacSha384 | DKT_HmacSha512
  | DKT_AesCbc256Hmac384 | DKT_KbKdfSecretSha384
  | DKT_VarLenHmacSha256 | DKT_VarLenHmacSha384 | DKT_VarLenHmacSha512
  | DKT_RsaUnwrap
  | DKT_other (v : Z).

(** [DdiKeyType::to_public], [is_bulk_key], [is_var_hmac] *)
Definition to_public (k : DdiKeyType) : DdiKeyType :=
  match k with
  | DKT_Rsa2kPrivate | DKT_Rsa2kPrivateCrt => DKT_Rsa2kPublic
  | DKT_Rsa3kPrivate | DKT_Rsa3kPrivateCrt => DKT_Rsa3kPublic
  | DKT_Rsa4kPrivate | DKT_Rsa4kPrivateCrt => DKT_Rsa4kPublic
  | DKT_Ecc256Private => DKT_Ecc256Public
  | DKT_Ecc384Private => DKT_Ecc384Public
  | DKT_Ecc521Private => DKT_Ecc521Public
  | other_key_type => other_key_type
  end.
Definition DdiKeyType_is_bulk_key (k : DdiKeyType) : bool :=
  match k with
  | DKT_AesXtsBulk256 | DKT_AesGcmBulk256 | DKT_AesGcmBulk256Unapproved => true
  | _ => false
  end.
Definition DdiKeyType_is_var_hmac (k : DdiKeyType) : bool :=
  match k with
  | DKT_VarLenHmacSha256 | DKT_VarLenHmacSha384 | DKT_VarLenHmacSha512 => true
  | _ => false
  end.

Inductive DdiKeyUsage : Set :=
  | DKU_SignVerify | DKU_EncryptDecrypt | DKU_Unwrap | DKU_Derive | DKU_other (v : Z).

Inductive DdiKeyAvailability : Set := DKA_App | DKA_Session | DKA_other (v : Z).

Inductive DdiAesKeySize : Set :=
  | DAS_Aes128 | DAS_Aes192 | DAS_Aes256 | DAS_AesXtsBulk256 | DAS_AesGcmBulk256
  | DAS_AesGcmBulk256Unapproved | DAS_other (v : Z).

Inductive DdiRsaOpType : Set := DRO_Decrypt | DRO_Sign | DRO_other (v : Z).

Inductive DdiHashAlgorithm : Set :=
  | DHA_Sha1 | DHA_Sha256 | DHA_Sha384 | DHA_Sha512 | DHA_other (v : Z).

Inductive EccCurve : Set := P256 | P384 | P521.

(** ** Common conversions (key/mod.rs) *)

Inductive KeyAvailability : Set := KA_App | KA_Session.
#[global] Instance KeyAvailability_eq_dec : EqDecision KeyAvailability.
Proof. solve_decision. Defined.

Definition KeyAvailability_try_from (a : DdiKeyAvailability) : outcome HsmErr KeyAvailability :=
  match a with
  | DKA_App => Ok KA_App
  | DKA_Session => Ok KA_Session
  | _ => Err InvalidArgument
  end.

(** [impl TryFrom<DdiKeyType> for EntryKind] *)
Definition EntryKind_try_from (k : DdiKeyType) : outcome HsmErr EntryKind :=
  match k with
  | DKT_Rsa2kPublic => Ok EK_Rsa2kPublic
  | DKT_Rsa3kPublic => Ok EK_Rsa3kPublic
  | DKT_Rsa4kPublic => Ok EK_Rsa4kPublic
  | DKT_Rsa2kPrivate | DKT_RsaUnwrap => Ok EK_Rsa2kPrivate
  | DKT_Rsa3kPrivate => Ok EK_Rsa3kPrivate
  | DKT_Rsa4kPrivate => Ok EK_Rsa4kPrivate
  | DKT_Rsa2kPrivateCrt => Ok EK_Rsa2kPrivateCrt
  | DKT_Rsa3kPrivateCrt => Ok EK_Rsa3kPrivateCrt
  | DKT_Rsa4kPrivateCrt => Ok EK_Rsa4kPrivateCrt
  | DKT_Ecc256Public => Ok EK_Ecc256Public
  | DKT_Ecc384Public => Ok EK_Ecc384Public
  | DKT_Ecc521Public => Ok EK_Ecc521Public
  | DKT_Ecc256Private => Ok EK_Ecc256Private
  | DKT_Ecc384Private => Ok EK_Ecc384Private
  | DKT_Ecc521Private => Ok EK_Ecc521Private
  | DKT_Aes128 => Ok EK_Aes128
  | DKT_Aes192 => Ok EK_Aes192
  | DKT_Aes256 => Ok EK_Aes256
  | DKT_AesXtsBulk256 => Ok EK_AesXtsBulk256
  | DKT_AesGcmBulk256 => Ok EK_AesGcmBulk256
  | DKT_AesGcmBulk256Unapproved => Ok EK_AesGcmBulk256Unapproved
  | DKT_Secret256 => Ok EK_Secret256
  | DKT_Secret384 => Ok EK_Secret384
  | DKT_Secret521 => Ok EK_Secret521
  | DKT_HmacSha256 => Ok EK_HmacSha256
  | DKT_HmacSha384 => Ok EK_HmacSha384
  | DKT_HmacSha512 => Ok EK_HmacSha512
  | DKT_VarLenHmacSha256 => Ok EK_VarLenHmacSha256
  | DKT_VarLenHmacSha384 => Ok EK_VarLenHmacSha384
  | DKT_VarLenHmacSha512 => Ok EK_VarLenHmacSha512
  | _ => Err InvalidArgument
  end.

(** [impl TryFrom<EntryKind> for DdiKeyType] *)
Definition DdiKeyType_try_from (k : EntryKind) : outcome HsmErr DdiKeyType :=
  match k with
  | EK_Rsa2kPublic => Ok DKT_Rsa2kPublic
  | EK_Rsa3kPublic => Ok DKT_Rsa3kPublic
  | EK_Rsa4kPublic => Ok DKT_Rsa4kPublic
  | EK_Rsa2kPrivate => Ok DKT_Rsa2kPrivate
  | EK_Rsa3kPrivate => Ok DKT_Rsa3kPrivate
  | EK_Rsa4kPrivate => Ok DKT_Rsa4kPrivate
  | EK_Rsa2kPrivateCrt => Ok DKT_Rsa2kPrivateCrt
  | EK_Rsa3kPrivateCrt => Ok DKT_Rsa3kPrivateCrt
  | EK_Rsa4kPrivateCrt => Ok DKT_Rsa4kPrivateCrt
  | EK_Ecc256Public => Ok DKT_Ecc256Public
  | EK_Ecc384Public => Ok DKT_Ecc384Public
  | EK_Ecc521Public => Ok DKT_Ecc521Public
  | EK_Ecc256Private => Ok DKT_Ecc256Private
  | EK_Ecc384Private => Ok DKT_Ecc384Private
  | EK_Ecc521Private => Ok DKT_Ecc521Private
  | EK_Aes128 => Ok DKT_Aes128
  | EK_Aes192 => Ok DKT_Aes192
  | EK_Aes256 => Ok DKT_Aes256
  | EK_AesXtsBulk256 => Ok DKT_AesXtsBulk256
  | EK_AesGcmBulk256 => Ok DKT_AesGcmBulk256
  | EK_AesGcmBulk256Unapproved => Ok DKT_AesGcmBulk256Unapproved
  | EK_Secret256 => Ok DKT_Secret256
  | EK_Secret384 => Ok DKT_Secret384
  | EK_Secret521 => Ok DKT_Secret521
  | EK_HmacSha256 => Ok DKT_HmacSha256
  | EK_HmacSha384 => Ok DKT_HmacSha384
  | EK_HmacSha512 => Ok DKT_HmacSha512
  | EK_VarLenHmacSha256 => Ok DKT_VarLenHmacSha256
  | EK_VarLenHmacSha384 => Ok DKT_VarLenHmacSha384
  | EK_VarLenHmacSha512 => Ok DKT_VarLenHmacSha512
  | _ => Err InvalidKeyType
  end.

(** ** VaultKey (key/mod.rs) *)

Record VaultKey : Set := mkVaultKey { vk_key_id : Z (* u16 *) }.

Module VKey.
Section vkey.
Context {S : Type} `{I : KeyStoreI S}.

Definition flags (s : S) (k : VaultKey) : outcome HsmErr EntryFlags :=
  pe_flags <$> ks_get_entry s (vk_key_id k) true.
Definition attributes (s : S) (k : VaultKey) : outcome HsmErr EntryAttributes :=
  ks_get_entry_attributes s (vk_key_id k) true.
Definition session_id (s : S) (k : VaultKey) : outcome HsmErr (option Z) :=
  KeyEntry.session_id <$> ks_get_entry s (vk_key_id k) true.
Definition key_tag (s : S) (k : VaultKey) : outcome HsmErr (option Z) :=
  KeyEntry.key_tag <$> ks_get_entry s (vk_key_id k) true.
Definition kind (s : S) (k : VaultKey) : outcome HsmErr EntryKind :=
  pe_kind <$> ks_get_entry s (vk_key_id k) true.
Definition class (s : S) (k : VaultKey) : outcome HsmErr EntryClass :=
  EntryClass_from <$> kind s k.
Definition app_kv_id (s : S) (k : VaultKey) : outcome HsmErr Z :=
  pe_app_id <$> ks_get_entry s (vk_key_id k) true.
Definition disabled (s : S) (k : VaultKey) : outcome HsmErr bool :=
  KeyEntry.disabled <$> ks_get_entry s (vk_key_id k) true.
Definition blob (s : S) (k : VaultKey) : outcome HsmErr (list Z) :=
  ks_get_entry_blob s (vk_key_id k).

(** [TryFrom<VaultKey>] of the key families that test the class, and of those
    that test the kind. *)
Definition try_from_class (classes : list EntryClass) (s : S) (k : VaultKey) :
    outcome HsmErr VaultKey :=
  c ← class s k;
  if bool_decide (c ∈ classes) then Ok k else Err InvalidKeyType.
Definition try_from_kind (expected : EntryKind) (s : S) (k : VaultKey) :
    outcome HsmErr VaultKey :=
  c ← kind s k;
  if bool_decide (c = expected) then Ok k else Err InvalidKeyType.

(** A usage check: read the attributes, test the flags. *)
Definition require (allowed : EntryAttributeFlags → bool) (s : S) (k : VaultKey) :
    outcome HsmErr () :=
  a ← attributes s k;
  if allowed (ea_flags a) then Ok tt else Err InvalidPermissions.

End vkey.
End VKey.

(** The argument of an import whose blob must have the kind's length. *)
Definition imported_blob {K} (len : K → nat) (kind : K) (val : list Z) :
    outcome HsmErr (list Z) :=
  if length val =? len kind then Ok val else Err InvalidKeyType.

(** ** AES (key/aes.rs) *)

Module Aes.

Inductive AesKeyKind : Set :=
  | AesXtsBulk256 | AesGcmBulk256 | AesGcmBulk256Unapproved | Aes128 | Aes192 | Aes256.

Definition MAX_KEY_LEN : nat := 32.

Definition to_entry_kind (k : AesKeyKind) : EntryKind :=
  match k with
  | Aes128 => EK_Aes128
  | Aes192 => EK_Aes192
  | Aes256 => EK_Aes256
  | AesXtsBulk256 => EK_AesXtsBulk256
  | AesGcmBulk256 => EK_AesGcmBulk256
  | AesGcmBulk256Unapproved => EK_AesGcmBulk256Unapproved
  end.

Definition of_entry_kind (k : EntryKind) : outcome HsmErr AesKeyKind :=
  match k with
  | EK_Aes128 => Ok Aes128
  | EK_Aes192 => Ok Aes192
  | EK_Aes256 => Ok Aes256
  | EK_AesXtsBulk256 => Ok AesXtsBulk256
  | EK_AesGcmBulk256 => Ok AesGcmBulk256
  | EK_AesGcmBulk256Unapproved => Ok AesGcmBulk256Unapproved
  | _ => Err InvalidKeyType
  end.

Definition len (k : AesKeyKind) : nat :=
  match k with
  | AesXtsBulk256 => 2
  | AesGcmBulk256 => 2
  | AesGcmBulk256Unapproved => 2
  | Aes128 => 16
  | Aes192 => 24
  | Aes256 => 32
  end.

Definition of_ddi_size (sz : DdiAesKeySize) : outcome HsmErr AesKeyKind :=
  match sz with
  | DAS_Aes128 => Ok Aes128
  | DAS_Aes192 => Ok Aes192
  | DAS_Aes256 => Ok Aes256
  | DAS_AesXtsBulk256 => Ok AesXtsBulk256
  | DAS_AesGcmBulk256 => Ok AesGcmBulk256
  | DAS_AesGcmBulk256Unapproved => Ok AesGcmBulk256Unapproved
  | _ => Err InvalidArgument
  end.

Inductive AesKeyUsage : Set := EncryptDecrypt.
#[global] Instance AesKeyUsage_eq_dec : EqDecision AesKeyUsage.
Proof. solve_decision. Defined.

Definition usage_of_ddi (u : DdiKeyUsage) : outcome HsmErr AesKeyUsage :=
  match u with
  | DKU_EncryptDecrypt => Ok EncryptDecrypt
  | _ => Err InvalidPermissions
  end.

Definition usage_flags (u : AesKeyUsage) (f : EntryAttributeFlags) : bool :=
  match u with EncryptDecrypt => negb (negb (af_encrypt f) || negb (af_decrypt f)) end.

Record AesKeyImported : Set := mkImported {
  kind : AesKeyKind;
  usage : AesKeyUsage;
  blob : list Z
}.

Definition imported_new (k : AesKeyKind) (u : AesKeyUsage) (val : list Z) :
    outcome HsmErr AesKeyImported :=
  b ← imported_blob len k val; Ok (mkImported k u b).

(** [aes_entry_attributes] *)
Definition aes_entry_attributes (availability : KeyAvailability) (generated : bool)
    (u : AesKeyUsage) : EntryAttributes :=
  let a := map_flags (set_session (bool_decide (availability = KA_Session)))
             EntryAttributes_default in
  let a := if generated then map_flags (set_local true) a else a in
  match u with
  | EncryptDecrypt => map_flags (set_decrypt true) (map_flags (set_encrypt true) a)
  end.

End Aes.

(** ** ECC and ECDH (key/ecc.rs) *)

Module Ecc.

Inductive EccKeyKind : Set :=
  | Ecc256Public | Ecc384Public | Ecc521Public | Ecc256Private | Ecc384Private | Ecc521Private.

Definition to_entry_kind (k : EccKeyKind) : EntryKind :=
  match k with
  | Ecc256Public => EK_Ecc256Public
  | Ecc384Public => EK_Ecc384Public
  | Ecc521Public => EK_Ecc521Public
  | Ecc256Private => EK_Ecc256Private
  | Ecc384Private => EK_Ecc384Private
  | Ecc521Private => EK_Ecc521Private
  end.

Definition of_entry_kind (k : EntryKind) : outcome HsmErr EccKeyKind :=
  match k with
  | EK_Ecc256Private => Ok Ecc256Private
  | EK_Ecc384Private => Ok Ecc384Private
  | EK_Ecc521Private => Ok Ecc521Private
  | _ => Err InvalidKeyType
  end.

Definition of_curve (c : EccCurve) : EccKeyKind :=
  match c with P256 => Ecc256Private | P384 => Ecc384Private | P521 => Ecc521Private end.

Definition len (k : EccKeyKind) : nat :=
  match k with
  | Ecc256Public => 64
  | Ecc384Public => 96
  | Ecc521Public => 136
  | Ecc256Private => 32
  | Ecc384Private => 48
  | Ecc521Private => 68
  end.

Inductive EccKeyUsage : Set := SignVerify | KeyAgreement.
#[global] Instance EccKeyUsage_eq_dec : EqDecision EccKeyUsage.
Proof. solve_decision. Defined.

Definition usage_of_ddi (u : DdiKeyUsage) : outcome HsmErr EccKeyUsage :=
  match u with
  | DKU_SignVerify => Ok SignVerify
  | DKU_Derive => Ok KeyAgreement
  | _ => Err InvalidPermissions
  end.

Definition usage_flags (u : EccKeyUsage) (f : EntryAttributeFlags) : bool :=
  match u with
  | SignVerify => negb (negb (af_sign f) || negb (af_verify f))
  | KeyAgreement => af_derive f
  end.

Record EccKeyImported : Set := mkImported {
  kind : EccKeyKind;
  usage : EccKeyUsage;
  blob : list Z
}.

Definition imported_new (k : EccKeyKind) (u : EccKeyUsage) (val : list Z) :
    outcome HsmErr EccKeyImported :=
  b ← imported_blob len k val; Ok (mkImported k u b).

End Ecc.

Module Ecdh.

Inductive EcdhKeyKind : Set := EcdhSecret256 | EcdhSecret384 | EcdhSecret521.

Definition to_entry_kind (k : EcdhKeyKind) : EntryKind :=
  match k with
  | EcdhSecret256 => EK_Secret256
  | EcdhSecret384 => EK_Secret384
  | EcdhSecret521 => EK_Secret521
  end.

Definition of_entry_kind (k : EntryKind) : outcome HsmErr EcdhKeyKind :=
  match k with
  | EK_Secret256 => Ok EcdhSecret256
  | EK_Secret384 => Ok EcdhSecret384
  | EK_Secret521 => Ok EcdhSecret521
  | _ => Err InvalidKeyType
  end.

Definition of_curve (c : EccCurve) : EcdhKeyKind :=
  match c with P256 => EcdhSecret256 | P384 => EcdhSecret384 | P521 => EcdhSecret521 end.

Definition of_ddi (k : DdiKeyType) : outcome HsmErr EcdhKeyKind :=
  match k with
  | DKT_Secret256 => Ok EcdhSecret256
  | DKT_Secret384 => Ok EcdhSecret384
  | DKT_Secret521 => Ok EcdhSecret521
  | _ => Err InvalidKeyType
  end.

Definition len (k : EcdhKeyKind) : nat :=
  match k with EcdhSecret256 => 32 | EcdhSecret384 => 48 | EcdhSecret521 => 68 end.

Inductive EcdhKeyUsage : Set := KeyAgreement.
#[global] Instance EcdhKeyUsage_eq_dec : EqDecision EcdhKeyUsage.
Proof. solve_decision. Defined.

Definition usage_of_ddi (u : DdiKeyUsage) : outcome HsmErr EcdhKeyUsage :=
  match u with DKU_Derive => Ok KeyAgreement | _ => Err InvalidPermissions end.

Definition usage_flags (u : EcdhKeyUsage) (f : EntryAttributeFlags) : bool :=
  match u with KeyAgreement => af_derive f end.

Record EcdhKeyImported : Set := mkImported {
  kind : EcdhKeyKind;
  usage : EcdhKeyUsage;
  blob : list Z
}.

Definition imported_new (k : EcdhKeyKind) (u : EcdhKeyUsage) (val : list Z) :
    outcome HsmErr EcdhKeyImported :=
  b ← imported_blob len k val; Ok (mkImported k u b).

End Ecdh.

(** ** HMAC, fixed and variable length (key/hmac.rs) *)

Module Hmac.

Inductive HmacKeyKind : Set := HmacKey256 | HmacKey384 | HmacKey512.

Definition len (k : HmacKeyKind) : nat :=
  match k with HmacKey256 => 32 | HmacKey384 => 48 | HmacKey512 => 64 end.

Definition to_entry_kind (k : HmacKeyKind) : EntryKind :=
  match k with
  | HmacKey256 => EK_HmacSha256
  | HmacKey384 => EK_HmacSha384
  | HmacKey512 => EK_HmacSha512
  end.

Definition of_ddi (k : DdiKeyType) : outcome HsmErr HmacKeyKind :=
  match k with
  | DKT_HmacSha256 => Ok HmacKey256
  | DKT_HmacSha384 => Ok HmacKey384
  | DKT_HmacSha512 => Ok HmacKey512
  | _ => Err InvalidKeyType
  end.

Definition to_hash (k : HmacKeyKind) : DdiHashAlgorithm :=
  match k with HmacKey256 => DHA_Sha256 | HmacKey384 => DHA_Sha384 | HmacKey512 => DHA_Sha512 end.

Inductive HmacKeyUsage : Set := SignVerify | Derive.
#[global] Instance HmacKeyUsage_eq_dec : EqDecision HmacKeyUsage.
Proof. solve_decision. Defined.

Definition usage_of_ddi (u : DdiKeyUsage) : outcome HsmErr HmacKeyUsage :=
  match u with
  | DKU_SignVerify => Ok SignVerify
  | DKU_Derive => Ok Derive
  | _ => Err InvalidPermissions
  end.

(** Shared by [HmacKey::usage_allowed] and [VarLenHmacShaKey::usage_allowed]. *)
Definition usage_flags (u : HmacKeyUsage) (f : EntryAttributeFlags) : bool :=
  match u with
  | SignVerify => negb (negb (af_sign f) || negb (af_verify f))
  | Derive => af_derive f
  end.

(** [HmacKey::kind] *)
Definition of_entry_kind (k : EntryKind) : outcome HsmErr HmacKeyKind :=
  match k with
  | EK_HmacSha256 => Ok HmacKey256
  | EK_HmacSha384 => Ok HmacKey384
  | EK_HmacSha512 => Ok HmacKey512
  | _ => Err InvalidKeyType
  end.

Record HmacKeyImported : Set := mkImported {
  kind : HmacKeyKind;
  usage : HmacKeyUsage;
  blob : list Z
}.

Definition imported_new (k : HmacKeyKind) (u : HmacKeyUsage) (val : list Z) :
    outcome HsmErr HmacKeyImported :=
  b ← imported_blob len k val; Ok (mkImported k u b).

End Hmac.

Module VarHmac.

(** The kind, its bounds and its conversions from and to [EntryKind] are in
    [KeyEntry] ([VarLenHmacShaKeyKind], [min_length], [max_length]). *)

Definition of_ddi (k : DdiKeyType) : outcome HsmErr VarLenHmacShaKeyKind :=
  match k with
  | DKT_VarLenHmacSha256 => Ok VarLenHmacShaKey256
  | DKT_VarLenHmacSha384 => Ok VarLenHmacShaKey384
  | DKT_VarLenHmacSha512 => Ok VarLenHmacShaKey512
  | _ => Err InvalidKeyType
  end.

Definition to_hash (k : VarLenHmacShaKeyKind) : DdiHashAlgorithm :=
  match k with
  | VarLenHmacShaKey256 => DHA_Sha256
  | VarLenHmacShaKey384 => DHA_Sha384
  | VarLenHmacShaKey512 => DHA_Sha512
  end.

Record VarLenHmacShaKeyImported : Set := mkImported {
  kind : VarLenHmacShaKeyKind;
  usage : Hmac.HmacKeyUsage;
  blob : list Z;
  key_length : Z (* u8 *)
}.

Definition imported_new (k : VarLenHmacShaKeyKind) (u : Hmac.HmacKeyUsage) (val : list Z) :
    outcome HsmErr VarLenHmacShaKeyImported :=
  if (length val <? min_length k) || (max_length k <? length val) then Err InvalidKeyLength
  else Ok (mkImported k u val (wrap 8 (Z.of_nat (length val)))).

End VarHmac.

(** ** RSA (key/rsa.rs) *)

Module Rsa.

Inductive RsaKeyKind : Set :=
  | Rsa2kPrivate | Rsa3kPrivate | Rsa4kPrivate
  | Rsa2kPrivateCrt | Rsa3kPrivateCrt | Rsa4kPrivateCrt.

Definition to_entry_kind (k : RsaKeyKind) : EntryKind :=
  match k with
  | Rsa2kPrivate => EK_Rsa2kPrivate
  | Rsa3kPrivate => EK_Rsa3kPrivate
  | Rsa4kPrivate => EK_Rsa4kPrivate
  | Rsa2kPrivateCrt => EK_Rsa2kPrivateCrt
  | Rsa3kPrivateCrt => EK_Rsa3kPrivateCrt
  | Rsa4kPrivateCrt => EK_Rsa4kPrivateCrt
  end.

Definition of_entry_kind (k : EntryKind) : outcome HsmErr RsaKeyKind :=
  match k with
  | EK_Rsa2kPrivate => Ok Rsa2kPrivate
  | EK_Rsa3kPrivate => Ok Rsa3kPrivate
  | EK_Rsa4kPrivate => Ok Rsa4kPrivate
  | EK_Rsa2kPrivateCrt => Ok Rsa2kPrivateCrt
  | EK_Rsa3kPrivateCrt => Ok Rsa3kPrivateCrt
  | EK_Rsa4kPrivateCrt => Ok Rsa4kPrivateCrt
  | _ => Err InvalidKeyType
  end.

Definition len (k : RsaKeyKind) : nat :=
  match k with
  | Rsa2kPrivate => 516
  | Rsa3kPrivate => 772
  | Rsa4kPrivate => 1028
  | Rsa2kPrivateCrt => 1284
  | Rsa3kPrivateCrt => 1924
  | Rsa4kPrivateCrt => 2564
  end.

Inductive RsaKeyUsage : Set := SignVerify | EncryptDecrypt | Unwrap.
#[global] Instance RsaKeyUsage_eq_dec : EqDecision RsaKeyUsage.
Proof. solve_decision. Defined.

Definition usage_of_op (op : DdiRsaOpType) : outcome HsmErr RsaKeyUsage :=
  match op with
  | DRO_Sign => Ok SignVerify
  | DRO_Decrypt => Ok EncryptDecrypt
  | _ => Err InvalidArgument
  end.

Definition usage_of_ddi (u : DdiKeyUsage) : outcome HsmErr RsaKeyUsage :=
  match u with
  | DKU_SignVerify => Ok SignVerify
  | DKU_EncryptDecrypt => Ok EncryptDecrypt
  | _ => Err InvalidPermissions
  end.

Definition usage_flags (u : RsaKeyUsage) (f : EntryAttributeFlags) : bool :=
  match u with
  | SignVerify => negb (negb (af_sign f) || negb (af_verify f))
  | EncryptDecrypt => negb (negb (af_encrypt f) || negb (af_decrypt f))
  | Unwrap => af_unwrap f
  end.

Section key.
Context {S : Type} `{I : KeyStoreI S}.

Definition expected_data_len (s : S) (k : VaultKey) : outcome HsmErr nat :=
  kind ← VKey.kind s k;
  match kind with
  | EK_Rsa2kPrivate | EK_Rsa2kPrivateCrt => Ok (2048 / 8)
  | EK_Rsa3kPrivate | EK_Rsa3kPrivateCrt => Ok (3072 / 8)
  | EK_Rsa4kPrivate | EK_Rsa4kPrivateCrt => Ok (4096 / 8)
  | _ => Err InvalidKeyType
  end.

Definition is_crt_key (s : S) (k : VaultKey) : outcome HsmErr bool :=
  kind ← VKey.kind s k;
  Ok (bool_decide (kind = EK_Rsa2kPrivateCrt) || bool_decide (kind = EK_Rsa3kPrivateCrt)
      || bool_decide (kind = EK_Rsa4kPrivateCrt)).

Definition crt_param1_len (s : S) (k : VaultKey) : outcome HsmErr nat :=
  kind ← VKey.kind s k;
  match kind with
  | EK_Rsa2kPrivateCrt => Ok 512
  | EK_Rsa3kPrivateCrt => Ok 768
  | EK_Rsa4kPrivateCrt => Ok 1024
  | _ => Err InvalidKeyType
  end.

(** [RsaKey::blob]: refused for CRT keys. *)
Definition key_blob (s : S) (k : VaultKey) : outcome HsmErr (list Z) :=
  crt ← is_crt_key s k;
  if (crt : bool) then Err InvalidKeyType else VKey.blob s k.

(** [RsaKey::n]: the modulus. *)
Definition n (s : S) (k : VaultKey) : outcome HsmErr (list Z) :=
  blob ← VKey.blob s k;
  full_operand_len ← expected_data_len s k;
  crt ← is_crt_key s k;
  bounds ← (if (crt : bool) then
              start ← crt_param1_len s k; Ok (start, full_operand_len)
            else Ok (full_operand_len, full_operand_len));
  let '(start, len) := bounds in
  slice blob start len.

Definition crt_param1 (s : S) (k : VaultKey) : outcome HsmErr (list Z) :=
  len ← crt_param1_len s k;
  blob ← VKey.blob s k;
  if len <=? length blob then Ok (take len blob) else Panic.

Definition crt_param2 (s : S) (k : VaultKey) : outcome HsmErr (list Z) :=
  len ← crt_param1_len s k;
  blob ← VKey.blob s k;
  if len <=? length blob then Ok (drop len blob) else Panic.

End key.

Record RsaKeyImported : Set := mkImported {
  kind : RsaKeyKind;
  usage : RsaKeyUsage;
  blob : list Z
}.

Definition imported_new (k : RsaKeyKind) (u : RsaKeyUsage) (val : list Z) :
    outcome HsmErr RsaKeyImported :=
  b ← imported_blob len k val; Ok (mkImported k u b).

End Rsa.

(** ** Session keys (key/session.rs) *)

Module SessionK.

Definition SESSION_KEY_SIZE : nat := 8.
(** [lm_key_derive::MK_AES_CBC_256_HMAC384_SIZE_BYTES] *)
Definition MK_AES_CBC_256_HMAC384_SIZE_BYTES : nat := 80.
(** [SessionKeyKind::Session as usize], also [MAX_KEY_LEN] *)
Definition Session : nat := SESSION_KEY_SIZE + MK_AES_CBC_256_HMAC384_SIZE_BYTES.

Record SessionKeyToImport : Set := mkToImport { blob : list Z }.

Definition to_import_new (sk smk : list Z) : outcome HsmErr SessionKeyToImport :=
  if negb (length sk =? SESSION_KEY_SIZE)
     || negb (length smk =? MK_AES_CBC_256_HMAC384_SIZE_BYTES)
  then Err InvalidKeyType
  else
    b ← copy_from_slice (replicate Session 0%Z) 0 SESSION_KEY_SIZE sk;
    b ← copy_from_slice b SESSION_KEY_SIZE (Session - SESSION_KEY_SIZE) smk;
    Ok (mkToImport b).

Section key.
Context {S : Type} `{I : KeyStoreI S}.

Definition session_key_blob (s : S) (k : VaultKey) : outcome HsmErr (list Z) :=
  b ← VKey.blob s k; slice b 0 SESSION_KEY_SIZE.

(** [&b[SESSION_KEY_SIZE..]] *)
Definition masking_key_blob (s : S) (k : VaultKey) : outcome HsmErr (list Z) :=
  b ← VKey.blob s k; slice b SESSION_KEY_SIZE (length b - SESSION_KEY_SIZE).

End key.
End SessionK.

(** ** Session encryption, credential establishment and masking keys
      (key/session_enc.rs, key/establish_cred.rs, key/masking.rs)

    Each has one kind; the blob must have exactly its length. *)

Module FixedKey.

Definition SESSION_ENCRYPTION_LEN : nat := 144.
Definition ESTABLISH_CRED_LEN : nat := 144.
Definition MASKING_LEN : nat := 80.

Record ToImport : Set := mkToImport { blob : list Z }.

(** [SessionEncryptionKeyToImport::new], [EstablishCredEncryptionKeyToImport::new]
    and [MaskingKeyToImport::new] for a kind of length [len]. *)
Definition to_import_new (len : nat) (val : list Z) : outcome HsmErr ToImport :=
  if negb (length val =? len) then Err InvalidKeyType
  else
    b ← copy_from_slice (replicate len 0%Z) 0 len val;
    Ok (mkToImport b).

(** [TryFrom<DdiKeyUsage>] of the three usage types, and of [SessionKeyUsage]. *)
Definition agreement_usage_of_ddi (u : DdiKeyUsage) : outcome HsmErr () :=
  match u with DKU_Derive => Ok tt | _ => Err InvalidPermissions end.
Definition masking_usage_of_ddi (u : DdiKeyUsage) : outcome HsmErr () :=
  match u with DKU_EncryptDecrypt => Ok tt | _ => Err InvalidPermissions end.
Definition session_usage_of_ddi (u : DdiKeyUsage) : outcome HsmErr () :=
  Err InvalidPermissions.

End FixedKey.
