(* ===== verification/KeyVault.v ===== *)
(** * The key vault (hsm/src/partition/vault/mod.rs)

    The operations of [KeyVaultImpl], over any key store ([KeyStoreI]).  The
    public [KeyVault] forwards every call through its [RefCell]. *)

From stdpp Require Import base list numbers option.
From S2P Require Import Prelude HsmError KeyEntry StoreInterface VaultKeys.

Module Vault.
Section vault.
Context {S : Type} `{I : KeyStoreI S}.

Definition get_entry_index_by_tag (s : S) (app_id key_tag : Z) : outcome HsmErr Z :=
  ks_get_entry_index_by_tag s app_id key_tag.

Definition enable_key (key_id : Z) : M S HsmErr () := ks_enable_entry key_id.
Definition disable_key (key_id : Z) : M S HsmErr () := ks_disable_entry key_id.

(** [key]: the access check every opening goes through. *)
Definition key (s : S) (app session key_id : Z) (allow_disabled : bool) :
    outcome HsmErr VaultKey :=
  entry ← ks_get_entry s key_id allow_disabled;
  if negb (bool_decide (pe_app_id entry = app)) then Err InvalidPermissions
  else if ef_session (pe_flags entry)
          && negb (bool_decide (session_id entry = Some session)) then Err InvalidPermissions
  else Ok (mkVaultKey key_id).

Definition key_unchecked (key_id : Z) : VaultKey := mkVaultKey key_id.

Definition delete_key (app session key_id : Z) (predicate : Z → bool) : M S HsmErr () :=
  s ← get;
  _ ← lift (key s app session key_id true);
  ks_remove_entry predicate key_id.

Definition delete_all_session_keys (session : Z) (predicate : Z → bool) : M S HsmErr () :=
  _ ← ks_remove_all_session_only_entries predicate session; mret tt.

Definition delete_all_app_keys (app : Z) (predicate : Z → bool) : M S HsmErr () :=
  _ ← ks_remove_all_entries_for_app predicate app; mret tt.

Definition clear (s : S) : S := ks_nuke s.

(** ** Imports *)

Definition validate_key_params (availability : KeyAvailability) (tag : option Z) :
    outcome HsmErr () :=
  if bool_decide (availability = KA_Session) && bool_decide (is_Some tag)
  then Err InvalidArgument
  else match tag with
       | Some key_tag_val =>
           if bool_decide (key_tag_val = KEY_TAG_UNASSIGNED) then Err InvalidArgument else Ok tt
       | None => Ok tt
       end.

(** [sess_id_or_tag] of the imports. *)
Definition sess_id_or_tag (availability : KeyAvailability) (session : Z) (key_tag : option Z) : Z :=
  if bool_decide (availability = KA_Session) then session else default KEY_TAG_UNASSIGNED key_tag.

(** The attributes the typed imports build: session flag, local flag, usage. *)
Definition import_attributes (availability : KeyAvailability) (generated : bool)
    (usage : EntryAttributeFlags → EntryAttributeFlags) : EntryAttributes :=
  let a := map_flags (set_session (bool_decide (availability = KA_Session)))
             EntryAttributes_default in
  let a := if generated then map_flags (set_local true) a else a in
  map_flags usage a.

(** Validate, store, wrap: the common shape of the imports with a tag. *)
Definition import_entry (app session : Z) (key_tag : option Z) (availability : KeyAvailability)
    (attributes : EntryAttributes) (kind : EntryKind) (blob : outcome HsmErr (list Z)) :
    M S HsmErr VaultKey :=
  _ ← lift (validate_key_params availability key_tag);
  blob ← lift blob;
  key_id ← ks_add_entry attributes (sess_id_or_tag availability session key_tag) kind app blob;
  mret (key_unchecked key_id).

(** [if attributes.common.flags.session()] *)
Definition availability_of (attributes : EntryAttributes) : KeyAvailability :=
  if af_session (ea_flags attributes) then KA_Session else KA_App.

Definition aes_import_key (app session : Z) (key_tag : option Z) (key : Aes.AesKeyImported)
    (attributes : EntryAttributes) : M S HsmErr VaultKey :=
  let f := ea_flags attributes in
  _ ← match Aes.usage key with
      | Aes.EncryptDecrypt =>
          unless (negb (negb (af_encrypt f) || negb (af_decrypt f))) InvalidArgument
      end;
  import_entry app session key_tag (availability_of attributes) attributes
    (Aes.to_entry_kind (Aes.kind key)) (slice (Aes.blob key) 0 (Aes.len (Aes.kind key))).

Definition ecc_usage_setter (u : Ecc.EccKeyUsage) : EntryAttributeFlags → EntryAttributeFlags :=
  match u with
  | Ecc.SignVerify => λ f, set_verify true (set_sign true f)
  | Ecc.KeyAgreement => set_derive true
  end.

Definition ecc_import_key (app session : Z) (key_tag : option Z) (generated : bool)
    (key : Ecc.EccKeyImported) (availability : KeyAvailability) : M S HsmErr VaultKey :=
  import_entry app session key_tag availability
    (import_attributes availability generated (ecc_usage_setter (Ecc.usage key)))
    (Ecc.to_entry_kind (Ecc.kind key)) (slice (Ecc.blob key) 0 (Ecc.len (Ecc.kind key))).

Definition ecdh_usage_setter (u : Ecdh.EcdhKeyUsage) :
    EntryAttributeFlags → EntryAttributeFlags :=
  match u with Ecdh.KeyAgreement => set_derive true end.

Definition ecdh_import_key (app session : Z) (key_tag : option Z) (generated : bool)
    (key : Ecdh.EcdhKeyImported) (availability : KeyAvailability) : M S HsmErr VaultKey :=
  import_entry app session key_tag availability
    (import_attributes availability generated (ecdh_usage_setter (Ecdh.usage key)))
    (Ecdh.to_entry_kind (Ecdh.kind key)) (slice (Ecdh.blob key) 0 (Ecdh.len (Ecdh.kind key))).

Definition hmac_usage_setter (u : Hmac.HmacKeyUsage) : EntryAttributeFlags → EntryAttributeFlags :=
  match u with
  | Hmac.SignVerify => λ f, set_verify true (set_sign true f)
  | Hmac.Derive => set_derive true
  end.

Definition hmac_import_key (app session : Z) (key_tag : option Z) (generated : bool)
    (key : Hmac.HmacKeyImported) (availability : KeyAvailability) : M S HsmErr VaultKey :=
  import_entry app session key_tag availability
    (import_attributes availability generated (hmac_usage_setter (Hmac.usage key)))
    (Hmac.to_entry_kind (Hmac.kind key)) (slice (Hmac.blob key) 0 (Hmac.len (Hmac.kind key))).

Definition rsa_usage_setter (u : Rsa.RsaKeyUsage) : EntryAttributeFlags → EntryAttributeFlags :=
  match u with
  | Rsa.SignVerify => λ f, set_verify true (set_sign true f)
  | Rsa.EncryptDecrypt => λ f, set_decrypt true (set_encrypt true f)
  | Rsa.Unwrap => set_unwrap true
  end.

Definition rsa_import_key (app session : Z) (key_tag : option Z) (generated : bool)
    (key : Rsa.RsaKeyImported) (availability : KeyAvailability) : M S HsmErr VaultKey :=
  import_entry app session key_tag availability
    (import_attributes availability generated (rsa_usage_setter (Rsa.usage key)))
    (Rsa.to_entry_kind (Rsa.kind key)) (slice (Rsa.blob key) 0 (Rsa.len (Rsa.kind key))).

(** [attributes.entry_specific[KEY_LENGTH_INDEX] = key.length()] *)
Definition set_key_length (len : Z) (a : EntryAttributes) : EntryAttributes :=
  mkEntryAttributes (ea_common a) (<[KEY_LENGTH_INDEX := len]> (ea_entry_specific a)).

Definition import_var_hmac_key (app session : Z) (key_tag : option Z) (generated : bool)
    (key : VarHmac.VarLenHmacShaKeyImported) (availability : KeyAvailability) :
    M S HsmErr VaultKey :=
  import_entry app session key_tag availability
    (set_key_length (VarHmac.key_length key)
       (import_attributes availability generated (hmac_usage_setter (VarHmac.usage key))))
    (EntryKind_from_var_hmac (VarHmac.kind key))
    (slice (VarHmac.blob key) 0 (Z.to_nat (VarHmac.key_length key))).

(** The imports of the partition's own keys: no session, no tag, local. *)
Definition import_internal (app : Z) (usage : EntryAttributeFlags → EntryAttributeFlags)
    (kind : EntryKind) (blob : outcome HsmErr (list Z)) : M S HsmErr VaultKey :=
  let a := map_flags (set_session false) EntryAttributes_default in
  let a := map_flags (set_local true) a in
  let a := map_flags usage a in
  blob ← lift blob;
  key_id ← ks_add_entry a KEY_TAG_UNASSIGNED kind app blob;
  mret (key_unchecked key_id).

Definition import_establish_cred_encryption_key (app : Z) (key : FixedKey.ToImport) :
    M S HsmErr VaultKey :=
  import_internal app (set_derive true) EK_EstablishCred
    (slice (FixedKey.blob key) 0 FixedKey.ESTABLISH_CRED_LEN).

Definition import_session_encryption_key (app : Z) (key : FixedKey.ToImport) :
    M S HsmErr VaultKey :=
  import_internal app (set_derive true) EK_SessionEncryption
    (slice (FixedKey.blob key) 0 FixedKey.SESSION_ENCRYPTION_LEN).

Definition import_session_key (app : Z) (key : SessionK.SessionKeyToImport) :
    M S HsmErr VaultKey :=
  import_internal app id EK_Session (slice (SessionK.blob key) 0 SessionK.Session).

Definition import_masking_key (app : Z) (key : FixedKey.ToImport) : M S HsmErr VaultKey :=
  import_internal app (λ f, set_decrypt true (set_encrypt true f)) EK_MaskingKey
    (slice (FixedKey.blob key) 0 FixedKey.MASKING_LEN).

Definition import_raw_key (app_id session : Z) (key_tag : option Z) (kind : EntryKind)
    (attributes : EntryAttributes) (blob : list Z) : M S HsmErr Z :=
  let availability := availability_of attributes in
  _ ← lift (validate_key_params availability key_tag);
  ks_add_entry attributes (sess_id_or_tag availability session key_tag) kind app_id blob.

(** ** Openings *)

(** Open, convert to the family, check the intended usage. *)
Definition open_key {U} (classes : list EntryClass) (flags : U → EntryAttributeFlags → bool)
    (s : S) (app session key_id : Z) (intent : option U) : outcome HsmErr VaultKey :=
  k ← key s app session key_id false;
  k ← VKey.try_from_class classes s k;
  _ ← match intent with Some u => VKey.require (flags u) s k | None => Ok tt end;
  Ok k.

Definition aes_open_key (s : S) (app session key_id : Z) (intent : Aes.AesKeyUsage) :
    outcome HsmErr VaultKey :=
  open_key [EC_Aes] Aes.usage_flags s app session key_id (Some intent).

Definition ecc_open_key (s : S) (app session key_id : Z) (intent : option Ecc.EccKeyUsage) :
    outcome HsmErr VaultKey :=
  open_key [EC_Ecc] Ecc.usage_flags s app session key_id intent.

Definition ecdh_open_key (s : S) (app session key_id : Z) (intent : option Ecdh.EcdhKeyUsage) :
    outcome HsmErr VaultKey :=
  open_key [EC_Secret] Ecdh.usage_flags s app session key_id intent.

Definition hmac_open_key (s : S) (app session key_id : Z) (intent : option Hmac.HmacKeyUsage) :
    outcome HsmErr VaultKey :=
  open_key [EC_Hmac] Hmac.usage_flags s app session key_id intent.

Definition var_hmac_open_key (s : S) (app session key_id : Z)
    (intent : option Hmac.HmacKeyUsage) : outcome HsmErr VaultKey :=
  open_key [EC_VarLenHmacSha] Hmac.usage_flags s app session key_id intent.

Definition rsa_open_key (s : S) (app session key_id : Z) (intent : option Rsa.RsaKeyUsage) :
    outcome HsmErr VaultKey :=
  open_key [EC_Rsa; EC_RsaCrt] Rsa.usage_flags s app session key_id intent.

Definition open_establish_cred_encryption_key (s : S) (app key_id : Z) :
    outcome HsmErr VaultKey :=
  k ← key s app KEY_TAG_UNASSIGNED key_id false;
  VKey.try_from_class [EC_Ecc] s k.

Definition open_session_encryption_key (s : S) (app key_id : Z) : outcome HsmErr VaultKey :=
  k ← key s app KEY_TAG_UNASSIGNED key_id false;
  VKey.try_from_kind EK_SessionEncryption s k.

Definition open_session_key (s : S) (app key_id : Z) (allow_disabled : bool) :
    outcome HsmErr VaultKey :=
  k ← key s app KEY_TAG_UNASSIGNED key_id allow_disabled;
  VKey.try_from_kind EK_Session s k.

Definition open_masking_key (s : S) (app key_id : Z) : outcome HsmErr VaultKey :=
  k ← key s app KEY_TAG_UNASSIGNED key_id false;
  VKey.try_from_class [EC_MaskingKey] s k.

End vault.
End Vault.
