(* ===== verification/VaultProps.v ===== *)
(** * Correctness of the key vault

    Access control, typed import and open, deletion and the tag discipline,
    all proved against the store interface [KeyStoreSpec]. *)

From stdpp Require Import base list numbers option gmap.
From S2P Require Import Prelude HsmError KeyEntry Crates KeyTable KeyTableSpec KeyTableRefine KeyTableOps KeyTableProps KeyStore KeyStoreProps StoreInterface KeyStoreTheorems VaultKeys KeyVault.

(** ** Access control, abstractly *)

(** Who may open a key: its application, and for a session-only key its
    session. *)
Definition may_access (app session : Z) (le : LogicalEntry) : Prop :=
  le_app_id le = app ∧ (ef_session (le_flags le) = true → le_session_id_or_key_tag le = session).
#[global] Instance may_access_dec app session le : Decision (may_access app session le).
Proof. unfold may_access. apply _. Defined.

Definition access (o : option LogicalEntry) (app session : Z) (allow_disabled : bool) :
    outcome HsmErr LogicalEntry :=
  le ← spec_lookup o allow_disabled;
  if decide (may_access app session le) then Ok le else Err InvalidPermissions.

Section vault_props.
Context {S : Type} `{Spec : KeyStoreSpec S}.
Implicit Types (s : S) (K : KeyMap).

Lemma vault_key_rep s K app session n allow :
  ks_rep s K → uint_range 16 n →
  Vault.key s app session n allow = (λ _, mkVaultKey n) <$> access (K !! n) app session allow.
Proof.
  intros HK Hn. unfold Vault.key, access.
  destruct (ks_get_entry_law s K n allow HK Hn) as [off ->].
  destruct (spec_lookup (K !! n) allow) as [le|e|]; [|done..]. cbn.
  unfold session_id. cbn.
  destruct (decide (may_access app session le)) as [Hm|Hm]; unfold may_access in Hm;
    destruct (ef_session (le_flags le)); cbn; repeat case_bool_decide; naive_solver.
Qed.

Lemma spec_lookup_true o : spec_lookup o true = match o with Some le => Ok le | None => Err InvalidKeyIndex end.
Proof. by destruct o. Qed.

Lemma vkey_kind_rep s K n :
  ks_rep s K → uint_range 16 n →
  VKey.kind s (mkVaultKey n) = match K !! n with Some le => Ok (le_kind le) | None => Err InvalidKeyIndex end.
Proof.
  intros HK Hn. unfold VKey.kind. cbn [vk_key_id].
  destruct (ks_get_entry_law s K n true HK Hn) as [off ->].
  rewrite spec_lookup_true. by destruct (K !! n).
Qed.

Lemma vkey_attributes_rep s K n :
  ks_rep s K → uint_range 16 n →
  VKey.attributes s (mkVaultKey n)
    = match K !! n with Some le => Ok (le_attributes le) | None => Err InvalidKeyIndex end.
Proof.
  intros HK Hn. unfold VKey.attributes. cbn [vk_key_id].
  rewrite (ks_get_entry_attributes_law s K) by done. rewrite spec_lookup_true. by destruct (K !! n).
Qed.

Lemma vkey_blob_rep s K n :
  ks_rep s K → uint_range 16 n →
  VKey.blob s (mkVaultKey n)
    = match K !! n with Some le => Ok (le_blob le) | None => Err InvalidKeyIndex end.
Proof.
  intros HK Hn. unfold VKey.blob. cbn [vk_key_id].
  rewrite (ks_get_entry_blob_law s K) by done. rewrite spec_lookup_true. by destruct (K !! n).
Qed.

Lemma access_Some o app session allow le : access o app session allow = Ok le → o = Some le.
Proof.
  unfold access, spec_lookup. destruct o as [le'|]; [|done].
  destruct (negb allow && _); [done|]. cbn. case_decide; naive_solver.
Qed.

(** What an opening answers: the access check, then the family, then the
    usage flags. *)
Definition open_spec (o : option LogicalEntry) (app session : Z) (classes : list EntryClass)
    (allowed : EntryAttributeFlags → bool) : outcome HsmErr () :=
  le ← access o app session false;
  if decide (EntryClass_from (le_kind le) ∈ classes) then
    if allowed (ea_flags (le_attributes le)) then Ok tt else Err InvalidPermissions
  else Err InvalidKeyType.

Definition intent_allowed {U} (flags : U → EntryAttributeFlags → bool) (intent : option U)
    (f : EntryAttributeFlags) : bool :=
  match intent with Some u => flags u f | None => true end.

Lemma open_key_rep {U} classes (flags : U → EntryAttributeFlags → bool) s K app session n intent :
  ks_rep s K → uint_range 16 n →
  Vault.open_key classes flags s app session n intent
    = (λ _, mkVaultKey n) <$> open_spec (K !! n) app session classes (intent_allowed flags intent).
Proof.
  intros HK Hn. unfold Vault.open_key, open_spec.
  rewrite (vault_key_rep s K) by done.
  destruct (access (K !! n) app session false) as [le|e|] eqn:Ha; [|done..]. cbn.
  apply access_Some in Ha.
  unfold VKey.try_from_class, VKey.class. rewrite (vkey_kind_rep s K), Ha by done. cbn.
  case_bool_decide; case_decide; try done. cbn.
  destruct intent as [u|]; [|done]. unfold VKey.require.
  rewrite (vkey_attributes_rep s K), Ha by done. cbn.
  by destruct (flags u _).
Qed.

(** ** Imports *)

Definition import_le (app session : Z) (key_tag : option Z) (availability : KeyAvailability)
    (attributes : EntryAttributes) (kind : EntryKind) (blob : list Z) : LogicalEntry :=
  new_entry attributes (Vault.sess_id_or_tag availability session key_tag) kind app blob.

Lemma import_entry_rep app session tag avail attributes kind blob s K :
  ks_rep s K → attributes_wf attributes →
  ∃ r s', Vault.import_entry app session tag avail attributes kind (Ok blob) s = (r, s') ∧
    match r with
    | Ok k => Vault.validate_key_params avail tag = Ok tt ∧
        ∃ n, k = mkVaultKey n ∧ uint_range 16 n ∧ K !! n = None ∧
          ks_rep s' (<[n := import_le app session tag avail attributes kind blob]> K)
    | Err e => s' = s
    | Panic => False
    end.
Proof.
  intros HK Hwf. unfold Vault.import_entry, lift, mbind, mret, M_bind, M_ret.
  destruct (Vault.validate_key_params avail tag) as [[]|e|] eqn:Hv.
  - destruct (ks_add_entry_law s K attributes (Vault.sess_id_or_tag avail session tag) kind app
      blob HK Hwf) as (r & s' & -> & Hlaw).
    destruct r as [n|e|]; [|by eexists _, _; split; [done|apply Hlaw]|done].
    destruct Hlaw as (Hn & Hnone & HK' & _). eexists _, s'. split; [done|].
    split; [done|]. exists n. done.
  - by eexists _, _.
  - unfold Vault.validate_key_params in Hv. repeat case_match; done.
Qed.

(** The usage setters touch neither the session flag nor the reserved bits. *)
Record usage_setter (g : EntryAttributeFlags → EntryAttributeFlags) : Prop := {
  us_rsvd f : af_rsvd (g f) = af_rsvd f;
  us_session f : af_session (g f) = af_session f
}.

Lemma rsa_usage_setter_ok u : usage_setter (Vault.rsa_usage_setter u).
Proof. by split; intros []; destruct u. Qed.
Lemma ecc_usage_setter_ok u : usage_setter (Vault.ecc_usage_setter u).
Proof. by split; intros []; destruct u. Qed.
Lemma ecdh_usage_setter_ok u : usage_setter (Vault.ecdh_usage_setter u).
Proof. by split; intros []; destruct u. Qed.
Lemma hmac_usage_setter_ok u : usage_setter (Vault.hmac_usage_setter u).
Proof. by split; intros []; destruct u. Qed.

Lemma import_attributes_wf avail generated usage :
  usage_setter usage → attributes_wf (Vault.import_attributes avail generated usage).
Proof.
  intros [Hu _]. unfold Vault.import_attributes, attributes_wf.
  destruct generated; cbn -[replicate]; rewrite ?Hu; cbn; split_and!; try done;
    by repeat constructor.
Qed.

(** An imported key opens for its owner with the flags it was given. *)
Lemma import_entry_open {U} (flags : U → EntryAttributeFlags → bool) classes
    app session tag avail attributes kind blob s K k s' app' session' intent :
  ks_rep s K → attributes_wf attributes →
  af_session (ea_flags attributes) = bool_decide (avail = KA_Session) →
  Vault.import_entry app session tag avail attributes kind (Ok blob) s = (Ok k, s') →
  EntryClass_from kind ∈ classes →
  VKey.blob s' k = Ok blob ∧
  Vault.open_key classes flags s' app' session' (vk_key_id k) intent =
    if bool_decide (app' = app) && (bool_decide (avail = KA_App) || bool_decide (session' = session))
       && intent_allowed flags intent (ea_flags attributes)
    then Ok k else Err InvalidPermissions.
Proof.
  intros HK Hwf Hsess Himp Hclass.
  destruct (import_entry_rep app session tag avail attributes kind blob s K HK Hwf)
    as (r & s1 & Heq & Hr). rewrite Himp in Heq. injection Heq as <- <-.
  destruct Hr as (_ & n & -> & Hn & _ & HK'). cbn [vk_key_id].
  split; [by rewrite (vkey_blob_rep s' _ n HK' Hn), lookup_insert_eq|].
  rewrite (open_key_rep classes flags s' _ app' session' n intent HK' Hn), lookup_insert_eq.
  unfold open_spec, access, spec_lookup. cbn [import_le new_entry le_flags EntryFlags_from
    ef_disabled EntryFlags_default andb negb mbind outcome_bind le_app_id le_kind le_attributes].
  match goal with |- context [decide (may_access ?a ?b ?c)] =>
    destruct (decide (may_access a b c)) as [Hm|Hm] end;
    unfold may_access in Hm; cbn in Hm; rewrite Hsess in Hm;
    unfold Vault.sess_id_or_tag in Hm; cbn.
  - rewrite decide_True by done. destruct Hm as [-> Hm].
    rewrite (bool_decide_true (app' = app')) by done.
    assert ((bool_decide (avail = KA_App) || bool_decide (session' = session)) = true) as ->.
    { destruct avail; cbn in *; [done|]. apply bool_decide_true. symmetry. by apply Hm. }
    cbn. by destruct (intent_allowed _ _ _).
  - destruct (decide (app' = app)) as [->|Happ]; [|by rewrite (bool_decide_false (app' = app))].
    rewrite (bool_decide_true (app = app)) by done. cbn.
    destruct avail; cbn in *; [naive_solver|].
    rewrite (bool_decide_false (session' = session)) by naive_solver. done.
Qed.

(** C6: [KeyVault::key] is the access check: a number without an entry, or
    with a disabled one unless disabled keys are allowed, is
    [InvalidKeyIndex]; an entry of another application, or a session-only
    entry of another session, is [InvalidPermissions]; every other entry is
    opened. *)
Theorem vault_key_access_exact s K app session n allow :
  ks_rep s K → uint_range 16 n →
  Vault.key s app session n allow =
    match K !! n with
    | None => Err InvalidKeyIndex
    | Some le =>
        if negb allow && ef_disabled (le_flags le) then Err InvalidKeyIndex
        else if bool_decide (le_app_id le = app)
                && (negb (ef_session (le_flags le))
                    || bool_decide (le_session_id_or_key_tag le = session))
        then Ok (mkVaultKey n) else Err InvalidPermissions
    end.
Proof.
  intros HK Hn. rewrite (vault_key_rep s K) by done. unfold access, spec_lookup.
  destruct (K !! n) as [le|]; [|done]. destruct (negb allow && _); [done|]. cbn.
  destruct (decide (may_access app session le)) as [Hm|Hm]; unfold may_access in Hm;
    destruct (ef_session (le_flags le)); cbn; repeat case_bool_decide; naive_solver.
Qed.

(** Every typed opening ([aes_key], [ecc_key], [ecdh_key], [hmac_key],
    [var_hmac_key], [rsa_key]) answers exactly [open_spec]: the access check
    for an enabled key first, then [InvalidKeyType] for another family, then
    [InvalidPermissions] when the attribute flags do not allow the intended
    usage. *)
Theorem typed_open_exact s K app session n :
  ks_rep s K → uint_range 16 n →
  let opened classes allowed :=
    (λ _, mkVaultKey n) <$> open_spec (K !! n) app session classes allowed in
  (∀ u, Vault.aes_open_key s app session n u = opened [EC_Aes] (Aes.usage_flags u)) ∧
  (∀ i, Vault.ecc_open_key s app session n i
          = opened [EC_Ecc] (intent_allowed Ecc.usage_flags i)) ∧
  (∀ i, Vault.ecdh_open_key s app session n i
          = opened [EC_Secret] (intent_allowed Ecdh.usage_flags i)) ∧
  (∀ i, Vault.hmac_open_key s app session n i
          = opened [EC_Hmac] (intent_allowed Hmac.usage_flags i)) ∧
  (∀ i, Vault.var_hmac_open_key s app session n i
          = opened [EC_VarLenHmacSha] (intent_allowed Hmac.usage_flags i)) ∧
  (∀ i, Vault.rsa_open_key s app session n i
          = opened [EC_Rsa; EC_RsaCrt] (intent_allowed Rsa.usage_flags i)).
Proof. intros HK Hn. split_and!; intros; by apply open_key_rep. Qed.

(** ** Typed round trips *)

Lemma imported_blob_slice {Kd} (len : Kd → nat) kind (val b : list Z) :
  imported_blob len kind val = Ok b → b = val ∧ slice (E := HsmErr) b 0 (len kind) = Ok val.
Proof.
  unfold imported_blob. destruct (Nat.eqb_spec (length val) (len kind)) as [He|]; [|done].
  intros [= <-]. split; [done|]. unfold slice. rewrite decide_True by lia.
  rewrite drop_0, <- He, take_ge by lia. done.
Qed.

Lemma import_attributes_session avail generated usage :
  usage_setter usage →
  af_session (ea_flags (Vault.import_attributes avail generated usage))
    = bool_decide (avail = KA_Session).
Proof. intros [_ Hu]. unfold Vault.import_attributes. by destruct generated; cbn; rewrite Hu. Qed.

(** The owner: same application, and the same session unless the key is
    available to the whole application. *)
Definition owner (avail : KeyAvailability) (app session app' session' : Z) : bool :=
  bool_decide (app' = app) && (bool_decide (avail = KA_App) || bool_decide (session' = session)).

(** The shared shape of the typed round trips. *)
Lemma typed_import_rep {Kd U} (len : Kd → nat) (kd : Kd) (kind : EntryKind) `{EqDecision U} (flags : U → _)
    (setter : U → EntryAttributeFlags → EntryAttributeFlags) classes
    s K app session tag generated u val b avail k s' app' session' u' :
  ks_rep s K → imported_blob len kd val = Ok b → usage_setter (setter u) →
  EntryClass_from kind ∈ classes →
  (∀ g, flags u' (ea_flags (Vault.import_attributes avail g (setter u)))
        = bool_decide (u' = u)) →
  Vault.import_entry app session tag avail (Vault.import_attributes avail generated (setter u))
    kind (slice b 0 (len kd)) s = (Ok k, s') →
  VKey.blob s' k = Ok val ∧
  Vault.open_key classes flags s' app' session' (vk_key_id k) (Some u') =
    if owner avail app session app' session' && bool_decide (u' = u)
    then Ok k else Err InvalidPermissions.
Proof.
  intros HK Hb Hset Hclass Hflags Himp. apply imported_blob_slice in Hb as [-> Hsl].
  rewrite Hsl in Himp.
  destruct (import_entry_open flags classes _ _ _ _ _ _ _ _ _ _ _ app' session' (Some u') HK
    (import_attributes_wf _ _ _ Hset) (import_attributes_session _ _ _ Hset) Himp Hclass)
    as [H1 H2].
  split; [done|]. rewrite H2. unfold owner. cbn [intent_allowed]. by rewrite Hflags.
Qed.

(** C13: what an RSA, ECC, ECDH or HMAC import stores, the typed opening gives
    back: the blob reads back, the owner (same application, and same session
    for a session-only key) opens it for exactly the usages of its import,
    and every other attempt is [InvalidPermissions]. *)
Theorem import_open_roundtrip s K app session tag generated avail k s' app' session' :
  ks_rep s K →
  let own := owner avail app session app' session' in
  (∀ kind u u' val key, Rsa.imported_new kind u val = Ok key →
     Vault.rsa_import_key app session tag generated key avail s = (Ok k, s') →
     VKey.blob s' k = Ok val ∧
     Vault.rsa_open_key s' app' session' (vk_key_id k) (Some u') =
       if own && bool_decide (u' = u)
       then Ok k else Err InvalidPermissions) ∧
  (∀ kind u u' val key, Ecc.imported_new kind u val = Ok key →
     Vault.ecc_import_key app session tag generated key avail s = (Ok k, s') →
     VKey.blob s' k = Ok val ∧
     Vault.ecc_open_key s' app' session' (vk_key_id k) (Some u') =
       if own && bool_decide (u' = u)
       then Ok k else Err InvalidPermissions) ∧
  (∀ kind u u' val key, Ecdh.imported_new kind u val = Ok key →
     Vault.ecdh_import_key app session tag generated key avail s = (Ok k, s') →
     VKey.blob s' k = Ok val ∧
     Vault.ecdh_open_key s' app' session' (vk_key_id k) (Some u') =
       if own && bool_decide (u' = u)
       then Ok k else Err InvalidPermissions) ∧
  (∀ kind u u' val key, Hmac.imported_new kind u val = Ok key →
     Vault.hmac_import_key app session tag generated key avail s = (Ok k, s') →
     VKey.blob s' k = Ok val ∧
     Vault.hmac_open_key s' app' session' (vk_key_id k) (Some u') =
       if own && bool_decide (u' = u)
       then Ok k else Err InvalidPermissions).
Proof.
  intros HK own. split_and!; intros kind u u' val key Hnew Himp;
    apply outcome_bind_Ok in Hnew as (b & Hb & [= <-]).
  - eapply (typed_import_rep Rsa.len kind (Rsa.to_entry_kind kind) Rsa.usage_flags
      Vault.rsa_usage_setter [EC_Rsa; EC_RsaCrt]); try done.
    + apply rsa_usage_setter_ok.
    + destruct kind; cbn; set_solver.
    + intros []; by destruct avail, u, u'.
  - eapply (typed_import_rep Ecc.len kind (Ecc.to_entry_kind kind) Ecc.usage_flags
      Vault.ecc_usage_setter [EC_Ecc]); try done.
    + apply ecc_usage_setter_ok.
    + destruct kind; cbn; set_solver.
    + intros []; by destruct avail, u, u'.
  - eapply (typed_import_rep Ecdh.len kind (Ecdh.to_entry_kind kind) Ecdh.usage_flags
      Vault.ecdh_usage_setter [EC_Secret]); try done.
    + apply ecdh_usage_setter_ok.
    + destruct kind; cbn; set_solver.
    + intros []; by destruct avail, u, u'.
  - eapply (typed_import_rep Hmac.len kind (Hmac.to_entry_kind kind) Hmac.usage_flags
      Vault.hmac_usage_setter [EC_Hmac]); try done.
    + apply hmac_usage_setter_ok.
    + destruct kind; cbn; set_solver.
    + intros []; by destruct avail, u, u'.
Qed.

(** The variable-length HMAC import stores the length next to the blob. *)
Lemma set_key_length_wf n a :
  attributes_wf a → uint_range 8 n → attributes_wf (Vault.set_key_length n a).
Proof.
  intros (H1 & H2 & H3 & H4 & H5) Hn. unfold Vault.set_key_length, attributes_wf.
  split_and!; try done.
  - cbn. by rewrite length_insert.
  - cbn. by apply Forall_insert.
Qed.

(** A variable-length HMAC key of any accepted length (32 to 128 bytes by
    kind) reads back whole: the length byte the import writes into the
    attributes is the length the lookups use.  Its owner opens it for the
    usage of its import, nobody else. *)
Theorem var_hmac_import_open s K app session tag generated avail k s' app' session'
    kind u u' val key :
  ks_rep s K → VarHmac.imported_new kind u val = Ok key →
  Vault.import_var_hmac_key app session tag generated key avail s = (Ok k, s') →
  VKey.blob s' k = Ok val ∧
  Vault.var_hmac_open_key s' app' session' (vk_key_id k) (Some u') =
    if owner avail app session app' session' && bool_decide (u' = u)
    then Ok k else Err InvalidPermissions.
Proof.
  intros HK Hnew Himp. unfold VarHmac.imported_new in Hnew.
  destruct (_ || _) eqn:Hlen; [done|]. injection Hnew as <-.
  apply orb_false_iff in Hlen as [_ Hmax]. apply Nat.ltb_ge in Hmax.
  assert (max_length kind ≤ 128) as H128 by (destruct kind; cbn; lia).
  assert (uint_range 8 (Z.of_nat (length val))) as Hl8 by (unfold uint_range; lia).
  unfold Vault.import_var_hmac_key in Himp.
  cbn [VarHmac.kind VarHmac.usage VarHmac.blob VarHmac.key_length] in Himp.
  rewrite wrap_small, Nat2Z.id in Himp by done.
  assert (slice (E := HsmErr) val 0 (length val) = Ok val) as Hsl.
  { unfold slice. rewrite decide_True by lia. by rewrite drop_0, take_ge by lia. }
  rewrite Hsl in Himp.
  pose proof (hmac_usage_setter_ok u) as Hset.
  destruct (import_entry_open Hmac.usage_flags [EC_VarLenHmacSha] _ _ _ _ _ _ _ _ _ _ _
    app' session' (Some u') HK (set_key_length_wf _ _ (import_attributes_wf _ _ _ Hset) Hl8)
    (import_attributes_session _ generated _ Hset) Himp) as [H1 H2].
  { destruct kind; cbn; set_solver. }
  split; [done|]. unfold Vault.var_hmac_open_key. rewrite H2. unfold owner.
  cbn [intent_allowed]. f_equal. f_equal. by destruct generated, avail, u, u'.
Qed.

(** An AES import: the attributes must allow both encryption and
    decryption, else [InvalidArgument]; the stored key opens as an AES key
    for its owner exactly when it is not one of the bulk kinds, which
    [aes_key] refuses with [InvalidKeyType] even to the owner. *)
Theorem aes_import_open s K app session tag key attributes r s' :
  ks_rep s K → attributes_wf attributes → length (Aes.blob key) = Aes.len (Aes.kind key) →
  Vault.aes_import_key app session tag key attributes s = (r, s') →
  (af_encrypt (ea_flags attributes) && af_decrypt (ea_flags attributes) = false →
     r = Err InvalidArgument ∧ s' = s) ∧
  ∀ k, r = Ok k →
    VKey.blob s' k = Ok (Aes.blob key) ∧
    Vault.aes_open_key s' app session (vk_key_id k) Aes.EncryptDecrypt =
      if is_bulk_key (Aes.to_entry_kind (Aes.kind key)) then Err InvalidKeyType else Ok k.
Proof.
  intros HK Hwf Hlen Himp. unfold Vault.aes_import_key in Himp.
  destruct (Aes.usage key). unfold unless, throw, mret, M_ret, mbind, M_bind in Himp.
  destruct (af_encrypt (ea_flags attributes)) eqn:He, (af_decrypt (ea_flags attributes)) eqn:Hd;
    cbn [negb orb andb] in Himp |- *; try (injection Himp as <- <-; split; [done|by intros k]).
  split; [done|]. intros k ->.
  assert (slice (E := HsmErr) (Aes.blob key) 0 (Aes.len (Aes.kind key)) = Ok (Aes.blob key)) as Hsl.
  { unfold slice. rewrite decide_True by lia. by rewrite drop_0, take_ge by lia. }
  rewrite Hsl in Himp.
  destruct (import_entry_rep app session tag (Vault.availability_of attributes) attributes
    (Aes.to_entry_kind (Aes.kind key)) (Aes.blob key) s K HK Hwf) as (r & s1 & Heq & Hr).
  rewrite Himp in Heq. injection Heq as <- <-. destruct Hr as (_ & n & -> & Hn & _ & HK').
  cbn [vk_key_id]. split; [by rewrite (vkey_blob_rep s' _ n HK' Hn), lookup_insert_eq|].
  unfold Vault.aes_open_key. rewrite (open_key_rep [EC_Aes] Aes.usage_flags s' _ app session n _ HK' Hn).
  rewrite lookup_insert_eq. unfold open_spec, access, spec_lookup. cbn.
  rewrite decide_True.
  - cbn. rewrite He, Hd. by destruct (Aes.kind key).
  - unfold may_access. cbn. split; [done|]. intros Hs. unfold Vault.availability_of. by rewrite Hs.
Qed.

(** ** Deletion *)

(** [KeyVault::delete_key] removes nothing the caller may not open (the
    check's error, the state unchanged); a key in use is disabled and kept
    with [CannotDeleteKeyInUse]; otherwise exactly that key disappears.
    Disabled keys can be deleted. *)
Theorem delete_key_exact s K app session n pred :
  ks_rep s K → uint_range 16 n →
  match access (K !! n) app session true with
  | Ok le => ∃ s', Vault.delete_key app session n pred s
      = (if pred n then Err CannotDeleteKeyInUse else Ok tt, s') ∧
      ks_rep s' (if pred n then <[n := le_set_disabled true le]> K else delete n K)
  | Err e => Vault.delete_key app session n pred s = (Err e, s)
  | Panic => False
  end.
Proof.
  intros HK Hn. unfold Vault.delete_key, get, lift, mbind, M_bind.
  rewrite (vault_key_rep s K) by done.
  destruct (access (K !! n) app session true) as [le|e|] eqn:Ha; cbn.
  - apply access_Some in Ha. pose proof (ks_remove_entry_law s K pred n HK Hn) as Hlaw.
    by rewrite Ha in Hlaw.
  - done.
  - unfold access, spec_lookup in Ha. destruct (K !! n); [|done]. cbn in Ha. by case_decide.
Qed.

(** What a bulk removal of a session's keys leaves: of the session, disabled
    keys the predicate held back; of the rest, everything. *)
Lemma bulk_remove_left session pred K n le :
  bulk_remove (session_sel session) pred K !! n = Some le → session_sel session le = true →
  ef_disabled (le_flags le) = true ∧ pred n = true.
Proof.
  unfold bulk_remove. rewrite map_lookup_imap.
  destruct (K !! n) as [le'|]; [|done]. cbn. unfold spec_remove.
  destruct (session_sel session le') eqn:Hs; [|congruence].
  destruct (pred n); [|done]. by intros [= <-].
Qed.

Lemma bulk_remove_other session pred K n le :
  session_sel session le = false →
  bulk_remove (session_sel session) pred K !! n = Some le ↔ K !! n = Some le.
Proof.
  intros Hs. unfold bulk_remove. rewrite map_lookup_imap.
  destruct (K !! n) as [le'|]; [|by split]. cbn. unfold spec_remove.
  destruct (session_sel session le') eqn:Hs'.
  - destruct (pred n); split; intros [= <-]; [|congruence..].
    unfold session_sel in *. cbn in Hs. congruence.
  - done.
Qed.

(** Closing a session ([delete_all_session_keys]): afterwards no enabled
    session-only key of that session is left, under any number; the keys of
    other sessions and of the applications are exactly what they were; and
    when none of the session's keys is in use the call succeeds and they are
    all gone. *)
Theorem delete_all_session_keys_exact s K session pred :
  ks_rep s K →
  ∃ r s' K', Vault.delete_all_session_keys session pred s = (r, s') ∧ r ≠ Panic ∧
    ks_rep s' K' ∧
    (∀ n le, K' !! n = Some le → session_sel session le = true →
       ef_disabled (le_flags le) = true ∧ pred n = true) ∧
    (∀ n le, session_sel session le = false → K' !! n = Some le ↔ K !! n = Some le) ∧
    ((∀ n le, K !! n = Some le → session_sel session le = true → pred n = false) →
       r = Ok tt ∧ ∀ n le, K' !! n = Some le → session_sel session le = false).
Proof.
  intros HK. destruct (ks_remove_session_law s K pred session HK) as (r & s' & Hrun & Hp & HK' & Hok).
  unfold Vault.delete_all_session_keys, mbind, M_bind. rewrite Hrun.
  exists ((λ _, tt) <$> r), s', (bulk_remove (session_sel session) pred K). split_and!.
  - by destruct r.
  - by destruct r.
  - done.
  - intros n le. apply bulk_remove_left.
  - intros n le. apply bulk_remove_other.
  - intros Hno. specialize (Hok Hno). destruct r; try done. split; [done|].
    intros n le Hk. destruct (session_sel session le) eqn:Hs; [|done]. exfalso.
    destruct (bulk_remove_left _ _ _ _ _ Hk Hs) as [_ Hpn].
    unfold bulk_remove in Hk. rewrite map_lookup_imap in Hk.
    destruct (K !! n) as [le'|] eqn:Hk'; [|done]. cbn in Hk. unfold spec_remove in Hk.
    rewrite Hpn in Hk. destruct (session_sel session le') eqn:Hs'.
    + specialize (Hno n le' Hk' Hs'). congruence.
    + simplify_eq. congruence.
Qed.

(** ** Blob views *)

Lemma rsa_view_rep s k b (crt : bool) p m :
  VKey.blob s k = Ok b → Rsa.expected_data_len s k = Ok m → Rsa.is_crt_key s k = Ok crt →
  Rsa.crt_param1_len s k = (if crt then Ok p else Err InvalidKeyType) →
  (crt = false → p = m) → p + m ≤ length b →
  Rsa.n s k = Ok (take m (drop p b)) ∧
  (if crt then
     Rsa.key_blob s k = Err InvalidKeyType ∧
     Rsa.crt_param1 s k = Ok (take p b) ∧ Rsa.crt_param2 s k = Ok (drop p b)
   else
     Rsa.key_blob s k = Ok b ∧
     Rsa.crt_param1 s k = Err InvalidKeyType ∧ Rsa.crt_param2 s k = Err InvalidKeyType).
Proof.
  intros Hb Hm Hcrt Hp Hpm Hlen.
  unfold Rsa.n, Rsa.key_blob, Rsa.crt_param1, Rsa.crt_param2.
  rewrite Hb, Hm, Hcrt, Hp. destruct crt; cbn [mbind outcome_bind].
  - unfold slice. rewrite decide_True by lia. rewrite (proj2 (Nat.leb_le p (length b))) by lia. done.
  - rewrite <- (Hpm eq_refl). unfold slice. rewrite decide_True by (specialize (Hpm eq_refl); lia).
    done.
Qed.

(** Where the modulus of an RSA key starts in its blob, how long it is, and
    whether the key is in CRT form. *)
Definition rsa_layout (kd : Rsa.RsaKeyKind) : bool * nat * nat :=
  match kd with
  | Rsa.Rsa2kPrivate => (false, 256, 256)
  | Rsa.Rsa3kPrivate => (false, 384, 384)
  | Rsa.Rsa4kPrivate => (false, 512, 512)
  | Rsa.Rsa2kPrivateCrt => (true, 512, 256)
  | Rsa.Rsa3kPrivateCrt => (true, 768, 384)
  | Rsa.Rsa4kPrivateCrt => (true, 1024, 512)
  end.

Lemma rsa_layout_fits kd :
  (rsa_layout kd).1.2 + (rsa_layout kd).2 ≤ Rsa.len kd.
Proof. apply Nat.leb_le. by destruct kd; vm_compute. Qed.

Lemma rsa_len kd : raw_key_blob_size (Rsa.to_entry_kind kd) = Ok (Rsa.len kd).
Proof. by destruct kd. Qed.

Lemma rsa_of_to kind kd : Rsa.of_entry_kind kind = Ok kd → kind = Rsa.to_entry_kind kd.
Proof. destruct kind; try done; by intros [= <-]. Qed.

(** The views of an RSA key never leave its blob: for every RSA private
    key in the vault [RsaKey::n] is the modulus-sized slice after the private
    exponent (after the CRT parameters for a CRT key), and the two CRT parts
    split a CRT key's blob; a CRT key's raw blob and a plain key's CRT
    parameters are refused. *)
Theorem rsa_views_exact s K n le kd :
  ks_rep s K → K !! n = Some le → Rsa.of_entry_kind (le_kind le) = Ok kd →
  let k := mkVaultKey n in
  let '(crt, p, m) := rsa_layout kd in
  Rsa.n s k = Ok (take m (drop p (le_blob le))) ∧ p + m ≤ length (le_blob le) ∧
  (if (crt : bool) then
     Rsa.key_blob s k = Err InvalidKeyType ∧
     Rsa.crt_param1 s k = Ok (take p (le_blob le)) ∧
     Rsa.crt_param2 s k = Ok (drop p (le_blob le))
   else
     Rsa.key_blob s k = Ok (le_blob le) ∧
     Rsa.crt_param1 s k = Err InvalidKeyType ∧ Rsa.crt_param2 s k = Err InvalidKeyType).
Proof.
  intros HK Hk Hkd%rsa_of_to k. destruct (ks_wf s K n le HK Hk) as [Hn Hle].
  pose proof (le_args _ Hle) as [Hargs _]. apply expected_key_len_raw in Hargs.
  pose proof (vkey_kind_rep s K n HK Hn) as Hkind. pose proof (vkey_blob_rep s K n HK Hn) as Hblob.
  rewrite Hk in Hkind, Hblob. fold k in Hkind, Hblob. rewrite Hkd in Hargs, Hkind.
  assert (length (le_blob le) = Rsa.len kd) as Hlen.
  { destruct (Table.storage_key_len _ _) eqn:Hs; [by destruct kd|].
    rewrite rsa_len in Hargs. by injection Hargs. }
  pose proof (rsa_layout_fits kd) as Hfit. rewrite <- Hlen in Hfit.
  destruct (rsa_layout kd) as [[crt p] m] eqn:Hlay. cbn [fst snd] in Hfit.
  destruct (rsa_view_rep s k (le_blob le) crt p m) as [H1 H2]; [done|..|done].
  - unfold Rsa.expected_data_len. rewrite Hkind. by destruct kd; injection Hlay as <- <- <-.
  - unfold Rsa.is_crt_key. rewrite Hkind. by destruct kd; injection Hlay as <- <- <-.
  - unfold Rsa.crt_param1_len. rewrite Hkind. by destruct kd; injection Hlay as <- <- <-.
  - by destruct kd; injection Hlay as <- <- <-.
  - done.
Qed.

(** [open_establish_cred_encryption_key] tests the class of the key, not
    its kind: it opens any enabled ECC key of the application that is not
    session-only, a signing key included. *)
Theorem establish_cred_open_any_ecc s K app n le :
  ks_rep s K → K !! n = Some le →
  le_app_id le = app → ef_session (le_flags le) = false → ef_disabled (le_flags le) = false →
  Vault.open_establish_cred_encryption_key s app n =
    if decide (EntryClass_from (le_kind le) = EC_Ecc) then Ok (mkVaultKey n)
    else Err InvalidKeyType.
Proof.
  intros HK Hk Happ Hs Hd. destruct (ks_wf s K n le HK Hk) as [Hn _].
  unfold Vault.open_establish_cred_encryption_key. rewrite (vault_key_rep s K) by done.
  rewrite Hk. unfold access, spec_lookup. rewrite Hd. cbn.
  rewrite decide_True by (split; [done|congruence]). cbn.
  unfold VKey.try_from_class, VKey.class. rewrite (vkey_kind_rep s K), Hk by done. cbn.
  case_bool_decide as H1; case_decide as H2; try done; exfalso.
  - apply list_elem_of_singleton in H1. done.
  - apply H1. rewrite H2. apply list_elem_of_singleton. done.
Qed.

End vault_props.

(** ** Conversion tables *)

(** The size tables agree: the length each key family demands of a blob is
    the blob size of the entry kind it stores, so a key its constructor
    accepted is never refused by the store for its length; and the kinds
    convert to entry kinds and back without loss (private kinds for ECC). *)
Theorem key_kind_tables_agree :
  (∀ k, raw_key_blob_size (Aes.to_entry_kind k) = Ok (Aes.len k)) ∧
  (∀ k, raw_key_blob_size (Ecc.to_entry_kind k) = Ok (Ecc.len k)) ∧
  (∀ k, raw_key_blob_size (Ecdh.to_entry_kind k) = Ok (Ecdh.len k)) ∧
  (∀ k, raw_key_blob_size (Hmac.to_entry_kind k) = Ok (Hmac.len k)) ∧
  (∀ k, raw_key_blob_size (Rsa.to_entry_kind k) = Ok (Rsa.len k)) ∧
  raw_key_blob_size EK_Session = Ok SessionK.Session ∧
  raw_key_blob_size EK_SessionEncryption = Ok FixedKey.SESSION_ENCRYPTION_LEN ∧
  raw_key_blob_size EK_EstablishCred = Ok FixedKey.ESTABLISH_CRED_LEN ∧
  raw_key_blob_size EK_MaskingKey = Ok FixedKey.MASKING_LEN ∧
  (∀ k, Aes.of_entry_kind (Aes.to_entry_kind k) = Ok k) ∧
  (∀ c, Ecc.of_entry_kind (Ecc.to_entry_kind (Ecc.of_curve c)) = Ok (Ecc.of_curve c)) ∧
  (∀ k, Ecdh.of_entry_kind (Ecdh.to_entry_kind k) = Ok k) ∧
  (∀ k, Hmac.of_entry_kind (Hmac.to_entry_kind k) = Ok k) ∧
  (∀ k, Rsa.of_entry_kind (Rsa.to_entry_kind k) = Ok k) ∧
  (∀ k, var_hmac_try_from (EntryKind_from_var_hmac k) = Ok k).
Proof. split_and!; try intros []; reflexivity. Qed.

(** Entry kinds and DDI key types convert back and forth: a kind that has
    a DDI type comes back from it; a DDI type that has a kind comes back too,
    except [RsaUnwrap], which comes back as [Rsa2kPrivate]. *)
Theorem ddi_key_type_roundtrip :
  (∀ k d, DdiKeyType_try_from k = Ok d → EntryKind_try_from d = Ok k) ∧
  (∀ d k, EntryKind_try_from d = Ok k →
     DdiKeyType_try_from k
       = Ok (match d with DKT_RsaUnwrap => DKT_Rsa2kPrivate | _ => d end)).
Proof.
  split.
  - intros [] d [= <-]; reflexivity.
  - intros [] k [= <-]; reflexivity.
Qed.

(** ** Witnesses: the store of two tables over zeroed memory *)

#[local] Existing Instance zerocopy_le.
#[local] Existing Instance zeroize_fill.
#[local] Instance sample_ops : KeyStoreI memory := key_store_ops two_tables.
#[local] Instance sample_spec : KeyStoreSpec memory := key_store_spec two_tables.

Lemma sample_rep : ks_rep zeroed_memory ∅.
Proof. apply (store_keys_zeroed two_tables). Qed.

Lemma zeroed_add_ok attributes sid kind app blob :
  attributes_wf attributes → args_ok attributes kind blob →
  (le_blocks (new_entry attributes sid kind app blob) <=? BLOB_BLOCKS) = true →
  ∃ n mem', ks_add_entry attributes sid kind app blob zeroed_memory = (Ok n, mem').
Proof.
  intros Hwf Hargs Hfit. apply Nat.leb_le in Hfit.
  destruct (store_keys_zeroed two_tables) as (As & HS & HK & Hout).
  assert (zeroed_memory !! 0 = Some zeroed_table) as H0 by done.
  destruct (Forall2_lookup_l _ _ _ _ _ (sr_tables _ _ HS) H0) as (A & HA & HR).
  assert (is_Some (first_free A)) as Hff.
  { rewrite <- (rep_find_free _ _ HR). by eexists. }
  destruct (store_add_succeeds two_tables zeroed_memory As attributes sid kind app blob 0
    zeroed_table A 0 HS Hwf Hargs) as (n & mem' & Hadd & _); try done.
  - intros _. rewrite (store_tag_in two_tables zeroed_memory As ∅ _ HS HK Hout).
    intros (n & le & Hn & _). by rewrite lookup_empty in Hn.
  - unfold MAX_TABLE_COUNT. lia.
  - by apply zeroed_window.
  - by exists n, mem'.
Qed.

Definition sample_ecc : Ecc.EccKeyImported :=
  Ecc.mkImported Ecc.Ecc256Private Ecc.SignVerify (replicate 32 9%Z).
Definition sample_var : VarHmac.VarLenHmacShaKeyImported :=
  VarHmac.mkImported VarLenHmacShaKey256 Hmac.SignVerify (replicate 40 9%Z) 40.
Definition sample_aes : Aes.AesKeyImported :=
  Aes.mkImported Aes.Aes128 Aes.EncryptDecrypt (replicate 16 9%Z).
Definition sample_aes_attributes : EntryAttributes :=
  Aes.aes_entry_attributes KA_App false Aes.EncryptDecrypt.

Lemma sample_ecc_import :
  ∃ k s', Vault.ecc_import_key 3 1 None false sample_ecc KA_App zeroed_memory = (Ok k, s').
Proof.
  unfold Vault.ecc_import_key, Vault.import_entry, lift, mbind, mret, M_bind, M_ret.
  change (Vault.validate_key_params KA_App None) with (Ok (E := HsmErr) tt).
  change (slice (E := HsmErr) (Ecc.blob sample_ecc) 0 (Ecc.len (Ecc.kind sample_ecc)))
    with (Ok (E := HsmErr) (replicate 32 9%Z)). cbv iota beta.
  set (a := Vault.import_attributes _ _ _). set (sid := Vault.sess_id_or_tag _ _ _).
  destruct (zeroed_add_ok a sid (Ecc.to_entry_kind (Ecc.kind sample_ecc)) 3 (replicate 32 9%Z))
    as (n & mem' & ->).
  - apply import_attributes_wf, ecc_usage_setter_ok.
  - split; [reflexivity|discriminate].
  - vm_compute. reflexivity.
  - by exists (mkVaultKey n), mem'.
Qed.

Lemma sample_var_import :
  ∃ k s', Vault.import_var_hmac_key 3 1 None false sample_var KA_App zeroed_memory = (Ok k, s').
Proof.
  unfold Vault.import_var_hmac_key, Vault.import_entry, lift, mbind, mret, M_bind, M_ret.
  change (Vault.validate_key_params KA_App None) with (Ok (E := HsmErr) tt).
  change (slice (E := HsmErr) (VarHmac.blob sample_var) 0 (Z.to_nat (VarHmac.key_length sample_var)))
    with (Ok (E := HsmErr) (replicate 40 9%Z)). cbv iota beta.
  set (a := Vault.set_key_length _ _). set (sid := Vault.sess_id_or_tag _ _ _).
  destruct (zeroed_add_ok a sid (EntryKind_from_var_hmac (VarHmac.kind sample_var)) 3
    (replicate 40 9%Z)) as (n & mem' & ->).
  - apply set_key_length_wf; [apply import_attributes_wf, hmac_usage_setter_ok|done].
  - split; [reflexivity|discriminate].
  - vm_compute. reflexivity.
  - by exists (mkVaultKey n), mem'.
Qed.

Lemma sample_aes_wf : attributes_wf sample_aes_attributes.
Proof. unfold attributes_wf. split_and!; try done; simpl; repeat constructor; done. Qed.

Lemma vault_key_access_exact_witness : Vault.key zeroed_memory 3 1 5 true = Err InvalidKeyIndex.
Proof.
  pose proof (vault_key_access_exact zeroed_memory ∅ 3 1 5 true sample_rep ltac:(done)) as H.
  exact H.
Defined.

Lemma typed_open_exact_witness :
  Vault.aes_open_key zeroed_memory 3 1 5 Aes.EncryptDecrypt = Err InvalidKeyIndex.
Proof.
  destruct (typed_open_exact zeroed_memory ∅ 3 1 5 sample_rep ltac:(done)) as [H _].
  rewrite H. reflexivity.
Defined.

Lemma import_open_roundtrip_witness :
  ∃ k s', Vault.ecc_import_key 3 1 None false sample_ecc KA_App zeroed_memory = (Ok k, s') ∧
    Vault.ecc_open_key s' 3 8 (vk_key_id k) (Some Ecc.SignVerify) = Ok k ∧
    Vault.ecc_open_key s' 4 1 (vk_key_id k) (Some Ecc.SignVerify) = Err InvalidPermissions.
Proof.
  destruct sample_ecc_import as (k & s' & Himp). exists k, s'. split; [exact Himp|].
  destruct (import_open_roundtrip zeroed_memory ∅ 3 1 None false KA_App k s' 3 8 sample_rep)
    as (_ & H1 & _).
  destruct (import_open_roundtrip zeroed_memory ∅ 3 1 None false KA_App k s' 4 1 sample_rep)
    as (_ & H2 & _).
  split.
  - exact (proj2 (H1 Ecc.Ecc256Private Ecc.SignVerify Ecc.SignVerify (replicate 32 9%Z)
      sample_ecc eq_refl Himp)).
  - exact (proj2 (H2 Ecc.Ecc256Private Ecc.SignVerify Ecc.SignVerify (replicate 32 9%Z)
      sample_ecc eq_refl Himp)).
Defined.

Lemma var_hmac_import_open_witness :
  ∃ k s', Vault.import_var_hmac_key 3 1 None false sample_var KA_App zeroed_memory = (Ok k, s') ∧
    VKey.blob s' k = Ok (replicate 40 9%Z).
Proof.
  destruct sample_var_import as (k & s' & Himp). exists k, s'. split; [exact Himp|].
  exact (proj1 (var_hmac_import_open zeroed_memory ∅ 3 1 None false KA_App k s' 3 1
    VarLenHmacShaKey256 Hmac.SignVerify Hmac.SignVerify (replicate 40 9%Z) sample_var
    sample_rep eq_refl Himp)).
Defined.

Lemma aes_import_open_witness :
  (Vault.aes_import_key 3 1 None sample_aes EntryAttributes_default zeroed_memory).1
    = Err InvalidArgument.
Proof.
  destruct (Vault.aes_import_key 3 1 None sample_aes EntryAttributes_default zeroed_memory)
    as [r s'] eqn:Himp.
  exact (proj1 (proj1 (aes_import_open zeroed_memory ∅ 3 1 None sample_aes
    EntryAttributes_default r s' sample_rep sample_wf eq_refl Himp) eq_refl)).
Defined.

Lemma delete_key_exact_witness :
  Vault.delete_key 3 1 5 (λ _, false) zeroed_memory = (Err InvalidKeyIndex, zeroed_memory).
Proof.
  exact (delete_key_exact zeroed_memory ∅ 3 1 5 (λ _, false) sample_rep ltac:(done)).
Defined.

Lemma delete_all_session_keys_exact_witness :
  ∃ s', Vault.delete_all_session_keys 1 (λ _, false) zeroed_memory = (Ok tt, s').
Proof.
  destruct (delete_all_session_keys_exact zeroed_memory ∅ 1 (λ _, false) sample_rep)
    as (r & s' & K' & Hrun & _ & _ & _ & _ & Hok).
  destruct Hok as [-> _].
  - intros n le _ _. reflexivity.
  - exists s'. exact Hrun.
Defined.

(** An application's RSA key, stored in the zeroed memory. *)
Definition sample_rsa : LogicalEntry :=
  new_entry EntryAttributes_default 0 EK_Rsa2kPrivate 3 (replicate 516 9%Z).
Definition sample_ecc_entry : LogicalEntry :=
  new_entry EntryAttributes_default 0 EK_Ecc256Private 3 (replicate 32 9%Z).

Lemma stored_sample (le : LogicalEntry) :
  le = new_entry EntryAttributes_default 0 (le_kind le) 3 (le_blob le) →
  args_ok EntryAttributes_default (le_kind le) (le_blob le) →
  (le_blocks le <=? BLOB_BLOCKS) = true →
  ∃ n mem', ks_rep mem' (<[n := le]> (∅ : KeyMap)).
Proof.
  intros Hle Hargs Hfit. rewrite Hle in Hfit.
  destruct (zeroed_add_ok EntryAttributes_default 0 (le_kind le) 3 (le_blob le) sample_wf Hargs Hfit)
    as (n & mem' & Hadd).
  destruct (ks_add_entry_law zeroed_memory ∅ EntryAttributes_default 0 (le_kind le) 3 (le_blob le)
    sample_rep sample_wf) as (r & s' & Heq & Hlaw).
  rewrite Hadd in Heq. injection Heq as <- <-. rewrite <- Hle in Hlaw.
  exists n, mem'. by destruct Hlaw as (_ & _ & HK & _).
Qed.

Lemma rsa_views_exact_witness :
  ∃ n mem', Rsa.n mem' (mkVaultKey n) = Ok (replicate 256 9%Z).
Proof.
  destruct (stored_sample sample_rsa eq_refl) as (n & mem' & HK).
  - split; [reflexivity|discriminate].
  - vm_compute. reflexivity.
  - exists n, mem'.
    pose proof (rsa_views_exact mem' _ n sample_rsa Rsa.Rsa2kPrivate HK
      (lookup_insert_eq _ n sample_rsa) eq_refl) as H.
    exact (proj1 H).
Defined.

Lemma establish_cred_open_any_ecc_witness :
  ∃ n mem', Vault.open_establish_cred_encryption_key mem' 3 n = Ok (mkVaultKey n).
Proof.
  destruct (stored_sample sample_ecc_entry eq_refl) as (n & mem' & HK).
  - split; [reflexivity|discriminate].
  - vm_compute. reflexivity.
  - exists n, mem'.
    exact (establish_cred_open_any_ecc mem' _ 3 n sample_ecc_entry HK
      (lookup_insert_eq _ n sample_ecc_entry) eq_refl eq_refl eq_refl).
Defined.

Lemma ddi_key_type_roundtrip_witness :
  EntryKind_try_from DKT_Aes256 = Ok EK_Aes256 ∧ DdiKeyType_try_from EK_Rsa2kPrivate = Ok DKT_Rsa2kPrivate.
Proof.
  destruct ddi_key_type_roundtrip as [H1 H2]. split.
  - exact (H1 EK_Aes256 DKT_Aes256 eq_refl).
  - exact (H2 DKT_RsaUnwrap EK_Rsa2kPrivate eq_refl).
Defined.
