(* ===== verification/SessionTable.v ===== *)
(** * The session table (hsm/src/partition/session_table.rs)

    Eight virtual session ids per partition: an allocation mask, a
    renegotiation mask and the physical ids.  The table refines an abstract
    list of slots, each free, active or waiting for renegotiation. *)

From stdpp Require Import base list numbers option.
From S2P Require Import Prelude HsmError Crates.

Definition MAX_SESSIONS : nat := 8.

Record HsmPartSessionTable : Set := mkSessionTable {
  session_allocation_mask : Z; (* u8 *)
  session_renegotiation_mask : Z; (* u8 *)
  table : list Z (* [u16; MAX_SESSIONS] *)
}.

(** [u8::trailing_ones] and [u8::count_zeros], bit by bit from bit [i]. *)
Fixpoint trailing_ones_from (n i : nat) (v : Z) : nat :=
  match n with
  | O => i
  | S n => if Z.testbit v (Z.of_nat i) then trailing_ones_from n (S i) v else i
  end.
Definition trailing_ones (v : Z) : nat := trailing_ones_from 8 0 v.
Definition count_zeros (v : Z) : nat :=
  length (filter (λ i, Z.testbit v (Z.of_nat i) = false) (seq 0 8)).

Module Sessions.
Section sessions.
Context `{BC : BitCrate, ZZ : Zeroize}.

Definition backup (t : HsmPartSessionTable) : Z := session_allocation_mask t.

Definition restore (mask : Z) (t : HsmPartSessionTable) : HsmPartSessionTable :=
  mkSessionTable mask mask (zeroize (table t)).

Definition get_available_session_count (t : HsmPartSessionTable) : nat :=
  count_zeros (session_allocation_mask t).

Definition needs_renegotiation (t : HsmPartSessionTable) (id : nat) : bool :=
  if MAX_SESSIONS - 1 <? id then false
  else bit (session_allocation_mask t) id && bit (session_renegotiation_mask t) id.

Definition valid (t : HsmPartSessionTable) (id : nat) : outcome HsmErr () :=
  if MAX_SESSIONS - 1 <? id then Err SessionLimitReached
  else if negb (bit (session_allocation_mask t) id) then Err SessionNotFound
  else if bit (session_renegotiation_mask t) id then Err SessionNeedsRenegotiation
  else Ok tt.

(** [self.table[id] = v], which panics out of range. *)
Definition set_target (id : nat) (v : Z) : M HsmPartSessionTable HsmErr () := λ t,
  if id <? length (table t) then
    (Ok tt, mkSessionTable (session_allocation_mask t) (session_renegotiation_mask t)
              (<[id := v]> (table t)))
  else (Panic, t).

Definition set_allocation (id : nat) (b : bool) : M HsmPartSessionTable HsmErr () :=
  modify (λ t, mkSessionTable (set_bit 8 (session_allocation_mask t) id b)
                 (session_renegotiation_mask t) (table t)).
Definition set_renegotiation (id : nat) (b : bool) : M HsmPartSessionTable HsmErr () :=
  modify (λ t, mkSessionTable (session_allocation_mask t)
                 (set_bit 8 (session_renegotiation_mask t) id b) (table t)).

Definition recreate_session (id : nat) (target_id : Z) : M HsmPartSessionTable HsmErr () :=
  t ← get;
  match valid t id with
  | Ok _ => throw InvalidState
  | Err SessionNeedsRenegotiation =>
      _ ← set_renegotiation id false;
      set_target id target_id
  | Err e => throw e
  | Panic => lift Panic
  end.

Definition create_session (target_id : Z) : M HsmPartSessionTable HsmErr nat :=
  t ← get;
  let id := trailing_ones (session_allocation_mask t) in
  _ ← unless (negb (MAX_SESSIONS - 1 <? id)) SessionLimitReached;
  _ ← set_target id target_id;
  _ ← set_allocation id true;
  mret id.

Definition get_target_session (t : HsmPartSessionTable) (id : nat) : outcome HsmErr Z :=
  _ ← valid t id;
  match table t !! id with Some v => Ok v | None => Panic end.

Definition rollback_recreation (id : nat) : M HsmPartSessionTable HsmErr () :=
  if id <? MAX_SESSIONS then
    _ ← set_allocation id true;
    _ ← set_renegotiation id true;
    set_target id 0
  else mret tt.

Definition delete (id : nat) : M HsmPartSessionTable HsmErr () :=
  if id <? MAX_SESSIONS then
    _ ← set_allocation id false;
    _ ← set_renegotiation id false;
    set_target id 0
  else mret tt.

End sessions.
End Sessions.

(** ** The abstract table *)

Inductive slot : Set :=
  | SlotFree
  | SlotActive (target : Z)
  | SlotPending.
#[global] Instance slot_eq_dec : EqDecision slot.
Proof. solve_decision. Defined.

(** What a lookup answers for a slot. *)
Definition slot_target (o : option slot) : outcome HsmErr Z :=
  match o with
  | None => Err SessionLimitReached
  | Some SlotFree => Err SessionNotFound
  | Some SlotPending => Err SessionNeedsRenegotiation
  | Some (SlotActive t) => Ok t
  end.

Section session_props.
Context `{BC : BitCrate, ZZ : Zeroize}.

(** The invariant: masks are bytes, eight ids, and only allocated sessions
    can wait for renegotiation. *)
Record st_wf (t : HsmPartSessionTable) : Prop := {
  st_alloc : uint_range 8 (session_allocation_mask t);
  st_reneg : uint_range 8 (session_renegotiation_mask t);
  st_len : length (table t) = MAX_SESSIONS;
  st_sub i : i < MAX_SESSIONS → bit (session_renegotiation_mask t) i = true →
    bit (session_allocation_mask t) i = true
}.

Definition slot_of (t : HsmPartSessionTable) (i : nat) : slot :=
  if bit (session_allocation_mask t) i then
    if bit (session_renegotiation_mask t) i then SlotPending
    else SlotActive (default 0%Z (table t !! i))
  else SlotFree.

Definition slots (t : HsmPartSessionTable) : list slot := slot_of t <$> seq 0 MAX_SESSIONS.

Lemma lookup_slots t i :
  slots t !! i = if decide (i < MAX_SESSIONS) then Some (slot_of t i) else None.
Proof.
  unfold slots. rewrite list_lookup_fmap. case_decide.
  - by rewrite lookup_seq_lt.
  - by rewrite lookup_seq_ge by lia.
Qed.

Lemma slots_insert t t' id sl :
  id < MAX_SESSIONS → slot_of t' id = sl →
  (∀ i, i < MAX_SESSIONS → i ≠ id → slot_of t' i = slot_of t i) →
  slots t' = <[id := sl]> (slots t).
Proof.
  intros Hid Hsl Hother. apply list_eq. intros i. destruct (decide (i = id)) as [->|Hi].
  - rewrite list_lookup_insert_eq by (unfold slots; by rewrite length_fmap, length_seq).
    by rewrite lookup_slots, decide_True, Hsl by done.
  - rewrite list_lookup_insert_ne by done. rewrite !lookup_slots.
    case_decide; [|done]. by rewrite Hother.
Qed.

Lemma bit_set_bit v i b j :
  uint_range 8 v → i < MAX_SESSIONS → j < MAX_SESSIONS →
  bit (set_bit 8 v i b) j = if decide (i = j) then b else bit v j.
Proof. unfold MAX_SESSIONS. intros. apply set_bit_spec; (done || lia). Qed.

Lemma set_bit_u8 v i b :
  uint_range 8 v → i < MAX_SESSIONS → uint_range 8 (set_bit 8 v i b).
Proof. unfold MAX_SESSIONS. intros. apply set_bit_range; (done || lia). Qed.

(** The effect of writing both masks and the target of one slot. *)
Lemma write_slot t id a r v :
  st_wf t → id < MAX_SESSIONS → (r = true → a = true) →
  let t' := mkSessionTable (set_bit 8 (session_allocation_mask t) id a)
              (set_bit 8 (session_renegotiation_mask t) id r) (<[id := v]> (table t)) in
  st_wf t' ∧
  slots t' = <[id := if a then if r then SlotPending else SlotActive v else SlotFree]> (slots t).
Proof.
  intros [Ha Hr Hl Hs] Hid Hra t'. split.
  - constructor; cbn [t' session_allocation_mask session_renegotiation_mask table].
    + by apply set_bit_u8.
    + by apply set_bit_u8.
    + by rewrite length_insert.
    + intros i Hi. rewrite !bit_set_bit by done. case_decide; auto.
  - apply slots_insert; [done|..].
    + unfold slot_of. cbn [t' session_allocation_mask session_renegotiation_mask table].
      rewrite !bit_set_bit, !decide_True by done.
      rewrite list_lookup_insert_eq by (by rewrite Hl). by destruct a, r.
    + intros i Hi Hne. unfold slot_of.
      cbn [t' session_allocation_mask session_renegotiation_mask table].
      rewrite !bit_set_bit, !decide_False by done. by rewrite list_lookup_insert_ne.
Qed.

Lemma valid_slot t id :
  st_wf t →
  Sessions.valid t id = (λ _, tt) <$> slot_target (slots t !! id).
Proof.
  intros [_ _ _ _]. unfold Sessions.valid. rewrite lookup_slots.
  destruct (Nat.ltb_spec (MAX_SESSIONS - 1) id).
  - rewrite decide_False by (unfold MAX_SESSIONS in *; lia). done.
  - rewrite decide_True by (unfold MAX_SESSIONS in *; lia). unfold slot_of.
    by destruct (bit (session_allocation_mask t) id), (bit (session_renegotiation_mask t) id).
Qed.

Lemma length_filter_fmap {A B} (f : A → B) (P : A → Prop) (Q : B → Prop)
    `{∀ x, Decision (P x), ∀ y, Decision (Q y)} (l : list A) :
  (∀ x, x ∈ l → P x ↔ Q (f x)) → length (filter P l) = length (filter Q (f <$> l)).
Proof.
  induction l as [|x l IH]; intros Hl; [done|]. cbn [fmap list_fmap].
  rewrite (filter_cons P), (filter_cons Q). pose proof (Hl x ltac:(by left)) as Hx.
  do 2 case_decide; cbn [length]; rewrite ?IH; try done; try tauto;
    intros y Hy; apply Hl; by right.
Qed.

(** The lookups read the slots: [get_target_session] answers the physical
    id of an active session and the right error otherwise ([SessionNotFound],
    [SessionNeedsRenegotiation], [SessionLimitReached] beyond the table), and
    the number of available sessions is the number of free slots. *)
Theorem session_lookups_refine t id :
  st_wf t →
  Sessions.get_target_session t id = slot_target (slots t !! id) ∧
  Sessions.needs_renegotiation t id = bool_decide (slots t !! id = Some SlotPending) ∧
  Sessions.get_available_session_count t = length (filter (λ s, s = SlotFree) (slots t)).
Proof.
  intros Hwf. split_and!.
  - unfold Sessions.get_target_session. rewrite valid_slot by done.
    rewrite lookup_slots. case_decide as Hid; [|done]. unfold slot_of.
    destruct (bit (session_allocation_mask t) id), (bit (session_renegotiation_mask t) id); try done.
    cbn. destruct (lookup_lt_is_Some_2 (table t) id) as [v ->]; [by rewrite (st_len _ Hwf)|done].
  - unfold Sessions.needs_renegotiation. rewrite lookup_slots.
    destruct (Nat.ltb_spec (MAX_SESSIONS - 1) id).
    + rewrite decide_False by (unfold MAX_SESSIONS in *; lia). done.
    + rewrite decide_True by (unfold MAX_SESSIONS in *; lia). unfold slot_of.
      by destruct (bit (session_allocation_mask t) id), (bit (session_renegotiation_mask t) id).
  - unfold Sessions.get_available_session_count, count_zeros, slots, MAX_SESSIONS.
    destruct Hwf as [Ha _ _ _].
    assert (∀ i, (i < 8)%nat →
      Z.testbit (session_allocation_mask t) (Z.of_nat i) = false ↔ slot_of t i = SlotFree) as Hb.
    { intros i Hi. rewrite <- (bit_spec 8) by (done || lia). unfold slot_of.
      destruct (bit (session_allocation_mask t) i), (bit (session_renegotiation_mask t) i); naive_solver. }
    apply length_filter_fmap. intros i Hi%elem_of_seq. apply Hb. lia.
Qed.

Lemma trailing_ones_from_spec n i v :
  let r := trailing_ones_from n i v in
  i ≤ r ≤ i + n ∧ (∀ j, i ≤ j < r → Z.testbit v (Z.of_nat j) = true) ∧
  (r < i + n → Z.testbit v (Z.of_nat r) = false).
Proof.
  revert i. induction n as [|n IH]; intros i; cbn -[Z.testbit].
  { split_and!; [lia..| |lia]. intros j Hj. lia. }
  destruct (Z.testbit v (Z.of_nat i)) eqn:Hb.
  - destruct (IH (S i)) as (H1 & H2 & H3). split_and!; [lia..| |].
    + intros j Hj. destruct (decide (j = i)) as [->|]; [done|]. apply H2. lia.
    + intros Hr. apply H3. lia.
  - split_and!; [lia..| |done]. intros j Hj. lia.
Qed.

(** [create_session] gives the lowest free virtual id, makes it active
    with the given physical id and changes no other session; it answers
    [SessionLimitReached], changing nothing, exactly when no slot is free. *)
Theorem create_session_refines t target :
  st_wf t →
  match list_find (λ s, s = SlotFree) (slots t) with
  | Some (id, _) => ∃ t', Sessions.create_session target t = (Ok id, t') ∧ st_wf t' ∧
      slots t' = <[id := SlotActive target]> (slots t)
  | None => Sessions.create_session target t = (Err SessionLimitReached, t)
  end.
Proof.
  intros Hwf. pose proof Hwf as [Ha Hr Hl Hs].
  destruct (trailing_ones_from_spec 8 0 (session_allocation_mask t)) as (H1 & H2 & H3).
  fold (trailing_ones (session_allocation_mask t)) in *.
  set (id := trailing_ones (session_allocation_mask t)) in *.
  unfold Sessions.create_session, get, unless, throw, mbind, mret, M_bind, M_ret. fold id.
  assert (∀ j, j < MAX_SESSIONS → j < id → slot_of t j ≠ SlotFree) as Hbusy.
  { intros j Hj Hlt. unfold slot_of. rewrite (bit_spec 8), H2 by (done || unfold MAX_SESSIONS in *; lia).
    by destruct (bit _ j). }
  destruct (Nat.ltb_spec (MAX_SESSIONS - 1) id) as [Hfull|Hfree]; cbn [negb].
  - destruct (list_find _ (slots t)) as [[j s]|] eqn:Hf; [|done]. exfalso.
    apply list_find_Some in Hf as (Hj & -> & _). rewrite lookup_slots in Hj.
    case_decide as Hj8; [|done]. injection Hj as Hj. eapply Hbusy; [done| |done].
    unfold MAX_SESSIONS in *. lia.
  - assert (id < MAX_SESSIONS) as Hid by (unfold MAX_SESSIONS in *; lia).
    assert (bit (session_allocation_mask t) id = false) as Hbit.
    { rewrite (bit_spec 8) by (done || unfold MAX_SESSIONS in *; lia).
      apply H3. unfold MAX_SESSIONS in *. lia. }
    rewrite (proj2 (list_find_Some _ (slots t) id SlotFree)).
    2:{ split_and!; [|done|].
        - rewrite lookup_slots, decide_True by done. unfold slot_of. by rewrite Hbit.
        - intros j y Hj Hlt. rewrite lookup_slots, decide_True in Hj by (unfold MAX_SESSIONS in *; lia).
          injection Hj as <-. apply Hbusy; [unfold MAX_SESSIONS in *; lia|done]. }
    unfold Sessions.set_target, Sessions.set_allocation, modify.
    rewrite (proj2 (Nat.ltb_lt id (length (table t)))) by (rewrite Hl; lia).
    eexists. split; [done|]. cbn [session_allocation_mask session_renegotiation_mask table].
    assert (bit (session_renegotiation_mask t) id = false) as Hren.
    { destruct (bit (session_renegotiation_mask t) id) eqn:Hb; [|done].
      rewrite Hs in Hbit by done. done. }
    split.
    + constructor; cbn [session_allocation_mask session_renegotiation_mask table]; try done.
      * by apply set_bit_u8.
      * by rewrite length_insert.
      * intros i Hi Hb. rewrite bit_set_bit by done. case_decide; [done|]. by apply Hs.
    + apply slots_insert; [done|..].
      * unfold slot_of. cbn [session_allocation_mask session_renegotiation_mask table].
        rewrite bit_set_bit, decide_True, Hren by done.
        by rewrite list_lookup_insert_eq by (by rewrite Hl).
      * intros i Hi Hne. unfold slot_of.
        cbn [session_allocation_mask session_renegotiation_mask table].
        rewrite bit_set_bit, decide_False by done. by rewrite list_lookup_insert_ne.
Qed.

(** Writing one mask keeps the invariant's other parts: used by the updates. *)
Lemma set_target_in_range id v t :
  length (table t) = MAX_SESSIONS → id < MAX_SESSIONS →
  Sessions.set_target id v t
    = (Ok tt, mkSessionTable (session_allocation_mask t) (session_renegotiation_mask t)
                (<[id := v]> (table t))).
Proof.
  intros Hl Hid. unfold Sessions.set_target.
  by rewrite (proj2 (Nat.ltb_lt id (length (table t)))) by (rewrite Hl; lia).
Qed.

(** The other updates.  [delete] frees a slot, [rollback_recreation] puts
    it back to waiting (both ignore ids beyond the table);
    [recreate_session] activates exactly a waiting session, answers
    [InvalidState] for an active one and the lookup's error otherwise. *)
Theorem session_updates_refine t id target :
  st_wf t →
  (∃ t', Sessions.delete id t = (Ok tt, t') ∧ st_wf t' ∧
     slots t' = if decide (id < MAX_SESSIONS) then <[id := SlotFree]> (slots t) else slots t) ∧
  (∃ t', Sessions.rollback_recreation id t = (Ok tt, t') ∧ st_wf t' ∧
     slots t' = if decide (id < MAX_SESSIONS) then <[id := SlotPending]> (slots t) else slots t) ∧
  (∃ t', Sessions.recreate_session id target t
     = (match slot_target (slots t !! id) with
        | Ok _ => Err InvalidState
        | Err SessionNeedsRenegotiation => Ok tt
        | Err e => Err e
        | Panic => Panic
        end, t') ∧ st_wf t' ∧
     slots t' = if decide (slots t !! id = Some SlotPending)
                then <[id := SlotActive target]> (slots t) else slots t).
Proof.
  intros Hwf. pose proof Hwf as [Ha Hr Hl Hs]. split_and!.
  - unfold Sessions.delete. case_decide as Hid.
    + rewrite (proj2 (Nat.ltb_lt _ _) Hid).
      unfold Sessions.set_allocation, Sessions.set_renegotiation, modify, mbind, M_bind.
      rewrite set_target_in_range by done. eexists. split; [done|].
      by apply (write_slot t id false false 0).
    + rewrite (proj2 (Nat.ltb_ge _ _)) by lia. by exists t.
  - unfold Sessions.rollback_recreation. case_decide as Hid.
    + rewrite (proj2 (Nat.ltb_lt _ _) Hid).
      unfold Sessions.set_allocation, Sessions.set_renegotiation, modify, mbind, M_bind.
      rewrite set_target_in_range by done. eexists. split; [done|].
      by apply (write_slot t id true true 0).
    + rewrite (proj2 (Nat.ltb_ge _ _)) by lia. by exists t.
  - unfold Sessions.recreate_session, get, mbind, M_bind. rewrite valid_slot by done.
    destruct (slots t !! id) as [[|v|]|] eqn:Hslot; cbn.
    1,2,4: exists t; split_and!; done.
    rewrite lookup_slots in Hslot. case_decide as Hid; [|done]. injection Hslot as Hslot.
    unfold Sessions.set_renegotiation, modify, mbind, M_bind.
    rewrite set_target_in_range by done. eexists. split; [done|].
    cbn [session_allocation_mask session_renegotiation_mask table].
    unfold slot_of in Hslot. destruct (bit (session_allocation_mask t) id) eqn:Hal; [|done]. split.
    + constructor; cbn [session_allocation_mask session_renegotiation_mask table]; try done.
      * by apply set_bit_u8.
      * by rewrite length_insert.
      * intros i Hi. rewrite bit_set_bit by done. case_decide; [done|]. by apply Hs.
    + apply slots_insert; [done|..].
      * unfold slot_of. cbn [session_allocation_mask session_renegotiation_mask table].
        rewrite bit_set_bit, decide_True, Hal by done.
        by rewrite list_lookup_insert_eq by (by rewrite Hl).
      * intros i Hi Hne. unfold slot_of.
        cbn [session_allocation_mask session_renegotiation_mask table].
        rewrite bit_set_bit, decide_False by done. by rewrite list_lookup_insert_ne.
Qed.

(** Live migration: restoring the mask a backup took makes exactly the
    sessions that were allocated wait for renegotiation and frees the rest,
    whatever table it is restored into, so every virtual id stays reserved
    and none is usable before it is renegotiated. *)
Theorem backup_restore_pending t t' :
  st_wf t → st_wf t' →
  let r := Sessions.restore (Sessions.backup t) t' in
  st_wf r ∧
  slots r = (λ s, if decide (s = SlotFree) then SlotFree else SlotPending) <$> slots t.
Proof.
  intros [Ha Hr Hl Hs] [Ha' Hr' Hl' Hs'] r. split.
  - constructor; try done. cbn. by rewrite zeroize_spec, length_replicate.
  - apply list_eq. intros i. rewrite list_lookup_fmap, !lookup_slots.
    case_decide; [|done]. cbn. f_equal. unfold slot_of, r, Sessions.restore, Sessions.backup.
    cbn [session_allocation_mask session_renegotiation_mask table].
    destruct (bit (session_allocation_mask t) i), (bit (session_renegotiation_mask t) i);
      reflexivity.
Qed.

End session_props.

(** ** Witnesses *)

#[local] Existing Instance bit_crate_Z.
#[local] Existing Instance zeroize_fill.

Definition zeroed_sessions : HsmPartSessionTable := mkSessionTable 0 0 (replicate MAX_SESSIONS 0%Z).
(** Sessions 0 and 2 allocated, session 2 waiting. *)
Definition sample_sessions : HsmPartSessionTable :=
  mkSessionTable 5 4 [17; 0; 0; 0; 0; 0; 0; 0]%Z.

Lemma zeroed_sessions_wf : st_wf zeroed_sessions.
Proof. constructor; done. Qed.

Lemma sample_sessions_wf : st_wf sample_sessions.
Proof.
  constructor; try done. intros i Hi. do 8 (destruct i as [|i]; [done|]). unfold MAX_SESSIONS in Hi. lia.
Qed.

Lemma session_lookups_refine_witness :
  Sessions.get_target_session sample_sessions 0 = Ok 17%Z ∧
  Sessions.get_target_session sample_sessions 2 = Err SessionNeedsRenegotiation.
Proof.
  split.
  - exact (proj1 (session_lookups_refine sample_sessions 0 sample_sessions_wf)).
  - exact (proj1 (session_lookups_refine sample_sessions 2 sample_sessions_wf)).
Defined.

Lemma create_session_refines_witness :
  ∃ t', Sessions.create_session 40 sample_sessions = (Ok 1, t') ∧
    slots t' = <[1 := SlotActive 40]> (slots sample_sessions).
Proof.
  destruct (create_session_refines sample_sessions 40 sample_sessions_wf) as (t' & H1 & _ & H2).
  exists t'. split; [exact H1|exact H2].
Defined.

Lemma session_updates_refine_witness :
  ∃ t', Sessions.recreate_session 2 40 sample_sessions = (Ok tt, t').
Proof.
  destruct (session_updates_refine sample_sessions 2 40 sample_sessions_wf)
    as (_ & _ & t' & H & _).
  exists t'. exact H.
Defined.

Lemma backup_restore_pending_witness :
  slots (Sessions.restore (Sessions.backup sample_sessions) zeroed_sessions)
    = [SlotPending; SlotFree; SlotPending; SlotFree; SlotFree; SlotFree; SlotFree; SlotFree].
Proof.
  exact (proj2 (backup_restore_pending sample_sessions zeroed_sessions sample_sessions_wf
    zeroed_sessions_wf)).
Defined.
