(* ===== verification/PinPolicy.v ===== *)
(** * User authentication of a partition

    - [Tcon]: the time stamp counter (drivers/tcon/src/lib.rs);
    - [Pin]: the PIN policy (hsm/src/partition/pin_policy_mgr.rs);
    - [Cred]: the user credential (hsm/src/partition/cred_mgr.rs);
    - [Login]: their composition in hsm/src/partition/part.rs;
    - [Bks]: the table of boot key seeds (hsm/src/partition/bks_table.rs).

    The policy refines a counter of failed attempts and a time before which
    every attempt is refused; the firmware profile inherits [release], so
    arithmetic wraps. *)

From stdpp Require Import base list numbers option.
From S2P Require Import Prelude HsmError.

Module Tcon.

Definition tsc_freq_hz : Z := 62500000. (* u32 *)

(** [lo] and [hi] are [u32]; [hi] holds bits 62:31 of the counter. *)
Definition stitch_counter_lo_and_hi (lo hi : Z) : Z :=
  let hi_add := if (Z.land hi 1 =? Z.shiftr lo 31)%Z then 0%Z else 1%Z in
  Z.lor (wrap 64 (Z.shiftl (wrap 32 (hi + hi_add)) 31)) lo.

(** [tsc] reads [timer_hi] and then [timer_lo]: the registers show the
    counter at two instants [c1] and [c2]. *)
Definition timer_hi (c : Z) : Z := wrap 32 (Z.shiftr c 31).
Definition timer_lo (c : Z) : Z := wrap 32 c.
Definition tsc (c1 c2 : Z) : Z := stitch_counter_lo_and_hi (timer_lo c2) (timer_hi c1).

End Tcon.

Module Pin.

Definition MAX_ALLOWED_PIN_AUTH_ATTEMPTS : Z := 1000. (* u16 *)
Definition DELAY_FACTOR_INCREMENT_IN_SEC : Z := 60. (* u16 *)
Definition MAX_DELAY_FACTOR_IN_MINS : Z := 32. (* u16 *)

Inductive PinPolicyState : Set := Ready | Lockout.
#[global] Instance PinPolicyState_eq_dec : EqDecision PinPolicyState.
Proof. solve_decision. Defined.

Record PinPolicy : Set := mkPinPolicy {
  state : PinPolicyState;
  delay_factor : Z; (* u16 *)
  allowed_attempts : Z; (* u16 *)
  lockout_time : list Z (* [u8; 8] *)
}.

(** [PinPolicy::default()]. *)
Definition default : PinPolicy := mkPinPolicy Ready 0 0 (replicate 8 0%Z).

(** The context is read and written through [pin_policy_ref]; a read of the
    time stamp counter is the argument [now] of the function that makes it. *)
Definition can_login (now : Z) (p : PinPolicy) : bool :=
  bool_decide (state p = Ready) || (from_le_bytes (lockout_time p) <=? now)%Z.

Definition reset_context (p : PinPolicy) : PinPolicy :=
  mkPinPolicy (state p) 0 0 (replicate 8 0%Z).

Definition increment_delay_factor (p : PinPolicy) : PinPolicy :=
  let p := mkPinPolicy (state p) (wrap 16 (delay_factor p + 1)) (allowed_attempts p)
             (lockout_time p) in
  if (MAX_DELAY_FACTOR_IN_MINS <? delay_factor p)%Z then reset_context p else p.

Definition increment_allowed_attempts (p : PinPolicy) : PinPolicy :=
  let p := mkPinPolicy (state p) (delay_factor p) (wrap 16 (allowed_attempts p + 1))
             (lockout_time p) in
  if (allowed_attempts p =? MAX_ALLOWED_PIN_AUTH_ATTEMPTS)%Z then
    let p := increment_delay_factor p in
    mkPinPolicy (state p) (delay_factor p) 0 (lockout_time p)
  else p.

Definition set_lockout_time (now : Z) (p : PinPolicy) : PinPolicy :=
  let delay_increment := DELAY_FACTOR_INCREMENT_IN_SEC in
  let delay := wrap 64 (wrap 64 (delay_factor p * delay_increment) * Tcon.tsc_freq_hz) in
  let lockout_time := wrap 64 (now + delay) in
  mkPinPolicy (state p) (delay_factor p) (allowed_attempts p) (to_le_bytes 8 lockout_time).

Definition lockout (now : Z) (p : PinPolicy) : PinPolicy :=
  set_lockout_time now (increment_allowed_attempts p).

Definition set_state (s : PinPolicyState) (p : PinPolicy) : PinPolicy :=
  mkPinPolicy s (delay_factor p) (allowed_attempts p) (lockout_time p).

(** [now] is the counter when the attempt is checked and [now'] when the
    lockout time is set. *)
Definition enforce_pin_policy (now now' : Z) (valid_attempt : bool) :
    M PinPolicy HsmErr () := λ p,
  if negb (can_login now p) then (Err LoginFailed, p)
  else if valid_attempt then
    (Ok tt, if decide (state p = Lockout) then reset_context p else p)
  else
    let p := if decide (state p = Ready) then set_state Lockout p else p in
    (Err InvalidUserCredential, lockout now' p).

End Pin.

Module Cred.

Record UserCredential : Set := mkUserCredential {
  id : list Z; (* [u8; 16] *)
  pin : list Z; (* [u8; 16] *)
  vault_id : Z (* u8 *)
}.

Definition zeros : list Z := replicate 16 0%Z.
Definition default : UserCredential := mkUserCredential zeros zeros 0.

(** [CredentialMgr] has one field, [user_cred]. *)
Definition verify_user_cred_is_set (c : UserCredential) : bool :=
  negb (bool_decide (id c = zeros)) && negb (bool_decide (pin c = zeros)).

Definition change_user_cred (new_id new_pin : list Z) : M UserCredential HsmErr () := λ c,
  if negb (length new_id =? 16) || negb (length new_pin =? 16) then
    (Err InvalidUserCredential, c)
  else if bool_decide (new_id = zeros) || bool_decide (new_pin = zeros) then
    (Err InvalidUserCredential, c)
  else (Ok tt, mkUserCredential new_id new_pin (vault_id c)).

Definition restore_user_cred (cred : UserCredential) (c : UserCredential) : UserCredential :=
  cred.

Definition authorize_user (uid upin : list Z) (c : UserCredential) : bool :=
  if bool_decide (id c = zeros) || bool_decide (pin c = zeros) then false
  else bool_decide (id c = uid) && bool_decide (pin c = upin).

Definition get_user_vault_id (c : UserCredential) : Z := vault_id c.

Definition clear (c : UserCredential) : UserCredential := default.

End Cred.

Module Login.

(** What [authorize_user_with_pin_policy] of a partition reads and writes. *)
Record PartAuth : Set := mkPartAuth {
  cred_mgr : Cred.UserCredential;
  pin_policy_mgr : Pin.PinPolicy
}.

Definition authorize_user_with_pin_policy (now now' : Z) (uid upin : list Z) :
    M PartAuth HsmErr () := λ s,
  let auth_result := Cred.authorize_user uid upin (cred_mgr s) in
  let '(r, p) := Pin.enforce_pin_policy now now' auth_result (pin_policy_mgr s) in
  (r, mkPartAuth (cred_mgr s) p).

End Login.

Module Bks.

Definition NUM_BKS1_ENTRIES : nat := 11.

Record BksTableEntry : Set := mkBksTableEntry {
  valid : Z; (* u8 *)
  svn : list Z; (* [u8; 8] *)
  bks : list Z (* [u8; 32] *)
}.

Record BksTable : Set := mkBksTable {
  bks1_entries : list BksTableEntry; (* [BksTableEntry; NUM_BKS1_ENTRIES] *)
  bks2_entry : BksTableEntry
}.

Definition get_bks1_current (t : BksTable) : outcome HsmErr (list Z) :=
  match bks1_entries t !! 0 with Some e => Ok (bks e) | None => Panic end.

(** [iter().find(..)]: the first entry that matches. *)
Definition get_bks1 (s : Z) (t : BksTable) : option (list Z) :=
  (λ '(_, e), bks e) <$> list_find (λ e, svn e = to_le_bytes 8 s) (bks1_entries t).

Definition get_current_svn (t : BksTable) : outcome HsmErr Z :=
  match bks1_entries t !! 0 with Some e => Ok (from_le_bytes (svn e)) | None => Panic end.

Definition get_bks2 (t : BksTable) : list Z := bks (bks2_entry t).

End Bks.

(** ** The time stamp counter *)

Lemma shiftr_land_one c k : (0 ≤ k)%Z → Z.land (Z.shiftr c k) 1 = Z.b2z (Z.testbit c k).
Proof.
  intros Hk. change 1%Z with (Z.ones 1). rewrite Z.land_ones, Z.shiftr_div_pow2 by lia.
  change (2 ^ 1)%Z with 2%Z. by rewrite Z.testbit_spec'.
Qed.

(** The two halves agree on bit 31 exactly when no carry crossed it between
    the reads. *)
Lemma stitch_carry c1 c2 :
  (0 ≤ c1 ≤ c2)%Z → (c2 - c1 < 2 ^ 31)%Z →
  (c1 / 2 ^ 31 + (if Z.b2z (Z.testbit c1 31) =? Z.b2z (Z.testbit c2 31) then 0 else 1)
    = c2 / 2 ^ 31)%Z.
Proof.
  intros H1 H2. rewrite !Z.testbit_spec' by lia.
  assert (c2 / 2 ^ 31 = c1 / 2 ^ 31 ∨ c2 / 2 ^ 31 = c1 / 2 ^ 31 + 1)%Z as Hq.
  { pose proof (Z.div_mod c1 (2 ^ 31)). pose proof (Z.div_mod c2 (2 ^ 31)).
    pose proof (Z.mod_pos_bound c1 (2 ^ 31)). pose proof (Z.mod_pos_bound c2 (2 ^ 31)). lia. }
  revert Hq. generalize (c1 / 2 ^ 31)%Z (c2 / 2 ^ 31)%Z. intros q1 q2 Hq.
  destruct Hq as [-> | ->].
  - rewrite Z.eqb_refl. lia.
  - destruct (_ =? _)%Z eqn:E; [|done]. apply Z.eqb_eq in E.
    pose proof (Z.div_mod q1 2). pose proof (Z.div_mod (q1 + 1) 2). lia.
Qed.

Lemma lor_overlap c : (0 ≤ c)%Z → Z.lor (Z.shiftl (c / 2 ^ 31) 31) (wrap 32 c) = c.
Proof.
  intros Hc. apply Z.bits_inj'. intros i Hi. rewrite Z.lor_spec, Z.shiftl_spec by done.
  unfold wrap. rewrite <- Z.shiftr_div_pow2 by lia.
  destruct (decide (i < 32)%Z).
  - rewrite Z.mod_pow2_bits_low by lia. destruct (decide (i < 31)%Z).
    + by rewrite Z.testbit_neg_r by lia.
    + rewrite Z.shiftr_spec, Z.sub_add by lia. by destruct (Z.testbit c i).
  - rewrite Z.mod_pow2_bits_high, Z.shiftr_spec, Z.sub_add, orb_false_r by lia. done.
Qed.

(** The counter assembled from the two register halves is exact: when the
    low half is read less than 2^31 ticks (34 s) after the high half, the
    result is the 63-bit counter at the instant of the second read, whether
    or not a carry crossed bit 31 in between. *)
Theorem tsc_reads_exact c1 c2 :
  (0 ≤ c1 ≤ c2)%Z → (c2 < 2 ^ 63)%Z → (c2 - c1 < 2 ^ 31)%Z → Tcon.tsc c1 c2 = c2.
Proof.
  intros H1 H2 H3. pose proof (stitch_carry c1 c2 H1 H3) as Hq.
  assert (∀ c, 0 ≤ c < 2 ^ 63 → 0 ≤ c / 2 ^ 31 < 2 ^ 32)%Z as Hr.
  { intros c Hc. split; [apply Z.div_pos; lia|apply Z.div_lt_upper_bound; lia]. }
  unfold Tcon.tsc, Tcon.stitch_counter_lo_and_hi, Tcon.timer_hi, Tcon.timer_lo.
  rewrite (wrap_small 32 (Z.shiftr c1 31)) by (rewrite Z.shiftr_div_pow2 by lia; apply Hr; lia).
  assert (Z.shiftr (wrap 32 c2) 31 = Z.b2z (Z.testbit c2 31)) as ->.
  { rewrite Z.testbit_spec' by lia. unfold wrap. rewrite Z.shiftr_div_pow2 by lia.
    change (2 ^ 32)%Z with (2 ^ 31 * 2)%Z. rewrite Z.rem_mul_r, Z.mul_comm by lia.
    rewrite Z.div_add, Z.div_small by (lia || (apply Z.mod_pos_bound; lia)). done. }
  rewrite shiftr_land_one, Z.shiftr_div_pow2, Hq by lia.
  rewrite (wrap_small 32 (c2 / _)) by (apply Hr; lia).
  rewrite wrap_small; [apply lor_overlap; lia|].
  specialize (Hr c2). unfold uint_range. rewrite Z.shiftl_mul_pow2 by lia. lia.
Qed.

(** ** The PIN policy *)

(** The abstract policy: failed attempts in the current round, and the time
    before which attempts are refused. *)
Record throttle : Set := mkThrottle { failures : Z; until : Z }.

Definition round : Z := 33000.
Definition delay_ticks (n : Z) : Z := n / 1000 * 60 * Tcon.tsc_freq_hz.

Definition throttle_step (now now' : Z) (valid : bool) (a : throttle) :
    outcome HsmErr () * throttle :=
  if (now <? until a)%Z then (Err LoginFailed, a)
  else if valid then (Ok tt, mkThrottle 0 0)
  else
    let n := ((failures a + 1) mod round)%Z in
    (Err InvalidUserCredential, mkThrottle n (now' + delay_ticks n)).

Record PinRep (p : Pin.PinPolicy) (a : throttle) : Prop := {
  pr_failures : (0 ≤ failures a < round)%Z;
  pr_until : uint_range 64 (until a);
  pr_ready : Pin.state p = Pin.Ready → a = mkThrottle 0 0;
  pr_delay : Pin.delay_factor p = (failures a / 1000)%Z;
  pr_attempts : Pin.allowed_attempts p = (failures a mod 1000)%Z;
  pr_lockout : Pin.lockout_time p = to_le_bytes 8 (until a)
}.

Lemma pin_default_rep : PinRep Pin.default (mkThrottle 0 0).
Proof. by constructor. Qed.

Lemma can_login_rep p a now :
  PinRep p a → (0 ≤ now)%Z → Pin.can_login now p = negb (now <? until a)%Z.
Proof.
  intros [_ Hu Hr _ _ Hl] Hn. unfold Pin.can_login.
  rewrite Hl, from_to_le_bytes by done. rewrite <- Z.leb_antisym.
  case_bool_decide as Hs; [|done]. rewrite (Hr Hs). cbn. symmetry. by apply Z.leb_le.
Qed.

(** The counters advance as one counter in base 1000, up to 33 rounds. *)
Lemma increment_allowed_attempts_counts n s lt :
  (0 ≤ n < round)%Z →
  let p := Pin.increment_allowed_attempts (Pin.mkPinPolicy s (n / 1000) (n mod 1000) lt) in
  let n' := ((n + 1) mod round)%Z in
  Pin.state p = s ∧ Pin.delay_factor p = (n' / 1000)%Z ∧ Pin.allowed_attempts p = (n' mod 1000)%Z.
Proof.
  intros Hn p n'.
  pose proof (Z.div_mod n 1000). pose proof (Z.mod_pos_bound n 1000).
  assert (0 ≤ n / 1000 < 33)%Z as Hd.
  { split; [apply Z.div_pos; lia|apply Z.div_lt_upper_bound; unfold round in *; lia]. }
  subst p. unfold Pin.increment_allowed_attempts, Pin.increment_delay_factor. cbn.
  rewrite (wrap_small 16) by (unfold uint_range; lia).
  unfold Pin.MAX_ALLOWED_PIN_AUTH_ATTEMPTS, Pin.MAX_DELAY_FACTOR_IN_MINS.
  destruct (Z.eqb_spec (n mod 1000 + 1) 1000) as [Ha|Ha]; cbn.
  - rewrite (wrap_small 16) by (unfold uint_range; lia).
    destruct (Z.ltb_spec 32 (n / 1000 + 1)) as [Hlt|Hlt]; cbn.
    + assert (n' = 0)%Z as ->; [|done].
      subst n'. unfold round in *. replace (n + 1)%Z with 33000%Z by lia. done.
    + assert (n' = (n / 1000 + 1) * 1000)%Z as ->.
      { subst n'. unfold round in *. rewrite Z.mod_small by lia. lia. }
      by rewrite Z.div_mul, Z.mod_mul by lia.
  - assert (n' = (n mod 1000 + 1) + n / 1000 * 1000)%Z as ->.
    { subst n'. unfold round in *. rewrite Z.mod_small by lia. lia. }
    by rewrite Z.div_add, Z.mod_add, (Z.div_small (n mod 1000 + 1)),
      (Z.mod_small (n mod 1000 + 1)) by lia.
Qed.

Lemma delay_ticks_bound n : (0 ≤ n < round)%Z → (0 ≤ delay_ticks n < 2 ^ 62)%Z.
Proof.
  intros Hn. unfold delay_ticks, Tcon.tsc_freq_hz.
  assert (0 ≤ n / 1000 < 33)%Z; [|lia].
  split; [apply Z.div_pos; lia|apply Z.div_lt_upper_bound; unfold round in *; lia].
Qed.

Lemma set_lockout_time_rep n now s d a :
  (0 ≤ n < round)%Z → (0 ≤ now < 2 ^ 63)%Z → d = (n / 1000)%Z → a = (n mod 1000)%Z →
  s = Pin.Lockout →
  ∀ lt, PinRep (Pin.set_lockout_time now (Pin.mkPinPolicy s d a lt))
          (mkThrottle n (now + delay_ticks n)).
Proof.
  intros Hn Hnow -> -> -> lt. pose proof (delay_ticks_bound n Hn) as Hb.
  assert (0 ≤ n / 1000 < 33)%Z as Hd.
  { split; [apply Z.div_pos; lia|apply Z.div_lt_upper_bound; unfold round in *; lia]. }
  unfold Pin.set_lockout_time. cbn. unfold Pin.DELAY_FACTOR_INCREMENT_IN_SEC.
  rewrite (wrap_small 64 (n / 1000 * 60)) by (unfold uint_range; lia).
  fold (delay_ticks n). rewrite !(wrap_small 64) by (unfold uint_range in *; rewrite ?wrap_small by (unfold uint_range; lia); lia).
  constructor; try done. unfold uint_range. cbn. lia.
Qed.

Lemma enforce_pin_policy_rep p a now now' valid :
  PinRep p a → (0 ≤ now ≤ now')%Z → (now' < 2 ^ 63)%Z →
  let '(r, a') := throttle_step now now' valid a in
  ∃ p', Pin.enforce_pin_policy now now' valid p = (r, p') ∧ PinRep p' a'.
Proof.
  intros HR H1 H2. pose proof (can_login_rep p a now HR (proj1 H1)) as Hc.
  unfold throttle_step, Pin.enforce_pin_policy. rewrite Hc, negb_involutive.
  destruct (now <? until a)%Z; [eauto|].
  destruct HR as [Hf Hu Hr Hd Ha Hl]. destruct valid.
  - eexists. split; [reflexivity|]. case_decide as Hs; [by constructor|].
    assert (Pin.state p = Pin.Ready) as Hs' by (destruct p as [[] ? ? ?]; naive_solver).
    specialize (Hr Hs'). subst a. by constructor.
  - eexists. split; [reflexivity|].
    set (q := if decide _ then _ else _).
    assert (q = Pin.mkPinPolicy Pin.Lockout (failures a / 1000) (failures a mod 1000)
                  (Pin.lockout_time p)) as ->.
    { rewrite <- Hd, <- Ha. subst q. destruct p as [[] ? ? ?]; done. }
    destruct (increment_allowed_attempts_counts (failures a) Pin.Lockout (Pin.lockout_time p) Hf)
      as (Es & Ed & Ea).
    unfold Pin.lockout. destruct (Pin.increment_allowed_attempts _) as [s d at' lt].
    cbn in *. apply set_lockout_time_rep; [|lia|done..].
    by apply Z.mod_pos_bound.
Qed.

(** The PIN policy is a counter of failures and a time limit: before the
    limit every attempt is refused and changes nothing; after it a valid
    attempt clears the counter, and an invalid one counts and refuses
    attempts for [failures / 1000] minutes (0 to 32), the counter starting
    again after 33000 failures.  No 16- or 64-bit operation overflows. *)
Theorem pin_policy_refines p a now now' valid :
  PinRep p a → (0 ≤ now ≤ now')%Z → (now' < 2 ^ 63)%Z →
  let '(r, a') := throttle_step now now' valid a in
  ∃ p', Pin.enforce_pin_policy now now' valid p = (r, p') ∧ PinRep p' a'.
Proof. apply enforce_pin_policy_rep. Qed.

(** Wrong attempts at the given pairs of instants; the result counts the
    attempts that were evaluated, that is not refused. *)
Fixpoint wrong_attempts (l : list (Z * Z)) (p : Pin.PinPolicy) : nat * Pin.PinPolicy :=
  match l with
  | [] => (0, p)
  | (now, now') :: l =>
      let evaluated := Pin.can_login now p in
      let '(n, p') := wrong_attempts l (snd (Pin.enforce_pin_policy now now' false p)) in
      (if evaluated then S n else n, p')
  end.

(** The instants increase from [t] to [t']. *)
Fixpoint increasing (t : Z) (l : list (Z * Z)) (t' : Z) : Prop :=
  match l with
  | [] => (t ≤ t')%Z
  | (now, now') :: l => (t ≤ now ≤ now')%Z ∧ increasing now' l t'
  end.

(** Ticks during which the policy refuses attempts between failures [n] and
    [n + m]. *)
Fixpoint total_delay (n : Z) (m : nat) : Z :=
  match m with
  | O => 0
  | S m => let n' := ((n + 1) mod round)%Z in (delay_ticks n' + total_delay n' m)%Z
  end.

Lemma increasing_le t l t' : increasing t l t' → (t ≤ t')%Z.
Proof.
  revert t. induction l as [|[x y] l IH]; intros t; cbn; [done|].
  intros [H1 H2%IH]. lia.
Qed.

Lemma wrong_attempts_bound l : ∀ p a t b t' m p',
  PinRep p a → (0 ≤ t)%Z → (t' < 2 ^ 63)%Z → increasing t l t' → (b ≤ Z.max t (until a))%Z →
  wrong_attempts l p = (m, p') →
  Pin.can_login t' p' = true → (b + total_delay (failures a) m ≤ t')%Z.
Proof.
  induction l as [|[now now'] l IH]; intros p a t b t' m p' HR Ht Ht' Hl Hb Hw Hc; cbn in *.
  - injection Hw as <- <-. rewrite (can_login_rep p a) in Hc by (done || lia).
    destruct (Z.ltb_spec t' (until a)); cbn in *; [done|lia].
  - destruct Hl as [Hn Hl]. pose proof (increasing_le _ _ _ Hl).
    pose proof (enforce_pin_policy_rep p a now now' false HR) as He.
    rewrite (can_login_rep p a) in Hw by (done || lia).
    unfold throttle_step in He. destruct (Z.ltb_spec now (until a)) as [Hlt|Hlt]; cbn in *.
    + destruct He as (q & Eq & HRq); [lia..|]. rewrite Eq in Hw. cbn in Hw.
      destruct (wrong_attempts l q) as [n q'] eqn:Ew. injection Hw as -> ->.
      eapply (IH q a now' b); (done || lia).
    + destruct He as (q & Eq & HRq); [lia..|]. rewrite Eq in Hw. cbn in Hw.
      destruct (wrong_attempts l q) as [n q'] eqn:Ew. injection Hw as <- ->.
      cbn [total_delay].
      pose proof (IH q _ now' (b + delay_ticks ((failures a + 1) mod round))%Z t' n p' HRq)
        as IH'. cbn in IH'. ospecialize (IH' _ _ Hl _ Ew Hc); lia.
Qed.

(** C38: guessing is slow: whatever the instants at which wrong PINs are tried
    on a fresh policy from time [t], an attempt at time [t'] is only allowed
    once the delays of all the failures evaluated so far have passed. *)
Theorem pin_guessing_rate t l t' m p' :
  (0 ≤ t)%Z → (t' < 2 ^ 63)%Z → increasing t l t' →
  wrong_attempts l Pin.default = (m, p') →
  Pin.can_login t' p' = true → (t + total_delay 0 m ≤ t')%Z.
Proof.
  intros. eapply (wrong_attempts_bound l Pin.default (mkThrottle 0 0) t t); try done.
  cbn. lia.
Qed.

(** A full round of 33000 guesses takes at least 31,680,000 s, 366 days. *)
Lemma guessing_round_delay :
  total_delay 0 (Z.to_nat round) = (31680000 * Tcon.tsc_freq_hz)%Z.
Proof. vm_compute. reflexivity. Qed.

(** ** Credentials *)

Definition cred_wf (c : Cred.UserCredential) : Prop :=
  length (Cred.id c) = 16 ∧ length (Cred.pin c) = 16.

(** The credential a user can log in with, if any. *)
Definition cred_view (c : Cred.UserCredential) : option (list Z * list Z) :=
  if decide (Cred.id c = Cred.zeros ∨ Cred.pin c = Cred.zeros) then None
  else Some (Cred.id c, Cred.pin c).

Lemma authorize_user_view uid upin c :
  Cred.authorize_user uid upin c = bool_decide (cred_view c = Some (uid, upin)).
Proof.
  unfold Cred.authorize_user, cred_view. case_decide as H.
  - rewrite (bool_decide_false (None = _)) by done. by repeat case_bool_decide; naive_solver.
  - rewrite !(bool_decide_false (_ = Cred.zeros)) by naive_solver. cbn.
    repeat case_bool_decide; naive_solver.
Qed.

(** Credentials as a set-once-readable pair: no credential authorizes
    before one is set or after [clear]; [change_user_cred] accepts exactly a
    16-byte non-zero id and PIN, keeps the vault id, and from then on exactly
    that pair is authorized; a refused change leaves the credential as it
    was; a restored credential authorizes the same pairs as the saved one. *)
Theorem credentials_exact c nid npin saved uid upin :
  cred_wf c →
  (Cred.verify_user_cred_is_set c = true ↔ is_Some (cred_view c)) ∧
  Cred.authorize_user uid upin (Cred.clear c) = false ∧
  Cred.authorize_user uid upin (Cred.restore_user_cred saved c)
    = Cred.authorize_user uid upin saved ∧
  (if decide (length nid = 16 ∧ length npin = 16 ∧ nid ≠ Cred.zeros ∧ npin ≠ Cred.zeros)
   then ∃ c', Cred.change_user_cred nid npin c = (Ok tt, c') ∧ cred_wf c' ∧
          Cred.get_user_vault_id c' = Cred.get_user_vault_id c ∧
          (Cred.authorize_user uid upin c' = true ↔ uid = nid ∧ upin = npin)
   else Cred.change_user_cred nid npin c = (Err InvalidUserCredential, c)).
Proof.
  intros Hc. split_and!.
  - unfold Cred.verify_user_cred_is_set, cred_view, is_Some.
    case_decide; repeat case_bool_decide; naive_solver.
  - by rewrite authorize_user_view.
  - done.
  - unfold Cred.change_user_cred. case_decide as H.
    + destruct H as (H1 & H2 & H3 & H4). rewrite H1, H2, !bool_decide_false by done.
      eexists. split; [reflexivity|]. split; [done|]. split; [done|].
      rewrite authorize_user_view. unfold cred_view. cbn.
      rewrite decide_False by naive_solver. rewrite bool_decide_eq_true. naive_solver.
    + destruct (Nat.eqb_spec (length nid) 16), (Nat.eqb_spec (length npin) 16); try done.
      cbn. repeat case_bool_decide; naive_solver.
Qed.

(** A login of a partition succeeds exactly when the policy's time limit
    has passed and the id and PIN are the credential that was set; while the
    limit has not passed the outcome does not depend on the id and PIN. *)
Theorem login_exact s a now now' uid upin :
  PinRep (Login.pin_policy_mgr s) a → (0 ≤ now ≤ now')%Z → (now' < 2 ^ 63)%Z →
  ∃ s', PinRep (Login.pin_policy_mgr s')
          (snd (throttle_step now now' (bool_decide (cred_view (Login.cred_mgr s) = Some (uid, upin))) a)) ∧
    Login.cred_mgr s' = Login.cred_mgr s ∧
    Login.authorize_user_with_pin_policy now now' uid upin s =
      (if (now <? until a)%Z then Err LoginFailed
       else if decide (cred_view (Login.cred_mgr s) = Some (uid, upin)) then Ok tt
       else Err InvalidUserCredential, s').
Proof.
  intros HR H1 H2. unfold Login.authorize_user_with_pin_policy.
  rewrite authorize_user_view. set (b := bool_decide _).
  pose proof (enforce_pin_policy_rep _ a now now' b HR H1 H2) as He.
  destruct (throttle_step now now' b a) as [r a'] eqn:Et. destruct He as (p' & -> & HR').
  exists (Login.mkPartAuth (Login.cred_mgr s) p'). split_and!; [exact HR'|done|]. f_equal.
  unfold throttle_step in Et. subst b.
  destruct (now <? until a)%Z; [by injection Et|].
  case_bool_decide; case_decide; try done; by injection Et.
Qed.

(** ** Boot key seeds *)

Definition bks_wf (t : Bks.BksTable) : Prop :=
  length (Bks.bks1_entries t) = Bks.NUM_BKS1_ENTRIES ∧
  Forall (λ e, length (Bks.svn e) = 8 ∧ Forall (uint_range 8) (Bks.svn e)) (Bks.bks1_entries t).

Definition svn_of (e : Bks.BksTableEntry) : Z := from_le_bytes (Bks.svn e).

(** The seed of a security version is the seed of the first entry with
    that version, none exactly when no entry has it; asking for the current
    version always returns the current seed. *)
Theorem bks_lookup_exact t s :
  bks_wf t → uint_range 64 s →
  (∀ k, Bks.get_bks1 s t = Some k ↔
     ∃ i e, Bks.bks1_entries t !! i = Some e ∧ svn_of e = s ∧ Bks.bks e = k ∧
       ∀ j e', j < i → Bks.bks1_entries t !! j = Some e' → svn_of e' ≠ s) ∧
  (∃ c k, Bks.get_current_svn t = Ok c ∧ Bks.get_bks1_current t = Ok k ∧
     Bks.get_bks1 c t = Some k).
Proof.
  intros [Hlen Hall] Hs.
  assert (∀ i e v, Bks.bks1_entries t !! i = Some e → uint_range 64 v →
            (Bks.svn e = to_le_bytes 8 v ↔ svn_of e = v)) as Heq.
  { intros i e v He Hv. rewrite Forall_lookup in Hall. destruct (Hall _ _ He) as [H8 Hr].
    unfold svn_of. split; [intros ->; by apply from_to_le_bytes|intros <-].
    rewrite <- H8. by rewrite to_from_le_bytes. }
  split.
  - intros k. unfold Bks.get_bks1. rewrite fmap_Some. split.
    + intros ([i e] & H & ->). apply list_find_Some in H as (Hi & Hp & Hj).
      exists i, e. split_and!; [done|by eapply Heq|done|].
      intros j e' Hji He' Hc. eapply Hj; [done..|]. by eapply Heq.
    + intros (i & e & Hi & Hp & <- & Hj). exists (i, e). split; [|done].
      apply list_find_Some. split_and!; [done|by eapply Heq|].
      intros j e' He' Hji Hc. eapply (Hj j e'); [done..|]. by eapply Heq.
  - destruct (Bks.bks1_entries t) as [|e l] eqn:El; [done|].
    exists (svn_of e), (Bks.bks e). unfold Bks.get_current_svn, Bks.get_bks1_current, Bks.get_bks1.
    rewrite El. split_and!; [done..|].
    rewrite Forall_lookup in Hall. destruct (Hall 0 e) as [H8 Hr]; [done|].
    cbn [list_find]. rewrite decide_True; [done|].
    unfold svn_of. rewrite <- H8. by rewrite to_from_le_bytes.
Qed.

(** ** Witnesses *)

Lemma tsc_reads_exact_witness : Tcon.tsc (2 ^ 33 - 5) (2 ^ 33 + 7) = (2 ^ 33 + 7)%Z.
Proof. apply (tsc_reads_exact (2 ^ 33 - 5) (2 ^ 33 + 7)); vm_compute; (done || split; done). Defined.

Lemma pin_policy_refines_witness :
  ∃ p', Pin.enforce_pin_policy 10 12 false Pin.default = (Err InvalidUserCredential, p') ∧
    PinRep p' (mkThrottle 1 12).
Proof.
  apply (pin_policy_refines Pin.default (mkThrottle 0 0) 10 12 false pin_default_rep); lia.
Defined.

Lemma pin_guessing_rate_witness : (0 + total_delay 0 2 ≤ 9)%Z.
Proof.
  eapply (pin_guessing_rate 0 [(1, 2); (3, 4)]%Z 9 2); [lia|lia|cbn; lia| |].
  - vm_compute. reflexivity.
  - vm_compute. reflexivity.
Defined.

Lemma credentials_exact_witness :
  ∃ c', Cred.change_user_cred (replicate 16 1%Z) (replicate 16 2%Z) Cred.default = (Ok tt, c') ∧
    Cred.authorize_user (replicate 16 1%Z) (replicate 16 2%Z) c' = true.
Proof.
  destruct (credentials_exact Cred.default (replicate 16 1%Z) (replicate 16 2%Z) Cred.default
    (replicate 16 1%Z) (replicate 16 2%Z) (conj eq_refl eq_refl)) as (_ & _ & _ & c' & H & _ & _ & H').
  exists c'. split; [exact H|by apply H'].
Defined.

Lemma login_exact_witness :
  ∃ s', Login.authorize_user_with_pin_policy 10 12 (replicate 16 1%Z) (replicate 16 2%Z)
    (Login.mkPartAuth (Cred.mkUserCredential (replicate 16 1%Z) (replicate 16 2%Z) 0) Pin.default)
    = (Ok tt, s').
Proof.
  destruct (login_exact
    (Login.mkPartAuth (Cred.mkUserCredential (replicate 16 1%Z) (replicate 16 2%Z) 0) Pin.default)
    (mkThrottle 0 0) 10 12 (replicate 16 1%Z) (replicate 16 2%Z) pin_default_rep)
    as (s' & _ & _ & H); [lia|lia|].
  exists s'. exact H.
Defined.

Lemma bks_lookup_exact_witness :
  ∃ c k, let t := Bks.mkBksTable (replicate 11 (Bks.mkBksTableEntry 1 (to_le_bytes 8 3) [])) 
                    (Bks.mkBksTableEntry 1 [] []) in
    Bks.get_current_svn t = Ok c ∧ Bks.get_bks1_current t = Ok k ∧ Bks.get_bks1 c t = Some k.
Proof.
  eapply (bks_lookup_exact (Bks.mkBksTable (replicate 11 (Bks.mkBksTableEntry 1 (to_le_bytes 8 3) []))
                    (Bks.mkBksTableEntry 1 [] [])) 3).
  - split; [done|]. apply Forall_replicate. split; [done|apply to_le_bytes_range].
  - done.
Defined.
