(* ===== verification/CmdScheduler.v ===== *)
(** * The command scheduler (hsm/src/cmd_scheduler/scheduler.rs)

    Slots of command state machines addressed by tag, a stack of free tags,
    the masks of occupied and of recently active slots, and a pending drain.
    A command's handler runs while the slots are borrowed, so it can reach
    the scheduler only through the shared ready and cleanup queues; [Shared]
    is what a handler sees.  [CmdFsm] is the trait a command implements. *)

From stdpp Require Import base list numbers option.
From S2P Require Import Prelude HsmError.

(** [CmdFsmError]. *)
Class CmdFsmError (E : Type) := {
  pending : E → bool;
  drain_ready : E → bool
}.

#[global] Instance HsmErr_fsm_error : CmdFsmError HsmErr := {
  pending := HsmErr_pending;
  drain_ready := HsmErr_drain_ready
}.

(** The two queues a handler can push to, and the environment of the
    handlers. *)
Record Shared (Event ResourceId Env : Type) : Type := mkShared {
  ready_queue : list (nat * ResourceId);
  cleanup_queue : list (nat * Event);
  env : Env
}.
Arguments mkShared {_ _ _}.
Arguments ready_queue {_ _ _}.
Arguments cleanup_queue {_ _ _}.
Arguments env {_ _ _}.

(** The traits [CmdFsm] and [CmdFsmEventRecorder].  A handler takes the
    state machine and what it shares with the others, and returns both;
    [acquire_resource] is [None] where it is left unimplemented. *)
Class CmdFsm (Error Fsm Event ResourceId Env Recorder : Type) := {
  fsm_on_event : Event → nat → Fsm → Shared Event ResourceId Env →
    outcome Error () * Fsm * Shared Event ResourceId Env;
  fsm_acquire_resource : nat → ResourceId → Fsm → option Event * Fsm;
  on_event_start : Event → nat → Recorder → Recorder;
  on_event_end : Event → nat → outcome Error () → Recorder → Recorder
}.

(** [u128::trailing_zeros] of a non-zero word: the first set bit from [i]. *)
Fixpoint trailing_zeros_from (n i : nat) (v : Z) : nat :=
  match n with
  | O => i
  | S n => if Z.testbit v (Z.of_nat i) then i else trailing_zeros_from n (S i) v
  end.
Definition trailing_zeros (v : Z) : nat := trailing_zeros_from 128 0 v.

(** [1 << tag] of type [u128]; the shift amount is taken modulo 128. *)
Definition one_shl (tag : nat) : Z := Z.shiftl 1 (Z.of_nat (tag mod 128)).

Module Sched.
Section scheduler.
Context {Error Fsm Event ResourceId Env Recorder : Type}.
Context `{FE : CmdFsmError Error, CF : CmdFsm Error Fsm Event ResourceId Env Recorder}.

Abbreviation shared := (Shared Event ResourceId Env).

(** [CmdSchedulerImpl] with the shared queues of [CmdScheduler]. *)
Record t : Type := mk {
  slots : list (option (Fsm * nat));
  free_tags : list nat;
  recorder : Recorder;
  occupancy_list : Z; (* u128 *)
  access_list : Z; (* u128 *)
  fn_drain : option (shared → shared);
  queues : shared
}.

Definition with_slots (v : list (option (Fsm * nat))) (s : t) : t :=
  mk v (free_tags s) (recorder s) (occupancy_list s) (access_list s) (fn_drain s) (queues s).
Definition with_free_tags (v : list nat) (s : t) : t :=
  mk (slots s) v (recorder s) (occupancy_list s) (access_list s) (fn_drain s) (queues s).
Definition with_recorder (v : Recorder) (s : t) : t :=
  mk (slots s) (free_tags s) v (occupancy_list s) (access_list s) (fn_drain s) (queues s).
Definition with_occupancy (v : Z) (s : t) : t :=
  mk (slots s) (free_tags s) (recorder s) v (access_list s) (fn_drain s) (queues s).
Definition with_access (v : Z) (s : t) : t :=
  mk (slots s) (free_tags s) (recorder s) (occupancy_list s) v (fn_drain s) (queues s).
Definition with_drain (v : option (shared → shared)) (s : t) : t :=
  mk (slots s) (free_tags s) (recorder s) (occupancy_list s) (access_list s) v (queues s).
Definition with_queues (v : shared) (s : t) : t :=
  mk (slots s) (free_tags s) (recorder s) (occupancy_list s) (access_list s) (fn_drain s) v.

(** [CmdSchedulerImpl::new]; [for index in 0..size as u16]. *)
Definition new (size : nat) (rec : Recorder) (sh : shared) : t :=
  let n := Z.to_nat (wrap 16 (Z.of_nat size)) in
  mk (replicate n None) (seq 0 n) rec 0 0 None sh.

(** [self.free_tags.pop()] and [self.slots[tag].fsm = Some((fsm, tag))]. *)
Definition take_tag (fsm : Fsm) : M t Error (option nat) := λ s,
  match list.last (free_tags s) with
  | None => (Ok None, s)
  | Some tag =>
      let s := with_free_tags (removelast (free_tags s)) s in
      if tag <? length (slots s) then
        (Ok (Some tag), with_slots (<[tag := Some (fsm, tag)]> (slots s)) s)
      else (Panic, s)
  end.

Definition alloc (fsm : Fsm) : M t Error (option nat) :=
  o ← take_tag fsm;
  match o with
  | None => mret None
  | Some id =>
      modify (λ s, with_occupancy (Z.lor (occupancy_list s) (one_shl id)) s);;
      mret (Some id)
  end.

Definition alloc_static (fsm : Fsm) : M t Error (option nat) := take_tag fsm.

(** The end of [CmdSlot::on_event]: a command that is de-commissioned. *)
Definition decommission (index tag : nat) (static_fsm : bool) (s : t) : t :=
  let s := if static_fsm then s
           else with_free_tags (free_tags s ++ [tag]) (with_slots (<[index := None]> (slots s)) s) in
  let s := with_occupancy (Z.land (occupancy_list s) (unot 128 (one_shl tag))) s in
  if (occupancy_list s =? 0)%Z then
    match fn_drain s with
    | Some drain_fn => with_queues (drain_fn (queues s)) (with_drain None s)
    | None => s
    end
  else s.

(** [CmdSlot::on_event] of [self.slots[index]]. *)
Definition slot_on_event (event : Event) (index : nat) : M t Error () := λ s,
  match slots s !! index with
  | None => (Panic, s)
  | Some None => (Ok tt, s)
  | Some (Some (fsm, tag)) =>
      let s := with_access (Z.lor (access_list s) (one_shl tag)) s in
      let s := with_recorder (on_event_start event tag (recorder s)) s in
      let '(result, fsm, sh) := fsm_on_event event tag fsm (queues s) in
      let s := with_slots (<[index := Some (fsm, tag)]> (slots s)) (with_queues sh s) in
      match result with
      | Panic => (Panic, s)
      | Ok _ =>
          let s := with_recorder (on_event_end event tag result (recorder s)) s in
          (Ok tt, decommission index tag false s)
      | Err e =>
          let s := with_recorder (on_event_end event tag result (recorder s)) s in
          (Ok tt, if negb (pending e) then decommission index tag (drain_ready e) s else s)
      end
  end.

(** [CmdSchedulerImpl::on_event] and [on_cleanup]. *)
Definition impl_on_event (event : Event) (tag : nat) : M t Error () := slot_on_event event tag.
Definition on_cleanup (tag : nat) (event : Event) : M t Error () := slot_on_event event tag.

Definition on_ready (tag : nat) (res_id : ResourceId) : M t Error () := λ s,
  match slots s !! tag with
  | None => (Panic, s)
  | Some None => (Ok tt, s)
  | Some (Some (fsm, id)) =>
      let '(r, fsm) := fsm_acquire_resource tag res_id fsm in
      let s := with_slots (<[tag := Some (fsm, id)]> (slots s)) s in
      match r with
      | Some event =>
          let s := with_access (Z.lor (access_list s) (one_shl tag)) s in
          slot_on_event event tag s
      | None => (Panic, s)
      end
  end.

Fixpoint for_each {A} (f : A → M t Error ()) (l : list A) : M t Error () :=
  match l with
  | [] => mret tt
  | x :: l => f x;; for_each f l
  end.

(** [CmdScheduler::on_event]: deliver, then run the cleanups and the wakeups
    that were queued when each phase starts. *)
Definition on_event (event : Event) (tag : nat) : M t Error () :=
  impl_on_event event tag;;
  s ← get;
  let cleanup_queue_copy := cleanup_queue (queues s) in
  put (with_queues (mkShared (ready_queue (queues s)) [] (env (queues s))) s);;
  for_each (λ '(tag, event), on_cleanup tag event) cleanup_queue_copy;;
  s ← get;
  let ready_queue_copy := ready_queue (queues s) in
  put (with_queues (mkShared [] (cleanup_queue (queues s)) (env (queues s))) s);;
  for_each (λ '(tag, res_id), on_ready tag res_id) ready_queue_copy.

(** The loop of [on_tick]; 128 rounds empty any [u128] mask. *)
Fixpoint tick_loop (fuel : nat) (timeout_event : Event) (inactive_list : Z) : M t Error () :=
  match fuel with
  | O => mret tt
  | S fuel =>
      if (inactive_list =? 0)%Z then mret tt
      else
        let index := trailing_zeros inactive_list in
        slot_on_event timeout_event index;;
        tick_loop fuel timeout_event (Z.land inactive_list (unot 128 (one_shl index)))
  end.

Definition on_tick (timeout_event : Event) : M t Error () :=
  s ← get;
  tick_loop 128 timeout_event (Z.lxor (occupancy_list s) (access_list s));;
  modify (with_access 0).

Definition drain (io_drain : shared → shared) : M t HsmErr () := λ s,
  match fn_drain s with
  | Some _ => (Err DrainBusy, s)
  | None =>
      if (occupancy_list s =? 0)%Z then (Ok tt, with_queues (io_drain (queues s)) s)
      else (Ok tt, with_drain (Some io_drain) s)
  end.

(** What a handler may do to the queues: [CmdScheduler::wakeup], [cleanup]
    and [rsrc_ownership_transferred]. *)
Definition wakeup (tag : nat) (res_id : ResourceId) (q : shared) : shared :=
  mkShared (ready_queue q ++ [(tag, res_id)]) (cleanup_queue q) (env q).

Definition cleanup (event : Event) (tag : nat) (q : shared) : shared :=
  mkShared (ready_queue q) (cleanup_queue q ++ [(tag, event)]) (env q).

Definition rsrc_ownership_transferred `{EqDecision ResourceId} (res_id : ResourceId)
    (q : shared) : bool :=
  existsb (λ entry, bool_decide (entry.2 = res_id)) (ready_queue q).

End scheduler.
End Sched.
