(* ===== verification/CmdSchedulerProps.v ===== *)
(** * Correctness of the command scheduler

    The scheduler's slots are an abstract pool of commands addressed by tag.
    The invariant ties the free tags, the occupancy mask and the pending
    drain to the pool; it holds for any handlers that queue only tags of the
    pool ([FsmLaws]).  Handlers may panic: then the call panics, and the
    theorems say that nothing else makes it panic. *)

From Stdlib Require Import Sorted.
From stdpp Require Import base sets list numbers option.
From S2P Require Import Prelude HsmError CmdScheduler.

Lemma one_shl_lor v i :
  i < 128 → Z.lor v (one_shl i) = set_bit_to 128 v (Z.of_nat i) true.
Proof. intros Hi. unfold one_shl. by rewrite Nat.mod_small. Qed.

Lemma one_shl_land v i :
  i < 128 → Z.land v (unot 128 (one_shl i)) = set_bit_to 128 v (Z.of_nat i) false.
Proof. intros Hi. unfold one_shl. by rewrite Nat.mod_small. Qed.

(** Bit [i] of a mask, and the set bits in increasing order. *)
Abbreviation bit_of v i := (Z.testbit v (Z.of_nat i)).
Definition bits (v : Z) : list nat := filter (λ i, bit_of v i = true) (seq 0 128).

Lemma bit_of_set v i b j :
  i < 128 → j < 128 →
  bit_of (set_bit_to 128 v (Z.of_nat i) b) j = if decide (i = j) then b else bit_of v j.
Proof. intros. rewrite testbit_set_bit_to by lia. repeat case_decide; (done || lia). Qed.

Lemma bit_of_high v j : uint_range 128 v → 128 ≤ j → bit_of v j = false.
Proof. intros Hv Hj. apply (testbit_above 128 v); [done|lia]. Qed.

Lemma set_range v i b :
  uint_range 128 v → i < 128 → uint_range 128 (set_bit_to 128 v (Z.of_nat i) b).
Proof. intros. apply set_bit_to_range; [done|lia]. Qed.

Lemma mask_eq_0 v : uint_range 128 v → (∀ i, i < 128 → bit_of v i = false) → v = 0%Z.
Proof.
  intros Hv H. apply Z.bits_inj'. intros i Hi. rewrite Z.bits_0.
  destruct (decide (i < 128)%Z).
  - rewrite <- (H (Z.to_nat i)) by lia. f_equal. lia.
  - apply (testbit_above 128 v); [done|lia].
Qed.

Lemma filter_ext_Forall {A} (P Q : A → Prop) `{∀ x, Decision (P x), ∀ x, Decision (Q x)} l :
  Forall (λ x, P x ↔ Q x) l → filter P l = filter Q l.
Proof.
  induction 1 as [|x l Hx _ IH]; [done|]. rewrite !filter_cons, IH.
  repeat case_decide; naive_solver.
Qed.

Lemma trailing_zeros_first v : ∀ n k,
  k + n = 128 → (∃ i, k ≤ i < k + n ∧ bit_of v i = true) →
  let z := trailing_zeros_from n k v in
  k ≤ z < k + n ∧ bit_of v z = true ∧
  filter (λ i, bit_of v i = true) (seq k n)
    = z :: filter (λ i, bit_of (set_bit_to 128 v (Z.of_nat z) false) i = true) (seq k n).
Proof.
  induction n as [|n IH]; intros k Hk (i & Hi & Hb); [lia|]. cbn [trailing_zeros_from seq].
  rewrite !filter_cons. destruct (Z.testbit v (Z.of_nat k)) eqn:E.
  - rewrite decide_True by done. split_and!; [lia|lia|done|]. f_equal.
    rewrite decide_False by (rewrite bit_of_set by lia; by rewrite decide_True).
    apply filter_ext_Forall,  Forall_seq. intros j Hj.
    rewrite bit_of_set by lia. by rewrite decide_False by lia.
  - rewrite decide_False by congruence.
    destruct (IH (S k)) as (H1 & H2 & H3); [lia| |].
    { exists i. split; [|done]. destruct (decide (i = k)); [congruence|lia]. }
    split_and!; [lia|lia|done|]. rewrite H3. f_equal.
    rewrite decide_False; [done|]. rewrite bit_of_set by lia.
    rewrite decide_False by lia. congruence.
Qed.

Lemma filter_seq_sorted (P : nat → Prop) `{∀ x, Decision (P x)} n k :
  StronglySorted lt (filter P (seq k n)).
Proof.
  revert k. induction n as [|n IH]; intros k; cbn [seq]; [constructor|].
  rewrite filter_cons. case_decide; [|done]. constructor; [done|].
  apply list.Forall_forall. intros j Hj. apply list_elem_of_filter in Hj as [_ Hj].
  apply elem_of_seq in Hj. lia.
Qed.

Lemma bits_0 : bits 0 = [].
Proof. reflexivity. Qed.

(** The mask's first set bit and the mask without it. *)
Lemma bits_step v :
  uint_range 128 v → v ≠ 0%Z →
  trailing_zeros v < 128 ∧ bit_of v (trailing_zeros v) = true ∧
  bits v = trailing_zeros v :: bits (Z.land v (unot 128 (one_shl (trailing_zeros v)))) ∧
  uint_range 128 (Z.land v (unot 128 (one_shl (trailing_zeros v)))).
Proof.
  intros Hv Hn. destruct (trailing_zeros_first v 128 0) as (H1 & H2 & H3); [done| |].
  { destruct (decide (Exists (λ i, bit_of v i = true) (seq 0 128))) as [H|H].
    - apply Exists_exists in H as (i & Hi%in_seq & Hb). exists i. split; [lia|done].
    - exfalso. apply Hn, mask_eq_0; [done|]. intros i Hi.
      rewrite <- Forall_Exists_neg, Forall_seq in H. specialize (H i).
      destruct (bit_of v i); [|done]. exfalso. apply H; [lia|done]. }
  fold (trailing_zeros v) in *. rewrite one_shl_land by lia.
  split_and!; [lia|done|exact H3|]. apply set_range; [done|lia].
Qed.

Section props.
Context {Error Fsm Event ResourceId Env Recorder : Type}.
Context `{FE : CmdFsmError Error, CF : CmdFsm Error Fsm Event ResourceId Env Recorder}.

Abbreviation shared := (Shared Event ResourceId Env).
Abbreviation sched := (@Sched.t Fsm Event ResourceId Env Recorder).

(** The abstract pool: the command with a tag, and whether it is counted as
    outstanding. *)
Definition command (s : sched) (i : nat) : option Fsm :=
  match Sched.slots s !! i with Some (Some (f, _)) => Some f | _ => None end.
Definition outstanding (s : sched) (i : nat) : bool := bit_of (Sched.occupancy_list s) i.

Definition queues_ok (n : nat) (q : shared) : Prop :=
  Forall (λ e, e.1 < n) (ready_queue q) ∧ Forall (λ e, e.1 < n) (cleanup_queue q).

Record sched_wf (n : nat) (s : sched) : Prop := {
  wf_size : n ≤ 128;
  wf_slots : length (Sched.slots s) = n;
  wf_nodup : NoDup (Sched.free_tags s);
  wf_free : ∀ i, i ∈ Sched.free_tags s ↔ Sched.slots s !! i = Some None;
  wf_tag : ∀ i f k, Sched.slots s !! i = Some (Some (f, k)) → k = i;
  wf_occ_range : uint_range 128 (Sched.occupancy_list s);
  wf_occ : ∀ i, outstanding s i = true → is_Some (command s i);
  wf_acc_range : uint_range 128 (Sched.access_list s);
  wf_acc : ∀ i, bit_of (Sched.access_list s) i = true → i < n;
  wf_drain : ∀ f, Sched.fn_drain s = Some f →
    Sched.occupancy_list s ≠ 0%Z ∧ ∀ q, queues_ok n q → queues_ok n (f q);
  wf_queues : queues_ok n (Sched.queues s)
}.

(** What the scheduler relies on: a handler that returns has queued only tags
    of the pool. *)
Definition FsmLaws (n : nat) : Prop := ∀ ev tag f q,
  queues_ok n q → (fsm_on_event ev tag f q).1.1 ≠ Panic → queues_ok n (fsm_on_event ev tag f q).2.

Lemma new_wf n rec q :
  n ≤ 128 → queues_ok n q → sched_wf n (Sched.new n rec q).
Proof.
  intros Hn Hq. unfold Sched.new.
  assert (Z.to_nat (wrap 16 (Z.of_nat n)) = n) as ->.
  { rewrite wrap_small by (unfold uint_range; lia). lia. }
  constructor; cbn.
  - done.
  - by rewrite length_replicate.
  - apply NoDup_seq.
  - intros i. rewrite elem_of_seq, lookup_replicate. naive_solver lia.
  - intros i f k H%lookup_replicate. naive_solver.
  - done.
  - intros i. unfold outstanding. cbn. by rewrite Z.bits_0.
  - done.
  - intros i. by rewrite Z.bits_0.
  - done.
  - done.
Qed.

Lemma wf_free_lt n s i : sched_wf n s → i ∈ Sched.free_tags s → i < n.
Proof.
  intros H Hi%(wf_free n s H). apply lookup_lt_Some in Hi. by rewrite (wf_slots n s H) in Hi.
Qed.

Lemma command_lt n s i : sched_wf n s → is_Some (command s i) → i < n.
Proof.
  intros H [f Hf]. unfold command in Hf. destruct (Sched.slots s !! i) eqn:E; [|done].
  apply lookup_lt_Some in E. by rewrite (wf_slots n s H) in E.
Qed.

Lemma command_slot n s i f :
  sched_wf n s → command s i = Some f → Sched.slots s !! i = Some (Some (f, i)).
Proof.
  intros H Hf. unfold command in Hf.
  destruct (Sched.slots s !! i) as [[[f' k]|]|] eqn:E; simplify_eq/=.
  by rewrite (wf_tag n s H _ _ _ E).
Qed.

(** Access bits of the pool keep the invariant. *)
Lemma with_access_wf n s v :
  sched_wf n s → uint_range 128 v → (∀ i, bit_of v i = true → i < n) →
  sched_wf n (Sched.with_access v s).
Proof. intros [] ? ?. by constructor. Qed.

Lemma touch_wf n s i :
  sched_wf n s → i < n →
  sched_wf n (Sched.with_access (Z.lor (Sched.access_list s) (one_shl i)) s).
Proof.
  intros H Hi. pose proof (wf_size n s H). rewrite one_shl_lor by lia.
  apply with_access_wf; [done|apply set_range; [by eapply wf_acc_range|lia]|].
  intros j Hj. destruct (decide (j < 128)).
  - rewrite bit_of_set in Hj by lia. case_decide; [lia|]. by eapply wf_acc.
  - rewrite bit_of_high in Hj; [done|apply set_range; [by eapply wf_acc_range|lia]|lia].
Qed.

Lemma with_recorder_wf n s r : sched_wf n s → sched_wf n (Sched.with_recorder r s).
Proof. intros []. by constructor. Qed.

Lemma with_queues_wf n s q : sched_wf n s → queues_ok n q → sched_wf n (Sched.with_queues q s).
Proof. intros [] ?. by constructor. Qed.

(** Replacing the state machine of a live slot. *)
Lemma update_slot_wf n s i f f' :
  sched_wf n s → command s i = Some f →
  sched_wf n (Sched.with_slots (<[i := Some (f', i)]> (Sched.slots s)) s).
Proof.
  intros H Hf. pose proof (command_slot n s i f H Hf) as Hs.
  pose proof (lookup_lt_Some _ _ _ Hs) as Hlt. destruct H. constructor; cbn; try done.
  - by rewrite length_insert.
  - intros j. rewrite wf_free0. destruct (decide (i = j)) as [->|Hj].
    + rewrite list_lookup_insert_eq by done. naive_solver congruence.
    + by rewrite list_lookup_insert_ne.
  - intros j g k. destruct (decide (i = j)) as [->|Hj].
    + rewrite list_lookup_insert_eq by done. naive_solver.
    + rewrite list_lookup_insert_ne by done. naive_solver.
  - intros j Hj. destruct (wf_occ0 j Hj) as [g Hg]. unfold command in *. cbn.
    destruct (decide (i = j)) as [->|Hne].
    + rewrite list_lookup_insert_eq by done. eauto.
    + rewrite list_lookup_insert_ne by done. eauto.
Qed.

(** Clearing an occupancy bit. *)
Lemma occupancy_cleared n s i :
  sched_wf n s → i < n →
  let v := Z.land (Sched.occupancy_list s) (unot 128 (one_shl i)) in
  uint_range 128 v ∧
  ∀ j, bit_of v j = if decide (i = j) then false else outstanding s j.
Proof.
  intros H Hi v. pose proof (wf_size n s H). subst v. rewrite one_shl_land by lia.
  pose proof (set_range _ i false (wf_occ_range n s H)) as Hr. split; [apply Hr; lia|].
  intros j. destruct (decide (j < 128)).
  - by rewrite bit_of_set by lia.
  - rewrite bit_of_high by (apply Hr || idtac; lia).
    unfold outstanding. rewrite bit_of_high; [by case_decide|by eapply wf_occ_range|lia].
Qed.

(** The drain at the end of [decommission]. *)
Definition run_drain (s : sched) : sched :=
  if (Sched.occupancy_list s =? 0)%Z then
    match Sched.fn_drain s with
    | Some f => Sched.with_queues (f (Sched.queues s)) (Sched.with_drain None s)
    | None => s
    end
  else s.

Lemma run_drain_fields s :
  Sched.slots (run_drain s) = Sched.slots s ∧
  Sched.free_tags (run_drain s) = Sched.free_tags s ∧
  Sched.occupancy_list (run_drain s) = Sched.occupancy_list s ∧
  Sched.access_list (run_drain s) = Sched.access_list s.
Proof. unfold run_drain. destruct (_ =? _)%Z; [|done]. by destruct (Sched.fn_drain s). Qed.

Lemma decommission_wf n s i f static :
  sched_wf n s → command s i = Some f → sched_wf n (Sched.decommission i i static s).
Proof.
  intros H Hf. pose proof (command_slot n s i f H Hf) as Hs.
  pose proof (lookup_lt_Some _ _ _ Hs) as Hlt.
  assert (i < n) as Hi by (by rewrite <- (wf_slots n s H)).
  assert (i ∉ Sched.free_tags s) as Hnf by (rewrite (wf_free n s H); congruence).
  destruct (occupancy_cleared n s i H Hi) as [Hr Hb].
  unfold Sched.decommission.
  set (s1 := if static then s else _).
  set (s2 := Sched.with_occupancy _ s1).
  change (sched_wf n (run_drain s2)).
  destruct (run_drain_fields s2) as (E1 & E2 & E3 & E4).
  assert (Sched.occupancy_list s2 = Z.land (Sched.occupancy_list s) (unot 128 (one_shl i))) as Eo.
  { subst s2 s1. by destruct static. }
  constructor; unfold outstanding, command; rewrite ?E1, ?E2, ?E3, ?E4, ?Eo; try done.
  - by eapply wf_size.
  - subst s2 s1. destruct static; cbn; [|rewrite length_insert]; by eapply wf_slots.
  - subst s2 s1. destruct static; cbn; [by eapply wf_nodup|].
    apply list.NoDup_app. split_and!; [by eapply wf_nodup| |apply NoDup_singleton].
    intros x Hx ->%list_elem_of_singleton. done.
  - intros j. subst s2 s1. destruct static; cbn; [by eapply wf_free|].
    rewrite elem_of_app, list_elem_of_singleton, (wf_free n s H).
    destruct (decide (i = j)) as [->|Hj].
    + rewrite list_lookup_insert_eq by done. naive_solver.
    + rewrite list_lookup_insert_ne by done. naive_solver.
  - intros j g k. subst s2 s1. destruct static; cbn; [by eapply wf_tag|].
    destruct (decide (i = j)) as [->|Hj].
    + rewrite list_lookup_insert_eq by done. naive_solver.
    + rewrite list_lookup_insert_ne by done. by eapply wf_tag.
  - intros j. rewrite Hb. case_decide as Hj; [done|]. intros Ho.
    destruct (wf_occ n s H j Ho) as [g Hg].
    subst s2 s1. destruct static; cbn; [by exists g|].
    rewrite list_lookup_insert_ne by done. by exists g.
  - subst s2 s1. destruct static; cbn; by eapply wf_acc_range.
  - subst s2 s1. destruct static; cbn; by eapply wf_acc.
  - intros g. assert (Sched.fn_drain s2 = Sched.fn_drain s) as Ed by (subst s2 s1; by destruct static).
    unfold run_drain. rewrite Eo, Ed. destruct (Z.eqb_spec (Z.land (Sched.occupancy_list s) (unot 128 (one_shl i))) 0).
    + destruct (Sched.fn_drain s) eqn:Es; [done|]. by rewrite Ed.
    + rewrite Ed. intros Hg. split; [done|]. by eapply wf_drain.
  - assert (Sched.fn_drain s2 = Sched.fn_drain s ∧ Sched.queues s2 = Sched.queues s) as [Ed Eq]
      by (subst s2 s1; by destruct static).
    unfold run_drain. rewrite Ed. pose proof (wf_queues n s H) as Hq.
    destruct (_ =? _)%Z; [|by rewrite Eq].
    destruct (Sched.fn_drain s) as [g|] eqn:Es; [|by rewrite Eq].
    change (queues_ok n (g (Sched.queues s2))). rewrite Eq. by eapply wf_drain.
Qed.

(** Calls that return keep the invariant; a call that panics leaves in a slot
    the command that made it panic. *)
Definition blamed (blame : Fsm → Prop) (s : sched) : Prop := ∃ i f, command s i = Some f ∧ blame f.
Definition safe (n : nat) (blame : Fsm → Prop) (x : outcome Error () * sched) : Prop :=
  (x.1 = Ok tt ∧ sched_wf n x.2) ∨ (x.1 = Panic ∧ blamed blame x.2).

(** A predicate that holds of the commands that panicked. *)
Record Blame (blame : Fsm → Prop) : Prop := {
  blame_event ev tag f q : (fsm_on_event ev tag f q).1.1 = Panic → blame (fsm_on_event ev tag f q).1.2;
  blame_acquire tag r f : (fsm_acquire_resource tag r f).1 = None → blame (fsm_acquire_resource tag r f).2
}.

Section laws.
Context (n : nat) (laws : FsmLaws n) (blame : Fsm → Prop) (HB : Blame blame).

Lemma safe_bind (m k : M sched Error ()) (s : sched) :
  safe n blame (m s) → (∀ s', sched_wf n s' → safe n blame (k s')) → safe n blame ((m ;; k) s).
Proof.
  unfold mbind, M_bind. intros Hm Hk. destruct (m s) as [r s1].
  destruct Hm as [[Hr H1]|[Hr Hb]]; cbn in Hr; subst r; [by apply Hk|by right].
Qed.

(** Delivery of an event to a slot of the pool. *)
Lemma slot_on_event_safe ev i s :
  sched_wf n s → i < n → safe n blame (Sched.slot_on_event ev i s).
Proof using laws HB FE.
  intros H Hi. unfold Sched.slot_on_event.
  destruct (Sched.slots s !! i) as [[[f k]|]|] eqn:Es.
  - pose proof (wf_tag n s H _ _ _ Es) as ->. cbn zeta.
    set (s1 := Sched.with_recorder _ _).
    assert (sched_wf n s1) as H1 by (apply with_recorder_wf, touch_wf; done).
    assert (command s1 i = Some f) as Hc by (unfold command; cbn; by rewrite Es).
    pose proof (laws ev i f (Sched.queues s1) (wf_queues n s1 H1)) as Hq.
    pose proof (blame_event blame HB ev i f (Sched.queues s1)) as Hp.
    destruct (fsm_on_event ev i f (Sched.queues s1)) as [[r f'] q'] eqn:Ef. cbn in Hp, Hq.
    change (Sched.slots (Sched.with_queues q' s1)) with (Sched.slots s1).
    set (s2 := Sched.with_slots _ (Sched.with_queues q' s1)).
    assert (command s2 i = Some f') as Hc2.
    { unfold command. cbn. rewrite list_lookup_insert_eq; [done|]. by eapply lookup_lt_Some. }
    assert (r ≠ Panic → sched_wf n s2) as H2.
    { intros Hr. apply (update_slot_wf n (Sched.with_queues q' s1) i f f'); [|done]. apply with_queues_wf; auto. }
    destruct r as [a|e|]; [left|left|right].
    + split; [done|]. eapply decommission_wf; [by apply with_recorder_wf, H2|exact Hc2].
    + split; [done|]. destruct (negb (pending e)); [|by apply with_recorder_wf, H2].
      eapply decommission_wf; [by apply with_recorder_wf, H2|exact Hc2].
    + split; [done|]. exists i, f'. auto.
  - by left.
  - apply lookup_ge_None in Es. rewrite (wf_slots n s H) in Es. lia.
Qed.

Lemma on_ready_safe i r s : sched_wf n s → i < n → safe n blame (Sched.on_ready i r s).
Proof using laws HB FE.
  intros H Hi. unfold Sched.on_ready.
  destruct (Sched.slots s !! i) as [[[f k]|]|] eqn:Es.
  - pose proof (wf_tag n s H _ _ _ Es) as ->.
    pose proof (blame_acquire blame HB i r f) as Ha.
    destruct (fsm_acquire_resource i r f) as [o f'] eqn:Ea. cbn in Ha. destruct o as [e|].
    + apply slot_on_event_safe; [|done]. apply touch_wf; [|done].
      eapply (update_slot_wf n s i f f'); [done|]. unfold command. by rewrite Es.
    + right. split; [done|]. exists i, f'. split; [|by apply Ha].
      unfold command. cbn. rewrite list_lookup_insert_eq; [done|]. by eapply lookup_lt_Some.
  - by left.
  - apply lookup_ge_None in Es. rewrite (wf_slots n s H) in Es. lia.
Qed.

Lemma for_each_safe {A} (f : A → M sched Error ()) (P : A → Prop) l s :
  (∀ x s, P x → sched_wf n s → safe n blame (f x s)) →
  Forall P l → sched_wf n s → safe n blame (Sched.for_each f l s).
Proof.
  intros Hf Hl. revert s. induction Hl as [|x l Hx Hl IH]; intros s H; [by left|].
  cbn [Sched.for_each]. apply safe_bind; auto.
Qed.

Lemma on_event_safe ev i s : sched_wf n s → i < n → safe n blame (Sched.on_event ev i s).
Proof using laws HB FE.
  intros H Hi. unfold Sched.on_event, Sched.impl_on_event.
  apply safe_bind; [by apply slot_on_event_safe|]. intros s1 H1.
  pose proof (wf_queues n s1 H1) as [Hr Hc]. unfold mbind at 1, M_bind at 1, get at 1. cbv zeta.
  apply safe_bind.
  { left. split; [done|]. apply with_queues_wf; [done|]. split; [done|constructor]. }
  intros s1' H1'. apply safe_bind.
  { apply (for_each_safe _ (λ e, e.1 < n)); [|done..]. intros [tag e] s' Ht Hs'. by apply slot_on_event_safe. }
  intros s2 H2. pose proof (wf_queues n s2 H2) as [Hr2 Hc2].
  unfold mbind at 1, M_bind at 1, get at 1. cbv zeta. apply safe_bind.
  { left. split; [done|]. apply with_queues_wf; [done|]. split; [constructor|done]. }
  intros s2' H2'. apply (for_each_safe _ (λ e, e.1 < n)); [|done..].
  intros [tag r] s' Ht Hs'. by apply on_ready_safe.
Qed.

End laws.

(** The loop over the mask visits its set bits in increasing order. *)
Lemma tick_loop_bits ev fuel v s :
  uint_range 128 v → length (bits v) ≤ fuel →
  Sched.tick_loop fuel ev v s = Sched.for_each (Sched.slot_on_event ev) (bits v) s.
Proof.
  revert v s. induction fuel as [|fuel IH]; intros v s Hv Hl.
  - destruct (bits v) eqn:E; [done|cbn in Hl; lia].
  - cbn [Sched.tick_loop]. destruct (Z.eqb_spec v 0) as [->|Hn]; [done|].
    destruct (bits_step v Hv Hn) as (_ & _ & Eb & Hr). rewrite Eb in Hl |- *. cbn [length] in Hl.
    cbn [Sched.for_each]. unfold mbind, M_bind.
    destruct (Sched.slot_on_event ev (trailing_zeros v) s) as [[?|?|] s']; [|done..].
    apply IH; [done|lia].
Qed.

Lemma bits_length v : length (bits v) ≤ 128.
Proof. unfold bits. etrans; [apply length_filter|]. by rewrite length_seq. Qed.

Lemma uint_range_lxor v w :
  uint_range 128 v → uint_range 128 w → uint_range 128 (Z.lxor v w).
Proof.
  intros Hv Hw. apply uint_range_bits; [lia| |].
  - unfold uint_range in *. apply Z.lxor_nonneg. lia.
  - intros i Hi. by rewrite Z.lxor_spec, !(testbit_above 128).
Qed.

(** The tags a tick is delivered to. *)
Definition tick_recipients (s : sched) : list nat :=
  bits (Z.lxor (Sched.occupancy_list s) (Sched.access_list s)).

Lemma tick_recipients_lt n s : sched_wf n s → Forall (λ i, i < n) (tick_recipients s).
Proof.
  intros H. apply list.Forall_forall. intros i Hi. unfold tick_recipients, bits in Hi.
  apply list_elem_of_filter in Hi as [Hb Hi]. rewrite Z.lxor_spec in Hb.
  destruct (bit_of (Sched.occupancy_list s) i) eqn:Eo.
  - eapply command_lt; [done|]. by eapply wf_occ.
  - destruct (bit_of (Sched.access_list s) i) eqn:Ea; [|done]. by eapply wf_acc.
Qed.

Lemma on_tick_eq n ev s :
  sched_wf n s →
  Sched.on_tick ev s =
    (Sched.for_each (Sched.slot_on_event ev) (tick_recipients s) ;; modify (Sched.with_access 0)) s.
Proof.
  intros H. unfold Sched.on_tick, mbind, M_bind, get. rewrite tick_loop_bits; [done| |].
  - apply uint_range_lxor; [by eapply wf_occ_range|by eapply wf_acc_range].
  - apply bits_length.
Qed.

Lemma on_tick_safe n blame ev s :
  FsmLaws n → Blame blame → sched_wf n s → safe n blame (Sched.on_tick ev s).
Proof.
  intros L HB H. rewrite (on_tick_eq n) by done. apply safe_bind.
  - apply (for_each_safe n blame _ (λ i, i < n)); [|by apply tick_recipients_lt|done].
    intros i s' Hi Hs'. by apply slot_on_event_safe.
  - intros s1 H1. left. split; [done|]. apply with_access_wf; [done|done|]. intros i. by rewrite Z.bits_0.
Qed.

(** ** Allocation *)

Lemma free_tags_split n s tag :
  sched_wf n s → list.last (Sched.free_tags s) = Some tag →
  ∃ l, Sched.free_tags s = l ++ [tag] ∧ removelast (Sched.free_tags s) = l ∧ (tag ∉ l) ∧
    NoDup l ∧ Sched.slots s !! tag = Some None ∧ tag < n.
Proof.
  intros H (l & El)%last_Some. exists l. pose proof (wf_nodup n s H) as Hd.
  rewrite El in Hd. apply list.NoDup_app in Hd as (Hd & Hx & _).
  assert (tag ∈ Sched.free_tags s) as Ht by (rewrite El; set_solver).
  split_and!; [done|by rewrite El, removelast_last|set_solver|done|by apply (wf_free n s H)|].
  by eapply wf_free_lt.
Qed.

(** The state after a tag is taken for [f]; [counted] commands are those of
    [alloc], the others those of [alloc_static]. *)
Definition installed (tag : nat) (f : Fsm) (counted : bool) (s : sched) : sched :=
  let s1 := Sched.with_slots (<[tag := Some (f, tag)]> (Sched.slots s))
              (Sched.with_free_tags (removelast (Sched.free_tags s)) s) in
  if counted then Sched.with_occupancy (Z.lor (Sched.occupancy_list s) (one_shl tag)) s1 else s1.

Lemma installed_wf n s tag f counted :
  sched_wf n s → list.last (Sched.free_tags s) = Some tag →
  sched_wf n (installed tag f counted s) ∧
  (∀ j, command (installed tag f counted s) j = if decide (tag = j) then Some f else command s j) ∧
  (∀ j, outstanding (installed tag f counted s) j
     = if decide (tag = j) then counted else outstanding s j).
Proof.
  intros H Hl. destruct (free_tags_split n s tag H Hl) as (l & El & Er & Hnl & Hnd & Hs & Hlt).
  pose proof (wf_size n s H) as Hn. pose proof (lookup_lt_Some _ _ _ Hs) as Hts.
  assert (∀ j, command (installed tag f counted s) j
             = if decide (tag = j) then Some f else command s j) as Hc.
  { intros j. unfold command. destruct counted; cbn; (case_decide as Hj;
      [subst j; by rewrite list_lookup_insert_eq|by rewrite list_lookup_insert_ne]). }
  assert (outstanding s tag = false) as Hot.
  { destruct (outstanding s tag) eqn:E; [|done]. apply (wf_occ n s H) in E as [g Hg].
    unfold command in Hg. by rewrite Hs in Hg. }
  pose proof (set_range _ tag true (wf_occ_range n s H)) as Hr.
  assert (∀ j, outstanding (installed tag f counted s) j
             = if decide (tag = j) then counted else outstanding s j) as Ho.
  { intros j. unfold outstanding. destruct counted; cbn.
    - rewrite one_shl_lor by lia. destruct (decide (j < 128)); [by apply bit_of_set; lia|].
      rewrite (bit_of_high _ j) by (apply Hr || idtac; lia). rewrite decide_False by lia.
      symmetry. apply bit_of_high; [by eapply wf_occ_range|lia].
    - case_decide; [by subst|done]. }
  split; [|done]. constructor.
  - done.
  - destruct counted; cbn; rewrite length_insert; by eapply wf_slots.
  - destruct counted; cbn; by rewrite Er.
  - intros j. transitivity (j ∈ l); [destruct counted; cbn; by rewrite Er|].
    transitivity (<[tag := Some (f, tag)]> (Sched.slots s) !! j = Some None);
      [|by destruct counted].
    destruct (decide (tag = j)) as [->|Hj].
    + rewrite list_lookup_insert_eq by done. naive_solver.
    + rewrite list_lookup_insert_ne, <- (wf_free n s H), El by done. set_solver.
  - intros j g k Hj. assert (<[tag := Some (f, tag)]> (Sched.slots s) !! j = Some (Some (g, k)))
      as Hj' by (by destruct counted).
    destruct (decide (tag = j)) as [->|Hne].
    + rewrite list_lookup_insert_eq in Hj' by done. naive_solver.
    + rewrite list_lookup_insert_ne in Hj' by done. by eapply wf_tag.
  - destruct counted; cbn; [rewrite one_shl_lor by lia; apply Hr; lia|by eapply wf_occ_range].
  - intros j. rewrite Ho, Hc. case_decide; [eauto|by apply wf_occ with n].
  - destruct counted; by apply (wf_acc_range n s H).
  - destruct counted; by apply (wf_acc n s H).
  - intros g Hg. assert (Sched.fn_drain s = Some g) as Hg' by (by destruct counted).
    destruct (wf_drain n s H g Hg') as [Hz Hq]. split; [|done]. intros Hz'. apply Hz.
    apply mask_eq_0; [by eapply wf_occ_range|]. intros j Hj. pose proof (Ho j) as Hoj.
    unfold outstanding in Hoj. rewrite Hz', Z.bits_0 in Hoj. case_decide; [by subst|done].
  - destruct counted; by apply (wf_queues n s H).
Qed.

Lemma take_tag_spec n s f :
  sched_wf n s →
  match list.last (Sched.free_tags s) with
  | None => Sched.take_tag (Error:=Error) f s = (Ok None, s) ∧ ∀ i, i < n → is_Some (command s i)
  | Some tag => Sched.take_tag (Error:=Error) f s = (Ok (Some tag), installed tag f false s) ∧
      tag < n ∧ command s tag = None
  end.
Proof.
  intros H. unfold Sched.take_tag. destruct (list.last _) as [tag|] eqn:El.
  - destruct (free_tags_split n s tag H El) as (l & _ & _ & _ & _ & Hs & Hlt).
    cbn zeta. rewrite (proj2 (Nat.ltb_lt _ _)).
    + split_and!; [done..|]. unfold command. by rewrite Hs.
    + cbn. by rewrite (wf_slots n s H).
  - split; [done|]. intros i Hi. apply last_None in El.
    rewrite <- (wf_slots n s H) in Hi. apply lookup_lt_is_Some in Hi as [o Ho].
    unfold command. rewrite Ho. destruct o as [[g k]|]; [eauto|].
    apply (wf_free n s H) in Ho. rewrite El in Ho. by apply not_elem_of_nil in Ho.
Qed.

Lemma alloc_spec n s f (counted : bool) :
  sched_wf n s →
  let r : outcome Error (option nat) * sched :=
    if counted then Sched.alloc f s else Sched.alloc_static f s in
  match list.last (Sched.free_tags s) with
  | None => r = (Ok None, s) ∧ ∀ i, i < n → is_Some (command s i)
  | Some tag => r = (Ok (Some tag), installed tag f counted s) ∧ tag < n ∧ command s tag = None
  end.
Proof.
  intros H r. subst r. pose proof (take_tag_spec n s f H) as Ht. unfold Sched.alloc_static.
  destruct counted; [|done]. unfold Sched.alloc, mbind, M_bind.
  destruct (list.last _) as [tag|]; destruct Ht as [-> Ht]; done.
Qed.

(** ** Drain *)

Lemma drain_spec n s f :
  sched_wf n s → (∀ q, queues_ok n q → queues_ok n (f q)) →
  sched_wf n (snd (Sched.drain f s)) ∧ fst (Sched.drain f s) ≠ Panic.
Proof.
  intros H Hf. unfold Sched.drain. destruct (Sched.fn_drain s) eqn:Ed; [done|].
  destruct (Z.eqb_spec (Sched.occupancy_list s) 0) as [Hz|Hz]; cbn.
  - split; [|done]. apply with_queues_wf; [done|]. apply Hf. by eapply wf_queues.
  - split; [|done]. destruct H. constructor; cbn; try done. intros g Hg. by simplify_eq.
Qed.

(** ** One delivery *)

(** Whether a command keeps its slot, and whether it stays outstanding, after
    its handler returned [r]. *)
Definition keeps_slot (r : outcome Error ()) : bool :=
  match r with Err e => pending e || drain_ready e | _ => false end.
Definition stays_outstanding (r : outcome Error ()) (before : bool) : bool :=
  match r with Err e => pending e && before | _ => false end.

Definition drained (occ : Z) (d : option (shared → shared)) (q : shared) :
    option (shared → shared) * shared :=
  match d with
  | Some f => if (occ =? 0)%Z then (None, f q) else (Some f, q)
  | None => (None, q)
  end.

Lemma decommission_spec n s i f static q :
  sched_wf n s → command s i = Some f →
  let s' := Sched.decommission i i static (Sched.with_queues q s) in
  (∀ j, command s' j = if decide (i = j) then (if static then Some f else None) else command s j) ∧
  (∀ j, outstanding s' j = if decide (i = j) then false else outstanding s j) ∧
  (Sched.fn_drain s', Sched.queues s')
    = drained (Sched.occupancy_list s') (Sched.fn_drain s) q.
Proof.
  intros H Hf s'. pose proof (command_slot n s i f H Hf) as Hs.
  pose proof (lookup_lt_Some _ _ _ Hs) as Hlt.
  destruct (occupancy_cleared n s i H) as [_ Hb]; [by eapply command_lt|].
  set (sq := Sched.with_queues q s) in s'.
  set (s1 := if static then sq else Sched.with_free_tags (Sched.free_tags s ++ [i])
               (Sched.with_slots (<[i := None]> (Sched.slots s)) sq)).
  set (s2 := Sched.with_occupancy (Z.land (Sched.occupancy_list s1) (unot 128 (one_shl i))) s1).
  change s' with (run_drain s2). clear s'.
  assert (Sched.occupancy_list s2 = Z.land (Sched.occupancy_list s) (unot 128 (one_shl i)))
    as Eo by (subst s2 s1; by destruct static).
  destruct (run_drain_fields s2) as (E1 & _ & E3 & _). split_and!.
  - intros j. unfold command. rewrite E1. subst s2 s1. destruct static; cbn.
    + case_decide; [subst; by rewrite Hs|done].
    + case_decide; [subst; by rewrite list_lookup_insert_eq|by rewrite list_lookup_insert_ne].
  - intros j. rewrite <- Hb. unfold outstanding. by rewrite E3, Eo.
  - rewrite E3. unfold run_drain, drained.
    assert (Sched.fn_drain s2 = Sched.fn_drain s ∧ Sched.queues s2 = q) as [Ed Eq]
      by (subst s2 s1; by destruct static).
    rewrite Ed. destruct (Sched.fn_drain s) as [g|]; destruct (_ =? _)%Z.
    + change ((None, g (Sched.queues s2)) = (@None (shared → shared), g q)).
      by rewrite Eq.
    + by rewrite Ed, Eq.
    + by rewrite Ed, Eq.
    + by rewrite Ed, Eq.
Qed.

(** An event delivered to a live command runs its handler once with the
    shared queues; the command keeps its slot exactly when it is pending or
    a static command ready to drain, otherwise the slot is free again; it
    stays outstanding only while pending; and when the last outstanding
    command is gone the pending drain runs, once.  No other command is
    touched. *)
Theorem event_delivery_exact n s ev i f r f' q' :
  sched_wf n s → command s i = Some f →
  fsm_on_event ev i f (Sched.queues s) = (r, f', q') → r ≠ Panic →
  ∃ s', Sched.slot_on_event ev i s = (Ok tt, s') ∧
    (∀ j, command s' j =
       if decide (i = j) then (if keeps_slot r then Some f' else None) else command s j) ∧
    (∀ j, outstanding s' j =
       if decide (i = j) then stays_outstanding r (outstanding s i) else outstanding s j) ∧
    (Sched.fn_drain s', Sched.queues s') = drained (Sched.occupancy_list s') (Sched.fn_drain s) q'.
Proof.
  intros H Hf Hr Hp. pose proof (command_slot n s i f H Hf) as Hs.
  pose proof (lookup_lt_Some _ _ _ Hs) as Hlt.
  unfold Sched.slot_on_event. rewrite Hs. cbn zeta.
  set (s1 := Sched.with_recorder _ _). change (Sched.queues s1) with (Sched.queues s).
  rewrite Hr. set (s2 := Sched.with_slots _ _).
  assert (∀ rec, sched_wf n (Sched.with_queues (Sched.queues s) (Sched.with_recorder rec s2)) ∧
            command s2 i = Some f') as Hw.
  { intros rec. split; [|unfold command; cbn; by rewrite list_lookup_insert_eq].
    apply (update_slot_wf n (Sched.with_recorder rec s1) i f f');
      [by apply with_recorder_wf, with_recorder_wf, touch_wf; [|eapply command_lt]|done]. }
  assert (∀ j, command s2 j = if decide (i = j) then Some f' else command s j) as Hc.
  { intros j. unfold command. cbn. case_decide; [subst; by rewrite list_lookup_insert_eq|].
    by rewrite list_lookup_insert_ne. }
  assert (∀ rec static, let s' := Sched.decommission i i static (Sched.with_recorder rec s2) in
    (∀ j, command s' j =
       if decide (i = j) then (if static then Some f' else None) else command s j) ∧
    (∀ j, outstanding s' j = if decide (i = j) then false else outstanding s j) ∧
    (Sched.fn_drain s', Sched.queues s') = drained (Sched.occupancy_list s') (Sched.fn_drain s) q')
    as Hd.
  { intros rec static. destruct (Hw rec) as [H2 Hc2].
    destruct (decommission_spec n _ i f' static q' H2 Hc2) as (D1 & D2 & D3).
    split_and!; [|exact D2|exact D3]. intros j. etrans; [apply D1|].
    case_decide; [done|]. etrans; [apply Hc|]. by rewrite decide_False. }
  destruct r as [[]|e|]; [| |done]; (eexists; split; [reflexivity|]).
  - apply (Hd _ false).
  - cbn. destruct (pending e) eqn:Ep; cbn; [|apply Hd].
    split_and!; [exact Hc| |].
    + intros j. case_decide; by subst.
    + unfold drained. destruct (Sched.fn_drain s) as [g|] eqn:Eg; [|done].
      destruct (Z.eqb_spec (Sched.occupancy_list s) 0); [|done].
      by destruct (wf_drain n s H g Eg).
Qed.

(** A tag is unique to its command: allocation fails, changing nothing,
    exactly when every slot holds a command; otherwise the new command gets a
    tag whose slot was free, and every other command keeps its own.  Commands
    of [alloc] are outstanding, those of [alloc_static] are not. *)
Theorem allocation_exact n s f (counted : bool) :
  sched_wf n s →
  let r : outcome Error (option nat) * sched :=
    if counted then Sched.alloc f s else Sched.alloc_static f s in
  (r = (Ok None, s) ∧ ∀ i, i < n → is_Some (command s i)) ∨
  ∃ tag s', r = (Ok (Some tag), s') ∧ tag < n ∧ command s tag = None ∧ sched_wf n s' ∧
    (∀ j, command s' j = if decide (tag = j) then Some f else command s j) ∧
    (∀ j, outstanding s' j = if decide (tag = j) then counted else outstanding s j).
Proof.
  intros H r. pose proof (alloc_spec n s f counted H) as Ha. fold r in Ha. clearbody r.
  destruct (list.last (Sched.free_tags s)) as [tag|] eqn:El; [right|by left].
  destruct Ha as (-> & Ht & Hn). destruct (installed_wf n s tag f counted H El) as (Hw & Hc & Ho).
  exists tag, (installed tag f counted s). done.
Qed.

(** C35: a tick ends, and delivers the timeout event once each, in increasing
    order of tags, to the outstanding commands that handled no event since
    the previous tick and to the slots that handled one without being
    outstanding (static commands, and finished ones, whose slot is empty);
    then every command counts as inactive again. *)
Theorem tick_exact n s ev :
  sched_wf n s →
  Sched.on_tick ev s =
    (Sched.for_each (Sched.slot_on_event ev) (tick_recipients s) ;; modify (Sched.with_access 0)) s ∧
  StronglySorted lt (tick_recipients s) ∧
  (∀ i, i ∈ tick_recipients s ↔
     i < n ∧ outstanding s i ≠ bit_of (Sched.access_list s) i).
Proof.
  intros H. split_and!; [by eapply on_tick_eq| |].
  - apply filter_seq_sorted.
  - intros i. pose proof (tick_recipients_lt n s H) as Hlt. rewrite list.Forall_forall in Hlt.
    split.
    + intros Hi. split; [by apply Hlt|]. unfold tick_recipients, bits in Hi.
      apply list_elem_of_filter in Hi as [Hb _]. rewrite Z.lxor_spec in Hb. unfold outstanding.
      by destruct (bit_of (Sched.occupancy_list s) i), (bit_of (Sched.access_list s) i).
    + intros [Hi Hn]. pose proof (wf_size n s H). apply list_elem_of_filter.
      rewrite elem_of_seq, Z.lxor_spec. split; [|lia]. unfold outstanding in Hn.
      by destruct (bit_of (Sched.occupancy_list s) i), (bit_of (Sched.access_list s) i).
Qed.

(** ** Sequences of calls *)

Inductive sched_op : Type :=
  | OpAlloc (f : Fsm)
  | OpAllocStatic (f : Fsm)
  | OpEvent (ev : Event) (tag : nat)
  | OpTick (ev : Event)
  | OpDrain (d : shared → shared).

(** Whether a call returned, and the state it left. *)
Definition returned {E A} (x : outcome E A * sched) : outcome Error () * sched :=
  (match x.1 with Panic => Panic | _ => Ok tt end, x.2).

Definition run_op (o : sched_op) (s : sched) : outcome Error () * sched :=
  match o with
  | OpAlloc f => returned (Sched.alloc (Error:=Error) f s)
  | OpAllocStatic f => returned (Sched.alloc_static (Error:=Error) f s)
  | OpEvent ev tag => Sched.on_event ev tag s
  | OpTick ev => Sched.on_tick ev s
  | OpDrain d => returned (Sched.drain d s)
  end.

(** A sequence of calls, up to the first that panics. *)
Fixpoint run_ops (ops : list sched_op) (s : sched) : outcome Error () * sched :=
  match ops with
  | [] => (Ok tt, s)
  | o :: ops => match run_op o s with (Ok _, s) => run_ops ops s | r => r end
  end.

Definition op_ok (n : nat) (o : sched_op) : Prop :=
  match o with
  | OpEvent _ tag => tag < n
  | OpDrain d => ∀ q, queues_ok n q → queues_ok n (d q)
  | _ => True
  end.

Lemma run_op_safe n blame o s :
  FsmLaws n → Blame blame → op_ok n o → sched_wf n s → safe n blame (run_op o s).
Proof.
  intros L HB Ho H. destruct o as [f|f|ev tag|ev|d]; cbn [run_op op_ok] in *.
  - pose proof (alloc_spec n s f true H) as Ha. cbn in Ha. left.
    destruct (list.last _) as [tag|] eqn:El; destruct Ha as [-> _]; [|done].
    split; [done|]. exact (proj1 (installed_wf n s tag f true H El)).
  - pose proof (alloc_spec n s f false H) as Ha. cbn in Ha. left.
    destruct (list.last _) as [tag|] eqn:El; destruct Ha as [-> _]; [|done].
    split; [done|]. exact (proj1 (installed_wf n s tag f false H El)).
  - by apply on_event_safe.
  - by apply on_tick_safe.
  - destruct (drain_spec n s d H Ho) as [H' Hp]. left. unfold returned.
    by destruct (Sched.drain d s) as [[] s'].
Qed.

Lemma run_ops_safe n blame ops s :
  FsmLaws n → Blame blame → Forall (op_ok n) ops → sched_wf n s → safe n blame (run_ops ops s).
Proof.
  intros L HB Hops. revert s. induction Hops as [|o ops Ho Hops IH]; intros s H; [by left|].
  cbn [run_ops]. pose proof (run_op_safe n blame o s L HB Ho H) as Hs.
  destruct (run_op o s) as [[[]|e|] s1].
  - apply IH. by destruct Hs as [[_ ?]|[? _]].
  - by destruct Hs as [[? _]|[? _]].
  - done.
Qed.

(** C36: no drain is lost, in a pool of at most 128 commands that queue only
    tags of the pool: in every state reached by calls that returned, a drain
    that has been accepted and not yet run waits for a live outstanding
    command, so a drain requested when nothing is outstanding runs at once,
    and a second request is refused only while the first one waits. *)
Theorem drain_never_stuck n rec q ops s d :
  n ≤ 128 → FsmLaws n → queues_ok n q → Forall (op_ok n) ops →
  run_ops ops (Sched.new n rec q) = (Ok tt, s) →
  (is_Some (Sched.fn_drain s) → ∃ i, i < n ∧ outstanding s i = true ∧ is_Some (command s i)) ∧
  ((∀ i, i < n → outstanding s i = false) →
     Sched.drain d s = (Ok tt, Sched.with_queues (d (Sched.queues s)) s)) ∧
  (fst (Sched.drain d s) = Err DrainBusy → ∃ i, i < n ∧ outstanding s i = true).
Proof.
  intros Hn L Hq Hops Hs.
  assert (Blame (λ _, True)) as HB by done.
  pose proof (run_ops_safe n _ ops (Sched.new n rec q) L HB Hops (new_wf n rec q Hn Hq)) as H.
  rewrite Hs in H. destruct H as [[_ H]|[[=] _]]. cbn in H.
  assert (Sched.occupancy_list s ≠ 0%Z →
          ∃ i, i < n ∧ outstanding s i = true ∧ is_Some (command s i)) as Hlive.
  { intros Hz. destruct (bits_step _ (wf_occ_range n s H) Hz) as (_ & Hb & _).
    exists (trailing_zeros (Sched.occupancy_list s)).
    pose proof (wf_occ n s H _ Hb) as Hc. split; [by eapply command_lt|done]. }
  split_and!.
  - intros [f Hf]. apply Hlive. by eapply wf_drain.
  - intros Ho. assert (Sched.occupancy_list s = 0%Z) as Hz.
    { destruct (decide (Sched.occupancy_list s = 0%Z)) as [|Hz]; [done|].
      destruct (Hlive Hz) as (i & Hi & Hb & _). rewrite (Ho i Hi) in Hb. done. }
    unfold Sched.drain. rewrite Hz. destruct (Sched.fn_drain s) as [f|] eqn:Ef; [|done].
    by destruct (wf_drain n s H f Ef).
  - unfold Sched.drain. destruct (Sched.fn_drain s) as [f|] eqn:Ef.
    + intros _. destruct (wf_drain n s H f Ef) as [Hz _].
      destruct (Hlive Hz) as (i & Hi & Hb & _). by exists i.
    + by destruct (_ =? _)%Z.
Qed.

End props.

(** ** Commands that are watched *)

Section watch.
Context {Error Fsm Event ResourceId Env Recorder : Type}.
Context `{FE : CmdFsmError Error, CF : CmdFsm Error Fsm Event ResourceId Env Recorder}.

(** The same commands with a mark, set by a command when its own handler
    panics. *)
#[local] Instance watched : CmdFsm Error (Fsm * bool) Event ResourceId Env Recorder := {
  fsm_on_event ev tag f q :=
    let '(r, f', q') := fsm_on_event ev tag f.1 q in
    (r, (f', match r with Panic => true | _ => f.2 end), q');
  fsm_acquire_resource tag r f :=
    let '(o, f') := fsm_acquire_resource tag r f.1 in
    (o, (f', match o with None => true | _ => f.2 end));
  on_event_start := on_event_start;
  on_event_end := on_event_end
}.

Definition watch (o : @sched_op Fsm Event ResourceId Env) : @sched_op (Fsm * bool) Event ResourceId Env :=
  match o with
  | OpAlloc f => OpAlloc (f, false)
  | OpAllocStatic f => OpAllocStatic (f, false)
  | OpEvent ev tag => OpEvent ev tag
  | OpTick ev => OpTick ev
  | OpDrain d => OpDrain d
  end.

Lemma watched_laws n : FsmLaws (Fsm:=Fsm) n → FsmLaws (Fsm:=Fsm * bool) n.
Proof.
  intros L ev tag [f b] q Hq. specialize (L ev tag f q Hq). cbn.
  by destruct (fsm_on_event ev tag f q) as [[r f'] q'].
Qed.

Lemma watched_blame : Blame (λ f : Fsm * bool, f.2 = true).
Proof.
  split.
  - intros ev tag [f b] q. cbn. destruct (fsm_on_event ev tag f q) as [[r f'] q']. by destruct r.
  - intros tag r [f b]. cbn. destruct (fsm_acquire_resource tag r f) as [o f']. by destruct o.
Qed.

Lemma watch_ok n ops : Forall (op_ok n) ops → Forall (op_ok n) (watch <$> ops).
Proof. intros H. apply Forall_fmap. revert H. apply Forall_impl. by intros [] H. Qed.

(** C25: the scheduler adds no panic.  Take a pool of at most 128 commands
    (the width of its masks) that queue only tags of the pool, and any
    sequence of allocations, events for tags of the pool, ticks and drains.
    Either every call returns and the state is well formed (tags of live
    commands are distinct slots, free tags are exactly the empty slots, only
    live commands are outstanding), or a call panics, and then some command in
    the pool is marked: its own [on_event] or [acquire_resource] panicked. *)
Theorem scheduler_adds_no_panic n (rec : Recorder) q ops :
  n ≤ 128 → FsmLaws (Fsm:=Fsm) n → queues_ok n q → Forall (op_ok n) ops →
  let '(r, s) := run_ops (watch <$> ops) (Sched.new n rec q) in
  (r = Ok tt ∧ sched_wf n s) ∨
  (r = Panic ∧ ∃ i f, command s i = Some (f, true)).
Proof.
  intros Hn L Hq Hops.
  pose proof (run_ops_safe n _ (watch <$> ops) (Sched.new n rec q) (watched_laws n L) watched_blame
    (watch_ok n ops Hops) (new_wf n rec q Hn Hq)) as H.
  destruct (run_ops _ _) as [r s]. destruct H as [H|[Hr (i & [f b] & Hc & Hb)]]; [by left|].
  right. split; [done|]. cbn in Hb. subst b. by exists i, f.
Qed.
End watch.

(** ** Witnesses: a command that counts its events down *)

Section countdown.

Definition countdown_event (f : nat) : outcome HsmErr () * nat :=
  match f with O => (Ok tt, 0) | S f => (Err Pending, f) end.

#[local] Instance countdown : CmdFsm HsmErr nat () () nat () := {
  fsm_on_event _ _ f q := (countdown_event f, q);
  fsm_acquire_resource _ _ f := (Some tt, f);
  on_event_start _ _ r := r;
  on_event_end _ _ _ r := r
}.

Lemma countdown_laws : FsmLaws (Env:=nat) 34.
Proof. by intros ev tag f q Hq _. Qed.

Definition idle : Shared () () nat := mkShared [] [] 0.
Definition bump (q : Shared () () nat) : Shared () () nat :=
  mkShared (ready_queue q) (cleanup_queue q) (S (env q)).

Lemma idle_ok : queues_ok 34 idle.
Proof. split; constructor. Qed.

Definition sample_ops : list (@sched_op nat () () nat) :=
  [OpAlloc 1; OpDrain bump; OpTick tt; OpEvent tt 33].

Lemma sample_ops_ok : Forall (op_ok 34) sample_ops.
Proof.
  repeat apply Forall_cons_2; try apply Forall_nil_2; cbn; [done|by intros q|done|lia].
Qed.

Definition busy_sched : @Sched.t nat () () nat () :=
  snd (Sched.alloc (Error:=HsmErr) 1 (Sched.new 34 tt idle)).

Lemma busy_sched_wf : sched_wf 34 busy_sched.
Proof.
  apply (installed_wf 34 (Sched.new 34 tt idle) 33 1 true); [|reflexivity].
  apply new_wf; [lia|exact idle_ok].
Qed.

Lemma event_delivery_exact_witness :
  ∃ s', Sched.slot_on_event tt 33 busy_sched = (Ok tt, s') ∧ command s' 33 = Some 0.
Proof.
  destruct (event_delivery_exact 34 busy_sched tt 33 1 (Err Pending) 0 idle busy_sched_wf)
    as (s' & H1 & H2 & _); [reflexivity|reflexivity|discriminate|].
  exists s'. split; [exact H1|exact (H2 33)].
Defined.

Lemma allocation_exact_witness :
  ∃ tag s', Sched.alloc (Error:=HsmErr) 5 busy_sched = (Ok (Some tag), s') ∧ tag < 34.
Proof.
  destruct (allocation_exact (Error:=HsmErr) 34 busy_sched 5 true busy_sched_wf)
    as [[H _]|(tag & s' & H & Ht & _)].
  - exfalso. apply (f_equal fst) in H. vm_compute in H. discriminate H.
  - exists tag, s'. split; [exact H|exact Ht].
Defined.

Lemma tick_exact_witness :
  33 ∈ tick_recipients busy_sched ↔
    33 < 34 ∧ outstanding busy_sched 33 ≠ bit_of (Sched.access_list busy_sched) 33.
Proof. exact (proj2 (proj2 (tick_exact 34 busy_sched tt busy_sched_wf)) 33). Defined.

(** The second case of the theorem does not arise here: every call returned. *)
Lemma scheduler_adds_no_panic_witness :
  (run_ops (CF:=watched) (watch <$> sample_ops) (Sched.new 34 tt idle)).1 = Ok tt ∧
  sched_wf 34 (run_ops (CF:=watched) (watch <$> sample_ops) (Sched.new 34 tt idle)).2.
Proof.
  assert ((run_ops (CF:=watched) (watch <$> sample_ops) (Sched.new 34 tt idle)).1 = Ok tt) as Hok
    by (vm_compute; reflexivity).
  split; [exact Hok|].
  pose proof (scheduler_adds_no_panic 34 tt idle sample_ops ltac:(lia) countdown_laws idle_ok sample_ops_ok) as H.
  destruct (run_ops _ _) as [r s]. cbn in Hok |- *. subst r. destruct H as [[_ H]|[H _]]; [exact H|discriminate H].
Defined.

Definition draining_sched : @Sched.t nat () () nat () := Sched.with_drain (Some bump) busy_sched.

Lemma drain_never_stuck_witness :
  ∃ i, i < 34 ∧ outstanding draining_sched i = true ∧ is_Some (command draining_sched i).
Proof.
  apply (drain_never_stuck 34 tt idle [OpAlloc 1; OpDrain bump] draining_sched bump).
  - lia.
  - exact countdown_laws.
  - exact idle_ok.
  - repeat apply Forall_cons_2; [exact I|exact (λ q Hq, Hq)|apply Forall_nil_2].
  - reflexivity.
  - exists bump. reflexivity.
Defined.

End countdown.
