(* ===== verification/CmdResource.v ===== *)
(** * Shared hardware resources (hsm/src/cmd_scheduler/resource.rs, hsm/src/resource)

    [CmdResourceInfo] is the trait of a pool of instances; [Res] is
    [CmdResourceImpl], which hands instances to commands and keeps the
    commands that wait; [Pka] and [Ipc] are the pools of the firmware.
    [ResourceLaws] is what a pool promises to [Res]; the exclusion and
    hand-over theorems are proved against it and both pools satisfy it. *)

From stdpp Require Import base gmap sets list numbers option.
From S2P Require Import Prelude HsmError CmdScheduler.

(** [CmdResourceInfo].  [clear] may run a self test, which acts on the
    environment; [clear] and [set] may panic. *)
Class CmdResourceInfo (Res Context ResourceId Event Env : Type) := {
  res_id : Res → ResourceId;
  count : Res → nat;
  set : Context → Res → outcome HsmErr (option nat * Res);
  clear : nat → Res → Env → outcome HsmErr (Res * Env);
  cleanup_event : nat → Res → outcome HsmErr Event;
  cleanup_ctx : nat → Res → outcome HsmErr Res;
  find_ctx : (Context → bool) → Res → option Context
}.

Module Res.
Section resource.
Context {R Context_ ResourceId Event Env : Type} `{EqDecision ResourceId}.
Context `{CR : CmdResourceInfo R Context_ ResourceId Event Env}.

(** [CmdResourceImpl]; [queues] is what it shares with the scheduler. *)
Record t : Type := mk {
  resource : R;
  waiters : list nat;
  cleanup_fsm : option nat;
  queues : Shared Event ResourceId Env
}.

Definition with_resource (r : R) (s : t) : t := mk r (waiters s) (cleanup_fsm s) (queues s).
Definition with_waiters (w : list nat) (s : t) : t := mk (resource s) w (cleanup_fsm s) (queues s).
Definition with_queues (q : Shared Event ResourceId Env) (s : t) : t :=
  mk (resource s) (waiters s) (cleanup_fsm s) q.
Definition with_env (e : Env) (s : t) : t :=
  with_queues (mkShared (ready_queue (queues s)) (cleanup_queue (queues s)) e) s.

Definition new (r : R) (q : Shared Event ResourceId Env) : t := mk r [] None q.

Definition set_cleanup_fsm (tag : nat) (s : t) : t := mk (resource s) (waiters s) (Some tag) (queues s).

Definition acquire (tag : nat) (ctx : Context_) : M t HsmErr (option nat) := λ s,
  let transferred := Sched.rsrc_ownership_transferred (res_id (resource s)) (queues s) in
  let n := count (resource s) in
  if (1 <? n) || ((n =? 1) && negb transferred) then
    match set ctx (resource s) with
    | Ok (o, r) => (Ok o, with_resource r s)
    | Err e => (Err e, s)
    | Panic => (Panic, s)
    end
  else (Ok None, with_waiters (waiters s ++ [tag]) s).

Definition wakeup (instance_id : nat) : M t HsmErr () := λ s,
  match clear instance_id (resource s) (env (queues s)) with
  | Ok (r, e) =>
      let s := with_env e (with_resource r s) in
      match waiters s with
      | tag :: w =>
          (Ok tt, with_queues (Sched.wakeup tag (res_id (resource s)) (queues s)) (with_waiters w s))
      | [] => (Ok tt, s)
      end
  | Err e => (Err e, s)
  | Panic => (Panic, s)
  end.

(** Run when a [CmdResourceRef] is dropped. *)
Definition cleanup (instance_id : nat) : M t HsmErr () := λ s,
  match cleanup_fsm s with
  | Some tag =>
      match cleanup_ctx instance_id (resource s) with
      | Ok r =>
          let s := with_resource r s in
          match cleanup_event instance_id (resource s) with
          | Ok ev => (Ok tt, with_queues (Sched.cleanup ev tag (queues s)) s)
          | Err e => (Err e, s)
          | Panic => (Panic, s)
          end
      | Err e => (Err e, s)
      | Panic => (Panic, s)
      end
  | None => wakeup instance_id s
  end.

End resource.
End Res.

(** ** The pools *)

Inductive HsmFsmResourceId : Set := RPka | RFpIpcChannel | RHspIpcChannel | RHsmToAdminIpcChannel.
#[global] Instance HsmFsmResourceId_eq_dec : EqDecision HsmFsmResourceId.
Proof. solve_decision. Defined.

Module Pka.
Section pka.
(** [T] is a handle to an engine; a self test acts on the environment. *)
Context {T Env Event : Type}.

Record PkaResource : Type := mk {
  inner : list T;
  free_list : list nat;
  ctx_list : list (option Z);
  pending_self_test : list bool;
  fn_test : option (T → Env → Env)
}.

Definition new (engines : list T) : PkaResource :=
  mk engines (seq 0 (length engines)) (replicate (length engines) None)
    (replicate (length engines) false) None.

(** [free_list.pop()] and [ctx_list[index] = ctx]. *)
Definition set (ctx : option Z) (r : PkaResource) : outcome HsmErr (option nat * PkaResource) :=
  match list.last (free_list r) with
  | None => Ok (None, r)
  | Some index =>
      if index <? length (ctx_list r) then
        Ok (Some index, mk (inner r) (removelast (free_list r)) (<[index := ctx]> (ctx_list r))
                          (pending_self_test r) (fn_test r))
      else Panic
  end.

Definition clear (instance_id : nat) (r : PkaResource) (e : Env) :
    outcome HsmErr (PkaResource * Env) :=
  match pending_self_test r !! instance_id with
  | None => Panic
  | Some false =>
      Ok (mk (inner r) (free_list r ++ [instance_id]) (ctx_list r) (pending_self_test r) (fn_test r), e)
  | Some true =>
      let done e := Ok (mk (inner r) (free_list r ++ [instance_id]) (ctx_list r)
                          (<[instance_id := false]> (pending_self_test r)) None, e) in
      match fn_test r with
      | None => done e
      | Some f =>
          match inner r !! instance_id with
          | Some engine => done (f engine e)
          | None => Panic
          end
      end
  end.

Definition find_ctx (predicate : option Z → bool) (r : PkaResource) : option (option Z) :=
  List.find predicate (ctx_list r).

Definition self_test (instance_id : nat) (test : T → Env → Env) (r : PkaResource) (e : Env) :
    outcome HsmErr (PkaResource * Env) :=
  if bool_decide (instance_id ∈ free_list r) then
    match inner r !! instance_id with
    | Some engine => Ok (r, test engine e)
    | None => Panic
    end
  else if instance_id <? length (pending_self_test r) then
    Ok (mk (inner r) (free_list r) (ctx_list r) (<[instance_id := true]> (pending_self_test r))
          (Some test), e)
  else Panic.

Definition cleanup_ctx (instance_id : nat) (r : PkaResource) : outcome HsmErr PkaResource :=
  if instance_id <? length (ctx_list r) then
    Ok (mk (inner r) (free_list r) (<[instance_id := None]> (ctx_list r)) (pending_self_test r)
          (fn_test r))
  else Panic.

(** [HsmFsmEvent::ResourceCleanup(id, instance)] of the event type. *)
Context (ResourceCleanup : HsmFsmResourceId → nat → Event).

#[global] Instance pka_info : CmdResourceInfo PkaResource (option Z) HsmFsmResourceId Event Env := {
  res_id _ := RPka;
  count r := length (free_list r);
  set := set;
  clear := clear;
  cleanup_event i _ := Ok (ResourceCleanup RPka i);
  cleanup_ctx := cleanup_ctx;
  find_ctx := find_ctx
}.

End pka.
End Pka.

Module Ipc.
Section ipc.
Context {T Env Event : Type} (rid : HsmFsmResourceId).

(** [FpIpcChannelResource], [HspIpcChannelResource] and
    [HsmToAdminIpcChannelResource] differ in their resource id only; [count]
    is a [usize]. *)
Record IpcChannelResource : Type := mk { res : T; chan_count : Z }.

Definition new (r : T) : IpcChannelResource := mk r 1.

Definition set (ctx : ()) (r : IpcChannelResource) : outcome HsmErr (option nat * IpcChannelResource) :=
  Ok (Some 0, mk (res r) (wrap 32 (chan_count r - 1))).

Definition clear (idx : nat) (r : IpcChannelResource) (e : Env) :
    outcome HsmErr (IpcChannelResource * Env) :=
  Ok (mk (res r) (wrap 32 (chan_count r + 1)), e).

(** [cleanup_event] and [cleanup_ctx] are the trait's [unimplemented!()]. *)
#[global] Instance ipc_info : CmdResourceInfo IpcChannelResource () HsmFsmResourceId Event Env := {
  res_id _ := rid;
  count r := Z.to_nat (chan_count r);
  set := set;
  clear := clear;
  cleanup_event _ _ := Panic;
  cleanup_ctx _ _ := Panic;
  find_ctx _ _ := None
}.

End ipc.
End Ipc.

(** ** What a pool promises *)

Class ResourceLaws {R Context_ ResourceId Event Env : Type}
    (CR : CmdResourceInfo R Context_ ResourceId Event Env) := {
  pool_wf : R → Prop;
  instances : R → gset nat;
  free : R → gset nat;
  supports_cleanup : bool;
  law_count r : pool_wf r → count r = size (free r);
  law_free r : pool_wf r → free r ⊆ instances r;
  law_set ctx r : pool_wf r → 0 < count r →
    ∃ i r', set ctx r = Ok (Some i, r') ∧ pool_wf r' ∧ i ∈ free r ∧
      free r' = free r ∖ {[i]} ∧ instances r' = instances r ∧ res_id r' = res_id r;
  law_clear i r e : pool_wf r → i ∈ instances r → i ∉ free r →
    ∃ r' e', clear i r e = Ok (r', e') ∧ pool_wf r' ∧
      free r' = {[i]} ∪ free r ∧ instances r' = instances r ∧ res_id r' = res_id r;
  law_cleanup i r : supports_cleanup = true → pool_wf r → i ∈ instances r →
    ∃ r' ev, cleanup_ctx i r = Ok r' ∧ cleanup_event i r' = Ok ev ∧ pool_wf r' ∧
      free r' = free r ∧ instances r' = instances r ∧ res_id r' = res_id r
}.

(** [F], [H] and [C] partition [I]. *)
Definition parts (I F H C : gset nat) : Prop :=
  (∀ x, x ∈ I ↔ x ∈ F ∨ x ∈ H ∨ x ∈ C) ∧ H ## F ∧ C ## F ∧ H ## C.

Lemma parts_move (I F H C : gset nat) i :
  parts I F H C →
  (i ∈ F → parts I (F ∖ {[i]}) ({[i]} ∪ H) C) ∧
  (i ∈ H → parts I ({[i]} ∪ F) (H ∖ {[i]}) C) ∧
  (i ∈ H → parts I F (H ∖ {[i]}) ({[i]} ∪ C)) ∧
  (i ∈ C → parts I ({[i]} ∪ F) H (C ∖ {[i]})).
Proof.
  intros (Ha & H1 & H2 & H3).
  split_and!; intros Hi; (split; [intros x; destruct (decide (x = i)) as [->|];
    rewrite Ha; set_solver|set_solver]).
Qed.

Section props.
Context {R Context_ ResourceId Event Env : Type} `{EqDecision ResourceId}.
Context `{CR : CmdResourceInfo R Context_ ResourceId Event Env} {RL : ResourceLaws CR}.

Abbreviation rstate := (@Res.t R ResourceId Event Env).

(** Instances are handed to commands ([held]) and, when a cleanup command is
    set, stay with it ([cleaning]) before they return to the pool. *)
Record owners : Set := mkOwners { held : gset nat; cleaning : gset nat }.

Inductive step : rstate * owners → rstate * owners → Prop :=
  | step_granted s o tag ctx i s' :
      Res.acquire tag ctx s = (Ok (Some i), s') →
      step (s, o) (s', mkOwners ({[i]} ∪ held o) (cleaning o))
  | step_waits s o tag ctx s' :
      Res.acquire tag ctx s = (Ok None, s') → step (s, o) (s', o)
  | step_dropped s o i s' :
      i ∈ held o → Res.cleanup_fsm s = None → Res.cleanup i s = (Ok tt, s') →
      step (s, o) (s', mkOwners (held o ∖ {[i]}) (cleaning o))
  | step_cleaning s o i tag s' :
      i ∈ held o → Res.cleanup_fsm s = Some tag → Res.cleanup i s = (Ok tt, s') →
      step (s, o) (s', mkOwners (held o ∖ {[i]}) ({[i]} ∪ cleaning o))
  | step_cleaned s o i s' :
      i ∈ cleaning o → Res.wakeup i s = (Ok tt, s') →
      step (s, o) (s', mkOwners (held o) (cleaning o ∖ {[i]})).

Record owned (p : rstate * owners) : Prop := {
  ow_wf : pool_wf (Res.resource p.1);
  ow_cleanup : is_Some (Res.cleanup_fsm p.1) → supports_cleanup = true;
  ow_parts : parts (instances (Res.resource p.1)) (free (Res.resource p.1)) (held p.2) (cleaning p.2)
}.

Lemma held_out (I F H C : gset nat) i :
  parts I F H C → i ∈ H ∨ i ∈ C → i ∈ I ∧ i ∉ F.
Proof. intros (Ha & H1 & H2 & H3) Hi. rewrite Ha. set_solver. Qed.

(** The two outcomes of [acquire]. *)
Definition must_wait (s : rstate) : Prop :=
  free (Res.resource s) = ∅ ∨
  (size (free (Res.resource s)) = 1 ∧
   ∃ tag, (tag, res_id (Res.resource s)) ∈ ready_queue (Res.queues s)).

Lemma transferred_spec rid (q : Shared Event ResourceId Env) :
  Sched.rsrc_ownership_transferred rid q = true ↔ ∃ tag, (tag, rid) ∈ ready_queue q.
Proof.
  unfold Sched.rsrc_ownership_transferred. rewrite existsb_exists. split.
  - intros ([tag r] & Hin & Hb). apply bool_decide_eq_true in Hb. cbn in Hb. subst r.
    exists tag. by apply list_elem_of_In.
  - intros [tag Hin]. exists (tag, rid). split; [by apply list_elem_of_In|].
    by apply bool_decide_eq_true.
Qed.

Lemma acquire_spec tag ctx s :
  pool_wf (Res.resource s) →
  (must_wait s ∧ Res.acquire tag ctx s = (Ok None, Res.with_waiters (Res.waiters s ++ [tag]) s)) ∨
  (¬ must_wait s ∧ ∃ i r', Res.acquire tag ctx s = (Ok (Some i), Res.with_resource r' s) ∧
     pool_wf r' ∧ i ∈ free (Res.resource s) ∧ free r' = free (Res.resource s) ∖ {[i]} ∧
     instances r' = instances (Res.resource s) ∧ res_id r' = res_id (Res.resource s)).
Proof.
  intros Hw. unfold Res.acquire, must_wait.
  pose proof (transferred_spec (res_id (Res.resource s)) (Res.queues s)) as Ht.
  pose proof (law_count _ Hw) as Hc. cbn zeta.
  destruct (_ || _) eqn:E.
  - right. split.
    + intros [He|[H1 Hq]].
      * rewrite He, size_empty in Hc. by rewrite Hc in E.
      * rewrite <- Hc in H1. apply Ht in Hq. by rewrite H1, Hq in E.
    + destruct (law_set ctx _ Hw) as (i & r' & -> & H); [|by exists i, r'].
      apply orb_true_iff in E as [E|E];
        [apply Nat.ltb_lt in E; lia|apply andb_true_iff in E as [E _]; apply Nat.eqb_eq in E; lia].
  - left. split; [|done]. apply orb_false_iff in E as [E1%Nat.ltb_ge E2].
    destruct (decide (count (Res.resource s) = 1)) as [H1|H1].
    + right. split; [lia|]. apply Ht. rewrite H1 in E2. cbn in E2. by apply negb_false_iff in E2.
    + left. apply leibniz_equiv, size_empty_inv. lia.
Qed.

Lemma wakeup_spec i s :
  pool_wf (Res.resource s) → i ∈ instances (Res.resource s) → i ∉ free (Res.resource s) →
  ∃ s', Res.wakeup i s = (Ok tt, s') ∧ pool_wf (Res.resource s') ∧
    free (Res.resource s') = {[i]} ∪ free (Res.resource s) ∧
    instances (Res.resource s') = instances (Res.resource s) ∧
    Res.cleanup_fsm s' = Res.cleanup_fsm s ∧
    Res.waiters s' = tail (Res.waiters s) ∧
    ready_queue (Res.queues s') = ready_queue (Res.queues s) ++
      ((λ tag, (tag, res_id (Res.resource s))) <$> take 1 (Res.waiters s)) ∧
    res_id (Res.resource s') = res_id (Res.resource s).
Proof.
  intros Hw Hi Hf. unfold Res.wakeup.
  destruct (law_clear i _ (env (Res.queues s)) Hw Hi Hf) as (r' & e' & -> & Hw' & Hf' & Hin & Hid).
  cbn zeta. cbn [Res.waiters Res.with_env Res.with_queues Res.with_resource].
  destruct (Res.waiters s) as [|tag w] eqn:Ew; (eexists; split; [reflexivity|]); cbn;
    rewrite ?Hid; split_and!; try done. by rewrite app_nil_r.
Qed.

Lemma cleanup_spec i s tag :
  Res.cleanup_fsm s = Some tag → supports_cleanup = true →
  pool_wf (Res.resource s) → i ∈ instances (Res.resource s) →
  ∃ r' ev, Res.cleanup i s = (Ok tt, Res.with_queues (Sched.cleanup ev tag (Res.queues s))
                                       (Res.with_resource r' s)) ∧
    pool_wf r' ∧ free r' = free (Res.resource s) ∧ instances r' = instances (Res.resource s).
Proof.
  intros Hc Hs Hw Hi. unfold Res.cleanup. rewrite Hc.
  destruct (law_cleanup i _ Hs Hw Hi) as (r' & ev & -> & He & Hw' & Hf & Hin & Hid).
  cbn zeta. cbn [Res.resource Res.with_resource]. rewrite He. exists r', ev. done.
Qed.

Lemma step_owned p p' : owned p → step p p' → owned p'.
Proof.
  intros [Hw Hc Hp] Hstep.
  destruct Hstep as [s o tag ctx i s' E|s o tag ctx s' E
    |s o i s' Hi Hn E|s o i tag s' Hi Hn E|s o i s' Hi E]; cbn in *.
  - destruct (acquire_spec tag ctx s Hw) as [[_ E']|(_ & j & r' & E' & Hw' & Hj & Hf & Hin & _)];
      rewrite E in E'; [done|]. injection E' as <- ->.
    constructor; cbn; [done|done|]. rewrite Hf, Hin. by apply (parts_move _ _ _ _ i Hp).
  - destruct (acquire_spec tag ctx s Hw) as [[_ E']|(_ & j & r' & E' & _)];
      rewrite E in E'; [|done]. injection E' as ->. by constructor.
  - unfold Res.cleanup in E. rewrite Hn in E. destruct (held_out _ _ _ _ i Hp) as [Hin Hout]; [by left|].
    destruct (wakeup_spec i s Hw Hin Hout) as (s2 & E2 & Hw2 & Hf2 & Hin2 & Hc2 & _).
    rewrite E in E2. injection E2 as ->.
    constructor; cbn; [done|by rewrite Hc2|]. rewrite Hf2, Hin2. by apply (parts_move _ _ _ _ i Hp).
  - destruct (held_out _ _ _ _ i Hp) as [Hin Hout]; [by left|].
    destruct (cleanup_spec i s tag Hn) as (r' & ev & E2 & Hw2 & Hf2 & Hin2);
      [apply Hc; by rewrite Hn|done|done|].
    rewrite E in E2. injection E2 as ->.
    constructor; cbn; [done|done|]. rewrite Hf2, Hin2. by apply (parts_move _ _ _ _ i Hp).
  - destruct (held_out _ _ _ _ i Hp) as [Hin Hout]; [by right|].
    destruct (wakeup_spec i s Hw Hin Hout) as (s2 & E2 & Hw2 & Hf2 & Hin2 & Hc2 & _).
    rewrite E in E2. injection E2 as ->.
    constructor; cbn; [done|by rewrite Hc2|]. rewrite Hf2, Hin2. by apply (parts_move _ _ _ _ i Hp).
Qed.

Lemma steps_owned p p' : owned p → rtc step p p' → owned p'.
Proof. intros Hp Hs. induction Hs; [done|]. eauto using step_owned. Qed.

(** C37: exclusion: in every state reached from a well-owned one the free
    instances, the instances held by commands and those being cleaned
    partition the pool; a request is always answered, with an instance that
    nobody has or by waiting; and dropping a held instance always returns. *)
Theorem resource_exclusive p p' tag ctx :
  owned p → rtc step p p' →
  parts (instances (Res.resource p'.1)) (free (Res.resource p'.1)) (held p'.2) (cleaning p'.2) ∧
  (∃ g s', Res.acquire tag ctx p'.1 = (Ok g, s') ∧
     ∀ i, g = Some i → (i ∉ held p'.2) ∧ (i ∉ cleaning p'.2)) ∧
  (∀ i, i ∈ held p'.2 → ∃ s', Res.cleanup i p'.1 = (Ok tt, s')).
Proof.
  intros Hp Hs. destruct (steps_owned p p' Hp Hs) as [Hw Hc Hpa]. split_and!.
  - done.
  - destruct (acquire_spec tag ctx p'.1 Hw) as [[_ ->]|(_ & i & r' & -> & _ & Hi & _)];
      eexists _, _; (split; [reflexivity|]); [done|].
    intros j [= <-]. destruct Hpa as (_ & H1 & H2 & _). set_solver.
  - intros i Hi. destruct (held_out _ _ _ _ i Hpa) as [Hin Hout]; [by left|].
    destruct (Res.cleanup_fsm p'.1) as [t|] eqn:Ec.
    + destruct (cleanup_spec i p'.1 t Ec) as (r' & ev & -> & _); [apply Hc; by exists t|done..|].
      eauto.
    + unfold Res.cleanup. rewrite Ec.
      destruct (wakeup_spec i p'.1 Hw Hin Hout) as (s' & -> & _). eauto.
Qed.

(** Hand-over in order: a request that cannot be granted queues behind
    the earlier ones; when an instance of an exhausted pool returns, the
    command that waits longest is woken, and until the scheduler has run it
    every other request waits behind the queue, so it cannot be overtaken. *)
Theorem resource_hand_over s i w ws tag ctx :
  pool_wf (Res.resource s) → i ∈ instances (Res.resource s) →
  free (Res.resource s) = ∅ → Res.waiters s = w :: ws →
  Res.acquire tag ctx s = (Ok None, Res.with_waiters ((w :: ws) ++ [tag]) s) ∧
  ∃ s', Res.wakeup i s = (Ok tt, s') ∧
    ready_queue (Res.queues s') = ready_queue (Res.queues s) ++ [(w, res_id (Res.resource s))] ∧
    Res.waiters s' = ws ∧
    Res.acquire tag ctx s' = (Ok None, Res.with_waiters (ws ++ [tag]) s').
Proof.
  intros Hw Hi Hf Hws. split.
  - destruct (acquire_spec tag ctx s Hw) as [[_ ->]|(Hn & _)]; [by rewrite Hws|].
    exfalso. apply Hn. by left.
  - destruct (wakeup_spec i s Hw Hi) as (s' & E & Hw' & Hf' & _ & _ & Hwt & Hq & Hid);
      [rewrite Hf; set_solver|].
    exists s'. rewrite Hws in Hwt, Hq. split_and!; [done..|].
    destruct (acquire_spec tag ctx s' Hw') as [[_ ->]|(Hn & _)]; [by rewrite Hwt|].
    exfalso. apply Hn. right. split.
    + rewrite Hf', Hf, union_empty_r_L. apply size_singleton.
    + exists w. rewrite Hq, Hid. set_solver.
Qed.

End props.

(** ** The pools keep the promise *)

Section pools.
Context {T Env Event : Type} (RC : HsmFsmResourceId → nat → Event).

Record pka_wf (r : @Pka.PkaResource T Env) : Prop := {
  pka_nodup : NoDup (Pka.free_list r);
  pka_range : Forall (λ i, i < length (Pka.inner r)) (Pka.free_list r);
  pka_ctx : length (Pka.ctx_list r) = length (Pka.inner r);
  pka_pending : length (Pka.pending_self_test r) = length (Pka.inner r)
}.

Lemma pka_new_wf engines : pka_wf (Pka.new engines).
Proof.
  constructor; cbn; rewrite ?length_replicate; try done; [apply NoDup_seq|].
  apply Forall_seq. lia.
Qed.

Lemma pka_count_law (r : @Pka.PkaResource T Env) :
  pka_wf r → length (Pka.free_list r) = size (list_to_set (Pka.free_list r) : gset nat).
Proof. intros H. symmetry. apply size_list_to_set. by apply pka_nodup. Qed.

Lemma pka_free_law (r : @Pka.PkaResource T Env) :
  pka_wf r →
  (list_to_set (Pka.free_list r) : gset nat) ⊆ set_seq 0 (length (Pka.inner r)).
Proof.
  intros H x Hx%elem_of_list_to_set. apply elem_of_set_seq.
  pose proof (pka_range r H) as Hr. rewrite list.Forall_forall in Hr. specialize (Hr x Hx). lia.
Qed.

Lemma pka_set_law ctx (r : @Pka.PkaResource T Env) :
  pka_wf r → 0 < length (Pka.free_list r) →
  ∃ i r', Pka.set ctx r = Ok (Some i, r') ∧ pka_wf r' ∧
    i ∈ (list_to_set (Pka.free_list r) : gset nat) ∧
    (list_to_set (Pka.free_list r') : gset nat) = list_to_set (Pka.free_list r) ∖ {[i]} ∧
    set_seq (C:=gset nat) 0 (length (Pka.inner r')) = set_seq 0 (length (Pka.inner r)) ∧ RPka = RPka.
Proof.
  intros [Hn Hr Hc Hp] H0. unfold Pka.set.
  destruct (list.last (Pka.free_list r)) as [i|] eqn:El;
    [|apply last_None in El; rewrite El in H0; cbn in H0; lia].
  apply last_Some in El as [l El]. rewrite El in Hn, Hr.
  apply list.NoDup_app in Hn as (Hnl & Hx & _). apply Forall_app in Hr as [Hrl Hri].
  rewrite Forall_singleton in Hri. rewrite (proj2 (Nat.ltb_lt _ _)) by lia.
  assert (i ∉ l) as Hil by set_solver.
  exists i. eexists. split; [reflexivity|]. rewrite El, removelast_last.
  split_and!; try done.
  - constructor; cbn; [done|done|by rewrite length_insert|done].
  - set_solver.
  - cbn. rewrite list_to_set_app_L. set_solver.
Qed.

Lemma pka_clear_law i (r : @Pka.PkaResource T Env) (e : Env) :
  pka_wf r → i ∈ set_seq (C:=gset nat) 0 (length (Pka.inner r)) →
  i ∉ (list_to_set (Pka.free_list r) : gset nat) →
  ∃ r' e', Pka.clear i r e = Ok (r', e') ∧ pka_wf r' ∧
    (list_to_set (Pka.free_list r') : gset nat) = {[i]} ∪ list_to_set (Pka.free_list r) ∧
    set_seq (C:=gset nat) 0 (length (Pka.inner r')) = set_seq 0 (length (Pka.inner r)) ∧ RPka = RPka.
Proof.
  intros [Hn Hr Hc Hp] Hi%elem_of_set_seq Hf. cbn in Hi. rewrite elem_of_list_to_set in Hf.
  assert (NoDup (Pka.free_list r ++ [i])) as Hn'.
  { apply list.NoDup_app. split_and!; [done|set_solver|apply NoDup_singleton]. }
  assert (Forall (λ j, j < length (Pka.inner r)) (Pka.free_list r ++ [i])) as Hr'.
  { apply Forall_app. split; [done|]. apply Forall_singleton. lia. }
  assert (list_to_set (Pka.free_list r ++ [i]) = ({[i]} ∪ list_to_set (Pka.free_list r) : gset nat))
    as Hs by (rewrite list_to_set_app_L; set_solver).
  unfold Pka.clear. destruct (lookup_lt_is_Some_2 (Pka.pending_self_test r) i) as [b ->]; [lia|].
  destruct (lookup_lt_is_Some_2 (Pka.inner r) i) as [g ->]; [lia|].
  destruct b; [destruct (Pka.fn_test r)|]; eexists _, _; (split; [reflexivity|]);
    (split; [|done]); constructor; cbn; rewrite ?length_insert; done.
Qed.

Lemma pka_cleanup_law i (r : @Pka.PkaResource T Env) :
  true = true → pka_wf r → i ∈ set_seq (C:=gset nat) 0 (length (Pka.inner r)) →
  ∃ r' ev, Pka.cleanup_ctx i r = Ok r' ∧ Ok (RC RPka i) = Ok (E:=HsmErr) ev ∧ pka_wf r' ∧
    (list_to_set (Pka.free_list r') : gset nat) = list_to_set (Pka.free_list r) ∧
    set_seq (C:=gset nat) 0 (length (Pka.inner r')) = set_seq 0 (length (Pka.inner r)) ∧ RPka = RPka.
Proof.
  intros _ [Hn Hr Hc Hp] Hi%elem_of_set_seq. unfold Pka.cleanup_ctx.
  rewrite (proj2 (Nat.ltb_lt _ _)) by lia. eexists _, _. split; [reflexivity|].
  split; [reflexivity|]. split; [|done]. constructor; cbn; rewrite ?length_insert; done.
Qed.

#[global] Instance pka_laws : ResourceLaws (Pka.pka_info (T:=T) (Env:=Env) RC) := {
  pool_wf := pka_wf;
  instances r := set_seq 0 (length (Pka.inner r));
  free r := list_to_set (Pka.free_list r);
  supports_cleanup := true;
  law_count := pka_count_law;
  law_free := pka_free_law;
  law_set := pka_set_law;
  law_clear := pka_clear_law;
  law_cleanup := pka_cleanup_law
}.

(** A self test of an engine runs once, on that engine: at once when the
    engine is free, otherwise when it is released, before the engine is
    available again; and no request is left behind. *)
Theorem pka_self_test_once (r : @Pka.PkaResource T Env) i engine test e e' :
  pka_wf r → Pka.inner r !! i = Some engine →
  Pka.pending_self_test r = replicate (length (Pka.inner r)) false → Pka.fn_test r = None →
  if decide (i ∈ Pka.free_list r) then Pka.self_test i test r e = Ok (r, test engine e)
  else ∃ r1, Pka.self_test i test r e = Ok (r1, e) ∧ Pka.free_list r1 = Pka.free_list r ∧
    Pka.clear i r1 e' = Ok (Pka.mk (Pka.inner r) (Pka.free_list r ++ [i]) (Pka.ctx_list r)
                              (Pka.pending_self_test r) None, test engine e').
Proof.
  intros [Hn Hr Hc Hp] Hi Hpend Hft. unfold Pka.self_test. pose proof (lookup_lt_Some _ _ _ Hi).
  case_decide as Hd.
  - by rewrite bool_decide_true, Hi.
  - rewrite bool_decide_false, (proj2 (Nat.ltb_lt _ _)) by (done || lia).
    eexists. split; [reflexivity|]. split; [done|]. unfold Pka.clear. cbn.
    rewrite list_lookup_insert_eq, Hi by lia. do 3 f_equal.
    rewrite list_insert_insert_eq, Hpend. by rewrite insert_replicate.
Qed.

(** *** IPC channels *)
Context (rid : HsmFsmResourceId).

Definition ipc_free (r : @Ipc.IpcChannelResource T) : gset nat :=
  if decide (Ipc.chan_count r = 0%Z) then ∅ else {[0]}.
Definition ipc_wf (r : @Ipc.IpcChannelResource T) : Prop :=
  Ipc.chan_count r = 0%Z ∨ Ipc.chan_count r = 1%Z.

Lemma ipc_count_law (r : @Ipc.IpcChannelResource T) :
  ipc_wf r → Z.to_nat (Ipc.chan_count r) = size (ipc_free r).
Proof. by intros [H|H]; unfold ipc_free; rewrite H. Qed.

Lemma ipc_free_law (r : @Ipc.IpcChannelResource T) : ipc_wf r → ipc_free r ⊆ {[0]}.
Proof. unfold ipc_free. case_decide; set_solver. Qed.

Lemma ipc_set_law (ctx : ()) (r : @Ipc.IpcChannelResource T) :
  ipc_wf r → 0 < Z.to_nat (Ipc.chan_count r) →
  ∃ i r', Ipc.set ctx r = Ok (Some i, r') ∧ ipc_wf r' ∧ i ∈ ipc_free r ∧
    ipc_free r' = ipc_free r ∖ {[i]} ∧ ({[0]} : gset nat) = {[0]} ∧ rid = rid.
Proof.
  intros [H|H] H0; [rewrite H in H0; cbn in H0; lia|]. eexists _, _. split; [reflexivity|].
  unfold ipc_wf, ipc_free. cbn. rewrite H. cbn. split_and!; (done || (by left) || set_solver).
Qed.

Lemma ipc_clear_law i (r : @Ipc.IpcChannelResource T) (e : Env) :
  ipc_wf r → i ∈ ({[0]} : gset nat) → i ∉ ipc_free r →
  ∃ r' e', Ipc.clear i r e = Ok (r', e') ∧ ipc_wf r' ∧
    ipc_free r' = {[i]} ∪ ipc_free r ∧ ({[0]} : gset nat) = {[0]} ∧ rid = rid.
Proof.
  intros Hw Hi%elem_of_singleton Hf. subst i. unfold ipc_free in Hf.
  destruct Hw as [H|H]; rewrite H in Hf; [|set_solver]. eexists _, _. split; [reflexivity|].
  unfold ipc_wf, ipc_free. cbn. rewrite H. cbn. split_and!; (done || (by right) || set_solver).
Qed.

Lemma ipc_cleanup_law i (r : @Ipc.IpcChannelResource T) :
  false = true → ipc_wf r → i ∈ ({[0]} : gset nat) →
  ∃ r' (ev : Event), Panic (E:=HsmErr) = Ok r' ∧ Panic (E:=HsmErr) = Ok ev ∧ ipc_wf r' ∧
    ipc_free r' = ipc_free r ∧ ({[0]} : gset nat) = {[0]} ∧ rid = rid.
Proof. done. Qed.

#[global] Instance ipc_laws :
    ResourceLaws (Ipc.ipc_info (T:=T) (Env:=Env) (Event:=Event) rid) := {
  pool_wf := ipc_wf;
  instances _ := {[0]};
  free := ipc_free;
  supports_cleanup := false;
  law_count := ipc_count_law;
  law_free := ipc_free_law;
  law_set := ipc_set_law;
  law_clear := ipc_clear_law;
  law_cleanup := ipc_cleanup_law
}.

End pools.

(** ** Witnesses: two engines, whose tests count in the environment *)

Section engines.

Definition two_engines : @Pka.PkaResource nat nat := Pka.new [10; 20].

#[local] Existing Instance Pka.pka_info.
#[local] Existing Instance pka_laws.

Abbreviation event := (HsmFsmResourceId * nat)%type.

Definition engine_pool : @Res.t (@Pka.PkaResource nat nat) HsmFsmResourceId event nat :=
  Res.new two_engines (mkShared [] [] 0).

Definition busy_engines : @Pka.PkaResource nat nat :=
  Pka.mk [10; 20] [] [None; None] [false; false] None.
Definition busy_pool : @Res.t (@Pka.PkaResource nat nat) HsmFsmResourceId event nat :=
  Res.mk busy_engines [4; 5] None (mkShared [] [] 0).

Lemma busy_engines_wf : pka_wf busy_engines.
Proof. repeat constructor. Qed.

Lemma engine_pool_owned :
  owned (CR:=Pka.pka_info pair) (engine_pool, mkOwners ∅ ∅).
Proof.
  constructor; cbn [fst snd].
  - apply pka_new_wf.
  - intros [t Ht]. discriminate Ht.
  - split_and!; [|set_solver..]. intros x. split; [|set_solver]. intros Hx. left. exact Hx.
Qed.

Lemma resource_exclusive_witness :
  ∃ g s', Res.acquire (CR:=Pka.pka_info pair) 3 (Some 7%Z) engine_pool = (Ok g, s') ∧
    ∀ i, g = Some i → i ∉ (∅ : gset nat) ∧ i ∉ (∅ : gset nat).
Proof.
  exact (proj1 (proj2 (resource_exclusive (CR:=Pka.pka_info pair) (engine_pool, mkOwners ∅ ∅)
    (engine_pool, mkOwners ∅ ∅) 3 (Some 7%Z) engine_pool_owned (rtc_refl _ _)))).
Defined.

Lemma resource_hand_over_witness :
  ∃ s', Res.wakeup (CR:=Pka.pka_info pair) 1 busy_pool = (Ok tt, s') ∧
    ready_queue (Res.queues s') = [(4, RPka)] ∧ Res.waiters s' = [5].
Proof.
  destruct (resource_hand_over (CR:=Pka.pka_info pair) busy_pool 1 4 [5] 9 None)
    as (_ & s' & H1 & H2 & H3 & _).
  - exact busy_engines_wf.
  - vm_compute. reflexivity.
  - reflexivity.
  - reflexivity.
  - exists s'. split; [exact H1|]. split; [exact H2|exact H3].
Defined.

Lemma pka_self_test_once_witness :
  ∃ r1, Pka.self_test 1 (λ g e, e + g) busy_engines 0 = Ok (r1, 0) ∧
    Pka.clear 1 r1 7 = Ok (Pka.mk [10; 20] [1] [None; None] [false; false] None, 27).
Proof.
  destruct (pka_self_test_once busy_engines 1 20 (λ g e, e + g) 0 7)
    as (r1 & H1 & _ & H2).
  - exact busy_engines_wf.
  - reflexivity.
  - reflexivity.
  - reflexivity.
  - exists r1. split; [exact H1|exact H2].
Defined.

End engines.
