(* ===== verification/Mbor.v ===== *)
(** * Manticore Binary Object Representation (serde/ddi/mbor)

    The encoder and decoder of host requests and responses.  [MborEncode],
    [MborDecode] and [MborLen] are the crate's traits; [MborCodec] states
    what an implementation promises, with one instance per type of the crate
    and one for two values in sequence, so the round trip of a message
    follows from its parts.  The byte arrays are those of the firmware (the
    [array] feature off), which point into the message buffer. *)

From stdpp Require Import base list numbers option.
From S2P Require Import Prelude.

Inductive MborEncodeError : Set := BufferOverflow | DerDecodeFailed | EncInvalidLen.

Inductive MborDecodeError : Set :=
  | BufferUnderFlow | ExpectedMap | ExpectedU8 | ExpectedU16 | ExpectedU32 | ExpectedBool
  | DecodeU8 | DecodeU16 | DecodeU32 | DecodeU64 | DecodeU8N | InvalidId | DecInvalidLen
  | InvalidPadding | InvalidKeyType | InvalidKeyData.

Definition MAP_MARKER : Z := 0xA0.
Definition MAP_FIELD_COUNT_MASK : Z := 0x1F.
Definition BOOL_MARKER : Z := 0x14.
Definition BYTES_MARKER : Z := 0x80.
Definition BYTES_PAD_MASK : Z := 0x03.
Definition UINT_MARKER : Z := 0x18.
Definition U8_MARKER : Z := Z.lor UINT_MARKER 0x00.
Definition U16_MARKER : Z := Z.lor UINT_MARKER 0x01.
Definition U32_MARKER : Z := Z.lor UINT_MARKER 0x02.
Definition U64_MARKER : Z := Z.lor UINT_MARKER 0x03.

(** [u32] arithmetic. *)
Definition pad4 (len : Z) : Z :=
  wrap 32 (Z.land (wrap 32 (len + 3)) (unot 32 3) - len).

(** ** Encoder and decoder *)

Record MborEncoder : Set := mkEncoder { e_buffer : list Z; e_pos : nat }.
Record MborDecoder : Set := mkDecoder { d_buffer : list Z; d_pos : nat }.

Module Enc.

Definition new (buffer : list Z) : MborEncoder := mkEncoder buffer 0.

Definition remaining (e : MborEncoder) : nat := length (e_buffer e) - e_pos e.

Definition encode (value : list Z) : M MborEncoder MborEncodeError () := λ e,
  if length (e_buffer e) <? length value + e_pos e then (Err BufferOverflow, e)
  else (Ok tt, mkEncoder (take (e_pos e) (e_buffer e) ++ value ++
                            drop (e_pos e + length value) (e_buffer e))
                 (e_pos e + length value)).

Definition skip (len : nat) : M MborEncoder MborEncodeError () := λ e,
  if length (e_buffer e) <? len + e_pos e then (Err BufferOverflow, e)
  else (Ok tt, mkEncoder (e_buffer e) (e_pos e + len)).

(** [for _ in 0..pad { encoder.encode(&[0])? }]. *)
Fixpoint encode_pad (pad : nat) : M MborEncoder MborEncodeError () :=
  match pad with
  | O => mret tt
  | S pad => encode [0%Z];; encode_pad pad
  end.

End Enc.

Module Dec.

Definition new (buf : list Z) : MborDecoder := mkDecoder buf 0.

Definition bytes (len : nat) : M MborDecoder MborDecodeError (list Z) := λ d,
  if length (d_buffer d) <? len + d_pos d then (Err BufferUnderFlow, d)
  else
    match slice (d_buffer d) (d_pos d) len with
    | Ok b => (Ok b, mkDecoder (d_buffer d) (d_pos d + len))
    | Err e => (Err e, d)
    | Panic => (Panic, d)
    end.

Definition skip (len : nat) : M MborDecoder MborDecodeError () := λ d,
  if length (d_buffer d) <? len + d_pos d then (Err BufferUnderFlow, d)
  else (Ok tt, mkDecoder (d_buffer d) (d_pos d + len)).

(** [bytes[i]], which panics out of range. *)
Definition index (l : list Z) (i : nat) : M MborDecoder MborDecodeError Z :=
  match l !! i with Some b => mret b | None => lift Panic end.

Definition byte : M MborDecoder MborDecodeError Z := b ← bytes 1; index b 0.

Definition peek_u8 (d : MborDecoder) : option Z :=
  match bytes 2 d with (Ok b, _) => b !! 1 | _ => None end.

Definition peek_byte (d : MborDecoder) : option Z :=
  match byte d with (Ok b, _) => Some b | _ => None end.

(** [uN::from_be_bytes(b.try_into().or(Err(e))?)] with [n] bytes. *)
Definition be_uint (n : nat) (e : MborDecodeError) (b : list Z) : M MborDecoder MborDecodeError Z :=
  if decide (length b = n) then mret (from_be_bytes b) else throw e.

End Dec.

(** ** The traits *)

Class MborEncode (A : Type) := mbor_encode : A → M MborEncoder MborEncodeError ().
Class MborDecode (A : Type) := mbor_decode : M MborDecoder MborDecodeError A.
Class MborLen (A : Type) := mbor_len : A → nat.

Inductive MborMap : Set := mkMap (count : Z).
Inductive U8 : Set := mkU8 (v : Z).
Inductive U16 : Set := mkU16 (v : Z).
Inductive U32 : Set := mkU32 (v : Z).
Inductive U64 : Set := mkU64 (v : Z).

#[global] Instance map_encode : MborEncode MborMap := λ '(mkMap n),
  Enc.encode [Z.lor MAP_MARKER (Z.land MAP_FIELD_COUNT_MASK n)].
#[global] Instance u8_encode : MborEncode U8 := λ '(mkU8 v),
  Enc.encode [U8_MARKER];; Enc.encode [v].
#[global] Instance u16_encode : MborEncode U16 := λ '(mkU16 v),
  Enc.encode [U16_MARKER];; Enc.encode (to_be_bytes 2 v).
#[global] Instance u32_encode : MborEncode U32 := λ '(mkU32 v),
  Enc.encode [U32_MARKER];; Enc.encode (to_be_bytes 4 v).
#[global] Instance u64_encode : MborEncode U64 := λ '(mkU64 v),
  Enc.encode [U64_MARKER];; Enc.encode (to_be_bytes 8 v).
#[global] Instance bool_encode : MborEncode bool := λ b,
  Enc.encode [wrap 8 (BOOL_MARKER + Z.b2z b)].

#[global] Instance map_decode : MborDecode MborMap :=
  b ← Dec.byte;
  if negb (Z.land b MAP_MARKER =? MAP_MARKER)%Z then throw ExpectedMap
  else mret (mkMap (Z.land b MAP_FIELD_COUNT_MASK)).
#[global] Instance u8_decode : MborDecode U8 :=
  b ← Dec.bytes 2; v ← Dec.index b 1; mret (mkU8 v).
#[global] Instance u16_decode : MborDecode U16 :=
  b ← Dec.bytes 3; v ← Dec.be_uint 2 DecodeU16 (drop 1 b); mret (mkU16 v).
#[global] Instance u32_decode : MborDecode U32 :=
  b ← Dec.bytes 5; v ← Dec.be_uint 4 DecodeU32 (drop 1 b); mret (mkU32 v).
#[global] Instance u64_decode : MborDecode U64 :=
  b ← Dec.bytes 9; v ← Dec.be_uint 8 DecodeU64 (drop 1 b); mret (mkU64 v).
#[global] Instance bool_decode : MborDecode bool :=
  b ← Dec.byte;
  let b := Z.land b (unot 8 BOOL_MARKER) in
  if (b =? 0)%Z then mret false else if (b =? 1)%Z then mret true else throw ExpectedBool.

#[global] Instance map_len : MborLen MborMap := λ _, 1.
#[global] Instance u8_len : MborLen U8 := λ _, 1 + 1.
#[global] Instance u16_len : MborLen U16 := λ _, 1 + 2.
#[global] Instance u32_len : MborLen U32 := λ _, 1 + 4.
#[global] Instance u64_len : MborLen U64 := λ _, 1 + 8.
#[global] Instance bool_len : MborLen bool := λ _, 1.

(** [MborByteSlice] is encoded, and read back as a fixed array [[u8; N]]. *)
Inductive MborByteSlice : Set := mkSlice (data : list Z).

#[global] Instance slice_encode : MborEncode MborByteSlice := λ '(mkSlice data),
  Enc.encode [BYTES_MARKER];;
  Enc.encode (to_be_bytes 2 (wrap 16 (Z.of_nat (length data))));;
  Enc.encode data.
#[global] Instance slice_len : MborLen MborByteSlice := λ '(mkSlice data), 1 + 2 + length data.

Definition fixed_array_decode (N : nat) : M MborDecoder MborDecodeError (list Z) :=
  marker ← Dec.byte;
  if negb (Z.land marker BYTES_MARKER =? BYTES_MARKER)%Z then throw ExpectedU8
  else if negb (Z.land marker BYTES_PAD_MASK =? 0)%Z then throw InvalidPadding
  else
    b ← Dec.bytes 2;
    len ← Dec.be_uint 2 DecodeU16 b;
    if negb (len =? wrap 16 (Z.of_nat N))%Z then throw DecInvalidLen
    else
      data ← Dec.bytes (Z.to_nat len);
      if decide (length data = N) then mret data else throw DecodeU8N.

(** A pointer of a byte array: null, outside the message, or an offset of
    the message buffer. *)
Inductive pointer : Set := Null | Outside (memory : list Z) | InMessage (offset : nat).
Record MborByteArray (N : nat) : Set := mkArray { ptr : pointer; len : nat }.
Arguments mkArray {N} _ _.
Arguments ptr {N} _.
Arguments len {N} _.

(** [as_slice] of an array whose message is [buf]. *)
Definition as_slice {N} (buf : list Z) (a : MborByteArray N) : list Z :=
  match ptr a with
  | Null => []
  | Outside m => take (len a) m
  | InMessage off => take (len a) (drop off buf)
  end.

(** [MborPaddedByteArray::mbor_encode]; the array is left pointing at the
    encoder's buffer. *)
Definition padded_array_encode {N} (a : MborByteArray N) (pad_ : Z) :
    M MborEncoder MborEncodeError (MborByteArray N) :=
  if N <? len a then throw BufferOverflow
  else
    let pad := Z.land BYTES_PAD_MASK pad_ in
    Enc.encode [Z.lor BYTES_MARKER pad];;
    Enc.encode (to_be_bytes 2 (wrap 16 (Z.of_nat (len a))));;
    Enc.encode_pad (Z.to_nat pad);;
    e ← get;
    let a' := mkArray (InMessage (e_pos e)) (len a) in
    match ptr a with
    | Null => Enc.skip (len a);; mret a'
    | _ => Enc.encode (as_slice (e_buffer e) a);; mret a'
    end.

Definition padded_array_len {N} (a : MborByteArray N) (pad : Z) : nat :=
  1 + 2 + Z.to_nat pad + len a.

Definition array_decode (N : nat) : M MborDecoder MborDecodeError (MborByteArray N) :=
  marker ← Dec.byte;
  if negb (Z.land marker BYTES_MARKER =? BYTES_MARKER)%Z then throw ExpectedU8
  else
    b ← Dec.bytes 2;
    l ← Dec.be_uint 2 DecodeU16 b;
    if (wrap 16 (Z.of_nat N) <? l)%Z then throw BufferUnderFlow
    else
      let pad := Z.land marker BYTES_PAD_MASK in
      Dec.skip (Z.to_nat pad);;
      d ← get;
      let arr := mkArray (InMessage (d_pos d)) (Z.to_nat l) in
      Dec.skip (Z.to_nat l);;
      mret arr.

(** ** Reasoning about encoders *)

(** [m] writes [bs] at the encoder's position and returns [result] of that
    position, or overflows. *)
Definition splice (buf : list Z) (pos : nat) (bs : list Z) : list Z :=
  take pos buf ++ bs ++ drop (pos + length bs) buf.

Definition encodes {A} (m : M MborEncoder MborEncodeError A) (bs : list Z)
    (result : nat → A) : Prop :=
  ∀ e, e_pos e ≤ length (e_buffer e) →
    if decide (e_pos e + length bs ≤ length (e_buffer e)) then
      m e = (Ok (result (e_pos e)), mkEncoder (splice (e_buffer e) (e_pos e) bs) (e_pos e + length bs))
    else ∃ e', m e = (Err BufferOverflow, e').

Lemma length_splice_fit buf pos bs :
  pos + length bs ≤ length buf → length (splice buf pos bs) = length buf.
Proof. apply length_splice. Qed.

Lemma splice_app buf pos bs bs' :
  pos + length bs + length bs' ≤ length buf →
  splice (splice buf pos bs) (pos + length bs) bs' = splice buf pos (bs ++ bs').
Proof.
  intros H. apply list_eq. intros i. unfold splice.
  rewrite length_app, Nat.add_assoc.
  assert (length (take pos buf ++ bs ++ drop (pos + length bs) buf) = length buf) as Hl
    by (apply length_splice; lia).
  rewrite lookup_splice by (rewrite Hl; lia). rewrite lookup_splice by lia.
  pose proof (lookup_splice buf (bs ++ bs') pos i) as Hs.
  rewrite length_app, Nat.add_assoc in Hs. rewrite Hs by lia. clear Hs.
  repeat case_decide; try lia; try done.
  - by rewrite lookup_app_r, Nat.sub_add_distr by lia.
  - by rewrite lookup_app_l by lia.
Qed.

Lemma encode_encodes bs : encodes (Enc.encode bs) bs (λ _, tt).
Proof.
  intros e He. unfold Enc.encode. case_decide as H.
  - by rewrite (proj2 (Nat.ltb_ge _ _)) by lia.
  - rewrite (proj2 (Nat.ltb_lt _ _)) by lia. eauto.
Qed.

Lemma encodes_seq {B} (m : M _ _ ()) (m' : M _ _ B) bs bs' r' :
  encodes m bs (λ _, tt) → encodes m' bs' r' →
  encodes (m;; m') (bs ++ bs') (λ p, r' (p + length bs)).
Proof.
  intros Hm Hf e He. specialize (Hm e He). unfold mbind, M_bind. rewrite length_app.
  case_decide as H1; [|destruct Hm as [e' ->]; rewrite decide_False by lia; eauto].
  rewrite Hm. specialize (Hf (mkEncoder (splice (e_buffer e) (e_pos e) bs) (e_pos e + length bs))).
  cbn [e_pos e_buffer] in Hf. rewrite length_splice_fit in Hf by done. specialize (Hf H1).
  case_decide as H2.
  - rewrite decide_True by lia. rewrite Hf. by rewrite splice_app, Nat.add_assoc by lia.
  - by rewrite decide_False by lia.
Qed.

Lemma encode_pad_encodes n : encodes (Enc.encode_pad n) (replicate n 0%Z) (λ _, tt).
Proof.
  induction n as [|n IH].
  - intros e He. cbn. rewrite decide_True by lia. unfold splice. cbn.
    rewrite Nat.add_0_r, take_drop. by destruct e.
  - cbn. apply (encodes_seq _ _ [0%Z] (replicate n 0%Z) (λ _, tt)); [apply encode_encodes|done].
Qed.

(** ** Reasoning about decoders *)

(** [m] reads [bs] at the decoder's position and returns [a]. *)
Definition at_pos (d : MborDecoder) (bs : list Z) : Prop :=
  take (length bs) (drop (d_pos d) (d_buffer d)) = bs.

Definition decodes {A} (m : M MborDecoder MborDecodeError A) (bs : list Z)
    (result : MborDecoder → A) : Prop :=
  ∀ d, at_pos d bs → m d = (Ok (result d), mkDecoder (d_buffer d) (d_pos d + length bs)).

Lemma at_pos_fits d bs : at_pos d bs → d_pos d ≤ length (d_buffer d) →
  d_pos d + length bs ≤ length (d_buffer d).
Proof.
  unfold at_pos. intros H Hp. apply (f_equal length) in H.
  rewrite length_take, length_drop in H. lia.
Qed.

Lemma at_pos_fits' d bs : at_pos d bs → bs ≠ [] →
  d_pos d + length bs ≤ length (d_buffer d).
Proof.
  unfold at_pos. intros H Hn. apply (f_equal length) in H.
  rewrite length_take, length_drop in H. destruct bs; [done|]. cbn [length] in *. lia.
Qed.

Lemma at_pos_app d bs bs' :
  at_pos d (bs ++ bs') → at_pos d bs ∧ at_pos (mkDecoder (d_buffer d) (d_pos d + length bs)) bs'.
Proof.
  unfold at_pos. cbn. rewrite length_app. intros H. split.
  - apply (f_equal (take (length bs))) in H. rewrite take_take, take_app_length in H.
    rewrite Nat.min_l in H by lia. done.
  - apply (f_equal (drop (length bs))) in H.
    rewrite drop_app_length, <- take_drop_commute, drop_drop in H. done.
Qed.

Lemma bytes_decodes bs : bs ≠ [] → decodes (Dec.bytes (length bs)) bs (λ _, bs).
Proof.
  intros Hn d Hd. pose proof (at_pos_fits' d bs Hd Hn).
  unfold Dec.bytes, slice. rewrite (proj2 (Nat.ltb_ge _ _)), decide_True by lia.
  unfold at_pos in Hd. by rewrite Hd.
Qed.

Lemma byte_decodes b : decodes Dec.byte [b] (λ _, b).
Proof.
  intros d Hd. unfold Dec.byte, mbind, M_bind.
  pose proof (bytes_decodes [b] ltac:(done) d Hd) as E. change (length [b]) with 1 in E.
  by rewrite E.
Qed.

Lemma decodes_bind {A B} (m : M _ _ A) (f : A → M _ _ B) bs bs' a r' :
  decodes m bs (λ _, a) → decodes (f a) bs' r' →
  decodes (m ≫= f) (bs ++ bs') (λ d, r' (mkDecoder (d_buffer d) (d_pos d + length bs))).
Proof.
  intros Hm Hf d [H1 H2]%at_pos_app. unfold mbind, M_bind. rewrite Hm, Hf by done.
  by rewrite length_app, Nat.add_assoc.
Qed.

Lemma decodes_ret {A} (a : A) : decodes (mret a) [] (λ _, a).
Proof. intros d _. unfold mret, M_ret. rewrite Nat.add_0_r. by destruct d. Qed.

(** ** What an implementation of the traits promises *)

Class MborCodec (A : Type) `{MborEncode A, MborDecode A, MborLen A} := {
  valid : A → Prop;
  image : A → list Z;
  image_length a : valid a → length (image a) = mbor_len a;
  encode_image a : valid a → encodes (mbor_encode a) (image a) (λ _, tt);
  decode_image a : valid a → decodes mbor_decode (image a) (λ _, a)
}.

(** The unsigned integers share one proof. *)
Lemma uint_encodes marker bs : encodes (Enc.encode [marker];; Enc.encode bs) (marker :: bs) (λ _, tt).
Proof. apply (encodes_seq _ _ [marker] bs (λ _, tt)); apply encode_encodes. Qed.

Lemma uint_decodes {A} (mk : Z → A) n err marker v :
  uint_range (8 * Z.of_nat n) v →
  decodes (b ← Dec.bytes (S n); v ← Dec.be_uint n err (drop 1 b); mret (mk v))
    (marker :: to_be_bytes n v) (λ _, mk v).
Proof.
  intros Hv d Hd. unfold mbind, M_bind.
  pose proof (bytes_decodes (marker :: to_be_bytes n v) ltac:(done) d Hd) as E.
  cbn [length] in E. rewrite length_to_be_bytes in E. rewrite E. cbn [skipn].
  unfold Dec.be_uint. rewrite decide_True by apply length_to_be_bytes.
  cbn [length]. rewrite length_to_be_bytes.
  unfold mret, M_ret. by rewrite drop_0, from_to_be_bytes.
Qed.

Lemma to_be_bytes_1 v : uint_range 8 v → to_be_bytes 1 v = [v].
Proof. intros H. unfold to_be_bytes. cbn. by rewrite wrap_small. Qed.

Lemma u8_decodes v : uint_range 8 v → decodes u8_decode [U8_MARKER; v] (λ _, mkU8 v).
Proof.
  intros Hv d Hd. unfold u8_decode, mbind, M_bind.
  pose proof (bytes_decodes [U8_MARKER; v] ltac:(done) d Hd) as E.
  change (length [U8_MARKER; v]) with 2 in E |- *. by rewrite E.
Qed.

(** The 32 field counts and the two booleans are checked one by one. *)
Lemma map_marker_bits n :
  (0 ≤ n < 32)%Z →
  let b := Z.lor MAP_MARKER (Z.land MAP_FIELD_COUNT_MASK n) in
  Z.land b MAP_MARKER = MAP_MARKER ∧ Z.land b MAP_FIELD_COUNT_MASK = n.
Proof.
  intros Hn. assert (n ∈ seqZ 0 32) as Hin by (apply elem_of_seqZ; lia).
  revert n Hn Hin. 
  assert (Forall (λ n, let b := Z.lor MAP_MARKER (Z.land MAP_FIELD_COUNT_MASK n) in
     Z.land b MAP_MARKER = MAP_MARKER ∧ Z.land b MAP_FIELD_COUNT_MASK = n) (seqZ 0 32)) as H
    by (by repeat constructor).
  intros n _ Hin. rewrite list.Forall_forall in H. by apply H.
Qed.

Lemma map_decodes n :
  (0 ≤ n < 32)%Z →
  decodes map_decode [Z.lor MAP_MARKER (Z.land MAP_FIELD_COUNT_MASK n)] (λ _, mkMap n).
Proof.
  intros Hn d Hd. destruct (map_marker_bits n Hn) as [H1 H2].
  unfold map_decode, mbind, M_bind. rewrite (byte_decodes _ d Hd).
  cbn zeta in H1, H2. by rewrite H1, H2.
Qed.

Lemma bool_decodes b : decodes bool_decode [wrap 8 (BOOL_MARKER + Z.b2z b)] (λ _, b).
Proof.
  intros d Hd. unfold bool_decode, mbind, M_bind. rewrite (byte_decodes _ d Hd). by destruct b.
Qed.

#[global] Program Instance map_codec : MborCodec MborMap := {
  valid '(mkMap n) := (0 ≤ n < 32)%Z;
  image '(mkMap n) := [Z.lor MAP_MARKER (Z.land MAP_FIELD_COUNT_MASK n)]
}.
Next Obligation. by intros []. Qed.
Next Obligation. intros [] _. apply encode_encodes. Qed.
Next Obligation. intros [n] Hn. by apply map_decodes. Qed.

#[global] Program Instance u8_codec : MborCodec U8 := {
  valid '(mkU8 v) := uint_range 8 v; image '(mkU8 v) := [U8_MARKER; v]
}.
Next Obligation. by intros []. Qed.
Next Obligation. intros [v] _. apply uint_encodes. Qed.
Next Obligation. intros [v] Hv. by apply u8_decodes. Qed.

#[global] Program Instance u16_codec : MborCodec U16 := {
  valid '(mkU16 v) := uint_range 16 v; image '(mkU16 v) := U16_MARKER :: to_be_bytes 2 v
}.
Next Obligation. by intros []. Qed.
Next Obligation. intros [v] _. apply uint_encodes. Qed.
Next Obligation. intros [v] Hv. by apply (uint_decodes mkU16). Qed.

#[global] Program Instance u32_codec : MborCodec U32 := {
  valid '(mkU32 v) := uint_range 32 v; image '(mkU32 v) := U32_MARKER :: to_be_bytes 4 v
}.
Next Obligation. by intros []. Qed.
Next Obligation. intros [v] _. apply uint_encodes. Qed.
Next Obligation. intros [v] Hv. by apply (uint_decodes mkU32). Qed.

#[global] Program Instance u64_codec : MborCodec U64 := {
  valid '(mkU64 v) := uint_range 64 v; image '(mkU64 v) := U64_MARKER :: to_be_bytes 8 v
}.
Next Obligation. by intros []. Qed.
Next Obligation. intros [v] _. apply uint_encodes. Qed.
Next Obligation. intros [v] Hv. by apply (uint_decodes mkU64). Qed.

#[global] Program Instance bool_codec : MborCodec bool := {
  valid _ := True; image b := [wrap 8 (BOOL_MARKER + Z.b2z b)]
}.
Next Obligation. done. Qed.
Next Obligation. intros b _. apply encode_encodes. Qed.
Next Obligation. intros b _. apply bool_decodes. Qed.

(** Two values in sequence, the way a structure encodes its fields. *)
Section pair.
Context `{CA : MborCodec A, CB : MborCodec B}.

#[global] Instance pair_encode : MborEncode (A * B) := λ '(a, b), mbor_encode a;; mbor_encode b.
#[global] Instance pair_decode : MborDecode (A * B) :=
  a ← mbor_decode; b ← mbor_decode; mret (a, b).
#[global] Instance pair_len : MborLen (A * B) := λ '(a, b), mbor_len a + mbor_len b.

#[global] Program Instance pair_codec : MborCodec (A * B) := {
  valid '(a, b) := valid a ∧ valid b; image '(a, b) := image a ++ image b
}.
Next Obligation.
  intros [a b] [Ha Hb]. cbn. by rewrite length_app, !image_length.
Qed.
Next Obligation.
  intros [a b] [Ha Hb]. apply (encodes_seq _ _ _ _ (λ _, tt)); by apply encode_image.
Qed.
Next Obligation.
  intros [a b] [Ha Hb].
  eapply (decodes_bind _ _ _ _ a (λ _, (a, b))); [by apply decode_image|].
  rewrite <- (app_nil_r (image b)).
  eapply (decodes_bind _ _ _ _ b (λ _, (a, b))); [by apply decode_image|apply decodes_ret].
Qed.

End pair.

(** ** Byte slices and arrays *)

Lemma at_pos_splice buf pos bs :
  pos + length bs ≤ length buf → at_pos (mkDecoder (splice buf pos bs) pos) bs.
Proof. intros H. unfold at_pos, splice. cbn. by apply take_drop_splice_in. Qed.

Lemma length_field_range n : (Z.of_nat n < 65536)%Z → uint_range 16 (Z.of_nat n).
Proof. unfold uint_range. lia. Qed.

Lemma be_uint_2 v err d :
  uint_range 16 v → Dec.be_uint 2 err (to_be_bytes 2 v) d = (Ok v, d).
Proof.
  intros Hv. unfold Dec.be_uint. rewrite decide_True by apply length_to_be_bytes.
  unfold mret, M_ret. by rewrite from_to_be_bytes.
Qed.

Lemma be_uint_2_decodes v err : uint_range 16 v → decodes (Dec.be_uint 2 err (to_be_bytes 2 v)) [] (λ _, v).
Proof. intros Hv d _. rewrite be_uint_2 by done. rewrite Nat.add_0_r. by destruct d. Qed.

Lemma bytes_decodes_any n bs : length bs = n → n ≠ 0 → decodes (Dec.bytes n) bs (λ _, bs).
Proof. intros <- Hn. apply bytes_decodes. by destruct bs. Qed.

Lemma skip_decodes n bs : length bs = n → ∀ d, at_pos d bs → d_pos d ≤ length (d_buffer d) →
  Dec.skip n d = (Ok tt, mkDecoder (d_buffer d) (d_pos d + n)).
Proof.
  intros <- d Hd Hp. pose proof (at_pos_fits d bs Hd Hp). unfold Dec.skip.
  by rewrite (proj2 (Nat.ltb_ge _ _)) by lia.
Qed.

Definition slice_image (data : list Z) : list Z :=
  BYTES_MARKER :: to_be_bytes 2 (wrap 16 (Z.of_nat (length data))) ++ data.

Lemma slice_encodes data : encodes (mbor_encode (mkSlice data)) (slice_image data) (λ _, tt).
Proof.
  apply (encodes_seq _ _ [BYTES_MARKER] (to_be_bytes 2 _ ++ data) (λ _, tt));
    [apply encode_encodes|].
  apply (encodes_seq _ _ (to_be_bytes 2 _) data (λ _, tt)); apply encode_encodes.
Qed.

Lemma fixed_array_decodes data :
  0 < length data → (Z.of_nat (length data) < 65536)%Z →
  decodes (fixed_array_decode (length data)) (slice_image data) (λ _, data).
Proof.
  intros H0 Hl d Hd. pose proof (length_field_range _ Hl) as Hr.
  unfold slice_image in Hd |- *. rewrite wrap_small in Hd |- * by done.
  apply (at_pos_app d [BYTES_MARKER]) in Hd as [H1 Hd]. apply at_pos_app in Hd as [H2 H3].
  change (length [BYTES_MARKER]) with 1 in *.
  unfold fixed_array_decode, mbind, M_bind. rewrite (byte_decodes _ d H1).
  change (Z.land BYTES_MARKER BYTES_MARKER =? BYTES_MARKER)%Z with true.
  change (Z.land BYTES_MARKER BYTES_PAD_MASK =? 0)%Z with true. cbn [negb]. change (length [_]) with 1.
  rewrite (bytes_decodes_any 2 _ (length_to_be_bytes 2 _) ltac:(lia) _ H2), be_uint_2 by done.
  rewrite wrap_small, Z.eqb_refl, Nat2Z.id by done. cbn [negb].
  rewrite (bytes_decodes_any _ data eq_refl ltac:(lia) _ H3), decide_True by done.
  unfold mret, M_ret. cbn [d_pos d_buffer length]. rewrite length_app, length_to_be_bytes.
  do 2 f_equal. lia.
Qed.

Definition array_header (pad : Z) (n : nat) : list Z :=
  Z.lor BYTES_MARKER pad :: to_be_bytes 2 (wrap 16 (Z.of_nat n)) ++ replicate (Z.to_nat pad) 0%Z.

Lemma length_array_header pad n : length (array_header pad n) = 3 + Z.to_nat pad.
Proof.
  unfold array_header. cbn [length]. by rewrite length_app, length_to_be_bytes, length_replicate.
Qed.

Lemma array_encodes {N} (data : list Z) pad :
  length data ≤ N → (0 ≤ pad < 4)%Z →
  encodes (padded_array_encode (N:=N) (mkArray (Outside data) (length data)) pad)
    (array_header pad (length data) ++ data)
    (λ p, mkArray (InMessage (p + length (array_header pad (length data)))) (length data)).
Proof.
  intros Hl Hp. unfold padded_array_encode. cbn [len ptr].
  rewrite (proj2 (Nat.ltb_ge _ _)) by lia.
  assert (Z.land BYTES_PAD_MASK pad = pad) as Epad.
  { change BYTES_PAD_MASK with (Z.ones 2). rewrite Z.land_comm, Z.land_ones by lia.
    by apply Z.mod_small. }
  cbn zeta. rewrite Epad. clear Epad.
  assert (encodes (e ← get;
     Enc.encode (as_slice (e_buffer e) (mkArray (N:=N) (Outside data) (length data)));;
     mret (mkArray (N:=N) (InMessage (e_pos e)) (length data))) data
     (λ p, mkArray (InMessage p) (length data))) as Hd.
  { intros e He. unfold mbind, M_bind, get. unfold as_slice. cbn [ptr len].
    rewrite firstn_all. pose proof (encode_encodes data e He) as Hb.
    case_decide; [by rewrite Hb|]. destruct Hb as [e' ->]. eauto. }
  pose proof (encodes_seq _ _ _ _ _ (encode_pad_encodes (Z.to_nat pad)) Hd) as H1.
  pose proof (encodes_seq _ _ _ _ _ (encode_encodes (to_be_bytes 2 (wrap 16 (Z.of_nat (length data))))) H1) as H2.
  pose proof (encodes_seq _ _ _ _ _ (encode_encodes [Z.lor BYTES_MARKER pad]) H2) as H3.
  assert (array_header pad (length data) ++ data = [Z.lor BYTES_MARKER pad] ++
    to_be_bytes 2 (wrap 16 (Z.of_nat (length data))) ++ replicate (Z.to_nat pad) 0%Z ++ data) as ->
    by (unfold array_header; cbn [app]; by rewrite <- app_assoc).
  intros e He. specialize (H3 e He). case_decide; [rewrite H3|exact H3]. do 4 f_equal.
  rewrite length_array_header, length_to_be_bytes, length_replicate. cbn [length]. lia.
Qed.

Lemma array_decodes N data pad :
  length data ≤ N → (Z.of_nat N < 65536)%Z → (0 ≤ pad < 4)%Z →
  ∀ d, at_pos d (array_header pad (length data) ++ data) → d_pos d ≤ length (d_buffer d) →
  array_decode N d =
    (Ok (mkArray (InMessage (d_pos d + length (array_header pad (length data)))) (length data)),
     mkDecoder (d_buffer d) (d_pos d + length (array_header pad (length data) ++ data))).
Proof.
  intros Hl HN Hp d Hd Hpos. pose proof (at_pos_fits _ _ Hd Hpos) as Hfit.
  assert (uint_range 16 (Z.of_nat (length data))) as Hr by (unfold uint_range; lia).
  apply at_pos_app in Hd as [Hh Hd]. unfold array_header in Hh.
  rewrite wrap_small in Hh by done.
  apply (at_pos_app d [_]) in Hh as [H1 Hh]. apply at_pos_app in Hh as [H2 H3].
  change (length [Z.lor BYTES_MARKER pad]) with 1 in *.
  assert (Z.land (Z.lor BYTES_MARKER pad) BYTES_MARKER = BYTES_MARKER ∧
          Z.land (Z.lor BYTES_MARKER pad) BYTES_PAD_MASK = pad) as [E1 E2].
  { assert (pad = 0 ∨ pad = 1 ∨ pad = 2 ∨ pad = 3)%Z as Hc by lia.
    by destruct Hc as [->|[->|[->| ->]]]. }
  unfold array_decode, mbind, M_bind. rewrite (byte_decodes _ d H1), E1, E2, Z.eqb_refl.
  cbn [negb]. change (length [_]) with 1.
  rewrite (bytes_decodes_any 2 _ (length_to_be_bytes 2 _) ltac:(lia) _ H2), be_uint_2 by done.
  rewrite wrap_small by (unfold uint_range; lia). rewrite (proj2 (Z.ltb_ge (Z.of_nat N) (Z.of_nat (length data)))) by lia.
  rewrite length_app, length_array_header in Hfit. cbn [d_buffer d_pos].
  rewrite length_to_be_bytes. unfold Dec.skip, get. cbn [d_buffer d_pos].
  rewrite (proj2 (Nat.ltb_ge _ _)) by lia. cbn [d_buffer d_pos]. rewrite Nat2Z.id.
  rewrite (proj2 (Nat.ltb_ge _ _)) by lia.
  rewrite length_app, length_array_header. unfold mret, M_ret.
  f_equal; [do 3 f_equal|f_equal]; lia.
Qed.

(** ** Robustness: any input is decoded or refused *)

Section robust.
Context (buf : list Z).

(** On the message [buf], [m] does not panic, does not change the message, and stops inside it;
    what it returns satisfies [P]. *)
Definition robust {A} (m : M MborDecoder MborDecodeError A) (P : MborDecoder → A → Prop) : Prop :=
  ∀ d, d_buffer d = buf → d_pos d ≤ length buf →
    ∃ r d', m d = (r, d') ∧ r ≠ Panic ∧ d_buffer d' = buf ∧
      d_pos d ≤ d_pos d' ≤ length buf ∧ ∀ a, r = Ok a → P d' a.

Lemma robust_ret {A} (a : A) (P : _ → _ → Prop) : (∀ d, P d a) → robust (mret a) P.
Proof. intros H d Hb Hd. exists (Ok a), d. naive_solver. Qed.

Lemma robust_throw {A} e (P : MborDecoder → A → Prop) : robust (throw e) P.
Proof. intros d Hb Hd. exists (Err e), d. naive_solver. Qed.

Lemma robust_bind {A B} (m : M _ _ A) (f : A → M _ _ B) P Q :
  robust m P → (∀ a, (∃ d, d_buffer d = buf ∧ P d a) → robust (f a) Q) → robust (m ≫= f) Q.
Proof.
  intros Hm Hf d Hb Hd. destruct (Hm d Hb Hd) as (r & d1 & E & Hp & Hb1 & Hpos & HP).
  unfold mbind, M_bind. rewrite E. destruct r as [a|e|]; [|by exists (Err e), d1|done].
  destruct (Hf a (ex_intro _ d1 (conj Hb1 (HP a eq_refl))) d1 Hb1)
    as (r' & d2 & E2 & Hp2 & Hb2 & Hpos2 & HQ); [lia|].
  exists r', d2. split_and!; [done..|lia|lia|done].
Qed.

Lemma robust_bytes n : robust (Dec.bytes n) (λ _ b, length b = n).
Proof.
  intros d Hb Hd. unfold Dec.bytes, slice. rewrite Hb.
  destruct (Nat.ltb_spec (length buf) (n + d_pos d)).
  - exists (Err BufferUnderFlow), d. naive_solver.
  - rewrite decide_True by lia. eexists _, _. split; [reflexivity|]. cbn. split_and!; try done; [lia..|].
    intros a [= <-]. rewrite length_take, length_drop. lia.
Qed.

Lemma robust_skip n : robust (Dec.skip n) (λ _ _, True).
Proof.
  intros d Hb Hd. unfold Dec.skip. rewrite Hb. destruct (Nat.ltb_spec (length buf) (n + d_pos d)).
  - exists (Err BufferUnderFlow), d. naive_solver.
  - eexists _, _. split; [reflexivity|]. cbn. split_and!; try done; lia.
Qed.

Lemma robust_index b i : i < length b → robust (Dec.index b i) (λ _ _, True).
Proof.
  intros Hi. unfold Dec.index. destruct (lookup_lt_is_Some_2 b i Hi) as [v ->]. by apply robust_ret.
Qed.

Lemma robust_byte : robust Dec.byte (λ _ _, True).
Proof.
  eapply robust_bind; [apply robust_bytes|]. intros b (d & _ & Hb). apply robust_index. lia.
Qed.

Lemma robust_be_uint n e b : robust (Dec.be_uint n e b) (λ _ _, True).
Proof. unfold Dec.be_uint. case_decide; [by apply robust_ret|apply robust_throw]. Qed.

Lemma robust_weaken {A} (m : M _ _ A) (P Q : MborDecoder → A → Prop) :
  robust m P → (∀ d a, P d a → Q d a) → robust m Q.
Proof. intros Hm HPQ d Hb Hd. destruct (Hm d Hb Hd) as (r & d' & H). exists r, d'. naive_solver. Qed.

Create HintDb mbor.
#[local] Hint Resolve robust_ret robust_throw robust_bytes robust_skip robust_byte
  robust_be_uint robust_index : mbor.

(** [robust_auto] walks through a decoder. *)
Ltac robust_auto :=
  repeat match goal with
  | |- robust (if ?b then _ else _) _ => destruct b
  | |- robust (_ ≫= _) _ => eapply robust_bind; [solve [eauto with mbor]|intros ? (? & ? & ?); cbn in *]
  end; eauto with mbor.

Lemma fixed_array_robust N : robust (fixed_array_decode N) (λ _ b, length b = N).
Proof. unfold fixed_array_decode. robust_auto. Qed.

(** A decoded array points inside the message and has at most [N] bytes. *)
Definition array_inside {N} (d : MborDecoder) (a : MborByteArray N) : Prop :=
  ∃ off, ptr a = InMessage off ∧ off + len a = d_pos d ∧ d_pos d ≤ length buf ∧ len a ≤ N.

Lemma array_tail_robust {N} pad n :
  n ≤ N →
  robust (Dec.skip pad;; d ← get; Dec.skip n;; mret (mkArray (N:=N) (InMessage (d_pos d)) n))
    array_inside.
Proof.
  intros Hn d Hb Hd. unfold mbind, M_bind, get. pose proof (robust_skip pad d Hb Hd) as H1.
  destruct H1 as (r1 & d1 & E1 & Hp1 & Hb1 & Hpos1 & _). rewrite E1.
  destruct r1 as [[]|e|]; [|exists (Err e), d1; naive_solver|done].
  unfold Dec.skip. rewrite Hb1. destruct (Nat.ltb_spec (length buf) (n + d_pos d1)).
  - exists (Err BufferUnderFlow), d1. naive_solver.
  - eexists _, _. split; [reflexivity|]. cbn [d_buffer d_pos].
    split_and!; try done; [lia..|].
    intros a [= <-]. exists (d_pos d1). cbn. split_and!; [done|lia|lia|done].
Qed.

Lemma array_robust N : robust (array_decode N) array_inside.
Proof.
  unfold array_decode. eapply robust_bind; [apply robust_byte|]. intros marker _.
  destruct (negb _); [apply robust_throw|].
  eapply robust_bind; [apply robust_bytes|]. intros b _.
  eapply robust_bind; [apply robust_be_uint|]. intros l _.
  destruct (Z.ltb_spec (wrap 16 (Z.of_nat N)) l) as [|Hl]; [apply robust_throw|].
  apply array_tail_robust. unfold wrap in Hl.
  pose proof (Z.mod_le (Z.of_nat N) (2 ^ 16)). lia.
Qed.

(** ** Messages *)

(** The types of the fields of a request, and what a field holds; an array
    field is a range of the message. *)
Inductive field_type : Set :=
  | TMap | TU8 | TU16 | TU32 | TU64 | TBool | TFixed (N : nat) | TArray (N : nat).
Inductive field : Set :=
  | FMap (m : MborMap) | FU8 (v : U8) | FU16 (v : U16) | FU32 (v : U32) | FU64 (v : U64)
  | FBool (b : bool) | FFixed (data : list Z) | FArray (offset length : nat).

Definition as_field {A} (f : A → field) (m : M MborDecoder MborDecodeError A) :
    M MborDecoder MborDecodeError field :=
  a ← m; mret (f a).

Definition array_field {N} (a : MborByteArray N) : field :=
  FArray (match ptr a with InMessage off => off | _ => 0 end) (len a).

Definition decode_field (t : field_type) : M MborDecoder MborDecodeError field :=
  match t with
  | TMap => as_field FMap mbor_decode
  | TU8 => as_field FU8 mbor_decode
  | TU16 => as_field FU16 mbor_decode
  | TU32 => as_field FU32 mbor_decode
  | TU64 => as_field FU64 mbor_decode
  | TBool => as_field FBool mbor_decode
  | TFixed N => as_field FFixed (fixed_array_decode N)
  | TArray N => as_field array_field (array_decode N)
  end.

Fixpoint decode_fields (ts : list field_type) : M MborDecoder MborDecodeError (list field) :=
  match ts with
  | [] => mret []
  | t :: ts => f ← decode_field t; fs ← decode_fields ts; mret (f :: fs)
  end.

(** A field has its type's size and lies in a message of [n] bytes. *)
Definition field_ok (n : nat) (t : field_type) (f : field) : Prop :=
  match t, f with
  | TMap, FMap _ | TU8, FU8 _ | TU16, FU16 _ | TU32, FU32 _ | TU64, FU64 _ | TBool, FBool _ => True
  | TFixed N, FFixed data => length data = N
  | TArray N, FArray off l => off + l ≤ n ∧ l ≤ N
  | _, _ => False
  end.

Lemma as_field_robust {A} (f : A → field) m P (Q : field → Prop) :
  robust m P → (∀ d a, P d a → Q (f a)) → robust (as_field f m) (λ _ x, Q x).
Proof.
  intros Hm HQ. eapply robust_bind; [exact Hm|]. intros a (d & _ & Ha).
  apply robust_ret. intros _. eauto.
Qed.

Lemma decode_field_robust t : robust (decode_field t) (λ _ f, field_ok (length buf) t f).
Proof.
  destruct t; cbn [decode_field];
    [eapply (as_field_robust _ _ (λ _ _, True)); [|done]..| |].
  - unfold mbor_decode, map_decode. robust_auto.
  - unfold mbor_decode, u8_decode. eapply robust_bind; [apply robust_bytes|].
    intros b (_ & _ & Hb). eapply robust_bind; [apply robust_index; lia|]. eauto with mbor.
  - unfold mbor_decode, u16_decode. robust_auto.
  - unfold mbor_decode, u32_decode. robust_auto.
  - unfold mbor_decode, u64_decode. robust_auto.
  - unfold mbor_decode, bool_decode. robust_auto.
  - eapply as_field_robust; [apply fixed_array_robust|done].
  - eapply as_field_robust; [apply array_robust|].
    intros d a (off & Hp & Ho & Hl & HN). cbn. rewrite Hp. lia.
Qed.

Lemma decode_fields_robust ts :
  robust (decode_fields ts) (λ _ fs, Forall2 (field_ok (length buf)) ts fs).
Proof.
  induction ts as [|t ts IH]; cbn; [by apply robust_ret|].
  eapply robust_bind; [apply decode_field_robust|]. intros f (_ & _ & Hf).
  eapply robust_bind; [exact IH|]. intros fs (_ & _ & Hfs). apply robust_ret. by constructor.
Qed.

End robust.

(** ** Theorems *)

(** An encoded value reads back: where it fits, encoding writes exactly
    [mbor_len] bytes at the position, leaves every other byte of the buffer,
    and decoding there returns the value and stops where the encoder did;
    where it does not fit, encoding fails with [BufferOverflow].  The codec
    is any of the crate's types or a sequence of them. *)
Theorem mbor_roundtrip `{MC : MborCodec A} a buf pos :
  valid a → pos ≤ length buf →
  if decide (pos + mbor_len a ≤ length buf) then
    ∃ buf', mbor_encode a (mkEncoder buf pos) = (Ok tt, mkEncoder buf' (pos + mbor_len a)) ∧
      length buf' = length buf ∧
      (∀ i, i < pos ∨ pos + mbor_len a ≤ i → buf' !! i = buf !! i) ∧
      mbor_decode (mkDecoder buf' pos) = (Ok a, mkDecoder buf' (pos + mbor_len a))
  else ∃ e', mbor_encode a (mkEncoder buf pos) = (Err BufferOverflow, e').
Proof.
  intros Ha Hpos. pose proof (encode_image a Ha (mkEncoder buf pos) Hpos) as He. cbn in He.
  rewrite (image_length a Ha) in He. case_decide as Hfit; [|done].
  rewrite <- (image_length a Ha) in Hfit |- *.
  exists (splice buf pos (image a)). split_and!.
  - rewrite He. unfold splice. by rewrite (image_length a Ha).
  - by apply length_splice_fit.
  - intros i Hi. unfold splice. rewrite lookup_splice by done. by rewrite decide_False by lia.
  - pose proof (decode_image a Ha (mkDecoder (splice buf pos (image a)) pos)) as Hd.
    apply Hd. by apply at_pos_splice.
Qed.

(** Byte arrays read back without copying: encoding an array of at most
    [N] bytes with [pad] bytes of padding takes [padded_array_len] bytes,
    and both the array it leaves to the caller and the one decoded from the
    message are ranges of the message that hold the data; a byte slice
    decodes as the fixed array of its length. *)
Theorem mbor_bytes_roundtrip N data pad buf pos :
  0 < length data ≤ N → (Z.of_nat N < 65536)%Z → (0 ≤ pad < 4)%Z →
  pos + padded_array_len (N:=N) (mkArray (Outside data) (length data)) pad ≤ length buf →
  (∃ a e, padded_array_encode (N:=N) (mkArray (Outside data) (length data)) pad (mkEncoder buf pos)
           = (Ok a, e) ∧
     e_pos e = pos + padded_array_len (N:=N) (mkArray (Outside data) (length data)) pad ∧
     as_slice (e_buffer e) a = data ∧
     array_decode N (mkDecoder (e_buffer e) pos) = (Ok a, mkDecoder (e_buffer e) (e_pos e))) ∧
  (∃ e, mbor_encode (mkSlice data) (mkEncoder buf pos) = (Ok tt, e) ∧
     e_pos e = pos + mbor_len (mkSlice data) ∧
     fixed_array_decode (length data) (mkDecoder (e_buffer e) pos)
       = (Ok data, mkDecoder (e_buffer e) (e_pos e))).
Proof.
  intros Hl HN Hp Hfit. unfold padded_array_len in *. cbn [len] in *.
  pose proof (length_array_header pad (length data)) as Hh.
  assert (length (array_header pad (length data) ++ data) = 3 + Z.to_nat pad + length data) as Hlen
    by (rewrite length_app, Hh; lia).
  split.
  - pose proof (array_encodes (N:=N) data pad ltac:(lia) Hp (mkEncoder buf pos)) as He.
    cbn [e_pos e_buffer] in He. ospecialize (He _); [lia|]. rewrite decide_True in He by lia.
    eexists _, _. split; [exact He|]. cbn [e_pos e_buffer]. split_and!; [lia| |].
    + unfold as_slice. cbn [ptr len].
      pose proof (at_pos_splice buf pos (array_header pad (length data) ++ data) ltac:(lia)) as Hd.
      by apply at_pos_app in Hd as [_ Hd].
    + rewrite array_decodes with (data := data) (pad := pad); cbn [d_pos d_buffer];
        [done|lia|done|done|apply at_pos_splice; lia|rewrite length_splice_fit; lia].
  - pose proof (slice_encodes data (mkEncoder buf pos)) as He. cbn [e_pos e_buffer] in He.
    assert (length (slice_image data) = 3 + length data) as Hs
      by (unfold slice_image; cbn [length]; by rewrite length_app, length_to_be_bytes).
    ospecialize (He _); [lia|]. rewrite decide_True in He by lia.
    eexists. split; [exact He|]. cbn [e_pos e_buffer]. split; [rewrite Hs; done|].
    apply (fixed_array_decodes data ltac:(lia) ltac:(lia)), at_pos_splice. lia.
Qed.

(** A request cannot make the decoder misbehave: whatever the bytes of
    the message and whatever fields are asked for in sequence, decoding
    returns a value or an error without panicking, never moves outside the
    message, and every array it returns is a range of the message no longer
    than its type allows. *)
Theorem mbor_decode_robust buf pos ts :
  pos ≤ length buf →
  ∃ r d', decode_fields ts (mkDecoder buf pos) = (r, d') ∧ r ≠ Panic ∧
    d_buffer d' = buf ∧ pos ≤ d_pos d' ≤ length buf ∧
    ∀ fs, r = Ok fs → Forall2 (field_ok (length buf)) ts fs.
Proof.
  intros Hp. destruct (decode_fields_robust buf ts (mkDecoder buf pos) eq_refl Hp)
    as (r & d' & H). exists r, d'. exact H.
Qed.

(** ** Witnesses *)

Lemma mbor_roundtrip_witness :
  ∃ buf', mbor_encode (mkMap 2, (mkU8 1, mkU32 70000)) (mkEncoder (replicate 10 0%Z) 1)
            = (Ok tt, mkEncoder buf' 9) ∧
    mbor_decode (mkDecoder buf' 1) = (Ok (mkMap 2, (mkU8 1, mkU32 70000)), mkDecoder buf' 9).
Proof.
  destruct (mbor_roundtrip (mkMap 2, (mkU8 1, mkU32 70000)) (replicate 10 0%Z) 1)
    as (buf' & H1 & _ & _ & H2).
  - vm_compute. repeat split; discriminate.
  - vm_compute. lia.
  - exists buf'. split; [exact H1|exact H2].
Defined.

Lemma mbor_bytes_roundtrip_witness :
  ∃ a e, padded_array_encode (N:=4) (mkArray (Outside [7; 8]%Z) 2) 1 (mkEncoder (replicate 10 0%Z) 0)
           = (Ok a, e) ∧ as_slice (e_buffer e) a = [7; 8]%Z.
Proof.
  destruct (mbor_bytes_roundtrip 4 [7; 8]%Z 1 (replicate 10 0%Z) 0) as [(a & e & H1 & _ & H2 & _) _].
  - cbn. lia.
  - lia.
  - lia.
  - vm_compute. lia.
  - exists a, e. split; [exact H1|exact H2].
Defined.

Lemma mbor_decode_robust_witness :
  ∃ r d', decode_fields [TMap; TArray 4] (mkDecoder [0xA1; 0x81; 0; 9; 0; 1; 2]%Z 0) = (r, d') ∧
    r ≠ Panic.
Proof.
  destruct (mbor_decode_robust [0xA1; 0x81; 0; 9; 0; 1; 2]%Z 0 [TMap; TArray 4])
    as (r & d' & H1 & H2 & _); [cbn; lia|].
  exists r, d'. split; [exact H1|exact H2].
Defined.
