(* ===== verification/Simplex.v ===== *)
(** * Simplex pipes between processors (drivers/simplex)

    A [SimplexPipe] is a ring buffer in memory shared by two processors: the
    producer writes a slot and then its index [pi], the consumer reads a slot
    and then moves its index [ci].  The file has three layers.

    - [Pipe]: the operations of [SimplexPipeImpl] as state transformers, and
      the theorem that they implement a bounded first-in first-out queue.
    - [Conc]: the same two operations as small-step programs over the shared
      memory, one step per access, on processors with store buffers that may
      drain stores to different locations out of order; [cortex_m::asm::dmb]
      waits for an empty buffer.
    - The theorems of [Conc]: by induction on the steps, whatever the
      interleaving, the messages received are the first messages sent, and an
      uninterrupted run of the small steps is the operation of [Pipe]. *)

From stdpp Require Import base list numbers option relations.
From S2P Require Import Prelude.

Local Open Scope Z_scope.

(** [SimplexPipeErr] (the error codes of the crate). *)
Inductive SimplexPipeErr := PipeFull.
#[global] Instance SimplexPipeErr_eq_dec : EqDecision SimplexPipeErr.
Proof. solve_decision. Defined.

Module Pipe.
Section pipe.
Context {T : Type}.

(** [SimplexPipeConfig]: the slots and the two index cells. *)
Record SimplexPipeConfig := mkConfig { queue : list T; ci : Z; pi : Z }.

Definition set_ci (p : SimplexPipeConfig) (v : Z) : SimplexPipeConfig :=
  mkConfig (queue p) v (pi p).
Definition set_pi (p : SimplexPipeConfig) (v : Z) : SimplexPipeConfig :=
  mkConfig (queue p) (ci p) v.
Definition set_slot (p : SimplexPipeConfig) (i : Z) (v : T) : SimplexPipeConfig :=
  mkConfig (<[Z.to_nat i := v]> (queue p)) (ci p) (pi p).

(** [SimplexPipeImpl::new] resets both indices of the shared cells. *)
Definition new (config : SimplexPipeConfig) : SimplexPipeConfig :=
  set_pi (set_ci config 0) 0.

(** [next_index]: 32-bit increment with wrap-around at the end of the queue. *)
Definition next_index (p : SimplexPipeConfig) (idx : Z) : Z :=
  let next := wrap 32 (idx + 1) in
  if next =? Z.of_nat (length (queue p)) then 0 else next.

Definition send (msg : T) : M SimplexPipeConfig SimplexPipeErr () := λ p,
  let ci := ci p in
  let pi := pi p in
  let new_pi := next_index p pi in
  if new_pi =? ci then (Err PipeFull, p)
  else if decide (pi < Z.of_nat (length (queue p)))
  then (Ok tt, set_pi (set_slot p pi msg) new_pi)
  else (Panic, p).

Definition is_empty (p : SimplexPipeConfig) : bool := pi p =? ci p.

Definition is_full (p : SimplexPipeConfig) : bool := next_index p (pi p) =? ci p.

(** [recv]; indexing the queue out of range would panic. *)
Definition recv : M SimplexPipeConfig SimplexPipeErr (option T) := λ p,
  let ci := ci p in
  if is_empty p then (Ok None, p)
  else match queue p !! Z.to_nat ci with
       | Some message => (Ok (Some message), set_ci p (next_index p ci))
       | None => (Panic, p)
       end.

Definition peek (p : SimplexPipeConfig) : outcome SimplexPipeErr (option T) :=
  if is_empty p then Ok None
  else match queue p !! Z.to_nat (ci p) with
       | Some message => Ok (Some message)
       | None => Panic
       end.

(** [empty_slot_count], with the 32-bit subtractions written out. *)
Definition empty_slot_count (p : SimplexPipeConfig) : Z :=
  if ci p <=? pi p
  then wrap 32 (Z.of_nat (length (queue p)) - wrap 32 (pi p - ci p) - 1)
  else wrap 32 (wrap 32 (ci p - pi p) - 1).

End pipe.
Arguments SimplexPipeConfig : clear implicits.
End Pipe.
Import Pipe.

(** ** Ring indices

    Counting messages without wrap-around: message number [k] lives in slot
    [k mod n].  [idx n k] is the index cell that points at it. *)

Definition idx (n k : nat) : Z := Z.of_nat (k mod n).

Section idx.
Context (n : nat) (Hn : (0 < n)%nat).

Lemma idx_range k : 0 ≤ idx n k < Z.of_nat n.
Proof using Hn. unfold idx. pose proof (Nat.mod_upper_bound k n). lia. Qed.

Lemma idx_inj k k' : (k ≤ k')%nat → (k' < k + n)%nat → idx n k = idx n k' → k = k'.
Proof using Hn.
  unfold idx. intros H1 H2 Heq%Nat2Z.inj.
  pose proof (Nat.div_mod_eq k n) as E1. pose proof (Nat.div_mod_eq k' n) as E2.
  rewrite Heq in E1. pose proof (Nat.mod_upper_bound k' n).
  assert (k / n = k' / n)%nat; [|nia].
  assert (k' / n ≤ k / n)%nat by nia.
  pose proof (Nat.Div0.div_le_mono k k' n). lia.
Qed.

Lemma idx_succ k :
  idx n (S k) = if idx n k + 1 =? Z.of_nat n then 0 else idx n k + 1.
Proof using Hn.
  unfold idx. pose proof (Nat.mod_upper_bound k n).
  rewrite <-Nat.add_1_r, <-Nat.Div0.add_mod_idemp_l.
  destruct (Z.eqb_spec (Z.of_nat (k mod n) + 1) (Z.of_nat n)) as [E|E].
  - replace (k mod n + 1)%nat with n by lia. by rewrite Nat.Div0.mod_same.
  - rewrite Nat.mod_small by lia. lia.
Qed.

Lemma idx_eqb k k' :
  (k ≤ k')%nat → (k' < k + n)%nat → (idx n k' =? idx n k) = bool_decide (k = k').
Proof using Hn.
  intros H1 H2. case_bool_decide as E.
  - subst. apply Z.eqb_refl.
  - apply Z.eqb_neq. intros ?. by apply E, idx_inj.
Qed.

End idx.

(** The queue length fits a 32-bit index. *)
Definition queue_len_ok (n : nat) : Prop := (0 < n)%nat ∧ Z.of_nat n < 2 ^ 32.

Lemma next_index_idx {T} (p : SimplexPipeConfig T) k :
  queue_len_ok (length (queue p)) →
  next_index p (idx (length (queue p)) k) = idx (length (queue p)) (S k).
Proof.
  intros [H1 H2]. unfold next_index. rewrite idx_succ by done.
  pose proof (idx_range _ H1 k). rewrite wrap_small; [done|].
  unfold uint_range. lia.
Qed.

(** The pipe is full for the producer exactly when the next message would
    land on the oldest one. *)
Lemma idx_full n r w :
  (0 < n)%nat → (r ≤ w)%nat → (w < r + n)%nat →
  (idx n (S w) =? idx n r) = bool_decide (S w = (r + n)%nat).
Proof.
  intros Hn H1 H2. case_bool_decide as E.
  - rewrite E. apply Z.eqb_eq. unfold idx. f_equal.
    rewrite <-Nat.Div0.add_mod_idemp_r, Nat.Div0.mod_same. by rewrite Nat.add_0_r.
  - rewrite idx_eqb by lia. apply bool_decide_eq_false. lia.
Qed.

(** ** The sequential pipe is a bounded queue

    [rep p l]: the pipe [p] holds the messages [l], oldest first; [r] is the
    number of messages received so far. *)

Definition holds_from {T} (q : list T) (r : nat) (l : list T) : Prop :=
  ∀ i x, l !! i = Some x → q !! ((r + i) mod length q)%nat = Some x.

Definition rep {T} (p : SimplexPipeConfig T) (l : list T) : Prop :=
  queue_len_ok (length (queue p)) ∧ (length l < length (queue p))%nat ∧
  ∃ r, ci p = idx (length (queue p)) r ∧
       pi p = idx (length (queue p)) (r + length l) ∧
       holds_from (queue p) r l.

Section rep.
Context {T : Type}.
Implicit Types (p : SimplexPipeConfig T) (l : list T).

Lemma holds_from_snoc q r l (x : T) :
  (length l < length q)%nat → holds_from q r l →
  holds_from (<[((r + length l) mod length q)%nat := x]> q) r (l ++ [x]).
Proof.
  intros Hl H i y Hi. rewrite length_insert.
  assert (0 < length q)%nat by lia.
  apply lookup_app_Some in Hi as [Hi|[Hi1 Hi2]].
  - pose proof (lookup_lt_Some _ _ _ Hi). rewrite list_lookup_insert_ne; [by apply H|].
    intros E. enough (r + i = r + length l)%nat by lia.
    apply (idx_inj (length q)); [lia..|]. unfold idx. by rewrite E.
  - apply list_lookup_singleton_Some in Hi2 as [Hi2 ->].
    replace i with (length l) by lia.
    apply list_lookup_insert_eq. apply Nat.mod_upper_bound. lia.
Qed.

Lemma holds_from_tail q r (x : T) l :
  holds_from q r (x :: l) → holds_from q (S r) l.
Proof.
  intros H i y Hi. replace (S r + i)%nat with (r + S i)%nat by lia. by apply H.
Qed.

Lemma rep_is_full p l :
  rep p l → is_full p = bool_decide (S (length l) = length (queue p)).
Proof.
  intros (Hok & Hl & r & Hci & Hpi & _). unfold is_full.
  rewrite Hpi, Hci, next_index_idx by done. destruct Hok.
  rewrite idx_full by lia. apply bool_decide_ext. lia.
Qed.

Lemma rep_is_empty p l : rep p l → is_empty p = bool_decide (l = []).
Proof.
  intros (Hok & Hl & r & Hci & Hpi & _). unfold is_empty. rewrite Hpi, Hci.
  destruct Hok. rewrite idx_eqb by lia. apply bool_decide_ext.
  destruct l; simpl; split; intros; (done || lia).
Qed.

Lemma rep_front p x l : rep p (x :: l) → queue p !! Z.to_nat (ci p) = Some x.
Proof.
  intros (Hok & Hl & r & Hci & Hpi & H). rewrite Hci. unfold idx.
  rewrite Nat2Z.id. rewrite <-(Nat.add_0_r r). by apply H.
Qed.

Lemma send_rep p l msg :
  rep p l →
  if bool_decide (S (length l) < length (queue p))%nat
  then ∃ p', send msg p = (Ok tt, p') ∧ rep p' (l ++ [msg])
  else send msg p = (Err PipeFull, p).
Proof.
  intros Hrep. pose proof (rep_is_full p l Hrep) as Hf.
  unfold send. unfold is_full in Hf. rewrite Hf.
  destruct Hrep as (Hok & Hl & r & Hci & Hpi & H).
  destruct (decide (S (length l) = length (queue p))) as [E|E].
  { by rewrite bool_decide_eq_false_2, bool_decide_eq_true_2 by lia. }
  rewrite bool_decide_eq_true_2, bool_decide_eq_false_2 by lia.
  pose proof (idx_range _ (proj1 Hok) (r + length l)).
  rewrite decide_True by (rewrite Hpi; lia). eexists. split; [done|].
  unfold rep, set_pi, set_slot; simpl. rewrite length_insert, length_app; simpl.
  split_and!; [done|lia|]. exists r. split_and!; [done| |].
  - rewrite Hpi, next_index_idx by done. f_equal. lia.
  - rewrite Hpi. unfold idx. rewrite Nat2Z.id. by apply holds_from_snoc.
Qed.

Lemma recv_rep p l :
  rep p l →
  match l with
  | [] => recv p = (Ok None, p)
  | x :: l' => ∃ p', recv p = (Ok (Some x), p') ∧ rep p' l'
  end.
Proof.
  intros Hrep. unfold recv. rewrite (rep_is_empty p l Hrep).
  destruct l as [|x l]; [done|]. rewrite bool_decide_eq_false_2 by done.
  rewrite (rep_front p x l Hrep). eexists. split; [done|].
  destruct Hrep as (Hok & Hl & r & Hci & Hpi & H); simpl in *.
  unfold rep; simpl. split_and!; [done|lia|]. exists (S r). split_and!.
  - by rewrite Hci, next_index_idx.
  - rewrite Hpi. f_equal. lia.
  - by eapply holds_from_tail.
Qed.

Lemma peek_rep p l : rep p l → peek p = Ok (head l).
Proof.
  intros Hrep. unfold peek. rewrite (rep_is_empty p l Hrep).
  destruct l as [|x l]; [done|]. rewrite bool_decide_eq_false_2 by done.
  by rewrite (rep_front p x l Hrep).
Qed.

Lemma empty_slot_count_rep p l :
  rep p l → empty_slot_count p = Z.of_nat (length (queue p) - 1 - length l).
Proof.
  intros ([Hn Hb] & Hl & r & Hci & Hpi & _). unfold empty_slot_count.
  pose proof (idx_range _ Hn r). pose proof (idx_range _ Hn (r + length l)).
  assert (idx (length (queue p)) (r + length l) =
          if idx (length (queue p)) r + Z.of_nat (length l) <? Z.of_nat (length (queue p))
          then idx (length (queue p)) r + Z.of_nat (length l)
          else idx (length (queue p)) r + Z.of_nat (length l) - Z.of_nat (length (queue p)))
    as E.
  { unfold idx in *. rewrite <-Nat.Div0.add_mod_idemp_l.
    destruct (Z.ltb_spec (Z.of_nat (r mod length (queue p)) + Z.of_nat (length l))
                (Z.of_nat (length (queue p)))).
    - rewrite Nat.mod_small; lia.
    - symmetry. rewrite <-Nat2Z.inj_add, <-Nat2Z.inj_sub by lia. f_equal.
      apply (Nat.mod_unique _ _ 1%nat); lia. }
  rewrite Hpi, Hci. rewrite E in *.
  destruct (Z.ltb_spec (idx (length (queue p)) r + Z.of_nat (length l))
              (Z.of_nat (length (queue p)))).
  - rewrite (proj2 (Z.leb_le _ _)) by lia.
    rewrite !wrap_small; unfold uint_range; rewrite ?wrap_small; unfold uint_range; lia.
  - rewrite (proj2 (Z.leb_gt _ _)) by lia.
    rewrite !wrap_small; unfold uint_range; rewrite ?wrap_small; unfold uint_range; lia.
Qed.

End rep.

(** ** The two processors

    Loads and stores of [send] and [recv] one by one.  A store enters the
    store buffer of its processor; buffered stores reach memory in any order,
    except that two stores to one location keep theirs.  Loads see the
    processor's own buffered stores first.  The barrier of [send] passes only
    when the producer's buffer is empty.  A message is larger than a word, so
    the store of a slot may be preceded by stores of partially written
    messages. *)

Module Conc.
Section conc.
Context {T : Type}.

Inductive store := StSlot (i : Z) (v : T) | StPi (v : Z) | StCi (v : Z).

Definition same_location (a b : store) : bool :=
  match a, b with
  | StSlot i _, StSlot j _ => i =? j
  | StPi _, StPi _ | StCi _, StCi _ => true
  | _, _ => false
  end.

Definition perform (st : store) (p : SimplexPipeConfig T) : SimplexPipeConfig T :=
  match st with
  | StSlot i v => set_slot p i v
  | StPi v => set_pi p v
  | StCi v => set_ci p v
  end.

(** The buffered values of a location, oldest first. *)
Definition pis : list store → list Z :=
  omap (λ st, match st with StPi v => Some v | _ => None end).
Definition cis : list store → list Z :=
  omap (λ st, match st with StCi v => Some v | _ => None end).
Definition slots : list store → list (Z * T) :=
  omap (λ st, match st with StSlot i v => Some (i, v) | _ => None end).

(** Program points of [send]; the arguments are the values in registers. *)
Inductive producer :=
  | P_idle
  | P_ci (msg : T) (ci : Z)              (* ci read *)
  | P_pi (msg : T) (ci pi : Z)           (* pi read *)
  | P_slot (msg : T) (new_pi : Z)        (* slot stored, before the barrier *)
  | P_dmb (msg : T) (new_pi : Z)         (* after the barrier *)
  | P_panic.

(** Program points of [recv]. *)
Inductive consumer :=
  | C_idle
  | C_ci (ci : Z)                        (* ci read *)
  | C_pi (ci pi : Z)                     (* pi read by is_empty *)
  | C_some (ci : Z)                      (* the pipe is not empty *)
  | C_msg (ci : Z) (msg : T)             (* slot read *)
  | C_panic.

Record state := mkState {
  mem : SimplexPipeConfig T;
  pbuf : list store;
  cbuf : list store;
  ppc : producer;
  cpc : consumer;
  sent : list T;       (* messages whose send returned Ok, in order *)
  received : list T    (* messages returned by recv, in order *)
}.

(** The buffer [b] can write [st] to memory and become [b']. *)
Inductive drains (st : store) : list store → list store → Prop :=
  | drains_at b1 b2 :
      (∀ st', st' ∈ b1 → same_location st st' = false) →
      drains st (b1 ++ st :: b2) (b1 ++ b2).

Definition load (own : list Z) (memory : Z) : Z := default memory (list.last own).

Inductive step : state → state → Prop :=
  | s_drain_p m pb pb' cb pp cp se re st :
      drains st pb pb' →
      step (mkState m pb cb pp cp se re) (mkState (perform st m) pb' cb pp cp se re)
  | s_drain_c m pb cb cb' pp cp se re st :
      drains st cb cb' →
      step (mkState m pb cb pp cp se re) (mkState (perform st m) pb cb' pp cp se re)
  (* send *)
  | s_send m pb cb cp se re msg :
      step (mkState m pb cb P_idle cp se re)
           (mkState m pb cb (P_ci msg (load (cis pb) (ci m))) cp se re)
  | s_read_pi m pb cb cp se re msg c :
      step (mkState m pb cb (P_ci msg c) cp se re)
           (mkState m pb cb (P_pi msg c (load (pis pb) (pi m))) cp se re)
  | s_full m pb cb cp se re msg c p :
      next_index m p = c →
      step (mkState m pb cb (P_pi msg c p) cp se re)
           (mkState m pb cb P_idle cp se re)
  | s_partial m pb cb cp se re msg c p v :
      next_index m p ≠ c → p < Z.of_nat (length (queue m)) →
      step (mkState m pb cb (P_pi msg c p) cp se re)
           (mkState m (pb ++ [StSlot p v]) cb (P_pi msg c p) cp se re)
  | s_store m pb cb cp se re msg c p :
      next_index m p ≠ c → p < Z.of_nat (length (queue m)) →
      step (mkState m pb cb (P_pi msg c p) cp se re)
           (mkState m (pb ++ [StSlot p msg]) cb (P_slot msg (next_index m p)) cp se re)
  | s_p_panic m pb cb cp se re msg c p :
      next_index m p ≠ c → Z.of_nat (length (queue m)) ≤ p →
      step (mkState m pb cb (P_pi msg c p) cp se re)
           (mkState m pb cb P_panic cp se re)
  | s_dmb m cb cp se re msg np :
      step (mkState m [] cb (P_slot msg np) cp se re)
           (mkState m [] cb (P_dmb msg np) cp se re)
  | s_publish m pb cb cp se re msg np :
      step (mkState m pb cb (P_dmb msg np) cp se re)
           (mkState m (pb ++ [StPi np]) cb P_idle cp (se ++ [msg]) re)
  (* recv *)
  | s_recv m pb cb pp se re :
      step (mkState m pb cb pp C_idle se re)
           (mkState m pb cb pp (C_ci (load (cis cb) (ci m))) se re)
  | s_empty_pi m pb cb pp se re c :
      step (mkState m pb cb pp (C_ci c) se re)
           (mkState m pb cb pp (C_pi c (load (pis cb) (pi m))) se re)
  | s_none m pb cb pp se re c p :
      p = load (cis cb) (ci m) →
      step (mkState m pb cb pp (C_pi c p) se re)
           (mkState m pb cb pp C_idle se re)
  | s_some m pb cb pp se re c p :
      p ≠ load (cis cb) (ci m) →
      step (mkState m pb cb pp (C_pi c p) se re)
           (mkState m pb cb pp (C_some c) se re)
  | s_take m pb cb pp se re c msg :
      queue m !! Z.to_nat c = Some msg →
      step (mkState m pb cb pp (C_some c) se re)
           (mkState m pb cb pp (C_msg c msg) se re)
  | s_c_panic m pb cb pp se re c :
      queue m !! Z.to_nat c = None →
      step (mkState m pb cb pp (C_some c) se re)
           (mkState m pb cb pp C_panic se re)
  | s_release m pb cb pp se re c msg :
      step (mkState m pb cb pp (C_msg c msg) se re)
           (mkState m pb (cb ++ [StCi (next_index m c)]) pp C_idle se (re ++ [msg])).

(** Both processors idle on a fresh pipe. *)
Definition init (config : SimplexPipeConfig T) : state :=
  mkState (new config) [] [] P_idle C_idle [] [].

(** *** Lists of buffered values *)

Lemma drains_pis st b b' :
  drains st b b' →
  match st with StPi v => pis b = v :: pis b' | _ => pis b = pis b' end.
Proof.
  intros [b1 b2 H]. unfold pis. rewrite !omap_app. destruct st; simpl; try done.
  enough (omap (λ st, match st with StPi v0 => Some v0 | _ => None end) b1 = []) as ->
    by done.
  apply elem_of_nil_inv. intros x (st & Hst & Hx)%list_elem_of_omap.
  specialize (H st Hst). by destruct st.
Qed.

Lemma drains_cis st b b' :
  drains st b b' →
  match st with StCi v => cis b = v :: cis b' | _ => cis b = cis b' end.
Proof.
  intros [b1 b2 H]. unfold cis. rewrite !omap_app. destruct st; simpl; try done.
  enough (omap (λ st, match st with StCi v0 => Some v0 | _ => None end) b1 = []) as ->
    by done.
  apply elem_of_nil_inv. intros x (st & Hst & Hx)%list_elem_of_omap.
  specialize (H st Hst). by destruct st.
Qed.

(** When every buffered slot store has one index, the oldest drains first. *)
Lemma drains_slots st b b' i :
  drains st b b' → Forall (λ s, s.1 = i) (slots b) →
  match st with StSlot j v => j = i ∧ slots b = (i, v) :: slots b' | _ => slots b = slots b' end.
Proof.
  intros [b1 b2 H] Hall. unfold slots in *. rewrite !omap_app in *.
  destruct st as [j v| |]; simpl in *; try done.
  apply Forall_app in Hall as [Hall1 Hall2].
  apply Forall_cons in Hall2 as [Hj _]; simpl in Hj. split; [done|]. subst j.
  enough (omap (λ st, match st with StSlot i v => Some (i, v) | _ => None end) b1 = []) as ->
    by done.
  apply elem_of_nil_inv. intros x Hx.
  pose proof (proj1 (list.Forall_forall _ _) Hall1 x Hx) as Hi.
  apply list_elem_of_omap in Hx as (st & Hst & Hx).
  specialize (H st Hst). destruct st as [k w| |]; try done. simplify_eq/=.
  by rewrite Z.eqb_refl in H.
Qed.

End conc.
Arguments store : clear implicits.
Arguments state : clear implicits.
Arguments producer : clear implicits.
Arguments consumer : clear implicits.
End Conc.
Import Conc.

(** ** Invariant

    [rm] and [wm] are the numbers of messages whose release and publication
    have reached memory; the buffers hold the index stores in between. *)

Definition pending (n lo hi : nat) : list Z := idx n <$> seq (S lo) (hi - lo).

Lemma pending_nil n k : pending n k k = [].
Proof. unfold pending. by rewrite Nat.sub_diag. Qed.

Lemma pending_cons n lo hi :
  (lo < hi)%nat → pending n lo hi = idx n (S lo) :: pending n (S lo) hi.
Proof.
  intros H. unfold pending. replace (hi - lo)%nat with (S (hi - S lo)) by lia. done.
Qed.

Lemma pending_snoc n lo hi :
  (lo ≤ hi)%nat → pending n lo (S hi) = pending n lo hi ++ [idx n (S hi)].
Proof.
  intros H. unfold pending. replace (S hi - lo)%nat with ((hi - lo) + 1)%nat by lia.
  rewrite seq_app, fmap_app. simpl. do 3 f_equal. lia.
Qed.

Lemma load_pending n lo hi :
  (lo ≤ hi)%nat → load (pending n lo hi) (idx n lo) = idx n hi.
Proof.
  intros H. unfold load. destruct (decide (lo = hi)) as [->|Hne].
  - by rewrite pending_nil.
  - destruct hi as [|hi]; [lia|]. rewrite pending_snoc by lia. by rewrite last_snoc.
Qed.

Lemma pending_head n lo hi v l :
  (lo ≤ hi)%nat → pending n lo hi = v :: l →
  (lo < hi)%nat ∧ v = idx n (S lo) ∧ l = pending n (S lo) hi.
Proof.
  intros Hle H. destruct (decide (lo < hi)%nat).
  - rewrite pending_cons in H by done. by simplify_eq.
  - replace hi with lo in H by lia. by rewrite pending_nil in H.
Qed.

Section invariant.
Context {T : Type} (n : nat) (Hn : queue_len_ok n).
Implicit Types (s : state T).

(** What the producer's registers and buffered slot stores say; [w] messages
    are sent. *)
Definition producer_inv (q : list T) (sl : list (Z * T)) (pb : list (store T))
    (rm w : nat) (pc : producer T) : Prop :=
  match pc with
  | P_idle => sl = []
  | P_ci _ c => sl = [] ∧ ∃ rp, (rp ≤ rm)%nat ∧ c = idx n rp ∧ (w < rp + n)%nat
  | P_pi _ c p =>
      p = idx n w ∧ ∃ rp, (rp ≤ rm)%nat ∧ c = idx n rp ∧ (w < rp + n)%nat ∧
      (sl = [] ∨ (S w < rp + n)%nat)
  | P_slot msg np =>
      np = idx n (S w) ∧ (S w < rm + n)%nat ∧
      (list.last sl = Some (idx n w, msg) ∨ sl = [] ∧ q !! (w mod n)%nat = Some msg)
  | P_dmb msg np =>
      pb = [] ∧ np = idx n (S w) ∧ (S w < rm + n)%nat ∧ q !! (w mod n)%nat = Some msg
  | P_panic => False
  end.

Definition consumer_inv (se : list T) (wm r : nat) (pc : consumer T) : Prop :=
  match pc with
  | C_idle => True
  | C_ci c => c = idx n r
  | C_pi c p => c = idx n r ∧ ∃ wp, (r ≤ wp ≤ wm)%nat ∧ p = idx n wp
  | C_some c => c = idx n r ∧ (r < wm)%nat
  | C_msg c msg => c = idx n r ∧ (r < wm)%nat ∧ se !! r = Some msg
  | C_panic => False
  end.

(** Memory and both buffers; [q] are the slots. *)
Record memory_inv (s : state T) (rm wm : nat) : Prop := {
  mi_len : length (queue (mem s)) = n;
  mi_ci : ci (mem s) = idx n rm;
  mi_pi : pi (mem s) = idx n wm;
  mi_order : (rm ≤ length (received s) ≤ wm ∧ wm ≤ length (sent s) < rm + n)%nat;
  mi_pbuf : pis (pbuf s) = pending n wm (length (sent s)) ∧ cis (pbuf s) = [] ∧
            Forall (λ sl, sl.1 = idx n (length (sent s))) (slots (pbuf s));
  mi_cbuf : cis (cbuf s) = pending n rm (length (received s)) ∧
            pis (cbuf s) = [] ∧ slots (cbuf s) = [];
  mi_slots : ∀ k x, (rm ≤ k)%nat → sent s !! k = Some x →
             queue (mem s) !! (k mod n)%nat = Some x;
  mi_prefix : received s = take (length (received s)) (sent s)
}.

Definition inv (s : state T) : Prop := ∃ rm wm,
  memory_inv s rm wm ∧
  producer_inv (queue (mem s)) (slots (pbuf s)) (pbuf s) rm (length (sent s)) (ppc s) ∧
  consumer_inv (sent s) wm (length (received s)) (cpc s).

Lemma inv_init config : length (queue config) = n → inv (init config).
Proof using Hn.
  intros Hl. exists 0%nat, 0%nat. split; [|done]. destruct Hn. constructor; simpl; try done.
  all: unfold idx; by rewrite Nat.Div0.mod_0_l.
Qed.

(** Storing to the slot of the message being sent leaves the others alone. *)
Lemma slots_after_store (q se : list T) rm v :
  length q = n → (rm ≤ length se < rm + n)%nat →
  (∀ k x, (rm ≤ k)%nat → se !! k = Some x → q !! (k mod n)%nat = Some x) →
  ∀ k x, (rm ≤ k)%nat → se !! k = Some x →
  <[Z.to_nat (idx n (length se)) := v]> q !! (k mod n)%nat = Some x.
Proof using Hn.
  intros Hl Ho H k x Hk Hx. pose proof (lookup_lt_Some _ _ _ Hx).
  rewrite list_lookup_insert_ne; [by apply H|]. unfold idx. rewrite Nat2Z.id.
  intros E. enough (k = length se) by lia.
  destruct Hn. apply (idx_inj n); [lia..|]. unfold idx. by rewrite E.
Qed.

Lemma inv_drain_p m pb pb' cb pp cp se re st :
  drains st pb pb' → inv (mkState m pb cb pp cp se re) →
  inv (mkState (perform st m) pb' cb pp cp se re).
Proof using Hn.
  intros Hd (rm & wm & [Hlen Hci Hpi Ho [Hp1 [Hp2 Hp3]] Hcb Hs Hpre] & Hpp & Hcp); simpl in *.
  pose proof (drains_pis st pb pb' Hd) as Dpi.
  pose proof (drains_cis st pb pb' Hd) as Dci.
  pose proof (drains_slots st pb pb' _ Hd Hp3) as Dsl.
  destruct st as [i v|v|v].
  - destruct Dsl as [-> Dsl]. exists rm, wm. rewrite Dsl in *.
    apply Forall_cons in Hp3 as [_ Hp3]. split; [|split; [|done]].
    { constructor; simpl; try done.
      - by rewrite length_insert.
      - split_and!; congruence || done.
      - apply slots_after_store; (done || lia). }
    destruct pp as [| |msg c p|msg np|msg np|]; simpl in *; try done.
    + by destruct Hpp.
    + destruct Hpp as (-> & rp & ? & ? & ? & [?|?]); [done|]. split; [done|]. exists rp. eauto 10.
    + destruct Hpp as (-> & Hlt & [Hlast|[? ?]]); [|done]. split_and!; [done..|].
      destruct (slots pb') as [|x l] eqn:E; [right|by left].
      simplify_eq/=. split; [done|]. unfold idx. rewrite Nat2Z.id.
      apply list_lookup_insert_eq. rewrite Hlen. apply Nat.mod_upper_bound. destruct Hn; lia.
    + destruct Hpp as (-> & _). inversion Hd. by destruct b1.
  - rewrite Dpi in Hp1. symmetry in Hp1. apply pending_head in Hp1 as (Hlt & -> & Hp1); [|lia].
    exists rm, (S wm). rewrite Dsl in *. split; [|split].
    { constructor; simpl; try done; [lia|]. split_and!; (done || congruence). }
    { destruct pp; simpl in *; try done. destruct Hpp as (-> & _). inversion Hd. by destruct b1. }
    destruct cp; simpl in *; try done; [naive_solver lia|naive_solver lia|naive_solver lia].
  - rewrite Hp2 in Dci. done.
Qed.

Lemma inv_drain_c m pb cb cb' pp cp se re st :
  drains st cb cb' → inv (mkState m pb cb pp cp se re) →
  inv (mkState (perform st m) pb cb' pp cp se re).
Proof using Hn.
  intros Hd (rm & wm & [Hlen Hci Hpi Ho Hp [Hc1 [Hc2 Hc3]] Hs Hpre] & Hpp & Hcp); simpl in *.
  pose proof (drains_pis st cb cb' Hd) as Dpi.
  pose proof (drains_cis st cb cb' Hd) as Dci.
  pose proof (drains_slots st cb cb' 0 Hd) as Dsl. rewrite Hc3 in Dsl.
  specialize (Dsl (Forall_nil_2 _)).
  destruct st as [i v|v|v]; [by destruct Dsl|by rewrite Hc2 in Dpi|].
  rewrite Dci in Hc1. symmetry in Hc1. apply pending_head in Hc1 as (Hlt & -> & Hc1); [|lia].
  exists (S rm), wm. split; [|split; [|done]].
  - constructor; simpl; try done; [lia| |].
    + split_and!; congruence.
    + intros k x Hk. apply Hs. lia.
  - destruct pp; simpl in *; try done.
    + destruct Hpp as [? (rp & ? & ? & ?)]. split; [done|]. exists rp. split_and!; (done || lia).
    + destruct Hpp as [? (rp & ? & ? & ? & ?)]. split; [done|]. exists rp.
      split_and!; (done || lia).
    + destruct Hpp as (? & ? & ?). split_and!; (done || lia).
    + destruct Hpp as (? & ? & ? & ?). split_and!; (done || lia).
Qed.

Lemma inv_publish m pb cb cp se re msg np :
  inv (mkState m pb cb (P_dmb msg np) cp se re) →
  inv (mkState m (pb ++ [StPi np]) cb P_idle cp (se ++ [msg]) re).
Proof using Hn.
  intros (rm & wm & [Hlen Hci Hpi Ho [Hp1 [Hp2 Hp3]] Hcb Hs Hpre] & Hpp & Hcp); simpl in *.
  destruct Hpp as (-> & -> & Hlt & Hm). exists rm, wm. split; [|split]; simpl.
  - constructor; simpl; rewrite ?length_app; simpl; try done.
    + lia.
    + rewrite Nat.add_1_r, pending_snoc, <-Hp1 by lia. done.
    + intros k x Hk [Hx|[Hx1 Hx2]]%lookup_app_Some; [by apply Hs|].
      apply list_lookup_singleton_Some in Hx2 as [Hx2 <-].
      by replace k with (length se) by lia.
    + rewrite take_app_le by lia. done.
  - done.
  - destruct cp; simpl in *; try done. destruct Hcp as (? & ? & ?). split_and!; [done..|].
    by apply lookup_app_l_Some.
Qed.

Lemma inv_release m pb cb pp se re c msg :
  inv (mkState m pb cb pp (C_msg c msg) se re) →
  inv (mkState m pb (cb ++ [StCi (next_index m c)]) pp C_idle se (re ++ [msg])).
Proof using Hn.
  intros (rm & wm & [Hlen Hci Hpi Ho Hp [Hc1 [Hc2 Hc3]] Hs Hpre] & Hpp & Hcp); simpl in *.
  destruct Hcp as (-> & Hlt & Hm). exists rm, wm. split; [|done].
  constructor; simpl; rewrite ?length_app; simpl; try done.
  - lia.
  - unfold cis, pis, slots in *. rewrite !omap_app, Hc1, Hc2, Hc3; simpl. split_and!; [|done..].
    rewrite Nat.add_1_r, pending_snoc by lia. do 2 f_equal.
    rewrite <-Hlen, next_index_idx by (by rewrite Hlen). by rewrite Hlen.
  - rewrite Nat.add_1_r. by rewrite (take_S_r _ _ _ Hm), <-Hpre.
Qed.

Lemma idx_not_full rp w :
  (rp ≤ w < rp + n)%nat → idx n (S w) ≠ idx n rp → (S w < rp + n)%nat.
Proof using Hn.
  intros Hw Hne. destruct (decide (S w = (rp + n)%nat)) as [E|E]; [|lia].
  destruct Hne. apply Z.eqb_eq. rewrite idx_full by (destruct Hn; lia).
  by apply bool_decide_eq_true_2.
Qed.

(** The index after the one of the message being sent. *)
Lemma next_index_sent (m : SimplexPipeConfig T) w :
  length (queue m) = n → next_index m (idx n w) = idx n (S w).
Proof using Hn. intros <-. by apply next_index_idx. Qed.

(** The steps of [send] up to the barrier. *)
Lemma inv_send_step m pb cb cp se re pp pb' pp' :
  inv (mkState m pb cb pp cp se re) →
  (∃ msg, pp = P_idle ∧ pb' = pb ∧ pp' = P_ci msg (load (cis pb) (ci m))) ∨
  (∃ msg c, pp = P_ci msg c ∧ pb' = pb ∧ pp' = P_pi msg c (load (pis pb) (pi m))) ∨
  (∃ msg c p v, pp = P_pi msg c p ∧ next_index m p ≠ c ∧ pb' = pb ++ [StSlot p v] ∧
     (pp' = P_pi msg c p ∨ v = msg ∧ pp' = P_slot msg (next_index m p))) ∨
  (∃ msg np, pp = P_slot msg np ∧ pb = [] ∧ pb' = [] ∧ pp' = P_dmb msg np) →
  inv (mkState m pb' cb pp' cp se re).
Proof using Hn.
  intros (rm & wm & [Hlen Hci Hpi Ho [Hp1 [Hp2 Hp3]] Hcb Hs Hpre] & Hpp & Hcp)
    [(msg & -> & -> & ->)|[(msg & c & -> & -> & ->)|[(msg & c & p & v & -> & Hne & -> & Hpc)|
     (msg & np & -> & -> & -> & ->)]]]; simpl in *; exists rm, wm; (split; [|split; [|done]]).
  all: try by constructor.
  all: simpl.
  - rewrite Hp2. split; [done|]. exists rm. split_and!; [done|done|lia].
  - destruct Hpp as (-> & rp & ? & ? & ?). rewrite Hp1, Hpi, load_pending by lia.
    split; [done|]. exists rp. eauto 10.
  - destruct Hpp as (-> & _). constructor; simpl; try done.
    unfold pis, cis, slots in *. rewrite !omap_app, Hp1, Hp2; simpl. rewrite app_nil_r.
    split_and!; [done..|]. apply Forall_app_2; [done|]. by apply Forall_singleton.
  - destruct Hpp as (-> & rp & Hrp & -> & Hw & _).
    rewrite next_index_sent in Hne, Hpc by done. apply idx_not_full in Hne; [|lia..].
    destruct Hpc as [->|[-> ->]]; simpl; [eauto 10|]. split_and!; [done|lia|].
    left. unfold slots. rewrite omap_app. simpl. by rewrite last_snoc.
  - destruct Hpp as (-> & Hlt & [?|[_ ?]]); done.
Qed.

(** The steps of [recv] up to the release of the slot. *)
Lemma inv_recv_step m pb cb cp se re pp cp' :
  inv (mkState m pb cb pp cp se re) →
  (cp = C_idle ∧ cp' = C_ci (load (cis cb) (ci m))) ∨
  (∃ c, cp = C_ci c ∧ cp' = C_pi c (load (pis cb) (pi m))) ∨
  (∃ c p, cp = C_pi c p ∧ p ≠ load (cis cb) (ci m) ∧ cp' = C_some c) ∨
  (∃ c msg, cp = C_some c ∧ queue m !! Z.to_nat c = Some msg ∧ cp' = C_msg c msg) →
  inv (mkState m pb cb pp cp' se re).
Proof using Hn.
  intros (rm & wm & [Hlen Hci Hpi Ho Hp [Hc1 [Hc2 Hc3]] Hs Hpre] & Hpp & Hcp)
    [(-> & ->)|[(c & -> & ->)|[(c & p & -> & Hne & ->)|(c & msg & -> & Hm & ->)]]];
    simpl in *; exists rm, wm; (split; [by constructor|split; [done|]]); simpl.
  - by rewrite Hc1, Hci, load_pending by lia.
  - rewrite Hc2. split; [done|]. exists wm. split; [lia|done].
  - destruct Hcp as (-> & wp & Hwp & ->). split; [done|].
    rewrite Hc1, Hci, load_pending in Hne by lia.
    destruct (decide (wp = length re)); [by subst|lia].
  - destruct Hcp as (-> & Hlt). split_and!; [done..|].
    destruct (lookup_lt_is_Some_2 se (length re)) as [x Hx]; [lia|].
    rewrite Hx. unfold idx in Hm. rewrite Nat2Z.id in Hm. rewrite <-Hm.
    symmetry. apply Hs; [lia|done].
Qed.

Lemma inv_no_panic_step m pb cb pp cp se re :
  inv (mkState m pb cb pp cp se re) →
  (∀ msg c p, pp = P_pi msg c p → p < Z.of_nat (length (queue m))) ∧
  (∀ c, cp = C_some c → is_Some (queue m !! Z.to_nat c)).
Proof using Hn.
  intros (rm & wm & [Hlen Hci Hpi Ho Hp Hc Hs Hpre] & Hpp & Hcp); simpl in *. split.
  - intros msg c p ->. destruct Hpp as (-> & _). rewrite Hlen.
    apply idx_range. by destruct Hn.
  - intros c ->. destruct Hcp as (-> & _). apply lookup_lt_is_Some_2.
    destruct Hn as [Hn0 _]. pose proof (idx_range n Hn0 (length re)). lia.
Qed.

Lemma inv_step s s' : step s s' → inv s → inv s'.
Proof using Hn.
  destruct 1; intros Hinv.
  - by eapply inv_drain_p.
  - by eapply inv_drain_c.
  - eapply inv_send_step; [done|]. left. eauto.
  - eapply inv_send_step; [done|]. right; left. eauto.
  - destruct Hinv as (rm & wm & [] & Hpp & Hcp); simpl in *. exists rm, wm.
    split; [by constructor|split; [|done]]; simpl.
    destruct Hpp as (-> & rp & ? & -> & ? & [?|?]); [done|].
    rewrite next_index_sent in H by done. symmetry in H. apply idx_inj in H; destruct Hn; lia.
  - eapply inv_send_step; [done|]. do 2 right; left. eauto 10.
  - eapply inv_send_step; [done|]. do 2 right; left. eauto 10.
  - apply inv_no_panic_step in Hinv as [H1 _]. specialize (H1 _ _ _ eq_refl). lia.
  - eapply inv_send_step; [done|]. do 3 right. eauto 10.
  - by apply inv_publish.
  - eapply inv_recv_step; [done|]. by left.
  - eapply inv_recv_step; [done|]. right; left. eauto.
  - destruct Hinv as (rm & wm & [] & Hpp & Hcp); simpl in *. exists rm, wm.
    split; [by constructor|done].
  - eapply inv_recv_step; [done|]. do 2 right; left. eauto 10.
  - eapply inv_recv_step; [done|]. do 3 right. eauto 10.
  - apply inv_no_panic_step in Hinv as [_ H1].
    destruct (H1 _ eq_refl). congruence.
  - by apply inv_release.
Qed.
End invariant.

Lemma inv_reachable {T} n (config : SimplexPipeConfig T) s :
  queue_len_ok n → length (queue config) = n → rtc step (init config) s → inv n s.
Proof.
  intros Hn Hl Hs. assert (inv n (init config)) as Hi by (by apply inv_init).
  clear Hl. induction Hs as [s|s1 s2 s3 H _ IH]; [done|].
  apply IH. by eapply inv_step.
Qed.

(** Nothing in flight. *)
Definition quiescent {T} (m : SimplexPipeConfig T) (se re : list T) : state T :=
  mkState m [] [] P_idle C_idle se re.

(** At rest the memory holds the messages that were sent and not received. *)
Lemma inv_quiescent {T} n (m : SimplexPipeConfig T) se re :
  queue_len_ok n → inv n (quiescent m se re) → rep m (drop (length re) se).
Proof.
  intros Hn (rm & wm & [Hlen Hci Hpi Ho [Hp1 _] [Hc1 _] Hs _] & _ & _); simpl in *.
  assert (wm = length se) as ->.
  { destruct (decide (wm = length se)); [done|]. by rewrite pending_cons in Hp1 by lia. }
  assert (rm = length re) as ->.
  { destruct (decide (rm = length re)); [done|]. by rewrite pending_cons in Hc1 by lia. }
  unfold rep. rewrite length_drop, Hlen. split_and!; [done|lia|].
  exists (length re). split_and!; [done| |].
  - rewrite Hpi. f_equal. lia.
  - intros i x Hi. rewrite Hlen. rewrite lookup_drop in Hi. apply Hs; [lia|done].
Qed.

(** The consumer's slot is stable: it holds the next message and no store to
    it is in flight, so reading it word by word yields the message. *)
Lemma inv_slot_stable {T} n (s : state T) c :
  queue_len_ok n → inv n s → cpc s = C_some c →
  ∃ x, sent s !! length (received s) = Some x ∧ queue (mem s) !! Z.to_nat c = Some x ∧
       ∀ v, StSlot c v ∉ pbuf s.
Proof.
  intros [Hn _] (rm & wm & [Hlen Hci Hpi Ho [_ [_ Hp]] _ Hs _] & _ & Hcp) Hc.
  rewrite Hc in Hcp. destruct Hcp as [-> Hlt].
  destruct (lookup_lt_is_Some_2 (sent s) (length (received s))) as [x Hx]; [lia|].
  exists x. split_and!; [done| |].
  - unfold idx. rewrite Nat2Z.id. apply Hs; [lia|done].
  - intros v Hv. assert ((idx n (length (received s)), v) ∈ slots (pbuf s)) as Hin.
    { apply list_elem_of_omap. by eexists. }
    pose proof (proj1 (list.Forall_forall _ _) Hp _ Hin) as E; simpl in E.
    apply idx_inj in E; lia.
Qed.

(** ** Theorems *)

(** A simplex pipe of [n] slots is a first-in first-out queue of at most
    [n - 1] messages: whenever the pipe holds the messages [l], [send] appends
    its message or reports [PipeFull] exactly when [n - 1] messages are held,
    leaving the pipe as it was; [recv] removes and returns the oldest message
    or nothing when there is none; [peek] returns it without removing it;
    [is_empty], [is_full] and [empty_slot_count] count the messages; no call
    panics; and a new pipe holds nothing. *)
Theorem pipe_refines_queue {T} (p : SimplexPipeConfig T) (l : list T) :
  rep p l →
  (∀ msg, if bool_decide (S (length l) < length (queue p))%nat
          then ∃ p', send msg p = (Ok tt, p') ∧ rep p' (l ++ [msg])
          else send msg p = (Err PipeFull, p)) ∧
  (match l with
   | [] => recv p = (Ok None, p)
   | x :: l' => ∃ p', recv p = (Ok (Some x), p') ∧ rep p' l'
   end) ∧
  peek p = Ok (head l) ∧
  is_empty p = bool_decide (l = []) ∧
  is_full p = bool_decide (S (length l) = length (queue p)) ∧
  empty_slot_count p = Z.of_nat (length (queue p) - 1 - length l) ∧
  rep (new p) [].
Proof.
  intros H. split_and!.
  - intros msg. by apply send_rep.
  - by apply recv_rep.
  - by apply peek_rep.
  - by apply rep_is_empty.
  - by apply rep_is_full.
  - by apply empty_slot_count_rep.
  - destruct H as ([Hn Hb] & _ & _). unfold rep, new, set_pi, set_ci; simpl.
    split_and!; [done|lia|]. exists 0%nat. unfold idx. simpl. rewrite Nat.Div0.mod_0_l.
    split_and!; [done..|]. intros i x Hx. by rewrite lookup_nil in Hx.
Qed.

Lemma pipe_refines_queue_witness :
  let p := new (mkConfig [0; 0; 0] 1 2) in
  rep p [] ∧ send 7 p = (Ok tt, mkConfig [7; 0; 0] 0 1).
Proof.
  cbv zeta. assert (rep (new (mkConfig [0; 0; 0] 1 2)) []) as H.
  { split_and!; [split; simpl; lia|simpl; lia|]. exists 0%nat. split_and!; [done..|]. intros i x Hx. by rewrite lookup_nil in Hx. }
  split; [exact H|].
  destruct (pipe_refines_queue _ _ H) as [Hs _].
  specialize (Hs 7). destruct Hs as (p' & Hp' & _). rewrite Hp'. exact (eq_sym Hp').
Defined.

(** C22: whatever the interleaving of the two processors and of their store
    buffers, from a new pipe of [n] slots the messages received are the first
    messages sent, in order and without loss or repetition; at most [n - 1]
    are in flight; neither processor indexes out of range; while the consumer
    reads a slot its content is the next message and no store to it is
    pending; and whenever nothing is in flight the memory holds exactly the
    messages sent and not yet received. *)
Theorem pipe_fifo {T} (config : SimplexPipeConfig T) (s : state T) :
  queue_len_ok (length (queue config)) → rtc step (init config) s →
  received s `prefix_of` sent s ∧
  (length (sent s) < length (received s) + length (queue config))%nat ∧
  ppc s ≠ P_panic ∧ cpc s ≠ C_panic ∧
  (∀ c, cpc s = C_some c →
     ∃ x, sent s !! length (received s) = Some x ∧
          queue (mem s) !! Z.to_nat c = Some x ∧ ∀ v, StSlot c v ∉ pbuf s) ∧
  (s = quiescent (mem s) (sent s) (received s) →
     rep (mem s) (drop (length (received s)) (sent s))).
Proof.
  intros Hn Hs. pose proof (inv_reachable _ config s Hn eq_refl Hs) as Hinv.
  pose proof Hinv as (rm & wm & [Hlen Hci Hpi Ho _ _ _ Hpre] & Hpp & Hcp).
  split_and!.
  - rewrite Hpre. apply prefix_take.
  - lia.
  - by destruct (ppc s).
  - by destruct (cpc s).
  - intros c. by apply (inv_slot_stable (length (queue config))).
  - intros E. rewrite E in Hinv. by apply (inv_quiescent (length (queue config))).
Qed.

(** The small steps implement the operations: run to completion without
    interference, the steps of a [send] or a [recv] take a quiescent pipe to
    the quiescent pipe that the operation computes, with the message recorded
    as sent when [send] returns [Ok] and as received when [recv] returns it. *)
Theorem steps_implement_operations {T} (m : SimplexPipeConfig T) (se re l : list T) :
  rep m l →
  (∀ msg, rtc step (quiescent m se re)
            (quiescent (send msg m).2
               (if decide ((send msg m).1 = Ok tt) then se ++ [msg] else se) re)) ∧
  rtc step (quiescent m se re)
    (quiescent (recv m).2 se
       (match (recv m).1 with Ok (Some x) => re ++ [x] | _ => re end)).
Proof.
  intros Hrep. split.
  - intros msg. unfold quiescent.
    eapply rtc_l; [apply (s_send _ _ _ _ _ _ msg)|].
    eapply rtc_l; [apply s_read_pi|]. unfold load; simpl.
    unfold send. destruct (Z.eqb_spec (next_index m (pi m)) (ci m)) as [E|E]; simpl.
    + eapply rtc_l; [by apply s_full|]. done.
    + destruct Hrep as (Hok & _ & r & _ & Hpi & _).
      pose proof (idx_range _ (proj1 Hok) (r + length l)) as Hr. rewrite <-Hpi in Hr.
      rewrite decide_True by lia. simpl. eapply rtc_l; [apply s_store; simpl; (done || lia)|].
      eapply rtc_l; [apply (s_drain_p _ _ [] _ _ _ _ _ (StSlot (pi m) msg)),
                           (drains_at _ [] []); set_solver|]; simpl.
      eapply rtc_l; [apply s_dmb|]. eapply rtc_l; [apply s_publish|]; simpl.
      eapply rtc_l; [apply (s_drain_p _ _ [] _ _ _ _ _ (StPi (next_index m (pi m)))),
                           (drains_at _ [] []); set_solver|]; simpl.
      done.
  - unfold quiescent.
    eapply rtc_l; [apply s_recv|]. eapply rtc_l; [apply s_empty_pi|]. unfold load; simpl.
    unfold recv. pose proof (rep_is_empty m l Hrep) as He. rewrite He.
    unfold is_empty in He.
    destruct l as [|x l]; simpl.
    + apply Z.eqb_eq in He. eapply rtc_l; [by apply s_none|]. done.
    + rewrite bool_decide_eq_false_2 in * by done. apply Z.eqb_neq in He.
      rewrite (rep_front m x l Hrep). simpl.
      eapply rtc_l; [by apply s_some|].
      eapply rtc_l; [by apply s_take, (rep_front m x l Hrep)|].
      eapply rtc_l; [apply s_release|]; simpl.
      eapply rtc_l; [apply (s_drain_c _ _ _ [] _ _ _ _ (StCi (next_index m (ci m)))),
                           (drains_at _ [] []); set_solver|]; simpl.
      done.
Qed.

(** A run of one [send] on a pipe of two slots, up to the consumer's check. *)
Lemma pipe_fifo_witness :
  let s := mkState (mkConfig [7; 0] 0 0) [StPi 1] [] P_idle (C_pi 0 0) [7] [] in
  rtc step (init (mkConfig [0; 0] 5 5)) s ∧ received s `prefix_of` sent s.
Proof.
  cbv zeta.
  assert (rtc step (init (mkConfig [0; 0] 5 5))
            (mkState (mkConfig [7; 0] 0 0) [StPi 1] [] P_idle (C_pi 0 0) [7] [])) as H.
  { unfold init. simpl.
    eapply rtc_l; [apply (s_send _ _ _ _ _ _ 7)|].
    eapply rtc_l; [apply s_read_pi|].
    eapply rtc_l; [apply s_store; [discriminate|reflexivity]|].
    eapply rtc_l; [apply (s_drain_p _ _ [] _ _ _ _ _ (StSlot 0 7)), (drains_at _ [] []); set_solver|].
    eapply rtc_l; [apply s_dmb|]. eapply rtc_l; [apply s_publish|].
    eapply rtc_l; [apply s_recv|]. eapply rtc_l; [apply s_empty_pi|].
    apply rtc_refl. }
  split; [exact H|].
  refine (proj1 (pipe_fifo (mkConfig [0; 0] 5 5) _ _ H)). split; simpl; lia.
Defined.

Lemma steps_implement_operations_witness :
  rtc step (quiescent (mkConfig [0; 0] 0 0) [] [])
    (quiescent (mkConfig [7; 0] 0 1) [7] []).
Proof.
  assert (rep (mkConfig [0; 0] 0 0) []) as H.
  { split_and!; [split; simpl; lia|simpl; lia|]. exists 0%nat.
    split_and!; [done..|]. intros i x Hx. by rewrite lookup_nil in Hx. }
  exact (proj1 (steps_implement_operations (mkConfig [0; 0] 0 0) [] [] [] H) 7).
Defined.
