(* ===== verification/SoftAes.v ===== *)
(** * Software AES engine (drivers/crypto/softaes: aes.rs, engine.rs)

    The block transforms and key schedules are hand-written assembly
    ([cm7_1t_aes_encrypt] and its companions); they enter as the class
    [Cm7Aes], whose laws are what FIPS-197 says of AES: decryption with the
    decryption schedule inverts encryption on 16-byte blocks.  [Aes.v] gives
    the instance.

    [SoftAes] keeps, for each key size and direction, the round keys of the
    last key used; loading a key recomputes them only when it differs.  The
    clients (key wrapping, GCM tag correction) are proved against the trait
    [SyncAesEcb], of which the engine is the instance [softaes_ecb]. *)

From stdpp Require Import base list numbers option.
From S2P Require Import Prelude.

(** [SoftAesErr]. *)
Inductive SoftAesErr :=
  | InvalidKekLength | InsufficientOutputBufferLength | UnalignedOutputBufferLength
  | InsufficientInputLength | UnalignedInputBufferLength
  | IncompatibleInputAndOutputLength | InvalidAivPadding | InvalidMli
  | PaddingOracleAttachDetected | UnpaddedAiv | EngineInitFailed | EncryptFailed
  | FinalyzingEncryptFailed | DecryptFailed | FinalyzingDecryptFailed
  | SoftAesSelfTestDecryptFailure | SoftAesSelfTestKeyUnwrapFailure
  | LastInputBlockTooLarge | AADInvalid | IntermediateTagMissing | LengthOverflow.
#[global] Instance SoftAesErr_eq_dec : EqDecision SoftAesErr.
Proof. solve_decision. Defined.

(** A list of bytes. *)
Definition bytes (l : list Z) : Prop := Forall (uint_range 8) l.
#[global] Instance bytes_dec l : Decision (bytes l).
Proof. unfold bytes. apply _. Defined.

(** A block of 16 bytes. *)
Definition block_ok (b : list Z) : Prop := length b = 16 ∧ bytes b.
#[global] Instance block_ok_dec b : Decision (block_ok b).
Proof. unfold block_ok. apply _. Defined.

Definition key_len_ok (key : list Z) : Prop :=
  length key = 16 ∨ length key = 24 ∨ length key = 32.
#[global] Instance key_len_ok_dec key : Decision (key_len_ok key).
Proof. unfold key_len_ok. apply _. Defined.

(** The assembly routines.  [keyschedule_enc] stands for the three encryption
    schedules (chosen by the key length), [rounds] is their last argument. *)
Class Cm7Aes := {
  cm7_keyschedule_enc : list Z → list Z;
  cm7_keyschedule_dec : list Z → nat → list Z;
  cm7_aes_encrypt : list Z → list Z → nat → list Z;
  cm7_aes_decrypt : list Z → list Z → nat → list Z;
  cm7_encrypt_block key b :
    key_len_ok key → bytes key → block_ok b →
    block_ok (cm7_aes_encrypt (cm7_keyschedule_enc key) b (length key / 4 + 6));
  cm7_decrypt_block key b :
    key_len_ok key → bytes key → block_ok b →
    block_ok (cm7_aes_decrypt
      (cm7_keyschedule_dec (cm7_keyschedule_enc key) (length key / 4 + 6)) b
      (length key / 4 + 6));
  cm7_decrypt_encrypt key b :
    key_len_ok key → bytes key → block_ok b →
    cm7_aes_decrypt
      (cm7_keyschedule_dec (cm7_keyschedule_enc key) (length key / 4 + 6))
      (cm7_aes_encrypt (cm7_keyschedule_enc key) b (length key / 4 + 6))
      (length key / 4 + 6) = b
}.

(** ** The trait [SyncAesEcb]

    What the clients rely on: [encrypt] and [decrypt] of one block check the
    lengths and apply a permutation of the blocks chosen by the key, whatever
    the state of the engine. *)

Definition ecb_result (f : list Z → list Z → list Z) (key block : list Z) :
    outcome SoftAesErr (list Z) :=
  if decide (length block ≠ 16) then Err InsufficientInputLength
  else if decide (key_len_ok key) then Ok (f key block)
  else Err InvalidKekLength.

Class SyncAesEcb := {
  engine : Type;
  encrypt : list Z → list Z → M engine SoftAesErr (list Z);
  decrypt : list Z → list Z → M engine SoftAesErr (list Z);
  engine_ok : engine → Prop;
  cipher : list Z → list Z → list Z;
  decipher : list Z → list Z → list Z;
  encrypt_spec e key block :
    engine_ok e → ∃ e', encrypt key block e = (ecb_result cipher key block, e') ∧ engine_ok e';
  decrypt_spec e key block :
    engine_ok e → ∃ e', decrypt key block e = (ecb_result decipher key block, e') ∧ engine_ok e';
  cipher_block key b : key_len_ok key → bytes key → block_ok b → block_ok (cipher key b);
  decipher_block key b : key_len_ok key → bytes key → block_ok b → block_ok (decipher key b);
  decipher_cipher key b :
    key_len_ok key → bytes key → block_ok b → decipher key (cipher key b) = b
}.

(** ** Programs that use an engine

    [runs m r]: from any good engine state the program [m] ends with the
    outcome [r] in a good engine state. *)

Section runs.
Context `{SyncAesEcb}.

Definition runs {A} (m : M engine SoftAesErr A) (r : outcome SoftAesErr A) : Prop :=
  ∀ e, engine_ok e → ∃ e', m e = (r, e') ∧ engine_ok e'.

Lemma runs_lift {A} (r : outcome SoftAesErr A) : runs (lift r) r.
Proof. intros e He. by exists e. Qed.

Lemma runs_mret {A} (a : A) : runs (mret a) (Ok a).
Proof. intros e He. by exists e. Qed.

Lemma runs_throw {A} er : runs (throw (A:=A) er) (Err er).
Proof. intros e He. by exists e. Qed.

Lemma runs_bind {A B} (m : M engine SoftAesErr A) (f : A → M engine SoftAesErr B) r
    (g : A → outcome SoftAesErr B) :
  runs m r → (∀ a, r = Ok a → runs (f a) (g a)) → runs (m ≫= f) (r ≫= g).
Proof.
  intros Hm Hf e He. destruct (Hm e He) as (e1 & H1 & He1).
  unfold mbind, M_bind, outcome_bind. rewrite H1. destruct r as [a|er|].
  - by apply Hf.
  - by exists e1.
  - by exists e1.
Qed.

Lemma runs_encrypt key block : runs (encrypt key block) (ecb_result cipher key block).
Proof. intros e He. by apply encrypt_spec. Qed.

Lemma runs_decrypt key block : runs (decrypt key block) (ecb_result decipher key block).
Proof. intros e He. by apply decrypt_spec. Qed.

Lemma runs_proper {A} (m : M engine SoftAesErr A) r r' : runs m r → r = r' → runs m r'.
Proof. by intros ? <-. Qed.

End runs.

#[export] Hint Resolve runs_lift runs_mret runs_throw runs_encrypt runs_decrypt : fw.

(** ** The engine *)

Module Engine.
Section engine.
Context `{Cm7Aes}.

(** One of [Aes128Encrypt] ... [Aes256Decrypt] with the key it was set up
    for: the [xxximpl] and [xxxkey] cells of [SoftAes]. *)
Record cell := mkCell { round_key : list Z; key : option (list Z) }.

Record SoftAes := mkSoftAes {
  encrypt128 : cell; decrypt128 : cell;
  encrypt192 : cell; decrypt192 : cell;
  encrypt256 : cell; decrypt256 : cell
}.

(** [Aes128Encrypt::new] and the others: zero round keys. *)
Definition cell_new (rounds : nat) : cell := mkCell (replicate (16 * (rounds + 1)) 0%Z) None.

Definition new : SoftAes :=
  mkSoftAes (cell_new 10) (cell_new 10) (cell_new 12) (cell_new 12) (cell_new 14) (cell_new 14).

(** [AesNEncrypt::set_key] and [AesNDecrypt::set_key]. *)
Definition set_key_enc (rounds : nat) (k : list Z) : list Z := cm7_keyschedule_enc k.
Definition set_key_dec (rounds : nat) (k : list Z) : list Z :=
  cm7_keyschedule_dec (cm7_keyschedule_enc k) rounds.

(** The body of each arm of [load_encrypt_key] and [load_decrypt_key]. *)
Definition reload (set_key : list Z → list Z) (k : list Z) (c : cell) : cell :=
  if decide (key c = Some k) then c else mkCell (set_key k) (Some k).

Definition set_encrypt128 (e : SoftAes) c :=
  mkSoftAes c (decrypt128 e) (encrypt192 e) (decrypt192 e) (encrypt256 e) (decrypt256 e).
Definition set_decrypt128 (e : SoftAes) c :=
  mkSoftAes (encrypt128 e) c (encrypt192 e) (decrypt192 e) (encrypt256 e) (decrypt256 e).
Definition set_encrypt192 (e : SoftAes) c :=
  mkSoftAes (encrypt128 e) (decrypt128 e) c (decrypt192 e) (encrypt256 e) (decrypt256 e).
Definition set_decrypt192 (e : SoftAes) c :=
  mkSoftAes (encrypt128 e) (decrypt128 e) (encrypt192 e) c (encrypt256 e) (decrypt256 e).
Definition set_encrypt256 (e : SoftAes) c :=
  mkSoftAes (encrypt128 e) (decrypt128 e) (encrypt192 e) (decrypt192 e) c (decrypt256 e).
Definition set_decrypt256 (e : SoftAes) c :=
  mkSoftAes (encrypt128 e) (decrypt128 e) (encrypt192 e) (decrypt192 e) (encrypt256 e) c.

Definition load_encrypt_key (k : list Z) : M SoftAes SoftAesErr () :=
  match length k with
  | 16 => modify (λ e, set_encrypt128 e (reload (set_key_enc 10) k (encrypt128 e)))
  | 24 => modify (λ e, set_encrypt192 e (reload (set_key_enc 12) k (encrypt192 e)))
  | 32 => modify (λ e, set_encrypt256 e (reload (set_key_enc 14) k (encrypt256 e)))
  | _ => throw InvalidKekLength
  end.

Definition load_decrypt_key (k : list Z) : M SoftAes SoftAesErr () :=
  match length k with
  | 16 => modify (λ e, set_decrypt128 e (reload (set_key_dec 10) k (decrypt128 e)))
  | 24 => modify (λ e, set_decrypt192 e (reload (set_key_dec 12) k (decrypt192 e)))
  | 32 => modify (λ e, set_decrypt256 e (reload (set_key_dec 14) k (decrypt256 e)))
  | _ => throw InvalidKekLength
  end.

(** [SyncAesEcb::encrypt] of [SoftAes]; [raw_encrypt_block] passes the number
    of rounds. *)
Definition encrypt (k block : list Z) : M SoftAes SoftAesErr (list Z) :=
  unless (bool_decide (length block = 16)) InsufficientInputLength;;
  load_encrypt_key k;;
  e ← get;
  match length k with
  | 16 => mret (cm7_aes_encrypt (round_key (encrypt128 e)) block 10)
  | 24 => mret (cm7_aes_encrypt (round_key (encrypt192 e)) block 12)
  | 32 => mret (cm7_aes_encrypt (round_key (encrypt256 e)) block 14)
  | _ => throw InvalidKekLength
  end.

Definition decrypt (k block : list Z) : M SoftAes SoftAesErr (list Z) :=
  unless (bool_decide (length block = 16)) InsufficientInputLength;;
  load_decrypt_key k;;
  e ← get;
  match length k with
  | 16 => mret (cm7_aes_decrypt (round_key (decrypt128 e)) block 10)
  | 24 => mret (cm7_aes_decrypt (round_key (decrypt192 e)) block 12)
  | 32 => mret (cm7_aes_decrypt (round_key (decrypt256 e)) block 14)
  | _ => throw InvalidKekLength
  end.

(** *** The cached round keys belong to the cached key *)

Definition cell_ok (set_key : list Z → list Z) (c : cell) : Prop :=
  ∀ k, key c = Some k → round_key c = set_key k.

Definition engine_ok (e : SoftAes) : Prop :=
  cell_ok (set_key_enc 10) (encrypt128 e) ∧ cell_ok (set_key_dec 10) (decrypt128 e) ∧
  cell_ok (set_key_enc 12) (encrypt192 e) ∧ cell_ok (set_key_dec 12) (decrypt192 e) ∧
  cell_ok (set_key_enc 14) (encrypt256 e) ∧ cell_ok (set_key_dec 14) (decrypt256 e).

Lemma reload_ok set_key k c :
  cell_ok set_key c →
  cell_ok set_key (reload set_key k c) ∧ round_key (reload set_key k c) = set_key k.
Proof.
  intros Hc. unfold reload. case_decide; [by split; [|apply Hc]|].
  split; [|done]. intros k' Hk'. by simplify_eq/=.
Qed.

Definition cipher (k b : list Z) : list Z :=
  cm7_aes_encrypt (cm7_keyschedule_enc k) b (length k / 4 + 6).
Definition decipher (k b : list Z) : list Z :=
  cm7_aes_decrypt (cm7_keyschedule_dec (cm7_keyschedule_enc k) (length k / 4 + 6)) b
    (length k / 4 + 6).

(** The lengths the code distinguishes. *)
Lemma key_len_cases (n : nat) {A} (x16 x24 x32 y : A) :
  match n with 16 => x16 | 24 => x24 | 32 => x32 | _ => y end =
  if decide (n = 16) then x16 else if decide (n = 24) then x24
  else if decide (n = 32) then x32 else y.
Proof. do 33 (destruct n as [|n]; [done|]). done. Qed.

(** Which cell a key uses, and that loading it leaves the others alone. *)
Ltac key_cases k :=
  destruct (decide (length k = 16)) as [Hk16|Hk16];
  [|destruct (decide (length k = 24)) as [Hk24|Hk24];
    [|destruct (decide (length k = 32)) as [Hk32|Hk32]]].

Lemma ecb_result_len (f : list Z → list Z → list Z) k block :
  ecb_result f k block =
  if bool_decide (length block = 16) then
    if decide (length k = 16) then Ok (f k block)
    else if decide (length k = 24) then Ok (f k block)
    else if decide (length k = 32) then Ok (f k block) else Err InvalidKekLength
  else Err InsufficientInputLength.
Proof.
  unfold ecb_result, key_len_ok. case_bool_decide as Hb.
  - rewrite decide_False by auto. repeat case_decide; (done || tauto).
  - by rewrite decide_True.
Qed.

Lemma encrypt_ok e k block :
  engine_ok e →
  ∃ e', encrypt k block e = (ecb_result cipher k block, e') ∧ engine_ok e'.
Proof.
  intros (H1 & H2 & H3 & H4 & H5 & H6). rewrite ecb_result_len.
  unfold encrypt, load_encrypt_key, cipher. rewrite !key_len_cases. unfold unless.
  case_bool_decide; [|by exists e]. key_cases k; run.
  - destruct (reload_ok _ k _ H1) as [? Hr]. eexists. rewrite Hr, Hk16. by split_and!.
  - destruct (reload_ok _ k _ H3) as [? Hr]. eexists. rewrite Hr, Hk24. by split_and!.
  - destruct (reload_ok _ k _ H5) as [? Hr]. eexists. rewrite Hr, Hk32. by split_and!.
  - by exists e.
Qed.

Lemma decrypt_ok e k block :
  engine_ok e →
  ∃ e', decrypt k block e = (ecb_result decipher k block, e') ∧ engine_ok e'.
Proof.
  intros (H1 & H2 & H3 & H4 & H5 & H6). rewrite ecb_result_len.
  unfold decrypt, load_decrypt_key, decipher. rewrite !key_len_cases. unfold unless.
  case_bool_decide; [|by exists e]. key_cases k; run.
  - destruct (reload_ok _ k _ H2) as [? Hr]. eexists. rewrite Hr, Hk16. by split_and!.
  - destruct (reload_ok _ k _ H4) as [? Hr]. eexists. rewrite Hr, Hk24. by split_and!.
  - destruct (reload_ok _ k _ H6) as [? Hr]. eexists. rewrite Hr, Hk32. by split_and!.
  - by exists e.
Qed.

Lemma new_ok : engine_ok new.
Proof. by split_and!. Qed.

End engine.
Arguments SoftAes : clear implicits.
Arguments cell : clear implicits.
End Engine.

(** The engine implements the trait. *)
#[global] Instance softaes_ecb `{Cm7Aes} : SyncAesEcb := {|
  engine := Engine.SoftAes;
  encrypt := Engine.encrypt;
  decrypt := Engine.decrypt;
  engine_ok := Engine.engine_ok;
  cipher := Engine.cipher;
  decipher := Engine.decipher;
  encrypt_spec := Engine.encrypt_ok;
  decrypt_spec := Engine.decrypt_ok;
  cipher_block := cm7_encrypt_block;
  decipher_block := cm7_decrypt_block;
  decipher_cipher := cm7_decrypt_encrypt
|}.
