(* ===== verification/Aes.v ===== *)
(** * AES (FIPS-197)

    The block cipher as the standard defines it: bytes as elements of
    GF(2^8), a state of 16 bytes in column order, the key expansion for the
    three key sizes, the cipher and its inverse.  The file proves that the
    inverse cipher inverts the cipher and gives the instance of [Cm7Aes], so
    that everything proved against the class can be evaluated on the test
    vectors of the standards. *)

From Stdlib Require Import Btauto.
From stdpp Require Import base list numbers option.
From S2P Require Import Prelude SoftAes.

Local Open Scope Z_scope.

Definition sbox_table : list Z :=
  [99; 124; 119; 123; 242; 107; 111; 197; 48; 1; 103; 43; 254; 215; 171; 118;
   202; 130; 201; 125; 250; 89; 71; 240; 173; 212; 162; 175; 156; 164; 114; 192;
   183; 253; 147; 38; 54; 63; 247; 204; 52; 165; 229; 241; 113; 216; 49; 21;
   4; 199; 35; 195; 24; 150; 5; 154; 7; 18; 128; 226; 235; 39; 178; 117;
   9; 131; 44; 26; 27; 110; 90; 160; 82; 59; 214; 179; 41; 227; 47; 132;
   83; 209; 0; 237; 32; 252; 177; 91; 106; 203; 190; 57; 74; 76; 88; 207;
   208; 239; 170; 251; 67; 77; 51; 133; 69; 249; 2; 127; 80; 60; 159; 168;
   81; 163; 64; 143; 146; 157; 56; 245; 188; 182; 218; 33; 16; 255; 243; 210;
   205; 12; 19; 236; 95; 151; 68; 23; 196; 167; 126; 61; 100; 93; 25; 115;
   96; 129; 79; 220; 34; 42; 144; 136; 70; 238; 184; 20; 222; 94; 11; 219;
   224; 50; 58; 10; 73; 6; 36; 92; 194; 211; 172; 98; 145; 149; 228; 121;
   231; 200; 55; 109; 141; 213; 78; 169; 108; 86; 244; 234; 101; 122; 174; 8;
   186; 120; 37; 46; 28; 166; 180; 198; 232; 221; 116; 31; 75; 189; 139; 138;
   112; 62; 181; 102; 72; 3; 246; 14; 97; 53; 87; 185; 134; 193; 29; 158;
   225; 248; 152; 17; 105; 217; 142; 148; 155; 30; 135; 233; 206; 85; 40; 223;
   140; 161; 137; 13; 191; 230; 66; 104; 65; 153; 45; 15; 176; 84; 187; 22].

Definition inv_sbox_table : list Z :=
  [82; 9; 106; 213; 48; 54; 165; 56; 191; 64; 163; 158; 129; 243; 215; 251;
   124; 227; 57; 130; 155; 47; 255; 135; 52; 142; 67; 68; 196; 222; 233; 203;
   84; 123; 148; 50; 166; 194; 35; 61; 238; 76; 149; 11; 66; 250; 195; 78;
   8; 46; 161; 102; 40; 217; 36; 178; 118; 91; 162; 73; 109; 139; 209; 37;
   114; 248; 246; 100; 134; 104; 152; 22; 212; 164; 92; 204; 93; 101; 182; 146;
   108; 112; 72; 80; 253; 237; 185; 218; 94; 21; 70; 87; 167; 141; 157; 132;
   144; 216; 171; 0; 140; 188; 211; 10; 247; 228; 88; 5; 184; 179; 69; 6;
   208; 44; 30; 143; 202; 63; 15; 2; 193; 175; 189; 3; 1; 19; 138; 107;
   58; 145; 17; 65; 79; 103; 220; 234; 151; 242; 207; 206; 240; 180; 230; 115;
   150; 172; 116; 34; 231; 173; 53; 133; 226; 249; 55; 232; 28; 117; 223; 110;
   71; 241; 26; 113; 29; 41; 197; 137; 111; 183; 98; 14; 170; 24; 190; 27;
   252; 86; 62; 75; 198; 210; 121; 32; 154; 219; 192; 254; 120; 205; 90; 244;
   31; 221; 168; 51; 136; 7; 199; 49; 177; 18; 16; 89; 39; 128; 236; 95;
   96; 81; 127; 169; 25; 181; 74; 13; 45; 229; 122; 159; 147; 201; 156; 239;
   160; 224; 59; 77; 174; 42; 245; 176; 200; 235; 187; 60; 131; 83; 153; 97;
   23; 43; 4; 126; 186; 119; 214; 38; 225; 105; 20; 99; 85; 33; 12; 125].

Definition sbox (b : Z) : Z := nth (Z.to_nat b) sbox_table 0.
Definition inv_sbox (b : Z) : Z := nth (Z.to_nat b) inv_sbox_table 0.

(** Multiplication by x in GF(2^8), and by a constant of four bits. *)
Definition xtime (b : Z) : Z :=
  if b <? 128 then 2 * b else Z.lxor (2 * b - 256) 27.

Definition gmul (c b : Z) : Z :=
  let b2 := xtime b in let b4 := xtime b2 in let b8 := xtime b4 in
  Z.lxor (if Z.testbit c 0 then b else 0)
    (Z.lxor (if Z.testbit c 1 then b2 else 0)
      (Z.lxor (if Z.testbit c 2 then b4 else 0) (if Z.testbit c 3 then b8 else 0))).

Definition xor4 (a b c d : Z) : Z := Z.lxor a (Z.lxor b (Z.lxor c d)).

(** One column times the matrix whose first row is [m0 m1 m2 m3] and whose
    other rows are its rotations. *)
Definition mix_column (m0 m1 m2 m3 : Z) (col : list Z) : list Z :=
  match col with
  | [a; b; c; d] =>
      [xor4 (gmul m0 a) (gmul m1 b) (gmul m2 c) (gmul m3 d);
       xor4 (gmul m3 a) (gmul m0 b) (gmul m1 c) (gmul m2 d);
       xor4 (gmul m2 a) (gmul m3 b) (gmul m0 c) (gmul m1 d);
       xor4 (gmul m1 a) (gmul m2 b) (gmul m3 c) (gmul m0 d)]
  | _ => col
  end.

Fixpoint mix_columns (m : list Z → list Z) (s : list Z) : list Z :=
  match s with
  | a :: b :: c :: d :: s => m [a; b; c; d] ++ mix_columns m s
  | _ => s
  end.

Definition mix : list Z → list Z := mix_columns (mix_column 2 3 1 1).
Definition inv_mix : list Z → list Z := mix_columns (mix_column 14 11 13 9).

(** Row [r] of the state moves [r] columns to the left (right). *)
Definition permute (p : list nat) (s : list Z) : list Z := (λ i, nth i s 0) <$> p.
Definition shift_rows_perm : list nat :=
  [0; 5; 10; 15; 4; 9; 14; 3; 8; 13; 2; 7; 12; 1; 6; 11]%nat.
Definition inv_shift_rows_perm : list nat :=
  [0; 13; 10; 7; 4; 1; 14; 11; 8; 5; 2; 15; 12; 9; 6; 3]%nat.
Definition shift_rows : list Z → list Z := permute shift_rows_perm.
Definition inv_shift_rows : list Z → list Z := permute inv_shift_rows_perm.

Definition add_round_key (k s : list Z) : list Z := zip_with Z.lxor s k.

(** ** Key expansion *)

Definition rcon (i : nat) : Z := Nat.iter (i - 1) xtime 1.

Definition rot_word (w : list Z) : list Z := drop 1 w ++ take 1 w.

(** Words [w(i)] of the expanded key, newest first. *)
Fixpoint expand (nk fuel i : nat) (ws : list (list Z)) : list (list Z) :=
  match fuel with
  | O => ws
  | S fuel =>
      let temp := nth 0 ws [] in
      let temp :=
        if decide (i mod nk = 0)%nat then
          zip_with Z.lxor (sbox <$> rot_word temp) [rcon (i / nk); 0; 0; 0]
        else if decide (6 < nk ∧ i mod nk = 4)%nat then sbox <$> temp
        else temp in
      expand nk fuel (S i) (zip_with Z.lxor (nth (nk - 1) ws []) temp :: ws)
  end.

(** [chunks n l] cuts [l] into pieces of [n] elements. *)
Fixpoint chunks {A} (fuel n : nat) (l : list A) : list (list A) :=
  match fuel, l with
  | S fuel, _ :: _ => take n l :: chunks fuel n (drop n l)
  | _, _ => []
  end.

Definition key_expansion (key : list Z) : list Z :=
  let nk := (length key / 4)%nat in
  concat (rev (expand nk (4 * (nk + 7) - nk) nk (rev (chunks 8 4 key)))).

(** The round keys, in order. *)
Definition round_keys (rk : list Z) (rounds : nat) : list (list Z) := chunks (S rounds) 16 rk.

(** ** The cipher and its inverse *)

Definition round (s k : list Z) : list Z :=
  add_round_key k (mix (shift_rows (sbox <$> s))).
Definition final_round (s k : list Z) : list Z :=
  add_round_key k (shift_rows (sbox <$> s)).
Definition inv_round (s k : list Z) : list Z :=
  inv_sbox <$> inv_shift_rows (inv_mix (add_round_key k s)).
Definition inv_final_round (s k : list Z) : list Z :=
  inv_sbox <$> inv_shift_rows (add_round_key k s).

Definition aes_encrypt (rk b : list Z) (rounds : nat) : list Z :=
  match round_keys rk rounds with
  | k0 :: ks =>
      final_round (foldl round (add_round_key k0 b) (take (rounds - 1) ks)) (nth (rounds - 1) ks [])
  | [] => b
  end.

Definition aes_decrypt (rk b : list Z) (rounds : nat) : list Z :=
  match round_keys rk rounds with
  | k0 :: ks =>
      add_round_key k0 (foldl inv_round (inv_final_round b (nth (rounds - 1) ks []))
                          (rev (take (rounds - 1) ks)))
  | [] => b
  end.

Example aes128_fips197 :
  aes_encrypt (key_expansion (Z.of_nat <$> seq 0 16))
    ((λ i, 17 * Z.of_nat i) <$> seq 0 16) 10 =
  [105; 196; 224; 216; 106; 123; 4; 48; 216; 205; 183; 128; 112; 180; 197; 90].
Proof. vm_compute. reflexivity. Qed.

Example aes256_fips197 :
  aes_encrypt (key_expansion (Z.of_nat <$> seq 0 32))
    ((λ i, 17 * Z.of_nat i) <$> seq 0 16) 14 =
  [142; 162; 183; 202; 81; 103; 69; 191; 234; 252; 73; 144; 75; 73; 96; 137].
Proof. vm_compute. reflexivity. Qed.

(** ** The inverse cipher inverts the cipher *)

Abbreviation byte := (uint_range 8).

(** A property of all bytes is checked by enumeration. *)
Lemma byte_check (P : Z → bool) :
  forallb P (seqZ 0 256) = true → ∀ b, byte b → P b = true.
Proof.
  intros H b Hb. rewrite forallb_forall in H. apply H.
  apply list_elem_of_In, elem_of_seqZ. unfold uint_range in Hb. lia.
Qed.

Lemma byte_check2 (P : Z → Z → bool) :
  forallb (λ a, forallb (P a) (seqZ 0 256)) (seqZ 0 256) = true →
  ∀ a b, byte a → byte b → P a b = true.
Proof.
  intros H a b Ha Hb. apply byte_check; [|done].
  by apply (byte_check (λ a, forallb (P a) (seqZ 0 256))).
Qed.

Lemma byte_lxor a b : byte a → byte b → byte (Z.lxor a b).
Proof. by apply lxor_range. Qed.

Lemma sbox_byte b : byte b → byte (sbox b) ∧ inv_sbox (sbox b) = b.
Proof.
  intros Hb.
  pose proof (byte_check (λ b, bool_decide (byte (sbox b) ∧ inv_sbox (sbox b) = b)) eq_refl b Hb)
    as H. by apply bool_decide_eq_true in H.
Qed.

Lemma inv_sbox_byte b : byte b → byte (inv_sbox b).
Proof.
  intros Hb.
  pose proof (byte_check (λ b, bool_decide (byte (inv_sbox b))) eq_refl b Hb) as H.
  by apply bool_decide_eq_true in H.
Qed.

Lemma xtime_byte b : byte b → byte (xtime b).
Proof.
  intros Hb.
  pose proof (byte_check (λ b, bool_decide (byte (xtime b))) eq_refl b Hb) as H.
  by apply bool_decide_eq_true in H.
Qed.

Lemma xtime_lxor a b :
  byte a → byte b → xtime (Z.lxor a b) = Z.lxor (xtime a) (xtime b).
Proof.
  intros Ha Hb. apply Z.eqb_eq.
  assert (forallb (λ a, forallb (λ b, xtime (Z.lxor a b) =? Z.lxor (xtime a) (xtime b))
            (seqZ 0 256)) (seqZ 0 256) = true) as H by (vm_compute; reflexivity).
  by apply (byte_check2 (λ a b, xtime (Z.lxor a b) =? Z.lxor (xtime a) (xtime b)) H).
Qed.

(** Exclusive or of sixteen terms, by rows or by columns. *)
Lemma xor_transpose a1 a2 a3 a4 b1 b2 b3 b4 c1 c2 c3 c4 d1 d2 d3 d4 :
  xor4 (xor4 a1 b1 c1 d1) (xor4 a2 b2 c2 d2) (xor4 a3 b3 c3 d3) (xor4 a4 b4 c4 d4) =
  xor4 (xor4 a1 a2 a3 a4) (xor4 b1 b2 b3 b4) (xor4 c1 c2 c3 c4) (xor4 d1 d2 d3 d4).
Proof.
  apply Z.bits_inj'. intros i _. unfold xor4. rewrite !Z.lxor_spec.
  repeat match goal with |- context [Z.testbit ?x i] => generalize (Z.testbit x i); intros end.
  btauto.
Qed.

Lemma xor4_byte a b c d : byte a → byte b → byte c → byte d → byte (xor4 a b c d).
Proof. intros. unfold xor4. auto using byte_lxor. Qed.

Lemma gmul_byte c b : byte b → byte (gmul c b).
Proof.
  intros Hb. unfold gmul. assert (byte 0) by done.
  apply xor4_byte; case_match; auto using xtime_byte.
Qed.

Lemma gmul_lxor c a b :
  byte a → byte b → gmul c (Z.lxor a b) = Z.lxor (gmul c a) (gmul c b).
Proof.
  intros Ha Hb. unfold gmul.
  rewrite !xtime_lxor by auto using xtime_byte, byte_lxor.
  apply Z.bits_inj'. intros i _.
  destruct (Z.testbit c 0), (Z.testbit c 1), (Z.testbit c 2), (Z.testbit c 3);
    rewrite ?Z.lxor_spec, ?Z.bits_0; btauto.
Qed.

Lemma gmul_xor4 m a b c d :
  byte a → byte b → byte c → byte d →
  gmul m (xor4 a b c d) = xor4 (gmul m a) (gmul m b) (gmul m c) (gmul m d).
Proof. intros. unfold xor4. by rewrite !gmul_lxor by auto using byte_lxor. Qed.

(** A product of the two matrices, entry by entry. *)
Lemma gmul_product m1 m2 m3 m4 n1 n2 n3 n4 (e : bool) :
  forallb (λ b, xor4 (gmul m1 (gmul n1 b)) (gmul m2 (gmul n2 b)) (gmul m3 (gmul n3 b))
                  (gmul m4 (gmul n4 b)) =? (if e then b else 0)) (seqZ 0 256) = true →
  ∀ b, byte b →
  xor4 (gmul m1 (gmul n1 b)) (gmul m2 (gmul n2 b)) (gmul m3 (gmul n3 b)) (gmul m4 (gmul n4 b)) =
  if e then b else 0.
Proof. intros H b Hb. pose proof (byte_check _ H b Hb) as E. by apply Z.eqb_eq in E. Qed.

Lemma inv_mix_column_mix_column col :
  length col = 4%nat → bytes col →
  mix_column 14 11 13 9 (mix_column 2 3 1 1 col) = col.
Proof.
  intros Hl Hc. destruct col as [|a [|b [|c [|d [|]]]]]; try done.
  unfold bytes in Hc. rewrite !list.Forall_cons in Hc. destruct Hc as (Ha & Hb & Hc & Hd & _).
  unfold mix_column. rewrite !gmul_xor4 by auto using gmul_byte.
  f_equal; [|f_equal; [|f_equal; [|f_equal]]]; rewrite xor_transpose.
  all: repeat match goal with
    | H : byte ?x |- context [xor4 (gmul ?m1 (gmul ?n1 ?x)) (gmul ?m2 (gmul ?n2 ?x))
                               (gmul ?m3 (gmul ?n3 ?x)) (gmul ?m4 (gmul ?n4 ?x))] =>
        first [ rewrite (gmul_product m1 m2 m3 m4 n1 n2 n3 n4 true) 
                  by first [exact H|vm_compute; reflexivity]
              | rewrite (gmul_product m1 m2 m3 m4 n1 n2 n3 n4 false) 
                  by first [exact H|vm_compute; reflexivity] ]
    end.
  all: unfold xor4; rewrite ?Z.lxor_0_l, ?Z.lxor_0_r; reflexivity.
Qed.

(** Sixteen elements. *)
Lemma length_16 {A} (s : list A) :
  length s = 16%nat →
  ∃ a b c d e f g h i j k l m n o p, s = [a; b; c; d; e; f; g; h; i; j; k; l; m; n; o; p].
Proof.
  do 16 (destruct s as [|? s]; [done|]). destruct s; [|done]. intros _. by repeat eexists.
Qed.

Lemma mix_column_ok m0 m1 m2 m3 a b c d :
  bytes [a; b; c; d] →
  ∃ a' b' c' d', mix_column m0 m1 m2 m3 [a; b; c; d] = [a'; b'; c'; d'] ∧ bytes [a'; b'; c'; d'].
Proof.
  unfold bytes. intros H. rewrite !list.Forall_cons in H. destruct H as (Ha & Hb & Hc & Hd & _).
  repeat eexists. rewrite !list.Forall_cons. split_and!; auto using xor4_byte, gmul_byte.
Qed.

(** Column operations keep the shape and the inverse pairs cancel. *)
Lemma mix_columns_inv s :
  ∀ n, length s = (4 * n)%nat → bytes s →
  length (mix s) = (4 * n)%nat ∧ bytes (mix s) ∧ length (inv_mix s) = (4 * n)%nat ∧
  bytes (inv_mix s) ∧ inv_mix (mix s) = s.
Proof.
  intros n. revert s. induction n as [|n IH]; intros s Hl Hs.
  { by destruct s. }
  destruct s as [|a [|b [|c [|d s]]]]; simpl in Hl; try lia.
  unfold bytes in Hs. change (a :: b :: c :: d :: s) with ([a; b; c; d] ++ s) in Hs.
  apply Forall_app in Hs as [Hc Hs]. destruct (IH s) as (H1 & H2 & H3 & H4 & H5); [lia|done|].
  destruct (mix_column_ok 2 3 1 1 a b c d Hc) as (a1 & b1 & c1 & d1 & E1 & Hc1).
  destruct (mix_column_ok 14 11 13 9 a b c d Hc) as (a2 & b2 & c2 & d2 & E2 & Hc2).
  assert (mix (a :: b :: c :: d :: s) = [a1; b1; c1; d1] ++ mix s) as F1.
  { unfold mix. cbn [mix_columns]. by rewrite E1. }
  assert (inv_mix (a :: b :: c :: d :: s) = [a2; b2; c2; d2] ++ inv_mix s) as F2.
  { unfold inv_mix. cbn [mix_columns]. by rewrite E2. }
  rewrite F1, F2. split_and!.
  - rewrite length_app. simpl. lia.
  - by apply Forall_app_2.
  - rewrite length_app. simpl. lia.
  - by apply Forall_app_2.
  - assert (mix_column 14 11 13 9 [a1; b1; c1; d1] = [a; b; c; d]) as E3.
    { rewrite <-E1. by apply inv_mix_column_mix_column. }
    unfold inv_mix in *. cbn [mix_columns app]. rewrite E3, H5. done.
Qed.

Lemma nth_byte s i : bytes s → byte (nth i s 0).
Proof.
  intros Hs. destruct (nth_in_or_default i s 0) as [Hin| ->]; [|done].
  apply list_elem_of_In in Hin. by apply (proj1 (list.Forall_forall _ _) Hs).
Qed.

Lemma permute_ok p s :
  length p = 16%nat → bytes s → block_ok (permute p s).
Proof.
  intros Hp Hs. unfold permute. split; [by rewrite length_fmap|].
  apply Forall_fmap, list.Forall_forall. intros i _. by apply nth_byte.
Qed.

Lemma inv_shift_rows_shift_rows s :
  length s = 16%nat → inv_shift_rows (shift_rows s) = s.
Proof.
  intros (a & b & c & d & e & f & g & h & i & j & k & l & m & n & o & p & ->)%length_16.
  reflexivity.
Qed.

Lemma zip_lxor_ok s : ∀ k,
  length s = length k → bytes s → bytes k →
  length (zip_with Z.lxor s k) = length s ∧ bytes (zip_with Z.lxor s k) ∧
  zip_with Z.lxor (zip_with Z.lxor s k) k = s.
Proof.
  unfold bytes. induction s as [|a s IH]; intros [|b k]; simpl; try (by intros).
  rewrite !list.Forall_cons. intros [= Hl] [Ha Hs] [Hb Hk].
  destruct (IH k Hl Hs Hk) as (H1 & H2 & H3). rewrite H1, H3. split_and!; [done|auto using byte_lxor|done|].
  by rewrite Z.lxor_assoc, Z.lxor_nilpotent, Z.lxor_0_r.
Qed.

Lemma add_round_key_ok k s :
  block_ok k → block_ok s →
  block_ok (add_round_key k s) ∧ add_round_key k (add_round_key k s) = s.
Proof.
  intros [Hk Bk] [Hs Bs]. unfold add_round_key, block_ok.
  destruct (zip_lxor_ok s k) as (H1 & H2 & H3); [lia|done..|]. by rewrite H1.
Qed.

Lemma sub_bytes_ok s :
  block_ok s → block_ok (sbox <$> s) ∧ inv_sbox <$> (sbox <$> s) = s.
Proof.
  intros [Hl Hs]. unfold block_ok, bytes. rewrite length_fmap, Forall_fmap. split_and!; [done| |].
  - eapply list.Forall_impl; [done|]. intros b Hb. by apply sbox_byte.
  - clear Hl. rewrite <-list_fmap_compose. rewrite <-(list_fmap_id s) at 2.
    apply list_fmap_ext. intros i b Hb%list_elem_of_lookup_2.
    apply sbox_byte, (proj1 (list.Forall_forall _ _) Hs), Hb.
Qed.

Lemma inv_sub_bytes_ok s : block_ok s → block_ok (inv_sbox <$> s).
Proof.
  intros [Hl Hs]. unfold block_ok, bytes. rewrite length_fmap, Forall_fmap. split; [done|].
  eapply list.Forall_impl; [done|]. apply inv_sbox_byte.
Qed.

Lemma shift_rows_ok s : block_ok s → block_ok (shift_rows s) ∧ block_ok (inv_shift_rows s).
Proof. intros [_ Hs]. split; by apply permute_ok. Qed.

Lemma mix_ok s :
  block_ok s → block_ok (mix s) ∧ block_ok (inv_mix s) ∧ inv_mix (mix s) = s.
Proof.
  intros [Hl Hs]. destruct (mix_columns_inv s 4 Hl Hs) as (H1 & H2 & H3 & H4 & H5).
  unfold block_ok. by rewrite H1, H3.
Qed.

Lemma round_ok s k :
  block_ok s → block_ok k →
  block_ok (round s k) ∧ inv_round (round s k) k = s ∧ block_ok (inv_round s k).
Proof.
  intros Hs Hk. unfold round, inv_round.
  destruct (sub_bytes_ok s Hs) as [H1 E1]. destruct (shift_rows_ok _ H1) as [H2 _].
  destruct (mix_ok _ H2) as (H3 & _ & E3). destruct (add_round_key_ok k _ Hk H3) as [H4 E4].
  rewrite E4, E3, inv_shift_rows_shift_rows, E1 by (by destruct H1). split_and!; [done..|].
  destruct (add_round_key_ok k s Hk Hs) as [H5 _]. destruct (mix_ok _ H5) as (_ & H6 & _).
  destruct (shift_rows_ok _ H6) as [_ H7]. by apply inv_sub_bytes_ok.
Qed.

Lemma final_round_ok s k :
  block_ok s → block_ok k →
  block_ok (final_round s k) ∧ inv_final_round (final_round s k) k = s ∧
  block_ok (inv_final_round s k).
Proof.
  intros Hs Hk. unfold final_round, inv_final_round.
  destruct (sub_bytes_ok s Hs) as [H1 E1]. destruct (shift_rows_ok _ H1) as [H2 _].
  destruct (add_round_key_ok k _ Hk H2) as [H4 E4].
  rewrite E4, inv_shift_rows_shift_rows, E1 by (by destruct H1). split_and!; [done..|].
  destruct (add_round_key_ok k s Hk Hs) as [H5 _].
  destruct (shift_rows_ok _ H5) as [_ H7]. by apply inv_sub_bytes_ok.
Qed.

Lemma rounds_ok ks : ∀ s,
  block_ok s → Forall block_ok ks →
  block_ok (foldl round s ks) ∧ foldl inv_round (foldl round s ks) (rev ks) = s.
Proof.
  induction ks as [|k ks IH]; intros s Hs Hks; simpl; [done|].
  apply list.Forall_cons in Hks as [Hk Hks]. destruct (round_ok s k Hs Hk) as (H1 & E1 & _).
  destruct (IH _ H1 Hks) as [H2 E2]. split; [done|].
  by rewrite foldl_app, E2.
Qed.

Lemma inv_rounds_ok ks : ∀ s,
  block_ok s → Forall block_ok ks → block_ok (foldl inv_round s ks).
Proof.
  induction ks as [|k ks IH]; intros s Hs Hks; simpl; [done|].
  apply list.Forall_cons in Hks as [Hk Hks]. apply IH; [|done]. by apply round_ok.
Qed.

(** *** Key expansion produces round keys *)

Definition word_ok (w : list Z) : Prop := length w = 4%nat ∧ bytes w.

Lemma rcon_byte i : byte (rcon i).
Proof.
  unfold rcon. induction (i - 1)%nat as [|n IH]; simpl; [done|]. by apply xtime_byte.
Qed.

Lemma sub_word_ok w : word_ok w → word_ok (sbox <$> w).
Proof.
  intros [Hl Hw]. split; [by rewrite length_fmap|]. unfold bytes. apply Forall_fmap.
  eapply list.Forall_impl; [done|]. intros b Hb. by apply sbox_byte.
Qed.

Lemma xor_word_ok v w : word_ok v → word_ok w → word_ok (zip_with Z.lxor v w).
Proof.
  intros [Hv Bv] [Hw Bw]. destruct (zip_lxor_ok v w) as (H1 & H2 & _); [lia|done..|].
  split; [lia|done].
Qed.

Lemma rot_word_ok w : word_ok w → word_ok (rot_word w).
Proof.
  intros [Hl Hw]. unfold rot_word. split.
  - rewrite length_app, length_take, length_drop. lia.
  - apply Forall_app_2; [by apply Forall_drop|by apply Forall_take].
Qed.

Lemma nth_word_ok ws i : Forall word_ok ws → (i < length ws)%nat → word_ok (nth i ws []).
Proof.
  intros Hws Hi. apply (proj1 (list.Forall_forall _ _) Hws), list_elem_of_In, nth_In. done.
Qed.

Lemma expand_ok nk fuel : ∀ i ws,
  (0 < nk)%nat → (nk ≤ length ws)%nat → Forall word_ok ws →
  Forall word_ok (expand nk fuel i ws) ∧
  length (expand nk fuel i ws) = (length ws + fuel)%nat.
Proof.
  induction fuel as [|fuel IH]; intros i ws Hnk Hl Hws; simpl; [split; [done|lia]|].
  edestruct (IH (S i)) as [H1 H2]; [done| | |split; [exact H1|rewrite H2; simpl; lia]].
  - simpl. lia.
  - constructor; [|done]. apply xor_word_ok; [apply nth_word_ok; [done|lia]|].
    assert (word_ok (nth 0 ws [])) by (apply nth_word_ok; [done|lia]).
    repeat case_decide; auto using sub_word_ok.
    apply xor_word_ok; [by apply sub_word_ok, rot_word_ok|].
    split; [done|]. unfold bytes. rewrite !list.Forall_cons. split_and!; [apply rcon_byte|done..].
Qed.

Lemma chunks_ok {A} (P : A → Prop) n fuel : ∀ l : list A,
  (0 < n)%nat → Forall P l → length l = (n * fuel)%nat →
  length (chunks fuel n l) = fuel ∧
  Forall (λ c, length c = n ∧ Forall P c) (chunks fuel n l).
Proof.
  induction fuel as [|fuel IH]; intros l Hn Hl Hlen; simpl; [done|].
  destruct l as [|a l']; [simpl in Hlen; lia|].
  destruct (IH (drop n (a :: l'))) as [H1 H2]; [done|by apply Forall_drop| |].
  { rewrite length_drop. lia. }
  cbn [length]. rewrite H1. split; [done|]. constructor; [|done].
  split; [rewrite length_take; lia|by apply Forall_take].
Qed.

Lemma concat_words_ok ws :
  Forall word_ok ws → bytes (concat ws) ∧ length (concat ws) = (4 * length ws)%nat.
Proof.
  induction 1 as [|w ws [Hw Bw] _ [IH1 IH2]]; simpl; [split; [constructor|lia]|].
  rewrite length_app. split; [by apply Forall_app_2|lia].
Qed.

Lemma key_expansion_ok key :
  key_len_ok key → bytes key →
  bytes (key_expansion key) ∧
  length (key_expansion key) = (16 * S (length key / 4 + 6))%nat.
Proof.
  intros Hk Hb. unfold key_expansion.
  assert (length key = 4 * (length key / 4) ∧ length key / 4 ≤ 8 ∧ 0 < length key / 4)%nat
    as (Hl & H8 & H0).
  { destruct Hk as [->|[->| ->]]; cbv; lia. }
  set (nk := (length key / 4)%nat) in *.
  assert (∀ f, (nk ≤ f)%nat → chunks f 4 key = chunks nk 4 key) as Hf.
  { clearbody nk. clear - Hl. revert key Hl. induction nk as [|n IH]; intros key Hl f Hf.
    - destruct key; [|simpl in Hl; lia]. by destruct f.
    - destruct f as [|f]; [lia|]. simpl. destruct key as [|a key']; [done|].
      f_equal. apply IH; [|lia]. rewrite length_drop. lia. }
  rewrite (Hf 8%nat) by done.
  destruct (chunks_ok byte 4 nk key) as [H1 H2]; [lia|done|lia|].
  destruct (expand_ok nk (4 * (nk + 7) - nk) nk (rev (chunks nk 4 key))) as [H3 H4].
  - done.
  - rewrite length_rev. lia.
  - by apply Forall_rev.
  - destruct (concat_words_ok (rev (expand nk (4 * (nk + 7) - nk) nk (rev (chunks nk 4 key)))))
      as [H5 H6]; [by apply Forall_rev|].
    split; [done|]. rewrite H6, length_rev, H4, length_rev, H1. lia.
Qed.

Lemma round_keys_ok key rounds :
  key_len_ok key → bytes key → rounds = (length key / 4 + 6)%nat →
  ∃ k0 ks, round_keys (key_expansion key) rounds = k0 :: ks ∧ block_ok k0 ∧
           Forall block_ok ks ∧ length ks = rounds.
Proof.
  intros Hk Hb ->. destruct (key_expansion_ok key Hk Hb) as [H1 H2].
  unfold round_keys. destruct (chunks_ok byte 16 (S (length key / 4 + 6)) (key_expansion key))
    as [H3 H4]; [lia|done|done|].
  destruct (chunks _ 16 (key_expansion key)) as [|k0 ks]; [done|].
  apply list.Forall_cons in H4 as [H4 H5]. exists k0, ks. simpl in H3. auto with lia.
Qed.

(** ** The instance *)

Lemma aes_decrypt_encrypt key b :
  key_len_ok key → bytes key → block_ok b →
  let rounds := (length key / 4 + 6)%nat in
  block_ok (aes_encrypt (key_expansion key) b rounds) ∧
  block_ok (aes_decrypt (key_expansion key) b rounds) ∧
  aes_decrypt (key_expansion key) (aes_encrypt (key_expansion key) b rounds) rounds = b.
Proof.
  intros Hk Hkb Hb rounds. unfold aes_encrypt, aes_decrypt.
  destruct (round_keys_ok key rounds Hk Hkb eq_refl) as (k0 & ks & -> & Hk0 & Hks & Hl).
  assert (block_ok (nth (rounds - 1) ks [])) as Hlast.
  { apply (proj1 (list.Forall_forall _ _) Hks), list_elem_of_In, nth_In. unfold rounds in *. lia. }
  assert (Forall block_ok (take (rounds - 1) ks)) as Hmid by (by apply Forall_take).
  destruct (add_round_key_ok k0 b Hk0 Hb) as [H1 E1].
  destruct (rounds_ok _ _ H1 Hmid) as [H2 E2].
  destruct (final_round_ok _ _ H2 Hlast) as (H3 & E3 & _).
  split_and!; [done| |].
  - apply add_round_key_ok; [done|]. apply inv_rounds_ok; [|by apply Forall_rev].
    by apply final_round_ok.
  - by rewrite E3, E2.
Qed.

#[global] Instance fips197 : Cm7Aes.
Proof.
  refine {| cm7_keyschedule_enc := key_expansion;
            cm7_keyschedule_dec := λ rk _, rk;
            cm7_aes_encrypt := aes_encrypt;
            cm7_aes_decrypt := aes_decrypt |}.
  - intros key b Hk Hb Hbl. by apply aes_decrypt_encrypt.
  - intros key b Hk Hb Hbl. by apply aes_decrypt_encrypt.
  - intros key b Hk Hb Hbl. by apply aes_decrypt_encrypt.
Defined.
