(* ===== verification/KeyWrapProps.v ===== *)
(** * AES key wrapping: the code computes RFC 3394 and RFC 5649

    The reference works on semiblocks ([list Z] of 64-bit words); [flat]
    relates it to the bytes of the buffers.  The theorems are at the end. *)

From stdpp Require Import base list numbers option.
From S2P Require Import Prelude SoftAes Aes KeyWrap.

Local Open Scope Z_scope.

#[local] Arguments to_le_bytes : simpl never.

Abbreviation u64 := (uint_range 64).

(** ** Semiblocks and bytes *)

Definition flat (R : list Z) : list Z := concat (to_le_bytes 8 <$> R).
Arguments flat : simpl never.

Lemma length_flat R : length (flat R) = (length R * 8)%nat.
Proof.
  unfold flat. induction R as [|r R IH]; [done|].
  cbn [fmap list_fmap concat]. rewrite length_app, length_to_le_bytes, IH. simpl. lia.
Qed.

Lemma flat_bytes R : bytes (flat R).
Proof.
  unfold flat, bytes. induction R as [|r R IH]; [constructor|].
  cbn [fmap list_fmap concat]. apply Forall_app_2; [apply to_le_bytes_range|done].
Qed.

Lemma flat_app R1 R2 : flat (R1 ++ R2) = flat R1 ++ flat R2.
Proof. unfold flat. by rewrite fmap_app, concat_app. Qed.

(** The bytes of the [i]-th semiblock. *)
Lemma flat_split R i r :
  R !! i = Some r →
  flat R = flat (take i R) ++ to_le_bytes 8 r ++ flat (drop (S i) R).
Proof.
  intros Hi. rewrite <-(take_drop_middle R i r Hi) at 1.
  rewrite flat_app. done.
Qed.

Lemma length_flat_take R i : (i ≤ length R)%nat → length (flat (take i R)) = (i * 8)%nat.
Proof. intros Hi. rewrite length_flat, length_take. lia. Qed.

Lemma read_flat pre R post i r :
  R !! i = Some r → u64 r →
  read_u64 (pre ++ flat R ++ post) (length pre + i * 8) = Ok r.
Proof.
  intros Hi Hr. unfold read_u64. pose proof (lookup_lt_Some _ _ _ Hi).
  rewrite (flat_split R i r Hi), <-!app_assoc, (app_assoc pre).
  rewrite slice_middle.
  - unfold fmap, outcome_fmap. by rewrite (from_to_le_bytes 8).
  - rewrite length_app, length_flat_take by lia. done.
  - apply length_to_le_bytes.
Qed.

Lemma write_flat {E} pre R post i v :
  (i < length R)%nat →
  copy_from_slice (E:=E) (pre ++ flat R ++ post) (length pre + i * 8) 8 (to_le_bytes 8 v) =
  Ok (pre ++ flat (<[i:=v]> R) ++ post).
Proof.
  intros Hi. destruct (lookup_lt_is_Some_2 R i Hi) as [r Hr].
  rewrite (flat_split R i r Hr), <-!app_assoc, (app_assoc pre).
  rewrite copy_middle.
  - rewrite (flat_split (<[i:=v]> R) i v) by (by apply list_lookup_insert_eq).
    rewrite take_insert_ge by lia. rewrite drop_insert_lt by lia.
    by rewrite <-!app_assoc.
  - rewrite length_app, length_flat_take by lia. done.
  - apply length_to_le_bytes.
  - apply length_to_le_bytes.
Qed.

Lemma to_from_le_bytes' n l :
  length l = n → bytes l → to_le_bytes n (from_le_bytes l) = l.
Proof. intros <-. apply to_from_le_bytes. Qed.

(** Every byte string of a length divisible by eight is made of semiblocks. *)
Lemma flat_surj n : ∀ l,
  length l = (n * 8)%nat → bytes l → ∃ R, l = flat R ∧ length R = n ∧ Forall u64 R.
Proof.
  induction n as [|n IH]; intros l Hl Hb.
  - destruct l; [|done]. by exists [].
  - destruct (IH (drop 8 l)) as (R & HR & HRl & HRu).
    { rewrite length_drop. lia. }
    { by apply Forall_drop. }
    assert (length (take 8 l) = 8%nat) as H8 by (rewrite length_take; lia).
    assert (bytes (take 8 l)) as Hb8 by (by apply Forall_take).
    exists (from_le_bytes (take 8 l) :: R). split_and!.
    + unfold flat in *. cbn [fmap list_fmap concat]. rewrite <-HR.
      rewrite to_from_le_bytes' by done. by rewrite take_drop.
    + simpl. lia.
    + constructor; [|done]. pose proof (from_le_bytes_range _ Hb8) as Hr. by rewrite H8 in Hr.
Qed.

(** ** Programs with a buffer *)

Section bruns.
Context `{SyncAesEcb}.

Definition bruns {A} (m : BM A) (buf : list Z) (r : outcome SoftAesErr A) (buf' : list Z) : Prop :=
  ∀ e, engine_ok e → ∃ e', m (e, buf) = (r, (e', buf')) ∧ engine_ok e'.

Lemma bruns_bind {A B} (m : BM A) (f : A → BM B) buf a buf1 r buf2 :
  bruns m buf (Ok a) buf1 → bruns (f a) buf1 r buf2 → bruns (m ≫= f) buf r buf2.
Proof.
  intros Hm Hf e He. destruct (Hm e He) as (e1 & H1 & He1).
  unfold mbind, M_bind. rewrite H1. by apply Hf.
Qed.

Lemma bruns_bind_err {A B} (m : BM A) (f : A → BM B) buf er buf1 :
  bruns m buf (Err er) buf1 → bruns (m ≫= f) buf (Err er) buf1.
Proof.
  intros Hm e He. destruct (Hm e He) as (e1 & H1 & He1).
  unfold mbind, M_bind. rewrite H1. by exists e1.
Qed.

(** A continuation that leaves the buffer alone. *)
Lemma bruns_bind_pure {A B} (m : BM A) (f : A → BM B) buf r buf1 (g : A → outcome SoftAesErr B) :
  bruns m buf r buf1 → (∀ a, bruns (f a) buf1 (g a) buf1) → bruns (m ≫= f) buf (r ≫= g) buf1.
Proof.
  intros Hm Hf. destruct r as [a|er|].
  - by eapply bruns_bind.
  - by apply bruns_bind_err.
  - intros e He. destruct (Hm e He) as (e1 & H1 & He1). exists e1.
    unfold mbind, M_bind. by rewrite H1.
Qed.

Lemma bruns_mret {A} (a : A) buf : bruns (mret a) buf (Ok a) buf.
Proof. intros e He. by exists e. Qed.

Lemma bruns_throw {A} er buf : bruns (throw (A:=A) er) buf (Err er) buf.
Proof. intros e He. by exists e. Qed.

Lemma bruns_lift {A} (r : outcome SoftAesErr A) buf : bruns (lift r) buf r buf.
Proof. intros e He. by exists e. Qed.

Lemma bruns_lift_ok {A} (r : outcome SoftAesErr A) a buf :
  r = Ok a → bruns (lift r) buf (Ok a) buf.
Proof. intros ->. apply bruns_lift. Qed.

Lemma bruns_buffer buf : bruns buffer buf (Ok buf) buf.
Proof. intros e He. by exists e. Qed.

Lemma bruns_unless (b : bool) er buf : b = true → bruns (unless b er) buf (Ok tt) buf.
Proof. intros ->. intros e He. by exists e. Qed.

Lemma bruns_unless_err (b : bool) er buf : b = false → bruns (unless b er) buf (Err er) buf.
Proof. intros ->. intros e He. by exists e. Qed.

Lemma bruns_on_engine {A} (m : M engine SoftAesErr A) r buf :
  runs m r → bruns (on_engine m) buf r buf.
Proof.
  intros Hm e He. destruct (Hm e He) as (e1 & H1 & He1). unfold on_engine.
  rewrite H1. by exists e1.
Qed.

Lemma bruns_write off len d buf buf' :
  copy_from_slice buf off len d = Ok (E:=SoftAesErr) buf' →
  bruns (write_slice off len d) buf (Ok tt) buf'.
Proof.
  intros Hw. unfold write_slice. eapply bruns_bind; [apply bruns_buffer|].
  eapply bruns_bind; [by apply bruns_lift_ok|]. intros e He. by exists e.
Qed.

(** A loop computes a fold when each turn computes a step of it. *)
Lemma bruns_for {T A B} (body : B → A → BM B) (step : T → A → T) (a_of : T → B)
    (buf_of : T → list Z) (Inv : T → Prop) l :
  (∀ s x, x ∈ l → Inv s →
     Inv (step s x) ∧ bruns (body (a_of s) x) (buf_of s) (Ok (a_of (step s x))) (buf_of (step s x))) →
  ∀ s, Inv s →
  Inv (foldl step s l) ∧
  bruns (for_loop body (a_of s) l) (buf_of s) (Ok (a_of (foldl step s l))) (buf_of (foldl step s l)).
Proof.
  induction l as [|x l IH]; intros Hstep s Hs; simpl.
  - split; [done|]. apply bruns_mret.
  - destruct (Hstep s x) as [H1 H2]; [by left|done|].
    destruct IH with (s := step s x) as [H3 H4]; [intros ?? Hy; apply Hstep; by right|done|].
    split; [done|]. by eapply bruns_bind.
Qed.

End bruns.

(** ** The reference: RFC 3394 on semiblocks *)

Section reference.
Context `{SyncAesEcb} (kek : list Z).

(** The block cipher on a pair of words, and its inverse. *)
Definition pair_of (blk : list Z) : Z * Z :=
  (from_le_bytes (take 8 blk), from_le_bytes (drop 8 blk)).
Definition E2 (a b : Z) : Z * Z := pair_of (cipher kek (to_le_bytes 8 a ++ to_le_bytes 8 b)).
Definition D2 (a b : Z) : Z * Z := pair_of (decipher kek (to_le_bytes 8 a ++ to_le_bytes 8 b)).

#[local] Arguments E2 : simpl never.
#[local] Arguments D2 : simpl never.

Definition counter (n j i : nat) : Z := swap_bytes64 (Z.of_nat (n * j + (i + 1))).

Definition wrap_step (n j : nat) (s : Z * list Z) (i : nat) : Z * list Z :=
  let '(msb, lsb) := E2 s.1 (nth i s.2 0) in
  (Z.lxor msb (counter n j i), <[i := lsb]> s.2).
Definition unwrap_step (n j : nat) (s : Z * list Z) (i : nat) : Z * list Z :=
  let '(msb, lsb) := D2 (Z.lxor s.1 (counter n j i)) (nth i s.2 0) in
  (msb, <[i := lsb]> s.2).

Definition wrap_rounds (n : nat) (s : Z * list Z) : Z * list Z :=
  foldl (λ s j, foldl (wrap_step n j) s (seq 0 n)) s (seq 0 6).
Definition unwrap_rounds (n : nat) (s : Z * list Z) : Z * list Z :=
  foldl (λ s j, foldl (unwrap_step n j) s (rev (seq 0 n))) s (rev (seq 0 6)).

Definition state_ok (n : nat) (s : Z * list Z) : Prop :=
  u64 s.1 ∧ length s.2 = n ∧ Forall u64 s.2.

Hypothesis (Hk : key_len_ok kek) (Hkb : bytes kek).

Lemma words_block a b : block_ok (to_le_bytes 8 a ++ to_le_bytes 8 b).
Proof.
  split.
  - by rewrite length_app, !length_to_le_bytes.
  - apply Forall_app_2; apply to_le_bytes_range.
Qed.

Lemma pair_of_ok blk :
  block_ok blk →
  u64 (pair_of blk).1 ∧ u64 (pair_of blk).2 ∧
  to_le_bytes 8 (pair_of blk).1 ++ to_le_bytes 8 (pair_of blk).2 = blk.
Proof.
  intros [Hl Hb]. unfold pair_of; simpl fst; simpl snd.
  assert (length (take 8 blk) = 8%nat) as H1 by (rewrite length_take; lia).
  assert (length (drop 8 blk) = 8%nat) as H2 by (rewrite length_drop; lia).
  assert (bytes (take 8 blk)) as B1 by (by apply Forall_take).
  assert (bytes (drop 8 blk)) as B2 by (by apply Forall_drop).
  pose proof (from_le_bytes_range _ B1) as R1. pose proof (from_le_bytes_range _ B2) as R2.
  rewrite H1 in R1. rewrite H2 in R2. split_and!; [done..|].
  rewrite !to_from_le_bytes' by done. apply take_drop.
Qed.

Lemma pair_of_words a b : u64 a → u64 b → pair_of (to_le_bytes 8 a ++ to_le_bytes 8 b) = (a, b).
Proof.
  intros Ha Hb. unfold pair_of.
  rewrite take_app_length', drop_app_length' by (by rewrite length_to_le_bytes).
  by rewrite !(from_to_le_bytes 8) by done.
Qed.

Lemma E2_ok a b : u64 (E2 a b).1 ∧ u64 (E2 a b).2.
Proof using Hk Hkb.
  destruct (pair_of_ok (cipher kek (to_le_bytes 8 a ++ to_le_bytes 8 b))) as (H1 & H2 & _);
    [|done]. apply cipher_block; [done..|]. apply words_block.
Qed.

Lemma D2_ok a b : u64 (D2 a b).1 ∧ u64 (D2 a b).2.
Proof using Hk Hkb.
  destruct (pair_of_ok (decipher kek (to_le_bytes 8 a ++ to_le_bytes 8 b))) as (H1 & H2 & _);
    [|done]. apply decipher_block; [done..|]. apply words_block.
Qed.

Lemma D2_E2 a b : u64 a → u64 b → D2 (E2 a b).1 (E2 a b).2 = (a, b).
Proof using Hk Hkb.
  intros Ha Hb. unfold D2, E2.
  assert (block_ok (cipher kek (to_le_bytes 8 a ++ to_le_bytes 8 b))) as Hc.
  { apply cipher_block; [done..|]. apply words_block. }
  destruct (pair_of_ok _ Hc) as (_ & _ & E). rewrite E.
  rewrite decipher_cipher by (done || apply words_block). by apply pair_of_words.
Qed.

Lemma swap_bytes64_ok v : u64 (swap_bytes64 v).
Proof.
  unfold swap_bytes64, from_be_bytes.
  assert (bytes (rev (to_le_bytes 8 v))) as Hb by (apply Forall_rev, to_le_bytes_range).
  pose proof (from_le_bytes_range _ Hb) as Hr. by rewrite length_rev, length_to_le_bytes in Hr.
Qed.

Lemma wrap_step_ok n j s i : (i < n)%nat → state_ok n s → state_ok n (wrap_step n j s i).
Proof using Hk Hkb.
  intros Hi (Ha & Hl & HR). unfold wrap_step. destruct (E2_ok s.1 (nth i s.2 0)) as [H1 H2].
  destruct (E2 s.1 (nth i s.2 0)) as [msb lsb]; simpl in *. split_and!; simpl.
  - apply lxor_range; [done..|]. apply swap_bytes64_ok.
  - by rewrite length_insert.
  - by apply Forall_insert.
Qed.

Lemma unwrap_step_ok n j s i : (i < n)%nat → state_ok n s → state_ok n (unwrap_step n j s i).
Proof using Hk Hkb.
  intros Hi (Ha & Hl & HR). unfold unwrap_step.
  destruct (D2_ok (Z.lxor s.1 (counter n j i)) (nth i s.2 0)) as [H1 H2].
  destruct (D2 _ _) as [msb lsb]; simpl in *. split_and!; simpl; [done| |].
  - by rewrite length_insert.
  - by apply Forall_insert.
Qed.

Lemma nth_u64 R i : Forall u64 R → u64 (nth i R 0).
Proof.
  intros HR. destruct (nth_in_or_default i R 0) as [Hin| ->]; [|done].
  apply list_elem_of_In in Hin. by apply (proj1 (list.Forall_forall _ _) HR).
Qed.

Lemma nth_lookup_lt (R : list Z) i : (i < length R)%nat → R !! i = Some (nth i R 0).
Proof.
  intros Hi. rewrite nth_lookup. destruct (lookup_lt_is_Some_2 R i Hi) as [r ->]. done.
Qed.

Lemma unwrap_wrap_step n j s i :
  (i < n)%nat → state_ok n s → unwrap_step n j (wrap_step n j s i) i = s.
Proof using Hk Hkb.
  intros Hi (Ha & Hl & HR). destruct s as [a R]. cbn [fst snd] in *.
  unfold unwrap_step, wrap_step. cbn [fst snd].
  pose proof (D2_E2 a (nth i R 0) Ha (nth_u64 R i HR)) as HD.
  destruct (E2 a (nth i R 0)) as [msb lsb]. cbn [fst snd] in *.
  rewrite Z.lxor_assoc, Z.lxor_nilpotent, Z.lxor_0_r.
  rewrite nth_lookup, list_lookup_insert_eq by lia. unfold default, from_option, id. rewrite HD.
  rewrite list_insert_insert_eq. f_equal. apply list_insert_id. by apply nth_lookup_lt; lia.
Qed.

(** Undoing a fold of invertible steps, last step first. *)
Lemma foldl_undo {T A} (Inv : T → Prop) (f g : T → A → T) l :
  (∀ s x, x ∈ l → Inv s → Inv (f s x) ∧ g (f s x) x = s) →
  ∀ s, Inv s → Inv (foldl f s l) ∧ foldl g (foldl f s l) (rev l) = s.
Proof.
  induction l as [|x l IH]; intros Hstep s Hs; simpl; [done|].
  destruct (Hstep s x) as [H1 H2]; [by left|done|].
  destruct IH with (s := f s x) as [H3 H4]; [intros ?? Hy; apply Hstep; by right|done|].
  split; [done|]. by rewrite foldl_app, H4.
Qed.

Lemma unwrap_wrap_rounds n s :
  state_ok n s → state_ok n (wrap_rounds n s) ∧ unwrap_rounds n (wrap_rounds n s) = s.
Proof using Hk Hkb.
  intros Hs. apply foldl_undo; [|done]. intros s' j _ Hs'.
  apply foldl_undo; [|done]. intros s'' i Hi Hs''.
  apply elem_of_seq in Hi. split; [by apply wrap_step_ok; [lia|]|].
  by apply unwrap_wrap_step; [lia|].
Qed.

Lemma unwrap_rounds_ok n s : state_ok n s → state_ok n (unwrap_rounds n s).
Proof using Hk Hkb.
  assert (∀ A (f : Z * list Z → A → Z * list Z) l s,
            (∀ s x, x ∈ l → state_ok n s → state_ok n (f s x)) →
            state_ok n s → state_ok n (foldl f s l)) as Hfold.
  { intros A f l. induction l as [|x l IH]; intros s' Hf Hs'; [done|]. simpl.
    apply IH; [intros; apply Hf; [by right|done]|]. apply Hf; [by left|done]. }
  intros Hs. apply Hfold; [|done]. intros s1 j _ Hs1. apply Hfold; [|done].
  intros s2 i Hi Hs2. apply list_elem_of_In, in_rev, list_elem_of_In, elem_of_seq in Hi.
  by apply unwrap_step_ok; [lia|].
Qed.

(** ** The code computes the reference *)

Lemma ecb_result_ok f blk : block_ok blk → ecb_result f kek blk = Ok (f kek blk).
Proof using Hk. intros [Hl _]. unfold ecb_result. by rewrite decide_False, decide_True by auto. Qed.

Lemma read_pair blk :
  length blk = 16%nat →
  read_u64 blk 0 = Ok (pair_of blk).1 ∧ read_u64 blk 8 = Ok (pair_of blk).2.
Proof.
  intros Hl. unfold read_u64, slice. rewrite !decide_True by lia.
  unfold pair_of; simpl fst; simpl snd. split; [done|]. simpl.
  rewrite take_ge by (rewrite length_drop; lia). done.
Qed.

Lemma runs_aes (enc : bool) a b :
  runs (aes enc kek a b) (Ok (if enc then E2 a b else D2 a b)).
Proof using Hk Hkb.
  unfold aes. pose proof (words_block a b) as Hw.
  set (f := if enc then cipher else decipher).
  assert (runs (if enc then encrypt kek (to_le_bytes 8 a ++ to_le_bytes 8 b)
                else decrypt kek (to_le_bytes 8 a ++ to_le_bytes 8 b))
               (Ok (f kek (to_le_bytes 8 a ++ to_le_bytes 8 b)))) as Hr.
  { unfold f. rewrite <-ecb_result_ok by done. destruct enc; auto with fw. }
  assert (block_ok (f kek (to_le_bytes 8 a ++ to_le_bytes 8 b))) as [Hb _].
  { unfold f. destruct enc; [apply cipher_block|apply decipher_block]; done. }
  intros e He. destruct (Hr e He) as (e' & He' & Hok). exists e'. split; [|done].
  unfold mbind, M_bind. rewrite He'. destruct (read_pair _ Hb) as [H1 H2].
  unfold lift. rewrite H1, H2. unfold mret, M_ret. unfold f, E2, D2.
  by destruct enc; rewrite <-surjective_pairing.
Qed.

Context (pre post : list Z) (off : nat → nat) (n : nat).
Hypothesis Hoff : ∀ i, off i = (length pre + i * 8)%nat.

Let buf_of (s : Z * list Z) : list Z := pre ++ flat s.2 ++ post.

(** The bodies of the inner loops. *)
Lemma wrap_body_ok j s i :
  (i < n)%nat → state_ok n s →
  bruns (output ← buffer; b ← lift (read_u64 output (off i));
         r ← on_engine (aes true kek s.1 b);
         let '(msb, lsb) := r in
         write_slice (off i) 8 (to_le_bytes 8 lsb);;
         mret (Z.lxor msb (swap_bytes64 (Z.of_nat (n * j + (i + 1))))))
    (buf_of s) (Ok (wrap_step n j s i).1) (buf_of (wrap_step n j s i)).
Proof using Hk Hkb Hoff.
  intros Hi (Ha & Hl & HR). unfold wrap_step, counter.
  eapply bruns_bind; [apply bruns_buffer|]. eapply bruns_bind.
  { apply bruns_lift_ok. rewrite Hoff. apply read_flat; [by apply nth_lookup_lt; lia|].
    by apply nth_u64. }
  eapply bruns_bind; [apply bruns_on_engine, runs_aes|].
  destruct (E2 s.1 (nth i s.2 0)) as [msb lsb].
  eapply bruns_bind; [|apply bruns_mret]. apply bruns_write. rewrite Hoff. unfold buf_of; simpl.
  apply write_flat. lia.
Qed.

Lemma unwrap_body_ok j s i :
  (i < n)%nat → state_ok n s →
  bruns (output ← buffer; b ← lift (read_u64 output (off i));
         r ← on_engine (aes false kek
                (Z.lxor s.1 (swap_bytes64 (Z.of_nat (n * j + (i + 1))))) b);
         let '(msb, lsb) := r in
         write_slice (off i) 8 (to_le_bytes 8 lsb);; mret msb)
    (buf_of s) (Ok (unwrap_step n j s i).1) (buf_of (unwrap_step n j s i)).
Proof using Hk Hkb Hoff.
  intros Hi (Ha & Hl & HR). unfold unwrap_step, counter.
  eapply bruns_bind; [apply bruns_buffer|]. eapply bruns_bind.
  { apply bruns_lift_ok. rewrite Hoff. apply read_flat; [by apply nth_lookup_lt; lia|].
    by apply nth_u64. }
  eapply bruns_bind; [apply bruns_on_engine, runs_aes|].
  destruct (D2 _ _) as [msb lsb].
  eapply bruns_bind; [|apply bruns_mret]. apply bruns_write. rewrite Hoff. unfold buf_of; simpl.
  apply write_flat. lia.
Qed.

Lemma wrap_loop_ok s :
  state_ok n s →
  state_ok n (wrap_rounds n s) ∧
  bruns (for_loop (λ a j, for_loop (λ a i,
           output ← buffer; b ← lift (read_u64 output (off i));
           r ← on_engine (aes true kek a b);
           let '(msb, lsb) := r in
           write_slice (off i) 8 (to_le_bytes 8 lsb);;
           mret (Z.lxor msb (swap_bytes64 (Z.of_nat (n * j + (i + 1)))))) a (seq 0 n))
         s.1 (seq 0 6))
    (buf_of s) (Ok (wrap_rounds n s).1) (buf_of (wrap_rounds n s)).
Proof using Hk Hkb Hoff.
  intros Hs. apply (bruns_for _ _ fst buf_of (state_ok n)); [|done]. intros s1 j _ Hs1.
  apply (bruns_for _ _ fst buf_of (state_ok n)); [|done]. intros s2 i Hi Hs2.
  apply elem_of_seq in Hi. split; [by apply wrap_step_ok; [lia|]|].
  cbn beta. apply wrap_body_ok; [lia|exact Hs2].
Qed.

Lemma unwrap_loop_ok s :
  state_ok n s →
  state_ok n (unwrap_rounds n s) ∧
  bruns (for_loop (λ a j, for_loop (λ a i,
           output ← buffer; b ← lift (read_u64 output (off i));
           r ← on_engine (aes false kek
                  (Z.lxor a (swap_bytes64 (Z.of_nat (n * j + (i + 1))))) b);
           let '(msb, lsb) := r in
           write_slice (off i) 8 (to_le_bytes 8 lsb);; mret msb) a (rev (seq 0 n)))
         s.1 (rev (seq 0 6)))
    (buf_of s) (Ok (unwrap_rounds n s).1) (buf_of (unwrap_rounds n s)).
Proof using Hk Hkb Hoff.
  intros Hs. apply (bruns_for _ _ fst buf_of (state_ok n)); [|done]. intros s1 j _ Hs1.
  apply (bruns_for _ _ fst buf_of (state_ok n)); [|done]. intros s2 i Hi Hs2.
  apply list_elem_of_In, in_rev, list_elem_of_In, elem_of_seq in Hi.
  split; [by apply unwrap_step_ok; [lia|]|]. cbn beta. apply unwrap_body_ok; [lia|exact Hs2].
Qed.

End reference.

(** ** The integrity value *)

Lemma from_le_bytes_app l1 l2 :
  from_le_bytes (l1 ++ l2) =
  from_le_bytes l1 + 2 ^ (8 * Z.of_nat (length l1)) * from_le_bytes l2.
Proof.
  induction l1 as [|b l1 IH]; [simpl; lia|].
  cbn [app from_le_bytes length]. rewrite IH.
  replace (8 * Z.of_nat (S (length l1))) with (8 + 8 * Z.of_nat (length l1)) by lia.
  rewrite Z.pow_add_r by lia. change (2 ^ 8) with 256. lia.
Qed.

Lemma swap_bytes32_ok v : uint_range 32 (swap_bytes32 v).
Proof.
  unfold swap_bytes32, from_be_bytes.
  assert (bytes (rev (to_le_bytes 4 v))) as Hb by (apply Forall_rev, to_le_bytes_range).
  pose proof (from_le_bytes_range _ Hb) as Hr. by rewrite length_rev, length_to_le_bytes in Hr.
Qed.

Lemma swap_bytes32_invol v : uint_range 32 v → swap_bytes32 (swap_bytes32 v) = v.
Proof.
  intros Hv. unfold swap_bytes32, from_be_bytes.
  rewrite (to_from_le_bytes' 4).
  - rewrite rev_involutive. by apply (from_to_le_bytes 4).
  - by rewrite length_rev, length_to_le_bytes.
  - apply Forall_rev, to_le_bytes_range.
Qed.

(** [aiv] of [key_wrap]: the constant in the low word, the length above. *)
Definition padded_aiv (m : nat) : Z := swap_bytes64 (Z.lor PADDED_UPPER_AIV (Z.of_nat m)).

Lemma padded_aiv_parts m :
  Z.of_nat m < 2 ^ 32 →
  padded_aiv m = 0xA65959A6 + 2 ^ 32 * swap_bytes32 (Z.of_nat m).
Proof.
  intros Hm. unfold padded_aiv, swap_bytes64, from_be_bytes.
  assert (Z.lor PADDED_UPPER_AIV (Z.of_nat m) =
          from_le_bytes (to_le_bytes 4 (Z.of_nat m) ++ [0xA6; 0x59; 0x59; 0xA6])) as ->.
  { rewrite from_le_bytes_app, length_to_le_bytes.
    rewrite (from_to_le_bytes 4) by (split; lia).
    assert (Z.land PADDED_UPPER_AIV (Z.of_nat m) = 0) as Hland.
    { apply Z.bits_inj'. intros i Hi. rewrite Z.land_spec, Z.bits_0.
      destruct (decide (i < 32)).
      - change PADDED_UPPER_AIV with (Z.shiftl 0xA65959A6 32).
        by rewrite Z.shiftl_spec_low.
      - rewrite (testbit_above 32 (Z.of_nat m)) by (lia || (split; lia)). apply andb_false_r. }
    pose proof (Z.add_lor_land PADDED_UPPER_AIV (Z.of_nat m)) as Hadd. rewrite Hland in Hadd.
    unfold PADDED_UPPER_AIV in *. cbn [from_le_bytes]. change (8 * Z.of_nat 4) with 32. lia. }
  rewrite (to_from_le_bytes' 8).
  - rewrite rev_app_distr, from_le_bytes_app. done.
  - by rewrite length_app, length_to_le_bytes.
  - apply Forall_app_2; [apply to_le_bytes_range|]. unfold bytes.
    repeat constructor; done.
Qed.

Lemma padded_aiv_fields m :
  Z.of_nat m < 2 ^ 32 →
  Z.land (padded_aiv m) 0xffffffff = 0xA65959A6 ∧
  swap_bytes32 (wrap 32 (Z.shiftr (padded_aiv m) 32)) = Z.of_nat m.
Proof.
  intros Hm. rewrite padded_aiv_parts by done.
  pose proof (swap_bytes32_ok (Z.of_nat m)) as Hs. split.
  - change 0xffffffff with (Z.ones 32). rewrite Z.land_ones by lia.
    rewrite Z.mul_comm, Z.mod_add by lia. done.
  - rewrite Z.shiftr_div_pow2, Z.mul_comm, Z.div_add by lia.
    change (0xA65959A6 / 2 ^ 32) with 0. rewrite Z.add_0_l, wrap_small by done.
    apply swap_bytes32_invol. split; lia.
Qed.

Lemma foldl_lor_zeros k : foldl Z.lor 0 (replicate k 0) = 0.
Proof. induction k; [done|]. simpl. done. Qed.

(** A correctly padded key passes the check with its own length. *)
Lemma check_aiv_padded (key : list Z) n :
  (0 < n)%nat → (8 * (n - 1) < length key ≤ 8 * n)%nat → 8 * Z.of_nat n < 2 ^ 32 →
  check_aiv (key ++ replicate (8 * n - length key) 0) (padded_aiv (length key)) =
  Ok (Length (length key)).
Proof.
  intros Hn Hl Hb. destruct (padded_aiv_fields (length key)) as [H1 H2]; [lia|].
  unfold check_aiv. rewrite length_app, length_replicate.
  replace (length key + (8 * n - length key))%nat with (n * 8)%nat by lia.
  rewrite Nat.Div0.mod_mul, decide_False by lia.
  rewrite (decide_False (P := padded_aiv _ = _)); [|by intros E; rewrite E in H1].
  rewrite H1, decide_False by (intros E; by apply E).
  rewrite Nat.div_mul by lia. rewrite H2.
  rewrite (wrap_small 32 (Z.of_nat n - 1)) by (split; lia).
  rewrite !wrap_small by (split; lia). rewrite decide_False by lia. rewrite Nat2Z.id.
  unfold slice. rewrite decide_True by (rewrite length_app, length_replicate; lia).
  unfold mbind, outcome_bind. rewrite drop_app_length.
  rewrite take_ge by (rewrite length_replicate; lia).
  by rewrite foldl_lor_zeros.
Qed.

(** The check accepts only lengths inside the output, and its reads stay
    inside it. *)
Lemma check_aiv_mli (output : list Z) aiv :
  swap_bytes32 (wrap 32 (Z.shiftr aiv 32)) ≤ wrap 32 (8 * Z.of_nat (length output / 8)) →
  (Z.to_nat (swap_bytes32 (wrap 32 (Z.shiftr aiv 32))) ≤ length output)%nat.
Proof.
  intros Hle. assert (wrap 32 (8 * Z.of_nat (length output / 8)) ≤ 8 * Z.of_nat (length output / 8)).
  { unfold wrap. apply Z.mod_le; lia. }
  pose proof (Nat.div_mod_eq (length output) 8). pose proof (swap_bytes32_ok (wrap 32 (Z.shiftr aiv 32))) as [? _].
  lia.
Qed.

Lemma check_aiv_bound output aiv size :
  check_aiv output aiv = Ok (Length size) → (size ≤ length output)%nat.
Proof.
  unfold check_aiv. repeat case_decide; try done. intros Hc.
  apply outcome_bind_Ok in Hc as (rest & _ & Hc). case_match; simplify_eq.
  apply check_aiv_mli. lia.
Qed.

Lemma check_aiv_no_panic output aiv : check_aiv output aiv ≠ Panic.
Proof.
  unfold check_aiv. repeat case_decide; try done. unfold slice.
  pose proof (check_aiv_mli output aiv) as Hle.
  rewrite decide_True by lia. unfold mbind, outcome_bind. by case_match.
Qed.

(** ** The functions, run to completion *)

Section functions.
Context `{SyncAesEcb} (kek : list Z) (Hk : key_len_ok kek) (Hkb : bytes kek).

Lemma split_output (output : list Z) n :
  (n * 8 + 8 ≤ length output)%nat →
  ∃ h m t, output = h ++ m ++ t ∧ length h = 8%nat ∧ length m = (n * 8)%nat ∧
           t = drop (n * 8 + 8) output.
Proof.
  intros Hl. exists (take 8 output), (take (n * 8) (drop 8 output)), (drop (n * 8 + 8) output).
  split_and!; [|rewrite length_take; lia|rewrite length_take, length_drop; lia|done].
  replace (n * 8 + 8)%nat with (8 + n * 8)%nat by lia. rewrite <-drop_drop.
  by rewrite take_drop, take_drop.
Qed.

Lemma flat_len_mod R : (length (flat R) mod 8 = 0)%nat.
Proof. rewrite length_flat. apply Nat.Div0.mod_mul. Qed.

Lemma flat_len_div R : (length (flat R) / 8)%nat = length R.
Proof. rewrite length_flat. by apply Nat.div_mul. Qed.

Lemma base_key_wrap_ok R aiv output :
  Forall u64 R → u64 aiv → (length R * 8 + 8 ≤ length output)%nat →
  let s := wrap_rounds kek (length R) (aiv, R) in
  bruns (base_key_wrap kek (flat R) aiv) output (Ok tt)
    (flat (s.1 :: s.2) ++ drop (length R * 8 + 8) output).
Proof using Hk Hkb.
  intros HR Ha Hl s.
  destruct (split_output output (length R) Hl) as (h & m & t & E & Hh & Hm & Ht).
  unfold base_key_wrap.
  eapply bruns_bind; [apply bruns_unless, bool_decide_eq_true_2, flat_len_mod|].
  eapply bruns_bind; [apply bruns_buffer|].
  eapply bruns_bind; [apply bruns_unless, bool_decide_eq_true_2; rewrite length_flat; lia|].
  cbv zeta. rewrite flat_len_div.
  eapply bruns_bind.
  { apply bruns_lift_ok. rewrite <-(app_nil_r (flat R)) at 1. apply (slice_middle []); [done|].
    apply length_flat. }
  eapply bruns_bind.
  { apply bruns_write. rewrite E. apply copy_middle; [done..|]. apply length_flat. }
  destruct (wrap_loop_ok kek Hk Hkb h t (λ i, ((i + 1) * 8)%nat) (length R)
              ltac:(intros; cbn beta; rewrite Hh; lia) (aiv, R)) as [Hs Hloop]; [done|].
  eapply bruns_bind; [exact Hloop|]. fold s. rewrite <-Ht.
  apply bruns_write. unfold flat at 2. cbn [fmap list_fmap concat]. rewrite <-app_assoc.
  apply (copy_middle []); [done..|]. by rewrite length_to_le_bytes.
Qed.

Lemma base_key_unwrap_ok a R output :
  Forall u64 (a :: R) → length output = (length R * 8)%nat →
  let s := unwrap_rounds kek (length R) (a, R) in
  bruns (base_key_unwrap kek (flat (a :: R))) output (check_aiv (flat s.2) s.1) (flat s.2).
Proof using Hk Hkb.
  intros [Ha HR]%list.Forall_cons Hl s. unfold base_key_unwrap.
  eapply bruns_bind; [apply bruns_unless, bool_decide_eq_true_2, flat_len_mod|].
  eapply bruns_bind; [apply bruns_buffer|].
  eapply bruns_bind.
  { apply bruns_unless, bool_decide_eq_true_2. rewrite length_flat. simpl. lia. }
  cbv zeta. rewrite flat_len_div. cbn [length]. rewrite Nat.sub_succ, Nat.sub_0_r.
  eapply bruns_bind.
  { apply bruns_lift_ok. rewrite <-(app_nil_r (flat (a :: R))).
    by apply (read_flat [] (a :: R) [] 0). }
  eapply bruns_bind.
  { apply bruns_lift_ok. unfold flat. cbn [fmap list_fmap concat]. fold (flat R).
    rewrite <-(app_nil_r (flat R)). apply slice_middle; [apply length_to_le_bytes|apply length_flat]. }
  eapply bruns_bind.
  { apply bruns_write. rewrite <-(app_nil_r output).
    apply (copy_middle []); [done|done|apply length_flat]. }
  destruct (unwrap_loop_ok kek Hk Hkb [] [] (λ i, (i * 8)%nat) (length R)
              ltac:(done) (a, R)) as [Hs Hloop]; [done|].
  eapply bruns_bind; [exact Hloop|]. cbn [app]. fold s. rewrite app_nil_r.
  eapply bruns_bind; [apply bruns_buffer|]. apply bruns_lift.
Qed.

Lemma base_key_unwrap_inplace_ok a R :
  Forall u64 (a :: R) →
  let s := unwrap_rounds kek (length R) (a, R) in
  bruns (base_key_unwrap_inplace kek) (flat (a :: R))
    ((λ padding, (padding, (8, length R * 8 + 8)%nat)) <$> check_aiv (flat s.2) s.1)
    (to_le_bytes 8 a ++ flat s.2).
Proof using Hk Hkb.
  intros [Ha HR]%list.Forall_cons s. unfold base_key_unwrap_inplace.
  eapply bruns_bind; [apply bruns_buffer|].
  eapply bruns_bind; [apply bruns_unless, bool_decide_eq_true_2, flat_len_mod|].
  cbv zeta. rewrite flat_len_div. cbn [length]. rewrite Nat.sub_succ, Nat.sub_0_r.
  eapply bruns_bind.
  { apply bruns_lift_ok. rewrite <-(app_nil_r (flat (a :: R))).
    by apply (read_flat [] (a :: R) [] 0). }
  destruct (unwrap_loop_ok kek Hk Hkb (to_le_bytes 8 a) [] (λ i, ((i + 1) * 8)%nat) (length R)
              ltac:(intros; cbn beta; rewrite length_to_le_bytes; lia) (a, R)) as [Hs Hloop]; [done|].
  fold s in Hs, Hloop. destruct Hs as (_ & Hlen & _).
  unfold flat at 1. cbn [fmap list_fmap concat]. fold (flat R). cbn [snd] in Hloop.
  rewrite !app_nil_r in Hloop.
  eapply bruns_bind; [exact Hloop|].
  eapply bruns_bind; [apply bruns_buffer|].
  eapply bruns_bind.
  { apply bruns_lift_ok. rewrite <-(app_nil_r (to_le_bytes 8 a ++ flat s.2)) at 1.
    rewrite <-app_assoc. apply slice_middle; [apply length_to_le_bytes|].
    rewrite length_app, length_to_le_bytes. lia. }
  rewrite length_app, length_to_le_bytes, length_flat, Hlen.
  rewrite Nat.add_comm.
  replace (_ <$> check_aiv (flat s.2) s.1)
    with (padding ← check_aiv (flat s.2) s.1; Ok (E:=SoftAesErr) (padding, (8, length R * 8 + 8)%nat))
    by (by destruct (check_aiv (flat s.2) s.1)).
  eapply bruns_bind_pure; [apply bruns_lift|]. intros p. apply bruns_mret.
Qed.

(** The plaintext padded with zeros, as the number of semiblocks [n]. *)
Definition semiblocks (m : nat) : nat := ((m + 7) / 8)%nat.
Definition padded (input : list Z) : list Z :=
  input ++ replicate (8 * semiblocks (length input) - length input) 0.

Lemma semiblocks_spec m : (0 < m → 8 * (semiblocks m - 1) < m ≤ 8 * semiblocks m ∧ 0 < semiblocks m)%nat.
Proof.
  unfold semiblocks. intros Hm. pose proof (Nat.div_mod_eq (m + 7) 8).
  pose proof (Nat.mod_upper_bound (m + 7) 8). lia.
Qed.

Lemma semiblocks_mod m :
  (0 < m)%nat →
  if decide (m mod 8 = 0)%nat then (8 * semiblocks m)%nat = m
  else ((m / 8 + 1) * 8)%nat = (8 * semiblocks m)%nat.
Proof.
  intros Hm. destruct (semiblocks_spec m Hm) as [H1 H2].
  pose proof (Nat.div_mod_eq m 8). pose proof (Nat.mod_upper_bound m 8). case_decide; lia.
Qed.

Lemma padded_words input :
  bytes input → (0 < length input)%nat →
  ∃ R, padded input = flat R ∧ length R = semiblocks (length input) ∧ Forall u64 R.
Proof.
  intros Hb Hm. destruct (semiblocks_spec _ Hm) as [H1 H2].
  apply flat_surj.
  - unfold padded. rewrite length_app, length_replicate. lia.
  - apply Forall_app_2; [done|]. by apply Forall_replicate.
Qed.

Lemma copy_padded input r :
  (length input ≤ r)%nat →
  copy_from_slice (replicate r 0) 0 (length input) input =
  Ok (E:=SoftAesErr) (input ++ replicate (r - length input) 0).
Proof.
  intros Hr. unfold copy_from_slice. rewrite length_replicate, decide_True by (split; [lia|done]).
  cbn [take app Nat.add]. by rewrite drop_replicate.
Qed.

(** The integrity value and the words of the plaintext. *)
Definition wrapped_words (input : list Z) (R : list Z) : list Z :=
  if decide (length input < 8)%nat
  then let '(c0, c1) := E2 kek (padded_aiv (length input)) (nth 0 R 0) in [c0; c1]
  else let s := wrap_rounds kek (length R) (padded_aiv (length input), R) in s.1 :: s.2.

Lemma padded_aiv_u64 m : u64 (padded_aiv m).
Proof. apply swap_bytes64_ok. Qed.

Lemma key_wrap_ok input R output :
  bytes input → (0 < length input)%nat → length input ≠ 8%nat →
  padded input = flat R → length R = semiblocks (length input) → Forall u64 R →
  (length R * 8 + 8 ≤ length output)%nat →
  bruns (key_wrap kek input) output (Ok tt)
    (flat (wrapped_words input R) ++ drop (length R * 8 + 8) output).
Proof using Hk Hkb.
  intros Hb Hm Hm8 Hp HRl HR Hl. destruct (semiblocks_spec _ Hm) as [H1 H2].
  pose proof (semiblocks_mod _ Hm) as Hmod. rewrite HRl in Hl.
  unfold key_wrap. eapply bruns_bind; [by apply bruns_unless, bool_decide_eq_true_2|].
  eapply bruns_bind; [apply bruns_buffer|].
  eapply bruns_bind; [apply bruns_unless, bool_decide_eq_true_2; lia|]. cbv zeta.
  fold (padded_aiv (length input)). unfold wrapped_words.
  destruct (decide (length input mod 8 = 0)%nat) as [E|E].
  - rewrite decide_False by lia.
    replace input with (flat R) at 1
      by (rewrite <-Hp; unfold padded; rewrite Hmod, Nat.sub_diag; apply app_nil_r).
    apply base_key_wrap_ok; [done|apply padded_aiv_u64|lia].
  - eapply bruns_bind; [by apply bruns_lift_ok, copy_padded; lia|].
    rewrite Hmod. fold (padded input). rewrite Hp, length_flat, HRl.
    destruct (decide (length input < 8)%nat) as [Hs|Hs].
    + rewrite decide_True by lia. rewrite <-HRl.
      destruct R as [|p [|? ?]]; simpl in HRl; [lia| |lia].
      eapply bruns_bind.
      { apply bruns_lift_ok. rewrite <-(app_nil_r (flat [p])).
        apply (read_flat [] [p] [] 0); [done|]. by inversion HR. }
      eapply bruns_bind; [by apply bruns_on_engine, runs_aes|]. cbn [nth].
      destruct (E2 kek _ p) as [c0 c1].
      destruct (split_output output 1) as (h & m & t & Eo & Hh & Hm1 & Ht); [simpl; lia|].
      eapply bruns_bind.
      { apply bruns_write. rewrite Eo. apply (copy_middle []); [done..|]. apply length_to_le_bytes. }
      change (length [p] * 8 + 8)%nat with (1 * 8 + 8)%nat. rewrite <-Ht.
      apply bruns_write. unfold flat. cbn [fmap list_fmap concat app].
      rewrite app_nil_r, <-app_assoc.
      apply copy_middle; [apply length_to_le_bytes|done|apply length_to_le_bytes].
    + rewrite decide_False by lia. rewrite <-HRl in *.
      apply base_key_wrap_ok; [done|apply padded_aiv_u64|lia].
Qed.

Lemma check_padded input R :
  (0 < length input)%nat → 8 * Z.of_nat (semiblocks (length input)) < 2 ^ 32 →
  padded input = flat R →
  check_aiv (flat R) (padded_aiv (length input)) = Ok (Length (length input)).
Proof.
  intros Hm Hb <-. destruct (semiblocks_spec _ Hm) as [H1 H2].
  apply check_aiv_padded; (done || lia).
Qed.

Lemma padded_prefix input : take (length input) (padded input) = input.
Proof. apply take_app_length. Qed.

(** The sixteen-byte case of both unwrapping functions. *)
Lemma unwrap_pair c0 c1 a p :
  u64 c0 → u64 c1 → D2 kek c0 c1 = (a, p) →
  bruns (key_unwrap_inplace kek) (flat [c0; c1])
    (padding ← check_aiv (flat [p]) a;
     match padding with NoPadding => Err UnpaddedAiv | Length size => Ok (0, size)%nat end)
    (flat [p; c1]) ∧
  ∀ out, length out = 8%nat →
  bruns (key_unwrap kek (flat [c0; c1])) out
    (padding ← check_aiv (flat [p]) a;
     match padding with NoPadding => Err UnpaddedAiv | Length size => Ok size end)
    (flat [p]).
Proof using Hk Hkb.
  intros H0 H1 HD. assert (length (flat [c0; c1]) = 16%nat) as H16 by (by rewrite length_flat).
  assert (read_u64 (flat [c0; c1]) 0 = Ok c0) as R0.
  { rewrite <-(app_nil_r (flat [c0; c1])). by apply (read_flat [] [c0; c1] [] 0). }
  assert (read_u64 (flat [c0; c1]) 8 = Ok c1) as R1.
  { rewrite <-(app_nil_r (flat [c0; c1])). by apply (read_flat [] [c0; c1] [] 1). }
  split.
  - unfold key_unwrap_inplace. eapply bruns_bind; [apply bruns_buffer|].
    eapply bruns_bind; [apply bruns_unless, bool_decide_eq_true_2; lia|].
    rewrite decide_True by done.
    eapply bruns_bind; [by apply bruns_lift_ok|]. eapply bruns_bind; [by apply bruns_lift_ok|].
    eapply bruns_bind; [by apply bruns_on_engine, runs_aes|]. cbn iota. rewrite HD.
    eapply bruns_bind.
    { apply bruns_write. rewrite <-(app_nil_r (flat [c0; c1])).
      apply (write_flat [] [c0; c1] [] 0). simpl. lia. }
    cbn [app]. rewrite app_nil_r. change (<[0%nat:=p]> [c0; c1]) with [p; c1].
    eapply bruns_bind; [apply bruns_buffer|]. eapply bruns_bind.
    { apply bruns_lift_ok. change (flat [p; c1]) with ([] ++ flat [p] ++ flat [c1]).
      by apply slice_middle; [|rewrite length_flat]. }
    eapply bruns_bind_pure; [apply bruns_lift|].
    intros [|size]; [apply bruns_throw|apply bruns_mret].
  - intros out Hout. unfold key_unwrap.
    eapply bruns_bind; [apply bruns_unless, bool_decide_eq_true_2; lia|].
    eapply bruns_bind; [apply bruns_buffer|].
    eapply bruns_bind; [apply bruns_unless, bool_decide_eq_true_2; lia|].
    rewrite decide_True by done.
    eapply bruns_bind; [by apply bruns_lift_ok|]. eapply bruns_bind; [by apply bruns_lift_ok|].
    eapply bruns_bind; [by apply bruns_on_engine, runs_aes|]. cbn iota. rewrite HD.
    eapply bruns_bind.
    { apply bruns_write. rewrite <-(app_nil_r out).
      apply (copy_middle []); [done..|]. apply length_to_le_bytes. }
    cbn [app]. eapply bruns_bind; [apply bruns_buffer|].
    change (to_le_bytes 8 p ++ []) with (flat [p]).
    eapply bruns_bind_pure; [apply bruns_lift|].
    intros [|size]; [apply bruns_throw|apply bruns_mret].
Qed.

(** The longer inputs. *)
Lemma unwrap_many a R :
  Forall u64 (a :: R) → (2 ≤ length R)%nat →
  let s := unwrap_rounds kek (length R) (a, R) in
  bruns (key_unwrap_inplace kek) (flat (a :: R))
    (padding ← check_aiv (flat s.2) s.1;
     match padding with NoPadding => Err UnpaddedAiv | Length l => Ok (8, 8 + l)%nat end)
    (to_le_bytes 8 a ++ flat s.2) ∧
  ∀ out, (length R * 8 ≤ length out)%nat →
  bruns (key_unwrap kek (flat (a :: R))) out
    (padding ← check_aiv (flat s.2) s.1;
     match padding with NoPadding => Err UnpaddedAiv | Length plen => Ok plen end)
    (flat s.2 ++ drop (length R * 8) out).
Proof using Hk Hkb.
  intros HR Hl s. assert (length (flat (a :: R)) = (length R * 8 + 8)%nat) as Hlen.
  { rewrite length_flat. simpl. lia. }
  split.
  - unfold key_unwrap_inplace. eapply bruns_bind; [apply bruns_buffer|].
    eapply bruns_bind; [apply bruns_unless, bool_decide_eq_true_2; lia|].
    rewrite decide_False by lia.
    pose proof (base_key_unwrap_inplace_ok a R HR) as Hbase. cbv zeta in Hbase. fold s in Hbase.
    replace (check_aiv (flat s.2) s.1 ≫= _)
      with (((λ padding, (padding, (8, length R * 8 + 8)%nat)) <$> check_aiv (flat s.2) s.1) ≫=
              λ r, match r with (NoPadding, _) => Err UnpaddedAiv
                   | (Length l, (start, _)) => Ok (start, start + l)%nat end)
      by (by destruct (check_aiv (flat s.2) s.1)).
    eapply bruns_bind_pure; [exact Hbase|].
    intros [[|l] [start stop]]; [apply bruns_throw|apply bruns_mret].
  - intros out Hout. unfold key_unwrap.
    eapply bruns_bind; [apply bruns_unless, bool_decide_eq_true_2; lia|].
    eapply bruns_bind; [apply bruns_buffer|].
    eapply bruns_bind; [apply bruns_unless, bool_decide_eq_true_2; lia|].
    rewrite decide_False by lia. rewrite Hlen, Nat.add_sub.
    assert (bruns (with_prefix (length R * 8) (base_key_unwrap kek (flat (a :: R)))) out
              (check_aiv (flat s.2) s.1) (flat s.2 ++ drop (length R * 8) out)) as Hbase.
    { intros e He. unfold with_prefix. rewrite decide_True by lia.
      destruct (base_key_unwrap_ok a R (take (length R * 8) out) HR) with (e := e)
        as (e' & He' & Hok); [rewrite length_take; lia|done|].
      rewrite He'. by exists e'. }
    eapply bruns_bind_pure; [exact Hbase|].
    intros [|size]; [apply bruns_throw|apply bruns_mret].
Qed.

End functions.

(** ** Inputs the functions refuse *)

Section refusals.
Context `{SyncAesEcb}.

Lemma runs_aes_bad_kek kek enc a b :
  ¬ key_len_ok kek → runs (aes enc kek a b) (Err InvalidKekLength).
Proof.
  intros Hk. unfold aes.
  assert (∀ f, ecb_result f kek (to_le_bytes 8 a ++ to_le_bytes 8 b) = Err InvalidKekLength) as Hr.
  { intros f. unfold ecb_result. rewrite length_app, !length_to_le_bytes.
    by rewrite decide_False, decide_False by auto. }
  assert (runs (if enc then encrypt kek (to_le_bytes 8 a ++ to_le_bytes 8 b)
                else decrypt kek (to_le_bytes 8 a ++ to_le_bytes 8 b)) (Err InvalidKekLength)) as H1.
  { destruct enc.
    - rewrite <-(Hr cipher). apply runs_encrypt.
    - rewrite <-(Hr decipher). apply runs_decrypt. }
  intros e He. destruct (H1 e He) as (e' & He' & Hok). exists e'. split; [|done].
  unfold mbind, M_bind. by rewrite He'.
Qed.

Lemma for_loop_err {A} (body : Z → A → BM Z) a x l buf er :
  bruns (body a x) buf (Err er) buf → bruns (for_loop body a (x :: l)) buf (Err er) buf.
Proof. intros Hb. simpl. by apply bruns_bind_err. Qed.

Lemma unwrap_inplace_bad_kek kek a R :
  ¬ key_len_ok kek → Forall u64 (a :: R) → (1 ≤ length R)%nat →
  bruns (key_unwrap_inplace kek) (flat (a :: R)) (Err InvalidKekLength) (flat (a :: R)).
Proof.
  intros Hk HR Hl. assert (length (flat (a :: R)) = (length R * 8 + 8)%nat) as Hlen.
  { rewrite length_flat. simpl. lia. }
  assert (read_u64 (flat (a :: R)) 0 = Ok a) as R0.
  { rewrite <-(app_nil_r (flat (a :: R))). apply (read_flat [] (a :: R) [] 0); [done|].
    by inversion HR. }
  unfold key_unwrap_inplace. eapply bruns_bind; [apply bruns_buffer|].
  eapply bruns_bind; [apply bruns_unless, bool_decide_eq_true_2; lia|].
  case_decide as E.
  - destruct R as [|b [|? ?]]; simpl in *; [lia| |lia].
    eapply bruns_bind; [by apply bruns_lift_ok|]. eapply bruns_bind.
    { apply bruns_lift_ok. rewrite <-(app_nil_r (flat [a; b])).
      apply (read_flat [] [a; b] [] 1); [done|]. inversion HR; by inversion select (Forall _ [b]). }
    by apply bruns_bind_err, bruns_on_engine, runs_aes_bad_kek.
  - apply bruns_bind_err. unfold base_key_unwrap_inplace.
    eapply bruns_bind; [apply bruns_buffer|].
    eapply bruns_bind; [apply bruns_unless, bool_decide_eq_true_2, flat_len_mod|].
    cbv zeta. rewrite flat_len_div. cbn [length]. rewrite Nat.sub_succ, Nat.sub_0_r.
    eapply bruns_bind; [by apply bruns_lift_ok|]. apply bruns_bind_err.
    apply for_loop_err. destruct (rev (seq 0 (length R))) as [|i l] eqn:Er.
    { apply (f_equal length) in Er. rewrite length_rev, length_seq in Er. simpl in Er. lia. }
    assert (i < length R)%nat as Hi.
    { assert (i ∈ rev (seq 0 (length R))) as Hin by (rewrite Er; by left).
      apply list_elem_of_In, in_rev, list_elem_of_In, elem_of_seq in Hin. lia. }
    apply for_loop_err. eapply bruns_bind; [apply bruns_buffer|]. eapply bruns_bind.
    { apply bruns_lift_ok. change (flat (a :: R)) with (to_le_bytes 8 a ++ flat R).
      rewrite <-(app_nil_r (flat R)).
      replace ((i + 1) * 8)%nat with (length (to_le_bytes 8 a) + i * 8)%nat
        by (rewrite length_to_le_bytes; lia).
      apply read_flat; [by apply nth_lookup_lt|]. apply nth_u64. by inversion HR. }
    by apply bruns_bind_err, bruns_on_engine, runs_aes_bad_kek.
Qed.

Lemma unwrap_unaligned kek input :
  (16 ≤ length input)%nat → (length input mod 8 ≠ 0)%nat →
  bruns (key_unwrap_inplace kek) input (Err UnalignedInputBufferLength) input ∧
  ∀ out, (length input - 8 ≤ length out)%nat →
  bruns (key_unwrap kek input) out (Err UnalignedInputBufferLength) out.
Proof.
  intros Hl Hm. assert (length input ≠ 16%nat) as H16 by (intros E; by rewrite E in Hm).
  split.
  - unfold key_unwrap_inplace. eapply bruns_bind; [apply bruns_buffer|].
    eapply bruns_bind; [by apply bruns_unless, bool_decide_eq_true_2|].
    rewrite decide_False by done. apply bruns_bind_err. unfold base_key_unwrap_inplace.
    eapply bruns_bind; [apply bruns_buffer|].
    by apply bruns_bind_err, bruns_unless_err, bool_decide_eq_false_2.
  - intros out Hout. unfold key_unwrap.
    eapply bruns_bind; [by apply bruns_unless, bool_decide_eq_true_2|].
    eapply bruns_bind; [apply bruns_buffer|].
    eapply bruns_bind; [apply bruns_unless, bool_decide_eq_true_2; lia|].
    rewrite decide_False by done. apply bruns_bind_err. intros e He. unfold with_prefix.
    rewrite decide_True by done.
    assert (∀ b, bruns (base_key_unwrap kek input) b (Err UnalignedInputBufferLength) b) as Hb.
    { intros b. by apply bruns_bind_err, bruns_unless_err, bool_decide_eq_false_2. }
    destruct (Hb (take (length input - 8) out) e He) as (e' & -> & ?).
    exists e'. by rewrite take_drop.
Qed.

End refusals.

(** ** Theorems *)

(** Words of a wrapped key. *)
Lemma words_of input :
  bytes input → (length input mod 8 = 0)%nat → (16 ≤ length input)%nat →
  ∃ a R, input = flat (a :: R) ∧ Forall u64 (a :: R) ∧
         length R = (length input / 8 - 1)%nat ∧ (1 ≤ length R)%nat.
Proof.
  intros Hb Hm Hl. pose proof (Nat.div_mod_eq (length input) 8).
  destruct (flat_surj (length input / 8) input) as ([|a R] & HR & HRl & HRu); [lia|done| |].
  - simpl in HRl. lia.
  - exists a, R. simpl in HRl. split_and!; [done..|lia|lia].
Qed.

(** C21: unwrapping inverts wrapping (RFC 5649).  For every key of one byte or
    more other than eight bytes, and any output buffer with room for the
    padded key and one semiblock, [key_wrap] succeeds and touches only that
    part of the buffer; [key_unwrap_inplace] of the wrapped bytes then reports
    a range that holds exactly the key, and [key_unwrap] into a buffer of the
    padded length returns the key's length with the key at its start. *)
Theorem key_wrap_roundtrip `{SyncAesEcb} (e : engine) (kek input output : list Z) :
  let n := semiblocks (length input) in
  engine_ok e → key_len_ok kek → bytes kek → bytes input →
  (0 < length input)%nat → length input ≠ 8%nat → 8 * Z.of_nat n < 2 ^ 32 →
  (n * 8 + 8 ≤ length output)%nat →
  ∃ e1 wrapped, engine_ok e1 ∧ length wrapped = (n * 8 + 8)%nat ∧
    key_wrap kek input (e, output) = (Ok tt, (e1, wrapped ++ drop (n * 8 + 8) output)) ∧
    (∃ e2 buf start, key_unwrap_inplace kek (e1, wrapped) =
        (Ok (start, start + length input)%nat, (e2, buf)) ∧
        take (length input) (drop start buf) = input) ∧
    (∀ out, length out = (n * 8)%nat →
      ∃ e2 buf, key_unwrap kek wrapped (e1, out) = (Ok (length input), (e2, buf)) ∧
        take (length input) buf = input).
Proof.
  intros n He Hk Hkb Hb Hm Hm8 Hn Hl. destruct (semiblocks_spec _ Hm) as [H1 H2].
  destruct (padded_words input Hb Hm) as (R & Hp & HRl & HR).
  destruct (key_wrap_ok kek Hk Hkb input R output Hb Hm Hm8 Hp HRl HR) with (e := e)
    as (e1 & Hw & He1); [unfold n in Hl; lia|done|].
  exists e1, (flat (wrapped_words kek input R)). unfold n. rewrite <-HRl. unfold wrapped_words in *.
  pose proof (check_padded input R Hm Hn Hp) as Hc.
  assert (take (length input) (flat R) = input) as Htake by (rewrite <-Hp; apply padded_prefix).
  destruct (decide (length input < 8)%nat) as [Hs|Hs].
  - destruct R as [|p [|? ?]]; simpl in HRl; [lia| |lia]. cbn [nth] in *.
    pose proof (E2_ok kek Hk Hkb (padded_aiv (length input)) p) as [Hc0 Hc1].
    pose proof (D2_E2 kek Hk Hkb (padded_aiv (length input)) p (padded_aiv_u64 _)
                  ltac:(by inversion HR)) as HD.
    destruct (E2 kek (padded_aiv (length input)) p) as [c0 c1]. cbn [fst snd] in *.
    destruct (unwrap_pair kek Hk Hkb c0 c1 _ _ Hc0 Hc1 HD) as [Hin Hout]. rewrite Hc in *.
    split_and!; [done|by rewrite length_flat|done| |].
    + destruct (Hin e1 He1) as (e2 & E2' & _). exists e2, (flat [p; c1]), 0%nat. split; [done|].
      rewrite drop_0. change (flat [p; c1]) with (flat [p] ++ flat [c1]).
      rewrite take_app_le by (rewrite length_flat; simpl; lia). done.
    + intros out Ho. destruct (Hout out Ho e1 He1) as (e2 & E2' & _). by exists e2, (flat [p]).
  - destruct (unwrap_wrap_rounds kek Hk Hkb (length R) (padded_aiv (length input), R))
      as [(Ha' & Hl' & HR') Hun].
    { split_and!; [apply padded_aiv_u64|done|done]. }
    destruct (wrap_rounds kek (length R) (padded_aiv (length input), R)) as [a' R'] eqn:Ew.
    cbn [fst snd] in *. rewrite <-Hl' in Hun.
    destruct (unwrap_many kek Hk Hkb a' R') as [Hin Hout]; [by constructor|lia|].
    rewrite Hun in Hin, Hout. cbn [fst snd] in Hin, Hout. rewrite Hc in *.
    split_and!; [done|rewrite length_flat; simpl; lia|done| |].
    + destruct (Hin e1 He1) as (e2 & E2' & _). exists e2, (to_le_bytes 8 a' ++ flat R), 8%nat.
      split; [done|]. rewrite drop_app_length' by (by rewrite length_to_le_bytes). done.
    + intros out Ho. destruct (Hout out ltac:(lia) e1 He1) as (e2 & E2' & _).
      eexists e2, _. split; [exact E2'|].
      rewrite take_app_le by (rewrite length_flat; lia). done.
Qed.

Lemma key_wrap_roundtrip_witness :
  ∃ e1 wrapped, length wrapped = 24%nat ∧
    @key_wrap softaes_ecb (replicate 16 7) (Z.of_nat <$> seq 0 9) (Engine.new, replicate 24 0) =
      (Ok tt, (e1, wrapped ++ drop 24 (replicate 24 0))).
Proof.
  destruct (@key_wrap_roundtrip softaes_ecb Engine.new (replicate 16 7) (Z.of_nat <$> seq 0 9) (replicate 24 0))
    as (e1 & w & _ & Hl & Hw & _).
  - exact Engine.new_ok.
  - by left.
  - by apply Forall_replicate.
  - apply (bool_decide_eq_true_1 (bytes _)). vm_compute. reflexivity.
  - vm_compute. lia.
  - vm_compute. lia.
  - vm_compute. reflexivity.
  - vm_compute. lia.
  - exists e1, w. split; [exact Hl|exact Hw].
Defined.

(** The two unwrapping functions agree on every input: with an output of
    the right size, [key_unwrap] and [key_unwrap_inplace] report the same
    error, or success with the same key bytes; neither panics. *)
Theorem unwrap_variants_agree `{SyncAesEcb} (e : engine) (kek input out : list Z) :
  engine_ok e → key_len_ok kek → bytes kek → bytes input →
  length out = (length input - 8)%nat →
  ∃ r1 e1 buf1 r2 e2 buf2,
    key_unwrap_inplace kek (e, input) = (r1, (e1, buf1)) ∧
    key_unwrap kek input (e, out) = (r2, (e2, buf2)) ∧
    match r1, r2 with
    | Ok (start, stop), Ok plen =>
        stop = (start + plen)%nat ∧ take plen (drop start buf1) = take plen buf2
    | Err er1, Err er2 => er1 = er2
    | _, _ => False
    end.
Proof.
  intros He Hk Hkb Hb Hl. destruct (decide (16 ≤ length input)%nat) as [H16|H16].
  2: { exists (Err InsufficientInputLength), e, input, (Err InsufficientInputLength), e, out.
       unfold key_unwrap_inplace, key_unwrap, mbind, M_bind, buffer, unless.
       by rewrite !bool_decide_eq_false_2 by done. }
  destruct (decide (length input mod 8 = 0)%nat) as [Hm|Hm].
  2: { destruct (unwrap_unaligned kek input H16 Hm) as [Hin Hout].
       destruct (Hin e He) as (e1 & E1 & _). destruct (Hout out ltac:(lia) e He) as (e2 & E2' & _).
       by eexists _, e1, _, _, e2, _. }
  destruct (words_of input Hb Hm H16) as (a & R & -> & HR & HRl & HR1).
  rewrite length_flat in Hl. simpl in Hl. destruct (decide (length R = 1%nat)) as [H1|H1].
  - destruct R as [|b [|? ?]]; simpl in H1; try lia.
    rewrite !list.Forall_cons in HR. destruct HR as (Ha & Hb' & _).
    destruct (D2 kek a b) as [v p] eqn:HD.
    destruct (unwrap_pair kek Hk Hkb a b v p Ha Hb' HD) as [Hin Hout].
    destruct (Hin e He) as (e1 & E1 & _). destruct (Hout out Hl e He) as (e2 & E2' & _).
    eexists _, e1, _, _, e2, _. split; [exact E1|]. split; [exact E2'|].
    destruct (check_aiv (flat [p]) v) as [[|size]|er|] eqn:Hc; cbn [mbind outcome_bind]; [done| |done|].
    + split; [done|]. rewrite drop_0. change (flat [p; b]) with (flat [p] ++ flat [b]).
      assert (size ≤ 8)%nat; [|rewrite take_app_le by (rewrite length_flat; simpl; lia); done].
      by apply check_aiv_bound in Hc.
    + by apply check_aiv_no_panic in Hc.
  - destruct (unwrap_many kek Hk Hkb a R HR) as [Hin Hout]; [lia|].
    destruct (Hin e He) as (e1 & E1 & _). destruct (Hout out ltac:(lia) e He) as (e2 & E2' & _).
    eexists _, e1, _, _, e2, _. split; [exact E1|]. split; [exact E2'|].
    destruct (unwrap_rounds kek (length R) (a, R)) as [v R']. cbn [fst snd].
    destruct (check_aiv (flat R') v) as [[|size]|er|] eqn:Hc; cbn [mbind outcome_bind]; [done| |done|].
    + split; [done|]. rewrite drop_app_length' by (by rewrite length_to_le_bytes).
      apply check_aiv_bound in Hc. rewrite take_app_le by lia. done.
    + by apply check_aiv_no_panic in Hc.
Qed.

Lemma unwrap_variants_agree_witness :
  let input := replicate 24 5 in
  ∃ r1 e1 buf1 r2 e2 buf2,
    @key_unwrap_inplace softaes_ecb (replicate 16 7) (Engine.new, input) = (r1, (e1, buf1)) ∧
    @key_unwrap softaes_ecb (replicate 16 7) input (Engine.new, replicate 16 0) = (r2, (e2, buf2)).
Proof.
  cbv zeta.
  destruct (@unwrap_variants_agree softaes_ecb Engine.new (replicate 16 7) (replicate 24 5)
              (replicate 16 0)) as (r1 & e1 & b1 & r2 & e2 & b2 & H1 & H2 & _).
  - exact Engine.new_ok.
  - by left.
  - by apply Forall_replicate.
  - by apply Forall_replicate.
  - reflexivity.
  - exists r1, e1, b1, r2, e2, b2. split; [exact H1|exact H2].
Defined.

(** Unwrapping untrusted input is total: for any key-encryption key and
    any input bytes, [key_unwrap_inplace] returns a range inside the buffer
    or an error and keeps the buffer's length; it never reads or writes out
    of range.  A key-encryption key of a wrong length is refused with
    [InvalidKekLength] and an input that is too short or not made of whole
    semiblocks with its own error, the buffer unchanged. *)
Theorem unwrap_inplace_total `{SyncAesEcb} (e : engine) (kek input : list Z) :
  engine_ok e → bytes kek → bytes input →
  ∃ r e1 buf, key_unwrap_inplace kek (e, input) = (r, (e1, buf)) ∧ engine_ok e1 ∧
    length buf = length input ∧
    match r with
    | Ok (start, stop) => (start ≤ stop ≤ length buf)%nat ∧ key_len_ok kek
    | Err _ => True
    | Panic => False
    end ∧
    ((length input < 16)%nat → r = Err InsufficientInputLength ∧ buf = input) ∧
    ((16 ≤ length input)%nat → (length input mod 8 ≠ 0)%nat →
       r = Err UnalignedInputBufferLength ∧ buf = input) ∧
    ((16 ≤ length input)%nat → (length input mod 8 = 0)%nat → ¬ key_len_ok kek →
       r = Err InvalidKekLength ∧ buf = input).
Proof.
  intros He Hkb Hb. destruct (decide (16 ≤ length input)%nat) as [H16|H16].
  2: { exists (Err InsufficientInputLength), e, input.
       unfold key_unwrap_inplace, mbind, M_bind, buffer, unless.
       rewrite bool_decide_eq_false_2 by done. split_and!; (done || intros; lia). }
  destruct (decide (length input mod 8 = 0)%nat) as [Hm|Hm].
  2: { destruct (proj1 (unwrap_unaligned kek input H16 Hm) e He) as (e1 & E1 & He1).
       eexists _, e1, _. split; [exact E1|]. split_and!; (done || intros; lia). }
  destruct (words_of input Hb Hm H16) as (a & R & -> & HR & HRl & HR1).
  destruct (decide (key_len_ok kek)) as [Hk|Hk].
  2: { destruct (unwrap_inplace_bad_kek kek a R Hk HR HR1 e He) as (e1 & E1 & He1).
       eexists _, e1, _. split; [exact E1|]. split_and!; (done || intros; lia). }
  rewrite length_flat in Hm |- *. cbn [length] in Hm |- *.
  destruct (decide (length R = 1%nat)) as [H1|H1].
  - destruct R as [|b [|? ?]]; simpl in H1; try lia.
    rewrite !list.Forall_cons in HR. destruct HR as (Ha & Hb' & _).
    destruct (D2 kek a b) as [v p] eqn:HD.
    destruct (unwrap_pair kek Hk Hkb a b v p Ha Hb' HD) as [Hin _].
    destruct (Hin e He) as (e1 & E1 & He1). eexists _, e1, _. split; [exact E1|].
    split_and!; [done|by rewrite length_flat| |intros; simpl in *; lia|by intros|by intros].
    destruct (check_aiv (flat [p]) v) as [[|size]|er|] eqn:Hc; cbn [mbind outcome_bind]; [done| |done|].
    + apply check_aiv_bound in Hc. rewrite length_flat in *. simpl in *. split; [lia|done].
    + by apply check_aiv_no_panic in Hc.
  - destruct (unwrap_many kek Hk Hkb a R HR) as [Hin _]; [lia|].
    destruct (Hin e He) as (e1 & E1 & He1). eexists _, e1, _. split; [exact E1|].
    destruct (unwrap_rounds_ok kek Hk Hkb (length R) (a, R)) as (_ & Hlen & _).
    { split_and!; [by inversion HR|done|by inversion HR]. }
    destruct (unwrap_rounds kek (length R) (a, R)) as [v R']. cbn [fst snd] in *.
    split_and!; [done| | |intros; lia|by intros|by intros].
    { rewrite length_app, length_to_le_bytes, length_flat. lia. }
    destruct (check_aiv (flat R') v) as [[|size]|er|] eqn:Hc; cbn [mbind outcome_bind]; [done| |done|].
    + apply check_aiv_bound in Hc. rewrite length_app, length_to_le_bytes. split; [lia|done].
    + by apply check_aiv_no_panic in Hc.
Qed.

Lemma unwrap_inplace_total_witness :
  ∃ r e1 buf, @key_unwrap_inplace softaes_ecb (replicate 5 7) (Engine.new, replicate 24 5) =
    (r, (e1, buf)) ∧ r = Err InvalidKekLength.
Proof.
  destruct (@unwrap_inplace_total softaes_ecb Engine.new (replicate 5 7) (replicate 24 5))
    as (r & e1 & b & H1 & _ & _ & _ & _ & _ & H2).
  - exact Engine.new_ok.
  - by apply Forall_replicate.
  - by apply Forall_replicate.
  - exists r, e1, b. split; [exact H1|]. apply H2; vm_compute; [lia|reflexivity|].
    intros [Hx|[Hx|Hx]]; discriminate Hx.
Defined.

(** The NIST vector of [aes_256_key_unwrap_self_test]: an eight-byte key. *)
Definition nist_kek : list Z :=
  [0x35; 0x17; 0xf0; 0xef; 0xa7; 0xf0; 0xc4; 0xd7; 0x4f; 0x91; 0xaf; 0x83; 0xec; 0xe5; 0xe7; 0x50;
   0x3b; 0xcc; 0x5a; 0xb8; 0x29; 0x07; 0xa6; 0xe4; 0xb7; 0xed; 0x34; 0xd8; 0x7b; 0x69; 0xab; 0x1d].
Definition nist_key : list Z := [0x89; 0x7e; 0x04; 0x56; 0xb2; 0x89; 0xad; 0x31].
Definition nist_wrapped : list Z :=
  [0x0b; 0x06; 0xa9; 0xb6; 0x35; 0xd5; 0x0c; 0xda; 0x9d; 0x42; 0x10; 0xcb; 0x3a; 0x71; 0xf9; 0x90].

(** An eight-byte key does not survive wrapping.  With AES, the published
    wrapping of the NIST key unwraps to it, in place and into an eight-byte
    output, but [key_wrap] of the same key produces other bytes, because the
    single-block case of RFC 5649 is taken only for keys that need padding,
    and unwrapping those bytes fails with [InvalidAivPadding]; and
    [key_unwrap] of the published wrapping into a longer output fails with
    [InvalidMli], because the length is checked against the whole output. *)
Theorem eight_byte_key_not_recovered :
  (run_code (key_unwrap_inplace nist_kek) nist_wrapped).1 = Ok (0, 8)%nat ∧
  run_code (key_unwrap nist_kek nist_wrapped) (replicate 8 0) = (Ok 8%nat, nist_key) ∧
  (let '(r, wrapped) := run_code (key_wrap nist_kek nist_key) (replicate 16 0) in
   r = Ok tt ∧ wrapped ≠ nist_wrapped ∧
   (run_code (key_unwrap_inplace nist_kek) wrapped).1 = Err InvalidAivPadding) ∧
  (run_code (key_unwrap nist_kek nist_wrapped) (replicate 16 0)).1 = Err InvalidMli.
Proof. vm_compute. by split_and!. Qed.
