(* ===== verification/GcmTag.v ===== *)
(** * GCM tag correction (drivers/crypto/softaes: tag_fix.rs, engine.rs)

    The DMA engine computes AES-GCM only over whole blocks, with the
    additional data padded to 32 bytes; the firmware repairs the tag and
    processes the last, partial block in software.  The file models the
    arithmetic of GF(2^128), the software GCM and the two corrections; a
    message block is a 128-bit integer in big-endian order ([AesBlock]).
    Buffers written by the code are the buffer of [BM]. *)

From stdpp Require Import base list numbers option.
From S2P Require Import Prelude SoftAes Aes KeyWrap.

Local Open Scope Z_scope.

(** [POLY], the reduction polynomial with reversed bits. *)
Definition POLY : Z := 0xE1000000000000000000000000000000.

(** One turn of the loop of [gf2_128_mul]; [a] and [m] are its variables. *)
Definition mul_turn (b : Z) (s : Z * Z) (i : nat) : Z * Z :=
  let '(a, m) := s in
  let b_bit := Z.land (Z.shiftr b (127 - Z.of_nat i)) 1 in
  let b_mask := wrap 128 ((1 - b_bit) - 1) in
  let m := Z.lxor m (Z.land a b_mask) in
  let xor_poly := wrap 128 ((1 - Z.land a 1) - 1) in
  let a := Z.shiftr a 1 in
  let a := Z.lxor a (Z.land POLY xor_poly) in
  (a, m).

(** [AesBlock::gf2_128_mul]. *)
Definition gf2_128_mul (a b : Z) : Z := (foldl (mul_turn b) (a, 0) (seq 0 128)).2.

Example gf2_128_mul_vector :
  gf2_128_mul 0x66e94bd4ef8a2c3b884cfa59ca342b2e 0x5e2ec746917062882c85b0685353de37 =
  0xf38cbb1ad69223dcc3457ae5b6b0f885.
Proof. vm_compute. reflexivity. Qed.

(** [len_block]: both lengths in bits, modulo 2^64. *)
Definition len_block (aad_len text_len : Z) : Z :=
  let mask := 2 ^ 64 - 1 in
  let aad_bits := Z.land (aad_len * 8) mask in
  let text_bits := Z.land (text_len * 8) mask in
  Z.lor (wrap 128 (Z.shiftl aad_bits 64)) text_bits.

(** [next_multiple_of_32], with the checked 64-bit addition. *)
Definition next_multiple_of_32 (value : Z) : option Z :=
  let rem := value mod 32 in
  if rem =? 0 then Some value
  else if value + (32 - rem) <? 2 ^ 64 then Some (value + (32 - rem)) else None.

(** [AesBlock::from([u8; 16])] and [to_be_bytes]. *)
Definition block_from (l : list Z) : Z := from_be_bytes l.
Definition block_bytes (b : Z) : list Z := to_be_bytes 16 b.

(** A partial block copied into [[0u8; 16]]. *)
Definition zero_block (d : list Z) : outcome SoftAesErr (list Z) :=
  copy_from_slice (replicate 16 0) 0 (length d) d.

(** [block[len..].fill(0)]. *)
Definition fill_zero (l : list Z) (from : nat) : outcome SoftAesErr (list Z) :=
  if decide (from ≤ length l)%nat then Ok (take from l ++ replicate (length l - from) 0) else Panic.

(** [u32::try_from(index)] and [checked_add(2)]; [usize] is 32 bits wide. *)
Definition gcm_counter_from_block_index (block_index : Z) : outcome SoftAesErr Z :=
  if block_index <? 2 ^ 32 then
    if block_index + 2 <? 2 ^ 32 then Ok (block_index + 2) else Err LengthOverflow
  else Err LengthOverflow.

Section code.
Context `{SyncAesEcb}.

Definition compute_h (key : list Z) : M engine SoftAesErr Z :=
  r ← aes true key 0 0;
  let '(ha, hb) := r in
  mret (Z.lor (wrap 128 (Z.shiftl (swap_bytes64 ha) 64)) (swap_bytes64 hb)).

(** [compute_j0]: the encrypted initial counter block; [iv] has 12 bytes. *)
Definition compute_j0 (key iv : list Z) : M engine SoftAesErr Z :=
  j0 ← lift (copy_from_slice (replicate 16 0) 0 12 iv);
  j0 ← encrypt key (<[15%nat := 1]> j0);
  mret (block_from j0).

(** [gcm_crypt]: the input block exclusive-or the key stream. *)
Definition gcm_crypt (key iv : list Z) (counter : Z) (input : list Z) :
    M engine SoftAesErr (list Z) :=
  block ← lift (copy_from_slice (replicate 16 0) 0 12 iv);
  block ← lift (copy_from_slice block 12 4 (to_be_bytes 4 counter));
  block ← encrypt key block;
  mret (zip_with Z.lxor block input).

(** [gcm_aad_compute]: GHASH of the additional data. *)
Definition gcm_aad_compute (key aad : list Z) : M engine SoftAesErr Z :=
  h ← compute_h key;
  for_loop (λ ghash chunk,
    block ← lift (zero_block chunk);
    mret (gf2_128_mul (Z.lxor ghash (block_from block)) h))
  0 (chunks (length aad) 16 aad).

(** [aes_gcm]; the buffer is [output].  The slice [output] shrinks as blocks
    are written: [off] is where it begins. *)
Definition aes_gcm (enc : bool) (input key iv aad : list Z) : BM (list Z) :=
  output ← buffer;
  unless (bool_decide (length input ≤ length output)%nat) InsufficientOutputBufferLength;;
  running_tag ← on_engine (gcm_aad_compute key aad);
  h ← on_engine (compute_h key);
  r ← for_loop (λ '(running_tag, off) '(index, block),
        input_block ← lift (zero_block block);
        counter ← lift (gcm_counter_from_block_index index);
        output_block ← on_engine (gcm_crypt key iv counter input_block);
        output_block ← lift (fill_zero output_block (length block));
        let ciphertext_block := block_from (if enc then output_block else input_block) in
        let running_tag := gf2_128_mul (Z.lxor running_tag ciphertext_block) h in
        out ← lift (slice output_block 0 (length block));
        write_slice off (length block) out;;
        mret (running_tag, off + length block)%nat)
      (running_tag, 0%nat)
      (imap (λ i c, (Z.of_nat i, c)) (chunks (length input) 16 input));
  let '(running_tag, _) := r in
  let running_tag :=
    Z.lxor running_tag (len_block (Z.of_nat (length aad)) (Z.of_nat (length input))) in
  let running_tag := gf2_128_mul running_tag h in
  j0 ← on_engine (compute_j0 key iv);
  mret (block_bytes (Z.lxor running_tag j0)).

(** [gcm_tag_correct]; the buffer is [output]. *)
Definition gcm_tag_correct (enc : bool) (key iv : list Z) (aad_len text_len : Z)
    (partial_aad bad_tag : option (list Z)) (partial_last_input_block : list Z) :
    BM (list Z) :=
  output ← buffer;
  unless (bool_decide (length partial_last_input_block ≤ 16)%nat) LastInputBlockTooLarge;;
  unless (bool_decide (length partial_last_input_block = length output))
    InsufficientOutputBufferLength;;
  unless (negb (bool_decide (is_Some partial_aad ∧ is_Some bad_tag))) AADInvalid;;
  match bad_tag with
  | None => aes_gcm enc partial_last_input_block key iv (default [] partial_aad)
  | Some bad_tag =>
      if decide (aad_len mod 32 = 0 ∧ text_len mod 16 = 0 ∧ partial_last_input_block = [])
      then mret bad_tag
      else
        let blocks := (text_len + 15) / 16 in
        unless (blocks + 1 <? 2 ^ 64) LengthOverflow;;
        unless (blocks + 1 <? 2 ^ 32) LengthOverflow;;
        let counter := blocks + 1 in
        h ← on_engine (compute_h key);
        j0 ← on_engine (compute_j0 key iv);
        let bad_tag := block_from bad_tag in
        padded_aad_len ← lift (ok_or (next_multiple_of_32 aad_len) LengthOverflow);
        if decide (text_len mod 16 = 0) then
          let existing_len_block := len_block padded_aad_len text_len in
          let correct_len_block := len_block aad_len text_len in
          let correction := gf2_128_mul (Z.lxor existing_len_block correct_len_block) h in
          mret (block_bytes (Z.lxor bad_tag correction))
        else
          let partial_text_len := text_len - text_len mod 16 in
          let existing_len_block := len_block padded_aad_len partial_text_len in
          let correct_len_block := len_block aad_len text_len in
          last_input_block ← lift (zero_block partial_last_input_block);
          output_block ← on_engine (gcm_crypt key iv counter last_input_block);
          out ← lift (slice output_block 0 (length output));
          write_slice 0 (length output) out;;
          final ← lift (fill_zero (if enc then output_block else last_input_block)
                          (Z.to_nat (text_len mod 16)));
          let final_ciphertext_block := block_from final in
          let len_correction :=
            gf2_128_mul (Z.lxor existing_len_block final_ciphertext_block) h in
          let correction := Z.lxor (Z.lxor j0 len_correction) correct_len_block in
          let good_tag := Z.lxor bad_tag correction in
          let good_tag := gf2_128_mul h good_tag in
          mret (block_bytes (Z.lxor good_tag j0))
  end.

(** [gcm_tag_correct_aad_only]; the buffer is [output]. *)
Definition gcm_tag_correct_aad_only (enc : bool) (key iv : list Z) (aad_len : Z)
    (bad_tag input : list Z) : BM (list Z) :=
  output ← buffer;
  unless (bool_decide (length input < 16)%nat) LastInputBlockTooLarge;;
  unless (bool_decide (length input ≤ length output)%nat) InsufficientOutputBufferLength;;
  h ← on_engine (compute_h key);
  j0 ← on_engine (compute_j0 key iv);
  padded_aad_len ← lift (ok_or (next_multiple_of_32 aad_len) LengthOverflow);
  let bad_len := len_block padded_aad_len 0 in
  let text_len := length input in
  let correct_len := len_block aad_len (Z.of_nat text_len) in
  let t := block_from bad_tag in
  if decide (0 < text_len)%nat then
    aes_gcm enc input key iv [];;
    output ← buffer;
    src ← lift (slice (if enc then output else input) 0 text_len);
    block ← lift (zero_block src);
    let ciphertext_block := block_from block in
    let t := Z.lxor (Z.lxor (Z.lxor t j0) correct_len)
               (gf2_128_mul (Z.lxor ciphertext_block bad_len) h) in
    mret (block_bytes (Z.lxor (gf2_128_mul t h) j0))
  else mret (block_bytes (Z.lxor t (gf2_128_mul (Z.lxor correct_len bad_len) h))).

(** [SoftAesTrait::aes_gcm_tag_correction]: which correction applies. *)
Definition aes_gcm_tag_correction (enc : bool) (key iv : list Z) (aad_len text_len : Z)
    (aad bad_tag : option (list Z)) (unaligned_input_block : list Z) (aligned_input_len : Z) :
    BM (list Z) :=
  if decide (aad_len ≠ 0 ∧ aligned_input_len = 0 ∧ unaligned_input_block ≠ []) then
    intermediate_tag ← lift (ok_or bad_tag IntermediateTagMissing);
    gcm_tag_correct_aad_only enc key iv aad_len intermediate_tag unaligned_input_block
  else gcm_tag_correct enc key iv aad_len text_len aad bad_tag unaligned_input_block.

End code.

(** The vector of [test_aes_gcm], evaluated with the cipher of FIPS-197. *)
Example aes_gcm_vector :
  run_code (aes_gcm true
      [0xd2;0x39;0x3f;0xfa;0x74;0xc3;0xdc;0x93;0x12;0x88;0x00;0x03;0xb4;0x4d;0x60;0xaf;
       0x80;0x5b;0x7f;0xe6;0xaf;0x57;0x6d;0x4d;0x6d;0x42;0x78;0x6c;0x89;0x00]
      [0xda;0xd8;0x9d;0x9b;0xe9;0xbb;0xa1;0x38;0xcd;0xcf;0x87;0x52;0xc4;0x5b;0x57;0x9d;
       0x7e;0x27;0xc3;0xdb;0xb4;0x0f;0x53;0xe7;0x71;0xdd;0x8c;0xfd;0x50;0x0a;0xa2;0xd5]
      [0xcf;0xb2;0xae;0xc8;0x2c;0xfa;0x6c;0x7d;0x89;0xee;0x72;0xff]
      [0x6e;0x43;0x78;0x4a;0x91;0x85;0x1a;0x77;0x66;0x7a;0x02;0x19;0x8e;0x28;0xdc;0x32])
    (replicate 30 0) =
  (Ok [0x1c;0x26;0x12;0xdb;0x2a;0xfa;0x9a;0x99;0x4d;0x5d;0xa9;0x65;0xff;0x4a;0xa9;0x9b],
   [0xec;0x36;0x63;0x84;0xb6;0x9a;0x6b;0x7e;0xed;0x12;0xa0;0xf3;0xbb;0x7a;0xf1;0xe6;
    0x12;0x9f;0x53;0x57;0x5a;0xc5;0x6e;0x36;0xe5;0xcd;0x4b;0xb0;0x90;0xf6]).
Proof. vm_compute. reflexivity. Qed.
