(* ===== verification/GcmTagProps.v ===== *)
(** * GCM tag correction: the corrected tag is the tag of the whole message

    First the multiplication of GF(2^128) as a sum of shifted terms, which
    gives bilinearity and commutativity; then a reference GCM on lists of
    blocks; then that [aes_gcm] computes it; then the theorems. *)

From Stdlib Require Import Btauto.
From stdpp Require Import base list numbers option.
From S2P Require Import Prelude SoftAes Aes KeyWrap KeyWrapProps GcmTag.

Local Open Scope Z_scope.

Abbreviation u128 := (uint_range 128).
#[local] Arguments gf2_128_mul : simpl never.

(** ** Exclusive-or sums *)

Fixpoint xsum (n : nat) (f : nat → Z) : Z :=
  match n with
  | O => 0
  | S n => Z.lxor (xsum n f) (f n)
  end.

Lemma lxor_swap a b c d : Z.lxor (Z.lxor a b) (Z.lxor c d) = Z.lxor (Z.lxor a c) (Z.lxor b d).
Proof. apply Z.bits_inj'. intros i _. rewrite !Z.lxor_spec. btauto. Qed.

Lemma xsum_ext n f g : (∀ i, (i < n)%nat → f i = g i) → xsum n f = xsum n g.
Proof.
  induction n as [|n IH]; intros Hf; simpl; [done|].
  rewrite IH by (intros; apply Hf; lia). by rewrite Hf by lia.
Qed.

Lemma xsum_0 n : xsum n (λ _, 0) = 0.
Proof. induction n as [|n IH]; simpl; [done|]. by rewrite IH. Qed.

Lemma xsum_lxor n f g : xsum n (λ i, Z.lxor (f i) (g i)) = Z.lxor (xsum n f) (xsum n g).
Proof. induction n as [|n IH]; simpl; [done|]. by rewrite IH, lxor_swap. Qed.

Lemma xsum_swap n m f :
  xsum n (λ i, xsum m (λ j, f i j)) = xsum m (λ j, xsum n (λ i, f i j)).
Proof.
  induction n as [|n IH]; simpl; [by rewrite xsum_0|]. by rewrite IH, xsum_lxor.
Qed.

(** Additive maps. *)
Definition additive (L : Z → Z) : Prop :=
  L 0 = 0 ∧ ∀ a b, L (Z.lxor a b) = Z.lxor (L a) (L b).

Lemma additive_xsum L n f : additive L → L (xsum n f) = xsum n (λ i, L (f i)).
Proof. intros [H0 HL]. induction n as [|n IH]; simpl; [done|]. by rewrite HL, IH. Qed.

(** The terms of a binary expansion, most significant bit first. *)
Lemma testbit_xsum_bits v n k :
  (n ≤ 128)%nat → 0 ≤ k < 128 →
  Z.testbit (xsum n (λ j, if Z.testbit v (127 - Z.of_nat j) then 2 ^ (127 - Z.of_nat j) else 0)) k =
  bool_decide (127 - k < Z.of_nat n) && Z.testbit v k.
Proof.
  intros Hn Hk. induction n as [|n IH]; simpl.
  { rewrite Z.bits_0. rewrite bool_decide_eq_false_2 by lia. done. }
  rewrite Z.lxor_spec, IH by lia. destruct (decide (k = 127 - Z.of_nat n)) as [->|Hne].
  - rewrite bool_decide_eq_false_2, bool_decide_eq_true_2 by lia. simpl.
    destruct (Z.testbit v (127 - Z.of_nat n)); [by rewrite Z.pow2_bits_true by lia|].
    by rewrite Z.bits_0.
  - replace (Z.testbit (if Z.testbit v (127 - Z.of_nat n) then _ else 0) k) with false.
    + rewrite xorb_false_r. f_equal. apply bool_decide_ext. lia.
    + case_match; [by rewrite Z.pow2_bits_false|by rewrite Z.bits_0].
Qed.

Lemma xsum_bits v :
  u128 v →
  v = xsum 128 (λ j, if Z.testbit v (127 - Z.of_nat j) then 2 ^ (127 - Z.of_nat j) else 0).
Proof.
  intros Hv. apply Z.bits_inj'. intros k Hk. destruct (decide (k < 128)).
  - rewrite testbit_xsum_bits by lia. by rewrite bool_decide_eq_true_2 by lia.
  - assert (∀ n, (n ≤ 128)%nat →
      u128 (xsum n (λ j, if Z.testbit v (127 - Z.of_nat j) then 2 ^ (127 - Z.of_nat j) else 0)))
      as Hr.
    { intros m. induction m as [|m IH]; intros Hm; [done|]. cbn [xsum].
      apply lxor_range; [done|apply IH; lia|]. case_match; [|done].
      split; [lia|]. apply Z.pow_lt_mono_r; lia. }
    rewrite (testbit_above 128 v) by (done || lia). symmetry.
    apply (testbit_above 128); [by apply Hr|lia].
Qed.

(** ** Multiplication *)

(** Multiplication by x. *)
Definition mulx (a : Z) : Z := Z.lxor (Z.shiftr a 1) (if Z.testbit a 0 then POLY else 0).

Lemma mulx_additive : additive mulx.
Proof.
  split; [done|]. intros a b. unfold mulx. rewrite Z.shiftr_lxor, Z.lxor_spec.
  rewrite lxor_swap. f_equal.
  destruct (Z.testbit a 0), (Z.testbit b 0); simpl; try done.
Qed.

Lemma mulx_range a : u128 a → u128 (mulx a).
Proof.
  intros Ha. unfold mulx. apply lxor_range; [done| |by case_match].
  destruct Ha. split; [by apply Z.shiftr_nonneg|].
  rewrite Z.shiftr_div_pow2 by lia. apply Z.div_lt_upper_bound; lia.
Qed.

Lemma iter_additive n : additive (Nat.iter n mulx).
Proof.
  split.
  - induction n as [|n IH]; simpl; [done|]. by rewrite IH.
  - intros a b. induction n as [|n IH]; simpl; [done|]. rewrite IH. apply mulx_additive.
Qed.

Lemma iter_range n a : u128 a → u128 (Nat.iter n mulx a).
Proof. intros Ha. induction n as [|n IH]; simpl; [done|]. by apply mulx_range. Qed.

(** The element 1 of the field is the top bit. *)
Lemma iter_one n : (n ≤ 127)%nat → Nat.iter n mulx (2 ^ 127) = 2 ^ (127 - Z.of_nat n).
Proof.
  induction n as [|n IH]; intros Hn; [done|]. simpl. rewrite IH by lia. unfold mulx.
  rewrite Z.pow2_bits_false by lia. rewrite Z.lxor_0_r, Z.shiftr_div_pow2 by lia.
  rewrite <-Z.pow_sub_r by lia. f_equal. lia.
Qed.

(** The masks of the constant-time code select a term. *)
Lemma mask_select a (c : bool) :
  u128 a → Z.land a (wrap 128 ((1 - Z.b2z c) - 1)) = if c then a else 0.
Proof.
  intros Ha. destruct c.
  - change (wrap 128 ((1 - Z.b2z true) - 1)) with (Z.ones 128).
    rewrite Z.land_ones by lia. by apply Z.mod_small.
  - apply Z.land_0_r.
Qed.

Lemma land_one v : Z.land v 1 = Z.b2z (Z.testbit v 0).
Proof.
  rewrite Z.bit0_mod. apply (Z.land_ones v 1). lia.
Qed.

Lemma mul_turn_ok b a m i :
  u128 a → (i < 128)%nat →
  mul_turn b (a, m) i =
  (mulx a, Z.lxor m (if Z.testbit b (127 - Z.of_nat i) then a else 0)).
Proof.
  intros Ha Hi. unfold mul_turn, mulx. rewrite !land_one.
  rewrite Z.shiftr_spec by lia. rewrite Z.add_0_l, !mask_select by done. done.
Qed.

Lemma mul_loop_ok b a n :
  u128 a → (n ≤ 128)%nat →
  foldl (mul_turn b) (a, 0) (seq 0 n) =
  (Nat.iter n mulx a,
   xsum n (λ i, if Z.testbit b (127 - Z.of_nat i) then Nat.iter i mulx a else 0)).
Proof.
  intros Ha. induction n as [|n IH]; intros Hn; [done|].
  rewrite seq_S, foldl_app, IH by lia. cbn [foldl Nat.add].
  rewrite mul_turn_ok by (lia || by apply iter_range). done.
Qed.

Lemma gf2_128_mul_sum a b :
  u128 a →
  gf2_128_mul a b =
  xsum 128 (λ i, if Z.testbit b (127 - Z.of_nat i) then Nat.iter i mulx a else 0).
Proof. intros Ha. unfold gf2_128_mul. by rewrite mul_loop_ok by done. Qed.

Lemma gf2_128_mul_range a b : u128 a → u128 (gf2_128_mul a b).
Proof.
  intros Ha. rewrite gf2_128_mul_sum by done.
  assert (∀ n, u128 (xsum n (λ i, if Z.testbit b (127 - Z.of_nat i) then Nat.iter i mulx a else 0)))
    as Hr; [|apply Hr].
  induction n as [|n IH]; [done|]. cbn [xsum]. apply lxor_range; [done..|].
  case_match; [by apply iter_range|done].
Qed.

(** The product is linear in its first argument. *)
Lemma gf2_128_mul_lxor_l a b h :
  u128 a → u128 b →
  gf2_128_mul (Z.lxor a b) h = Z.lxor (gf2_128_mul a h) (gf2_128_mul b h).
Proof.
  intros Ha Hb. rewrite !gf2_128_mul_sum by (try done; by apply lxor_range).
  rewrite <-xsum_lxor. apply xsum_ext. intros i _.
  case_match; [apply iter_additive|done].
Qed.

Lemma gf2_128_mul_0_l h : gf2_128_mul 0 h = 0.
Proof.
  rewrite gf2_128_mul_sum by done. rewrite <-(xsum_0 128). apply xsum_ext. intros i _.
  case_match; [apply iter_additive|done].
Qed.

Lemma gf2_128_mul_double a b :
  u128 a →
  gf2_128_mul a b =
  xsum 128 (λ j, xsum 128 (λ i,
    if Z.testbit a (127 - Z.of_nat i) && Z.testbit b (127 - Z.of_nat j)
    then Nat.iter (i + j) mulx (2 ^ 127) else 0)).
Proof.
  intros Ha. rewrite gf2_128_mul_sum by done. apply xsum_ext. intros j Hj.
  destruct (Z.testbit b (127 - Z.of_nat j)).
  - rewrite (xsum_bits a Ha) at 1. rewrite (additive_xsum _ _ _ (iter_additive j)).
    apply xsum_ext. intros i Hi. rewrite andb_true_r. case_match; [|apply iter_additive].
    rewrite <-(iter_one i) by lia. rewrite Nat.add_comm. symmetry. apply Nat.iter_add.
  - rewrite <-(xsum_0 128). apply xsum_ext. intros i _. by rewrite andb_false_r.
Qed.

Lemma gf2_128_mul_comm a b : u128 a → u128 b → gf2_128_mul a b = gf2_128_mul b a.
Proof.
  intros Ha Hb. rewrite !gf2_128_mul_double by done. rewrite xsum_swap.
  apply xsum_ext. intros i _. apply xsum_ext. intros j _.
  by rewrite andb_comm, Nat.add_comm.
Qed.

#[local] Opaque gf2_128_mul.

(** ** Blocks of a message *)

Definition ch (d : list Z) : list (list Z) := chunks (length d) 16 d.

Lemma chunks_fuel {A} (f1 : nat) : ∀ f2 n (d : list A),
  (0 < n)%nat → (length d ≤ f1)%nat → (length d ≤ f2)%nat → chunks f1 n d = chunks f2 n d.
Proof.
  induction f1 as [|f1 IH]; intros [|f2] n [|x d] Hn H1 H2; simpl in *; try (done || lia).
  f_equal. apply IH; [done|..]; rewrite length_drop; simpl; lia.
Qed.

Lemma ch_nil : ch [] = [].
Proof. done. Qed.

Lemma ch_cons d : d ≠ [] → ch d = take 16 d :: ch (drop 16 d).
Proof.
  intros Hd. unfold ch. destruct d as [|x d]; [done|]. cbn [length chunks]. f_equal.
  apply chunks_fuel; [lia|rewrite length_drop; simpl; lia|done].
Qed.

Lemma ch_small d : (0 < length d ≤ 16)%nat → ch d = [d].
Proof.
  intros Hd. rewrite ch_cons by (by intros ->; simpl in Hd; lia).
  rewrite take_ge, drop_ge by lia. done.
Qed.

(** Induction on the blocks of a message. *)
Lemma ch_ind (P : list Z → Prop) :
  P [] → (∀ d, d ≠ [] → P (drop 16 d) → P d) → ∀ d, P d.
Proof.
  intros H0 HS d. remember (length d) as m eqn:Hm. revert d Hm.
  induction (lt_wf m) as [m _ IH]. intros d ->. destruct (decide (d = [])) as [->|Hd]; [done|].
  apply HS; [done|]. eapply IH; [|done]. rewrite length_drop.
  destruct d; [done|]. cbn [length] in *. lia.
Qed.

Lemma ch_app d1 d2 : (length d1 mod 16 = 0)%nat → ch (d1 ++ d2) = ch d1 ++ ch d2.
Proof.
  induction d1 as [|d1 Hne IH] using ch_ind; intros Hm; [done|].
  assert (16 ≤ length d1)%nat as H16.
  { destruct (decide (length d1 < 16)%nat); [|lia]. rewrite Nat.mod_small in Hm by done.
    by destruct d1. }
  rewrite (ch_cons (d1 ++ d2)) by (by destruct d1). rewrite (ch_cons d1) by done.
  rewrite take_app_le, drop_app_le by lia. simpl. f_equal. apply IH.
  rewrite length_drop. replace (length d1) with ((length d1 - 16) + 1 * 16)%nat in Hm by lia.
  by rewrite Nat.Div0.mod_add in Hm.
Qed.

Lemma ch_concat d : concat (ch d) = d.
Proof.
  induction d as [|d Hne IH] using ch_ind; [done|].
  rewrite ch_cons by done. simpl. by rewrite IH, take_drop.
Qed.

Lemma ch_lengths d : Forall (λ c, 0 < length c ≤ 16)%nat (ch d).
Proof.
  induction d as [|d Hne IH] using ch_ind; [constructor|].
  rewrite ch_cons by done. constructor; [|done]. rewrite length_take. destruct d; [done|]. cbn [length]. lia.
Qed.

Lemma ch_bytes d : bytes d → Forall bytes (ch d).
Proof.
  induction d as [|d Hne IH] using ch_ind; intros Hd; [constructor|].
  rewrite ch_cons by done. constructor; [by apply Forall_take|]. apply IH. by apply Forall_drop.
Qed.

Lemma ch_count d : (16 * length (ch d) < length d + 16)%nat.
Proof.
  induction d as [|d Hne IH] using ch_ind; [simpl; lia|].
  rewrite ch_cons by done. simpl. rewrite length_drop in IH. destruct d; [done|]. simpl in *. lia.
Qed.

(** A map over the blocks that keeps their lengths. *)
Lemma ch_imap (f : nat → list Z → list Z) d :
  (∀ i c, (length c ≤ 16)%nat → length (f i c) = length c) →
  ch (concat (imap f (ch d))) = imap f (ch d).
Proof.
  revert f. induction d as [|d Hne IH] using ch_ind; intros f Hf; [done|].
  rewrite (ch_cons d) by done. cbn [imap concat].
  assert (length (take 16 d) ≤ 16)%nat as H16' by (rewrite length_take; lia).
  destruct (decide (16 ≤ length d)%nat) as [H16|H16].
  - rewrite ch_app by (rewrite Hf, length_take, Nat.min_l by lia; done).
    rewrite (IH (f ∘ S)) by (intros; by apply Hf).
    rewrite ch_small; [done|]. rewrite Hf, length_take by done. lia.
  - rewrite drop_ge by lia. cbn [imap concat]. rewrite app_nil_r. apply ch_small.
    rewrite Hf, length_take by done. destruct d; [done|]. cbn [length] in *. lia.
Qed.

Lemma length_concat_imap (f : nat → list Z → list Z) d :
  (∀ i c, (length c ≤ 16)%nat → length (f i c) = length c) →
  length (concat (imap f (ch d))) = length d.
Proof.
  revert f. induction d as [|d Hne IH] using ch_ind; intros f Hf; [done|].
  rewrite (ch_cons d) by done. cbn [imap concat].
  rewrite length_app, Hf by (rewrite length_take; lia).
  rewrite (IH (f ∘ S)) by (intros; by apply Hf). rewrite length_take, length_drop. lia.
Qed.

(** A block completed with zeros. *)
Definition pad16 (d : list Z) : list Z := d ++ replicate (16 - length d) 0.

Lemma pad16_ok d : (length d ≤ 16)%nat → bytes d → block_ok (pad16 d).
Proof.
  intros Hl Hd. unfold pad16. split.
  - rewrite length_app, length_replicate. lia.
  - apply Forall_app_2; [done|]. by apply Forall_replicate.
Qed.

Lemma block_from_range l : block_ok l → u128 (block_from l).
Proof.
  intros [Hl Hb]. unfold block_from, from_be_bytes.
  assert (bytes (rev l)) as Hr by (by apply Forall_rev).
  pose proof (from_le_bytes_range _ Hr) as H. by rewrite length_rev, Hl in H.
Qed.

Lemma block_from_bytes b : u128 b → block_from (block_bytes b) = b.
Proof. intros Hb. by apply (from_to_be_bytes 16). Qed.

Lemma zero_block_ok d : (length d ≤ 16)%nat → zero_block d = Ok (pad16 d).
Proof. intros Hd. unfold zero_block. by apply copy_padded. Qed.

Lemma from_be_bytes_app l1 l2 :
  from_be_bytes (l1 ++ l2) =
  from_be_bytes l2 + 2 ^ (8 * Z.of_nat (length l2)) * from_be_bytes l1.
Proof.
  unfold from_be_bytes. by rewrite rev_app_distr, from_le_bytes_app, length_rev.
Qed.

Lemma lor_shiftl_add hi lo :
  u64 hi → u64 lo → Z.lor (wrap 128 (Z.shiftl hi 64)) lo = lo + 2 ^ 64 * hi.
Proof.
  intros Hhi Hlo. rewrite Z.shiftl_mul_pow2 by lia.
  rewrite wrap_small by (unfold uint_range in *; lia).
  assert (Z.land (hi * 2 ^ 64) lo = 0) as Hland.
  { rewrite <-Z.shiftl_mul_pow2 by lia. apply Z.bits_inj'. intros i Hi.
    rewrite Z.land_spec, Z.bits_0. destruct (decide (i < 64)).
    - by rewrite Z.shiftl_spec_low.
    - rewrite (testbit_above 64 lo) by (done || lia). apply andb_false_r. }
  pose proof (Z.add_lor_land (hi * 2 ^ 64) lo). lia.
Qed.

Lemma zeros_block : block_ok (replicate 16 0).
Proof. split; [done|]. by apply Forall_replicate. Qed.

(** ** The reference *)

(** The lengths the block counts of GCM allow. *)
Definition text_ok (text : list Z) : Prop :=
  bytes text ∧ Z.of_nat (length text) ≤ 16 * (2 ^ 32 - 3).

Section reference.
Context `{SyncAesEcb} (key iv : list Z).

Definition hash_key : Z := block_from (cipher key (replicate 16 0)).
Definition j0_block : Z := block_from (cipher key (iv ++ [0; 0; 0; 1])).
Definition keystream (i : nat) : list Z := cipher key (iv ++ to_be_bytes 4 (Z.of_nat i + 2)).

Definition tag_step (y : Z) (c : list Z) : Z :=
  gf2_128_mul (Z.lxor y (block_from (pad16 c))) hash_key.
Definition ghash (acc : Z) (d : list Z) : Z := foldl tag_step acc (ch d).

(** The [i]-th block of the output. *)
Definition crypt_block (i : nat) (c : list Z) : list Z :=
  zip_with Z.lxor c (take (length c) (keystream i)).
Definition crypt (text : list Z) : list Z := concat (imap crypt_block (ch text)).

Definition gcm_tag (aad ciphertext : list Z) : Z :=
  Z.lxor (gf2_128_mul (Z.lxor (ghash (ghash 0 aad) ciphertext)
                         (len_block (Z.of_nat (length aad)) (Z.of_nat (length ciphertext))))
            hash_key) j0_block.

Hypothesis (Hk : key_len_ok key) (Hkb : bytes key) (Hiv : length iv = 12%nat) (Hivb : bytes iv).

Lemma keystream_ok i : block_ok (keystream i).
Proof using Hk Hkb Hiv Hivb.
  apply cipher_block; [done..|]. split.
  - by rewrite length_app, length_to_be_bytes, Hiv.
  - apply Forall_app_2; [done|]. apply Forall_rev, to_le_bytes_range.
Qed.

Lemma hash_key_range : u128 hash_key.
Proof using Hk Hkb. apply block_from_range, cipher_block; [done..|]. apply zeros_block. Qed.

Lemma j0_range : u128 j0_block.
Proof using Hk Hkb Hiv Hivb.
  apply block_from_range, cipher_block; [done..|]. split.
  - by rewrite length_app, Hiv.
  - apply Forall_app_2; [done|]. repeat constructor; done.
Qed.

Lemma zip_block_ok a b : block_ok a → block_ok b → block_ok (zip_with Z.lxor a b).
Proof. intros Ha Hb. by apply (add_round_key_ok b a). Qed.

Lemma length_key_block i (c : list Z) :
  (length c ≤ 16)%nat → length c = length (take (length c) (keystream i)).
Proof using Hk Hkb Hiv Hivb.
  intros Hc. rewrite length_take. destruct (keystream_ok i) as [-> _]. lia.
Qed.

Lemma key_block_bytes i n : bytes (take n (keystream i)).
Proof using Hk Hkb Hiv Hivb. apply Forall_take. by destruct (keystream_ok i). Qed.

Lemma length_crypt_block i c : (length c ≤ 16)%nat → length (crypt_block i c) = length c.
Proof using Hk Hkb Hiv Hivb.
  intros Hc. unfold crypt_block. rewrite length_zip_with, <-length_key_block by done. lia.
Qed.

Lemma crypt_block_bytes i c : (length c ≤ 16)%nat → bytes c → bytes (crypt_block i c).
Proof using Hk Hkb Hiv Hivb.
  intros Hc Hb. apply zip_lxor_ok; [by apply length_key_block|done|apply key_block_bytes].
Qed.

(** Decrypting a block is encrypting it again. *)
Lemma crypt_block_invol i c :
  (length c ≤ 16)%nat → bytes c → crypt_block i (crypt_block i c) = c.
Proof using Hk Hkb Hiv Hivb.
  intros Hc Hb. unfold crypt_block at 1. rewrite length_crypt_block by done.
  apply zip_lxor_ok; [by apply length_key_block|done|apply key_block_bytes].
Qed.

(** ** The code computes the reference *)

Lemma runs_compute_h : runs (compute_h key) (Ok hash_key).
Proof using Hk Hkb.
  clear Hiv Hivb. unfold compute_h. intros e He. destruct (runs_aes key Hk Hkb true 0 0 e He) as (e' & E & Hok).
  exists e'. unfold mbind, M_bind. rewrite E. split; [|done]. unfold E2, pair_of.
  change (to_le_bytes 8 0 ++ to_le_bytes 8 0) with (replicate 16 0).
  set (blk := cipher key (replicate 16 0)).
  assert (block_ok blk) as [Hl Hb] by (apply cipher_block; [done..|apply zeros_block]).
  unfold mret, M_ret. do 2 f_equal. unfold swap_bytes64.
  rewrite !to_from_le_bytes'
    by first [by apply Forall_take|by apply Forall_drop|rewrite length_take; lia|rewrite length_drop; lia].
  assert (∀ l, length l = 8%nat → bytes l → u64 (from_be_bytes l)) as Hr.
  { intros l Hl8 Hb8. unfold from_be_bytes.
    assert (bytes (rev l)) as Hrev by (by apply Forall_rev).
    pose proof (from_le_bytes_range _ Hrev) as H'. by rewrite length_rev, Hl8 in H'. }
  rewrite lor_shiftl_add.
  - unfold hash_key. fold blk. unfold block_from. rewrite <-(take_drop 8 blk) at 3.
    rewrite from_be_bytes_app, length_drop, Hl. done.
  - apply Hr; [rewrite length_take; lia|by apply Forall_take].
  - apply Hr; [rewrite length_drop; lia|by apply Forall_drop].
Qed.

Lemma runs_compute_j0 : runs (compute_j0 key iv) (Ok j0_block).
Proof using Hk Hkb Hiv Hivb.
  unfold compute_j0. intros e He. rewrite <-Hiv, copy_padded by (rewrite Hiv; lia).
  rewrite Hiv. change (replicate (16 - 12) 0) with [0; 0; 0; 0].
  replace (<[15%nat:=1]> (iv ++ [0; 0; 0; 0])) with (iv ++ [0; 0; 0; 1])
    by (rewrite insert_app_r_alt, Hiv by (rewrite Hiv; lia); done).
  assert (block_ok (iv ++ [0; 0; 0; 1])) as Hb.
  { split; [by rewrite length_app, Hiv|]. apply Forall_app_2; [done|]. repeat constructor; done. }
  destruct (runs_encrypt key (iv ++ [0; 0; 0; 1]) e He) as (e' & E & Hok). exists e'.
  rewrite ecb_result_ok in E by done. unfold mbind, M_bind, lift.
  replace (<[15%nat:=1]> (iv ++ [0; 0; 0; 0])) with (iv ++ [0; 0; 0; 1])
    by (rewrite insert_app_r_alt, Hiv by (rewrite Hiv; lia); done).
  by rewrite E.
Qed.

Lemma runs_gcm_crypt i input :
  length input = 16%nat → 0 ≤ Z.of_nat i + 2 < 2 ^ 32 →
  runs (gcm_crypt key iv (Z.of_nat i + 2) input) (Ok (zip_with Z.lxor (keystream i) input)).
Proof using Hk Hkb Hiv Hivb.
  intros Hl Hi. unfold gcm_crypt. intros e He. rewrite <-Hiv, copy_padded by (rewrite Hiv; lia).
  rewrite Hiv. unfold mbind, M_bind, lift.
  replace (copy_from_slice (iv ++ replicate (16 - 12) 0) 12 4 (to_be_bytes 4 (Z.of_nat i + 2)))
    with (Ok (E:=SoftAesErr) (iv ++ to_be_bytes 4 (Z.of_nat i + 2))).
  2: { symmetry. rewrite <-(app_nil_r (replicate (16 - 12) 0)).
       rewrite copy_middle by (done || by rewrite length_to_be_bytes). by rewrite app_nil_r. }
  assert (block_ok (iv ++ to_be_bytes 4 (Z.of_nat i + 2))) as Hb.
  { split; [by rewrite length_app, length_to_be_bytes, Hiv|].
    apply Forall_app_2; [done|]. apply Forall_rev, to_le_bytes_range. }
  destruct (runs_encrypt key (iv ++ to_be_bytes 4 (Z.of_nat i + 2)) e He) as (e' & E & Hok).
  exists e'.
  rewrite ecb_result_ok in E by done. by rewrite E.
Qed.

Lemma runs_for_pure {A} (f : Z → A → M engine SoftAesErr Z) (g : Z → A → Z) l :
  (∀ y c, c ∈ l → runs (f y c) (Ok (g y c))) → ∀ y, runs (for_loop f y l) (Ok (foldl g y l)).
Proof.
  induction l as [|c l IH]; intros Hf y; simpl; [apply runs_mret|].
  intros e He. destruct (Hf y c ltac:(by left) e He) as (e1 & E1 & H1).
  unfold mbind, M_bind. rewrite E1. apply IH; [|done]. intros y' c' Hc'. apply Hf. by right.
Qed.

Lemma runs_gcm_aad_compute aad : runs (gcm_aad_compute key aad) (Ok (ghash 0 aad)).
Proof using Hk Hkb.
  clear Hiv Hivb. unfold gcm_aad_compute. intros e He. destruct (runs_compute_h e He) as (e1 & E1 & H1).
  unfold mbind at 1, M_bind at 1. rewrite E1. unfold ghash. fold (ch aad).
  refine (runs_for_pure _ _ _ _ 0 e1 H1). intros y c Hc e2 H2. exists e2.
  assert (length c ≤ 16)%nat.
  { pose proof (proj1 (list.Forall_forall _ _) (ch_lengths aad) c Hc) as Hl. simpl in Hl. lia. }
  rewrite zero_block_ok by done. split; [reflexivity|exact H2].
Qed.

Lemma take_zip_pad (c ks e : list Z) :
  (length c ≤ length ks ≤ length c + length e)%nat →
  take (length c) (zip_with Z.lxor ks (c ++ e)) = zip_with Z.lxor c (take (length c) ks).
Proof.
  clear. revert ks. induction c as [|x c IH]; intros [|k ks] Hle; simpl in *; try (done || lia).
  f_equal; [apply Z.lxor_comm|]. apply IH. lia.
Qed.

Lemma take_crypt_block i c :
  (length c ≤ 16)%nat →
  take (length c) (zip_with Z.lxor (keystream i) (pad16 c)) = crypt_block i c.
Proof using Hk Hkb Hiv Hivb.
  intros Hc. apply take_zip_pad. destruct (keystream_ok i) as [-> _].
  rewrite length_replicate. lia.
Qed.

Lemma fill_crypt_block i c :
  (length c ≤ 16)%nat →
  fill_zero (zip_with Z.lxor (keystream i) (pad16 c)) (length c) = Ok (pad16 (crypt_block i c)).
Proof using Hk Hkb Hiv Hivb.
  intros Hc. unfold fill_zero.
  assert (length (zip_with Z.lxor (keystream i) (pad16 c)) = 16%nat) as Hz.
  { rewrite length_zip_with. destruct (keystream_ok i) as [-> _]. unfold pad16.
    rewrite length_app, length_replicate. lia. }
  rewrite Hz, decide_True, take_crypt_block by done.
  unfold pad16. by rewrite length_crypt_block.
Qed.

(** The body of the loop of [aes_gcm]. *)
Definition gcm_body (enc : bool) : Z * nat → Z * list Z → BM (Z * nat) :=
  λ '(running_tag, off) '(index, block),
    input_block ← lift (zero_block block);
    counter ← lift (gcm_counter_from_block_index index);
    output_block ← on_engine (gcm_crypt key iv counter input_block);
    output_block ← lift (fill_zero output_block (length block));
    let ciphertext_block := block_from (if enc then output_block else input_block) in
    let running_tag := gf2_128_mul (Z.lxor running_tag ciphertext_block) hash_key in
    out ← lift (slice output_block 0 (length block));
    write_slice off (length block) out;;
    mret (running_tag, off + length block)%nat.

Lemma gcm_body_ok enc k tag w c rest :
  (length c ≤ 16)%nat → Z.of_nat k + 2 < 2 ^ 32 → (length c ≤ length rest)%nat →
  bruns (gcm_body enc (tag, length w) (Z.of_nat k, c)) (w ++ rest)
    (Ok (tag_step tag (if enc then crypt_block k c else c), length (w ++ crypt_block k c)))
    ((w ++ crypt_block k c) ++ drop (length c) rest).
Proof using Hk Hkb Hiv Hivb.
  intros Hc Hkk Hr. unfold gcm_body.
  eapply bruns_bind; [by apply bruns_lift_ok, zero_block_ok|].
  eapply bruns_bind.
  { apply bruns_lift_ok. unfold gcm_counter_from_block_index.
    rewrite !(proj2 (Z.ltb_lt _ _)) by lia. done. }
  eapply bruns_bind.
  { apply bruns_on_engine, runs_gcm_crypt; [|lia]. unfold pad16.
    rewrite length_app, length_replicate. lia. }
  eapply bruns_bind; [by apply bruns_lift_ok, fill_crypt_block|]. cbv zeta.
  eapply bruns_bind.
  { apply bruns_lift_ok. apply (slice_middle []); [done|]. by apply length_crypt_block. }
  eapply (bruns_bind _ _ _ tt (w ++ crypt_block k c ++ drop (length c) rest)).
  { apply bruns_write. rewrite <-(take_drop (length c) rest) at 1. apply copy_middle; [done| |].
    - rewrite length_take. lia.
    - by apply length_crypt_block. }
  rewrite length_app, length_crypt_block by done. rewrite <-app_assoc.
  unfold tag_step. destruct enc; apply bruns_mret.
Qed.

Lemma gcm_loop_ok enc cs : ∀ k tag w rest,
  Forall (λ c, length c ≤ 16)%nat cs → Z.of_nat (k + length cs) + 1 < 2 ^ 32 →
  (length (concat cs) ≤ length rest)%nat →
  let out := imap (λ i, crypt_block (k + i)) cs in
  bruns (for_loop (gcm_body enc) (tag, length w) (imap (λ i c, (Z.of_nat (k + i), c)) cs)) (w ++ rest)
    (Ok (foldl tag_step tag (if enc then out else cs), length (w ++ concat out)))
    ((w ++ concat out) ++ drop (length (concat cs)) rest).
Proof using Hk Hkb Hiv Hivb.
  induction cs as [|c cs IH]; intros k tag w rest Hcs Hkk Hl; simpl.
  { rewrite !app_nil_r. destruct enc; apply bruns_mret. }
  apply list.Forall_cons in Hcs as [Hc Hcs]. simpl in *. rewrite length_app in Hl.
  eapply bruns_bind; [rewrite Nat.add_0_r; apply gcm_body_ok; [done|lia|lia]|].
  assert (imap ((λ i c, (Z.of_nat (k + i), c)) ∘ S) cs =
          imap (λ i c, (Z.of_nat (S k + i), c)) cs) as ->.
  { apply imap_ext. intros i x _. simpl. do 2 f_equal. lia. }
  assert (imap ((λ i, crypt_block (k + i)) ∘ S) cs = imap (λ i, crypt_block (S k + i)) cs) as ->.
  { apply imap_ext. intros i x _. simpl. f_equal. lia. }
  rewrite Nat.add_0_r.
  specialize (IH (S k) (tag_step tag (if enc then crypt_block k c else c))
                (w ++ crypt_block k c) (drop (length c) rest) Hcs).
  rewrite (length_app c), <-drop_drop, !(app_assoc w).
  destruct enc; apply IH; rewrite ?length_drop; lia.
Qed.

Lemma length_crypt text : length (crypt text) = length text.
Proof using Hk Hkb Hiv Hivb. apply length_concat_imap. intros. by apply length_crypt_block. Qed.

Lemma ghash_crypt acc text :
  ghash acc (crypt text) = foldl tag_step acc (imap crypt_block (ch text)).
Proof using Hk Hkb Hiv Hivb.
  unfold ghash, crypt. rewrite ch_imap; [reflexivity|]. intros. by apply length_crypt_block.
Qed.

Lemma text_blocks text :
  text_ok text → Z.of_nat (length (ch text)) + 1 < 2 ^ 32.
Proof. intros [_ Hl]. pose proof (ch_count text). lia. Qed.

(** [aes_gcm] is GCM. *)
Lemma aes_gcm_ok enc input aad out :
  text_ok input → (length input ≤ length out)%nat →
  bruns (aes_gcm enc input key iv aad) out
    (Ok (block_bytes (gcm_tag aad (if enc then crypt input else input))))
    (crypt input ++ drop (length input) out).
Proof using Hk Hkb Hiv Hivb.
  intros Ht Hl. unfold aes_gcm. eapply bruns_bind; [apply bruns_buffer|].
  eapply bruns_bind; [by apply bruns_unless, bool_decide_eq_true_2|].
  eapply bruns_bind; [apply bruns_on_engine, runs_gcm_aad_compute|].
  eapply bruns_bind; [apply bruns_on_engine, runs_compute_h|].
  fold (ch input). fold (gcm_body enc).
  assert (Forall (λ c, length c ≤ 16)%nat (ch input)) as Hch.
  { eapply list.Forall_impl; [apply ch_lengths|]. simpl. lia. }
  pose proof (gcm_loop_ok enc (ch input) 0 (ghash 0 aad) [] out Hch) as Hloop.
  cbv zeta in Hloop. rewrite ch_concat in Hloop. cbn [app length Nat.add] in Hloop.
  specialize (Hloop (text_blocks input Ht) Hl).
  eapply bruns_bind; [exact Hloop|]. cbv beta iota zeta.
  eapply bruns_bind; [apply bruns_on_engine, runs_compute_j0|].
  change (concat (imap (λ i, crypt_block i) (ch input))) with (crypt input).
  assert (gcm_tag aad (if enc then crypt input else input) =
          Z.lxor (gf2_128_mul (Z.lxor (foldl tag_step (ghash 0 aad)
                     (if enc then imap (λ i, crypt_block i) (ch input) else ch input))
                     (len_block (Z.of_nat (length aad)) (Z.of_nat (length input)))) hash_key) j0_block)
    as ->.
  { unfold gcm_tag. destruct enc; [|reflexivity].
    rewrite ghash_crypt, length_crypt. reflexivity. }
  apply bruns_mret.
Qed.

(** ** Padding of the additional data *)

Lemma ghash_app acc d1 d2 :
  (length d1 mod 16 = 0)%nat → ghash acc (d1 ++ d2) = ghash (ghash acc d1) d2.
Proof. clear. intros Hm. unfold ghash. by rewrite ch_app, foldl_app. Qed.

Lemma ghash_zero_block d : ghash 0 (replicate 16 0 ++ d) = ghash 0 d.
Proof.
  clear. rewrite ghash_app by done.
  enough (ghash 0 (replicate 16 0) = 0) as -> by reflexivity.
  unfold ghash. rewrite ch_small by (simpl; lia). cbn [foldl]. unfold tag_step.
  change (Z.lxor 0 (block_from (pad16 (replicate 16 0)))) with 0.
  apply gf2_128_mul_0_l.
Qed.

(** Zeros that only complete the last block change nothing. *)
Lemma ghash_zeros acc d k :
  (k < 16)%nat → ((length d + k) mod 16 = 0)%nat → ghash acc (d ++ replicate k 0) = ghash acc d.
Proof.
  clear. intros Hk Hm. destruct (decide (k = 0%nat)) as [->|Hk0]; [by rewrite app_nil_r|].
  set (m := (length d / 16 * 16)%nat).
  pose proof (Nat.div_mod_eq (length d) 16). pose proof (Nat.mod_upper_bound (length d) 16).
  assert (length d mod 16 + k = 16)%nat as Hr.
  { rewrite <-Nat.Div0.add_mod_idemp_l in Hm.
    destruct (decide (length d mod 16 + k < 16)%nat) as [Hlt|]; [rewrite Nat.mod_small in Hm by done; lia|].
    replace (length d mod 16 + k)%nat with ((length d mod 16 + k - 16) + 1 * 16)%nat in Hm by lia.
    rewrite Nat.Div0.mod_add, Nat.mod_small in Hm by lia. lia. }
  assert (length (drop m d) = length d mod 16)%nat as Hl by (rewrite length_drop; lia).
  rewrite <-(take_drop m d), <-app_assoc.
  assert (length (take m d) mod 16 = 0)%nat as Hal.
  { rewrite length_take, Nat.min_l by lia. apply Nat.Div0.mod_mul. }
  rewrite (ghash_app acc (take m d) (drop m d ++ replicate k 0)) by done.
  rewrite (ghash_app acc (take m d) (drop m d)) by done.
  generalize (ghash acc (take m d)). intros y. unfold ghash.
  rewrite !ch_small by (rewrite ?length_app, ?length_replicate; lia). cbn [foldl].
  unfold tag_step, pad16. rewrite <-app_assoc, length_app, length_replicate, <-replicate_add.
  replace (k + (16 - (length (drop m d) + k)))%nat with (16 - length (drop m d))%nat by lia.
  reflexivity.
Qed.

(** The padding of the additional data for the DMA engine: to a multiple of
    32 bytes, behind a block of zeros when the last 32 hold at most 16. *)
Definition pad_aad (aad : list Z) : list Z :=
  if decide (length aad mod 32 = 0)%nat then aad
  else
    let result :=
      if decide (length aad mod 32 ≤ 16)%nat then replicate 16 0 ++ aad else aad in
    let padding_needed := ((32 - length result mod 32) mod 32)%nat in
    result ++ replicate padding_needed 0.

Lemma pad_aad_ok aad :
  ghash 0 (pad_aad aad) = ghash 0 aad ∧
  length (pad_aad aad) = (if decide (length aad mod 32 = 0)%nat then length aad
                          else length aad + (32 - length aad mod 32))%nat.
Proof.
  clear. unfold pad_aad. case_decide as H0; [done|].
  pose proof (Nat.div_mod_eq (length aad) 32) as E. pose proof (Nat.mod_upper_bound (length aad) 32).
  set (q := (length aad / 32)%nat) in *. set (r := (length aad mod 32)%nat) in *.
  assert (∀ n m, n < 32 → (32 * m + n) mod 32 = n)%nat as Hmod.
  { intros n m Hn. rewrite Nat.add_comm, Nat.mul_comm, Nat.Div0.mod_add. by apply Nat.mod_small. }
  case_decide as H16.
  - rewrite length_app, length_replicate.
    replace ((32 - (16 + length aad) mod 32) mod 32)%nat with (16 - r)%nat.
    2: { rewrite E. replace (16 + (32 * q + r))%nat with (32 * q + (16 + r))%nat by lia.
         destruct (decide (r = 16%nat)) as [->|].
         - replace (32 * q + (16 + 16))%nat with (32 * (S q) + 0)%nat by lia.
           rewrite Hmod by lia. done.
         - rewrite Hmod by lia. rewrite Nat.mod_small by lia. lia. }
    rewrite <-app_assoc, ghash_zero_block. split.
    + apply ghash_zeros; [lia|]. rewrite E.
      replace (32 * q + r + (16 - r))%nat with ((1 + 2 * q) * 16)%nat by lia. apply Nat.Div0.mod_mul.
    + rewrite !length_app, !length_replicate. lia.
  - replace ((32 - length aad mod 32) mod 32)%nat with (32 - r)%nat
      by (fold r; rewrite Nat.mod_small; lia).
    split.
    + apply ghash_zeros; [lia|]. rewrite E.
      replace (32 * q + r + (32 - r))%nat with ((2 + 2 * q) * 16)%nat by lia. apply Nat.Div0.mod_mul.
    + rewrite length_app, length_replicate. lia.
Qed.

(** [next_multiple_of_32] is the padded length. *)
Lemma next_multiple_of_32_ok aad :
  Z.of_nat (length aad) + 32 < 2 ^ 64 →
  next_multiple_of_32 (Z.of_nat (length aad)) = Some (Z.of_nat (length (pad_aad aad))).
Proof.
  clear Hk Hkb Hiv Hivb. intros Hl. rewrite (proj2 (pad_aad_ok aad)). unfold next_multiple_of_32.
  change 32 with (Z.of_nat 32). rewrite <-Nat2Z.inj_mod.
  pose proof (Nat.mod_upper_bound (length aad) 32).
  case_decide as E.
  - by rewrite E.
  - rewrite (proj2 (Z.eqb_neq _ _)) by lia. rewrite (proj2 (Z.ltb_lt _ _)) by lia.
    f_equal. lia.
Qed.

(** ** Ranges *)

Lemma len_block_range a t : u128 (len_block a t).
Proof.
  clear. unfold len_block. assert (∀ v, u64 (Z.land v (2 ^ 64 - 1))) as Hm.
  { intros v. change (2 ^ 64 - 1) with (Z.ones 64). rewrite Z.land_ones by lia.
    apply Z.mod_pos_bound. lia. }
  pose proof (Hm (a * 8)) as Ha. pose proof (Hm (t * 8)) as Ht. cbv zeta.
  rewrite lor_shiftl_add by done. unfold uint_range in *. lia.
Qed.

Lemma tag_step_range y c : u128 y → (length c ≤ 16)%nat → bytes c → u128 (tag_step y c).
Proof.
  clear. intros Hy Hl Hc. apply gf2_128_mul_range, lxor_range; [done..|].
  by apply block_from_range, pad16_ok.
Qed.

Lemma ghash_range acc d : u128 acc → bytes d → u128 (ghash acc d).
Proof.
  clear. intros Ha Hd. unfold ghash. pose proof (ch_bytes d Hd) as Hb.
  pose proof (ch_lengths d) as Hl. revert acc Ha.
  induction (ch d) as [|c cs IH]; intros acc Ha; [done|]. cbn [foldl].
  apply list.Forall_cons in Hb as [? ?]. apply list.Forall_cons in Hl as [? ?].
  apply IH; [done..|]. apply tag_step_range; (done || lia).
Qed.

(** ** The algebra of the corrections *)

Ltac xor_ac := apply Z.bits_inj'; intros ? _; rewrite !Z.lxor_spec; btauto.

Lemma correct_lengths G Lb Lc h j :
  u128 G → u128 Lb → u128 Lc →
  Z.lxor (Z.lxor (gf2_128_mul (Z.lxor G Lb) h) j) (gf2_128_mul (Z.lxor Lb Lc) h) =
  Z.lxor (gf2_128_mul (Z.lxor G Lc) h) j.
Proof. clear. intros. rewrite !gf2_128_mul_lxor_l by done. xor_ac. Qed.

Lemma correct_last_block G Lb Lc c h j :
  u128 G → u128 Lb → u128 c →
  Z.lxor (Z.lxor (gf2_128_mul (Z.lxor G Lb) h) j)
    (Z.lxor (Z.lxor j (gf2_128_mul (Z.lxor Lb c) h)) Lc) =
  Z.lxor (gf2_128_mul (Z.lxor G c) h) Lc.
Proof. clear. intros. rewrite !gf2_128_mul_lxor_l by done. xor_ac. Qed.

Lemma correct_aad_only G Lb Lc c h j :
  u128 G → u128 Lb → u128 c →
  Z.lxor (Z.lxor (Z.lxor (Z.lxor (gf2_128_mul (Z.lxor G Lb) h) j) j) Lc)
    (gf2_128_mul (Z.lxor c Lb) h) =
  Z.lxor (gf2_128_mul (Z.lxor G c) h) Lc.
Proof. clear. intros. rewrite !gf2_128_mul_lxor_l by done. xor_ac. Qed.

(** ** A message split before its last, partial block *)

Lemma ch_aligned d q : length d = (16 * q)%nat → length (ch d) = q.
Proof.
  clear. revert q. induction d as [|d Hne IH] using ch_ind; intros q Hq; [simpl in *; lia|].
  rewrite ch_cons by done. cbn [length]. destruct q as [|q]; [by destruct d|].
  rewrite (IH q); [done|]. rewrite length_drop. lia.
Qed.

Lemma mod16_mult q : ((16 * q) mod 16 = 0)%nat.
Proof. clear. rewrite Nat.mul_comm. apply Nat.Div0.mod_mul. Qed.

Lemma crypt_split q d t :
  length d = (16 * q)%nat → (0 < length t ≤ 16)%nat → crypt (d ++ t) = crypt d ++ crypt_block q t.
Proof using.
  clear Hk Hkb Hiv Hivb. intros Hd Ht. unfold crypt.
  rewrite ch_app by (rewrite Hd; apply mod16_mult).
  rewrite (ch_small t) by done. rewrite imap_app, concat_app. cbn [imap concat].
  rewrite (ch_aligned d q) by done. by rewrite Nat.add_0_r, app_nil_r.
Qed.

Lemma gcm_tag_split aad q d t :
  length d = (16 * q)%nat → (0 < length t ≤ 16)%nat →
  gcm_tag aad (d ++ t) =
  Z.lxor (gf2_128_mul (Z.lxor (gf2_128_mul (Z.lxor (ghash (ghash 0 aad) d) (block_from (pad16 t)))
                                 hash_key)
                         (len_block (Z.of_nat (length aad)) (Z.of_nat (length d + length t))))
            hash_key) j0_block.
Proof using.
  clear Hk Hkb Hiv Hivb. intros Hd Ht. unfold gcm_tag.
  rewrite ghash_app by (rewrite Hd; apply mod16_mult). rewrite length_app.
  unfold ghash at 1. rewrite (ch_small t) by done. reflexivity.
Qed.

Lemma gcm_tag_range aad d : bytes aad → bytes d → u128 (gcm_tag aad d).
Proof using Hk Hkb Hiv Hivb.
  intros Ha Hd. apply lxor_range; [done| |apply j0_range].
  apply gf2_128_mul_range, lxor_range; [done| |apply len_block_range].
  apply ghash_range; [|done]. by apply ghash_range.
Qed.

Lemma crypt_bytes text : bytes text → bytes (crypt text).
Proof using Hk Hkb Hiv Hivb.
  intros Hb. apply List.Forall_concat, list.Forall_forall. intros c Hc.
  apply elem_of_lookup_imap in Hc as (i & c0 & -> & Hi).
  assert (c0 ∈ ch text) as Hin by (by eapply list_elem_of_lookup_2).
  pose proof (proj1 (list.Forall_forall _ _) (ch_bytes text Hb) c0 Hin) as Hcb.
  pose proof (proj1 (list.Forall_forall _ _) (ch_lengths text) c0 Hin) as Hcl. simpl in *.
  apply crypt_block_bytes; [lia|done].
Qed.

(** What is hashed: the output when encrypting, the input when decrypting. *)
Definition hashed (enc : bool) (text : list Z) : list Z := if enc then crypt text else text.

Lemma hashed_ok enc text : bytes text → bytes (hashed enc text) ∧ length (hashed enc text) = length text.
Proof using Hk Hkb Hiv Hivb.
  intros Hb. destruct enc; simpl; [|done]. split; [by apply crypt_bytes|apply length_crypt].
Qed.

(** *** The three corrections *)

(** The tag of the chopped message and the padded additional data. *)
Definition bad_tag (enc : bool) (aad chopped : list Z) : list Z :=
  block_bytes (gcm_tag (pad_aad aad) (hashed enc chopped)).

Lemma bad_tag_ok enc aad chopped :
  bytes aad → bytes chopped →
  block_from (bad_tag enc aad chopped) = gcm_tag (pad_aad aad) (hashed enc chopped).
Proof using Hk Hkb Hiv Hivb.
  intros Ha Hc. apply block_from_bytes. apply gcm_tag_range; [|by apply hashed_ok].
  unfold pad_aad. repeat case_decide; repeat apply Forall_app_2; (done || by apply Forall_replicate).
Qed.

Lemma pad_aad_aligned aad : Z.of_nat (length aad) mod 32 = 0 → pad_aad aad = aad.
Proof.
  clear. intros Hm. unfold pad_aad. rewrite decide_True; [done|].
  apply Nat2Z.inj. by rewrite Nat2Z.inj_mod.
Qed.

Lemma gcm_tag_pad enc aad text :
  bytes text →
  gcm_tag (pad_aad aad) (hashed enc text) =
  Z.lxor (gf2_128_mul (Z.lxor (ghash (ghash 0 aad) (hashed enc text))
    (len_block (Z.of_nat (length (pad_aad aad))) (Z.of_nat (length text)))) hash_key) j0_block.
Proof using Hk Hkb Hiv Hivb.
  intros Hb. unfold gcm_tag. rewrite (proj1 (pad_aad_ok aad)).
  by rewrite (proj2 (hashed_ok enc text Hb)).
Qed.

Lemma ghash2_range aad enc text :
  bytes aad → bytes text → u128 (ghash (ghash 0 aad) (hashed enc text)).
Proof using Hk Hkb Hiv Hivb.
  intros Ha Ht. apply ghash_range; [by apply ghash_range|by apply hashed_ok].
Qed.

(** The lengths of the additional data only. *)
Lemma tag_correct_lengths enc aad text :
  bytes aad → text_ok text → Z.of_nat (length aad) + 32 < 2 ^ 64 →
  (length text mod 16 = 0)%nat →
  bruns (gcm_tag_correct enc key iv (Z.of_nat (length aad)) (Z.of_nat (length text)) None
           (Some (bad_tag enc aad text)) []) []
    (Ok (block_bytes (gcm_tag aad (hashed enc text)))) [].
Proof using Hk Hkb Hiv Hivb.
  intros Ha [Htb Htl] Hal Hm. unfold gcm_tag_correct.
  eapply bruns_bind; [apply bruns_buffer|].
  do 2 (eapply bruns_bind; [apply bruns_unless, bool_decide_eq_true_2; simpl; lia|]).
  eapply bruns_bind; [by apply bruns_unless|].
  assert (Z.of_nat (length text) mod 16 = 0) as Hm'.
  { change 16 with (Z.of_nat 16). rewrite <-Nat2Z.inj_mod. lia. }
  case_decide as Hdec.
  { unfold bad_tag. rewrite pad_aad_aligned by apply Hdec. apply bruns_mret. }
  assert ((Z.of_nat (length text) + 15) / 16 + 1 < 2 ^ 32) as Hb.
  { pose proof (Z.mul_div_le (Z.of_nat (length text) + 15) 16). lia. }
  do 2 (eapply bruns_bind; [apply bruns_unless, Z.ltb_lt; lia|]).
  eapply bruns_bind; [apply bruns_on_engine, runs_compute_h|].
  eapply bruns_bind; [apply bruns_on_engine, runs_compute_j0|]. cbv zeta.
  eapply bruns_bind.
  { apply bruns_lift_ok. rewrite next_multiple_of_32_ok by done. reflexivity. }
  rewrite decide_True by done. rewrite bad_tag_ok, gcm_tag_pad by done.
  rewrite correct_lengths by first [apply len_block_range|by apply ghash2_range].
  unfold gcm_tag at 1. rewrite (proj2 (hashed_ok enc text Htb)). apply bruns_mret.
Qed.

Lemma hashed_split enc q d t :
  length d = (16 * q)%nat → (0 < length t ≤ 16)%nat →
  hashed enc (d ++ t) = hashed enc d ++ (if enc then crypt_block q t else t).
Proof using. clear Hk Hkb Hiv Hivb. intros Hd Ht. destruct enc; [by apply crypt_split|done]. Qed.

(** The tag of the whole message from the hash of the whole blocks. *)
Lemma gcm_tag_last (enc : bool) aad q d t :
  bytes d → length d = (16 * q)%nat → (0 < length t ≤ 16)%nat →
  let c := block_from (pad16 (if enc then crypt_block q t else t)) in
  gcm_tag aad (hashed enc (d ++ t)) =
  Z.lxor (gf2_128_mul (Z.lxor (gf2_128_mul (Z.lxor (ghash (ghash 0 aad) (hashed enc d)) c) hash_key)
    (len_block (Z.of_nat (length aad)) (Z.of_nat (length (d ++ t))))) hash_key) j0_block.
Proof using Hk Hkb Hiv Hivb.
  intros Hdb Hd Ht c. rewrite (hashed_split enc q) by done.
  destruct (hashed_ok enc d Hdb) as [_ Hl].
  assert (length (if enc then crypt_block q t else t) = length t) as Hl'.
  { destruct enc; [|done]. apply length_crypt_block. lia. }
  rewrite (gcm_tag_split aad q) by lia. rewrite Hl, Hl', length_app. reflexivity.
Qed.

Lemma last_block_range (enc : bool) q t :
  bytes t → (length t ≤ 16)%nat → u128 (block_from (pad16 (if enc then crypt_block q t else t))).
Proof using Hk Hkb Hiv Hivb.
  intros Hb Hl. apply block_from_range, pad16_ok; destruct enc; try done.
  - by rewrite length_crypt_block.
  - by apply crypt_block_bytes.
Qed.

Lemma fill_pad16 t : (length t ≤ 16)%nat → fill_zero (pad16 t) (length t) = Ok (pad16 t).
Proof.
  clear. intros Ht. unfold fill_zero, pad16. rewrite length_app, length_replicate.
  rewrite decide_True by lia. rewrite take_app_length.
  by replace (length t + (16 - length t) - length t)%nat with (16 - length t)%nat by lia.
Qed.

(** The last block, after whole blocks. *)
Lemma tag_correct_last enc aad q d t out :
  bytes aad → text_ok (d ++ t) → Z.of_nat (length aad) + 32 < 2 ^ 64 →
  length d = (16 * q)%nat → (0 < length t < 16)%nat → length out = length t →
  bruns (gcm_tag_correct enc key iv (Z.of_nat (length aad)) (Z.of_nat (length (d ++ t))) None
           (Some (bad_tag enc aad d)) t) out
    (Ok (block_bytes (gcm_tag aad (hashed enc (d ++ t))))) (crypt_block q t).
Proof using Hk Hkb Hiv Hivb.
  intros Ha [Htb Htl] Hal Hd Ht Hout. apply Forall_app in Htb as [Hdb Htb].
  assert (Z.of_nat (length (d ++ t)) = 16 * Z.of_nat q + Z.of_nat (length t)) as Hlen.
  { rewrite length_app. lia. }
  assert (Z.of_nat (length (d ++ t)) mod 16 = Z.of_nat (length t)) as Hm.
  { rewrite Hlen. symmetry. apply (Z.mod_unique _ _ (Z.of_nat q)); lia. }
  assert ((Z.of_nat (length (d ++ t)) + 15) / 16 = Z.of_nat q + 1) as Hq.
  { rewrite Hlen. symmetry.
    apply (Z.div_unique _ _ _ (Z.of_nat (length t) - 1)); lia. }
  unfold gcm_tag_correct. eapply bruns_bind; [apply bruns_buffer|].
  do 2 (eapply bruns_bind; [apply bruns_unless, bool_decide_eq_true_2; lia|]).
  eapply bruns_bind; [by apply bruns_unless|].
  rewrite decide_False by (intros (_ & _ & ->); simpl in Ht; lia).
  rewrite Hq. do 2 (eapply bruns_bind; [apply bruns_unless, Z.ltb_lt; lia|]).
  eapply bruns_bind; [apply bruns_on_engine, runs_compute_h|].
  eapply bruns_bind; [apply bruns_on_engine, runs_compute_j0|]. cbv zeta.
  eapply bruns_bind.
  { apply bruns_lift_ok. rewrite next_multiple_of_32_ok by done. reflexivity. }
  rewrite decide_False by lia. rewrite Hm.
  eapply bruns_bind; [apply bruns_lift_ok, zero_block_ok; lia|].
  eapply bruns_bind.
  { apply bruns_on_engine. replace (Z.of_nat q + 1 + 1) with (Z.of_nat q + 2) by lia.
    apply runs_gcm_crypt; [|lia]. unfold pad16. rewrite length_app, length_replicate. lia. }
  set (ob := zip_with Z.lxor (keystream q) (pad16 t)).
  assert (take (length t) ob = crypt_block q t) as Htk by (apply take_crypt_block; lia).
  eapply bruns_bind.
  { apply bruns_lift_ok. rewrite Hout, <-(take_drop (length t) ob), Htk. apply (slice_middle []); [done|].
    apply length_crypt_block. lia. }
  eapply (bruns_bind _ _ _ tt (crypt_block q t)).
  { apply bruns_write. rewrite Hout.
    pose proof (copy_middle (E:=SoftAesErr) [] out [] (crypt_block q t) 0 (length t)) as Hc.
    rewrite !app_nil_r in Hc. apply Hc; [done..|]. apply length_crypt_block. lia. }
  eapply (bruns_bind _ _ _ (pad16 (if enc then crypt_block q t else t))).
  { apply bruns_lift_ok. rewrite Nat2Z.id. destruct enc; [apply fill_crypt_block; lia|].
    apply fill_pad16. lia. }
  rewrite bad_tag_ok, gcm_tag_pad by done.
  replace (Z.of_nat (length (d ++ t)) - Z.of_nat (length t)) with (Z.of_nat (length d)) by lia.
  rewrite correct_last_block
    by first [apply len_block_range|by apply ghash2_range|apply last_block_range; (done || lia)].
  rewrite (gcm_tag_last enc aad q) by (done || lia).
  rewrite (gf2_128_mul_comm hash_key); [apply bruns_mret|apply hash_key_range|].
  apply lxor_range; [done| |apply len_block_range]. apply gf2_128_mul_range, lxor_range; [done| |].
  - by apply ghash2_range.
  - apply last_block_range; (done || lia).
Qed.

(** A message shorter than a block, with additional data. *)
Lemma tag_correct_short enc aad t out :
  bytes aad → text_ok t → Z.of_nat (length aad) + 32 < 2 ^ 64 →
  (0 < length t < 16)%nat → length out = length t →
  bruns (gcm_tag_correct_aad_only enc key iv (Z.of_nat (length aad)) (bad_tag enc aad []) t) out
    (Ok (block_bytes (gcm_tag aad (hashed enc t)))) (crypt_block 0 t).
Proof using Hk Hkb Hiv Hivb.
  intros Ha [Htb Htl] Hal Ht Hout. unfold gcm_tag_correct_aad_only.
  eapply bruns_bind; [apply bruns_buffer|].
  do 2 (eapply bruns_bind; [apply bruns_unless, bool_decide_eq_true_2; lia|]).
  eapply bruns_bind; [apply bruns_on_engine, runs_compute_h|].
  eapply bruns_bind; [apply bruns_on_engine, runs_compute_j0|].
  eapply bruns_bind.
  { apply bruns_lift_ok. rewrite next_multiple_of_32_ok by done. reflexivity. }
  cbv zeta. rewrite decide_True by lia.
  assert (crypt t = crypt_block 0 t) as Hct by (apply (crypt_split 0 []); [done|lia]).
  eapply (bruns_bind _ _ _ _ (crypt_block 0 t)).
  { rewrite <-Hct, <-(app_nil_r (crypt t)), <-(drop_ge out (length t)) by lia.
    apply aes_gcm_ok; [done|lia]. }
  eapply bruns_bind; [apply bruns_buffer|].
  assert (length (crypt_block 0 t) = length t) as Hlc by (apply length_crypt_block; lia).
  eapply (bruns_bind _ _ _ (if enc then crypt_block 0 t else t)).
  { apply bruns_lift_ok. unfold slice. rewrite decide_True by (destruct enc; lia).
    rewrite drop_0, take_ge by (destruct enc; lia). done. }
  eapply bruns_bind.
  { apply bruns_lift_ok, zero_block_ok. destruct enc; lia. }
  rewrite bad_tag_ok, gcm_tag_pad by (done || constructor).
  rewrite correct_aad_only
    by first [apply len_block_range|apply ghash2_range; (done || constructor)
             |apply last_block_range; (done || lia)].
  pose proof (gcm_tag_last enc aad 0 [] t ltac:(constructor) eq_refl ltac:(lia)) as Hlast.
  cbv zeta in Hlast. cbn [app] in Hlast. rewrite Hlast. apply bruns_mret.
Qed.
(** The dispatch over the corrections. *)
Lemma tag_correction_ok enc aad q d t out :
  bytes aad → text_ok (d ++ t) → Z.of_nat (length aad) + 32 < 2 ^ 64 →
  length d = (16 * q)%nat → (length t < 16)%nat → length out = length t →
  bruns (aes_gcm_tag_correction enc key iv (Z.of_nat (length aad)) (Z.of_nat (length (d ++ t))) None
           (Some (bad_tag enc aad d)) t (Z.of_nat (length d))) out
    (Ok (block_bytes (gcm_tag aad (hashed enc (d ++ t))))) (crypt_block q t).
Proof using Hk Hkb Hiv Hivb.
  intros Ha Ht Hal Hd Htl Hout. unfold aes_gcm_tag_correction. case_decide as Hdec.
  { destruct Hdec as (_ & Hd0 & Hne). assert (d = []) as -> by (by apply nil_length_inv; lia).
    assert (q = 0%nat) as -> by (simpl in Hd; lia). cbn [app].
    eapply bruns_bind; [by apply bruns_lift_ok|]. apply tag_correct_short; [done..| |done].
    destruct t; [done|]. simpl in *. lia. }
  destruct (decide (t = [])) as [->|Hne].
  - apply nil_length_inv in Hout as ->. rewrite app_nil_r in *. apply tag_correct_lengths; try done.
    rewrite Hd. apply mod16_mult.
  - apply tag_correct_last; try done. destruct t; [done|]. simpl in *. lia.
Qed.
(** Decryption undoes encryption. *)
Lemma crypt_invol text : bytes text → crypt (crypt text) = text.
Proof using Hk Hkb Hiv Hivb.
  intros Hb. unfold crypt at 1. unfold crypt at 1.
  rewrite ch_imap by (intros; by apply length_crypt_block).
  assert (imap crypt_block (imap crypt_block (ch text)) = ch text) as ->; [|apply ch_concat].
  apply list_eq. intros i. rewrite !list_lookup_imap.
  destruct (ch text !! i) as [c|] eqn:Hi; [|done]. simpl. f_equal.
  apply list_elem_of_lookup_2 in Hi.
  pose proof (proj1 (list.Forall_forall _ _) (ch_bytes text Hb) c Hi) as Hcb.
  pose proof (proj1 (list.Forall_forall _ _) (ch_lengths text) c Hi) as Hcl. simpl in *.
  apply crypt_block_invol; [lia|done].
Qed.
End reference.

(** ** Theorems *)

(** C20: the tag correction is exact.  Take any message and additional data;
    let the DMA engine run GCM over the whole blocks of the message with the
    additional data padded to 32 bytes.  [aes_gcm_tag_correction], given that
    tag, the lengths and the remaining bytes, returns the tag that GCM gives
    for the message and the data themselves, and writes the output bytes of
    the rest: on every path, encrypting or decrypting (no rest, a rest after
    whole blocks, a message shorter than a block with and without additional
    data). *)
Theorem gcm_tag_correction_exact `{SyncAesEcb} enc (key iv aad text out : list Z) :
  key_len_ok key → bytes key → length iv = 12%nat → bytes iv →
  bytes aad → Z.of_nat (length aad) + 32 < 2 ^ 64 → text_ok text → length out = length text →
  let k := (16 * (length text / 16))%nat in
  ∃ intermediate tag dma_out rest_out full_out,
    bruns (aes_gcm enc (take k text) key iv (pad_aad aad)) (take k out) (Ok intermediate) dma_out ∧
    bruns (aes_gcm_tag_correction enc key iv (Z.of_nat (length aad)) (Z.of_nat (length text)) None
             (Some intermediate) (drop k text) (Z.of_nat k)) (drop k out) (Ok tag) rest_out ∧
    bruns (aes_gcm enc text key iv aad) out (Ok tag) full_out ∧
    full_out = dma_out ++ rest_out.
Proof.
  intros Hk Hkb Hiv Hivb Ha Hal Ht Hout k.
  pose proof (Nat.div_mod_eq (length text) 16) as Hdm.
  pose proof (Nat.mod_upper_bound (length text) 16) as Hmu.
  set (q := (length text / 16)%nat) in *.
  assert (length (take k text) = (16 * q)%nat) as Hlt by (rewrite length_take; lia).
  assert (length (drop k text) = length text mod 16)%nat as Hlr by (rewrite length_drop; lia).
  assert (text_ok (take k text)) as Htk.
  { destruct Ht as [Hb Hl]. split; [by apply Forall_take|]. lia. }
  pose proof (aes_gcm_ok key iv Hk Hkb Hiv Hivb enc (take k text) (pad_aad aad) (take k out) Htk)
    as Hdma.
  pose proof (aes_gcm_ok key iv Hk Hkb Hiv Hivb enc text aad out Ht) as Hfull.
  fold (hashed key iv enc text) in Hfull. fold (hashed key iv enc (take k text)) in Hdma.
  fold (bad_tag key iv enc aad (take k text)) in Hdma.
  rewrite (drop_ge out), app_nil_r in Hfull by lia.
  rewrite (drop_ge (take k out)), app_nil_r in Hdma by (rewrite !length_take; lia).
  assert (text_ok (take k text ++ drop k text)) as Ht' by (by rewrite take_drop).
  pose proof (tag_correction_ok key iv Hk Hkb Hiv Hivb enc aad q (take k text) (drop k text)
                (drop k out) Ha Ht' Hal Hlt) as Hfix.
  rewrite take_drop, Hlt in Hfix.
  do 5 eexists. split; [apply Hdma; rewrite !length_take; lia|].
  split; [apply Hfix; rewrite ?length_drop; lia|]. split; [apply Hfull; lia|].
  rewrite <-(take_drop k text) at 1. destruct (decide (drop k text = [])) as [Hnil|Hne].
  - rewrite Hnil. cbn [crypt_block length take zip_with]. by rewrite !app_nil_r.
  - apply crypt_split; [done|]. destruct (drop k text); [done|]. cbn [length] in *. lia.
Qed.

Lemma gcm_tag_correction_exact_witness :
  let key := replicate 16 7 in
  let iv := replicate 12 9 in
  let aad := replicate 5 1 in
  let text := replicate 19 3 in
  ∃ intermediate tag dma_out rest_out full_out,
    @bruns softaes_ecb _ (aes_gcm true (take 16 text) key iv (pad_aad aad)) (replicate 16 0)
      (Ok intermediate) dma_out ∧
    @bruns softaes_ecb _ (aes_gcm_tag_correction true key iv 5 19 None (Some intermediate)
      (drop 16 text) 16) (replicate 3 0) (Ok tag) rest_out ∧
    @bruns softaes_ecb _ (aes_gcm true text key iv aad) (replicate 19 0) (Ok tag) full_out ∧
    full_out = dma_out ++ rest_out.
Proof.
  cbv zeta. apply (@gcm_tag_correction_exact softaes_ecb true (replicate 16 7) (replicate 12 9)
    (replicate 5 1) (replicate 19 3) (replicate 19 0)).
  - by left.
  - by apply Forall_replicate.
  - reflexivity.
  - by apply Forall_replicate.
  - by apply Forall_replicate.
  - simpl. lia.
  - split; [by apply Forall_replicate|simpl; lia].
  - reflexivity.
Defined.

(** Decrypting with the software GCM gives the message back and the tag
    of the encryption: for every message up to the counter's limit, every
    additional data and every valid key, [aes_gcm] over the output of
    [aes_gcm] restores the input and returns the same tag.  A message longer
    than the output buffer is refused and writes nothing. *)
Theorem aes_gcm_roundtrip `{SyncAesEcb} (key iv aad text out back : list Z) :
  key_len_ok key → bytes key → length iv = 12%nat → bytes iv →
  text_ok text → length out = length text → length back = length text →
  (∃ tag ciphertext,
    bruns (aes_gcm true text key iv aad) out (Ok tag) ciphertext ∧
    bruns (aes_gcm false ciphertext key iv aad) back (Ok tag) text) ∧
  (∀ enc short, (length short < length text)%nat →
    bruns (aes_gcm enc text key iv aad) short (Err InsufficientOutputBufferLength) short).
Proof.
  intros Hk Hkb Hiv Hivb Ht Hout Hback. split.
  - pose proof (length_crypt key iv Hk Hkb Hiv Hivb text) as Hl.
    assert (text_ok (crypt key iv text)) as Hc.
    { destruct Ht as [Hb Hl']. split; [by apply crypt_bytes|lia]. }
    pose proof (aes_gcm_ok key iv Hk Hkb Hiv Hivb true text aad out Ht ltac:(lia)) as He.
    pose proof (aes_gcm_ok key iv Hk Hkb Hiv Hivb false (crypt key iv text) aad back Hc ltac:(lia)) as Hd.
    rewrite drop_ge, app_nil_r in He by lia. rewrite drop_ge, app_nil_r in Hd by lia.
    rewrite crypt_invol in Hd by (done || apply Ht).
    eexists _, _. split; [exact He|exact Hd].
  - intros enc short Hs. unfold aes_gcm. eapply bruns_bind; [apply bruns_buffer|].
    apply bruns_bind_err, bruns_unless_err, bool_decide_eq_false_2. lia.
Qed.

Lemma aes_gcm_roundtrip_witness :
  ∃ tag ciphertext,
    @bruns softaes_ecb _ (aes_gcm true (replicate 19 3) (replicate 16 7) (replicate 12 9) [1; 2])
      (replicate 19 0) (Ok tag) ciphertext ∧
    @bruns softaes_ecb _ (aes_gcm false ciphertext (replicate 16 7) (replicate 12 9) [1; 2])
      (replicate 19 0) (Ok tag) (replicate 19 3).
Proof.
  apply (@aes_gcm_roundtrip softaes_ecb (replicate 16 7) (replicate 12 9)
    [1; 2] (replicate 19 3) (replicate 19 0) (replicate 19 0)).
  - by left.
  - by apply Forall_replicate.
  - reflexivity.
  - by apply Forall_replicate.
  - split; [by apply Forall_replicate|simpl; lia].
  - reflexivity.
  - reflexivity.
Defined.
