(* ===== verification/SoftAesEngine.v ===== *)
(** * The software AES engine in use (drivers/crypto/softaes: engine.rs)

    [ecb_decrypt] and the two power-on self tests of [SoftAesTrait], with the
    vectors of the source, and the theorems of the engine: the cached round
    keys are never observable, and the self tests pass with the cipher of
    FIPS-197. *)

From stdpp Require Import base list numbers option.
From S2P Require Import Prelude SoftAes Aes KeyWrap KeyWrapProps GcmTagProps.

Local Open Scope Z_scope.

Definition AES_ECB_256_SELF_TEST_MESSAGE : list Z :=
  [0xF3; 0xEE; 0xD1; 0xBD; 0xB5; 0xD2; 0xA0; 0x3C; 0x06; 0x4B; 0x5A; 0x7E; 0x3D; 0xB1; 0x81; 0xF8;
   0x59; 0x1C; 0xCB; 0x10; 0xD4; 0x10; 0xED; 0x26; 0xDC; 0x5B; 0xA7; 0x4A; 0x31; 0x36; 0x28; 0x70;
   0xB6; 0xED; 0x21; 0xB9; 0x9C; 0xA6; 0xF4; 0xF9; 0xF1; 0x53; 0xE7; 0xB1; 0xBE; 0xAF; 0xED; 0x1D;
   0x23; 0x30; 0x4B; 0x7A; 0x39; 0xF9; 0xF3; 0xFF; 0x06; 0x7D; 0x8D; 0x8F; 0x9E; 0x24; 0xEC; 0xC7].

Definition AES_ECB_256_SELF_TEST_KEY : list Z :=
  [0x60; 0x3D; 0xEB; 0x10; 0x15; 0xCA; 0x71; 0xBE; 0x2B; 0x73; 0xAE; 0xF0; 0x85; 0x7D; 0x77; 0x81;
   0x1F; 0x35; 0x2C; 0x07; 0x3B; 0x61; 0x08; 0xD7; 0x2D; 0x98; 0x10; 0xA3; 0x09; 0x14; 0xDF; 0xF4].

Definition AES_ECB_256_SELF_TEST_EXPECTED : list Z :=
  [0x6B; 0xC1; 0xBE; 0xE2; 0x2E; 0x40; 0x9F; 0x96; 0xE9; 0x3D; 0x7E; 0x11; 0x73; 0x93; 0x17; 0x2A;
   0xAE; 0x2D; 0x8A; 0x57; 0x1E; 0x03; 0xAC; 0x9C; 0x9E; 0xB7; 0x6F; 0xAC; 0x45; 0xAF; 0x8E; 0x51;
   0x30; 0xC8; 0x1C; 0x46; 0xA3; 0x5C; 0xE4; 0x11; 0xE5; 0xFB; 0xC1; 0x19; 0x1A; 0x0A; 0x52; 0xEF;
   0xF6; 0x9F; 0x24; 0x45; 0xDF; 0x4F; 0x9B; 0x17; 0xAD; 0x2B; 0x41; 0x7B; 0xE6; 0x6C; 0x37; 0x10].

Section code.
Context `{SyncAesEcb}.

(** [for block in inout.chunks_mut(16) { self.decrypt(key, block)? }]: the
    chunk that starts at [off] is replaced in the buffer. *)
Definition decrypt_chunks (key : list Z) (n : nat) : BM () :=
  _ ← for_loop (λ off _,
        inout ← buffer;
        let len := Nat.min 16 (length inout - off) in
        block ← lift (slice inout off len);
        block ← on_engine (decrypt key block);
        write_slice off len block;;
        mret (off + 16)%nat) 0%nat (seq 0 n);
  mret tt.

(** [SoftAesTrait::ecb_decrypt]; the buffer is [inout], the result the end of
    the range that starts at 0. *)
Definition ecb_decrypt (key : list Z) : BM nat :=
  unless (bool_decide (key_len_ok key)) InvalidKekLength;;
  inout ← buffer;
  unless (bool_decide (length inout mod 16 = 0)%nat) InsufficientInputLength;;
  decrypt_chunks key (length inout / 16);;
  mret (length inout).

(** The self tests work on a local copy of the message: the buffer. *)
Definition aes_ecb_256_decrypt_self_test : BM () :=
  set_buffer AES_ECB_256_SELF_TEST_MESSAGE;;
  decrypt_chunks AES_ECB_256_SELF_TEST_KEY 4;;
  message ← buffer;
  unless (bool_decide (message = AES_ECB_256_SELF_TEST_EXPECTED)) SoftAesSelfTestDecryptFailure.

Definition aes_256_key_unwrap_self_test : BM () :=
  set_buffer nist_wrapped;;
  range ← key_unwrap_inplace nist_kek;
  let '(first, last) := (range : nat * nat) in
  input ← buffer;
  key ← lift (slice input first (last - first));
  unless (bool_decide (key = nist_key)) SoftAesSelfTestKeyUnwrapFailure.

(** ** Block by block *)

Lemma decrypt_chunks_loop key cs : ∀ w,
  key_len_ok key → Forall (λ c, length c = 16%nat) cs → (∀ c, c ∈ cs → length (decipher key c) = 16%nat) →
  ∀ a,
  bruns (for_loop (λ off _,
        inout ← buffer;
        let len := Nat.min 16 (length inout - off) in
        block ← lift (slice inout off len);
        block ← on_engine (decrypt key block);
        write_slice off len block;;
        mret (off + 16)%nat) (length w) (seq a (length cs))) (w ++ concat cs)
    (Ok (length w + 16 * length cs)%nat) (w ++ concat (decipher key <$> cs)).
Proof.
  induction cs as [|c cs IH]; intros w Hk Hcs Hd a; rewrite ?fmap_cons;
    cbn [length seq for_loop concat fmap list_fmap].
  { rewrite Nat.mul_0_r, Nat.add_0_r. apply bruns_mret. }
  apply list.Forall_cons in Hcs as [Hc Hcs].
  assert (length (decipher key c) = 16%nat) as Hdc by (apply Hd; by left).
  eapply (bruns_bind _ _ _ (length (w ++ decipher key c)) ((w ++ decipher key c) ++ concat cs)).
  - eapply bruns_bind; [apply bruns_buffer|].
    cbv zeta. replace (16 `min` (length (w ++ c ++ concat cs) - length w))%nat with 16%nat
      by (rewrite !length_app; lia).
    eapply bruns_bind; [apply bruns_lift_ok, slice_middle; [reflexivity|exact Hc]|].
    eapply bruns_bind.
    { apply bruns_on_engine. eapply runs_proper; [apply runs_decrypt|].
      unfold ecb_result. rewrite decide_False, decide_True by (done || lia). done. }
    eapply bruns_bind; [apply bruns_write, copy_middle; [reflexivity|exact Hc|exact Hdc]|].
    rewrite length_app, Hdc, <-app_assoc. apply bruns_mret.
  - replace (length w + 16 * S (length cs))%nat
      with (length (w ++ decipher key c) + 16 * length cs)%nat by (rewrite length_app; lia).
    rewrite app_assoc. apply IH; [done..|]. intros x Hx. apply Hd. by right.
Qed.

Lemma ch_full d : (length d mod 16 = 0)%nat → Forall (λ c, length c = 16%nat) (ch d).
Proof.
  induction d as [|d Hne IH] using ch_ind; intros Hm; [constructor|]. rewrite ch_cons by done.
  assert (16 ≤ length d)%nat as H16.
  { destruct (decide (length d < 16)%nat); [|lia]. rewrite Nat.mod_small in Hm by done.
    by destruct d. }
  constructor; [rewrite length_take; lia|]. apply IH. rewrite length_drop.
  replace (length d) with (length d - 16 + 1 * 16)%nat in Hm by lia.
  by rewrite Nat.Div0.mod_add in Hm.
Qed.

(** The reference: every block deciphered. *)
Definition ecb (f : list Z → list Z) (text : list Z) : list Z := concat (f <$> ch text).

Lemma ecb_decrypt_ok key text :
  key_len_ok key → bytes key → bytes text → (length text mod 16 = 0)%nat →
  bruns (ecb_decrypt key) text (Ok (length text)) (ecb (decipher key) text).
Proof.
  intros Hk Hkb Hb Hm. unfold ecb_decrypt.
  eapply bruns_bind; [by apply bruns_unless, bool_decide_eq_true_2|].
  eapply bruns_bind; [apply bruns_buffer|].
  eapply bruns_bind; [by apply bruns_unless, bool_decide_eq_true_2|].
  eapply bruns_bind; [|apply bruns_mret]. unfold decrypt_chunks.
  eapply bruns_bind; [|apply bruns_mret].
  pose proof (Nat.div_mod_eq (length text) 16) as E.
  rewrite <-(ch_aligned text (length text / 16)) by lia.
  pose proof (decrypt_chunks_loop key (ch text) [] Hk (ch_full text Hm)) as Hl.
  rewrite ch_concat in Hl. apply Hl. intros c Hc.
  pose proof (proj1 (list.Forall_forall _ _) (ch_bytes text Hb) c Hc) as Hcb.
  pose proof (proj1 (list.Forall_forall _ _) (ch_full text Hm) c Hc) as Hcl.
  by apply decipher_block.
Qed.

End code.

(** ** The engine under any sequence of requests *)

Inductive request := Encrypt (key block : list Z) | Decrypt (key block : list Z).

Section requests.
Context `{SyncAesEcb}.

Definition serve (r : request) : engine → outcome SoftAesErr (list Z) * engine :=
  match r with Encrypt k b => encrypt k b | Decrypt k b => decrypt k b end.

Fixpoint serve_all (rs : list request) (e : engine) : list (outcome SoftAesErr (list Z)) * engine :=
  match rs with
  | [] => ([], e)
  | r :: rs => let '(o, e) := serve r e in let '(os, e) := serve_all rs e in (o :: os, e)
  end.

(** What each request answers when the round keys are computed for it. *)
Definition answer (r : request) : outcome SoftAesErr (list Z) :=
  match r with
  | Encrypt k b => ecb_result cipher k b
  | Decrypt k b => ecb_result decipher k b
  end.

Lemma serve_ok r : runs (serve r) (answer r).
Proof. destruct r; [apply runs_encrypt|apply runs_decrypt]. Qed.

Lemma serve_all_ok rs e : engine_ok e → (serve_all rs e).1 = answer <$> rs.
Proof.
  revert e. induction rs as [|r rs IH]; intros e He; simpl; [done|].
  destruct (serve_ok r e He) as (e' & -> & He'). specialize (IH e' He').
  destruct (serve_all rs e') as [os e'']. simpl in *. by rewrite IH.
Qed.
End requests.

(** The cache of round keys cannot be observed.  Starting from a new
    engine, any sequence of block encryptions and decryptions under any keys,
    of any of the three sizes or none of them, answers each request exactly
    as if its round keys were computed afresh: the right permutation of the
    block, [InvalidKekLength] or [InsufficientInputLength]; a refused request
    does not disturb the later ones. *)
Theorem softaes_cache_transparent `{Cm7Aes} (rs : list request) :
  (serve_all rs Engine.new).1 = answer <$> rs.
Proof. apply (@serve_all_ok softaes_ecb). exact Engine.new_ok. Qed.

Example softaes_cache_used :
  (serve_all [Decrypt nist_kek (replicate 16 0); Encrypt nist_kek (replicate 15 0);
              Encrypt nist_kek (replicate 16 0); Encrypt [] (replicate 16 0)] Engine.new).1 =
  [Ok (Engine.decipher nist_kek (replicate 16 0)); Err InsufficientInputLength;
   Ok (Engine.cipher nist_kek (replicate 16 0)); Err InvalidKekLength].
Proof. vm_compute. reflexivity. Qed.

(** ** Whole buffers *)

Section ecb.
Context `{SyncAesEcb} (key : list Z).
Hypothesis (Hk : key_len_ok key) (Hkb : bytes key).

Lemma ecb_inverse text :
  bytes text → (length text mod 16 = 0)%nat →
  ecb (decipher key) (ecb (cipher key) text) = text ∧
  bytes (ecb (cipher key) text) ∧ length (ecb (cipher key) text) = length text.
Proof using Hk Hkb.
  induction text as [|d Hne IH] using ch_ind; intros Hb Hm; [done|].
  pose proof (ch_full d Hm) as Hf. rewrite ch_cons in Hf by done.
  apply list.Forall_cons in Hf as [H16 _].
  assert (length (drop 16 d) mod 16 = 0)%nat as Hm'.
  { rewrite length_drop. rewrite length_take in H16.
    replace (length d) with (length d - 16 + 1 * 16)%nat in Hm by lia.
    by rewrite Nat.Div0.mod_add in Hm. }
  destruct IH as (IH1 & IH2 & IH3); [by apply Forall_drop|done|].
  assert (block_ok (take 16 d)) as Hbk by (split; [done|by apply Forall_take]).
  destruct (cipher_block key (take 16 d)) as [Hcl Hcb]; [done..|].
  unfold ecb in *. rewrite (ch_cons d) by done. rewrite fmap_cons. cbn [concat].
  rewrite ch_app by (by rewrite Hcl). rewrite (ch_small (cipher key (take 16 d))) by lia.
  rewrite fmap_app. cbn [fmap list_fmap]. rewrite concat_app. cbn [concat].
  rewrite app_nil_r, decipher_cipher by done. split_and!.
  - rewrite IH1. apply take_drop.
  - by apply Forall_app_2.
  - rewrite length_app, Hcl, IH3, length_drop. rewrite length_take in H16. lia.
Qed.
End ecb.

(** [ecb_decrypt] inverts AES in ECB mode over a buffer.  With a key of a
    valid size it turns the block-wise encryption of any whole number of
    blocks back into the plaintext and reports the whole buffer; with any
    other key, or a buffer that is not a whole number of blocks, it returns
    the matching error and leaves the buffer as it was. *)
Theorem ecb_decrypt_exact `{SyncAesEcb} (key text : list Z) :
  bytes key → bytes text →
  (key_len_ok key → (length text mod 16 = 0)%nat →
    bruns (ecb_decrypt key) (ecb (cipher key) text) (Ok (length text)) text) ∧
  (¬ key_len_ok key → bruns (ecb_decrypt key) text (Err InvalidKekLength) text) ∧
  (key_len_ok key → (length text mod 16 ≠ 0)%nat →
    bruns (ecb_decrypt key) text (Err InsufficientInputLength) text).
Proof.
  intros Hkb Hb. split_and!.
  - intros Hk Hm. destruct (ecb_inverse key Hk Hkb text Hb Hm) as (Hinv & Hcb & Hcl).
    pose proof (ecb_decrypt_ok key (ecb (cipher key) text) Hk Hkb Hcb) as Hd.
    rewrite Hinv, Hcl in Hd. by apply Hd.
  - intros Hk. apply bruns_bind_err, bruns_unless_err. by apply bool_decide_eq_false_2.
  - intros Hk Hm. eapply bruns_bind; [by apply bruns_unless, bool_decide_eq_true_2|].
    eapply bruns_bind; [apply bruns_buffer|].
    apply bruns_bind_err, bruns_unless_err. by apply bool_decide_eq_false_2.
Qed.

Lemma ecb_decrypt_exact_witness :
  @bruns softaes_ecb _ (@ecb_decrypt softaes_ecb (replicate 16 7))
    (ecb (@cipher softaes_ecb (replicate 16 7)) (replicate 32 9)) (Ok 32%nat) (replicate 32 9).
Proof.
  destruct (@ecb_decrypt_exact softaes_ecb (replicate 16 7) (replicate 32 9)) as [Hd _].
  - by apply Forall_replicate.
  - by apply Forall_replicate.
  - apply Hd; [by left|reflexivity].
Defined.

(** The self tests pass on a new engine, and the message of the first one is
    the published plaintext. *)
Example ecb_self_test_passes :
  run_code aes_ecb_256_decrypt_self_test [] = (Ok tt, AES_ECB_256_SELF_TEST_EXPECTED).
Proof. vm_compute. reflexivity. Qed.

Example key_unwrap_self_test_passes :
  (run_code aes_256_key_unwrap_self_test []).1 = Ok tt.
Proof. vm_compute. reflexivity. Qed.
