(* ===== verification/Wire.v ===== *)
(** * Byte layouts of [repr(C)] structures

    The structures the processors exchange derive [IntoBytes] and [FromBytes]
    of zerocopy: every field at its place, integers in little-endian order,
    no padding.  A [wire A] is such a layout with the laws a client needs: a
    fixed size, both round trips, and that decoded values are in range.
    Layouts are built from integers, arrays, pairs and isomorphisms with
    records. *)

From stdpp Require Import base list numbers.
From S2P Require Import Prelude.

Local Open Scope Z_scope.

Abbreviation octets := (Forall (uint_range 8)).

Record wire (A : Type) := mkWire {
  wsize : nat;
  as_bytes : A → list Z;
  read_bytes : list Z → A;
  in_range : A → Prop;
  as_bytes_length a : in_range a → length (as_bytes a) = wsize;
  as_bytes_octets a : in_range a → octets (as_bytes a);
  read_as_bytes a : in_range a → read_bytes (as_bytes a) = a;
  read_in_range l : length l = wsize → octets l → in_range (read_bytes l);
  as_read_bytes l : length l = wsize → octets l → as_bytes (read_bytes l) = l
}.
Arguments wsize {_}.
Arguments as_bytes {_}.
Arguments read_bytes {_}.
Arguments in_range {_}.
Arguments as_bytes_length {_}.
Arguments as_bytes_octets {_}.
Arguments read_as_bytes {_}.
Arguments read_in_range {_}.
Arguments as_read_bytes {_}.

#[export] Hint Resolve as_bytes_length as_bytes_octets read_in_range : fw.

(** ** Integers *)

Program Definition uint (n : nat) : wire Z := {|
  wsize := n;
  as_bytes := to_le_bytes n;
  read_bytes := from_le_bytes;
  in_range v := uint_range (8 * Z.of_nat n) v
|}.
Next Obligation. intros n a _. apply length_to_le_bytes. Qed.
Next Obligation. intros n a _. apply to_le_bytes_range. Qed.
Next Obligation. intros n a Ha. by apply from_to_le_bytes. Qed.
Next Obligation. intros n l <- Hl. by apply from_le_bytes_range. Qed.
Next Obligation. intros n l <- Hl. by apply to_from_le_bytes. Qed.

Definition u8 : wire Z := uint 1.
Definition u16 : wire Z := uint 2.
Definition u32 : wire Z := uint 4.
Definition u64 : wire Z := uint 8.

(** ** Pairs *)

Program Definition wpair {A B} (wa : wire A) (wb : wire B) : wire (A * B) := {|
  wsize := wsize wa + wsize wb;
  as_bytes '(a, b) := as_bytes wa a ++ as_bytes wb b;
  read_bytes l := (read_bytes wa (take (wsize wa) l), read_bytes wb (drop (wsize wa) l));
  in_range '(a, b) := in_range wa a ∧ in_range wb b
|}.
Next Obligation. intros A B wa wb [a b] [Ha Hb]. simpl. rewrite length_app. auto with fw. Qed.
Next Obligation. intros A B wa wb [a b] [Ha Hb]. simpl. apply Forall_app_2; auto with fw. Qed.
Next Obligation.
  intros A B wa wb [a b] [Ha Hb]. simpl. rewrite take_app_length', drop_app_length' by (symmetry; auto with fw).
  by rewrite !read_as_bytes.
Qed.
Next Obligation.
  intros A B wa wb l Hl Ho. simpl in *. split; apply read_in_range.
  - rewrite length_take. lia.
  - by apply Forall_take.
  - rewrite length_drop. lia.
  - by apply Forall_drop.
Qed.
Next Obligation.
  intros A B wa wb l Hl Ho. simpl in *. rewrite !as_read_bytes.
  - apply take_drop.
  - rewrite length_drop. lia.
  - by apply Forall_drop.
  - rewrite length_take. lia.
  - by apply Forall_take.
Qed.

(** ** Arrays *)

Fixpoint read_items {A} (w : wire A) (n : nat) (l : list Z) : list A :=
  match n with
  | O => []
  | S n => read_bytes w (take (wsize w) l) :: read_items w n (drop (wsize w) l)
  end.

Section array.
Context {A} (w : wire A).

Definition array_ok (n : nat) (l : list A) : Prop := length l = n ∧ Forall (in_range w) l.

Lemma items_length n l : array_ok n l → length (concat (as_bytes w <$> l)) = (n * wsize w)%nat.
Proof.
  intros [<- Hl]. induction Hl as [|a l Ha _ IH]; [done|].
  rewrite fmap_cons. cbn [concat length Nat.mul]. rewrite length_app, IH, as_bytes_length by done. done.
Qed.

Lemma items_octets n l : array_ok n l → octets (concat (as_bytes w <$> l)).
Proof.
  intros [_ Hl]. induction Hl as [|a l Ha _ IH]; [constructor|].
  rewrite fmap_cons. cbn [concat]. apply Forall_app_2; auto with fw.
Qed.

Lemma read_items_as_bytes n l : array_ok n l → read_items w n (concat (as_bytes w <$> l)) = l.
Proof.
  intros [<- Hl]. induction Hl as [|a l Ha _ IH]; [done|].
  rewrite fmap_cons. cbn [concat length read_items].
  rewrite take_app_length', drop_app_length' by (symmetry; auto with fw). by rewrite read_as_bytes, IH.
Qed.

Lemma read_items_ok n : ∀ l,
  length l = (n * wsize w)%nat → octets l →
  array_ok n (read_items w n l) ∧ concat (as_bytes w <$> read_items w n l) = l.
Proof.
  induction n as [|n IH]; intros l Hl Ho; cbn [read_items Nat.mul] in *.
  { split; [by split|]. by apply nil_length_inv in Hl as ->. }
  assert (length (take (wsize w) l) = wsize w ∧ octets (take (wsize w) l)) as [H1 H2]
    by (split; [rewrite length_take; lia|by apply Forall_take]).
  destruct (IH (drop (wsize w) l)) as [[H3 H4] H5];
    [rewrite length_drop; lia|by apply Forall_drop|]. split.
  - split; [by simpl; rewrite H3|]. constructor; auto with fw.
  - rewrite fmap_cons. cbn [concat]. rewrite H5, as_read_bytes by done. apply take_drop.
Qed.
End array.

Definition array {A} (n : nat) (w : wire A) : wire (list A) := {|
  wsize := n * wsize w;
  as_bytes l := concat (as_bytes w <$> l);
  read_bytes := read_items w n;
  in_range := array_ok w n;
  as_bytes_length := items_length w n;
  as_bytes_octets := items_octets w n;
  read_as_bytes := read_items_as_bytes w n;
  read_in_range l Hl Ho := proj1 (read_items_ok w n l Hl Ho);
  as_read_bytes l Hl Ho := proj2 (read_items_ok w n l Hl Ho)
|}.

(** ** Records *)

Program Definition iso {A B} (w : wire A) (f : A → B) (g : B → A)
    (fg : ∀ b, f (g b) = b) (gf : ∀ a, g (f a) = a) : wire B := {|
  wsize := wsize w;
  as_bytes b := as_bytes w (g b);
  read_bytes l := f (read_bytes w l);
  in_range b := in_range w (g b)
|}.
Next Obligation. intros A B w f g fg gf b Hb. by apply as_bytes_length. Qed.
Next Obligation. intros A B w f g fg gf b Hb. by apply as_bytes_octets. Qed.
Next Obligation. intros A B w f g fg gf b Hb. simpl. by rewrite read_as_bytes, fg. Qed.
Next Obligation. intros A B w f g fg gf l Hl Ho. simpl. rewrite gf. by apply read_in_range. Qed.
Next Obligation. intros A B w f g fg gf l Hl Ho. simpl. rewrite gf. by apply as_read_bytes. Qed.

(** The isomorphism of a record with the tuple of its fields. *)
Ltac tuple_iso := intros; repeat match goal with p : _ * _ |- _ => destruct p end; reflexivity.
#[warnings="-non-reversible-notation"]
Abbreviation record w f g := (iso w f g ltac:(by intros []) ltac:(tuple_iso)).

(** Bytes, and a structure laid out in another's bytes: [transmute] of one
    layout into another of the same size. *)
Definition reread {A B} (wa : wire A) (wb : wire B) (a : A) : B := read_bytes wb (as_bytes wa a).

Lemma reread_reread {A B} (wa : wire A) (wb : wire B) a :
  wsize wa = wsize wb → in_range wa a → reread wb wa (reread wa wb a) = a.
Proof.
  intros Hs Ha. unfold reread. rewrite as_read_bytes.
  - by apply read_as_bytes.
  - rewrite <-Hs. by apply as_bytes_length.
  - by apply as_bytes_octets.
Qed.

Lemma reread_range {A B} (wa : wire A) (wb : wire B) a :
  wsize wa = wsize wb → in_range wa a → in_range wb (reread wa wb a).
Proof.
  intros Hs Ha. apply read_in_range; [rewrite <-Hs|]; auto with fw.
Qed.
