(* ===== verification/IpcChannel.v ===== *)
(** * Inter-processor channels (drivers/ipc: channel.rs, cntrl.rs, lib.rs)

    A message channel has two ring buffers in shared memory, one per
    direction, and the tag of the request in flight; an event channel only
    writes and reads descriptor registers.  The interrupt and descriptor
    registers are hardware: they enter as the class [IpcHw] of register reads
    and writes, so every theorem about channels holds whatever the hardware
    does; what a theorem needs of it is a hypothesis of that theorem.

    - [Msg]: [IpcMessageChannelImpl]; its queues are the ring buffers of
      [Simplex.v] ([rep]).
    - [Evt]: [IpcEventChannelImpl].
    - [Cntrl]: [IpcController].
    - [Link]: two processors on one channel, whatever they do, against two
      bounded queues and a tag; and, when the responder answers only what it
      was asked, against a protocol. *)

From stdpp Require Import base list numbers option sorting.
From S2P Require Import Prelude Simplex CmdScheduler CmdSchedulerProps.

Local Open Scope Z_scope.

(** [IpcControllerErr]. *)
Inductive IpcControllerErr :=
  | EventNotConfigured | MessageQueueFull | ChannelBusy | InvalidIpc.
#[global] Instance IpcControllerErr_eq_dec : EqDecision IpcControllerErr.
Proof. solve_decision. Defined.

Definition IPC_MESSAGE_LENGTH : nat := 16.

(** [IpcMessage]: sixteen 32-bit words. *)
Abbreviation IpcMessage := (list Z).
Definition message_ok (m : IpcMessage) : Prop := length m = IPC_MESSAGE_LENGTH.
Definition zero_message : IpcMessage := replicate IPC_MESSAGE_LENGTH 0.

(** [IpcDescriptor]: its 32 variants by number, and [TryFrom<u8>]. *)
Definition IpcDescriptor : Type := nat.
Definition IpcDescriptor_try_from (value : nat) : option IpcDescriptor :=
  if decide (value ≤ 31)%nat then Some value else None.

(** [IpcIntBlock] by number. *)
Definition IpcIntBlock : Type := nat.

Inductive IpcChannelId :=
  | AdminToFpIoCore | HsmIoCoreToFpIoCore | AdminToHsmIoCore | AdminToHsp
  | HsmIoCoreToHsp | HspToAdmin | HsmIoCoreToAdmin | FpToHsm.

(** The registers: pending and enable registers of each interrupt block, the
    descriptor registers, and the line of the interrupt controller. *)
Class IpcHw := {
  hw : Type;
  int_pend_set_read : IpcIntBlock → hw → Z;
  int_pend_clr_write : IpcIntBlock → Z → hw → hw;
  int_enable_set_read : IpcIntBlock → hw → Z;
  int_enable_set_write : IpcIntBlock → Z → hw → hw;
  int_enable_clr_read : IpcIntBlock → hw → Z;
  int_enable_clr_write : IpcIntBlock → Z → hw → hw;
  ipc_desc_reg_write : IpcDescriptor → Z → hw → hw;
  ipc_desc_reg_read : IpcDescriptor → hw → Z;
  intc_pending : nat → hw → bool;
  intc_clear : nat → hw → hw
}.

(** [1u32 << descriptor]. *)
Definition desc_bit (d : IpcDescriptor) : Z := Z.shiftl 1 (Z.of_nat (d mod 32)).

Module Cntrl.
Section cntrl.
Context `{IpcHw}.

(** [IpcControllerImpl]. *)
Record IpcController := mkController { ipc_int_id : IpcIntBlock; interrupt : nat }.

Definition new (ipc_int_id : IpcIntBlock) (interrupt : nat) (h : hw) : IpcController * hw :=
  let h := int_pend_clr_write ipc_int_id 0xFFFFFFFF h in
  let h := intc_clear interrupt h in
  (mkController ipc_int_id interrupt, h).

(** [u32::trailing_zeros]; 32 for zero. *)
Definition trailing_zeros32 (v : Z) : nat := trailing_zeros_from 32 0 v.

(** [IpcController::descriptor]: the pending descriptor with the lowest
    number, cleared. *)
Definition descriptor (ipc_int_id : IpcIntBlock) (h : hw) : option IpcDescriptor * hw :=
  let event := int_pend_set_read ipc_int_id h in
  let event_num := trailing_zeros32 event in
  match IpcDescriptor_try_from event_num with
  | Some descriptor => (Some descriptor, int_pend_clr_write ipc_int_id (desc_bit event_num) h)
  | None => (None, h)
  end.

Definition is_pend_and_clr (c : IpcController) (d : IpcDescriptor) (h : hw) : bool * hw :=
  let mask := desc_bit d in
  let pending := intc_pending (interrupt c) h
                 && negb (Z.land (int_pend_set_read (ipc_int_id c) h) mask =? 0) in
  if pending
  then (true, intc_clear (interrupt c) (int_pend_clr_write (ipc_int_id c) mask h))
  else (false, h).

End cntrl.
End Cntrl.

(** [IpcMessageQueueConfig] has the shape of a simplex pipe: slots and two
    index cells. *)
Definition IpcMessageQueueConfig : Type := Pipe.SimplexPipeConfig IpcMessage.

Module Msg.

(** [IpcMessageChannelConfig]. *)
Record IpcMessageChannelConfig := mkConfig {
  int_block : IpcIntBlock;
  tx_queue : IpcMessageQueueConfig;
  rx_queue : IpcMessageQueueConfig;
  send_message_descriptor : IpcDescriptor;
  receive_message_descriptor : IpcDescriptor
}.

(** [IpcMessageChannelImpl]; [cntrl] is an argument of [poll_message]. *)
Record IpcMessageChannel := mkChannel {
  id : IpcChannelId;
  config : IpcMessageChannelConfig;
  tag : option Z
}.

Definition set_tag (t : option Z) (c : IpcMessageChannel) : IpcMessageChannel :=
  mkChannel (id c) (config c) t.
Definition set_tx (q : IpcMessageQueueConfig) (c : IpcMessageChannel) : IpcMessageChannel :=
  mkChannel (id c)
    (mkConfig (int_block (config c)) q (rx_queue (config c))
       (send_message_descriptor (config c)) (receive_message_descriptor (config c))) (tag c).
Definition set_rx (q : IpcMessageQueueConfig) (c : IpcMessageChannel) : IpcMessageChannel :=
  mkChannel (id c)
    (mkConfig (int_block (config c)) (tx_queue (config c)) q
       (send_message_descriptor (config c)) (receive_message_descriptor (config c))) (tag c).

Section msg.
Context `{IpcHw}.

(** A channel and the registers. *)
Definition CM (A : Type) : Type := M (IpcMessageChannel * hw) IpcControllerErr A.

Definition write_desc (d : IpcDescriptor) (v : Z) : CM () :=
  λ '(c, h), (Ok tt, (c, ipc_desc_reg_write d v h)).

Definition create (i : IpcChannelId) (cfg : IpcMessageChannelConfig) (h : hw) :
    IpcMessageChannel * hw :=
  let v := int_enable_set_read (int_block cfg) h in
  let bit := desc_bit (receive_message_descriptor cfg) in
  (mkChannel i cfg None, int_enable_set_write (int_block cfg) (Z.lor v bit) h).

(** [Drop]. *)
Definition drop_channel (c : IpcMessageChannel) (h : hw) : hw :=
  let v := int_enable_clr_read (int_block (config c)) h in
  int_enable_clr_write (int_block (config c))
    (Z.lor v (desc_bit (receive_message_descriptor (config c)))) h.

(** The loop of [send_message] over the words of the message: it writes the
    words that the message has, at their index, and panics past the end. *)
Fixpoint copy_words (index : nat) (src dest : IpcMessage) : outcome IpcControllerErr IpcMessage :=
  match src with
  | [] => Ok dest
  | item :: src =>
      if decide (index < length dest)%nat
      then copy_words (S index) src (<[index := item]> dest) else Panic
  end.

Definition send_message (message : IpcMessage) : CM () :=
  '(c, _) ← get;
  let q := tx_queue (config c) in
  let ci := Pipe.ci q in
  let pi := Pipe.pi q in
  let new_pi := wrap 32 (pi + 1) in
  let new_pi := if new_pi =? Z.of_nat (length (Pipe.queue q)) then 0 else new_pi in
  unless (negb (new_pi =? ci)) MessageQueueFull;;
  message_dest ← lift (from_option Ok Panic (Pipe.queue q !! Z.to_nat pi));
  message_dest ← lift (copy_words 0 message message_dest);
  modify (λ '(c, h), (set_tx (Pipe.set_pi (Pipe.set_slot q pi message_dest) new_pi) c, h));;
  write_desc (send_message_descriptor (config c)) new_pi.

Definition send_request (t : Z) (message : IpcMessage) : CM () :=
  '(c, _) ← get;
  unless (bool_decide (tag c = None)) ChannelBusy;;
  send_message message;;
  modify (λ '(c, h), (set_tag (Some t) c, h)).

(** [receive_message]: the slot is cleared as it is read. *)
Definition receive_message : CM (option IpcMessage) :=
  '(c, _) ← get;
  let q := rx_queue (config c) in
  let ci := Pipe.ci q in
  let pi := Pipe.pi q in
  if pi =? ci then mret None
  else
    queue_entry ← lift (from_option Ok Panic (Pipe.queue q !! Z.to_nat ci));
    message ← lift (copy_words 0 queue_entry zero_message);
    let queue_entry := replicate (length queue_entry) 0 in
    let new_ci := wrap 32 (ci + 1) in
    let new_ci := if new_ci =? Z.of_nat (length (Pipe.queue q)) then 0 else new_ci in
    modify (λ '(c, h), (set_rx (Pipe.set_ci (Pipe.set_slot q ci queue_entry) new_ci) c, h));;
    modify (λ '(c, h), (set_tag None c, h));;
    mret (Some message).

Definition poll_message (cntrl : Cntrl.IpcController) : CM (option IpcMessage) :=
  '(c, h) ← get;
  let '(pend, h) := Cntrl.is_pend_and_clr cntrl (receive_message_descriptor (config c)) h in
  put (c, h);;
  if pend then receive_message else mret None.

End msg.
End Msg.

Module Evt.

(** [IpcEventChannelConfig] and [IpcEventChannelImpl]. *)
Record IpcEventChannelConfig := mkConfig {
  int_block : IpcIntBlock; send_event_mask : Z; receive_event_mask : Z
}.
Record IpcEventChannel := mkChannel {
  id : IpcChannelId; config : IpcEventChannelConfig; tag : option Z
}.
Definition set_tag (t : option Z) (c : IpcEventChannel) : IpcEventChannel :=
  mkChannel (id c) (config c) t.

Section evt.
Context `{IpcHw}.
Definition EM (A : Type) : Type := M (IpcEventChannel * hw) IpcControllerErr A.

Definition create (i : IpcChannelId) (cfg : IpcEventChannelConfig) (h : hw) :
    IpcEventChannel * hw :=
  let v := int_enable_set_read (int_block cfg) h in
  (mkChannel i cfg None, int_enable_set_write (int_block cfg) (Z.lor v (receive_event_mask cfg)) h).

Definition drop_channel (c : IpcEventChannel) (h : hw) : hw :=
  let v := int_enable_clr_read (int_block (config c)) h in
  int_enable_clr_write (int_block (config c)) (Z.lor v (receive_event_mask (config c))) h.

Definition end_event (event_id : IpcDescriptor) (event : Z) : EM () :=
  '(c, _) ← get;
  let event_mask := desc_bit event_id in
  let masked_event := Z.land event_mask (send_event_mask (config c)) in
  unless (masked_event =? event_mask) EventNotConfigured;;
  modify (λ '(c, h), (c, ipc_desc_reg_write event_id event h)).

(** [send_event], behind [begin_event]. *)
Definition send_event (t : Z) (event_id : IpcDescriptor) (event : Z) : EM () :=
  '(c, _) ← get;
  unless (bool_decide (tag c = None)) ChannelBusy;;
  end_event event_id event;;
  modify (λ '(c, h), (set_tag (Some t) c, h)).

Definition receive_event (event_id : IpcDescriptor) : EM (option Z) :=
  '(c, _) ← get;
  let input_event_mask := desc_bit event_id in
  let masked_event := Z.land input_event_mask (receive_event_mask (config c)) in
  if negb (masked_event =? input_event_mask) then mret None
  else
    modify (λ '(c, h), (set_tag None c, h));;
    '(_, h) ← get;
    mret (Some (ipc_desc_reg_read event_id h)).

End evt.
End Evt.

(** ** Message queues with cleared slots

    [holds q l]: the queue holds the messages [l], oldest first, and every
    other slot is zero. *)

Definition holds (q : IpcMessageQueueConfig) (l : list IpcMessage) : Prop :=
  let n := length (Pipe.queue q) in
  queue_len_ok n ∧ (length l < n)%nat ∧ Forall message_ok l ∧
  ∃ r, Pipe.ci q = idx n r ∧ Pipe.pi q = idx n (r + length l) ∧
    ∀ i, (i < n)%nat → Pipe.queue q !! ((r + i) mod n)%nat = Some (default zero_message (l !! i)).

Lemma holds_rep q l : holds q l → rep q l.
Proof.
  intros (Hok & Hl & _ & r & Hci & Hpi & Hq). split_and!; [done..|]. exists r.
  split_and!; [done..|]. intros i x Hi. pose proof (lookup_lt_Some _ _ _ Hi).
  rewrite Hq by lia. by rewrite Hi.
Qed.

Lemma copy_words_ok src : ∀ w d,
  length src = length d → Msg.copy_words (length w) src (w ++ d) = Ok (w ++ src).
Proof.
  induction src as [|x src IH]; intros w [|y d] Hl; simpl in *; try lia; [done|].
  rewrite decide_True by (rewrite length_app; simpl; lia).
  rewrite insert_app_r_alt, Nat.sub_diag by lia. simpl.
  pose proof (IH (w ++ [x]) d ltac:(lia)) as IH'.
  rewrite length_app, <-!app_assoc in IH'. cbn [length app] in IH'.
  by rewrite Nat.add_1_r in IH'.
Qed.

Lemma copy_message src d : length src = length d → Msg.copy_words 0 src d = Ok src.
Proof. apply (copy_words_ok src []). Qed.

Lemma mod_ne n a b :
  (0 < n)%nat → (a < b)%nat → (b < a + n)%nat → (a mod n ≠ b mod n)%nat.
Proof.
  intros Hn H1 H2 E. enough (a = b) by lia. apply (idx_inj n Hn); [lia..|]. unfold idx. by rewrite E.
Qed.

Lemma holds_send q l m :
  holds q l → message_ok m → (S (length l) < length (Pipe.queue q))%nat →
  holds (Pipe.set_pi (Pipe.set_slot q (Pipe.pi q) m) (Pipe.next_index q (Pipe.pi q))) (l ++ [m]).
Proof.
  intros (Hok & Hl & Hm & r & Hci & Hpi & Hq) Hm' Hf. pose proof (proj1 Hok) as Hn.
  unfold holds, Pipe.set_pi, Pipe.set_slot; simpl. rewrite length_insert, length_app; simpl.
  split_and!; [done|lia|by apply Forall_app_2; [|constructor]|]. exists r. split_and!; [done| |].
  - rewrite Hpi, next_index_idx by done. f_equal. lia.
  - intros i Hi. rewrite Hpi. unfold idx. rewrite Nat2Z.id.
    destruct (lt_eq_lt_dec i (length l)) as [[Hlt| ->]|Hgt].
    + rewrite list_lookup_insert_ne by (intros E; symmetry in E; revert E; apply mod_ne; lia).
      by rewrite Hq, lookup_app_l by lia.
    + rewrite list_lookup_insert_eq by (apply Nat.mod_upper_bound; lia).
      by rewrite lookup_app_r, Nat.sub_diag by lia.
    + rewrite list_lookup_insert_ne by (apply mod_ne; lia).
      rewrite Hq, (lookup_ge_None_2 l), lookup_ge_None_2
        by (rewrite ?length_app; simpl; lia). done.
Qed.

Lemma holds_receive q m l :
  holds q (m :: l) →
  holds (Pipe.set_ci (Pipe.set_slot q (Pipe.ci q) zero_message) (Pipe.next_index q (Pipe.ci q))) l.
Proof.
  intros (Hok & Hl & Hm & r & Hci & Hpi & Hq). pose proof (proj1 Hok) as Hn. simpl in *.
  unfold holds, Pipe.set_ci, Pipe.set_slot; simpl. rewrite length_insert.
  split_and!; [done|lia|by inversion Hm|]. exists (S r). split_and!.
  - by rewrite Hci, next_index_idx.
  - rewrite Hpi. f_equal. lia.
  - intros i Hi. rewrite Hci. unfold idx. rewrite Nat2Z.id.
    set (n := length (Pipe.queue q)) in *.
    destruct (decide (S i = n)) as [E|E].
    + replace (S r + i)%nat with (r + 1 * n)%nat by lia. rewrite Nat.Div0.mod_add.
      rewrite list_lookup_insert_eq by (apply Nat.mod_upper_bound; lia).
      by rewrite lookup_ge_None_2 by lia.
    + replace (S r + i)%nat with (r + S i)%nat by lia.
      rewrite list_lookup_insert_ne by (apply mod_ne; lia). by rewrite Hq by lia.
Qed.

Lemma message_len q l i m :
  holds q l → Pipe.queue q !! i = Some m → length m = IPC_MESSAGE_LENGTH.
Proof.
  intros (Hok & Hl & Hm & r & _ & _ & Hq) Hi. set (n := length (Pipe.queue q)) in *.
  pose proof (lookup_lt_Some _ _ _ Hi) as Hin. fold n in Hin.
  (* slot i is message number r + j *)
  set (j := ((i + (n - r mod n)) mod n)%nat).
  assert (j < n)%nat as Hj by (apply Nat.mod_upper_bound; lia).
  assert ((r + j) mod n = i)%nat as Hrj.
  { unfold j. rewrite Nat.Div0.add_mod_idemp_r. rewrite <-Nat.Div0.add_mod_idemp_l.
    pose proof (Nat.mod_upper_bound r n).
    replace (r mod n + (i + (n - r mod n)))%nat with (i + 1 * n)%nat by lia.
    rewrite Nat.Div0.mod_add. apply Nat.mod_small. done. }
  specialize (Hq j Hj). rewrite Hrj, Hi in Hq. simplify_eq.
  destruct (l !! j) as [x|] eqn:Hx; simpl; [|done].
  apply (proj1 (list.Forall_forall _ _) Hm x). by eapply list_elem_of_lookup_2.
Qed.

(** ** One end of a channel *)

Section ends.
Context `{IpcHw}.
Import Msg.

Lemma send_message_ok c h l m :
  holds (tx_queue (config c)) l → message_ok m →
  if decide (S (length l) < length (Pipe.queue (tx_queue (config c))))%nat
  then ∃ q' h', send_message m (c, h) = (Ok tt, (set_tx q' c, h')) ∧ holds q' (l ++ [m]) ∧
         length (Pipe.queue q') = length (Pipe.queue (tx_queue (config c)))
  else send_message m (c, h) = (Err MessageQueueFull, (c, h)).
Proof.
  intros Hq Hm. set (q := tx_queue (config c)) in *.
  pose proof (rep_is_full q l (holds_rep _ _ Hq)) as Hfull.
  unfold send_message. run. fold q. fold (Pipe.next_index q (Pipe.pi q)).
  fold (Pipe.is_full q). rewrite Hfull. unfold unless.
  destruct (decide (S (length l) < length (Pipe.queue q))%nat) as [Hf|Hf].
  - rewrite bool_decide_eq_false_2 by lia. run.
    destruct (Pipe.queue q !! Z.to_nat (Pipe.pi q)) as [d|] eqn:Hd.
    2: { exfalso. destruct Hq as (Hok & _ & _ & r & _ & Hpi & _). apply lookup_ge_None in Hd.
         pose proof (idx_range _ (proj1 Hok) (r + length l)). lia. }
    pose proof (message_len _ _ _ _ Hq Hd) as Hdl. unfold message_ok in Hm.
    run. rewrite (copy_message m d) by congruence. run.
    eexists _, _. split; [reflexivity|]. split; [by apply holds_send|].
    simpl. by rewrite length_insert.
  - rewrite bool_decide_eq_true_2; [done|]. destruct Hq as (_ & Hl & _). lia.
Qed.

Lemma receive_message_ok c h l :
  holds (rx_queue (config c)) l →
  match l with
  | [] => receive_message (c, h) = (Ok None, (c, h))
  | m :: l' => ∃ q', receive_message (c, h) = (Ok (Some m), (set_tag None (set_rx q' c), h)) ∧
      holds q' l' ∧ length (Pipe.queue q') = length (Pipe.queue (rx_queue (config c)))
  end.
Proof.
  intros Hq. set (q := rx_queue (config c)) in *.
  pose proof (rep_is_empty q l (holds_rep _ _ Hq)) as Hempty.
  unfold receive_message. run. fold q. fold (Pipe.is_empty q). rewrite Hempty.
  destruct l as [|m l]; [by rewrite bool_decide_eq_true_2|].
  rewrite bool_decide_eq_false_2 by done. run.
  pose proof (rep_front q m l (holds_rep _ _ Hq)) as Hd. rewrite Hd. run.
  pose proof (message_len _ _ _ _ Hq Hd) as Hdl.
  rewrite (copy_message m zero_message) by done. run.
  fold (Pipe.next_index q (Pipe.ci q)). rewrite Hdl. fold zero_message.
  eexists. split; [reflexivity|]. split; [by eapply holds_receive|].
  simpl. by rewrite length_insert.
Qed.
End ends.

(** ** Two processors on one channel *)

Module Link.

(** What the two sides do: the requester sends requests and collects
    responses, the responder takes requests and sends responses. *)
Inductive action :=
  | Request (t : Z) (m : IpcMessage)
  | Collect
  | Serve
  | Respond (m : IpcMessage).

Inductive result :=
  | Done (r : outcome IpcControllerErr ())
  | Got (r : outcome IpcControllerErr (option IpcMessage)).

Section link.
Context `{IpcHw}.
Import Msg.

(** Both ends and the registers; the queues are one memory, so an operation
    at one end shows at the other. *)
Record state := mkState { requester : IpcMessageChannel; responder : IpcMessageChannel; regs : hw }.

Definition peer (c other : IpcMessageChannel) : IpcMessageChannel :=
  set_rx (tx_queue (config c)) (set_tx (rx_queue (config c)) other).

Definition at_requester {A} (f : outcome IpcControllerErr A → result) (op : CM A) (s : state) :
    result * state :=
  let '(r, (c, h)) := op (requester s, regs s) in (f r, mkState c (peer c (responder s)) h).
Definition at_responder {A} (f : outcome IpcControllerErr A → result) (op : CM A) (s : state) :
    result * state :=
  let '(r, (c, h)) := op (responder s, regs s) in (f r, mkState (peer c (requester s)) c h).

Definition act (a : action) : state → result * state :=
  match a with
  | Request t m => at_requester Done (send_request t m)
  | Collect => at_requester Got receive_message
  | Serve => at_responder Got receive_message
  | Respond m => at_responder Done (send_message m)
  end.

Fixpoint run_all (l : list action) (s : state) : list result * state :=
  match l with
  | [] => ([], s)
  | a :: l => let '(r, s) := act a s in let '(rs, s) := run_all l s in (r :: rs, s)
  end.
End link.

(** *** Two bounded queues and a tag *)

(** What a channel is: the messages on their way in each direction and the tag
    of the requester. *)
Record chan := mkChan { c_tag : option Z; c_requests : list IpcMessage; c_responses : list IpcMessage }.

(** One call, on queues of [n] and [n'] slots, one of which is always free.  A
    response that was not asked for is queued like any other, and collecting
    a response releases the tag, whichever it is. *)
Definition chan_step (n n' : nat) (x : chan) (a : action) : result * chan :=
  match a with
  | Request t m =>
      match c_tag x with
      | Some _ => (Done (Err ChannelBusy), x)
      | None =>
          if decide (S (length (c_requests x)) < n)%nat
          then (Done (Ok tt), mkChan (Some t) (c_requests x ++ [m]) (c_responses x))
          else (Done (Err MessageQueueFull), x)
      end
  | Respond m =>
      if decide (S (length (c_responses x)) < n')%nat
      then (Done (Ok tt), mkChan (c_tag x) (c_requests x) (c_responses x ++ [m]))
      else (Done (Err MessageQueueFull), x)
  | Serve =>
      match c_requests x with
      | m :: l => (Got (Ok (Some m)), mkChan (c_tag x) l (c_responses x))
      | [] => (Got (Ok None), x)
      end
  | Collect =>
      match c_responses x with
      | m :: l => (Got (Ok (Some m)), mkChan None (c_requests x) l)
      | [] => (Got (Ok None), x)
      end
  end.

Fixpoint chan_all (n n' : nat) (x : chan) (l : list action) : list result * chan :=
  match l with
  | [] => ([], x)
  | a :: l => let '(r, x) := chan_step n n' x a in let '(rs, x) := chan_all n n' x l in (r :: rs, x)
  end.

(** A message is an array of sixteen words. *)
Definition sized (a : action) : Prop :=
  match a with Request _ m | Respond m => message_ok m | _ => True end.

(** *** The protocol: one request at a time *)

Inductive phase :=
  | Idle
  | Requested (t : Z) (m : IpcMessage)
  | Handling (t : Z)
  | Responded (t : Z) (m : IpcMessage).

(** The protocol leaves undefined a response to no request, or a second one. *)
Definition protocol (p : phase) (a : action) : option (result * phase) :=
  match a, p with
  | Request t m, Idle => Some (Done (Ok tt), Requested t m)
  | Request _ _, _ => Some (Done (Err ChannelBusy), p)
  | Collect, Responded t m => Some (Got (Ok (Some m)), Idle)
  | Collect, _ => Some (Got (Ok None), p)
  | Serve, Requested t m => Some (Got (Ok (Some m)), Handling t)
  | Serve, _ => Some (Got (Ok None), p)
  | Respond m, Handling t => Some (Done (Ok tt), Responded t m)
  | Respond _, _ => None
  end.

Fixpoint protocol_all (p : phase) (l : list action) : option (list result * phase) :=
  match l with
  | [] => Some ([], p)
  | a :: l => '(r, p) ← protocol p a; '(rs, p) ← protocol_all p l; Some (r :: rs, p)
  end.

Definition chan_of (p : phase) : chan :=
  match p with
  | Idle => mkChan None [] []
  | Requested t m => mkChan (Some t) [m] []
  | Handling t => mkChan (Some t) [] []
  | Responded t m => mkChan (Some t) [] [m]
  end.

(** Where the protocol is defined, the queues follow it: they are never full. *)
Lemma protocol_step n n' p a r p' :
  (2 ≤ n)%nat → (2 ≤ n')%nat → protocol p a = Some (r, p') →
  chan_step n n' (chan_of p) a = (r, chan_of p').
Proof.
  intros Hn Hn'. destruct p, a; intros [= <- <-]; try done; cbn; by rewrite decide_True by lia.
Qed.

Lemma protocol_run n n' l : ∀ p rs p',
  (2 ≤ n)%nat → (2 ≤ n')%nat → protocol_all p l = Some (rs, p') →
  chan_all n n' (chan_of p) l = (rs, chan_of p').
Proof.
  induction l as [|a l IH]; intros p rs p' Hn Hn' H; simpl in *; [by simplify_eq|].
  destruct (protocol p a) as [[r p1]|] eqn:E; [|done]. simpl in H.
  destruct (protocol_all p1 l) as [[rs1 p2]|] eqn:E1; [|done]. simpl in H. injection H as <- <-.
  rewrite (protocol_step n n' p a r p1 Hn Hn' E). by rewrite (IH p1 rs1 p2 Hn Hn' E1).
Qed.

Section simulation.
Context `{IpcHw}.
Import Msg.

Abbreviation tx s := (tx_queue (config (requester s))).
Abbreviation rx s := (rx_queue (config (requester s))).
Definition tx_slots (s : state) : nat := length (Pipe.queue (tx s)).
Definition rx_slots (s : state) : nat := length (Pipe.queue (rx s)).

(** The channel of a state: the tag, the messages in both queues, and zeros in
    every other slot. *)
Definition represents_chan (x : chan) (s : state) : Prop :=
  rx_queue (config (responder s)) = tx s ∧ tx_queue (config (responder s)) = rx s ∧
  tag (requester s) = c_tag x ∧ tag (responder s) = None ∧
  holds (tx s) (c_requests x) ∧ holds (rx s) (c_responses x).

(** The phase of a state, with queues of at least two slots. *)
Definition represents (p : phase) (s : state) : Prop :=
  represents_chan (chan_of p) s ∧ (2 ≤ tx_slots s)%nat ∧ (2 ≤ rx_slots s)%nat.

(** A step that changes nothing at either end. *)
Lemma same_state x s h :
  represents_chan x s →
  represents_chan x (mkState (requester s) (peer (requester s) (responder s)) h) ∧
  represents_chan x (mkState (peer (responder s) (requester s)) (responder s) h).
Proof.
  intros (E1 & E2 & Ht & Hb & Hq & Hr). split; unfold represents_chan; simpl.
  - by split_and!.
  - rewrite E1, E2. by split_and!.
Qed.

Lemma act_ok x s a :
  represents_chan x s → sized a →
  ∃ s', act a s = ((chan_step (tx_slots s) (rx_slots s) x a).1, s') ∧
    represents_chan (chan_step (tx_slots s) (rx_slots s) x a).2 s' ∧
    tx_slots s' = tx_slots s ∧ rx_slots s' = rx_slots s.
Proof.
  intros Hrep Ha. pose proof (same_state x s (regs s) Hrep) as [SA SB].
  destruct Hrep as (E1 & E2 & Ht & Hb & Hq & Hr).
  assert (∀ h, tx_slots (mkState (peer (responder s) (requester s)) (responder s) h) = tx_slots s ∧
    rx_slots (mkState (peer (responder s) (requester s)) (responder s) h) = rx_slots s) as Hsl
    by (intros h; unfold tx_slots, rx_slots; simpl; by rewrite E1, E2).
  destruct a as [t m| | |m]; unfold act, at_requester, at_responder; cbn [chan_step].
  - unfold send_request. run. rewrite Ht.
    destruct (c_tag x); simpl; rewrite ?bool_decide_eq_false_2 by done; [by eexists|].
    pose proof (send_message_ok (requester s) (regs s) _ m Hq Ha) as Hs. fold (tx_slots s) in Hs.
    case_decide; [|rewrite Hs; by eexists]. destruct Hs as (q' & h' & -> & Hq' & Hl').
    eexists. split; [reflexivity|]. unfold represents_chan, tx_slots, rx_slots; simpl. by split_and!.
  - pose proof (receive_message_ok (requester s) (regs s) _ Hr) as Hs.
    destruct (c_responses x) as [|m l]; [rewrite Hs; by eexists|].
    destruct Hs as (q' & -> & Hq' & Hl').
    eexists. split; [reflexivity|]. unfold represents_chan, tx_slots, rx_slots; simpl. by split_and!.
  - pose proof (receive_message_ok (responder s) (regs s) (c_requests x)) as Hs.
    rewrite E1 in Hs. specialize (Hs Hq).
    destruct (c_requests x) as [|m l]; [rewrite Hs; by eexists|].
    destruct Hs as (q' & -> & Hq' & Hl').
    eexists. split; [reflexivity|]. unfold represents_chan, tx_slots, rx_slots; simpl. rewrite E2.
    by split_and!.
  - pose proof (send_message_ok (responder s) (regs s) (c_responses x) m) as Hs.
    rewrite E2 in Hs. specialize (Hs Hr Ha). fold (rx_slots s) in Hs.
    case_decide; [|rewrite Hs; by eexists]. destruct Hs as (q' & h' & -> & Hq' & Hl').
    eexists. split; [reflexivity|]. unfold represents_chan, tx_slots, rx_slots; simpl. rewrite E1.
    by split_and!.
Qed.

Lemma run_all_ok l : ∀ x s,
  represents_chan x s → Forall sized l →
  ∃ s', run_all l s = ((chan_all (tx_slots s) (rx_slots s) x l).1, s') ∧
    represents_chan (chan_all (tx_slots s) (rx_slots s) x l).2 s' ∧
    tx_slots s' = tx_slots s ∧ rx_slots s' = rx_slots s.
Proof.
  induction l as [|a l IH]; intros x s Hrep Hd; simpl in *; [by exists s|].
  apply Forall_cons_iff in Hd as [Ha Hd].
  destruct (act_ok x s a Hrep Ha) as (s1 & -> & Hrep1 & Ht & Hr).
  destruct (chan_step _ _ x a) as [r x1]. simpl in *.
  destruct (IH x1 s1 Hrep1 Hd) as (s2 & -> & Hrep2 & Ht2 & Hr2). rewrite Ht, Hr in *.
  destruct (chan_all _ _ x1 l) as [rs x2]. exists s2. by split_and!.
Qed.

(** The run of a protocol. *)
Lemma run_protocol l p s rs p' :
  represents p s → Forall sized l → protocol_all p l = Some (rs, p') →
  ∃ s', run_all l s = (rs, s') ∧ represents p' s'.
Proof.
  intros (Hrep & Hn & Hn') Hl Hp. destruct (run_all_ok l _ s Hrep Hl) as (s' & E & Hrep' & Ht & Hr).
  rewrite (protocol_run _ _ l p rs p' Hn Hn' Hp) in E, Hrep'. exists s'. split; [done|].
  unfold represents. rewrite Ht, Hr. by split_and!.
Qed.
End simulation.
End Link.

(** Registers as one pending word that clears the bits written to it, and a
    list of descriptor registers. *)
Definition plain_hw : IpcHw := {|
  hw := Z * list Z;
  int_pend_set_read _ h := wrap 32 h.1;
  int_pend_clr_write _ v h := (Z.land (wrap 32 h.1) (unot 32 v), h.2);
  int_enable_set_read _ _ := 0;
  int_enable_set_write _ _ h := h;
  int_enable_clr_read _ _ := 0;
  int_enable_clr_write _ _ h := h;
  ipc_desc_reg_write d v h := (h.1, <[d := v]> h.2);
  ipc_desc_reg_read d h := nth d h.2 0;
  intc_pending _ h := negb (h.1 =? 0);
  intc_clear _ h := h
|}.

(** A channel with empty queues of [n] cleared slots. *)
Definition fresh_queue (n : nat) : IpcMessageQueueConfig :=
  Pipe.new (Pipe.mkConfig (replicate n zero_message) 0 0).
Definition fresh_channel (n : nat) : Msg.IpcMessageChannel :=
  Msg.mkChannel HsmIoCoreToAdmin (Msg.mkConfig 1%nat (fresh_queue n) (fresh_queue n) 3%nat 4%nat) None.

Lemma fresh_holds n : (0 < n)%nat → Z.of_nat n < 2 ^ 32 → holds (fresh_queue n) [].
Proof.
  intros H1 H2. unfold holds, fresh_queue, Pipe.new, Pipe.set_pi, Pipe.set_ci. simpl.
  rewrite length_replicate. split_and!; [done|lia|constructor|]. exists 0%nat. unfold idx.
  cbn [length Nat.add]. rewrite !Nat.Div0.mod_0_l. split_and!; [done..|]. intros i Hi.
  apply lookup_replicate_2. apply Nat.mod_upper_bound. lia.
Qed.

(** ** Theorems *)

(** C32: a message channel is two bounded queues and a tag.  Two processors on a
    channel with cleared queues, whatever the interrupt registers do, however
    their calls interleave and whatever they send, see exactly that: a request
    is refused with [ChannelBusy] while the requester has a tag, a message
    with [MessageQueueFull] when one slot is left, no call panics, every
    message that is accepted arrives once, in order and unchanged, collecting
    any response releases the tag (also one to no request), and every slot
    that holds no message is zero, so no message can be read again.  If
    moreover the responder answers only a request it took, and once, and the
    queues have at least two slots, the channel is the protocol of one
    request at a time: no queue is ever full, the tag is that of the request
    in flight and the response collected is the response to it. *)
Theorem ipc_request_response `{IpcHw} (s : Link.state) (x : Link.chan) (l : list Link.action) :
  Link.represents_chan x s → Forall Link.sized l →
  let '(rs, s') := Link.run_all l s in
  let '(rs_spec, x') := Link.chan_all (Link.tx_slots s) (Link.rx_slots s) x l in
  rs = rs_spec ∧ Link.represents_chan x' s' ∧
  ∀ p rs_protocol p', Link.represents p s → Link.protocol_all p l = Some (rs_protocol, p') →
    rs = rs_protocol ∧ Link.represents p' s'.
Proof.
  intros Hrep Hl. destruct (Link.run_all_ok l x s Hrep Hl) as (s' & E & Hs' & _). rewrite E.
  destruct (Link.chan_all _ _ x l) as [rs x']. split_and!; [done..|]. intros p rs' p' Hp Hl'.
  destruct (Link.run_protocol l p s rs' p' Hp Hl Hl') as (s2 & E2 & Hr). rewrite E in E2.
  injection E2 as <- <-. done.
Qed.

(** Two exchanges, the second with a response nobody asked for and a full
    queue. *)
Lemma ipc_request_response_witness :
  let s := @Link.mkState plain_hw (fresh_channel 2) (fresh_channel 2) (0, replicate 32 0) in
  let m := replicate 16 7 in
  let l := [Link.Request 5 m; Link.Request 6 m; Link.Serve; Link.Respond m; Link.Collect] in
  (@Link.run_all plain_hw l s).1 =
    [Link.Done (Ok tt); Link.Done (Err ChannelBusy); Link.Got (Ok (Some m)); Link.Done (Ok tt);
     Link.Got (Ok (Some m))] ∧
  @Link.represents plain_hw Link.Idle (@Link.run_all plain_hw l s).2 ∧
  (@Link.run_all plain_hw [Link.Request 5 m; Link.Respond m; Link.Respond m; Link.Collect; Link.Request 6 m] s).1 =
    [Link.Done (Ok tt); Link.Done (Ok tt); Link.Done (Err MessageQueueFull); Link.Got (Ok (Some m));
     Link.Done (Err MessageQueueFull)].
Proof.
  intros s m l.
  assert (@Link.represents_chan plain_hw (Link.mkChan None [] []) s) as Hs
    by (unfold s, Link.represents_chan; simpl; split_and!; try done; apply fresh_holds; lia).
  split_and!.
  - pose proof (@ipc_request_response plain_hw s (Link.mkChan None [] []) l Hs) as Hx.
    destruct (Link.run_all l s) as [rs s'] eqn:E. simpl in Hx.
    destruct Hx as (Hx & _); [repeat constructor|]. exact Hx.
  - pose proof (@ipc_request_response plain_hw s (Link.mkChan None [] []) l Hs) as Hx.
    destruct (Link.run_all l s) as [rs s'] eqn:E. simpl in Hx.
    destruct Hx as (_ & _ & Hx); [repeat constructor|].
    eapply (Hx Link.Idle); [|reflexivity]. split; [exact Hs|]. split; apply le_n.
  - pose proof (@ipc_request_response plain_hw s (Link.mkChan None [] [])
      [Link.Request 5 m; Link.Respond m; Link.Respond m; Link.Collect; Link.Request 6 m] Hs) as Hx.
    destruct (Link.run_all _ s) as [rs s'] eqn:E. simpl in Hx.
    destruct Hx as (Hx & _); [repeat constructor|]. exact Hx.
Defined.

(** The descriptors that [n] calls of [descriptor] return. *)
Fixpoint poll_descriptors `{IpcHw} (n : nat) (block : IpcIntBlock) (h : hw) :
    list (option IpcDescriptor) * hw :=
  match n with
  | O => ([], h)
  | S n => let '(d, h) := Cntrl.descriptor block h in
           let '(ds, h) := poll_descriptors n block h in (d :: ds, h)
  end.

Lemma trailing_zeros_more v m : ∀ n k,
  (∃ i, k ≤ i < k + n ∧ bit_of v i = true)%nat →
  trailing_zeros_from (n + m) k v = trailing_zeros_from n k v.
Proof.
  induction n as [|n IH]; intros k (i & Hi & Hb); [lia|]. simpl.
  destruct (Z.testbit v (Z.of_nat k)) eqn:E; [done|]. apply IH. exists i. split; [|done].
  destruct (decide (i = k)); [congruence|lia].
Qed.

Lemma trailing_zeros_none v : ∀ n k,
  (∀ i, k ≤ i < k + n → bit_of v i = false)%nat → trailing_zeros_from n k v = (k + n)%nat.
Proof.
  induction n as [|n IH]; intros k Hb; simpl; [lia|]. rewrite Hb by lia.
  rewrite IH; [lia|]. intros i Hi. apply Hb. lia.
Qed.

Lemma trailing_zeros32_ok v :
  uint_range 32 v → v ≠ 0 →
  Cntrl.trailing_zeros32 v = trailing_zeros v ∧ (trailing_zeros v < 32)%nat ∧
  Z.land v (unot 32 (desc_bit (trailing_zeros v))) =
    Z.land v (unot 128 (one_shl (trailing_zeros v))).
Proof.
  intros Hv Hn.
  assert (uint_range 128 v) as Hv' by (unfold uint_range in *; lia).
  destruct (bits_step v Hv' Hn) as (H1 & H2 & _).
  assert (trailing_zeros v < 32)%nat as Hlt.
  { destruct (decide (trailing_zeros v < 32)%nat); [done|].
    rewrite (testbit_above 32 v) in H2 by (done || lia). done. }
  split_and!; [|done|].
  - symmetry. apply (trailing_zeros_more v 96 32 0). exists (trailing_zeros v). split; [lia|done].
  - unfold desc_bit, one_shl. rewrite !Nat.mod_small by lia.
    apply Z.bits_inj'. intros i Hi. rewrite !Z.land_spec.
    destruct (decide (i < 32)); [by rewrite !testbit_unot by lia|].
    by rewrite (testbit_above 32 v) by (done || lia).
Qed.

(** Polling the controller returns every pending descriptor once, lowest
    first.  On registers where writing a mask to the clear register removes
    those bits from the pending word, as many calls of [descriptor] as there
    are pending bits return them in increasing order, the next call returns
    none, and nothing is pending afterwards. *)
Theorem descriptors_drained `{IpcHw} (block : IpcIntBlock) (h : hw) :
  (∀ h, uint_range 32 (int_pend_set_read block h)) →
  (∀ h v, int_pend_set_read block (int_pend_clr_write block v h) =
          Z.land (int_pend_set_read block h) (unot 32 v)) →
  let pending := bits (int_pend_set_read block h) in
  let '(ds, h') := poll_descriptors (S (length pending)) block h in
  ds = (Some <$> pending) ++ [None] ∧ int_pend_set_read block h' = 0 ∧ StronglySorted lt pending.
Proof.
  intros Hr Hw pending.
  enough (∀ l h, bits (int_pend_set_read block h) = l →
    ∃ h', poll_descriptors (S (length l)) block h = ((Some <$> l) ++ [None], h') ∧
          int_pend_set_read block h' = 0) as Hloop.
  { destruct (Hloop pending h eq_refl) as (h' & -> & H0).
    split_and!; [done..|]. apply filter_seq_sorted. }
  clear pending h. induction l as [|d l IH]; intros h Hl.
  - assert (int_pend_set_read block h = 0) as H0.
    { destruct (decide (int_pend_set_read block h = 0)) as [|Hn]; [done|].
      assert (uint_range 128 (int_pend_set_read block h)) as Hv'
        by (specialize (Hr h); unfold uint_range in *; lia).
      destruct (bits_step _ Hv' Hn) as (_ & _ & E & _). congruence. }
    exists h. split; [|done]. simpl. unfold Cntrl.descriptor. rewrite H0. done.
  - assert (int_pend_set_read block h ≠ 0) as Hn by (intros E; by rewrite E in Hl).
    assert (uint_range 128 (int_pend_set_read block h)) as Hv'
      by (specialize (Hr h); unfold uint_range in *; lia).
    destruct (bits_step _ Hv' Hn) as (_ & _ & E & _).
    destruct (trailing_zeros32_ok _ (Hr h) Hn) as (E1 & E2 & E3).
    rewrite Hl in E. injection E as Ed El.
    set (h1 := int_pend_clr_write block (desc_bit (trailing_zeros (int_pend_set_read block h))) h).
    assert (Cntrl.descriptor block h = (Some d, h1)) as Hdesc.
    { unfold Cntrl.descriptor. rewrite E1. unfold IpcDescriptor_try_from.
      rewrite decide_True by lia. by rewrite Ed. }
    destruct (IH h1) as (h' & Hp & H0); [by unfold h1; rewrite Hw, E3, <-El|].
    exists h'. split; [|done].
    change (poll_descriptors (S (length (d :: l))) block h) with
      (let '(d, h) := Cntrl.descriptor block h in
       let '(ds, h) := poll_descriptors (S (length l)) block h in (d :: ds, h)).
    by rewrite Hdesc, Hp.
Qed.

Lemma descriptors_drained_witness :
  let '(ds, h') := @poll_descriptors plain_hw 4 1%nat (0x8000000A, []) in
  ds = [Some 1%nat; Some 3%nat; Some 31%nat; None] ∧ @int_pend_set_read plain_hw 1%nat h' = 0.
Proof.
  pose proof (@descriptors_drained plain_hw 1%nat (0x8000000A, [])) as Hd.
  assert (bits (@int_pend_set_read plain_hw 1%nat (0x8000000A, [])) = [1; 3; 31]%nat) as Hb
    by (vm_compute; reflexivity).
  cbv zeta in Hd. rewrite Hb in Hd. cbn [length] in Hd.
  destruct (poll_descriptors 4 1%nat _) as [ds h'].
  destruct Hd as (-> & H0 & _); [|  |by split].
  - intros h. apply wrap_range. lia.
  - intros h v. apply wrap_small, uint_range_bits; [lia| |].
    + apply Z.land_nonneg. left. by apply (wrap_range 32).
    + intros i Hi. simpl. rewrite Z.land_spec. rewrite (testbit_above 32 (wrap 32 h.1)); [done| |done].
      by apply wrap_range.
Defined.

(** Events are sent and received exactly on the configured descriptors.
    Beginning an event while one is in flight fails with [ChannelBusy], on a
    descriptor outside the send mask with [EventNotConfigured], and neither
    writes a register or takes the tag; otherwise the value is written to the
    descriptor's register and the tag is taken.  Receiving reads the register
    and releases the tag exactly on the descriptors of the receive mask.
    Hence a value sent by one processor is the value received by another, on
    registers that keep what is written to them. *)
Theorem events_exact `{IpcHw} (c : Evt.IpcEventChannel) (h : hw) (d : IpcDescriptor) (t v : Z) :
  (d < 32)%nat →
  Evt.send_event t d v (c, h) =
    (if decide (is_Some (Evt.tag c)) then (Err ChannelBusy, (c, h))
     else if bit_of (Evt.send_event_mask (Evt.config c)) d
     then (Ok tt, (Evt.set_tag (Some t) c, ipc_desc_reg_write d v h))
     else (Err EventNotConfigured, (c, h))) ∧
  Evt.receive_event d (c, h) =
    (if bit_of (Evt.receive_event_mask (Evt.config c)) d
     then (Ok (Some (ipc_desc_reg_read d h)), (Evt.set_tag None c, h))
     else (Ok None, (c, h))) ∧
  (∀ c', ipc_desc_reg_read d (ipc_desc_reg_write d v h) = v →
     bit_of (Evt.send_event_mask (Evt.config c)) d = true →
     bit_of (Evt.receive_event_mask (Evt.config c')) d = true → Evt.tag c = None →
     let '(_, (_, h1)) := Evt.send_event t d v (c, h) in
     Evt.receive_event d (c', h1) = (Ok (Some v), (Evt.set_tag None c', h1))).
Proof.
  intros Hd.
  assert (∀ m, (Z.land (desc_bit d) m =? desc_bit d) = bit_of m d) as Hbit.
  { intros m. unfold desc_bit. rewrite Nat.mod_small by done.
    apply eq_true_iff_eq. rewrite Z.eqb_eq. split.
    - intros E. assert (Z.testbit (Z.land (Z.shiftl 1 (Z.of_nat d)) m) (Z.of_nat d) = true) as Hb.
      { rewrite E, testbit_one_shiftl by lia. by apply bool_decide_eq_true_2. }
      rewrite Z.land_spec in Hb. by apply andb_true_iff in Hb as [_ Hb].
    - intros E. apply Z.bits_inj'. intros i Hi. rewrite Z.land_spec, testbit_one_shiftl by lia.
      case_bool_decide as Hb; [by rewrite <-Hb, E|done]. }
  assert (Evt.send_event t d v (c, h) =
    (if decide (is_Some (Evt.tag c)) then (Err ChannelBusy, (c, h))
     else if bit_of (Evt.send_event_mask (Evt.config c)) d
     then (Ok tt, (Evt.set_tag (Some t) c, ipc_desc_reg_write d v h))
     else (Err EventNotConfigured, (c, h)))) as Hs.
  { unfold Evt.send_event, Evt.end_event. run.
    destruct (Evt.tag c); simpl; [done|]. rewrite Hbit. by destruct (bit_of _ d). }
  assert (∀ c h, Evt.receive_event d (c, h) =
    (if bit_of (Evt.receive_event_mask (Evt.config c)) d
     then (Ok (Some (ipc_desc_reg_read d h)), (Evt.set_tag None c, h))
     else (Ok None, (c, h)))) as Hr.
  { intros c' h'. unfold Evt.receive_event. run. rewrite Hbit. by destruct (bit_of (Evt.receive_event_mask (Evt.config c')) d). }
  split_and!; [done..|]. intros c' Hrw H1 H2 Ht. rewrite Hs, Ht, H1.
  rewrite decide_False by (by intros [? ?]). by rewrite Hr, H2, Hrw.
Qed.

Lemma events_exact_witness :
  let c := Evt.mkChannel AdminToHsp (Evt.mkConfig 0%nat 8 4) None in
  let c' := Evt.mkChannel AdminToHsp (Evt.mkConfig 0%nat 4 8) (Some 1) in
  let '(_, (_, h1)) := @Evt.send_event plain_hw 9 3%nat 77 (c, (0, replicate 32 0)) in
  @Evt.receive_event plain_hw 3%nat (c', h1) = (Ok (Some 77), (Evt.set_tag None c', h1)).
Proof.
  intros c c'.
  apply (@events_exact plain_hw c (0, replicate 32 0) 3%nat 9 77 ltac:(lia));
    vm_compute; reflexivity.
Defined.
