(* ===== verification/IpcMessages.v ===== *)
(** * Inter-processor messages (serde/ipc)

    The typed messages that the processors of the security module exchange
    over [IpcChannel.v]: a 32-bit header with bit fields, a payload of its own
    layout ([Wire.v]) and reserved bytes, sixteen words in all.  Each message
    type is an instance of [IpcMessageType] for its payload, with the opcode
    and the [validate] of the source; [encode] and [decode] are generic, as in
    encoder.rs and decoder.rs. *)

From stdpp Require Import base list numbers option.
From S2P Require Import Prelude Wire Simplex IpcChannel.

Local Open Scope Z_scope.

Definition IPC_MESSAGE_PAYLOAD_LEN : nat := 60.
Definition IPC_HEADER_LEN_IN_BYTES : nat := 4.

(** [IpcMessageErr]. *)
Inductive IpcMessageErr :=
  | InvalidIoStateValue | InvalidChannelId | InvalidControllerId | InvalidPcieFnId
  | InvalidPfnEnableDisableAction | InvalidDeviceCqId | InvalidDeviceSqId | InvalidSqAction
  | InvalidSqPriority | InvalidKeyUpdateAction | InvalidInputMessageForDecode
  | InvalidMessageHeaderDecode | InvalidOpcodeConversion | InvalidDrainTimeConfig
  | InvalidFpErrLogLen | InvalidInterruptSource | InvalidErrReqSubOpCode | InvalidStatSetAction.
#[global] Instance IpcMessageErr_eq_dec : EqDecision IpcMessageErr.
Proof. solve_decision. Defined.

(** ** Opcodes and status codes *)

Inductive IpcMessageOpCode :=
  | StateChange | CdmaEccErr | CreateDeleteSq | PfnEnableDisable | CdmaIo | AesKeyUpdate
  | FpErrLog | UcdQuery | CdmaStatSet | Doe | Shutdown | StopInterface | RsaKeyGen
  | GetCertChainLengths | GetCert | TriggerCrash | NegativeSelfTest | TdispInterrupt
  | GetBulkKey | TriggerStackValidation | SetResource.
#[global] Instance IpcMessageOpCode_eq_dec : EqDecision IpcMessageOpCode.
Proof. solve_decision. Defined.

(** [IpcMessageOpCode as u32]. *)
Definition opcode (op : IpcMessageOpCode) : Z :=
  match op with
  | StateChange => 0x0 | CdmaEccErr => 0x1 | CreateDeleteSq => 0x3 | PfnEnableDisable => 0x5
  | CdmaIo => 0x6 | AesKeyUpdate => 0x7 | FpErrLog => 0x9 | UcdQuery => 0xa
  | CdmaStatSet => 0xd | Doe => 0x40 | Shutdown => 0x42 | StopInterface => 0x43
  | RsaKeyGen => 0x44 | GetCertChainLengths => 0x45 | GetCert => 0x46 | TriggerCrash => 0x47
  | NegativeSelfTest => 0x48 | TdispInterrupt => 0x49 | GetBulkKey => 0x4A
  | TriggerStackValidation => 0x4B | SetResource => 0x7f
  end.

(** [TryFrom<u8> for IpcMessageOpCode]. *)
Definition opcode_try_from (value : Z) : outcome IpcMessageErr IpcMessageOpCode :=
  match value with
  | 0x00 => Ok StateChange | 0x01 => Ok CdmaEccErr | 0x03 => Ok CreateDeleteSq
  | 0x05 => Ok PfnEnableDisable | 0x06 => Ok CdmaIo | 0x07 => Ok AesKeyUpdate
  | 0x09 => Ok FpErrLog | 0x0A => Ok UcdQuery | 0x0D => Ok CdmaStatSet | 0x40 => Ok Doe
  | 0x42 => Ok Shutdown | 0x43 => Ok StopInterface | 0x44 => Ok RsaKeyGen
  | 0x45 => Ok GetCertChainLengths | 0x46 => Ok GetCert | 0x47 => Ok TriggerCrash
  | 0x48 => Ok NegativeSelfTest | 0x49 => Ok TdispInterrupt | 0x4A => Ok GetBulkKey
  | 0x4B => Ok TriggerStackValidation | 0x7F => Ok SetResource
  | _ => Err InvalidOpcodeConversion
  end.

Inductive IpcMessageStatusCode :=
  | Success | MessageNotSupported | InvalidField | FunctionNotEnabled | OperationTimeout
  | OperationFailed | Pending | UnknownStatus.

Definition status_code (s : IpcMessageStatusCode) : Z :=
  match s with
  | Success => 0 | MessageNotSupported => 1 | InvalidField => 2 | FunctionNotEnabled => 3
  | OperationTimeout => 4 | OperationFailed => 5 | Pending => 6 | UnknownStatus => 0xF
  end.

Definition status_from (value : Z) : IpcMessageStatusCode :=
  if value =? status_code Success then Success
  else if value =? status_code MessageNotSupported then MessageNotSupported
  else if value =? status_code InvalidField then InvalidField
  else if value =? status_code FunctionNotEnabled then FunctionNotEnabled
  else if value =? status_code OperationTimeout then OperationTimeout
  else if value =? status_code OperationFailed then OperationFailed
  else if value =? status_code Pending then Pending
  else UnknownStatus.

(** ** The header

    [IpcMessageHeader]: a 32-bit word with bit fields from the lowest bit up.
    A setter replaces the bits of its field. *)

Module Header.
Record field := mkField { lo : Z; width : Z }.

Definition msg_op := mkField 0 7.
Definition response := mkField 7 1.
Definition tag := mkField 8 8.
Definition status := mkField 16 4.
Definition submit_map := mkField 20 2.
Definition complete_map := mkField 22 2.
Definition length := mkField 24 8.

Definition fields : list field := [msg_op; response; tag; status; submit_map; complete_map; length].

Definition get (f : field) (h : Z) : Z := Z.land (Z.shiftr h (lo f)) (Z.ones (width f)).
Definition set (f : field) (v h : Z) : Z :=
  Z.lor (Z.land h (unot 32 (Z.shiftl (Z.ones (width f)) (lo f))))
        (Z.shiftl (Z.land v (Z.ones (width f))) (lo f)).

Definition in_word (f : field) : Prop := 0 ≤ lo f ∧ 0 ≤ width f ∧ lo f + width f ≤ 32.
Definition disjoint (f g : field) : Prop := lo f + width f ≤ lo g ∨ lo g + width g ≤ lo f.

Lemma testbit_field f j : in_word f → 0 ≤ j →
  Z.testbit (Z.shiftl (Z.ones (width f)) (lo f)) j = bool_decide (lo f ≤ j < lo f + width f).
Proof.
  intros (H1 & H2 & H3) Hj. destruct (decide (j < lo f)).
  - rewrite Z.shiftl_spec_low, bool_decide_eq_false_2 by lia. done.
  - rewrite Z.shiftl_spec by lia. destruct (decide (j - lo f < width f)).
    + rewrite Z.ones_spec_low, bool_decide_eq_true_2 by lia. done.
    + rewrite Z.ones_spec_high, bool_decide_eq_false_2 by lia. done.
Qed.

Lemma testbit_set f v h j :
  in_word f → uint_range 32 h → 0 ≤ j →
  Z.testbit (set f v h) j =
  if decide (lo f ≤ j < lo f + width f) then Z.testbit v (j - lo f) else Z.testbit h j.
Proof.
  intros Hf Hh Hj. pose proof Hf as (H1 & H2 & H3). unfold set. rewrite Z.lor_spec, Z.land_spec.
  assert (Z.testbit (Z.shiftl (Z.land v (Z.ones (width f))) (lo f)) j =
          if decide (lo f ≤ j < lo f + width f) then Z.testbit v (j - lo f) else false) as ->.
  { destruct (decide (j < lo f)).
    - rewrite Z.shiftl_spec_low, decide_False by lia. done.
    - rewrite Z.shiftl_spec, Z.land_spec by lia. case_decide.
      + rewrite Z.ones_spec_low by lia. apply andb_true_r.
      + rewrite Z.ones_spec_high by lia. apply andb_false_r. }
  destruct (decide (j < 32)).
  - rewrite testbit_unot, testbit_field by (done || lia). case_decide as Hd.
    + rewrite bool_decide_eq_true_2 by done. by rewrite andb_false_r.
    + rewrite bool_decide_eq_false_2 by done. by rewrite andb_true_r, orb_false_r.
  - rewrite (testbit_above 32 h), decide_False by (done || lia). done.
Qed.

Lemma header_set_range f v h : in_word f → uint_range 32 h → uint_range 32 (set f v h).
Proof.
  intros Hf Hh. pose proof Hf as (H1 & H2 & H3). apply uint_range_bits; [lia| |].
  - unfold set. apply Z.lor_nonneg. split.
    + apply Z.land_nonneg. left. apply Hh.
    + apply Z.shiftl_nonneg, Z.land_nonneg. right. rewrite Z.ones_equiv. lia.
  - intros i Hi. rewrite testbit_set, decide_False by (done || lia).
    by apply (testbit_above 32 h).
Qed.

(** A getter returns what its setter stored and ignores the others. *)
Lemma get_set f v h :
  in_word f → uint_range 32 h → uint_range (width f) v → get f (set f v h) = v.
Proof.
  intros Hf Hh Hv. pose proof Hf as (H1 & H2 & H3). apply Z.bits_inj'. intros j Hj.
  unfold get. rewrite Z.land_spec, Z.shiftr_spec, testbit_set by (done || lia).
  destruct (decide (j < width f)).
  - rewrite Z.ones_spec_low, decide_True, andb_true_r by lia. f_equal. lia.
  - rewrite Z.ones_spec_high, andb_false_r by lia.
    by rewrite (testbit_above (width f) v) by (done || lia).
Qed.

Lemma get_set_other f g v h :
  in_word f → in_word g → disjoint f g → uint_range 32 h → get g (set f v h) = get g h.
Proof.
  intros Hf Hg Hd Hh. pose proof Hg as (H1 & H2 & H3). apply Z.bits_inj'. intros j Hj.
  unfold get. rewrite !Z.land_spec, !Z.shiftr_spec by lia.
  destruct (decide (j < width g)).
  - rewrite testbit_set, decide_False by (done || unfold disjoint in Hd; lia). done.
  - rewrite Z.ones_spec_high by lia. by rewrite !andb_false_r.
Qed.

(** [IpcMessageHeader::new().with_msg_op(op).with_length(len)]. *)
Definition new (op : IpcMessageOpCode) (len : nat) : Z :=
  set length (Z.of_nat len) (set msg_op (opcode op) 0).

End Header.

(** ** Messages *)

(** [IpcMessageType], for the payload of the message. *)
Class IpcMessageType (I : Type) := {
  OP : IpcMessageOpCode;
  layout : wire I;
  validate : I → outcome IpcMessageErr ();
  layout_fits : (wsize layout ≤ IPC_MESSAGE_PAYLOAD_LEN)%nat;
  validate_total i : validate i ≠ Panic
}.

(** [LEN]. *)
Definition LEN (I : Type) `{IpcMessageType I} : nat := wsize (layout (I:=I)).

Record message (I : Type) := mkMessage { header : Z; info : I; rsvd : list Z }.
Arguments mkMessage {_}.
Arguments header {_}.
Arguments info {_}.
Arguments rsvd {_}.

(** [assert_eq_size!(T, IpcMessage)]. *)
Definition IpcMessage_wire : wire IpcMessage := array IPC_MESSAGE_LENGTH u32.

Section codec.
Context {I : Type} `{IpcMessageType I}.

Definition message_wire : wire (message I) :=
  record (wpair u32 (wpair (layout (I:=I)) (array (IPC_MESSAGE_PAYLOAD_LEN - LEN I) u8)))
    (λ '(h, (i, r)), mkMessage h i r : message I) (λ m : message I, (header m, (info m, rsvd m))).

Lemma message_wire_size : wsize message_wire = wsize IpcMessage_wire.
Proof.
  pose proof layout_fits as Hl. unfold message_wire, LEN, IPC_MESSAGE_PAYLOAD_LEN in *. simpl.
  change (wsize IpcMessage_wire) with 64%nat. unfold IPC_MESSAGE_LENGTH. lia.
Qed.

(** [IpcMessageEncoder::encode]: the bytes of the message copied over the
    sixteen words. *)
Definition encode (m : message I) : outcome IpcMessageErr IpcMessage :=
  dst ← copy_from_slice (as_bytes IpcMessage_wire zero_message) 0 64 (as_bytes message_wire m);
  mret (read_bytes IpcMessage_wire dst).

(** [IpcMessageDecoder::decode_header] of the first word. *)
Definition decode_header (ipc_message : IpcMessage) : outcome IpcMessageErr Z :=
  match ipc_message !! 0%nat with
  | Some w => if decide (length (to_le_bytes 4 w) = wsize u32)
              then Ok (read_bytes u32 (to_le_bytes 4 w)) else Err InvalidMessageHeaderDecode
  | None => Panic
  end.

(** [IpcMessageDecoder::decode]; [read_from_bytes] fails when the sizes
    differ. *)
Definition decode (ipc_message : IpcMessage) : outcome IpcMessageErr (message I) :=
  header ← decode_header ipc_message;
  if decide (Header.get Header.msg_op header ≠ opcode OP) then Err InvalidOpcodeConversion
  else
    let bytes := as_bytes IpcMessage_wire ipc_message in
    if decide (length bytes = wsize message_wire) then
      let message := read_bytes message_wire bytes in
      _ ← validate (info message);
      mret message
    else Err InvalidInputMessageForDecode.

(** [Default]: the header with opcode and length, a default payload, zeros. *)
Definition default_message (i : I) : message I :=
  mkMessage (Header.new OP (LEN I)) i (replicate (IPC_MESSAGE_PAYLOAD_LEN - LEN I) 0).

End codec.
Arguments message_wire _ {_}.
Arguments decode _ {_}.

(** ** The codec is exact *)

Section codec_ok.
Context {I : Type} `{IpcMessageType I}.

(** [encode] never panics: the sizes agree. *)
Lemma encode_ok (m : message I) :
  in_range (message_wire I) m →
  encode m = Ok (reread (message_wire I) IpcMessage_wire m).
Proof.
  intros Hm. unfold encode, copy_from_slice.
  assert (length (as_bytes (message_wire I) m) = 64%nat) as Hl.
  { rewrite as_bytes_length by done. apply message_wire_size. }
  rewrite decide_True by (by split). cbn [mbind outcome_bind mret outcome_ret].
  rewrite take_0, drop_ge by (vm_compute; lia). cbn [app]. rewrite app_nil_r. done.
Qed.

(** The header of a word array is that of the message read from it. *)
Lemma decode_header_ok w :
  in_range IpcMessage_wire w →
  decode_header w = Ok (header (reread IpcMessage_wire (message_wire I) w)).
Proof.
  intros [Hl Hw]. unfold decode_header. destruct w as [|w0 w]; [done|]. cbn [lookup list_lookup].
  rewrite decide_True by apply length_to_le_bytes. reflexivity.
Qed.

(** [decode] of any sixteen words. *)
Lemma decode_ok w :
  in_range IpcMessage_wire w →
  decode I w =
  let m := reread IpcMessage_wire (message_wire I) w in
  if decide (Header.get Header.msg_op (header m) = opcode (OP (I:=I)))
  then (_ ← validate (info m); Ok m) else Err InvalidOpcodeConversion.
Proof.
  intros Hw. unfold decode. rewrite decode_header_ok by done. cbn [mbind outcome_bind]. cbv zeta.
  destruct (decide (Header.get Header.msg_op
    (header (reread IpcMessage_wire (message_wire I) w)) = opcode (OP (I:=I)))) as [E|E].
  - rewrite decide_False by (intros Hne; by apply Hne).
    rewrite decide_True; [done|]. rewrite as_bytes_length by done. symmetry. apply message_wire_size.
  - by rewrite decide_True.
Qed.
End codec_ok.

(** ** Theorems *)

(** The fields of the header are independent: each keeps the value it was
    given, if the value fits its width, and writing one changes no other. *)
Theorem header_fields_independent (h v : Z) (f : Header.field) :
  uint_range 32 h → f ∈ Header.fields → uint_range (Header.width f) v →
  Header.get f (Header.set f v h) = v ∧ uint_range 32 (Header.set f v h) ∧
  ∀ g, g ∈ Header.fields → g ≠ f → Header.get g (Header.set f v h) = Header.get g h.
Proof.
  intros Hh Hf Hv.
  assert (∀ g, g ∈ Header.fields → Header.in_word g) as Hin.
  { apply list.Forall_forall. unfold Header.in_word. repeat constructor; simpl; lia. }
  split_and!.
  - by apply Header.get_set; auto.
  - by apply Header.header_set_range; auto.
  - intros g Hg Hne. apply Header.get_set_other; auto. unfold Header.disjoint.
    unfold Header.fields in *. rewrite !elem_of_cons, elem_of_nil in Hf, Hg.
    destruct_or?; subst; simpl; (done || lia).
Qed.

Lemma header_fields_independent_witness :
  Header.get Header.tag (Header.set Header.tag 200 0xFFFFFFFF) = 200 ∧
  Header.get Header.status (Header.set Header.tag 200 0xFFFFFFFF) = 15.
Proof.
  destruct (header_fields_independent 0xFFFFFFFF 200 Header.tag) as (H1 & H2 & H3).
  - by vm_compute.
  - apply list_elem_of_In. simpl. auto.
  - by vm_compute.
  - split; [exact H1|]. rewrite H3; [by vm_compute|apply list_elem_of_In; simpl; auto 10|done].
Defined.
