(* ===== verification/IpcMessageTypes.v ===== *)
(** * The inter-processor message types (serde/ipc/src/message)

    For each file of the source: the open enumerations as their integer
    values, the payload as a record with its [repr(C)] layout, [validate] and
    the default message.  A message whose payload is written as several
    fields of the message itself (state, crash type and processor, ...) has
    those fields as its payload record. *)

From stdpp Require Import base list numbers option.
From S2P Require Import Prelude Wire Simplex IpcChannel IpcMessages.

Local Open Scope Z_scope.

(** [if !ok { return Err(e)? }]. *)
Definition check (ok : bool) (e : IpcMessageErr) : outcome IpcMessageErr () :=
  if ok then Ok tt else Err e.

(** [matches!(v, a | b | ...)] on an open enumeration. *)
Definition one_of (l : list Z) (v : Z) : bool := bool_decide (v ∈ l).

(** The payload fits the message. *)
Ltac fits := apply Nat.leb_le; vm_compute; reflexivity.

(** No check panics. *)
Ltac no_panic :=
  intros; unfold check, mbind, outcome_bind; repeat case_match; discriminate.

(** [PcieFunction::Pf]; the virtual functions are 0 to 63. *)
Definition Pf : Z := 64.

(** ** cdma_err.rs *)

Definition CdmaErrSubOpCode_AbortIO : Z := 0.
Definition CdmaErrSubOpCode_EccCorrectionCmd : Z := 1.

Record IpcMessageCdmaErr := mkCdmaErr { ce_op_code : Z; ce_rsvd : list Z }.

#[global] Instance CdmaErr_type : IpcMessageType IpcMessageCdmaErr := {
  OP := CdmaEccErr;
  layout := record (wpair u8 (array 3 u8)) (λ '(a, b), mkCdmaErr a b)
              (λ i, (ce_op_code i, ce_rsvd i));
  validate i := check (one_of [CdmaErrSubOpCode_EccCorrectionCmd] (ce_op_code i))
                  InvalidErrReqSubOpCode;
  layout_fits := ltac:(fits);
  validate_total := ltac:(no_panic)
}.

Definition CdmaErr_default : message IpcMessageCdmaErr :=
  default_message (mkCdmaErr CdmaErrSubOpCode_EccCorrectionCmd [0; 0; 0]).

(** ** cdma_io.rs *)

Record IpcMessageCdmaIoReq := mkCdmaIoReq { ci_dw0 : Z; ci_dw1 : Z }.

#[global] Instance CdmaIoReq_type : IpcMessageType IpcMessageCdmaIoReq := {
  OP := CdmaIo;
  layout := record (wpair u32 u32) (λ '(a, b), mkCdmaIoReq a b) (λ i, (ci_dw0 i, ci_dw1 i));
  validate _ := Ok tt;
  layout_fits := ltac:(fits);
  validate_total := ltac:(no_panic)
}.

Definition CdmaIoReq_default : message IpcMessageCdmaIoReq := default_message (mkCdmaIoReq 0 0).

Record IpcMessageCdmaIoResp := mkCdmaIoResp {
  cr_cmd_list_idx : Z; cr_cmd_list_num : Z; cr_cmd_status : Z
}.

#[global] Instance CdmaIoResp_type : IpcMessageType IpcMessageCdmaIoResp := {
  OP := CdmaIo;
  layout := record (wpair u8 (wpair u8 u8)) (λ '(a, (b, c)), mkCdmaIoResp a b c)
              (λ i, (cr_cmd_list_idx i, (cr_cmd_list_num i, cr_cmd_status i)));
  validate _ := Ok tt;
  layout_fits := ltac:(fits);
  validate_total := ltac:(no_panic)
}.

(** The response bit is set as well. *)
Definition CdmaIoResp_default : message IpcMessageCdmaIoResp :=
  let m := default_message (mkCdmaIoResp 0 0 0) in
  mkMessage (Header.set Header.response 1 (header m)) (info m) (rsvd m).

(** ** state_change.rs *)

Definition IoProcessorState_NormalBoot : Z := 3.
Definition IoProcessorState_Start : Z := 6.
Definition IoProcessorState_PrepareRelease : Z := 10.
Definition IoProcessorState_Release : Z := 11.

Record IpcMessageIoStateChange := mkIoStateChange { sc_state : Z }.

#[global] Instance IoStateChange_type : IpcMessageType IpcMessageIoStateChange := {
  OP := StateChange;
  layout := record u8 (λ a, mkIoStateChange a) sc_state;
  validate i := check (one_of [IoProcessorState_NormalBoot; IoProcessorState_Start;
                               IoProcessorState_PrepareRelease; IoProcessorState_Release]
                         (sc_state i)) InvalidIoStateValue;
  layout_fits := ltac:(fits);
  validate_total := ltac:(no_panic)
}.

Definition IoStateChange_default : message IpcMessageIoStateChange :=
  default_message (mkIoStateChange IoProcessorState_NormalBoot).

(** ** sq_create_delete.rs *)

Definition SqAction_Delete : Z := 0.
Definition SqAction_Create : Z := 1.

Record SqCreateDeleteInfo := mkSqInfo {
  sq_pfn : Z; sq_device_sq_id : Z; sq_device_cq_id : Z; sq_action : Z
}.

#[global] Instance CreateDeleteSq_type : IpcMessageType SqCreateDeleteInfo := {
  OP := CreateDeleteSq;
  layout := record (wpair u8 (wpair u8 (wpair u8 u8))) (λ '(a, (b, (c, d))), mkSqInfo a b c d)
              (λ i, (sq_pfn i, (sq_device_sq_id i, (sq_device_cq_id i, sq_action i))));
  validate i :=
    _ ← check (sq_pfn i <=? 64) InvalidPcieFnId;
    _ ← check (sq_device_cq_id i <=? 129) InvalidDeviceCqId;
    _ ← check (sq_device_sq_id i <=? 129) InvalidDeviceSqId;
    check (one_of [SqAction_Delete; SqAction_Create] (sq_action i)) InvalidSqAction;
  layout_fits := ltac:(fits);
  validate_total := ltac:(no_panic)
}.

Definition CreateDeleteSq_default : message SqCreateDeleteInfo :=
  default_message (mkSqInfo Pf 0 0 SqAction_Delete).

(** ** pfn_enable_disable.rs *)

Definition PfnEnableDisableAction_Disable : Z := 0.
Definition PfnEnableDisableAction_Enable : Z := 1.
Definition PfnEnableDisableAction_Migrate : Z := 2.

Record PfnEnableDisableInfo := mkPfnInfo { pf_pfn : Z; pf_action : Z }.

#[global] Instance PfnEnableDisable_type : IpcMessageType PfnEnableDisableInfo := {
  OP := PfnEnableDisable;
  layout := record (wpair u8 u8) (λ '(a, b), mkPfnInfo a b) (λ i, (pf_pfn i, pf_action i));
  validate i :=
    _ ← check (pf_pfn i <=? 64) InvalidPcieFnId;
    check (one_of [PfnEnableDisableAction_Enable; PfnEnableDisableAction_Disable;
                   PfnEnableDisableAction_Migrate] (pf_action i)) InvalidPfnEnableDisableAction;
  layout_fits := ltac:(fits);
  validate_total := ltac:(no_panic)
}.

Definition PfnEnableDisable_default : message PfnEnableDisableInfo :=
  default_message (mkPfnInfo Pf PfnEnableDisableAction_Disable).

(** ** key_update.rs *)

Definition KeyUpdateAction_Delete : Z := 0.
Definition KeyUpdateAction_DeleteEphemeral : Z := 1.
Definition KeyUpdateAction_DeleteAll : Z := 2.
Definition KeyUpdateAction_Create : Z := 3.

(** [From<u8> for AesBulkKeyType]. *)
Definition AesBulkKeyType_from (value : Z) : Z := if one_of [0; 1; 2] value then value else 3.

Record KeyUpdateInfo := mkKeyUpdate {
  ku_key_index : Z; ku_resource_id : Z; ku_pfn : Z; ku_action : Z; ku_session_id : Z;
  ku_app_id : Z; ku_flag : Z; ku_key_data : list Z
}.

#[global] Instance KeyUpdate_type : IpcMessageType KeyUpdateInfo := {
  OP := AesKeyUpdate;
  layout := record (wpair u8 (wpair u8 (wpair u8 (wpair u8 (wpair u16 (wpair u8 (wpair u8
                      (array 32 u8))))))))
              (λ '(a, (b, (c, (d, (e, (f, (g, k))))))), mkKeyUpdate a b c d e f g k)
              (λ i, (ku_key_index i, (ku_resource_id i, (ku_pfn i, (ku_action i,
                      (ku_session_id i, (ku_app_id i, (ku_flag i, ku_key_data i))))))));
  validate i :=
    _ ← check (ku_pfn i <=? 65) InvalidPcieFnId;
    check (one_of [KeyUpdateAction_Delete; KeyUpdateAction_DeleteEphemeral;
                   KeyUpdateAction_DeleteAll; KeyUpdateAction_Create] (ku_action i))
      InvalidKeyUpdateAction;
  layout_fits := ltac:(fits);
  validate_total := ltac:(no_panic)
}.

Definition KeyUpdate_default : message KeyUpdateInfo :=
  default_message (mkKeyUpdate 0 0 Pf KeyUpdateAction_Create 0 0 0 (replicate 32 0)).

(** ** ucd_query.rs *)

Record UcdQueryInfo := mkUcdQuery {
  uq_queue_len : Z; uq_rx_free_list_addr : Z; uq_tx_free_list_addr : Z; uq_rx_queue_addr : Z;
  uq_tx_queue_addr : Z; uq_rx_entry_addr : Z; uq_rx_pi_addr : Z; uq_tx_pi_addr : Z;
  uq_ctrl_id : Z; uq_channel_id : Z; uq_rsvd : Z
}.

#[global] Instance UcdQuery_type : IpcMessageType UcdQueryInfo := {
  OP := UcdQuery;
  layout := record (wpair u32 (wpair u32 (wpair u32 (wpair u32 (wpair u32 (wpair u32 (wpair u32
                      (wpair u32 (wpair u8 (wpair u8 u16))))))))))
              (λ '(a, (b, (c, (d, (e, (f, (g, (h, (j, (k, l)))))))))),
                 mkUcdQuery a b c d e f g h j k l)
              (λ i, (uq_queue_len i, (uq_rx_free_list_addr i, (uq_tx_free_list_addr i,
                      (uq_rx_queue_addr i, (uq_tx_queue_addr i, (uq_rx_entry_addr i,
                      (uq_rx_pi_addr i, (uq_tx_pi_addr i, (uq_ctrl_id i, (uq_channel_id i,
                      uq_rsvd i)))))))))));
  validate i :=
    _ ← check (one_of [0; 1] (uq_ctrl_id i)) InvalidControllerId;
    check (one_of [0; 1; 2; 3; 4] (uq_channel_id i)) InvalidChannelId;
  layout_fits := ltac:(fits);
  validate_total := ltac:(no_panic)
}.

Definition UcdQuery_default : message UcdQueryInfo :=
  default_message (mkUcdQuery 0 0 0 0 0 0 0 0 0 0 0).

(** ** cert_chain.rs *)

Definition MAX_DEVICE_ID_CERTS : nat := 13.

Record GetCertChainLengthsPayload := mkCertLengths {
  cl_hash : list Z; cl_num_certs : Z; cl_cert_lengths : list Z
}.

#[global] Instance GetCertChainLengths_type : IpcMessageType GetCertChainLengthsPayload := {
  OP := GetCertChainLengths;
  layout := record (wpair (array 32 u8) (wpair u8 (array MAX_DEVICE_ID_CERTS u16)))
              (λ '(a, (b, c)), mkCertLengths a b c)
              (λ i, (cl_hash i, (cl_num_certs i, cl_cert_lengths i)));
  validate _ := Ok tt;
  layout_fits := ltac:(fits);
  validate_total := ltac:(no_panic)
}.

Definition GetCertChainLengths_default : message GetCertChainLengthsPayload :=
  default_message (mkCertLengths (replicate 32 0) 0 (replicate MAX_DEVICE_ID_CERTS 0)).

Record GetCertPayload := mkGetCert {
  gc_cert_id : Z; gc_cert_len : Z; gc_addr : Z; gc_buf_size : Z
}.

#[global] Instance GetCert_type : IpcMessageType GetCertPayload := {
  OP := GetCert;
  layout := record (wpair u8 (wpair u16 (wpair u64 u16))) (λ '(a, (b, (c, d))), mkGetCert a b c d)
              (λ i, (gc_cert_id i, (gc_cert_len i, (gc_addr i, gc_buf_size i))));
  validate _ := Ok tt;
  layout_fits := ltac:(fits);
  validate_total := ltac:(no_panic)
}.

Definition GetCert_default : message GetCertPayload := default_message (mkGetCert 0 0 0 0).

(** ** shutdown.rs *)

Record ShutdownInfo := mkShutdown { sd_drain_time_ms : Z }.

#[global] Instance Shutdown_type : IpcMessageType ShutdownInfo := {
  OP := Shutdown;
  layout := record u32 (λ a, mkShutdown a) sd_drain_time_ms;
  validate i := check (sd_drain_time_ms i <=? 60000) InvalidDrainTimeConfig;
  layout_fits := ltac:(fits);
  validate_total := ltac:(no_panic)
}.

Definition Shutdown_default : message ShutdownInfo := default_message (mkShutdown 0).

(** ** trigger_crash.rs and trigger_stack_validation.rs *)

Definition CrashType_HardFault : Z := 1.
Definition SocCpuId_Admin : Z := 0.
Definition StackErrorType_StackOverflow : Z := 1.

(** [From<DdiTestActionCrashType>], [From<DdiTestActionSocCpuId>] and
    [From<DdiTestStackErrorType>]: values outside the enumeration become the
    first one. *)
Definition CrashType_from (v : Z) : Z := if one_of [1; 2; 3; 4] v then v else CrashType_HardFault.
Definition SocCpuId_from (v : Z) : Z := if one_of [0; 1; 2; 3; 4] v then v else SocCpuId_Admin.
Definition StackErrorType_from (v : Z) : Z :=
  if one_of [1; 2] v then v else StackErrorType_StackOverflow.

Record IpcMessageTriggerCrash := mkTriggerCrash { tc_crash_type : Z; tc_cpu_id : Z }.

#[global] Instance TriggerCrash_type : IpcMessageType IpcMessageTriggerCrash := {
  OP := TriggerCrash;
  layout := record (wpair u32 u32) (λ '(a, b), mkTriggerCrash a b)
              (λ i, (tc_crash_type i, tc_cpu_id i));
  validate _ := Ok tt;
  layout_fits := ltac:(fits);
  validate_total := ltac:(no_panic)
}.

Definition TriggerCrash_default : message IpcMessageTriggerCrash :=
  default_message (mkTriggerCrash CrashType_HardFault SocCpuId_Admin).

Record IpcMessageTriggerStackValidation := mkStackValidation { ts_error_type : Z; ts_cpu_id : Z }.

#[global] Instance TriggerStackValidation_type :
  IpcMessageType IpcMessageTriggerStackValidation := {
  OP := TriggerStackValidation;
  layout := record (wpair u32 u32) (λ '(a, b), mkStackValidation a b)
              (λ i, (ts_error_type i, ts_cpu_id i));
  validate _ := Ok tt;
  layout_fits := ltac:(fits);
  validate_total := ltac:(no_panic)
}.

Definition TriggerStackValidation_default : message IpcMessageTriggerStackValidation :=
  default_message (mkStackValidation StackErrorType_StackOverflow SocCpuId_Admin).

(** ** neg_self_test.rs *)

Record IpcMessageNegSelfTestReq := mkNegSelfTest { ns_test_id : Z }.

#[global] Instance NegSelfTest_type : IpcMessageType IpcMessageNegSelfTestReq := {
  OP := NegativeSelfTest;
  layout := record u32 (λ a, mkNegSelfTest a) ns_test_id;
  validate _ := Ok tt;
  layout_fits := ltac:(fits);
  validate_total := ltac:(no_panic)
}.

Definition NegSelfTest_default : message IpcMessageNegSelfTestReq :=
  default_message (mkNegSelfTest 0).

(** ** get_bulk_key.rs *)

Record GetBulkKeyInfo := mkGetBulkKey {
  bk_key_index : Z; bk_resource_id : Z; bk_pfn : Z; bk_rsvd : Z; bk_key : list Z
}.

#[global] Instance GetBulkKey_type : IpcMessageType GetBulkKeyInfo := {
  OP := GetBulkKey;
  layout := record (wpair u8 (wpair u8 (wpair u8 (wpair u8 (array 8 u32)))))
              (λ '(a, (b, (c, (d, e)))), mkGetBulkKey a b c d e)
              (λ i, (bk_key_index i, (bk_resource_id i, (bk_pfn i, (bk_rsvd i, bk_key i)))));
  validate _ := Ok tt;
  layout_fits := ltac:(fits);
  validate_total := ltac:(no_panic)
}.

Definition GetBulkKey_default : message GetBulkKeyInfo :=
  default_message (mkGetBulkKey 0 0 Pf 0 (replicate 8 0)).

(** ** stop_interface.rs *)

Record StopInterfaceInfo := mkStopInterface { si_vf_mask : list Z; si_pf_mask : Z }.

#[global] Instance StopInterface_type : IpcMessageType StopInterfaceInfo := {
  OP := StopInterface;
  layout := record (wpair (array 2 u32) u32) (λ '(a, b), mkStopInterface a b)
              (λ i, (si_vf_mask i, si_pf_mask i));
  validate i := check (negb (1 <? si_pf_mask i)) InvalidPcieFnId;
  layout_fits := ltac:(fits);
  validate_total := ltac:(no_panic)
}.

Definition StopInterface_default : message StopInterfaceInfo :=
  default_message (mkStopInterface [0; 0] 0).

(** ** rsa_key_gen.rs *)

Definition RsaKeyGenKeyType_Rsa2k : Z := 0.

Record RsaKeyGenInfo := mkRsaKeyGen {
  rk_addr : Z; rk_key_type : Z; rk_pfn : Z; rk_rsvd : list Z
}.

#[global] Instance RsaKeyGen_type : IpcMessageType RsaKeyGenInfo := {
  OP := RsaKeyGen;
  layout := record (wpair u32 (wpair u8 (wpair u8 (array 2 u8))))
              (λ '(a, (b, (c, d))), mkRsaKeyGen a b c d)
              (λ i, (rk_addr i, (rk_key_type i, (rk_pfn i, rk_rsvd i))));
  validate i := check (rk_pfn i <=? 64) InvalidPcieFnId;
  layout_fits := ltac:(fits);
  validate_total := ltac:(no_panic)
}.

Definition RsaKeyGen_default : message RsaKeyGenInfo :=
  default_message (mkRsaKeyGen 0 RsaKeyGenKeyType_Rsa2k Pf [0; 0]).

(** ** tdisp_int.rs *)

Definition InterruptSource_Tdisp : Z := 0.
Definition InterruptSource_Ide : Z := 1.
Definition InterruptSource_Flr : Z := 2.
Definition InterruptSource_PerstUp : Z := 3.
Definition InterruptSource_PerstDown : Z := 4.
Definition InterruptSource_Unknown : Z := 0xFF.

(** [From<u32> for InterruptSource], and back: only the named values do not
    panic. *)
Definition InterruptSource_from (v : Z) : Z :=
  if one_of [0; 1; 2; 3; 4] v then v else InterruptSource_Unknown.
Definition u32_from_InterruptSource (v : Z) : outcome IpcMessageErr Z :=
  if one_of [0; 1; 2; 3; 4; 0xFF] v then Ok v else Panic.

Record TdispInterruptInfo := mkTdisp {
  td_source : Z; td_vf_mask : list Z; td_pf_mask : Z; td_reg_values : list Z
}.

#[global] Instance TdispInterrupt_type : IpcMessageType TdispInterruptInfo := {
  OP := TdispInterrupt;
  layout := record (wpair u32 (wpair (array 2 u32) (wpair u32 (array 5 u32))))
              (λ '(a, (b, (c, d))), mkTdisp a b c d)
              (λ i, (td_source i, (td_vf_mask i, (td_pf_mask i, td_reg_values i))));
  validate i :=
    _ ← check (one_of [InterruptSource_Tdisp; InterruptSource_Ide; InterruptSource_Flr;
                       InterruptSource_PerstUp; InterruptSource_PerstDown] (td_source i))
          InvalidInterruptSource;
    check (negb (1 <? td_pf_mask i)) InvalidPcieFnId;
  layout_fits := ltac:(fits);
  validate_total := ltac:(no_panic)
}.

Definition TdispInterrupt_default : message TdispInterruptInfo :=
  default_message (mkTdisp InterruptSource_Unknown [0; 0] 0 (replicate 5 0)).

(** ** set_res.rs *)

Record SetResInfo := mkSetRes { sr_mask : list Z; sr_pfn : Z; sr_vm_launch_guid : list Z }.

#[global] Instance SetRes_type : IpcMessageType SetResInfo := {
  OP := SetResource;
  layout := record (wpair (array 16 u8) (wpair u8 (array 16 u8))) (λ '(a, (b, c)), mkSetRes a b c)
              (λ i, (sr_mask i, (sr_pfn i, sr_vm_launch_guid i)));
  validate i := check (sr_pfn i <=? 64) InvalidPcieFnId;
  layout_fits := ltac:(fits);
  validate_total := ltac:(no_panic)
}.

Definition SetRes_default : message SetResInfo :=
  default_message (mkSetRes (replicate 16 0) Pf (replicate 16 0)).

(** ** doe.rs *)

Record DoeInfo := mkDoe { do_addr : Z }.

#[global] Instance Doe_type : IpcMessageType DoeInfo := {
  OP := Doe;
  layout := record u32 (λ a, mkDoe a) do_addr;
  validate _ := Ok tt;
  layout_fits := ltac:(fits);
  validate_total := ltac:(no_panic)
}.

Definition Doe_default : message DoeInfo := default_message (mkDoe 0).

(** Every default message decodes to itself, except the TDISP interrupt,
    whose default source is not a valid one. *)
Definition redecodes {I} `{IpcMessageType I} (m : message I) : outcome IpcMessageErr (message I) :=
  w ← encode m; decode I w.

Example defaults_decode :
  redecodes CdmaErr_default = Ok CdmaErr_default ∧
  redecodes CdmaIoReq_default = Ok CdmaIoReq_default ∧
  redecodes CdmaIoResp_default = Ok CdmaIoResp_default ∧
  redecodes IoStateChange_default = Ok IoStateChange_default ∧
  redecodes CreateDeleteSq_default = Ok CreateDeleteSq_default ∧
  redecodes PfnEnableDisable_default = Ok PfnEnableDisable_default ∧
  redecodes KeyUpdate_default = Ok KeyUpdate_default ∧
  redecodes UcdQuery_default = Ok UcdQuery_default ∧
  redecodes GetCertChainLengths_default = Ok GetCertChainLengths_default ∧
  redecodes GetCert_default = Ok GetCert_default ∧
  redecodes Shutdown_default = Ok Shutdown_default ∧
  redecodes TriggerCrash_default = Ok TriggerCrash_default ∧
  redecodes TriggerStackValidation_default = Ok TriggerStackValidation_default ∧
  redecodes NegSelfTest_default = Ok NegSelfTest_default ∧
  redecodes GetBulkKey_default = Ok GetBulkKey_default ∧
  redecodes StopInterface_default = Ok StopInterface_default ∧
  redecodes RsaKeyGen_default = Ok RsaKeyGen_default ∧
  redecodes SetRes_default = Ok SetRes_default ∧
  redecodes Doe_default = Ok Doe_default ∧
  redecodes TdispInterrupt_default = Err InvalidInterruptSource.
Proof. vm_compute. by split_and!. Qed.

(** ** Theorems *)

(** C33: the codec of every message type is exact.  Encoding a message never
    panics and gives sixteen words; decoding them gives the message back if it
    carries the opcode of its type and [validate] accepts it, and otherwise
    the error of the first check that fails.  Conversely any sixteen words
    decode without a panic, and if they decode to a message it is in range,
    valid and encodes to exactly those words. *)
Theorem ipc_codec_exact (I : Type) `{IpcMessageType I} :
  (∀ m : message I, in_range (message_wire I) m →
     ∃ w, encode m = Ok w ∧ message_ok w ∧
       decode I w =
       (if decide (Header.get Header.msg_op (header m) = opcode (OP (I:=I)))
        then (_ ← validate (info m); Ok m) else Err InvalidOpcodeConversion)) ∧
  (∀ w, message_ok w → Forall (uint_range 32) w →
     match decode I w with
     | Ok m => in_range (message_wire I) m ∧ encode m = Ok w ∧ validate (info m) = Ok tt ∧
               Header.get Header.msg_op (header m) = opcode (OP (I:=I))
     | Err e => e = InvalidOpcodeConversion ∨ ∃ i : I, validate i = Err e
     | Panic => False
     end).
Proof.
  split.
  - intros m Hm. exists (reread (message_wire I) IpcMessage_wire m).
    pose proof (reread_range (message_wire I) IpcMessage_wire m message_wire_size Hm) as Hw.
    split; [by apply encode_ok|]. split; [apply Hw|].
    rewrite decode_ok by done. cbv zeta. by rewrite reread_reread by (done || apply message_wire_size).
  - intros w Hl Hw. assert (in_range IpcMessage_wire w) as Hin by done.
    rewrite decode_ok by done. cbv zeta.
    set (m := reread IpcMessage_wire (message_wire I) w).
    assert (in_range (message_wire I) m) as Hm
      by (apply reread_range; [symmetry; apply message_wire_size|done]).
    case_decide as E; [|by left].
    destruct (validate (info m)) as [[]|e|] eqn:Hv; cbn [mbind outcome_bind].
    + split_and!; [done| |done|done]. rewrite encode_ok by done. f_equal.
      apply reread_reread; [symmetry; apply message_wire_size|done].
    + right. by exists (info m).
    + by apply validate_total in Hv.
Qed.

(** A typed request and its response cross the channel unchanged.  From
    an idle channel, a request encoded and sent by one processor decodes at
    the other to the same message, and so does the response on its way back;
    afterwards the channel is idle again with both queues empty and zeroed. *)
Theorem typed_exchange `{IpcHw} (Req Resp : Type) `{IpcMessageType Req} `{IpcMessageType Resp}
    (s : Link.state) (t : Z) (req : message Req) (resp : message Resp) :
  Link.represents Link.Idle s →
  in_range (message_wire Req) req → in_range (message_wire Resp) resp →
  Header.get Header.msg_op (header req) = opcode (OP (I:=Req)) → validate (info req) = Ok tt →
  Header.get Header.msg_op (header resp) = opcode (OP (I:=Resp)) → validate (info resp) = Ok tt →
  ∃ w w', encode req = Ok w ∧ encode resp = Ok w' ∧
    let '(rs, s') :=
      Link.run_all [Link.Request t w; Link.Serve; Link.Respond w'; Link.Collect] s in
    rs = [Link.Done (Ok tt); Link.Got (Ok (Some w)); Link.Done (Ok tt); Link.Got (Ok (Some w'))] ∧
    decode Req w = Ok req ∧ decode Resp w' = Ok resp ∧ Link.represents Link.Idle s'.
Proof.
  intros Hs Hreq Hresp Hop Hv Hop' Hv'.
  exists (reread (message_wire Req) IpcMessage_wire req),
    (reread (message_wire Resp) IpcMessage_wire resp).
  pose proof (reread_range _ IpcMessage_wire req message_wire_size Hreq) as Hw.
  pose proof (reread_range _ IpcMessage_wire resp message_wire_size Hresp) as Hw'.
  split; [by apply encode_ok|]. split; [by apply encode_ok|].
  set (w := reread (message_wire Req) IpcMessage_wire req) in *.
  set (w' := reread (message_wire Resp) IpcMessage_wire resp) in *.
  destruct (Link.run_protocol [Link.Request t w; Link.Serve; Link.Respond w'; Link.Collect]
              Link.Idle s [Link.Done (Ok tt); Link.Got (Ok (Some w)); Link.Done (Ok tt); Link.Got (Ok (Some w'))]
              Link.Idle Hs) as (s' & -> & Hs').
  { constructor; [apply Hw|]. constructor; [done|]. constructor; [apply Hw'|by constructor]. }
  { reflexivity. }
  split; [done|]. split_and!; [| |done].
  - rewrite decode_ok by done. cbv zeta. unfold w. rewrite reread_reread by (done || apply message_wire_size).
    rewrite decide_True by done. by rewrite Hv.
  - rewrite decode_ok by done. cbv zeta. unfold w'. rewrite reread_reread by (done || apply message_wire_size).
    rewrite decide_True by done. by rewrite Hv'.
Qed.

Lemma ipc_codec_exact_witness :
  (∃ w, encode KeyUpdate_default = Ok w ∧ message_ok w) ∧
  match decode ShutdownInfo (0x04000042 :: 60001 :: replicate 14 0) with
  | Err e => e = InvalidOpcodeConversion ∨ ∃ i : ShutdownInfo, validate i = Err e
  | _ => False
  end.
Proof.
  split.
  - destruct (proj1 (ipc_codec_exact KeyUpdateInfo) KeyUpdate_default) as (w & H1 & H2 & _).
    + vm_compute. split_and!; try done; repeat constructor; done.
    + by exists w.
  - pose proof (proj2 (ipc_codec_exact ShutdownInfo) (0x04000042 :: 60001 :: replicate 14 0)) as Hd.
    destruct (decode ShutdownInfo _) as [m|e|] eqn:E; [by vm_compute in E| |by vm_compute in E].
    apply Hd; [done|]. repeat constructor; done.
Defined.

Lemma typed_exchange_witness :
  let s := @Link.mkState plain_hw (fresh_channel 2) (fresh_channel 2) (0, replicate 32 0) in
  ∃ w w', encode SetRes_default = Ok w ∧ encode Shutdown_default = Ok w' ∧
    let '(rs, s') :=
      @Link.run_all plain_hw [Link.Request 5 w; Link.Serve; Link.Respond w'; Link.Collect] s in
    rs = [Link.Done (Ok tt); Link.Got (Ok (Some w)); Link.Done (Ok tt); Link.Got (Ok (Some w'))] ∧
    decode SetResInfo w = Ok SetRes_default ∧ decode ShutdownInfo w' = Ok Shutdown_default ∧
    @Link.represents plain_hw Link.Idle s'.
Proof.
  intros s. apply (@typed_exchange plain_hw SetResInfo ShutdownInfo _ _ s 5).
  - unfold s, Link.represents, Link.represents_chan; simpl. split_and!; try done; try (apply fresh_holds; lia); apply le_n.
  - vm_compute. split_and!; try done; repeat constructor; done.
  - vm_compute. split_and!; try done; repeat constructor; done.
  - vm_compute. reflexivity.
  - vm_compute. reflexivity.
  - vm_compute. reflexivity.
  - vm_compute. reflexivity.
Defined.

(** A request for the bulk key of function [p]. *)
Definition get_bulk_key_words (p : Z) : list Z := opcode GetBulkKey :: p * 2 ^ 16 :: replicate 14 0.

Lemma get_bulk_key_any p : uint_range 8 p →
  ∃ m, decode GetBulkKeyInfo (get_bulk_key_words p) = Ok m ∧ bk_pfn (info m) = p.
Proof.
  intros Hp.
  assert (forallb (λ q, match decode GetBulkKeyInfo (get_bulk_key_words q) with
                        | Ok m => bk_pfn (info m) =? q | _ => false end) (seqZ 0 256) = true) as H
    by (vm_compute; reflexivity).
  rewrite forallb_forall in H. specialize (H p). rewrite <-list_elem_of_In, elem_of_seqZ in H.
  unfold uint_range in Hp. specialize (H ltac:(lia)).
  destruct (decode _ _) as [m|e|]; [|done..]. exists m. split; [done|]. by apply Z.eqb_eq.
Qed.

Lemma decode_valid I `{IpcMessageType I} w m : decode I w = Ok m → validate (info m) = Ok tt.
Proof.
  unfold decode. destruct (decode_header w); [|done..]. cbn [mbind outcome_bind].
  repeat case_decide; [done| |done].
  destruct (validate _) as [[]|?|] eqn:E; cbn [mbind outcome_bind mret outcome_ret]; [|done..].
  intros [= <-]. exact E.
Qed.

(** C39: what a decoded message may name.  Whatever the sixteen words, a
    message that decodes to one of these types is within bounds: setting
    resources, generating an RSA key, enabling or disabling a function and
    creating or deleting a queue name an existing PCIe function (0 to 64) and
    device queues up to 129, with a known action; a UCD query names a
    controller and a channel that exist; a shutdown drains for at most a
    minute; the mask of physical functions of a stop or of a TDISP interrupt
    has one bit, and the source of the interrupt is known; a state change and
    a CDMA error carry a known value.  Two types are laxer: a key update may
    name function 65, which does not exist, and no function above; and a
    request for a bulk key is accepted for every function number, 65 to 255
    included. *)
Theorem decoded_messages_bounded :
  (∀ w m, decode SetResInfo w = Ok m → sr_pfn (info m) ≤ Pf) ∧
  (∀ w m, decode RsaKeyGenInfo w = Ok m → rk_pfn (info m) ≤ Pf) ∧
  (∀ w m, decode PfnEnableDisableInfo w = Ok m → pf_pfn (info m) ≤ Pf ∧ pf_action (info m) ∈
     [PfnEnableDisableAction_Enable; PfnEnableDisableAction_Disable; PfnEnableDisableAction_Migrate]) ∧
  (∀ w m, decode SqCreateDeleteInfo w = Ok m →
     sq_pfn (info m) ≤ Pf ∧ sq_device_sq_id (info m) ≤ 129 ∧ sq_device_cq_id (info m) ≤ 129 ∧
     sq_action (info m) ∈ [SqAction_Delete; SqAction_Create]) ∧
  (∀ w m, decode UcdQueryInfo w = Ok m → uq_ctrl_id (info m) ∈ [0; 1] ∧
     uq_channel_id (info m) ∈ [0; 1; 2; 3; 4]) ∧
  (∀ w m, decode ShutdownInfo w = Ok m → sd_drain_time_ms (info m) ≤ 60000) ∧
  (∀ w m, decode StopInterfaceInfo w = Ok m → si_pf_mask (info m) ≤ 1) ∧
  (∀ w m, decode TdispInterruptInfo w = Ok m → td_pf_mask (info m) ≤ 1 ∧ td_source (info m) ∈
     [InterruptSource_Tdisp; InterruptSource_Ide; InterruptSource_Flr;
      InterruptSource_PerstUp; InterruptSource_PerstDown]) ∧
  (∀ w m, decode IpcMessageIoStateChange w = Ok m → sc_state (info m) ∈
     [IoProcessorState_NormalBoot; IoProcessorState_Start;
      IoProcessorState_PrepareRelease; IoProcessorState_Release]) ∧
  (∀ w m, decode IpcMessageCdmaErr w = Ok m → ce_op_code (info m) = CdmaErrSubOpCode_EccCorrectionCmd) ∧
  (∀ w m, decode KeyUpdateInfo w = Ok m → ku_pfn (info m) ≤ Pf + 1) ∧
  (∃ w m, decode KeyUpdateInfo w = Ok m ∧ ku_pfn (info m) = Pf + 1) ∧
  (∀ p, uint_range 8 p → ∃ w m, decode GetBulkKeyInfo w = Ok m ∧ bk_pfn (info m) = p).
Proof.
  assert (∀ b e, check b e = Ok tt → b = true) as Hcheck by (by intros [] ?).
  split_and!.
  12: { exists (0x28000007 :: 0x03410000 :: replicate 14 0).
        eexists. split; [vm_compute; reflexivity|]. reflexivity. }
  12: { intros p Hp. exists (get_bulk_key_words p). by apply get_bulk_key_any. }
  all: intros w m Hd; apply decode_valid in Hd; simpl in Hd.
  1, 2, 6, 7: apply Hcheck in Hd; unfold Pf; lia.
  all: repeat match type of Hd with
    | (check ?b ?e ≫= _) = _ =>
        let E := fresh in destruct b eqn:E; [|done]; cbn [check mbind outcome_bind] in Hd
    end; try apply Hcheck in Hd;
    unfold one_of, Pf in *; rewrite ?bool_decide_eq_true in *; split_and?; try (done || lia).
  by apply list_elem_of_singleton in Hd.
Qed.

Lemma decoded_messages_bounded_witness :
  sd_drain_time_ms (info Shutdown_default) ≤ 60000 ∧
  ∃ w m, decode GetBulkKeyInfo w = Ok m ∧ bk_pfn (info m) = 200.
Proof.
  destruct decoded_messages_bounded as (_ & _ & _ & _ & _ & Hs & _ & _ & _ & _ & _ & _ & Hb). split.
  - apply (Hs (0x04000042 :: replicate 15 0) Shutdown_default). vm_compute. reflexivity.
  - apply Hb. split; [discriminate|reflexivity].
Defined.
