(* ===== verification/MemLog.v ===== *)
(** * Memory log (mem-log/src/lib.rs)

    [MemLog] appends byte strings to a window of memory.  Memory is a list of
    bytes, [base] an index into it; the raw copy of [write_bytes] writes
    there whatever the bounds, so that staying inside the window is a theorem
    and not part of the model.  [usize] is 32 bits wide. *)

From stdpp Require Import base list numbers.
From S2P Require Import Prelude.

Local Open Scope Z_scope.

Inductive MemLogErr := NotEnoughMemory.

Record MemLog := mkMemLog { base : nat; length_ : Z; offset : Z; circular : bool }.

Definition new (base : nat) (length : Z) (circular : bool) : MemLog :=
  mkMemLog base length 0 circular.

Definition set_offset (o : Z) (l : MemLog) : MemLog :=
  mkMemLog (base l) (length_ l) o (circular l).

(** [core::ptr::copy] of [d] to the address [at_]. *)
Definition ptr_copy (mem : list Z) (at_ : nat) (d : list Z) : list Z :=
  take at_ mem ++ d ++ drop (at_ + length d) mem.

(** The logger and the memory. *)
Definition write_bytes (data : list Z) : M (MemLog * list Z) MemLogErr () :=
  let len := Z.of_nat (length data) in
  if len =? 0 then mret tt
  else
    '(l, _) ← get;
    unless (negb (length_ l <? len)) NotEnoughMemory;;
    (if length_ l <? wrap 32 (offset l + len) then
       if circular l then modify (λ '(l, m), (set_offset 0 l, m)) else throw NotEnoughMemory
     else mret tt);;
    modify (λ '(l, m), (l, ptr_copy m (base l + Z.to_nat (offset l)) data));;
    modify (λ '(l, m), (set_offset (wrap 32 (offset l + len)) l, m)).

(** [Write::write_str] only changes the error. *)
Definition write_str (s : list Z) : M (MemLog * list Z) () () := λ st,
  let '(r, st) := write_bytes s st in
  (match r with Ok a => Ok a | Err _ => Err tt | Panic => Panic end, st).

Fixpoint write_all (ds : list (list Z)) (st : MemLog * list Z) :
    list (outcome MemLogErr ()) * (MemLog * list Z) :=
  match ds with
  | [] => ([], st)
  | d :: ds => let '(r, st) := write_bytes d st in
               let '(rs, st) := write_all ds st in (r :: rs, st)
  end.

(** ** The window *)

(** The window lies in memory and is smaller than half the address space. *)
Definition placed (l : MemLog) (m : list Z) : Prop :=
  0 ≤ length_ l < 2 ^ 31 ∧ 0 ≤ offset l ≤ length_ l ∧
  (base l + Z.to_nat (length_ l) ≤ length m)%nat.

Definition window (l : MemLog) (m : list Z) : list Z :=
  take (Z.to_nat (length_ l)) (drop (base l) m).

(** Everything but the window. *)
Definition outside (l : MemLog) (m : list Z) : list Z * list Z :=
  (take (base l) m, drop (base l + Z.to_nat (length_ l)) m).

Lemma ptr_copy_window l m o d :
  placed l m → (o + length d ≤ Z.to_nat (length_ l))%nat →
  window l (ptr_copy m (base l + o) d) = take o (window l m) ++ d ++ drop (o + length d) (window l m) ∧
  outside l (ptr_copy m (base l + o) d) = outside l m ∧
  length (ptr_copy m (base l + o) d) = length m.
Proof.
  intros (H1 & H2 & H3) Ho. set (n := Z.to_nat (length_ l)) in *. unfold window, outside, ptr_copy.
  fold n. set (b := base l) in *.
  assert (m = take b m ++ take n (drop b m) ++ drop (b + n) m) as E.
  { by rewrite <-drop_drop, !take_drop. }
  set (A := take b m) in *. set (W := take n (drop b m)) in *. set (C := drop (b + n) m) in *.
  assert (length A = b) as HA by (unfold A; rewrite length_take; lia).
  assert (length W = n) as HW by (unfold W; rewrite length_take, length_drop; lia).
  assert (take (b + o) m = A ++ take o W) as E1.
  { rewrite E. rewrite take_app_add' by done. f_equal. rewrite take_app_le by lia. done. }
  assert (drop (b + o + length d) m = drop (o + length d) W ++ C) as E2.
  { rewrite E, <-Nat.add_assoc, drop_app_add' by done. rewrite drop_app_le by lia. done. }
  rewrite E1, E2, <-!app_assoc. clearbody A W C.
  assert (length (take o W ++ d ++ drop (o + length d) W) = n) as HN.
  { rewrite !length_app, length_take, length_drop. lia. }
  split_and!.
  - rewrite drop_app_length' by done.
    rewrite !(app_assoc (take o W)), !app_assoc. rewrite <-(app_assoc (take o W)).
    by rewrite take_app_length' by done.
  - f_equal.
    + by rewrite take_app_length'.
    + rewrite drop_app_add' by done. rewrite !(app_assoc (take o W)), !app_assoc.
      rewrite <-(app_assoc (take o W)). rewrite drop_app_length' by done. done.
  - rewrite E, !length_app, length_take, length_drop. lia.
Qed.

(** ** One write *)

Lemma write_bytes_ok l m d :
  placed l m →
  let len := Z.of_nat (length d) in
  let fits := bool_decide (offset l + len ≤ length_ l) in
  let '(r, (l', m')) := write_bytes d (l, m) in
  placed l' m' ∧ outside l m' = outside l m ∧ length m' = length m ∧
  base l' = base l ∧ length_ l' = length_ l ∧ circular l' = circular l ∧
  if (bool_decide (d = []) || (bool_decide (len ≤ length_ l) && (fits || circular l))) then
    let o := if fits || bool_decide (d = []) then offset l else 0 in
    r = Ok tt ∧ offset l' = o + len ∧
    window l' m' = take (Z.to_nat o) (window l m) ++ d ++ drop (Z.to_nat o + length d) (window l m)
  else r = Err NotEnoughMemory ∧ l' = l ∧ m' = m.
Proof.
  intros Hp len fits. pose proof Hp as (H1 & H2 & H3). unfold write_bytes. fold len.
  destruct (Z.eqb_spec len 0) as [E0|E0].
  { assert (d = []) as -> by (apply nil_length_inv; lia). run.
    rewrite orb_true_r. split_and!; try done; [lia|].
    rewrite Nat.add_0_r. by rewrite take_drop. }
  rewrite (bool_decide_eq_false_2 (d = [])) by (by intros ->). rewrite orb_false_r. run.
  destruct (Z.ltb_spec (length_ l) len) as [Hbig|Hbig].
  { rewrite (bool_decide_eq_false_2 (len ≤ length_ l)) by lia. run. by split_and!. }
  rewrite (bool_decide_eq_true_2 (len ≤ length_ l)) by done. run.
  assert (∀ o, 0 ≤ o → o + len ≤ length_ l → wrap 32 (o + len) = o + len) as Hwrap.
  { intros o Ho Hol. apply wrap_small. unfold uint_range. lia. }
  assert (wrap 32 (offset l + len) = offset l + len) as ->
    by (apply wrap_small; unfold uint_range; lia).
  unfold fits. destruct (Z.ltb_spec (length_ l) (offset l + len)) as [Hover|Hover].
  - rewrite (bool_decide_eq_false_2 (offset l + len ≤ length_ l)) by lia.
    destruct (circular l) eqn:Hc; run; [|by split_and!].
    destruct (ptr_copy_window l m 0 d Hp) as (Ew & Eo & El); [unfold len in *; lia|].
    rewrite Hwrap by lia. rewrite Nat.add_0_r in *. simpl.
    split_and!; try done; unfold placed; simpl; rewrite ?El; lia.
  - rewrite (bool_decide_eq_true_2 (offset l + len ≤ length_ l)) by lia. run.
    destruct (ptr_copy_window l m (Z.to_nat (offset l)) d Hp) as (Ew & Eo & El);
      [unfold len in *; lia|].
    rewrite Hwrap by lia. simpl. split_and!; try done; unfold placed; simpl; rewrite ?El; lia.
Qed.

(** ** Any sequence of writes *)

(** The specification of a log of [n] bytes that does not wrap: a write is
    appended if it fits and refused otherwise. *)
Fixpoint append_all (n : nat) (acc : list Z) (ds : list (list Z)) :
    list (outcome MemLogErr ()) * list Z :=
  match ds with
  | [] => ([], acc)
  | d :: ds =>
      let '(r, acc) :=
        if decide (length acc + length d ≤ n)%nat then (Ok tt, acc ++ d)
        else (Err NotEnoughMemory, acc) in
      let '(rs, acc) := append_all n acc ds in (r :: rs, acc)
  end.

(** What has been logged since the start of the window. *)
Definition logged (l : MemLog) (m : list Z) : list Z := take (Z.to_nat (offset l)) (window l m).

Lemma logged_length l m : placed l m → length (logged l m) = Z.to_nat (offset l).
Proof.
  intros (H1 & H2 & H3). unfold logged, window. rewrite !length_take, length_drop. lia.
Qed.

Lemma write_all_ok ds : ∀ l m,
  placed l m →
  let '(rs, (l', m')) := write_all ds (l, m) in
  placed l' m' ∧ outside l m' = outside l m ∧ base l' = base l ∧ length_ l' = length_ l ∧
  circular l' = circular l ∧
  (circular l = false → (rs, logged l' m') = append_all (Z.to_nat (length_ l)) (logged l m) ds).
Proof.
  induction ds as [|d ds IH]; intros l m Hp; cbn [write_all append_all]; [by split_and!|].
  pose proof (write_bytes_ok l m d Hp) as Hw. cbv zeta in Hw.
  destruct (write_bytes d (l, m)) as [r [l1 m1]].
  destruct Hw as (Hp1 & Ho1 & Hl1 & Eb & El & Ec & Hw). specialize (IH l1 m1 Hp1).
  destruct (write_all ds (l1, m1)) as [rs [l2 m2]].
  destruct IH as (Hp2 & Ho2 & Eb2 & El2 & Ec2 & IH).
  assert (∀ x, outside l1 x = outside l x) as Hout by (intros x; unfold outside; by rewrite Eb, El).
  split_and!; [done| |congruence..|].
  { by rewrite <-Hout, Ho2, Hout. }
  intros Hc. rewrite Hc, El in *. rewrite logged_length by done.
  destruct Hp as (H1 & H2 & H3).
  case_bool_decide as Hd; cbn [orb] in Hw.
  - subst d. rewrite orb_true_r in Hw. destruct Hw as (-> & Eo & Ew).
    rewrite decide_True by (cbn [length]; lia). rewrite app_nil_r.
    replace (logged l m) with (logged l1 m1).
    { rewrite <-(IH Ec). done. }
    unfold logged. rewrite Eo, Ew. cbn [length app]. rewrite Nat.add_0_r, Z.add_0_r.
    by rewrite take_drop.
  - rewrite orb_false_r in Hw.
    destruct (decide (offset l + Z.of_nat (length d) ≤ length_ l)) as [Hf|Hf].
    + rewrite !bool_decide_eq_true_2 in Hw by lia. cbn [andb orb] in Hw.
      destruct Hw as (-> & Eo & Ew). rewrite decide_True by lia.
      replace (logged l m ++ d) with (logged l1 m1).
      { rewrite <-(IH Ec). done. }
      unfold logged. rewrite Eo, Ew, app_assoc.
      rewrite take_app_length'; [done|]. rewrite length_app. fold (logged l m).
      rewrite logged_length by done. lia.
    + rewrite (bool_decide_eq_false_2 (offset l + _ ≤ length_ l)) in Hw by done.
      rewrite andb_false_r in Hw. destruct Hw as (-> & -> & ->). rewrite decide_False by lia.
      by rewrite <-(IH Hc).
Qed.

(** The memory log is a bounded append-only log and stays in its window.
    After any sequence of writes nothing outside the window has changed.  A
    log that does not wrap holds exactly the accepted writes one after the
    other, where a write is accepted if and only if it fits, and refused
    writes leave no trace.  In a circular log every write that is not larger
    than the window succeeds and stands unbroken just below the offset. *)
Theorem memlog_exact (l : MemLog) (m : list Z) (ds : list (list Z)) :
  placed l m → offset l = 0 →
  let '(rs, (l', m')) := write_all ds (l, m) in
  outside l m' = outside l m ∧
  (circular l = false → (rs, logged l' m') = append_all (Z.to_nat (length_ l)) [] ds) ∧
  (circular l = true → ∀ d, Z.of_nat (length d) ≤ length_ l →
     let '(r, (l2, m2)) := write_bytes d (l', m') in
     r = Ok tt ∧ outside l m2 = outside l m ∧
     ∃ before, logged l2 m2 = before ++ d).
Proof.
  intros Hp H0. pose proof (write_all_ok ds l m Hp) as Hw.
  destruct (write_all ds (l, m)) as [rs [l' m']].
  destruct Hw as (Hp' & Ho & Eb & El & Ec & Hlog). split_and!; [done| |].
  - intros Hc. rewrite (Hlog Hc). f_equal. unfold logged. by rewrite H0.
  - intros Hc d Hd. pose proof (write_bytes_ok l' m' d Hp') as Hw. cbv zeta in Hw.
    destruct (write_bytes d (l', m')) as [r [l2 m2]].
    destruct Hw as (Hp2 & Ho2 & _ & _ & _ & _ & Hw).
    rewrite El, Ec, Hc, (bool_decide_eq_true_2 (Z.of_nat (length d) ≤ length_ l)) in Hw by done.
    rewrite orb_true_r in Hw. cbn [andb] in Hw. rewrite orb_true_r in Hw.
    destruct Hw as (-> & Eo & Ew). split_and!; [done| |].
    + assert (∀ x, outside l' x = outside l x) as Hout by (intros x; unfold outside; by rewrite Eb, El).
      by rewrite <-Hout, Ho2, Hout.
    + eexists. unfold logged. rewrite Ew, Eo, app_assoc. rewrite take_app_length'; [done|].
      rewrite length_app, length_take. destruct Hp' as (H1 & H2 & H3).
      unfold window. rewrite length_take, length_drop. case_match; lia.
Qed.

Lemma memlog_exact_witness :
  let l := new 2 4 true in
  let m := [9; 9; 0; 0; 0; 0; 9] in
  let '(rs, (l', m')) := write_all [[1; 2; 3]; [4; 5]] (l, m) in
  outside l m' = outside l m ∧ m' = [9; 9; 4; 5; 3; 0; 9].
Proof.
  intros l m. pose proof (memlog_exact l m [[1; 2; 3]; [4; 5]]) as Hx.
  destruct (write_all _ (l, m)) as [rs [l' m']] eqn:E. split.
  - apply Hx; [|done]. unfold placed, l, m, new; simpl. lia.
  - vm_compute in E. by injection E as _ _ <-.
Defined.
