(* ===== verification/MaskedKey.v ===== *)
(** * Masked keys (serde/ddi/types/src/masked_key.rs, hsm/src/masked_key)

    A masked key is a key that leaves the device encrypted and authenticated:
    a header, a second header with the lengths of the parts, then IV,
    metadata, encrypted key (each padded to four bytes) and tag.  The
    cryptography is the trait [CryptEnv], implemented by the hardware
    engines: its [&mut] arguments are in and out, and its state (random
    numbers, failures) is [env].  What the theorems need of it are the laws
    of [CryptEnvLaws].

    Lengths are natural numbers: [decode] only adds 16-bit lengths, and in
    [pre_encode] the sum has to be the length of an existing buffer. *)

From stdpp Require Import base list numbers option.
From S2P Require Import Prelude HsmError Wire.

Local Open Scope Z_scope.

(** ** Sizes and errors *)

Definition HMAC384_TAG_SIZE : nat := 48.
Definition HMAC384_KEY_SIZE : nat := 48.
Definition AES_BLOCK_SIZE : nat := 16.
Definition AES_CBC_IV_SIZE : nat := 16.
Definition AES_CBC_TAG_SIZE : nat := HMAC384_TAG_SIZE.
Definition AES_CBC_256_KEY_SIZE : nat := 32.
Definition AES_GCM_IV_SIZE : nat := 12.
Definition AES_GCM_TAG_SIZE : nat := 16.

Inductive MaskedKeyError :=
  | InvalidAlgorithm | MkInvalidLength | InsufficientBuffer | DecodeError | HeaderDecodeError
  | HeaderEncodeError | InvalidMaskingKeyAlgorithm | HmacTagGenerationFailed
  | HmacTagVerificationFailed | AesKeyInvalid | AesEncryptionFailed | AesDecryptionFailed
  | AesKeyNotSet | HmacKeyNotSet | HmacKeyInvalid | MetadataEncodeFailed | MetadataDecodeError
  | AesHmacComboKeyInvalid | KbkdfFailed | IvGenerationFailed.
#[global] Instance MaskedKeyError_eq_dec : EqDecision MaskedKeyError.
Proof. solve_decision. Defined.

(** [MaskingKeyAlgorithm], an open enumeration of 16 bits. *)
Definition AesCbc256Hmac384 : Z := 1.
Definition AesGcm256 : Z := 2.

Definition MaskingKeyAlgorithm_try_from (value : Z) : outcome MaskedKeyError Z :=
  if bool_decide (value ∈ [AesCbc256Hmac384; AesGcm256]) then Ok value else Err InvalidAlgorithm.

(** ** Headers *)

Record MaskedKeyHeader := mkHeader { version : Z; algorithm : Z }.

Definition MaskedKeyHeader_wire : wire MaskedKeyHeader :=
  record (wpair u16 u16) (λ '(a, b), mkHeader a b) (λ h, (version h, algorithm h)).

Record MaskedKeyAesHeader := mkAesHeader {
  iv_len : Z; post_iv_pad_len : Z; metadata_len : Z; post_metadata_pad_len : Z;
  encrypted_key_len : Z; post_encrypted_key_pad_len : Z; tag_len : Z; reserved : list Z
}.

Definition MaskedKeyAesHeader_wire : wire MaskedKeyAesHeader :=
  record (wpair u16 (wpair u16 (wpair u16 (wpair u16 (wpair u16 (wpair u16 (wpair u16
            (array 34 u8))))))))
    (λ '(a, (b, (c, (d, (e, (f, (g, r))))))), mkAesHeader a b c d e f g r)
    (λ h, (iv_len h, (post_iv_pad_len h, (metadata_len h, (post_metadata_pad_len h,
            (encrypted_key_len h, (post_encrypted_key_pad_len h, (tag_len h, reserved h)))))))).

(** [size_of] of both headers. *)
Definition HEADER : nat := wsize MaskedKeyHeader_wire.
Definition AES_HEADER : nat := wsize MaskedKeyAesHeader_wire.

(** ** Layouts *)

Module Layout.
(** [MaskedKeyAesLayout], and [MaskedKeyLayout] with [KeyLayoutType::Aes]. *)
Record t := mk {
  iv : nat; iv_pad : nat; md : nat; md_pad : nat; ek : nat; ek_pad : nat; tag : nat
}.

(** Offsets in the buffer. *)
Definition iv_at (l : t) : nat := HEADER + AES_HEADER.
Definition md_at (l : t) : nat := iv_at l + iv l + iv_pad l.
Definition ek_at (l : t) : nat := md_at l + md l + md_pad l.
Definition tag_at (l : t) : nat := ek_at l + ek l + ek_pad l.

(** [MaskedKeyLayout::total_len]. *)
Definition total_len (l : t) : nat :=
  HEADER + md l + md_pad l + ek l + ek_pad l + (AES_HEADER + iv l + iv_pad l + tag l).

(** [n.next_multiple_of(4) - n]. *)
Definition pad4_len (n : nat) : nat := ((4 - n mod 4) mod 4)%nat.

(** [MaskedKey::calculate_layout]; another algorithm is [unreachable!]. *)
Definition calculate_layout (algo : Z) (metadata_len encrypted_key_len : nat) :
    outcome MaskedKeyError t :=
  '(iv_len, tag_len) ←
     (if decide (algo = AesCbc256Hmac384) then Ok (AES_CBC_IV_SIZE, AES_CBC_TAG_SIZE)
      else if decide (algo = AesGcm256) then Ok (AES_GCM_IV_SIZE, AES_GCM_TAG_SIZE)
      else Panic);
  Ok (mk iv_len (pad4_len iv_len) metadata_len (pad4_len metadata_len)
        encrypted_key_len (pad4_len encrypted_key_len) tag_len).

(** [MaskedKey::encoded_length]. *)
Definition encoded_length (algo : Z) (metadata_len encrypted_key_len : nat) :
    outcome MaskedKeyError nat :=
  total_len <$> calculate_layout algo metadata_len encrypted_key_len.
End Layout.

(** ** [MaskedKey::pre_encode]

    [PreEncodeMaskedKeyType]: the algorithm and the layout; the buffer is the
    state of the caller. *)

Record PreEncoded := mkPre { pre_algo : Z; pre_layout : Layout.t }.

Definition pre_encode (version algo : Z) (metadata_len encrypted_key_len : nat) :
    M (list Z) MaskedKeyError PreEncoded :=
  unless (negb (bool_decide (encrypted_key_len = 0%nat))) MkInvalidLength;;
  layout ← lift (Layout.calculate_layout algo metadata_len encrypted_key_len);
  out_data ← get;
  unless (bool_decide (length out_data = Layout.total_len layout)) MkInvalidLength;;
  let header := mkHeader version algo in
  out_data ← lift (copy_from_slice out_data 0 HEADER (as_bytes MaskedKeyHeader_wire header));
  put out_data;;
  unless (bool_decide (algo ∈ [AesCbc256Hmac384; AesGcm256])) InvalidAlgorithm;;
  aes_payload ← lift (slice out_data HEADER AES_HEADER);
  let payload := read_bytes MaskedKeyAesHeader_wire aes_payload in
  let payload := mkAesHeader
    (wrap 16 (Z.of_nat (Layout.iv layout))) (wrap 16 (Z.of_nat (Layout.iv_pad layout)))
    (wrap 16 (Z.of_nat (Layout.md layout))) (wrap 16 (Z.of_nat (Layout.md_pad layout)))
    (wrap 16 (Z.of_nat (Layout.ek layout))) (wrap 16 (Z.of_nat (Layout.ek_pad layout)))
    (wrap 16 (Z.of_nat (Layout.tag layout))) (reserved payload) in
  out_data ← lift (copy_from_slice out_data HEADER AES_HEADER
                     (as_bytes MaskedKeyAesHeader_wire payload));
  put out_data;;
  mret (mkPre algo layout).

(** ** The cryptographic environment *)

Class CryptEnv := {
  env : Type;
  hmac384_tag : list Z → list Z → M env HsmErr (list Z);
  (** key, plaintext, iv, ciphertext buffer: the result and both buffers *)
  aescbc256_encrypt : list Z → list Z → list Z → list Z → env →
    outcome HsmErr nat * (list Z * list Z) * env;
  (** key, iv, ciphertext, plaintext buffer *)
  aescbc256_decrypt : list Z → list Z → list Z → list Z → env →
    outcome HsmErr nat * list Z * env;
  generate_random : list Z → env → outcome HsmErr () * list Z * env
}.

(** [aescbc256_enc_data_len] of the partition and the session. *)
Definition aescbc256_enc_data_len (plaintext_len : nat) : nat :=
  plaintext_len + (AES_BLOCK_SIZE - plaintext_len mod AES_BLOCK_SIZE).

(** [map_err(|_| e)?]. *)
Definition map_err {A} (r : outcome HsmErr A) (e : MaskedKeyError) : outcome MaskedKeyError A :=
  match r with Ok a => Ok a | Err _ => Err e | Panic => Panic end.

(** [split_aes_hmac_key]. *)
Definition split_aes_hmac_key (key : list Z) : outcome MaskedKeyError (list Z * list Z) :=
  if decide (length key ≠ AES_CBC_256_KEY_SIZE + HMAC384_KEY_SIZE)%nat
  then Err AesHmacComboKeyInvalid
  else Ok (take AES_CBC_256_KEY_SIZE key, drop AES_CBC_256_KEY_SIZE key).

(** [validate_aes_header], with 16-bit sums. *)
Definition validate_aes_header (h : MaskedKeyAesHeader) : outcome MaskedKeyError () :=
  if decide (encrypted_key_len h = 0 ∨ metadata_len h = 0 ∨ tag_len h = 0) then Err MkInvalidLength
  else if decide (iv_len h ≠ Z.of_nat AES_CBC_IV_SIZE ∧ iv_len h ≠ Z.of_nat AES_GCM_IV_SIZE)
  then Err MkInvalidLength
  else if decide (wrap 16 (iv_len h + post_iv_pad_len h) mod 4 ≠ 0 ∨
                  wrap 16 (metadata_len h + post_metadata_pad_len h) mod 4 ≠ 0 ∨
                  wrap 16 (encrypted_key_len h + post_encrypted_key_pad_len h) mod 4 ≠ 0)
  then Err MkInvalidLength
  else Ok tt.

Section code.
Context `{CryptEnv}.

(** The environment and the buffer being encoded. *)
Abbreviation KM := (M (env * list Z) MaskedKeyError).

Definition with_env {A} (m : M env MaskedKeyError A) : KM A := λ '(e, b),
  let '(r, e) := m e in (r, (e, b)).
Definition buf : KM (list Z) := λ '(e, b), (Ok b, (e, b)).
Definition set_buf (b : list Z) : KM () := λ '(e, _), (Ok tt, (e, b)).
Definition write (off len : nat) (d : list Z) : KM () :=
  b ← buf;
  b ← lift (copy_from_slice b off len d);
  set_buf b.

(** [generate_random(iv)] and [aescbc256_encrypt]: the result of the engine,
    and the buffers, which come back whether it failed or not. *)
Definition random_iv (iv : list Z) : M env MaskedKeyError (outcome HsmErr () * list Z) := λ e,
  let '(r, iv', e) := generate_random iv e in (Ok (r, iv'), e).
Definition encrypt_into (key plaintext iv ct : list Z) :
    M env MaskedKeyError (outcome HsmErr nat * (list Z * list Z)) := λ e,
  let '(r, bufs, e) := aescbc256_encrypt key plaintext iv ct e in (Ok (r, bufs), e).
Definition hmac_tag (key data : list Z) : M env MaskedKeyError (list Z) := λ e,
  let '(r, e) := hmac384_tag key data e in (map_err r HmacTagGenerationFailed, e).

(** [encode_aescbc256].  The IV is generated in the buffer, and the encryption
    works on the IV and the encrypted key in the buffer. *)
Definition encode_aescbc256 (p : PreEncoded) (plaintext_key masking_key metadata : list Z) :
    KM () :=
  let l := pre_layout p in
  '(aes_key_bytes, hmac_key) ← lift (split_aes_hmac_key masking_key);
  b ← buf;
  iv ← lift (slice b (Layout.iv_at l) (Layout.iv l));
  '(r, iv) ← with_env (random_iv iv);
  write (Layout.iv_at l) (Layout.iv l) iv;;
  lift (map_err r IvGenerationFailed);;
  b ← buf;
  ct ← lift (slice b (Layout.ek_at l) (Layout.ek l));
  '(r, (iv, ct)) ← with_env (encrypt_into aes_key_bytes plaintext_key iv ct);
  write (Layout.iv_at l) (Layout.iv l) iv;;
  write (Layout.ek_at l) (Layout.ek l) ct;;
  lift (map_err r AesEncryptionFailed);;
  unless (bool_decide (length metadata = Layout.md l)) MetadataEncodeFailed;;
  write (Layout.md_at l) (Layout.md l) metadata;;
  b ← buf;
  data_to_tag ← lift (slice b 0 (length b - Layout.tag l));
  tag ← with_env (hmac_tag hmac_key data_to_tag);
  write (length b - Layout.tag l) (Layout.tag l) tag.

(** [MaskedKey::encode]. *)
Definition encode (p : PreEncoded) (plaintext_key masking_key metadata : list Z) : KM () :=
  if decide (pre_algo p = AesCbc256Hmac384)
  then encode_aescbc256 p plaintext_key masking_key metadata
  else throw InvalidMaskingKeyAlgorithm.

(** ** Decoding *)

(** [MaskedKeyAes]: the payload starts after the first header. *)
Record MaskedKeyAes := mkMaskedKeyAes {
  header : MaskedKeyHeader; layout : Layout.t; payload : list Z
}.

Definition payload_part (k : MaskedKeyAes) (off len : nat) : outcome MaskedKeyError (list Z) :=
  payload_data ← slice (payload k) AES_HEADER (length (payload k) - AES_HEADER);
  slice payload_data off len.

Definition mk_iv (k : MaskedKeyAes) := payload_part k 0 (Layout.iv (layout k)).
Definition mk_metadata (k : MaskedKeyAes) :=
  payload_part k (Layout.iv (layout k) + Layout.iv_pad (layout k)) (Layout.md (layout k)).
Definition mk_encrypted_key (k : MaskedKeyAes) :=
  payload_part k (Layout.iv (layout k) + Layout.iv_pad (layout k) + Layout.md (layout k)
                  + Layout.md_pad (layout k)) (Layout.ek (layout k)).
Definition mk_tag (k : MaskedKeyAes) :=
  payload_part k (Layout.iv (layout k) + Layout.iv_pad (layout k) + Layout.md (layout k)
                  + Layout.md_pad (layout k) + Layout.ek (layout k) + Layout.ek_pad (layout k))
    (Layout.tag (layout k)).

Definition layout_of (h : MaskedKeyAesHeader) : Layout.t :=
  Layout.mk (Z.to_nat (iv_len h)) (Z.to_nat (post_iv_pad_len h)) (Z.to_nat (metadata_len h))
    (Z.to_nat (post_metadata_pad_len h)) (Z.to_nat (encrypted_key_len h))
    (Z.to_nat (post_encrypted_key_pad_len h)) (Z.to_nat (tag_len h)).

(** The integrity check of [decode_aes]. *)
Definition verify_tag (masking_key : list Z) (hdr : MaskedKeyHeader) (l : Layout.t)
    (full_data : list Z) : M env MaskedKeyError () :=
  let current_offset :=
    (HEADER + AES_HEADER + (Layout.iv l + Layout.iv_pad l + Layout.md l + Layout.md_pad l
                            + Layout.ek l + Layout.ek_pad l))%nat in
  unless (bool_decide (current_offset + Layout.tag l ≤ length full_data)%nat) MkInvalidLength;;
  tag ← lift (slice full_data current_offset (Layout.tag l));
  if decide (algorithm hdr = AesCbc256Hmac384) then
    '(_, hmac_key) ← lift (split_aes_hmac_key masking_key);
    tagged ← lift (slice full_data 0 current_offset);
    expected_tag ← hmac_tag hmac_key tagged;
    unless (bool_decide (expected_tag = tag)) HmacTagVerificationFailed
  else throw InvalidMaskingKeyAlgorithm.

(** [decode_aes]. *)
Definition decode_aes (masking_key : list Z) (hdr : MaskedKeyHeader) (full_data aes_data : list Z)
    (integrity_check : bool) : M env MaskedKeyError MaskedKeyAes :=
  unless (bool_decide (AES_HEADER ≤ length aes_data)%nat) MkInvalidLength;;
  let aes_header := read_bytes MaskedKeyAesHeader_wire (take AES_HEADER aes_data) in
  let payload_data := drop AES_HEADER aes_data in
  lift (validate_aes_header aes_header);;
  let l := layout_of aes_header in
  let expected_payload_len :=
    (Layout.iv l + Layout.iv_pad l + Layout.md l + Layout.md_pad l + Layout.ek l
     + Layout.ek_pad l + Layout.tag l)%nat in
  unless (bool_decide (length payload_data = expected_payload_len)) MkInvalidLength;;
  (if integrity_check then verify_tag masking_key hdr l full_data else mret tt);;
  mret (mkMaskedKeyAes hdr l aes_data).

(** [MaskedKey::decode]; the only decoded kind is [DecodedMaskedKey::Aes]. *)
Definition decode (masking_key data : list Z) (integrity_check : bool) :
    M env MaskedKeyError MaskedKeyAes :=
  unless (bool_decide (HEADER ≤ length data)%nat) MkInvalidLength;;
  let hdr := read_bytes MaskedKeyHeader_wire (take HEADER data) in
  let remaining := drop HEADER data in
  if decide (algorithm hdr = AesCbc256Hmac384 ∨ algorithm hdr = AesGcm256)
  then decode_aes masking_key hdr data remaining integrity_check
  else throw InvalidMaskingKeyAlgorithm.

(** [DecodedMaskedKey::decrypt_key]: the result and the output buffer. *)
Definition decrypt_key (k : MaskedKeyAes) (key output : list Z) (e : env) :
    outcome MaskedKeyError nat * list Z * env :=
  if decide (algorithm (header k) = AesCbc256Hmac384) then
    match split_aes_hmac_key key with
    | Ok (aes_key_bytes, _) =>
        match mk_iv k, mk_encrypted_key k with
        | Ok iv, Ok encrypted_key =>
            let '(r, output, e) := aescbc256_decrypt aes_key_bytes iv encrypted_key output e in
            (map_err r AesDecryptionFailed, output, e)
        | _, _ => (Panic, output, e)
        end
    | Err er => (Err er, output, e)
    | Panic => (Panic, output, e)
    end
  else (Err InvalidMaskingKeyAlgorithm, output, e).

End code.
