(* ===== verification/MaskedKeyProps.v ===== *)
(** * Masked keys: round trip and authenticity

    A masked buffer is the concatenation of its parts ([parts]); [pre_encode]
    and [encode] write the parts, [decode] finds them again. *)

From stdpp Require Import base list numbers option.
From S2P Require Import Prelude HsmError Wire MaskedKey.

Local Open Scope Z_scope.

(** What the theorems need of the engines behind [CryptEnv]: in a working
    environment HMAC is a function of key and data with 48 bytes, random
    numbers fill the buffer, and decrypting what was encrypted with the IV it
    left behind gives the plaintext back. *)
Class CryptEnvLaws `{CryptEnv} := {
  env_ok : env → Prop;
  hmac : list Z → list Z → list Z;
  hmac_length k d : length (hmac k d) = HMAC384_TAG_SIZE;
  hmac_spec e k d :
    env_ok e → length k = HMAC384_KEY_SIZE →
    ∃ e', hmac384_tag k d e = (Ok (hmac k d), e') ∧ env_ok e';
  random_spec e b :
    env_ok e → ∃ b' e', generate_random b e = (Ok tt, b', e') ∧ length b' = length b ∧ env_ok e';
  encrypt_spec e k p iv ct :
    env_ok e → length k = AES_CBC_256_KEY_SIZE → length iv = AES_CBC_IV_SIZE →
    length ct = aescbc256_enc_data_len (length p) →
    ∃ n iv' ct' e', aescbc256_encrypt k p iv ct e = (Ok n, (iv', ct'), e') ∧
      length iv' = length iv ∧ length ct' = length ct ∧ env_ok e' ∧
      ∀ e2 out, env_ok e2 → length out = length p →
        ∃ e3, aescbc256_decrypt k iv' ct' out e2 = (Ok (length p), p, e3) ∧ env_ok e3
}.

(** ** The parts of a buffer *)

Record parts := mkParts {
  p_hdr : list Z; p_aes : list Z; p_iv : list Z; p_iv_pad : list Z; p_md : list Z;
  p_md_pad : list Z; p_ek : list Z; p_ek_pad : list Z; p_tag : list Z
}.

(** Everything the tag covers, and the whole buffer. *)
Definition body (p : parts) : list Z :=
  p_hdr p ++ p_aes p ++ p_iv p ++ p_iv_pad p ++ p_md p ++ p_md_pad p ++ p_ek p ++ p_ek_pad p.
Definition bytes_of (p : parts) : list Z := body p ++ p_tag p.

(** The parts have the lengths of a layout. *)
Definition fits (l : Layout.t) (p : parts) : Prop :=
  length (p_hdr p) = HEADER ∧ length (p_aes p) = AES_HEADER ∧
  length (p_iv p) = Layout.iv l ∧ length (p_iv_pad p) = Layout.iv_pad l ∧
  length (p_md p) = Layout.md l ∧ length (p_md_pad p) = Layout.md_pad l ∧
  length (p_ek p) = Layout.ek l ∧ length (p_ek_pad p) = Layout.ek_pad l ∧
  length (p_tag p) = Layout.tag l.

Lemma fits_body l p : fits l p → length (body p) = Layout.tag_at l.
Proof.
  intros (H1 & H2 & H3 & H4 & H5 & H6 & H7 & H8 & H9). unfold body. rewrite !length_app.
  unfold Layout.tag_at, Layout.ek_at, Layout.md_at, Layout.iv_at. lia.
Qed.

Lemma total_len_tag_at l : Layout.total_len l = (Layout.tag_at l + Layout.tag l)%nat.
Proof.
  unfold Layout.total_len, Layout.tag_at, Layout.ek_at, Layout.md_at, Layout.iv_at. lia.
Qed.

Lemma fits_length l p : fits l p → length (bytes_of p) = Layout.total_len l.
Proof.
  intros Hf. unfold bytes_of. rewrite length_app, (fits_body l) by done.
  rewrite total_len_tag_at. by destruct Hf as (_ & _ & _ & _ & _ & _ & _ & _ & ->).
Qed.

(** Every buffer of the right length splits into parts. *)
Definition split_parts (l : Layout.t) (b : list Z) : parts :=
  mkParts (take HEADER b) (take AES_HEADER (drop HEADER b))
    (take (Layout.iv l) (drop (Layout.iv_at l) b))
    (take (Layout.iv_pad l) (drop (Layout.iv_at l + Layout.iv l) b))
    (take (Layout.md l) (drop (Layout.md_at l) b))
    (take (Layout.md_pad l) (drop (Layout.md_at l + Layout.md l) b))
    (take (Layout.ek l) (drop (Layout.ek_at l) b))
    (take (Layout.ek_pad l) (drop (Layout.ek_at l + Layout.ek l) b))
    (drop (Layout.tag_at l) b).

Lemma split_parts_ok l b :
  length b = Layout.total_len l → fits l (split_parts l b) ∧ bytes_of (split_parts l b) = b.
Proof.
  intros Hl. unfold Layout.total_len in Hl. split.
  - unfold fits, split_parts, Layout.tag_at, Layout.ek_at, Layout.md_at, Layout.iv_at.
    cbn [p_hdr p_aes p_iv p_iv_pad p_md p_md_pad p_ek p_ek_pad p_tag].
    clear -Hl. revert Hl. generalize HEADER AES_HEADER. destruct l; cbn. intros h a Hl.
    split_and!; rewrite ?length_take, ?length_drop; lia.
  - unfold bytes_of, body, split_parts.
    cbn [p_hdr p_aes p_iv p_iv_pad p_md p_md_pad p_ek p_ek_pad p_tag]. rewrite <-!app_assoc.
    assert (∀ off n, take n (drop off b) ++ drop (off + n) b = drop off b) as Hcut
      by (intros off n; by rewrite <-drop_drop, take_drop).
    unfold Layout.tag_at, Layout.ek_at, Layout.md_at, Layout.iv_at.
    rewrite !Hcut. apply take_drop.
Qed.

Lemma header_size : wsize MaskedKeyHeader_wire = HEADER.
Proof. reflexivity. Qed.
Lemma aes_header_size : wsize MaskedKeyAesHeader_wire = AES_HEADER.
Proof. reflexivity. Qed.

#[local] Opaque HEADER AES_HEADER MaskedKeyHeader_wire MaskedKeyAesHeader_wire.

(** ** [pre_encode] *)

Lemma pad4_len_lt n : (Layout.pad4_len n < 4)%nat.
Proof. apply Nat.mod_upper_bound. lia. Qed.

Lemma pad4_len_mod n : ((n + Layout.pad4_len n) mod 4 = 0)%nat.
Proof.
  unfold Layout.pad4_len. pose proof (Nat.div_mod_eq n 4). pose proof (Nat.mod_upper_bound n 4).
  set (r := (n mod 4)%nat) in *. set (q := (n / 4)%nat) in *.
  destruct (decide (r = 0%nat)) as [->|Hr].
  - change ((4 - 0) mod 4)%nat with 0%nat. replace (n + 0)%nat with (q * 4)%nat by lia.
    apply Nat.Div0.mod_mul.
  - rewrite (Nat.mod_small (4 - r)) by lia. replace (n + (4 - r))%nat with ((q + 1) * 4)%nat by lia.
    apply Nat.Div0.mod_mul.
Qed.

(** The second header that [pre_encode] writes for a layout. *)
Definition aes_header_of (l : Layout.t) (r : list Z) : MaskedKeyAesHeader :=
  mkAesHeader (Z.of_nat (Layout.iv l)) (Z.of_nat (Layout.iv_pad l)) (Z.of_nat (Layout.md l))
    (Z.of_nat (Layout.md_pad l)) (Z.of_nat (Layout.ek l)) (Z.of_nat (Layout.ek_pad l))
    (Z.of_nat (Layout.tag l)) r.

Definition small (n : nat) : Prop := Z.of_nat n + 4 < 2 ^ 16.

Definition cbc_layout (md ek : nat) : Layout.t :=
  Layout.mk 16 0 md (Layout.pad4_len md) ek (Layout.pad4_len ek) 48.

Lemma cbc_layout_ok md ek : Layout.calculate_layout AesCbc256Hmac384 md ek = Ok (cbc_layout md ek).
Proof. reflexivity. Qed.

Lemma layout_of_header md ek r :
  layout_of (aes_header_of (cbc_layout md ek) r) = cbc_layout md ek.
Proof. unfold layout_of, aes_header_of, cbc_layout. cbn. by rewrite !Nat2Z.id. Qed.

Lemma aes_header_range md ek r :
  small md → small ek → length r = 34%nat → octets r →
  in_range MaskedKeyAesHeader_wire (aes_header_of (cbc_layout md ek) r).
Proof.
  Transparent MaskedKeyAesHeader_wire.
  intros Hm He Hr Ho. pose proof (pad4_len_lt md). pose proof (pad4_len_lt ek).
  unfold small in *. cbn. unfold uint_range. cbn. split_and!; try lia. split; done.
  Opaque MaskedKeyAesHeader_wire.
Qed.

Lemma cbc_header_valid md ek r :
  small md → small ek → md ≠ 0%nat → ek ≠ 0%nat →
  validate_aes_header (aes_header_of (cbc_layout md ek) r) = Ok tt.
Proof.
  intros Hm He Hm0 He0. unfold validate_aes_header, aes_header_of, cbc_layout.
  cbn [encrypted_key_len metadata_len tag_len iv_len post_iv_pad_len post_metadata_pad_len
       post_encrypted_key_pad_len Layout.iv Layout.iv_pad Layout.md Layout.md_pad Layout.ek
       Layout.ek_pad Layout.tag].
  assert (∀ n, small n → wrap 16 (Z.of_nat n + Z.of_nat (Layout.pad4_len n)) mod 4 = 0) as Hp.
  { intros n Hn. pose proof (pad4_len_lt n). pose proof (pad4_len_mod n) as Hmod.
    unfold small in Hn. rewrite wrap_small by (unfold uint_range; lia).
    rewrite <-Nat2Z.inj_add. change 4 with (Z.of_nat 4). rewrite <-Nat2Z.inj_mod. lia. }
  rewrite !decide_False; [done|..].
  - rewrite !Hp by done. intros [E|[E|E]]; by apply E.
  - intros [E _]. by apply E.
  - intros [E|[E|E]]; lia.
Qed.

Lemma reserved_ok h :
  in_range MaskedKeyAesHeader_wire h → length (reserved h) = 34%nat ∧ octets (reserved h).
Proof.
  Transparent MaskedKeyAesHeader_wire.
  by intros (_ & _ & _ & _ & _ & _ & _ & Hr).
  Opaque MaskedKeyAesHeader_wire.
Qed.

Lemma header_range v : uint_range 16 v → in_range MaskedKeyHeader_wire (mkHeader v AesCbc256Hmac384).
Proof.
  Transparent MaskedKeyHeader_wire.
  intros Hv. split; [exact Hv|]. cbn. unfold uint_range. cbn. unfold AesCbc256Hmac384. lia.
  Opaque MaskedKeyHeader_wire.
Qed.

Definition with_headers (h a : list Z) (p : parts) : parts :=
  mkParts h a (p_iv p) (p_iv_pad p) (p_md p) (p_md_pad p) (p_ek p) (p_ek_pad p) (p_tag p).

Lemma bytes_of_headers p :
  bytes_of p = p_hdr p ++ p_aes p ++
    (p_iv p ++ p_iv_pad p ++ p_md p ++ p_md_pad p ++ p_ek p ++ p_ek_pad p ++ p_tag p).
Proof. unfold bytes_of, body. by rewrite <-!app_assoc. Qed.

(** The lengths fit their 16-bit fields. *)
Lemma wrapped_header md ek r :
  small md → small ek →
  let l := cbc_layout md ek in
  mkAesHeader
    (wrap 16 (Z.of_nat (Layout.iv l))) (wrap 16 (Z.of_nat (Layout.iv_pad l)))
    (wrap 16 (Z.of_nat (Layout.md l))) (wrap 16 (Z.of_nat (Layout.md_pad l)))
    (wrap 16 (Z.of_nat (Layout.ek l))) (wrap 16 (Z.of_nat (Layout.ek_pad l)))
    (wrap 16 (Z.of_nat (Layout.tag l))) r = aes_header_of l r.
Proof.
  intros Hm He l. pose proof (pad4_len_lt ek). pose proof (pad4_len_lt md).
  unfold small, l, cbc_layout, aes_header_of in *. cbn -[Z.of_nat wrap].
  rewrite !wrap_small; [done|unfold uint_range; lia..].
Qed.

(** [pre_encode] writes both headers and leaves the rest of the buffer. *)
Lemma pre_encode_ok v md ek out :
  small md → small ek → ek ≠ 0%nat → uint_range 16 v → octets out →
  length out = Layout.total_len (cbc_layout md ek) →
  ∃ r, length r = 34%nat ∧ octets r ∧
    pre_encode v AesCbc256Hmac384 md ek out =
    (Ok (mkPre AesCbc256Hmac384 (cbc_layout md ek)),
     bytes_of (with_headers
       (as_bytes MaskedKeyHeader_wire (mkHeader v AesCbc256Hmac384))
       (as_bytes MaskedKeyAesHeader_wire (aes_header_of (cbc_layout md ek) r))
       (split_parts (cbc_layout md ek) out))).
Proof.
  intros Hm He He0 Hv Ho Hl. set (l := cbc_layout md ek) in *.
  destruct (split_parts_ok l out Hl) as [Hf Hb]. set (p := split_parts l out) in *.
  pose proof Hf as (F1 & F2 & _).
  assert (octets (p_aes p)) as Hpo by (by apply Forall_take, Forall_drop).
  pose proof (read_in_range MaskedKeyAesHeader_wire (p_aes p)) as Hin.
  rewrite aes_header_size in Hin. specialize (Hin F2 Hpo). apply reserved_ok in Hin as [Hr1 Hr2].
  exists (reserved (read_bytes MaskedKeyAesHeader_wire (p_aes p))). split_and!; [done..|].
  assert (length (as_bytes MaskedKeyHeader_wire (mkHeader v AesCbc256Hmac384)) = HEADER) as L1.
  { rewrite as_bytes_length, header_size by (by apply header_range). done. }
  rewrite <-Hb at 1. rewrite bytes_of_headers. unfold pre_encode.
  erewrite bind_ok by (apply unless_ok; by rewrite bool_decide_eq_false_2).
  erewrite bind_ok by (apply lift_ok, cbc_layout_ok). fold l.
  erewrite bind_ok by reflexivity.
  erewrite bind_ok.
  2: { apply unless_ok, bool_decide_eq_true_2. rewrite <-bytes_of_headers. by apply fits_length. }
  cbv zeta. erewrite bind_ok by (apply lift_ok, (copy_middle []); [done|exact F1|exact L1]).
  cbn [app]. erewrite bind_ok by reflexivity.
  erewrite bind_ok by (by apply unless_ok).
  erewrite bind_ok by (apply lift_ok, slice_middle; [exact L1|exact F2]).
  rewrite (wrapped_header md ek) by done. fold l.
  erewrite bind_ok.
  2: { apply lift_ok, copy_middle; [exact L1|exact F2|].
       rewrite as_bytes_length, aes_header_size; [done|]. by apply (aes_header_range md ek). }
  erewrite bind_ok by reflexivity. rewrite bytes_of_headers. reflexivity.
Qed.

(** ** Reading and writing the parts *)

Definition set_iv (d : list Z) (p : parts) : parts :=
  mkParts (p_hdr p) (p_aes p) d (p_iv_pad p) (p_md p) (p_md_pad p) (p_ek p) (p_ek_pad p) (p_tag p).
Definition set_md (d : list Z) (p : parts) : parts :=
  mkParts (p_hdr p) (p_aes p) (p_iv p) (p_iv_pad p) d (p_md_pad p) (p_ek p) (p_ek_pad p) (p_tag p).
Definition set_ek (d : list Z) (p : parts) : parts :=
  mkParts (p_hdr p) (p_aes p) (p_iv p) (p_iv_pad p) (p_md p) (p_md_pad p) d (p_ek_pad p) (p_tag p).
Definition set_tag (d : list Z) (p : parts) : parts :=
  mkParts (p_hdr p) (p_aes p) (p_iv p) (p_iv_pad p) (p_md p) (p_md_pad p) (p_ek p) (p_ek_pad p) d.

(** The buffer around one part. *)
Lemma around_iv p :
  bytes_of p = (p_hdr p ++ p_aes p) ++ p_iv p ++
    (p_iv_pad p ++ p_md p ++ p_md_pad p ++ p_ek p ++ p_ek_pad p ++ p_tag p).
Proof. unfold bytes_of, body. by rewrite <-!app_assoc. Qed.
Lemma around_md p :
  bytes_of p = (p_hdr p ++ p_aes p ++ p_iv p ++ p_iv_pad p) ++ p_md p ++
    (p_md_pad p ++ p_ek p ++ p_ek_pad p ++ p_tag p).
Proof. unfold bytes_of, body. by rewrite <-!app_assoc. Qed.
Lemma around_ek p :
  bytes_of p = (p_hdr p ++ p_aes p ++ p_iv p ++ p_iv_pad p ++ p_md p ++ p_md_pad p) ++ p_ek p ++
    (p_ek_pad p ++ p_tag p).
Proof. unfold bytes_of, body. by rewrite <-!app_assoc. Qed.

Section parts.
Context (l : Layout.t) (p : parts) (Hf : fits l p).

Lemma fits_offsets :
  length (p_hdr p ++ p_aes p) = Layout.iv_at l ∧
  length (p_hdr p ++ p_aes p ++ p_iv p ++ p_iv_pad p) = Layout.md_at l ∧
  length (p_hdr p ++ p_aes p ++ p_iv p ++ p_iv_pad p ++ p_md p ++ p_md_pad p) = Layout.ek_at l.
Proof using Hf.
  destruct Hf as (H1 & H2 & H3 & H4 & H5 & H6 & H7 & H8 & H9).
  unfold Layout.ek_at, Layout.md_at, Layout.iv_at. rewrite !length_app. lia.
Qed.

Lemma read_iv {E} : slice (E:=E) (bytes_of p) (Layout.iv_at l) (Layout.iv l) = Ok (p_iv p).
Proof using Hf. rewrite around_iv. apply slice_middle; [apply fits_offsets|apply Hf]. Qed.
Lemma read_ek {E} : slice (E:=E) (bytes_of p) (Layout.ek_at l) (Layout.ek l) = Ok (p_ek p).
Proof using Hf. rewrite around_ek. apply slice_middle; [apply fits_offsets|apply Hf]. Qed.

Lemma write_iv {E} d :
  length d = Layout.iv l →
  copy_from_slice (E:=E) (bytes_of p) (Layout.iv_at l) (Layout.iv l) d = Ok (bytes_of (set_iv d p)).
Proof using Hf.
  intros Hd. rewrite (around_iv p), (around_iv (set_iv d p)).
  apply copy_middle; [apply fits_offsets|apply Hf|done].
Qed.
Lemma write_md {E} d :
  length d = Layout.md l →
  copy_from_slice (E:=E) (bytes_of p) (Layout.md_at l) (Layout.md l) d = Ok (bytes_of (set_md d p)).
Proof using Hf.
  intros Hd. rewrite (around_md p), (around_md (set_md d p)).
  apply copy_middle; [apply fits_offsets|apply Hf|done].
Qed.
Lemma write_ek {E} d :
  length d = Layout.ek l →
  copy_from_slice (E:=E) (bytes_of p) (Layout.ek_at l) (Layout.ek l) d = Ok (bytes_of (set_ek d p)).
Proof using Hf.
  intros Hd. rewrite (around_ek p), (around_ek (set_ek d p)).
  apply copy_middle; [apply fits_offsets|apply Hf|done].
Qed.

Lemma tag_offset : (length (bytes_of p) - Layout.tag l)%nat = length (body p).
Proof using Hf.
  unfold bytes_of. rewrite length_app. destruct Hf as (_ & _ & _ & _ & _ & _ & _ & _ & ->). lia.
Qed.

Lemma read_body {E} : slice (E:=E) (bytes_of p) 0 (length (body p)) = Ok (body p).
Proof using. by apply (slice_middle [] (body p) (p_tag p)). Qed.

Lemma write_tag {E} d :
  length d = Layout.tag l →
  copy_from_slice (E:=E) (bytes_of p) (length (body p)) (Layout.tag l) d = Ok (bytes_of (set_tag d p)).
Proof using Hf.
  intros Hd. pose proof (copy_middle (E:=E) (body p) (p_tag p) [] d _ _ eq_refl eq_refl) as Hc.
  rewrite !app_nil_r in Hc.
  destruct Hf as (_ & _ & _ & _ & _ & _ & _ & _ & E9). rewrite E9 in Hc. by apply Hc.
Qed.

Lemma set_fits d :
  (length d = Layout.iv l → fits l (set_iv d p)) ∧ (length d = Layout.md l → fits l (set_md d p)) ∧
  (length d = Layout.ek l → fits l (set_ek d p)) ∧ (length d = Layout.tag l → fits l (set_tag d p)).
Proof using Hf.
  destruct Hf as (H1 & H2 & H3 & H4 & H5 & H6 & H7 & H8 & H9).
  split_and!; intros Hd; by split_and!.
Qed.
End parts.

(** ** [encode] *)

Section encode.
Context `{CryptEnvLaws}.

Lemma write_ok off len d (e : env) b b' :
  copy_from_slice (E:=MaskedKeyError) b off len d = Ok b' → write off len d (e, b) = (Ok tt, (e, b')).
Proof.
  intros Hc. unfold write. erewrite bind_ok by reflexivity.
  erewrite bind_ok by (apply lift_ok, Hc). done.
Qed.

Lemma random_iv_ok e iv :
  env_ok e → ∃ iv' e', random_iv iv e = (Ok (Ok tt, iv'), e') ∧ length iv' = length iv ∧ env_ok e'.
Proof.
  intros He. destruct (random_spec e iv He) as (iv' & e' & Hr & Hl & He').
  exists iv', e'. unfold random_iv. by rewrite Hr.
Qed.

Lemma hmac_tag_ok e k d :
  env_ok e → length k = HMAC384_KEY_SIZE → ∃ e', hmac_tag k d e = (Ok (hmac k d), e') ∧ env_ok e'.
Proof.
  intros He Hk. destruct (hmac_spec e k d He Hk) as (e' & Hr & He').
  exists e'. unfold hmac_tag. by rewrite Hr.
Qed.

Lemma with_env_ok {A} (m : M env MaskedKeyError A) e b a e' :
  m e = (Ok a, e') → with_env m (e, b) = (Ok a, (e', b)).
Proof. intros Hm. unfold with_env. by rewrite Hm. Qed.

Lemma split_key_ok key :
  length key = 80%nat →
  split_aes_hmac_key key = Ok (take 32 key, drop 32 key) ∧
  length (take 32 key) = AES_CBC_256_KEY_SIZE ∧ length (drop 32 key) = HMAC384_KEY_SIZE.
Proof.
  intros Hk. unfold split_aes_hmac_key. rewrite decide_False by (rewrite Hk; by intros E).
  rewrite length_take, length_drop, Hk. done.
Qed.

(** The finished parts: both headers and the paddings stay, the tag is the
    HMAC of everything before it, and the encrypted key decrypts. *)
Lemma encode_parts_ok e p md_len plaintext masking_key metadata :
  let l := cbc_layout md_len (aescbc256_enc_data_len (length plaintext)) in
  env_ok e → fits l p → length masking_key = 80%nat → length metadata = md_len →
  ∃ iv ek e',
    let body_p := set_md metadata (set_ek ek (set_iv iv p)) in
    let p' := set_tag (hmac (drop 32 masking_key) (body body_p)) body_p in
    encode (mkPre AesCbc256Hmac384 l) plaintext masking_key metadata (e, bytes_of p) =
      (Ok tt, (e', bytes_of p')) ∧ fits l p' ∧ env_ok e' ∧
    ∀ e2 out, env_ok e2 → length out = length plaintext →
      ∃ e3, aescbc256_decrypt (take 32 masking_key) iv ek out e2 =
        (Ok (length plaintext), plaintext, e3) ∧ env_ok e3.
Proof.
  intros l He Hf Hk Hmd. destruct (split_key_ok masking_key Hk) as (Hsplit & Hk1 & Hk2).
  destruct (random_iv_ok e (p_iv p) He) as (iv0 & e1 & Hrand & Hiv0 & He1).
  assert (length (p_iv p) = Layout.iv l) as Hpiv by apply Hf.
  assert (length (p_ek p) = Layout.ek l) as Hpek by apply Hf.
  rewrite Hpiv in Hiv0. destruct (set_fits l p Hf iv0) as (Hf1 & _). specialize (Hf1 Hiv0).
  destruct (encrypt_spec e1 (take 32 masking_key) plaintext iv0 (p_ek p) He1 Hk1 Hiv0 Hpek)
    as (n & iv & ek & e2 & Henc & Hiv & Hek & He2 & Hdec).
  rewrite Hiv0 in Hiv. rewrite Hpek in Hek.
  destruct (set_fits l _ Hf1 iv) as (Hf2 & _). specialize (Hf2 Hiv).
  destruct (set_fits l _ Hf2 ek) as (_ & _ & Hf3 & _). specialize (Hf3 Hek).
  assert (length metadata = Layout.md l) as Hmd' by done.
  destruct (set_fits l _ Hf3 metadata) as (_ & Hf4 & _). specialize (Hf4 Hmd').
  set (p4 := set_md metadata (set_ek ek (set_iv iv (set_iv iv0 p)))) in *.
  destruct (hmac_tag_ok e2 (drop 32 masking_key) (body p4) He2 Hk2) as (e3 & Hh & He3).
  destruct (set_fits l _ Hf4 (hmac (drop 32 masking_key) (body p4))) as (_ & _ & _ & Hf5).
  specialize (Hf5 (hmac_length _ _)).
  exists iv, ek, e3. cbv zeta. split_and!; [|exact Hf5|done|exact Hdec].
  unfold encode. cbn [pre_algo]. rewrite decide_True by done.
  unfold encode_aescbc256. cbn [pre_layout]. cbv zeta.
  erewrite bind_ok by (by apply lift_ok). cbv iota beta.
  erewrite bind_ok by reflexivity.
  erewrite bind_ok by (apply lift_ok; by apply read_iv).
  erewrite bind_ok by (by apply with_env_ok). cbv iota beta.
  erewrite bind_ok by (apply write_ok; by apply (write_iv l)).
  erewrite bind_ok by reflexivity.
  erewrite bind_ok by reflexivity.
  erewrite bind_ok by (apply lift_ok; by apply (read_ek l)).
  assert (encrypt_into (take 32 masking_key) plaintext iv0 (p_ek (set_iv iv0 p)) e1 =
          (Ok (Ok n, (iv, ek)), e2)) as Henc'.
  { unfold encrypt_into. cbn [p_ek set_iv]. by rewrite Henc. }
  erewrite bind_ok by (apply with_env_ok; exact Henc'). cbv iota beta.
  erewrite bind_ok by (apply write_ok; by apply (write_iv l)).
  erewrite bind_ok by (apply write_ok; by apply (write_ek l)).
  erewrite bind_ok by reflexivity.
  erewrite bind_ok by (apply unless_ok; by apply bool_decide_eq_true_2).
  erewrite bind_ok by (apply write_ok; by apply (write_md l)). fold p4.
  erewrite bind_ok by reflexivity. rewrite (tag_offset l p4 Hf4).
  erewrite bind_ok by (apply lift_ok, read_body).
  erewrite bind_ok by (apply with_env_ok; exact Hh).
  apply write_ok. exact (write_tag l p4 Hf4 _ (hmac_length _ _)).
Qed.
End encode.

(** ** [decode] with the integrity check *)

Section decode.
Context `{CryptEnvLaws}.

Definition header_of (data : list Z) : MaskedKeyHeader :=
  read_bytes MaskedKeyHeader_wire (take HEADER data).
Definition aes_header (data : list Z) : MaskedKeyAesHeader :=
  read_bytes MaskedKeyAesHeader_wire (take AES_HEADER (drop HEADER data)).

(** The data is a masked key with this layout. *)
Definition well_formed (data : list Z) (l : Layout.t) : Prop :=
  (HEADER + AES_HEADER ≤ length data)%nat ∧ algorithm (header_of data) = AesCbc256Hmac384 ∧
  validate_aes_header (aes_header data) = Ok tt ∧ l = layout_of (aes_header data) ∧
  length data = Layout.total_len l.

(** Its tag is the HMAC of everything before it. *)
Definition authentic (masking_key data : list Z) (l : Layout.t) : Prop :=
  drop (Layout.tag_at l) data = hmac (drop 32 masking_key) (take (Layout.tag_at l) data).

Lemma tag_at_sum (l : Layout.t) :
  (HEADER + AES_HEADER + (Layout.iv l + Layout.iv_pad l + Layout.md l + Layout.md_pad l
                          + Layout.ek l + Layout.ek_pad l))%nat = Layout.tag_at l.
Proof. unfold Layout.tag_at, Layout.ek_at, Layout.md_at, Layout.iv_at. lia. Qed.

#[global] Instance authentic_dec masking_key data l : Decision (authentic masking_key data l).
Proof. unfold authentic. apply _. Defined.

Lemma verify_tag_ok e masking_key hdr l data :
  env_ok e → length masking_key = 80%nat → length data = Layout.total_len l →
  ∃ e', env_ok e' ∧ verify_tag masking_key hdr l data e =
    (if decide (algorithm hdr = AesCbc256Hmac384) then
       if decide (authentic masking_key data l) then Ok tt else Err HmacTagVerificationFailed
     else Err InvalidMaskingKeyAlgorithm, e').
Proof.
  intros He Hk Htot. destruct (split_key_ok masking_key Hk) as (Hsplit & _ & Hk2).
  pose proof (total_len_tag_at l) as Htl. unfold verify_tag. rewrite tag_at_sum. cbv zeta.
  erewrite bind_ok by (apply unless_ok; apply bool_decide_eq_true_2; lia).
  assert (slice (E:=MaskedKeyError) data (Layout.tag_at l) (Layout.tag l) =
          Ok (drop (Layout.tag_at l) data)) as Hs1.
  { unfold slice. rewrite decide_True by lia. rewrite take_ge by (rewrite length_drop; lia). done. }
  erewrite bind_ok by (by apply lift_ok). case_decide; [|by exists e].
  destruct (hmac_tag_ok e (drop 32 masking_key) (take (Layout.tag_at l) data) He Hk2)
    as (e' & Htag & He').
  exists e'. split; [done|].
  erewrite bind_ok by (by apply lift_ok). cbv iota beta.
  erewrite bind_ok by (apply lift_ok; unfold slice; by rewrite decide_True by lia).
  erewrite bind_ok by exact Htag.
  unfold unless. case_bool_decide as Heq; case_decide as Hau; done.
Qed.

Lemma validate_no_panic h : validate_aes_header h ≠ Panic.
Proof. unfold validate_aes_header. repeat case_decide; done. Qed.

(** Every run of [decode] that fails says why on the data. *)
Lemma decode_exact e masking_key data :
  env_ok e → length masking_key = 80%nat →
  ∃ r e', decode masking_key data true e = (r, e') ∧ env_ok e' ∧
    match r with
    | Ok k => well_formed data (layout k) ∧ authentic masking_key data (layout k) ∧
              k = mkMaskedKeyAes (header_of data) (layout k) (drop HEADER data)
    | Err _ => ¬ ∃ l, well_formed data l ∧ authentic masking_key data l
    | Panic => False
    end.
Proof.
  intros He Hk. unfold decode.
  destruct (decide (HEADER ≤ length data)%nat) as [Hh|Hh].
  2: { eexists _, e. split; [apply bind_err; by rewrite bool_decide_eq_false_2|]. split; [done|].
       intros (l & (W & _) & _). lia. }
  erewrite bind_ok by (apply unless_ok; by apply bool_decide_eq_true_2). cbv zeta.
  fold (header_of data). case_decide as Ha.
  2: { eexists _, e. split; [reflexivity|]. split; [done|]. intros (l & (_ & W & _) & _). tauto. }
  unfold decode_aes. destruct (decide (AES_HEADER ≤ length (drop HEADER data))%nat) as [Hah|Hah].
  2: { eexists _, e. split; [apply bind_err; by rewrite bool_decide_eq_false_2|]. split; [done|].
       rewrite length_drop in Hah. intros (l & (W & _) & _). lia. }
  erewrite bind_ok by (apply unless_ok; by apply bool_decide_eq_true_2). cbv zeta.
  fold (aes_header data). destruct (validate_aes_header (aes_header data)) as [[]|er|] eqn:Hv.
  2: { eexists _, e. split; [by apply bind_err|]. split; [done|].
       intros (l & (_ & _ & W & _) & _). congruence. }
  2: { by apply validate_no_panic in Hv. }
  erewrite bind_ok by reflexivity. set (l := layout_of (aes_header data)).
  set (n := (Layout.iv l + Layout.iv_pad l + Layout.md l + Layout.md_pad l + Layout.ek l
             + Layout.ek_pad l + Layout.tag l)%nat).
  assert (HEADER + AES_HEADER + n = Layout.total_len l)%nat as Hn
    by (unfold Layout.total_len, n; lia).
  rewrite length_drop in Hah.
  destruct (decide (length (drop AES_HEADER (drop HEADER data)) = n)) as [Hlen|Hlen].
  2: { eexists _, e. split; [apply bind_err; by rewrite bool_decide_eq_false_2|]. split; [done|].
       rewrite !length_drop in Hlen. intros (l' & (_ & _ & _ & -> & W) & _). fold l in W. lia. }
  rewrite !length_drop in Hlen. assert (length data = Layout.total_len l) as Htot by lia.
  erewrite bind_ok by (apply unless_ok; apply bool_decide_eq_true_2; rewrite !length_drop; lia).
  destruct (verify_tag_ok e masking_key (header_of data) l data He Hk Htot) as (e' & He' & Hver).
  case_decide as Hcbc.
  2: { eexists _, e'. split; [by apply bind_err|]. split; [done|].
       intros (l' & (_ & W & _) & _). done. }
  assert (well_formed data l) as Hwf by (split_and!; (done || lia)).
  case_decide as Hau.
  - eexists _, e'. split; [rewrite (bind_ok _ _ _ _ _ Hver); reflexivity|]. by split_and!.
  - eexists _, e'. split; [by apply bind_err|]. split; [done|].
    intros (l' & W & A). pose proof W as (_ & _ & _ & -> & _). done.
Qed.
End decode.

(** ** What a decoded key gives *)

Section accessors.
Context `{CryptEnvLaws}.

Lemma payload_part_ok hdr l data off len :
  (HEADER + AES_HEADER + off + len ≤ length data)%nat →
  payload_part (mkMaskedKeyAes hdr l (drop HEADER data)) off len =
    Ok (take len (drop (HEADER + AES_HEADER + off) data)).
Proof.
  intros Hl. unfold payload_part. cbn [payload].
  assert (slice (E:=MaskedKeyError) (drop HEADER data) AES_HEADER (length (drop HEADER data) - AES_HEADER) =
          Ok (drop AES_HEADER (drop HEADER data))) as ->.
  { unfold slice. rewrite decide_True by (rewrite length_drop; lia).
    by rewrite take_ge by (rewrite !length_drop; lia). }
  unfold mbind, outcome_bind, slice.
  rewrite decide_True by (rewrite !length_drop; lia). by rewrite !drop_drop.
Qed.

(** The accessors return the parts of the buffer. *)
Lemma accessors_ok hdr l data :
  length data = Layout.total_len l →
  let k := mkMaskedKeyAes hdr l (drop HEADER data) in
  mk_iv k = Ok (p_iv (split_parts l data)) ∧ mk_metadata k = Ok (p_md (split_parts l data)) ∧
  mk_encrypted_key k = Ok (p_ek (split_parts l data)) ∧ mk_tag k = Ok (p_tag (split_parts l data)).
Proof.
  intros Hl k. unfold Layout.total_len in Hl.
  unfold mk_iv, mk_metadata, mk_encrypted_key, mk_tag, k. cbn [layout split_parts p_iv p_md p_ek p_tag].
  rewrite !payload_part_ok by lia.
  unfold Layout.tag_at, Layout.ek_at, Layout.md_at, Layout.iv_at.
  rewrite !Nat.add_assoc, Nat.add_0_r. split_and!; [done..|].
  by rewrite take_ge by (rewrite length_drop; lia).
Qed.

(** The parts of a buffer are found again. *)
Lemma split_bytes_of l p : fits l p → split_parts l (bytes_of p) = p.
Proof.
  intros Hf. pose proof (fits_length _ _ Hf) as Hl.
  destruct (split_parts_ok l (bytes_of p) Hl) as [Hg Hb]. revert Hg Hb.
  generalize (split_parts l (bytes_of p)). intros q Hg Hb.
  destruct Hf as (F1 & F2 & F3 & F4 & F5 & F6 & F7 & F8 & F9).
  destruct Hg as (G1 & G2 & G3 & G4 & G5 & G6 & G7 & G8 & G9).
  destruct p, q. unfold bytes_of, body in Hb.
  cbn [p_hdr p_aes p_iv p_iv_pad p_md p_md_pad p_ek p_ek_pad p_tag] in *. rewrite <-!app_assoc in Hb.
  repeat (apply app_inj_1 in Hb as [? Hb]; [|congruence]). by subst.
Qed.
End accessors.

(** ** Theorems *)

Section theorems.
Context `{CryptEnvLaws}.

(** C34: integrity of masked keys.  With the integrity check, [decode] succeeds
    exactly on buffers that are well formed (both headers, valid lengths that
    add up to the length of the buffer) and whose last bytes are the HMAC, with
    the second half of the masking key, of everything before them, headers
    included; the tag then has the 48 bytes of SHA-384 whatever length the
    header claims, and the accessors return the parts of the buffer.  Every
    other buffer is an error, never a panic. *)
Theorem masked_key_authentic e masking_key data :
  env_ok e → length masking_key = 80%nat →
  ∃ r e', decode masking_key data true e = (r, e') ∧ env_ok e' ∧
    match r with
    | Ok k =>
        let l := layout k in let p := split_parts l data in
        well_formed data l ∧ authentic masking_key data l ∧ Layout.tag l = HMAC384_TAG_SIZE ∧
        header k = header_of data ∧ bytes_of p = data ∧
        mk_iv k = Ok (p_iv p) ∧ mk_metadata k = Ok (p_md p) ∧
        mk_encrypted_key k = Ok (p_ek p) ∧ mk_tag k = Ok (p_tag p)
    | Err _ => ¬ ∃ l, well_formed data l ∧ authentic masking_key data l
    | Panic => False
    end.
Proof.
  intros He Hk. destruct (decode_exact e masking_key data He Hk) as (r & e' & Hd & He' & Hr).
  exists r, e'. split_and!; [done..|]. destruct r as [k|er|]; [|done..].
  destruct Hr as (Hw & Ha & Hk'). cbv zeta. pose proof Hw as (_ & _ & _ & _ & Hl).
  destruct (split_parts_ok (layout k) data Hl) as [Hf Hb].
  assert (Layout.tag (layout k) = HMAC384_TAG_SIZE) as Ht.
  { rewrite <-(hmac_length (drop 32 masking_key) (take (Layout.tag_at (layout k)) data)), <-Ha.
    rewrite length_drop, Hl, total_len_tag_at. lia. }
  pose proof (accessors_ok (header_of data) (layout k) data Hl) as Hacc.
  cbv zeta in Hacc. rewrite <-Hk' in Hacc. split_and!; try apply Hacc; try done. by rewrite Hk'.
Qed.

(** The buffer that [encode] leaves is well formed and authentic. *)
Lemma encoded_ok v md ek r masking_key p :
  small md → small ek → md ≠ 0%nat → ek ≠ 0%nat → uint_range 16 v → length r = 34%nat → octets r →
  let l := cbc_layout md ek in
  fits l p →
  p_hdr p = as_bytes MaskedKeyHeader_wire (mkHeader v AesCbc256Hmac384) →
  p_aes p = as_bytes MaskedKeyAesHeader_wire (aes_header_of l r) →
  p_tag p = hmac (drop 32 masking_key) (body p) →
  header_of (bytes_of p) = mkHeader v AesCbc256Hmac384 ∧
  well_formed (bytes_of p) l ∧ authentic masking_key (bytes_of p) l.
Proof.
  intros Hm He Hm0 He0 Hv Hr Hro l Hf Hh Ha Ht. pose proof (split_bytes_of l p Hf) as Hs.
  pose proof (fits_length _ _ Hf) as Hl. pose proof (fits_body _ _ Hf) as Hb.
  assert (header_of (bytes_of p) = mkHeader v AesCbc256Hmac384) as E1.
  { unfold header_of. change (take HEADER (bytes_of p)) with (p_hdr (split_parts l (bytes_of p))).
    rewrite Hs, Hh. by apply read_as_bytes, header_range. }
  assert (aes_header (bytes_of p) = aes_header_of l r) as E2.
  { unfold aes_header. change (take AES_HEADER _) with (p_aes (split_parts l (bytes_of p))).
    rewrite Hs, Ha. by apply read_as_bytes, (aes_header_range md ek). }
  split_and!; [done| |].
  - unfold well_formed. rewrite E1, E2. split_and!; [|done|by apply cbc_header_valid| |done].
    + rewrite Hl. unfold Layout.total_len. lia.
    + unfold l. by rewrite layout_of_header.
  - unfold authentic, bytes_of. rewrite <-Hb, drop_app_length, take_app_length. done.
Qed.

End theorems.

(** ** A small environment for the witnesses

    Encryption only pads and the tag is a sum repeated; the laws hold. *)

Module Small.
Definition pad (p : list Z) : list Z :=
  let n := (AES_BLOCK_SIZE - length p mod AES_BLOCK_SIZE)%nat in replicate n (Z.of_nat n).
Definition unpad (c : list Z) : list Z := take (length c - Z.to_nat (default 0 (list.last c))) c.
Definition sum_tag (k d : list Z) : list Z :=
  replicate HMAC384_TAG_SIZE (foldr Z.add 0 (k ++ d) mod 256).

#[global] Instance small_env : CryptEnv := {|
  env := ();
  hmac384_tag k d e := (Ok (sum_tag k d), e);
  aescbc256_encrypt k p iv ct e := (Ok (length (p ++ pad p)), (iv, p ++ pad p), e);
  aescbc256_decrypt k iv ct out e := (Ok (length (unpad ct)), unpad ct, e);
  generate_random b e := (Ok tt, replicate (length b) 5, e)
|}.

Lemma pad_length p : length (p ++ pad p) = aescbc256_enc_data_len (length p).
Proof. unfold pad, aescbc256_enc_data_len. by rewrite length_app, length_replicate. Qed.

Lemma last_pad n (x : Z) : list.last (replicate (S n) x) = Some x.
Proof. induction n as [|n IH]; [done|]. exact IH. Qed.

Lemma unpad_pad p : unpad (p ++ pad p) = p.
Proof.
  unfold unpad, pad. set (n := (AES_BLOCK_SIZE - length p mod AES_BLOCK_SIZE)%nat).
  assert (∃ m, n = S m) as [m Hm].
  { exists (n - 1)%nat. unfold n, AES_BLOCK_SIZE.
    pose proof (Nat.mod_upper_bound (length p) 16). lia. }
  rewrite list.last_app, Hm, last_pad, <-Hm. cbn [default from_option id].
  rewrite length_app, length_replicate, Nat2Z.id, Nat.add_sub. apply take_app_length.
Qed.

#[global] Instance small_laws : CryptEnvLaws.
Proof.
  refine {| env_ok := λ _, True; hmac := sum_tag |}.
  - intros. apply length_replicate.
  - intros [] k d _ _. by exists tt.
  - intros [] b _. exists (replicate (length b) 5), tt. by rewrite length_replicate.
  - intros [] k p iv ct _ _ _ Hct. exists (length (p ++ pad p)), iv, (p ++ pad p), tt.
    split_and!; [done|done|by rewrite Hct, pad_length|done|].
    intros [] out _ _. exists tt. cbn. by rewrite unpad_pad.
Defined.

Definition key : list Z := replicate 80 7.
Definition plaintext : list Z := [1; 2; 3; 4; 5].
Definition metadata : list Z := [9; 8; 7].
Definition masked : list Z :=
  match pre_encode 1 AesCbc256Hmac384 3 16 (replicate 136 0) with
  | (Ok pre, out) => snd (snd (encode pre plaintext key metadata (tt, out)))
  | _ => []
  end.
End Small.


Lemma masked_key_authentic_witness :
  (∃ k e', decode Small.key Small.masked true tt = (Ok k, e') ∧
     well_formed Small.masked (layout k) ∧ authentic Small.key Small.masked (layout k)) ∧
  ¬ ∃ l, well_formed (<[70%nat:=0]> Small.masked) l ∧ authentic Small.key (<[70%nat:=0]> Small.masked) l.
Proof.
  split.
  - destruct (@masked_key_authentic Small.small_env Small.small_laws tt Small.key Small.masked I eq_refl)
      as (r & e' & Hd & _ & Hr).
    destruct r as [k|er|]; [|exfalso; apply (f_equal fst) in Hd; revert Hd; vm_compute; discriminate|destruct Hr].
    exists k, e'. split; [exact Hd|]. destruct Hr as (Hw & Ha & _). split; [exact Hw|exact Ha].
  - destruct (@masked_key_authentic Small.small_env Small.small_laws tt Small.key
                (<[70%nat:=0]> Small.masked) I eq_refl) as (r & e' & Hd & _ & Hr).
    destruct r as [k|er|]; [exfalso; apply (f_equal fst) in Hd; revert Hd; vm_compute; discriminate|exact Hr|destruct Hr].
Defined.
