(* ===== verification/AdminError.v ===== *)
(** * Errors of the admin application (admin/src/error.rs)

    [AdminErr] as declared by [mcr_err_decl!], the question the scheduler asks
    of it, and the status codes the host sees in a completion entry. *)

From stdpp Require Import base numbers.
From S2P Require Import Prelude.

Local Open Scope Z_scope.

Module AdminErr.
Inductive t :=
  | Pending | InvalidStateChangeIpcResponse | InvalidUcdQueryIpcResponse
  | SetResCountLimitExceeded | SetResCountOnEnabled | ClearResCountOnEnabled
  | CreateSqOnDisabled | CreateCqOnDisabled | AdminSqCreateFailed | InvalidHostSqToDelete
  | InvalidHostCqToDelete | DeleteCqReferenceCountNotZero | InvalidAdminSqToDelete
  | InvalidAdminCqToDelete | DeleteAdminCqReferenceCountNotZero | InvalidQueueId
  | QueueIdOutOfRangeForFunction | CqAlreadyAllocated | CqNotAvailable | SqAlreadyAllocated
  | InvalidSqId | InvalidCompletionQueueIdInDelete | CreateCqFailedByQueueController
  | CreateSqFailedByQueueController | InvalidFieldInCreateCqCmd | InvalidQueueDelete
  | InvalidQueueSize | InvalidInterruptVector | InvalidHostCq | InvalidFieldInCreateSqCmd
  | InvalidFieldInGetSetFeaturesCmd | InvalidStateChange | AllocSqQueueAlreadyAllocated
  | AllocSqCompletionQueueNotFound | AllocSqQueueGroupMismatch | AllocSqResourceLimitReached
  | InvalidHostSqToFree | HostSubmissionQueueNotFound | AllocCqQueueAlreadyAllocated
  | AllocCqResourceLimitReached | InvalidHostCqToFree | HostCompletionQueueNotFound
  | DeviceCompletionQueueNotFound | InvalidQueueControllerId | InvalidFeatureId
  | IoChannelRecvNone | IoChannelRecvErr | IoChannelSendError | SqeUnknownOp | DmaOutError
  | ExpectedCmdFsm | DmaStartError | ExpectedPcieFn | ExpectedDmaBuf | ExpectedCqe | DmaEndErr
  | DmaTagMismatch | DmaCompletionEmpty | NoMemory | InvalidPcieFn | IoChannelSendCompleteNone
  | IoChannelSendCompleteError | IoTagMismatch | InvalidSetResCmd | InvalidCntrlIdFieldInSqe
  | InvalidResCountFieldInSqe | IpcSendRequestError | IpcResponseError | InvalidIpcHeader
  | ExpectedIpcChannel | SpuriousIpcMessage | ExpectedAdminQueue | InvalidAdminQueue
  | SendResetEventToFpFailed | SendResetEventToHsmFailed | InvalidIpcShutdownRequest
  | InvalidIpcMessageOpcode | ResourceLimitReached | SetResFunctionAlreadyRunning
  | SpuriousIoQueueDeleteResp | FailedToSendSelfTestReq | FailedToRecvSelfTestResp
  | SelfTestFailed | SelfTestTimeout | CdmaIoAesGcmSelfTestFailed | CdmaIoAesXtsSelfTestFailed
  | CdmaIoKeyUpdateFailed | AesUnwrapSelfTestFailed | AesEcbSelfTestFailed
  | CdmaIoInvalidCastState | InvalidPreopCastTestRequest | InvalidEvent
  | InvalidLmContextToRestore | InvalidResourceId | InvalidStopInterfaceRequest
  | HsmBootTimeout | AesGcmTagCorrectionFailed | InvalidAesGcmUnalignedDataPtr
  | InvalidSourcePfn.
#[global] Instance t_eq_dec : EqDecision t.
Proof. solve_decision. Defined.

(** The discriminants. *)
Definition literal (e : t) : Z :=
  match e with
  | Pending => 0x00 | InvalidStateChangeIpcResponse => 0x01
  | InvalidUcdQueryIpcResponse => 0x02 | SetResCountLimitExceeded => 0x03
  | SetResCountOnEnabled => 0x04 | ClearResCountOnEnabled => 0x05 | CreateSqOnDisabled => 0x6
  | CreateCqOnDisabled => 0x7 | AdminSqCreateFailed => 0x08 | InvalidHostSqToDelete => 0x09
  | InvalidHostCqToDelete => 0x0A | DeleteCqReferenceCountNotZero => 0x0B
  | InvalidAdminSqToDelete => 0x0C | InvalidAdminCqToDelete => 0x0D
  | DeleteAdminCqReferenceCountNotZero => 0x0E | InvalidQueueId => 0x0F
  | QueueIdOutOfRangeForFunction => 0x10 | CqAlreadyAllocated => 0x11 | CqNotAvailable => 0x12
  | SqAlreadyAllocated => 0x13 | InvalidSqId => 0x14 | InvalidCompletionQueueIdInDelete => 0x15
  | CreateCqFailedByQueueController => 0x16 | CreateSqFailedByQueueController => 0x17
  | InvalidFieldInCreateCqCmd => 0x18 | InvalidQueueDelete => 0x19 | InvalidQueueSize => 0x1A
  | InvalidInterruptVector => 0x1B | InvalidHostCq => 0x1C | InvalidFieldInCreateSqCmd => 0x1D
  | InvalidFieldInGetSetFeaturesCmd => 0x1E | InvalidStateChange => 0x1F
  | AllocSqQueueAlreadyAllocated => 0x20 | AllocSqCompletionQueueNotFound => 0x21
  | AllocSqQueueGroupMismatch => 0x22 | AllocSqResourceLimitReached => 0x23
  | InvalidHostSqToFree => 0x24 | HostSubmissionQueueNotFound => 0x25
  | AllocCqQueueAlreadyAllocated => 0x26 | AllocCqResourceLimitReached => 0x27
  | InvalidHostCqToFree => 0x28 | HostCompletionQueueNotFound => 0x29
  | DeviceCompletionQueueNotFound => 0x2A | InvalidQueueControllerId => 0x2B
  | InvalidFeatureId => 0x2C | IoChannelRecvNone => 0x30 | IoChannelRecvErr => 0x31
  | IoChannelSendError => 0x32 | SqeUnknownOp => 0x33 | DmaOutError => 0x34
  | ExpectedCmdFsm => 0x35 | DmaStartError => 0x36 | ExpectedPcieFn => 0x37
  | ExpectedDmaBuf => 0x38 | ExpectedCqe => 0x39 | DmaEndErr => 0x3A | DmaTagMismatch => 0x3B
  | DmaCompletionEmpty => 0x3C | NoMemory => 0x3D | InvalidPcieFn => 0x3E
  | IoChannelSendCompleteNone => 0x3F | IoChannelSendCompleteError => 0x40
  | IoTagMismatch => 0x41 | InvalidSetResCmd => 0x42 | InvalidCntrlIdFieldInSqe => 0x43
  | InvalidResCountFieldInSqe => 0x44 | IpcSendRequestError => 0x45 | IpcResponseError => 0x46
  | InvalidIpcHeader => 0x47 | ExpectedIpcChannel => 0x48 | SpuriousIpcMessage => 0x49
  | ExpectedAdminQueue => 0x4A | InvalidAdminQueue => 0x4B | SendResetEventToFpFailed => 0x4C
  | SendResetEventToHsmFailed => 0x4D | InvalidIpcShutdownRequest => 0x4E
  | InvalidIpcMessageOpcode => 0x4F | ResourceLimitReached => 0x50
  | SetResFunctionAlreadyRunning => 0x51 | SpuriousIoQueueDeleteResp => 0x52
  | FailedToSendSelfTestReq => 0x53 | FailedToRecvSelfTestResp => 0x54 | SelfTestFailed => 0x55
  | SelfTestTimeout => 0x56 | CdmaIoAesGcmSelfTestFailed => 0x57
  | CdmaIoAesXtsSelfTestFailed => 0x58 | CdmaIoKeyUpdateFailed => 0x59
  | AesUnwrapSelfTestFailed => 0x5A | AesEcbSelfTestFailed => 0x5B
  | CdmaIoInvalidCastState => 0x5C | InvalidPreopCastTestRequest => 0x5D | InvalidEvent => 0x5E
  | InvalidLmContextToRestore => 0x5F | InvalidResourceId => 0x60
  | InvalidStopInterfaceRequest => 0x61 | HsmBootTimeout => 0x62
  | AesGcmTagCorrectionFailed => 0x63 | InvalidAesGcmUnalignedDataPtr => 0x64
  | InvalidSourcePfn => 0x65
  end.

(** [From<AdminErr> for u32], with the number of the component. *)
Definition McrComponent_Admin : Z := 0x0B.
Definition to_u32 (e : t) : Z := Z.lor (Z.shiftl McrComponent_Admin 16) (literal e).

(** [CmdFsmError::pending]. *)
Definition pending (e : t) : bool := bool_decide (e = Pending).
End AdminErr.

(** ** Host status codes *)

Module AdminHostStatus.
Definition GENERIC : Z := 0x0.
Definition GENERIC_DNR : Z := 0x40.
Definition COMMAND_SPECIFC_DNR : Z := 0x41.

Definition host_status_code (ty code : Z) : Z := Z.lor (wrap 16 (Z.shiftl ty 8)) code.

(** [HostStatusCode], an open enumeration of 16 bits. *)
Definition Success : Z := host_status_code GENERIC 0x00.
Definition InvalidCommandOpCode : Z := host_status_code GENERIC_DNR 0x01.
Definition InvalidFieldInCommand : Z := host_status_code GENERIC_DNR 0x02.
Definition DataTransferError : Z := host_status_code GENERIC_DNR 0x04.
Definition InternalError : Z := host_status_code GENERIC_DNR 0x07.
Definition InvalidCqId : Z := host_status_code COMMAND_SPECIFC_DNR 0x00.
Definition InvalidQueueId : Z := host_status_code COMMAND_SPECIFC_DNR 0x01.
Definition InvalidQueueSize : Z := host_status_code COMMAND_SPECIFC_DNR 0x02.
Definition InvalidInterruptVector : Z := host_status_code COMMAND_SPECIFC_DNR 0x08.
Definition InvalidQueueDelete : Z := host_status_code COMMAND_SPECIFC_DNR 0x0C.
Definition FeatureNotSaveable : Z := host_status_code COMMAND_SPECIFC_DNR 0x0D.
Definition InvalidResourceCnt : Z := host_status_code COMMAND_SPECIFC_DNR 0xC0.

(** [From<u16> for HostStatusCode]. *)
Definition from_u16 (value : Z) : Z :=
  if bool_decide (value ∈ [InvalidCommandOpCode; InvalidFieldInCommand; DataTransferError;
                           InvalidCqId; InvalidQueueId; InvalidQueueSize; InvalidQueueDelete;
                           FeatureNotSaveable; InvalidResourceCnt; Success])
  then value else InternalError.

(** [From<AdminErr> for HostStatusCode]. *)
Definition from_admin_err (e : AdminErr.t) : Z :=
  match e with
  | AdminErr.SqeUnknownOp | AdminErr.InvalidSetResCmd | AdminErr.InvalidFeatureId =>
      InvalidCommandOpCode
  | AdminErr.InvalidCntrlIdFieldInSqe | AdminErr.InvalidResCountFieldInSqe
  | AdminErr.InvalidFieldInGetSetFeaturesCmd | AdminErr.InvalidSourcePfn => InvalidFieldInCommand
  | AdminErr.DmaOutError | AdminErr.DmaStartError | AdminErr.DmaEndErr
  | AdminErr.DmaTagMismatch | AdminErr.DmaCompletionEmpty => DataTransferError
  | AdminErr.HostCompletionQueueNotFound | AdminErr.InvalidQueueId => InvalidQueueId
  | AdminErr.InvalidHostCq => InvalidCqId
  | AdminErr.InvalidQueueDelete => InvalidQueueDelete
  | AdminErr.InvalidQueueSize => InvalidQueueSize
  | AdminErr.InvalidInterruptVector => InvalidInterruptVector
  | _ => InternalError
  end.
End AdminHostStatus.
