(* ===== verification/Queues.v ===== *)
(** * PCIe functions, queue identifiers and function resources
      (types/src/pcie.rs, queues.rs, resource.rs; drivers/queue/src/lib.rs)

    The identifiers are open enumerations over machine integers: any value of
    the width can occur, and [unreachable!()] is a panic.  A [Resource] is a
    group of six queues (three submission, three completion) that belongs to
    at most one PCIe function; [FunctionResourceLayout] computes where a host
    queue lives. *)

From stdpp Require Import base list numbers option.
From S2P Require Import Prelude Crates.

Local Open Scope Z_scope.

(** ** PCIe functions and queue controllers *)

Module Pcie.
Definition MAX_PCIE_FUNCTIONS : nat := 65.
(** [PcieFunction]: [Vf n = n] and [Pf = 64], in 8 bits. *)
Definition Pf : Z := 64.
Definition PCIE_PF_FUNCTION_ID : Z := 64.

(** [TryFrom<u8> for PcieFunction]. *)
Definition try_from_u8 (value : Z) : outcome Z Z :=
  if bool_decide (0 ≤ value ≤ PCIE_PF_FUNCTION_ID) then Ok value else Err (2 ^ 32 - 1).

(** [PcieFunction::iter]: [PcieFnIter::next] until the conversion fails; the
    counter has 8 bits, and the fuel is the number of its values. *)
Fixpoint iter_from (fuel : nat) (val : Z) : list Z :=
  match fuel with
  | O => []
  | S fuel =>
      match try_from_u8 val with
      | Ok pfn => pfn :: iter_from fuel (wrap 8 (val + 1))
      | _ => []
      end
  end.
Definition iter : list Z := iter_from 256 0.

(** [QueueControllerErr] as 32-bit codes. *)
Definition McrComponent_QueueController : Z := 0x03.
Definition QueueControllerErr (code : Z) : Z := Z.lor (Z.shiftl McrComponent_QueueController 16) code.
Definition DeviceSqResetRequestTimeout : Z := QueueControllerErr 0x1.
Definition DeviceCqResetRequestTimeout : Z := QueueControllerErr 0x2.
Definition InvalidConversionFromU32 : Z := QueueControllerErr 0x3.
Definition InvalidConversionFromPcieFunction : Z := QueueControllerErr 0x4.

(** [QueueCntrlId]: [Pf = 0], [Vf n = n + 1]. *)
Definition cntrl_of_pfn (pfn : Z) : outcome Z Z :=
  if decide (pfn = Pf) then Ok 0
  else if decide (0 ≤ pfn < 64) then Ok (pfn + 1)
  else Err InvalidConversionFromPcieFunction.
Definition pfn_of_cntrl (id : Z) : Z := if decide (id = 0) then Pf else id - 1.

(** [TryFrom<u32> for QueueCntrlId]. *)
Definition cntrl_try_from_u32 (value : Z) : outcome Z Z :=
  if bool_decide (0 ≤ value ≤ 64) then Ok value else Err InvalidConversionFromU32.
End Pcie.

(** ** Host queues *)

Module Queue.
Definition ADMIN_QUEUE_ID : Z := 0.
Definition HSM_QUEUE_START_ID : Z := 1.
Definition HSM_QUEUE_END_ID : Z := 255.
Definition FP_65TH_RESOURCE_HI_PRIO_DEV_QUEUE : Z := 64.
Definition FP_65TH_RESOURCE_LO_PRIO_DEV_QUEUE : Z := 129.

Inductive QueueGroup := Group0 | Group1.
#[global] Instance QueueGroup_eq_dec : EqDecision QueueGroup.
Proof. solve_decision. Defined.

Inductive HostQueueType := Admin | Hsm | Fp.
#[global] Instance HostQueueType_eq_dec : EqDecision HostQueueType.
Proof. solve_decision. Defined.

(** [From<HostSqId>] and [From<HostCqId> for HostQueueType]. *)
Definition host_queue_type (id : Z) : HostQueueType :=
  if decide (id = ADMIN_QUEUE_ID) then Admin
  else if decide (HSM_QUEUE_START_ID ≤ id ≤ HSM_QUEUE_END_ID) then Hsm
  else Fp.

(** [HostSqId::credit]. *)
Definition credit (id : Z) : Z :=
  if decide (id = ADMIN_QUEUE_ID) then 1
  else if decide (HSM_QUEUE_START_ID ≤ id ≤ HSM_QUEUE_END_ID) then 1
  else 4.

(** [queue_group_and_channel] of both host queue types. *)
Definition queue_group_and_channel (host dev : Z) : QueueGroup * Z :=
  if decide (host = ADMIN_QUEUE_ID) then (Group0, 2)
  else if decide (HSM_QUEUE_START_ID ≤ host ≤ HSM_QUEUE_END_ID) then (Group0, 3)
  else if decide (dev = FP_65TH_RESOURCE_HI_PRIO_DEV_QUEUE ∨ dev = FP_65TH_RESOURCE_LO_PRIO_DEV_QUEUE)
  then (Group1, 1)
  else (Group1, 0).

Definition group (host dev : Z) : QueueGroup := fst (queue_group_and_channel host dev).
End Queue.

(** ** [FunctionResourceLayout] *)

Module Layout.
Definition MAX_FUNCTION_RESOURCES : Z := 65.
Definition HSM_HOST_QUEUE_START_ID : Z := 1.
Definition HSM_HOST_QUEUE_END_ID : Z := MAX_FUNCTION_RESOURCES.
Definition FP_HOST_QUEUE_START_ID : Z := 256.
Definition FP_HOST_QUEUE_END_ID : Z := FP_HOST_QUEUE_START_ID + MAX_FUNCTION_RESOURCES * 2 - 1.

(** The two implementations of the trait: [HostSqId] and [HostCqId]. *)
Inductive kind := Sq | Cq.
#[global] Instance kind_eq_dec : EqDecision kind.
Proof. solve_decision. Defined.

Definition OFFSET (k : kind) : nat := match k with Sq => 0 | Cq => 3 end.
Definition LEN : nat := 3.

Section layout.
Context {E : Type}.

Definition offset (k : kind) (id : Z) : outcome E nat :=
  match Queue.host_queue_type id with
  | Queue.Hsm => Ok (OFFSET k)
  | Queue.Fp => if decide (id mod 2 = 0) then Ok (OFFSET k + 1)%nat else Ok (OFFSET k + 2)%nat
  | Queue.Admin => Panic
  end.

Definition device_id (id resource_id : Z) : outcome E Z :=
  match Queue.host_queue_type id with
  | Queue.Hsm => Ok (wrap 8 (resource_id + MAX_FUNCTION_RESOURCES))
  | Queue.Fp =>
      if decide (id mod 2 = 0) then Ok resource_id
      else Ok (wrap 8 (resource_id + MAX_FUNCTION_RESOURCES))
  | Queue.Admin => Panic
  end.

Definition res_index (id : Z) : outcome E (option nat) :=
  match Queue.host_queue_type id with
  | Queue.Hsm =>
      if decide (HSM_HOST_QUEUE_START_ID ≤ id ∧ id ≤ HSM_HOST_QUEUE_END_ID)
      then Ok (Some (Z.to_nat (id - HSM_HOST_QUEUE_START_ID))) else Ok None
  | Queue.Fp =>
      if decide (FP_HOST_QUEUE_START_ID ≤ id ∧ id ≤ FP_HOST_QUEUE_END_ID)
      then Ok (Some (Z.to_nat ((id - FP_HOST_QUEUE_START_ID) / 2))) else Ok None
  | Queue.Admin => Panic
  end.

Definition host_queue_id (res_index offset : nat) : outcome E Z :=
  match offset with
  | 0%nat | 3%nat => Ok (wrap 16 (HSM_HOST_QUEUE_START_ID + wrap 16 (Z.of_nat res_index)))
  | 1%nat | 4%nat =>
      Ok (wrap 16 (FP_HOST_QUEUE_START_ID + wrap 16 (wrap 16 (Z.of_nat res_index) * 2)))
  | 2%nat | 5%nat =>
      Ok (wrap 16 (FP_HOST_QUEUE_START_ID + 1 + wrap 16 (wrap 16 (Z.of_nat res_index) * 2)))
  | _ => Panic
  end.
End layout.
End Layout.

(** ** [Resource] *)

Module Res.
Import Layout.

Record Resource := mkResource { pfn : option Z; alloc_map : Z; id : Z }.

Definition set_pfn (p : option Z) (r : Resource) : Resource := mkResource p (alloc_map r) (id r).
Definition set_map (m : Z) (r : Resource) : Resource := mkResource (pfn r) m (id r).

(** [Resource::reset]. *)
Definition reset (r : Resource) : Resource := set_map 0 r.

(** [owner_pfn_as_bytes]. *)
Definition owner_pfn_as_bytes (r : Resource) : list Z :=
  match pfn r with Some value => [1; value] | None => [0; 0] end.

Section ops.
Context `{BC : BitCrate} {E : Type}.

(** [alloc_cq], [alloc_sq]. *)
Definition alloc (k : kind) (queue_id : Z) (r : Resource) : outcome E (option Z * Resource) :=
  o ← offset k queue_id;
  if bit (alloc_map r) o then Ok (None, r)
  else
    let r := set_map (set_bit 8 (alloc_map r) o true) r in
    d ← device_id queue_id (id r);
    Ok (Some d, r).
Definition alloc_cq := alloc Cq.
Definition alloc_sq := alloc Sq.

(** [free_cq], [free_sq]. *)
Definition free (k : kind) (queue_id : Z) (r : Resource) : outcome E (option Z * Resource) :=
  o ← offset k queue_id;
  if bit (alloc_map r) o then
    let r := set_map (set_bit 8 (alloc_map r) o false) r in
    d ← device_id queue_id (id r);
    Ok (Some d, r)
  else Ok (None, r).
Definition free_cq := free Cq.
Definition free_sq := free Sq.

(** [dev_cq], [dev_sq], [enabled]. *)
Definition dev (k : kind) (queue_id : Z) (r : Resource) : outcome E (option Z) :=
  o ← offset k queue_id;
  if bit (alloc_map r) o then d ← device_id queue_id (id r); Ok (Some d) else Ok None.
Definition dev_cq := dev Cq.
Definition dev_sq := dev Sq.

Definition enabled (k : kind) (queue_id : Z) (r : Resource) : outcome E bool :=
  o ← offset k queue_id; Ok (bit (alloc_map r) o).

(** [host_cq_list], [host_sq_list]: the loop over the offsets of the kind. *)
Fixpoint list_from (r : Resource) (res_index : nat) (offsets : list nat) : outcome E (list Z) :=
  match offsets with
  | [] => Ok []
  | o :: offsets =>
      if bit (alloc_map r) o then
        h ← host_queue_id res_index o;
        l ← list_from r res_index offsets;
        Ok (h :: l)
      else list_from r res_index offsets
  end.
Definition host_list (k : kind) (res_index : nat) (r : Resource) : outcome E (list Z) :=
  list_from r res_index (seq (OFFSET k) LEN).
Definition host_cq_list := host_list Cq.
Definition host_sq_list := host_list Sq.

(** [host_cq], [host_sq]: the first enabled queue. *)
Fixpoint first_from (r : Resource) (res_index : nat) (offsets : list nat) : outcome E (option Z) :=
  match offsets with
  | [] => Ok None
  | o :: offsets =>
      if bit (alloc_map r) o then h ← host_queue_id res_index o; Ok (Some h)
      else first_from r res_index offsets
  end.
Definition host_first (k : kind) (res_index : nat) (r : Resource) : outcome E (option Z) :=
  first_from r res_index (seq (OFFSET k) LEN).
Definition host_cq := host_first Cq.
Definition host_sq := host_first Sq.
End ops.
End Res.
