(* ===== verification/Crc32.v ===== *)
(** * CRC-32 (admin/src/function/mod.rs)

    [TinyCrc32] protects the table of resource owners in memory and the
    context of a live migration.  The theorem is the guarantee the code
    relies on: a damage of up to four consecutive bytes never passes. *)

From stdpp Require Import base list numbers.
From S2P Require Import Prelude.

Local Open Scope Z_scope.

Module Crc.
(** [TinyCrc32::new]. *)
Definition init : Z := unot 32 0.

(** One round of the inner loop of [update]. *)
Definition round (crc : Z) : Z :=
  if negb (Z.land crc 1 =? 0) then Z.lxor (Z.shiftr crc 1) 0xEDB88320 else Z.shiftr crc 1.

Definition update_byte (crc byte : Z) : Z := Nat.iter 8 round (Z.lxor crc byte).

(** [TinyCrc32::update]. *)
Definition update (crc : Z) (data : list Z) : Z := foldl update_byte crc data.

(** [TinyCrc32::finalize]. *)
Definition finalize (crc : Z) : Z := unot 32 crc.

(** [TinyCrc32::checksum]. *)
Definition checksum (crc : Z) (data : list Z) : Z := finalize (update crc data).
End Crc.


(** ** The rounds are linear and injective *)

Abbreviation u32_ok := (uint_range 32).

Lemma round_odd x : Crc.round x = if Z.odd x then Z.lxor (Z.shiftr x 1) 0xEDB88320 else Z.shiftr x 1.
Proof.
  unfold Crc.round. rewrite <-Z.bit0_odd.
  assert (Z.land x 1 = Z.b2z (Z.testbit x 0)) as ->.
  { change 1 with (Z.ones 1). rewrite Z.land_ones by lia. change (2 ^ 1) with 2.
    by rewrite Zmod_odd, <-Z.bit0_odd. }
  by destruct (Z.testbit x 0).
Qed.

Lemma round_lxor a b : Crc.round (Z.lxor a b) = Z.lxor (Crc.round a) (Crc.round b).
Proof.
  rewrite !round_odd, Z.shiftr_lxor.
  rewrite <-!Z.bit0_odd, Z.lxor_spec.
  destruct (Z.testbit a 0), (Z.testbit b 0); simpl.
  all: apply Z.bits_inj'; intros n Hn; rewrite ?Z.lxor_spec.
  all: by repeat match goal with |- context [Z.testbit ?x ?m] => destruct (Z.testbit x m) end.
Qed.

Lemma shiftr_range x : u32_ok x → 0 ≤ Z.shiftr x 1 < 2 ^ 31.
Proof. unfold uint_range. intros Hx. rewrite Z.shiftr_div_pow2 by lia.
  split; [apply Z.div_pos; lia|apply Z.div_lt_upper_bound; lia].
Qed.

Lemma round_range x : u32_ok x → u32_ok (Crc.round x).
Proof.
  intros Hx. pose proof (shiftr_range x Hx). rewrite round_odd.
  destruct (Z.odd x); [apply lxor_range; [lia|..]|]; unfold uint_range; lia.
Qed.

Lemma round_zero x : u32_ok x → Crc.round x = 0 → x = 0.
Proof.
  intros Hx. pose proof (shiftr_range x Hx) as Hs. rewrite round_odd.
  destruct (Z.odd x) eqn:Ho; intros Hr.
  - apply Z.lxor_eq in Hr. lia.
  - rewrite Z.shiftr_div_pow2 in Hr by lia. change (2 ^ 1) with 2 in Hr.
    pose proof (Z.div_mod x 2). rewrite Zmod_odd, Ho in *. lia.
Qed.

Lemma rounds_lxor n a b :
  Nat.iter n Crc.round (Z.lxor a b) = Z.lxor (Nat.iter n Crc.round a) (Nat.iter n Crc.round b).
Proof. induction n as [|n IH]; simpl; [done|]. by rewrite IH, round_lxor. Qed.

Lemma rounds_range n x : u32_ok x → u32_ok (Nat.iter n Crc.round x).
Proof. induction n; simpl; auto using round_range. Qed.

Lemma rounds_inj n a b :
  u32_ok a → u32_ok b → Nat.iter n Crc.round a = Nat.iter n Crc.round b → a = b.
Proof.
  intros Ha Hb Hab. apply Z.lxor_eq.
  assert (Nat.iter n Crc.round (Z.lxor a b) = 0) as H0 by (by rewrite rounds_lxor, Hab, Z.lxor_nilpotent).
  assert (u32_ok (Z.lxor a b)) as Hx by (by apply lxor_range). revert H0. clear Hab.
  induction n as [|n IH]; simpl; [done|].
  intros H0. apply round_zero in H0; [by apply IH|by apply rounds_range].
Qed.

(** Rounds over zero bits only shift. *)
Lemma rounds_shift n v : 0 ≤ v → Nat.iter n Crc.round (Z.shiftl v (Z.of_nat n)) = v.
Proof.
  intros Hv. induction n as [|n IH]; [apply Z.shiftl_0_r|].
  rewrite Nat.iter_succ_r, round_odd.
  assert (Z.odd (Z.shiftl v (Z.of_nat (S n))) = false) as ->.
  { rewrite <-Z.bit0_odd. apply Z.shiftl_spec_low. lia. }
  rewrite Z.shiftr_shiftl_l by lia. replace (Z.of_nat (S n) - 1) with (Z.of_nat n) by lia. done.
Qed.

(** ** Updates *)

Lemma byte_u32 b : uint_range 8 b → u32_ok b.
Proof. unfold uint_range. lia. Qed.

Lemma update_byte_range c b : u32_ok c → uint_range 8 b → u32_ok (Crc.update_byte c b).
Proof. intros Hc Hb. by apply rounds_range, lxor_range, byte_u32. Qed.

Lemma update_range c d : u32_ok c → Forall (uint_range 8) d → u32_ok (Crc.update c d).
Proof.
  intros Hc Hd. revert c Hc. induction Hd as [|b d Hb Hd IH]; intros c Hc; [done|].
  apply IH. by apply update_byte_range.
Qed.

(** Chunks may be fed one after the other. *)
Lemma update_app c d1 d2 : Crc.update c (d1 ++ d2) = Crc.update (Crc.update c d1) d2.
Proof. apply foldl_app. Qed.

Lemma update_inj d c1 c2 :
  u32_ok c1 → u32_ok c2 → Forall (uint_range 8) d → Crc.update c1 d = Crc.update c2 d → c1 = c2.
Proof.
  intros H1 H2 Hd. revert c1 c2 H1 H2. induction Hd as [|b d Hb Hd IH]; intros c1 c2 H1 H2; [done|].
  simpl. intros He. apply IH in He; [|by apply update_byte_range..].
  apply rounds_inj in He; [|by apply lxor_range, byte_u32..].
  rewrite <-(Z.lxor_0_r c1), <-(Z.lxor_0_r c2), <-(Z.lxor_nilpotent b), <-!Z.lxor_assoc.
  by rewrite He.
Qed.

(** Up to four bytes act as one word. *)
Lemma update_word w c :
  (length w ≤ 4)%nat → u32_ok c → Forall (uint_range 8) w →
  Crc.update c w = Nat.iter (8 * length w) Crc.round (Z.lxor c (from_le_bytes w)).
Proof.
  intros Hl Hc Hw. revert c Hc Hl. induction Hw as [|b w Hb Hw IH]; intros c Hc Hl.
  { simpl. by rewrite Z.lxor_0_r. }
  cbn [length] in *. change (Crc.update c (b :: w)) with (Crc.update (Crc.update_byte c b) w).
  rewrite IH by (lia || by apply update_byte_range).
  set (v := from_le_bytes w). assert (0 ≤ v) as Hv by (apply from_le_bytes_range in Hw; apply Hw).
  assert (Z.lxor c (from_le_bytes (b :: w)) = Z.lxor (Z.lxor c b) (Z.shiftl v 8)) as ->.
  { cbn [from_le_bytes]. fold v. rewrite Z.lxor_assoc. f_equal.
    rewrite <-Z.add_nocarry_lxor.
    - rewrite Z.shiftl_mul_pow2 by lia. change (2 ^ 8) with 256. lia.
    - apply Z.bits_inj'. intros n Hn. rewrite Z.land_spec, Z.bits_0.
      destruct (decide (n < 8)).
      + rewrite (Z.shiftl_spec_low v 8 n) by lia. apply andb_false_r.
      + rewrite (testbit_above 8 b) by (done || lia). done. }
  replace (8 * S (length w))%nat with (8 * length w + 8)%nat by lia.
  rewrite Nat.iter_add, (rounds_lxor 8). f_equal. f_equal.
  symmetry. apply (rounds_shift 8). done.
Qed.

Lemma unot_inj a b : u32_ok a → u32_ok b → unot 32 a = unot 32 b → a = b.
Proof.
  intros Ha Hb He. apply Z.bits_inj'. intros n Hn. destruct (decide (n < 32)).
  - apply (f_equal (λ x, Z.testbit x n)) in He. rewrite !testbit_unot in He by lia.
    by destruct (Z.testbit a n), (Z.testbit b n).
  - by rewrite !(testbit_above 32) by (done || lia).
Qed.

Lemma init_range : u32_ok Crc.init.
Proof. by vm_compute. Qed.

(** Error detection of [TinyCrc32].  Two data of which one is the other with
    up to four consecutive bytes replaced by different ones have different
    checksums, wherever the damage is and however long the data; and feeding
    the data in chunks gives the checksum of the whole. *)
Theorem crc32_detects_bursts pre w1 w2 post :
  Forall (uint_range 8) (pre ++ w1 ++ w2 ++ post) → length w1 = length w2 → (length w1 ≤ 4)%nat →
  w1 ≠ w2 →
  Crc.checksum Crc.init (pre ++ w1 ++ post) ≠ Crc.checksum Crc.init (pre ++ w2 ++ post) ∧
  Crc.checksum Crc.init (pre ++ w1 ++ post) =
    Crc.finalize (Crc.update (Crc.update (Crc.update Crc.init pre) w1) post).
Proof.
  rewrite !Forall_app. intros (Hp & H1 & H2 & Hq) Hl Hl4 Hne.
  unfold Crc.checksum. rewrite !update_app. split; [|done].
  set (c := Crc.update Crc.init pre). assert (u32_ok c) as Hc by (apply update_range; [apply init_range|done]).
  intros He. apply unot_inj in He; [|by repeat apply update_range..].
  apply update_inj in He; [|by apply update_range..|done].
  rewrite !update_word in He by (done || lia). rewrite Hl in He.
  assert (∀ w, Forall (uint_range 8) w → (length w ≤ 4)%nat → u32_ok (from_le_bytes w)) as Hw.
  { intros w Hw Hlw. apply from_le_bytes_range in Hw. unfold uint_range in *.
    pose proof (Z.pow_le_mono_r 2 (8 * Z.of_nat (length w)) 32). lia. }
  apply rounds_inj in He; [|apply lxor_range; try done; apply Hw; (done || lia)..].
  assert (from_le_bytes w1 = from_le_bytes w2) as Hv.
  { rewrite <-(Z.lxor_0_l (from_le_bytes w1)), <-(Z.lxor_0_l (from_le_bytes w2)).
    rewrite <-(Z.lxor_nilpotent c), !Z.lxor_assoc. by rewrite He. }
  apply Hne. rewrite <-(to_from_le_bytes w1), <-(to_from_le_bytes w2) by done. by rewrite Hv, Hl.
Qed.

Lemma crc32_detects_bursts_witness :
  Crc.checksum Crc.init [0x31; 0x32; 0x33; 0x34] ≠ Crc.checksum Crc.init [0x31; 0x00; 0xFF; 0x34].
Proof.
  apply (crc32_detects_bursts [0x31] [0x32; 0x33] [0x00; 0xFF] [0x34]); [|done|simpl; lia|done].
  repeat constructor; done.
Defined.

(** The published check value of CRC-32. *)
Example crc32_check_value :
  Crc.checksum Crc.init [0x31; 0x32; 0x33; 0x34; 0x35; 0x36; 0x37; 0x38; 0x39] = 0xCBF43926.
Proof. reflexivity. Qed.
