(* ===== verification/PcieFunctions.v ===== *)
(** * PCIe functions of the admin application
      (admin/src/function: admin_queue.rs, func.rs, mgr.rs; types/src/lm.rs)

    The function manager owns the 65 PCIe functions and the table of
    resources; a function creates and deletes the queues of its resources
    through its queue controller, and saves and restores them for live
    migration.  [Function], [AdminQueue] and the table are shared through
    [Rc<RefCell>]: the state [World] holds them once, functions by number and
    admin queues by an index into [queues], so every clone sees an update.
    The queue controller is the trait [QueueControllerTrait], a class here. *)

From stdpp Require Import base list numbers option.
From S2P Require Import Prelude Crates Wire AdminError Queues Crc32.

Local Open Scope Z_scope.

(** ** Live migration information *)

Module Lm.
Definition MASKED_BK_BOOT_SIZE : nat := 300.
Definition SEALED_BK3_SIZE : nat := 512.
Definition IO_QUEUES : nat := 195.

Record MemoryAddr := mkAddr { lo : Z; hi : Z }.
Definition MemoryAddr_wire : wire MemoryAddr :=
  record (wpair u32 u32) (λ '(a, b), mkAddr a b) (λ m, (lo m, hi m)).

Record LmSqInfo := mkSqInfo {
  sq_id : Z; sq_len : Z; sq_cq_id : Z; sq_rsvd : Z; sq_addr : MemoryAddr; sq_head : Z; sq_tail : Z
}.
Definition LmSqInfo_wire : wire LmSqInfo :=
  record (wpair u16 (wpair u16 (wpair u16 (wpair u16 (wpair MemoryAddr_wire (wpair u16 u16))))))
    (λ '(a, (b, (c, (d, (e, (f, g)))))), mkSqInfo a b c d e f g)
    (λ i, (sq_id i, (sq_len i, (sq_cq_id i, (sq_rsvd i, (sq_addr i, (sq_head i, sq_tail i))))))).

(** [attr] is the bit field [LmCqAttributes]. *)
Record LmCqInfo := mkCqInfo {
  cq_id : Z; cq_len : Z; cq_addr : MemoryAddr; cq_attr : Z; cq_iv : Z; cq_head : Z; cq_tail : Z
}.
Definition LmCqInfo_wire : wire LmCqInfo :=
  record (wpair u16 (wpair u16 (wpair MemoryAddr_wire (wpair u16 (wpair u16 (wpair u16 u16))))))
    (λ '(a, (b, (c, (d, (e, (f, g)))))), mkCqInfo a b c d e f g)
    (λ i, (cq_id i, (cq_len i, (cq_addr i, (cq_attr i, (cq_iv i, (cq_head i, cq_tail i))))))).

Record LmVersionInfo := mkVersion { minor : Z; major : Z }.
Definition LmVersionInfo_wire : wire LmVersionInfo :=
  record (wpair u16 u16) (λ '(a, b), mkVersion a b) (λ v, (minor v, major v)).

Record ControllerLmInfo := mkCntrlInfo {
  ci_version : Z; ci_ivms : Z; ci_configuration : Z; ci_aq_attr : Z; ci_asq_addr_lo : Z;
  ci_asq_addr_hi : Z; ci_acq_addr_lo : Z; ci_acq_addr_hi : Z; ci_memory_buffer_location : Z;
  ci_memory_buffer_size : Z
}.
Definition ControllerLmInfo_wire : wire ControllerLmInfo :=
  record (wpair u32 (wpair u32 (wpair u32 (wpair u32 (wpair u32 (wpair u32 (wpair u32 (wpair u32
            (wpair u32 u32)))))))))
    (λ '(a, (b, (c, (d, (e, (f, (g, (h, (i, j))))))))), mkCntrlInfo a b c d e f g h i j)
    (λ i, (ci_version i, (ci_ivms i, (ci_configuration i, (ci_aq_attr i, (ci_asq_addr_lo i,
            (ci_asq_addr_hi i, (ci_acq_addr_lo i, (ci_acq_addr_hi i, (ci_memory_buffer_location i,
              ci_memory_buffer_size i)))))))))).

(** [MaskedBkBoot] and [SealedBk3]: a length and the data. *)
Record Blob := mkBlob { b_len : Z; b_data : list Z }.
Definition blob_wire (n : nat) : wire Blob :=
  record (wpair u32 (array n u8)) (λ '(a, b), mkBlob a b) (λ x, (b_len x, b_data x)).
Definition MaskedBkBoot_wire : wire Blob := blob_wire MASKED_BK_BOOT_SIZE.
Definition SealedBk3_wire : wire Blob := blob_wire SEALED_BK3_SIZE.

Record VmLiveMigrationInfo := mkLm {
  version : LmVersionInfo; resource_cnt : Z; sq_cnt : Z; cq_cnt : Z;
  cntrl_info : ControllerLmInfo; admin_cq_info : LmCqInfo; admin_sq_info : LmSqInfo;
  io_cq_info : list LmCqInfo; io_sq_info : list LmSqInfo; session_allocation_mask : Z;
  reserved : list Z; masked_bk_boot : Blob; sealed_bk3 : Blob; crc : Z
}.
Definition VmLiveMigrationInfo_wire : wire VmLiveMigrationInfo :=
  record
    (wpair LmVersionInfo_wire (wpair u32 (wpair u16 (wpair u16 (wpair ControllerLmInfo_wire
      (wpair LmCqInfo_wire (wpair LmSqInfo_wire (wpair (array IO_QUEUES LmCqInfo_wire)
        (wpair (array IO_QUEUES LmSqInfo_wire) (wpair u8 (wpair (array 3 u8)
          (wpair MaskedBkBoot_wire (wpair SealedBk3_wire u32)))))))))))))
    (λ '(a, (b, (c, (d, (e, (f, (g, (h, (i, (j, (k, (l, (m, n))))))))))))),
       mkLm a b c d e f g h i j k l m n)
    (λ x, (version x, (resource_cnt x, (sq_cnt x, (cq_cnt x, (cntrl_info x, (admin_cq_info x,
            (admin_sq_info x, (io_cq_info x, (io_sq_info x, (session_allocation_mask x,
              (reserved x, (masked_bk_boot x, (sealed_bk3 x, crc x)))))))))))))).

Definition set_crc (c : Z) (x : VmLiveMigrationInfo) : VmLiveMigrationInfo :=
  mkLm (version x) (resource_cnt x) (sq_cnt x) (cq_cnt x) (cntrl_info x) (admin_cq_info x)
    (admin_sq_info x) (io_cq_info x) (io_sq_info x) (session_allocation_mask x) (reserved x)
    (masked_bk_boot x) (sealed_bk3 x) c.

(** [TinyCrc32::new().checksum(lm_info.as_bytes())]. *)
Definition lm_checksum (x : VmLiveMigrationInfo) : Z :=
  Crc.checksum Crc.init (as_bytes VmLiveMigrationInfo_wire x).
End Lm.
Import Lm.

(** ** The queue controller *)

Record QueueMem := mkQueueMem { qm_addr : MemoryAddr; qm_len : Z }.

(** [QueueControllerTrait]; the first argument is the controller's id, device
    and host queue ids follow. *)
Class QueueController := {
  hw : Type;
  qc_enabled : Z → hw → bool;
  qc_ready : Z → hw → bool;
  qc_enable : Z → hw → hw;
  qc_disable : Z → hw → hw;
  qc_clear_enable : Z → hw → hw;
  qc_set_enable : Z → hw → hw;
  qc_reset : Z → hw → hw;
  qc_create_asq : Z → Z → Z → M hw Z ();
  qc_create_acq : Z → Z → Z → M hw Z ();
  qc_create_sq : Z → Z → Z → QueueMem → M hw Z ();
  qc_delete_sq : Z → Z → Z → hw → hw;
  qc_create_cq : Z → Z → Z → QueueMem → option Z → M hw Z ();
  qc_delete_cq : Z → Z → Z → hw → hw;
  qc_set_cfs : Z → hw → hw;
  qc_host_register_info : Z → hw → ControllerLmInfo;
  qc_restore_host_register_info : Z → ControllerLmInfo → hw → hw;
  qc_sq_info : Z → Z → Z → hw → LmSqInfo;
  qc_restore_sq_info : Z → Z → LmSqInfo → M hw Z ();
  qc_cq_info : Z → Z → Z → hw → LmCqInfo;
  qc_restore_cq_info : Z → Z → LmCqInfo → M hw Z ();
  qc_enable_sq : Z → Z → Z → hw → hw;
  qc_disable_sq : Z → Z → Z → hw → hw
}.

(** [CntrlStateChangeAction]. *)
Inductive CntrlStateChangeAction := Enable | Disable | Migrate | Invalid.

(** [AdminQueueImpl]. *)
Record AdminQueue := mkAdminQueue { aq_sq_id : Z; aq_cq_id : Z; aq_valid : bool }.
Definition AdminQueue_new (sq_id cq_id : Z) : AdminQueue := mkAdminQueue sq_id cq_id true.
Definition AdminQueue_invalidate (q : AdminQueue) : AdminQueue :=
  mkAdminQueue (aq_sq_id q) (aq_cq_id q) false.

(** [FunctionImpl]; the admin queue is an index into [queues]. *)
Record FunctionImpl := mkFunction {
  f_cntrl : Z; f_admin_queue : option nat; f_res_cnt : Z; f_pfn : Z
}.

Section world.
Context `{QC : QueueController}.

(** The shared state; [crc_cell] is the [VolatileCell] of the table's CRC. *)
Record World := mkWorld {
  funcs : list FunctionImpl; resources : list Res.Resource; queues : list AdminQueue;
  crc_cell : Z; free_resource_cnt : Z; device : hw
}.

Definition with_funcs (x : list FunctionImpl) (w : World) : World :=
  mkWorld x (resources w) (queues w) (crc_cell w) (free_resource_cnt w) (device w).
Definition with_resources (x : list Res.Resource) (w : World) : World :=
  mkWorld (funcs w) x (queues w) (crc_cell w) (free_resource_cnt w) (device w).
Definition with_queues (x : list AdminQueue) (w : World) : World :=
  mkWorld (funcs w) (resources w) x (crc_cell w) (free_resource_cnt w) (device w).
Definition with_crc (x : Z) (w : World) : World :=
  mkWorld (funcs w) (resources w) (queues w) x (free_resource_cnt w) (device w).
Definition with_free (x : Z) (w : World) : World :=
  mkWorld (funcs w) (resources w) (queues w) (crc_cell w) x (device w).
Definition with_device (x : hw) (w : World) : World :=
  mkWorld (funcs w) (resources w) (queues w) (crc_cell w) (free_resource_cnt w) x.

(** The resources of a function, in the order of the table. *)
Definition owns (p : Z) (r : Res.Resource) : bool := bool_decide (Res.pfn r = Some p).
Definition owned (p : Z) (l : list Res.Resource) : list Res.Resource :=
  List.filter (owns p) l.

Context {E : Type}.
Abbreviation WM := (M World E).

(** A call of the controller. *)
Definition call (f : hw → hw) : WM () := modify (λ w, with_device (f (device w)) w).
Definition ask {A} (f : hw → A) : WM A := w ← get; mret (f (device w)).

(** [self.funcs[fn_idx]], and an update of the function. *)
Definition func (i : nat) : WM FunctionImpl :=
  w ← get;
  match funcs w !! i with Some f => mret f | None => lift Panic end.
Definition set_func (i : nat) (f : FunctionImpl) : WM () :=
  modify (λ w, with_funcs (<[i := f]> (funcs w)) w).

(** [resources.borrow_mut()[res_index]] under an operation of [Resource]. *)
Definition on_resource {A} (i : nat) (op : Res.Resource → outcome E (A * Res.Resource)) : WM A :=
  w ← get;
  match resources w !! i with
  | Some r =>
      '(a, r) ← lift (op r);
      modify (with_resources (<[i := r]> (resources w)));;
      mret a
  | None => lift Panic
  end.
Definition read_resource {A} (i : nat) (op : Res.Resource → outcome E A) : WM A :=
  w ← get;
  match resources w !! i with Some r => lift (op r) | None => lift Panic end.
End world.

(** ** [FunctionImpl] *)

Module Function.
Section function.
Context `{BC : BitCrate} `{ZZ : Zeroize} `{QC : QueueController}.
Abbreviation AM := (M World AdminErr.t).

(** [cntrl.create_*(..)] with the error mapped by a closure that may touch the
    state. *)
Definition controller {A} (m : M hw Z A) (on_err : AM ()) (e : AdminErr.t) : AM A := λ w,
  match m (device w) with
  | (Ok a, h) => (Ok a, with_device h w)
  | (Panic, h) => (Panic, with_device h w)
  | (Err _, h) => (on_err;; throw e) (with_device h w)
  end.

(** [FunctionImpl::new], with the admin queue created in the shared store. *)
Definition new {E} (cntrl : Z) : M World E FunctionImpl :=
  w ← get;
  let p := Pcie.pfn_of_cntrl cntrl in
  let res_cnt := wrap 32 (Z.of_nat (length (owned p (resources w)))) in
  if qc_ready cntrl (device w) then
    modify (with_queues (queues w ++ [AdminQueue_new cntrl cntrl]));;
    mret (mkFunction cntrl (Some (length (queues w))) res_cnt p)
  else mret (mkFunction cntrl None res_cnt p).

Definition query_state_change (i : nat) : AM CntrlStateChangeAction :=
  f ← func i;
  r ← ask (qc_ready (f_cntrl f));
  e ← ask (qc_enabled (f_cntrl f));
  mret (match r, e with
        | false, true => Enable
        | true, false => Disable
        | _, _ => Invalid
        end).

(** [resource_index]. *)
Definition resource_index (f : FunctionImpl) (queue_id : Z) : AM nat :=
  o ← lift (Layout.res_index queue_id);
  res_index ← lift (ok_or o AdminErr.InvalidQueueId);
  unless (negb (bool_decide (f_res_cnt f ≤ Z.of_nat res_index))) AdminErr.QueueIdOutOfRangeForFunction;;
  w ← get;
  match owned (f_pfn f) (resources w) !! res_index with
  | Some r => mret (Z.to_nat (Res.id r))
  | None => throw AdminErr.ResourceLimitReached
  end.

Definition create_cq (i : nat) (host_cq : Z) (mem : QueueMem) (irq : option Z) : AM () :=
  f ← func i;
  res_index ← resource_index f host_cq;
  d ← on_resource res_index (Res.alloc_cq host_cq);
  dev_cq ← lift (ok_or d AdminErr.CqAlreadyAllocated);
  controller (qc_create_cq (f_cntrl f) dev_cq host_cq mem irq)
    (on_resource res_index (Res.free_cq host_cq);; mret tt)
    AdminErr.CreateCqFailedByQueueController.

Definition delete_cq (i : nat) (host_cq : Z) : AM () :=
  f ← func i;
  res_index ← resource_index f host_cq;
  b ← read_resource res_index (Res.enabled Layout.Sq host_cq);
  unless (negb b) AdminErr.InvalidQueueDelete;;
  d ← on_resource res_index (Res.free_cq host_cq);
  dev_cq ← lift (ok_or d AdminErr.InvalidCompletionQueueIdInDelete);
  call (qc_delete_cq (f_cntrl f) dev_cq host_cq).

(** The device completion queue has the number of the submission queue. *)
Definition create_sq (i : nat) (host_sq host_cq : Z) (mem : QueueMem) : AM (Z * Z) :=
  f ← func i;
  res_index ← resource_index f host_cq;
  b ← read_resource res_index (Res.enabled Layout.Cq host_cq);
  unless b AdminErr.CqNotAvailable;;
  res_index ← resource_index f host_sq;
  d ← on_resource res_index (Res.alloc_sq host_sq);
  dev_sq ← lift (ok_or d AdminErr.SqAlreadyAllocated);
  controller (qc_create_sq (f_cntrl f) dev_sq host_sq mem)
    (on_resource res_index (Res.free_sq host_sq);; mret tt)
    AdminErr.CreateSqFailedByQueueController;;
  mret (dev_sq, dev_sq).

Definition dev_sq (i : nat) (host_sq : Z) : AM Z :=
  f ← func i;
  res_index ← resource_index f host_sq;
  d ← read_resource res_index (Res.dev_sq host_sq);
  lift (ok_or d AdminErr.InvalidSqId).

Definition delete_sq (i : nat) (host_sq : Z) : AM (Z * Z) :=
  f ← func i;
  res_index ← resource_index f host_sq;
  d ← on_resource res_index (Res.free_sq host_sq);
  dev_sq ← lift (ok_or d AdminErr.InvalidSqId);
  call (qc_delete_sq (f_cntrl f) dev_sq host_sq);;
  mret (dev_sq, dev_sq).

(** The loops of [delete_io_queues]: [while let Some(h) = resource.host_sq(..)]
    frees [h] and deletes its device queue.  Each turn clears a bit of the
    allocation map, so the fuel (one more than the bits of the map) is never
    used up; if it were, the result would be [Panic]. *)
Definition delete_queue (k : Layout.kind) (cntrl d h : Z) : hw → hw :=
  match k with Layout.Sq => qc_delete_sq cntrl d h | Layout.Cq => qc_delete_cq cntrl d h end.

Fixpoint free_loop (fuel : nat) (k : Layout.kind) (cntrl : Z) (index : nat)
    (r : Res.Resource) (h : hw) : outcome AdminErr.t (Res.Resource * hw) :=
  match fuel with
  | O => Panic
  | S fuel =>
      o ← Res.host_first k index r;
      match o with
      | None => Ok (r, h)
      | Some q =>
          '(d, r) ← Res.free k q r;
          free_loop fuel k cntrl index r
            (match d with Some d => delete_queue k cntrl d q h | None => h end)
      end
  end.
Definition FREE_FUEL : nat := 9.

(** The loop over the resources of the function; [index] counts them. *)
Fixpoint delete_io_loop (cntrl p : Z) (index : nat) (l : list Res.Resource) (h : hw) :
    outcome AdminErr.t (list Res.Resource * hw) :=
  match l with
  | [] => Ok ([], h)
  | r :: l =>
      if owns p r then
        '(r, h) ← free_loop FREE_FUEL Layout.Sq cntrl index r h;
        '(r, h) ← free_loop FREE_FUEL Layout.Cq cntrl index r h;
        '(l, h) ← delete_io_loop cntrl p (S index) l h;
        Ok (r :: l, h)
      else
        '(l, h) ← delete_io_loop cntrl p index l h;
        Ok (r :: l, h)
  end.

Definition delete_io_queues (f : FunctionImpl) : AM () :=
  w ← get;
  '(l, h) ← lift (delete_io_loop (f_cntrl f) (f_pfn f) 0 (resources w) (device w));
  modify (with_resources l);;
  modify (with_device h).

(** [enable]: its errors are 32-bit codes. *)
Definition enable (i : nat) : M World Z () :=
  f ← func i;
  let c := f_cntrl f in
  (λ w, let '(r, h) := qc_create_acq c c 0 (device w) in (r, with_device h w));;
  (λ w, match qc_create_asq c c 0 (device w) with
        | (Ok _, h) => (Ok tt, with_device h w)
        | (Panic, h) => (Panic, with_device h w)
        | (Err _, h) =>
            (Err (AdminErr.to_u32 AdminErr.AdminSqCreateFailed), with_device (qc_delete_cq c c 0 h) w)
        end);;
  call (qc_enable c);;
  w ← get;
  put (with_queues (queues w ++ [AdminQueue_new c c]) w);;
  set_func i (mkFunction c (Some (length (queues w))) (f_res_cnt f) (f_pfn f)).

(** [disable]: the admin queue is invalidated for every holder. *)
Definition disable (i : nat) : AM () :=
  f ← func i;
  delete_io_queues f;;
  call (qc_delete_sq (f_cntrl f) (f_cntrl f) 0);;
  call (qc_delete_cq (f_cntrl f) (f_cntrl f) 0);;
  call (qc_disable (f_cntrl f));;
  match f_admin_queue f with
  | Some q =>
      set_func i (mkFunction (f_cntrl f) None (f_res_cnt f) (f_pfn f));;
      modify (λ w, with_queues (alter AdminQueue_invalidate q (queues w)) w)
  | None => mret tt
  end.

Definition reset (i : nat) : AM () :=
  f ← func i;
  delete_io_queues f;;
  call (qc_delete_sq (f_cntrl f) (f_cntrl f) 0);;
  call (qc_delete_cq (f_cntrl f) (f_cntrl f) 0);;
  call (qc_reset (f_cntrl f));;
  set_func i (mkFunction (f_cntrl f) (f_admin_queue f) 0 (f_pfn f)).

Definition set_res_cnt (i : nat) (cnt : Z) : AM () :=
  f ← func i; set_func i (mkFunction (f_cntrl f) (f_admin_queue f) cnt (f_pfn f)).
Definition clear_enable (i : nat) : AM () := f ← func i; call (qc_clear_enable (f_cntrl f)).
Definition set_cfs (i : nat) : AM () := f ← func i; call (qc_set_cfs (f_cntrl f)).
Definition complete_live_migration (i : nat) : AM () :=
  f ← func i; call (qc_set_enable (f_cntrl f));; call (qc_enable (f_cntrl f)).
Definition enable_sq (i : nat) (d h : Z) : AM () := f ← func i; call (qc_enable_sq (f_cntrl f) d h).
Definition disable_sq (i : nat) (d h : Z) : AM () := f ← func i; call (qc_disable_sq (f_cntrl f) d h).

(** [res_mask]: 128 bits, in little-endian bytes. *)
Definition res_mask (i : nat) : AM (list Z) :=
  f ← func i;
  w ← get;
  let p := Pcie.pfn_of_cntrl (f_cntrl f) in
  mret (to_le_bytes 16
    (foldl (λ m '(i, r), if owns p r then Z.lor m (wrap 128 (Z.shiftl 1 (Z.of_nat i))) else m) 0
       (imap pair (resources w)))).

(** [get_enabled_sq_info]. *)
Fixpoint enabled_of (r : Res.Resource) (l : list Z) : outcome AdminErr.t (list (Z * Z * Z)) :=
  match l with
  | [] => Ok []
  | h :: l =>
      ds ← Res.dev_sq h r;
      t ← match ds with
          | Some ds => dc ← Res.dev_cq h r;
                       Ok (match dc with Some dc => [(h, ds, dc)] | None => [] end)
          | None => Ok []
          end;
      rest ← enabled_of r l;
      Ok (t ++ rest)
  end.
Fixpoint enabled_sqs (index : nat) (l : list Res.Resource) : outcome AdminErr.t (list (Z * Z * Z)) :=
  match l with
  | [] => Ok []
  | r :: l =>
      hs ← Res.host_sq_list index r;
      here ← enabled_of r hs;
      rest ← enabled_sqs (S index) l;
      Ok (here ++ rest)
  end.
Definition get_enabled_sq_info (i : nat) : AM (list (Z * Z * Z)) :=
  f ← func i;
  w ← get;
  lift (enabled_sqs 0 (owned (f_pfn f) (resources w))).

(** *** Live migration *)

Definition LM_INFO_VER_MAJ : Z := 1.
Definition LM_INFO_VER_MIN : Z := 0.

(** The queue information of one resource: the enabled queues of a kind. *)
Fixpoint infos_of {A} (info : Z → Z → A) (k : Layout.kind) (r : Res.Resource) (l : list Z) :
    outcome AdminErr.t (list A) :=
  match l with
  | [] => Ok []
  | h :: l =>
      d ← Res.dev k h r;
      rest ← infos_of info k r l;
      Ok (match d with Some d => info d h :: rest | None => rest end)
  end.

(** [lm_info.io_sq_info[sq_info_index] = ..; sq_info_index += 1] over the
    entries of a resource, with the bound check of the array. *)
Fixpoint store_infos {A} (arr : list A) (index : nat) (l : list A) :
    outcome AdminErr.t (list A * nat) :=
  match l with
  | [] => Ok (arr, index)
  | a :: l =>
      if decide (index < length arr)%nat then store_infos (<[index := a]> arr) (S index) l else Panic
  end.

(** The loop over the resources of the function. *)
Fixpoint save_loop (c : Z) (h : hw) (index : nat) (l : list Res.Resource)
    (sq : list LmSqInfo) (sqi : nat) (cq : list LmCqInfo) (cqi : nat) :
    outcome AdminErr.t (list LmSqInfo * nat * (list LmCqInfo * nat)) :=
  match l with
  | [] => Ok (sq, sqi, (cq, cqi))
  | r :: l =>
      host_sq_list ← Res.host_sq_list index r;
      si ← infos_of (λ d q, qc_sq_info c d q h) Layout.Sq r host_sq_list;
      '(sq, sqi) ← store_infos sq sqi si;
      host_cq_list ← Res.host_cq_list index r;
      ci ← infos_of (λ d q, qc_cq_info c d q h) Layout.Cq r host_cq_list;
      '(cq, cqi) ← store_infos cq cqi ci;
      save_loop c h (S index) l sq sqi cq cqi
  end.

(** [save_lm_context]: the new content of [lm_info].  The checksum is computed
    while its own field is zero. *)
Definition save_lm_context (i : nat) (lm_info : VmLiveMigrationInfo) (session_mask : Z)
    (bk_boot bk3 : Blob) : AM VmLiveMigrationInfo :=
  f ← func i;
  w ← get;
  let c := f_cntrl f in
  let lm := read_bytes VmLiveMigrationInfo_wire
              (zeroize (Wire.as_bytes VmLiveMigrationInfo_wire lm_info)) in
  '(sq, sqi, (cq, cqi)) ←
    lift (save_loop c (device w) 0 (owned (f_pfn f) (resources w))
            (io_sq_info lm) 0 (io_cq_info lm) 0);
  let lm := mkLm (mkVersion LM_INFO_VER_MIN LM_INFO_VER_MAJ) (f_res_cnt f)
              (wrap 16 (Z.of_nat sqi)) (wrap 16 (Z.of_nat cqi))
              (qc_host_register_info c (device w)) (qc_cq_info c c 0 (device w))
              (qc_sq_info c c 0 (device w)) cq sq session_mask (reserved lm) bk_boot bk3
              (Lm.crc lm) in
  mret (set_crc (lm_checksum lm) lm).

(** [FunctionImpl::restore_cq_info], [restore_sq_info]. *)
Definition restore_cq_info (f : FunctionImpl) (info : LmCqInfo) : AM () :=
  let host_cq := cq_id info in
  res_index ← resource_index f host_cq;
  d ← on_resource res_index (Res.alloc_cq host_cq);
  dev_cq ← lift (ok_or d AdminErr.CqAlreadyAllocated);
  controller (qc_restore_cq_info (f_cntrl f) dev_cq info)
    (on_resource res_index (Res.free_cq host_cq);; mret tt)
    AdminErr.CreateCqFailedByQueueController.

Definition restore_sq_info (f : FunctionImpl) (info : LmSqInfo) : AM () :=
  let host_cq := sq_cq_id info in
  res_index ← resource_index f host_cq;
  b ← read_resource res_index (Res.enabled Layout.Cq host_cq);
  unless b AdminErr.CqNotAvailable;;
  let host_sq := sq_id info in
  res_index ← resource_index f host_sq;
  d ← on_resource res_index (Res.alloc_sq host_sq);
  dev_sq ← lift (ok_or d AdminErr.SqAlreadyAllocated);
  controller (qc_restore_sq_info (f_cntrl f) dev_sq info)
    (on_resource res_index (Res.free_sq host_sq);; mret tt)
    AdminErr.CreateSqFailedByQueueController.

(** [for index in 0..cnt { restore(&arr[index])? }]. *)
Fixpoint restore_loop {A} (restore : A → AM ()) (arr : list A) (index todo : nat) : AM () :=
  match todo with
  | O => mret tt
  | S todo =>
      match arr !! index with
      | Some a => restore a;; restore_loop restore arr (S index) todo
      | None => lift Panic
      end
  end.

(** [restore_lm_context]; the CRC field of the caller's buffer is cleared, which
    nothing reads afterwards. *)
Definition restore_lm_context (i : nat) (lm_info : VmLiveMigrationInfo) : AM () :=
  f ← func i;
  let crc := Lm.crc lm_info in
  let lm := set_crc 0 lm_info in
  unless (bool_decide (lm_checksum lm = crc)) AdminErr.InvalidLmContextToRestore;;
  unless (bool_decide (resource_cnt lm = f_res_cnt f)) AdminErr.ResourceLimitReached;;
  let c := f_cntrl f in
  call (qc_restore_host_register_info c (cntrl_info lm));;
  controller (qc_restore_cq_info c c (admin_cq_info lm)) (mret tt)
    AdminErr.CreateCqFailedByQueueController;;
  controller (qc_restore_sq_info c c (admin_sq_info lm)) (mret tt)
    AdminErr.CreateSqFailedByQueueController;;
  call (qc_enable_sq c c 0);;
  w ← get;
  put (with_queues (queues w ++ [AdminQueue_new c c]) w);;
  let f := mkFunction c (Some (length (queues w))) (f_res_cnt f) (f_pfn f) in
  set_func i f;;
  restore_loop (restore_cq_info f) (io_cq_info lm) 0 (Z.to_nat (cq_cnt lm));;
  restore_loop (restore_sq_info f) (io_sq_info lm) 0 (Z.to_nat (sq_cnt lm)).
End function.
End Function.

(** ** [FunctionMgrImpl] *)

Module Mgr.
Section mgr.
Context `{BC : BitCrate} `{ZZ : Zeroize} `{QC : QueueController}.
Abbreviation AM := (M World AdminErr.t).

(** [get_crc]. *)
Definition get_crc (l : list Res.Resource) : Z :=
  Crc.finalize (foldl (λ c r, Crc.update c (Res.owner_pfn_as_bytes r)) Crc.init l).

Definition update_crc {E} : M World E () := modify (λ w, with_crc (get_crc (resources w)) w).

(** The index of a function. *)
Definition index (pfn : Z) : nat := Z.to_nat pfn.

Definition clear_resource (r : Res.Resource) : Res.Resource := Res.reset (Res.set_pfn None r).

Fixpoint new_funcs (l : list Z) : M World Z () :=
  match l with
  | [] => mret tt
  | p :: l =>
      cntrl ← lift (match Pcie.cntrl_of_pfn p with
                    | Ok c => Ok c
                    | _ => Err (AdminErr.to_u32 AdminErr.InvalidQueueControllerId)
                    end);
      f ← Function.new cntrl;
      modify (λ w, with_funcs (funcs w ++ [f]) w);;
      new_funcs l
  end.

(** [FunctionMgrImpl::new]; the start state holds the table, the CRC cell and
    the device.  The free count and the counts of the functions are taken
    before the CRC is checked. *)
Definition new : M World Z () :=
  modify (λ w, with_resources
    (imap (λ i r, Res.mkResource (Res.pfn r) (Res.alloc_map r) (wrap 8 (Z.of_nat i))) (resources w))
    (with_funcs [] (with_queues [] w)));;
  modify (λ w, with_free
    (wrap 32 (Z.of_nat (length (List.filter (λ r, bool_decide (Res.pfn r = None)) (resources w))))) w);;
  new_funcs Pcie.iter;;
  w ← get;
  (if decide (get_crc (resources w) = crc_cell w) then mret tt
   else modify (λ w, with_resources (clear_resource <$> resources w) w));;
  update_crc.

Fixpoint for_each (op : nat → AM ()) (l : list nat) : AM () :=
  match l with [] => mret tt | i :: l => op i;; for_each op l end.

(** [reset]: the CRC cell keeps its value. *)
Definition reset : AM () :=
  w ← get;
  for_each Function.reset (seq 0 (length (funcs w)));;
  modify (λ w, with_resources (clear_resource <$> resources w) w);;
  modify (λ w, with_free (wrap 32 (Z.of_nat (length (resources w)))) w).

Definition prepare_for_warm_boot : AM () :=
  w ← get;
  for_each Function.set_cfs (seq 0 (length (funcs w)));;
  modify (λ w, with_resources (Res.reset <$> resources w) w).

(** [iter_mut().filter(p).take(n)] under an update. *)
Fixpoint update_first (p : Res.Resource → bool) (g : Res.Resource → Res.Resource) (n : nat)
    (l : list Res.Resource) : list Res.Resource :=
  match l with
  | [] => []
  | r :: l =>
      match n with
      | O => r :: l
      | S n' => if p r then g r :: update_first p g n' l else r :: update_first p g n l
      end
  end.

(** [set_res_cnt]. *)
Definition set_res_cnt (pfn cnt : Z) : AM Z :=
  f ← func (index pfn);
  e ← ask (qc_enabled (f_cntrl f));
  (if negb (bool_decide (pfn = Pcie.Pf)) && e then Function.clear_enable (index pfn) else mret tt);;
  let current := f_res_cnt f in
  (match current ?= cnt with
   | Lt =>
       let new_res_cnt := cnt - current in
       w ← get;
       unless (negb (bool_decide (free_resource_cnt w < new_res_cnt))) AdminErr.SetResCountLimitExceeded;;
       modify (with_resources (update_first (λ r, bool_decide (Res.pfn r = None))
         (λ r, Res.reset (Res.set_pfn (Some pfn) r)) (Z.to_nat new_res_cnt) (resources w)));;
       modify (with_free (free_resource_cnt w - new_res_cnt));;
       Function.set_res_cnt (index pfn) cnt;;
       update_crc
   | Gt =>
       let delete_res_cnt := current - cnt in
       w ← get;
       modify (with_free (wrap 32 (free_resource_cnt w + delete_res_cnt)));;
       modify (with_resources (update_first (owns pfn) (Res.set_pfn None) (Z.to_nat delete_res_cnt)
                 (resources w)));;
       Function.set_res_cnt (index pfn) cnt;;
       update_crc
   | Eq => mret tt
   end);;
  mret current.
End mgr.
End Mgr.
