(* ===== verification/QueueMaps.v ===== *)
(** * The queues of PCIe functions, abstractly

    Where a host queue lives: the position of its resource among those of the
    function and the bit of the allocation map ([index_of], [offset_of]), and
    the device queue it is mapped to ([dev_of]).  A table of resources then
    is a finite map from functions, kinds and host queues to device queues
    ([lookup_queue]); the lemmas say how the operations of [Resource] change
    it. *)

From stdpp Require Import base list numbers option.
From S2P Require Import Prelude Crates AdminError Queues Crc32 PcieFunctions.

Local Open Scope Z_scope.

(** ** Places of host queues *)

Definition host_ok (h : Z) : Prop := 0 < h < 2 ^ 16.
#[global] Instance host_ok_dec h : Decision (host_ok h).
Proof. unfold host_ok. apply _. Defined.

Definition offset_of (k : Layout.kind) (h : Z) : nat :=
  (Layout.OFFSET k + if decide (h ≤ 255)%Z then 0 else if decide (h mod 2 = 0)%Z then 1 else 2)%nat.
Definition dev_of (h id : Z) : Z :=
  if decide (255 < h ∧ h mod 2 = 0) then id else wrap 8 (id + 65).
Definition index_of (h : Z) : option nat :=
  if decide (h ≤ 65) then Some (Z.to_nat (h - 1))
  else if decide (256 ≤ h ≤ 385) then Some (Z.to_nat ((h - 256) / 2))
  else None.

(** The host queue at a place. *)
Definition queue_at (i o : nat) : Z :=
  match o with
  | 0%nat | 3%nat => 1 + Z.of_nat i
  | 1%nat | 4%nat => 256 + Z.of_nat i * 2
  | _ => 257 + Z.of_nat i * 2
  end.
Definition kind_of (o : nat) : Layout.kind := if decide (o < 3)%nat then Layout.Sq else Layout.Cq.

Section layout.
Context {E : Type}.

Lemma queue_type_ok h : host_ok h →
  Queue.host_queue_type h = if decide (h ≤ 255) then Queue.Hsm else Queue.Fp.
Proof.
  unfold host_ok, Queue.host_queue_type, Queue.ADMIN_QUEUE_ID, Queue.HSM_QUEUE_START_ID,
    Queue.HSM_QUEUE_END_ID. intros H. repeat case_decide; (done || lia).
Qed.

Lemma offset_ok k h : host_ok h → Layout.offset (E:=E) k h = Ok (offset_of k h).
Proof.
  intros H. unfold Layout.offset, offset_of. rewrite queue_type_ok by done.
  repeat case_decide; by rewrite ?Nat.add_0_r.
Qed.

Lemma device_id_ok h id : host_ok h → Layout.device_id (E:=E) h id = Ok (dev_of h id).
Proof.
  intros H. unfold Layout.device_id, dev_of, Layout.MAX_FUNCTION_RESOURCES.
  rewrite queue_type_ok by done. repeat case_decide; (done || lia || tauto).
Qed.

Lemma res_index_ok h : host_ok h → Layout.res_index (E:=E) h = Ok (index_of h).
Proof.
  intros H. unfold Layout.res_index, index_of, Layout.HSM_HOST_QUEUE_START_ID,
    Layout.HSM_HOST_QUEUE_END_ID, Layout.FP_HOST_QUEUE_START_ID, Layout.FP_HOST_QUEUE_END_ID,
    Layout.MAX_FUNCTION_RESOURCES, Layout.FP_HOST_QUEUE_START_ID.
  rewrite queue_type_ok by done. unfold host_ok in *. repeat case_decide; (done || lia).
Qed.

Lemma host_queue_id_ok i o : (i < 65)%nat → (o < 6)%nat →
  Layout.host_queue_id (E:=E) i o = Ok (queue_at i o).
Proof.
  intros Hi Ho. unfold Layout.host_queue_id, queue_at, Layout.HSM_HOST_QUEUE_START_ID,
    Layout.FP_HOST_QUEUE_START_ID.
  assert (∀ x, 0 ≤ x < 2 ^ 16 → wrap 16 x = x) as Hw by (intros; by apply wrap_small).
  rewrite (Hw (Z.of_nat i)), (Hw (Z.of_nat i * 2)) by lia.
  do 6 (destruct o as [|o]; [rewrite Hw by lia; f_equal; lia|]). lia.
Qed.
End layout.

Lemma offset_of_range k h : (Layout.OFFSET k ≤ offset_of k h < Layout.OFFSET k + 3)%nat.
Proof. unfold offset_of. repeat case_decide; lia. Qed.

Lemma offset_of_lt k h : (offset_of k h < 6)%nat.
Proof. pose proof (offset_of_range k h). destruct k; simpl in *; lia. Qed.

Lemma index_of_lt h i : host_ok h → index_of h = Some i → (i < 65)%nat.
Proof.
  unfold host_ok, index_of. intros H. repeat case_decide; intros [= <-]; [lia|].
  assert ((h - 256) / 2 < 65) by (apply Z.div_lt_upper_bound; lia).
  assert (0 ≤ (h - 256) / 2) by (apply Z.div_pos; lia). lia.
Qed.

Lemma mod2_cases h : h mod 2 = 0 ∨ h mod 2 = 1.
Proof. pose proof (Z.mod_pos_bound h 2). lia. Qed.

(** A place determines its queue. *)
Lemma queue_at_of k h i : host_ok h → index_of h = Some i → queue_at i (offset_of k h) = h.
Proof.
  unfold host_ok, index_of. intros H. pose proof (Z.div_mod h 2). pose proof (mod2_cases h).
  assert ((h - 256) / 2 = h / 2 - 128) as Hd.
  { replace (h - 256) with (h + -128 * 2) by lia. rewrite Z.div_add by lia. lia. }
  unfold offset_of. repeat case_decide; intros [= <-]; rewrite ?Hd; destruct k; simpl; lia.
Qed.

Lemma queue_at_ok i o : (i < 65)%nat → host_ok (queue_at i o).
Proof. intros Hi. unfold host_ok, queue_at. repeat case_match; lia. Qed.

Lemma index_queue_at i o : (i < 65)%nat → index_of (queue_at i o) = Some i.
Proof.
  intros Hi. unfold queue_at, index_of.
  assert ((256 + Z.of_nat i * 2 - 256) / 2 = Z.of_nat i) as H1.
  { replace (256 + Z.of_nat i * 2 - 256) with (Z.of_nat i * 2) by lia. apply Z.div_mul. lia. }
  assert ((257 + Z.of_nat i * 2 - 256) / 2 = Z.of_nat i) as H2.
  { replace (257 + Z.of_nat i * 2 - 256) with (1 + Z.of_nat i * 2) by lia.
    rewrite Z.div_add by lia. done. }
  repeat case_match; repeat case_decide; try lia; f_equal; rewrite ?H1, ?H2; lia.
Qed.

Lemma offset_queue_at i o : (i < 65)%nat → (o < 6)%nat → offset_of (kind_of o) (queue_at i o) = o.
Proof.
  intros Hi Ho. unfold offset_of, queue_at, kind_of.
  assert (∀ n, (n + Z.of_nat i * 2) mod 2 = n mod 2) as Hm by (intros; apply Z.mod_add; lia).
  do 6 (destruct o as [|o]; [cbn -[Z.add Z.mul Z.of_nat]; repeat case_decide; try done;
    rewrite ?Hm in *; lia || done|]). lia.
Qed.

Lemma offset_of_kind k h : kind_of (offset_of k h) = k.
Proof.
  pose proof (offset_of_range k h). unfold kind_of.
  destruct k; cbn [Layout.OFFSET] in *; case_decide; (done || lia).
Qed.

(** Two queues of a function with the same place are the same queue. *)
Lemma place_inj k k' h h' i :
  host_ok h → host_ok h' → index_of h = Some i → index_of h' = Some i →
  offset_of k h = offset_of k' h' → k = k' ∧ h = h'.
Proof.
  intros H H' Hi Hi' Ho.
  assert (k = k') as <- by (by rewrite <-(offset_of_kind k h), Ho, offset_of_kind).
  split; [done|]. by rewrite <-(queue_at_of k h i), Ho, queue_at_of.
Qed.

(** Device queues of different resources, or of different places of one
    resource, are different in their group. *)
Lemma dev_of_inj k h h' id id' :
  host_ok h → host_ok h' → 0 ≤ id < 65 → 0 ≤ id' < 65 → index_of h ≠ None → index_of h' ≠ None →
  Queue.group h (dev_of h id) = Queue.group h' (dev_of h' id') → dev_of h id = dev_of h' id' →
  id = id' ∧ offset_of k h = offset_of k h'.
Proof.
  unfold host_ok, Queue.group, Queue.queue_group_and_channel, Queue.ADMIN_QUEUE_ID,
    Queue.HSM_QUEUE_START_ID, Queue.HSM_QUEUE_END_ID, dev_of, offset_of.
  intros H H' Hid Hid' _ _. rewrite !wrap_small by (unfold uint_range; lia).
  repeat case_decide; simpl; intros; try done; try lia; split; (done || lia).
Qed.

(** ** Filters under a point update *)

Section filter.
Context {A : Type} (P : A → bool).

Lemma filter_lookup_pos l : ∀ i a,
  List.filter P l !! i = Some a →
  P a = true ∧ ∃ j, l !! j = Some a ∧ i = length (List.filter P (take j l)).
Proof.
  induction l as [|x l IH]; intros i a; [done|]. simpl. destruct (P x) eqn:Hx.
  - destruct i as [|i]; simpl.
    + intros [= <-]. split; [done|]. by exists 0%nat.
    + intros Hi. destruct (IH _ _ Hi) as (Ha & j & Hj & ->). split; [done|].
      exists (S j). simpl. by rewrite Hx.
  - intros Hi. destruct (IH _ _ Hi) as (Ha & j & Hj & ->). split; [done|].
    exists (S j). simpl. by rewrite Hx.
Qed.

Lemma filter_middle l j a :
  l !! j = Some a →
  List.filter P l = List.filter P (take j l) ++ List.filter P [a] ++ List.filter P (drop (S j) l).
Proof.
  intros Hj. pose proof (take_drop_middle _ _ _ Hj) as Hl. rewrite <-Hl at 1.
  rewrite List.filter_app. f_equal. simpl. by destruct (P a).
Qed.

Lemma filter_insert_middle l j a b :
  l !! j = Some a →
  List.filter P (<[j := b]> l) =
    List.filter P (take j l) ++ List.filter P [b] ++ List.filter P (drop (S j) l).
Proof.
  intros Hj. pose proof (lookup_lt_Some _ _ _ Hj).
  rewrite (filter_middle (<[j := b]> l) j b) by (by apply list_lookup_insert_eq).
  by rewrite take_insert_ge, drop_insert_lt by lia.
Qed.

Lemma filter_insert l j a b :
  l !! j = Some a → P a = true → P b = true →
  List.filter P (<[j := b]> l) =
    <[length (List.filter P (take j l)) := b]> (List.filter P l).
Proof.
  intros Hj Ha Hb. rewrite (filter_insert_middle _ _ _ _ Hj), (filter_middle _ _ _ Hj).
  simpl. rewrite Ha, Hb. by rewrite insert_app_r_alt, Nat.sub_diag.
Qed.

Lemma filter_insert_out l j a b :
  l !! j = Some a → P a = false → P b = false →
  List.filter P (<[j := b]> l) = List.filter P l.
Proof.
  intros Hj Ha Hb. rewrite (filter_insert_middle _ _ _ _ Hj), (filter_middle _ _ _ Hj).
  simpl. by rewrite Ha, Hb.
Qed.
End filter.

(** ** Tables of resources *)

Section table.
Context `{BC : BitCrate}.

Definition table_ok (l : list Res.Resource) : Prop :=
  length l = 65%nat ∧
  ∀ j r, l !! j = Some r → Res.id r = Z.of_nat j ∧ uint_range 8 (Res.alloc_map r).

(** The device queue of a host queue of function [p], if it exists. *)
Definition lookup_queue (l : list Res.Resource) (p : Z) (k : Layout.kind) (h : Z) : option Z :=
  i ← index_of h;
  r ← owned p l !! i;
  if bit (Res.alloc_map r) (offset_of k h) then Some (dev_of h (Res.id r)) else None.

Lemma owned_lookup l p i r :
  table_ok l → owned p l !! i = Some r →
  Res.pfn r = Some p ∧ l !! Z.to_nat (Res.id r) = Some r ∧ 0 ≤ Res.id r < 65 ∧
  uint_range 8 (Res.alloc_map r) ∧ i = length (owned p (take (Z.to_nat (Res.id r)) l)).
Proof.
  intros [Hl Ht] Hi. apply filter_lookup_pos in Hi as (Hp & j & Hj & ->).
  unfold owns in Hp. apply bool_decide_eq_true in Hp.
  destruct (Ht _ _ Hj) as [Hid Hm]. pose proof (lookup_lt_Some _ _ _ Hj).
  rewrite Hid, Nat2Z.id. split_and!; (done || lia || apply Hm).
Qed.

Lemma owned_insert l p i r r' :
  table_ok l → owned p l !! i = Some r → Res.pfn r' = Some p → Res.id r' = Res.id r →
  uint_range 8 (Res.alloc_map r') →
  let l' := <[Z.to_nat (Res.id r) := r']> l in
  table_ok l' ∧ owned p l' = <[i := r']> (owned p l) ∧
  (∀ p', p' ≠ p → owned p' l' = owned p' l).
Proof.
  intros Ht Hi Hp Hid Hm l'. destruct (owned_lookup _ _ _ _ Ht Hi) as (Hpr & Hlk & Hr & Hmr & Hpos).
  assert (∀ q x, Res.pfn x = Some p → owns q x = bool_decide (q = p)) as Howns.
  { intros q x Hx. unfold owns. rewrite Hx. apply bool_decide_ext. naive_solver. }
  split_and!.
  - destruct Ht as [Hl Ht]. split; [by unfold l'; rewrite length_insert|].
    intros j x. unfold l'. rewrite list_lookup_insert. case_decide as Hj.
    + intros [= <-]. destruct Hj as [<- _]. destruct (Ht _ _ Hlk) as [H1 _].
      rewrite Hid. rewrite Z2Nat.id by lia. done.
    + intros Hx. by apply Ht.
  - unfold owned, l'. rewrite (filter_insert _ _ _ r);
      [|done|rewrite Howns by done; by apply bool_decide_eq_true_2..].
    f_equal. by rewrite Hpos.
  - intros p' Hne. unfold owned, l'. apply (filter_insert_out _ _ _ r); [done|..];
      rewrite Howns by done; by apply bool_decide_eq_false_2.
Qed.

(** Setting the bit of a queue changes that queue alone. *)
Lemma lookup_queue_update l p k h i r (b : bool) :
  table_ok l → host_ok h → index_of h = Some i → owned p l !! i = Some r →
  let r' := Res.set_map (set_bit 8 (Res.alloc_map r) (offset_of k h) b) r in
  let l' := <[Z.to_nat (Res.id r) := r']> l in
  table_ok l' ∧ (∀ q, length (owned q l') = length (owned q l)) ∧
  Res.pfn <$> l' = Res.pfn <$> l ∧
  ∀ p' k' h', host_ok h' →
    lookup_queue l' p' k' h' =
      if decide (p' = p ∧ k' = k ∧ h' = h) then if b then Some (dev_of h (Res.id r)) else None
      else lookup_queue l p' k' h'.
Proof.
  intros Ht Hh Hi Hr r' l'. destruct (owned_lookup _ _ _ _ Ht Hr) as (Hpr & Hlk & Hid & Hm & _).
  pose proof (offset_of_lt k h) as Ho.
  destruct (owned_insert l p i r r' Ht Hr) as (Ht' & Hown & Hother);
    [done|done|apply set_bit_range; [done|lia]|]. fold l' in Ht', Hown, Hother. split_and!.
  - done.
  - intros q. destruct (decide (q = p)) as [->|Hq]; [by rewrite Hown, length_insert|].
    by rewrite Hother.
  - unfold l'. rewrite list_fmap_insert. apply list_insert_id. rewrite list_lookup_fmap, Hlk. done.
  - intros p' k' h' Hh'. unfold lookup_queue. destruct (index_of h') as [i'|] eqn:Hi'; cbn.
    2: { rewrite decide_False; [done|]. intros (_ & _ & ->). congruence. }
    destruct (decide (p' = p)) as [->|Hp].
    2: { rewrite decide_False by tauto. by rewrite Hother. }
    rewrite Hown. destruct (decide (i' = i)) as [->|Hne].
    2: { rewrite list_lookup_insert_ne by done. rewrite decide_False; [done|].
         intros (_ & _ & ->). congruence. }
    rewrite list_lookup_insert_eq by (by eapply lookup_lt_Some). rewrite Hr. cbn.
    pose proof (offset_of_lt k' h'). rewrite set_bit_spec by (done || lia).
    destruct (decide (offset_of k h = offset_of k' h')) as [He|Hn].
    + destruct (place_inj k k' h h' i Hh Hh' Hi Hi' He) as [<- <-].
      rewrite decide_True by done. by destruct b.
    + rewrite decide_False; [done|]. intros (_ & -> & ->). done.
Qed.
End table.
