(* ===== verification/PcieFunctionProps.v ===== *)
(** * Correctness of the PCIe functions

    The invariant [wf] of the function manager, the exact behaviour of every
    queue operation on the map of queues, the isolation of functions, the
    bookkeeping of resources and the deletion of queues.  Live migration is
    in [LiveMigration]. *)

From stdpp Require Import base list numbers option.
From S2P Require Import Prelude Crates AdminError Queues Crc32 PcieFunctions QueueMaps.

Local Open Scope Z_scope.

(** What the theorems need of the queue controller: its operations return for
    the device queues it has. *)
Class QueueControllerLaws `{QueueController} := {
  create_sq_returns c d h m s : 0 ≤ d < 132 → fst (qc_create_sq c d h m s) ≠ Panic;
  create_cq_returns c d h m q s : 0 ≤ d < 132 → fst (qc_create_cq c d h m q s) ≠ Panic;
  restore_sq_returns c d i s : 0 ≤ d < 132 → fst (qc_restore_sq_info c d i s) ≠ Panic;
  restore_cq_returns c d i s : 0 ≤ d < 132 → fst (qc_restore_cq_info c d i s) ≠ Panic;
  create_asq_returns c d h s : 0 ≤ d < 132 → fst (qc_create_asq c d h s) ≠ Panic;
  create_acq_returns c d h s : 0 ≤ d < 132 → fst (qc_create_acq c d h s) ≠ Panic
}.

Section props.
Context `{BC : BitCrate} `{ZZ : Zeroize} `{QCL : QueueControllerLaws}.

(** ** The invariant *)

Definition free_resources (l : list Res.Resource) : list Res.Resource :=
  List.filter (λ r, bool_decide (Res.pfn r = None)) l.

Definition func_ok (w : World) (i : nat) (f : FunctionImpl) : Prop :=
  f_pfn f = Z.of_nat i ∧ Pcie.cntrl_of_pfn (Z.of_nat i) = Ok (f_cntrl f) ∧
  f_res_cnt f = Z.of_nat (length (owned (Z.of_nat i) (resources w))) ∧
  ∀ q, f_admin_queue f = Some q → (q < length (queues w))%nat.

Record wf (w : World) : Prop := {
  wf_table : table_ok (resources w);
  wf_funcs_length : length (funcs w) = 65%nat;
  wf_funcs i f : funcs w !! i = Some f → func_ok w i f;
  wf_free : free_resource_cnt w = Z.of_nat (length (free_resources (resources w)));
  wf_crc : Mgr.get_crc (resources w) = crc_cell w ∨ Forall (λ r, Res.pfn r = None) (resources w)
}.

Lemma cntrl_range w i f : wf w → funcs w !! i = Some f → 0 ≤ f_cntrl f ≤ 64.
Proof.
  intros Hw Hf. destruct (wf_funcs w Hw i f Hf) as (_ & Hc & _).
  pose proof (lookup_lt_Some _ _ _ Hf). rewrite (wf_funcs_length w Hw) in *.
  unfold Pcie.cntrl_of_pfn, Pcie.Pf in Hc. repeat case_decide; simplify_eq; lia.
Qed.

Lemma with_resources_id w : with_resources (resources w) w = w.
Proof. by destruct w. Qed.

(** The counts and the CRC depend on the owners of the table alone. *)
Lemma owned_owners q l l' :
  Res.pfn <$> l = Res.pfn <$> l' → length (owned q l) = length (owned q l').
Proof.
  revert l'. induction l as [|r l IH]; intros [|r' l']; try done.
  intros [= Hr Hl]. specialize (IH l' Hl). unfold owned, owns in *. simpl. rewrite Hr.
  case_bool_decide; simpl; by rewrite IH.
Qed.

Lemma free_owners l l' :
  Res.pfn <$> l = Res.pfn <$> l' → length (free_resources l) = length (free_resources l').
Proof.
  revert l'. induction l as [|r l IH]; intros [|r' l']; try done.
  intros [= Hr Hl]. specialize (IH l' Hl). unfold free_resources in *. simpl. rewrite Hr.
  case_bool_decide; simpl; by rewrite IH.
Qed.

Lemma crc_owners l l' : Res.pfn <$> l = Res.pfn <$> l' → Mgr.get_crc l = Mgr.get_crc l'.
Proof.
  unfold Mgr.get_crc. intros Hl. f_equal. generalize Crc.init. revert l' Hl.
  induction l as [|r l IH]; intros [|r' l']; try done.
  intros [= Hr Hl] c. simpl. unfold Res.owner_pfn_as_bytes at 2 4. rewrite Hr. by apply IH.
Qed.

Lemma none_owners l l' :
  Res.pfn <$> l = Res.pfn <$> l' → Forall (λ r, Res.pfn r = None) l → Forall (λ r, Res.pfn r = None) l'.
Proof.
  intros He Hl. apply (Forall_fmap Res.pfn (λ x, x = None)). rewrite <-He.
  by apply (Forall_fmap Res.pfn (λ x, x = None)).
Qed.

Lemma wf_owners w l :
  wf w → table_ok l → Res.pfn <$> l = Res.pfn <$> resources w → wf (with_resources l w).
Proof.
  intros [H1 H2 H3 H4 H5] Ht Hl. constructor; simpl; try done.
  - intros i f Hf. destruct (H3 i f Hf) as (F1 & F2 & F3 & F4). split_and!; try done.
    simpl. by rewrite (owned_owners _ l _ Hl).
  - by rewrite H4, (free_owners l _ Hl).
  - rewrite (crc_owners l _ Hl). destruct H5 as [H5|H5]; [by left|right]. by eapply none_owners.
Qed.

Lemma wf_device w h : wf w → wf (with_device h w).
Proof. intros [H1 H2 H3 H4 H5]. by constructor. Qed.

(** ** Allocating and freeing *)

Definition set_queue (w : World) (r : Res.Resource) (k : Layout.kind) (h : Z) (b : bool) : World :=
  with_resources (<[Z.to_nat (Res.id r) :=
    Res.set_map (set_bit 8 (Res.alloc_map r) (offset_of k h) b) r]> (resources w)) w.

(** [w'] differs from [w] in one queue, whose device queue is now [d]. *)
Definition only_queue (w w' : World) (p : Z) (k : Layout.kind) (h : Z) (d : option Z) : Prop :=
  funcs w' = funcs w ∧ queues w' = queues w ∧ crc_cell w' = crc_cell w ∧
  free_resource_cnt w' = free_resource_cnt w ∧
  Res.pfn <$> resources w' = Res.pfn <$> resources w ∧
  ∀ p' k' h', host_ok h' →
    lookup_queue (resources w') p' k' h' =
      if decide (p' = p ∧ k' = k ∧ h' = h) then d else lookup_queue (resources w) p' k' h'.

Lemma set_queue_ok w p k h i r b :
  wf w → host_ok h → index_of h = Some i → owned p (resources w) !! i = Some r →
  wf (set_queue w r k h b) ∧
  only_queue w (set_queue w r k h b) p k h (if b then Some (dev_of h (Res.id r)) else None).
Proof.
  intros Hw Hh Hi Hr. destruct (lookup_queue_update (resources w) p k h i r b) as (H1 & H2 & H3 & H4);
    [apply Hw|done..|]. split; [by apply wf_owners|]. by split_and!.
Qed.

Lemma set_bit_undo m o :
  uint_range 8 m → (o < 8)%nat → bit m o = false → set_bit 8 (set_bit 8 m o true) o false = m.
Proof.
  intros Hm Ho Hb. assert (Z.of_nat o < 8) as Ho' by lia.
  assert (uint_range 8 (set_bit 8 m o true)) as H1 by (by apply set_bit_range).
  assert (uint_range 8 (set_bit 8 (set_bit 8 m o true) o false)) as H2 by (by apply set_bit_range).
  apply Z.bits_inj'. intros n Hn. destruct (decide (n < 8)).
  2: { by rewrite !(testbit_above 8) by (done || lia). }
  replace n with (Z.of_nat (Z.to_nat n)) by lia. rewrite <-!(bit_spec 8) by (done || lia).
  rewrite !set_bit_spec by (done || lia). by destruct (decide (o = Z.to_nat n)) as [<-|].
Qed.

Section op.
Context (w : World) (p : Z) (k : Layout.kind) (h : Z) (i : nat) (r : Res.Resource).
Context (Hw : wf w) (Hh : host_ok h) (Hi : index_of h = Some i).
Context (Hr : owned p (resources w) !! i = Some r).

Lemma lookup_here :
  lookup_queue (resources w) p k h =
    if bit (Res.alloc_map r) (offset_of k h) then Some (dev_of h (Res.id r)) else None.
Proof using Hi Hr. unfold lookup_queue. by rewrite Hi; cbn; rewrite Hr. Qed.

Lemma table_here : resources w !! Z.to_nat (Res.id r) = Some r.
Proof using Hw Hr. by destruct (owned_lookup _ _ _ _ (wf_table w Hw) Hr) as (_ & ? & _). Qed.

Lemma alloc_step {E} :
  on_resource (E:=E) (Z.to_nat (Res.id r)) (Res.alloc k h) w =
    match lookup_queue (resources w) p k h with
    | Some _ => (Ok None, w)
    | None => (Ok (Some (dev_of h (Res.id r))), set_queue w r k h true)
    end.
Proof using Hw Hh Hi Hr.
  rewrite lookup_here. unfold on_resource. erewrite bind_ok by reflexivity. rewrite table_here.
  unfold Res.alloc. rewrite offset_ok by done. cbn [mbind outcome_bind].
  destruct (bit _ _).
  - erewrite bind_ok by reflexivity. cbv iota beta. rewrite list_insert_id by apply table_here.
    erewrite bind_ok by reflexivity. by rewrite with_resources_id.
  - rewrite device_id_ok by done. reflexivity.
Qed.

Lemma free_step {E} :
  on_resource (E:=E) (Z.to_nat (Res.id r)) (Res.free k h) w =
    match lookup_queue (resources w) p k h with
    | Some d => (Ok (Some d), set_queue w r k h false)
    | None => (Ok None, w)
    end.
Proof using Hw Hh Hi Hr.
  rewrite lookup_here. unfold on_resource. erewrite bind_ok by reflexivity. rewrite table_here.
  unfold Res.free. rewrite offset_ok by done. cbn [mbind outcome_bind].
  destruct (bit _ _).
  - rewrite device_id_ok by done. reflexivity.
  - erewrite bind_ok by reflexivity. cbv iota beta. rewrite list_insert_id by apply table_here.
    erewrite bind_ok by reflexivity. by rewrite with_resources_id.
Qed.

Lemma enabled_step {E} k' :
  read_resource (E:=E) (Z.to_nat (Res.id r)) (Res.enabled k' h) w =
    (Ok (bit (Res.alloc_map r) (offset_of k' h)), w).
Proof using Hw Hh Hi Hr.
  unfold read_resource. erewrite bind_ok by reflexivity. rewrite table_here.
  unfold Res.enabled. by rewrite offset_ok.
Qed.
End op.

(** Freeing what was just allocated restores the table. *)
Lemma alloc_free w p k h i r {E} s :
  wf w → host_ok h → index_of h = Some i → owned p (resources w) !! i = Some r →
  lookup_queue (resources w) p k h = None →
  on_resource (E:=E) (Z.to_nat (Res.id r)) (Res.free k h) (with_device s (set_queue w r k h true)) =
    (Ok (Some (dev_of h (Res.id r))), with_device s w).
Proof.
  intros Hw Hh Hi Hr Hl. pose proof (table_here _ _ _ _ Hw Hr) as Htab.
  destruct (owned_lookup _ _ _ _ (wf_table w Hw) Hr) as (Hp & _ & Hid & Hm & _).
  rewrite (lookup_here _ _ _ _ _ _ Hi Hr) in Hl.
  pose proof (offset_of_lt k h). destruct (bit (Res.alloc_map r) (offset_of k h)) eqn:Hb; [done|].
  unfold on_resource, set_queue. erewrite bind_ok by reflexivity. cbn [with_device with_resources resources].
  rewrite list_lookup_insert_eq by (by eapply lookup_lt_Some).
  unfold Res.free. rewrite offset_ok by done. cbn [mbind outcome_bind Res.set_map Res.alloc_map].
  rewrite set_bit_spec by (done || lia). rewrite decide_True by done.
  rewrite device_id_ok by done. erewrite bind_ok by reflexivity. cbv iota beta.
  rewrite list_insert_insert_eq. unfold Res.set_map. cbn [Res.alloc_map Res.pfn Res.id].
  rewrite set_bit_undo by (done || lia).
  assert (Res.mkResource (Res.pfn r) (Res.alloc_map r) (Res.id r) = r) as -> by (by destruct r).
  rewrite list_insert_id by done. erewrite bind_ok by reflexivity. by destruct w.
Qed.

(** ** The steps the operations share *)

(** Why a host queue is outside the function. *)
Definition place_err (f : FunctionImpl) (h : Z) : option AdminErr.t :=
  match index_of h with
  | None => Some AdminErr.InvalidQueueId
  | Some n => if decide (f_res_cnt f ≤ Z.of_nat n) then Some AdminErr.QueueIdOutOfRangeForFunction
              else None
  end.

Section steps.
Context (w : World) (i : nat) (f : FunctionImpl) (Hw : wf w) (Hf : funcs w !! i = Some f).

Lemma func_step {E} : func (E:=E) i w = (Ok f, w).
Proof using Hf. unfold func. erewrite bind_ok by reflexivity. by rewrite Hf. Qed.

Lemma resource_index_step h :
  host_ok h →
  match place_err f h with
  | Some e => Function.resource_index f h w = (Err e, w)
  | None => ∃ n r, index_of h = Some n ∧ owned (Z.of_nat i) (resources w) !! n = Some r ∧
      Function.resource_index f h w = (Ok (Z.to_nat (Res.id r)), w)
  end.
Proof using Hw Hf.
  intros Hh. unfold place_err, Function.resource_index.
  erewrite bind_ok by (apply lift_ok, res_index_ok; done).
  destruct (index_of h) as [n|] eqn:Hn; [|done].
  erewrite bind_ok by reflexivity. destruct (wf_funcs w Hw i f Hf) as (Hp & _ & Hc & _).
  case_decide as Hd.
  - apply bind_err. rewrite bool_decide_eq_true_2 by done. done.
  - erewrite bind_ok by (rewrite bool_decide_eq_false_2 by done; reflexivity).
    destruct (owned (Z.of_nat i) (resources w) !! n) as [r|] eqn:Hr.
    2: { apply lookup_ge_None in Hr. lia. }
    exists n, r. split_and!; [done..|].
    erewrite bind_ok by reflexivity. by rewrite Hp, Hr.
Qed.

(** From the number of the queue to its allocation. *)
Lemma alloc_phase {A} k h e1 (K : nat → Z → M World AdminErr.t A) :
  host_ok h →
  let m := n ← Function.resource_index f h; d ← on_resource n (Res.alloc k h);
           dv ← lift (ok_or d e1); K n dv in
  match place_err f h, lookup_queue (resources w) (Z.of_nat i) k h with
  | Some e, _ => m w = (Err e, w)
  | None, Some _ => m w = (Err e1, w)
  | None, None => ∃ n r, index_of h = Some n ∧ owned (Z.of_nat i) (resources w) !! n = Some r ∧
      m w = K (Z.to_nat (Res.id r)) (dev_of h (Res.id r)) (set_queue w r k h true)
  end.
Proof using Hw Hf.
  intros Hh m. pose proof (resource_index_step h Hh) as Hri.
  destruct (place_err f h) as [e|]; [by apply bind_err|].
  destruct Hri as (n & r & Hn & Hr & Hri).
  pose proof (alloc_step w _ k h n r Hw Hh Hn Hr (E:=AdminErr.t)) as Ha.
  unfold m. destruct (lookup_queue _ _ _ _) as [d|].
  - rewrite (bind_ok _ _ _ _ _ Hri), (bind_ok _ _ _ _ _ Ha). by apply bind_err.
  - exists n, r. split_and!; [done..|]. rewrite (bind_ok _ _ _ _ _ Hri), (bind_ok _ _ _ _ _ Ha).
    by erewrite bind_ok.
Qed.

Lemma free_phase {A} k h e1 (K : Z → M World AdminErr.t A) :
  host_ok h →
  let m := n ← Function.resource_index f h; d ← on_resource n (Res.free k h);
           dv ← lift (ok_or d e1); K dv in
  match place_err f h, lookup_queue (resources w) (Z.of_nat i) k h with
  | Some e, _ => m w = (Err e, w)
  | None, None => m w = (Err e1, w)
  | None, Some d => ∃ n r, index_of h = Some n ∧ owned (Z.of_nat i) (resources w) !! n = Some r ∧
      m w = K d (set_queue w r k h false)
  end.
Proof using Hw Hf.
  intros Hh m. pose proof (resource_index_step h Hh) as Hri.
  destruct (place_err f h) as [e|]; [by apply bind_err|].
  destruct Hri as (n & r & Hn & Hr & Hri).
  pose proof (free_step w _ k h n r Hw Hh Hn Hr (E:=AdminErr.t)) as Ha.
  unfold m. destruct (lookup_queue _ _ _ _) as [d|].
  - exists n, r. split_and!; [done..|]. rewrite (bind_ok _ _ _ _ _ Hri), (bind_ok _ _ _ _ _ Ha).
    by erewrite bind_ok.
  - rewrite (bind_ok _ _ _ _ _ Hri), (bind_ok _ _ _ _ _ Ha). by apply bind_err.
Qed.

(** The controller is called with the queue allocated, and the allocation is
    taken back when it fails. *)
Lemma controller_step k h n r (ctl : M hw Z ()) e2 :
  host_ok h → index_of h = Some n → owned (Z.of_nat i) (resources w) !! n = Some r →
  lookup_queue (resources w) (Z.of_nat i) k h = None → fst (ctl (device w)) ≠ Panic →
  ∃ s, Function.controller ctl (on_resource (Z.to_nat (Res.id r)) (Res.free k h);; mret tt) e2
         (set_queue w r k h true) =
       (match ctl (device w) with
        | (Ok _, s) => (Ok tt, with_device s (set_queue w r k h true))
        | _ => (Err e2, with_device s w)
        end) ∧ s = snd (ctl (device w)).
Proof using Hw Hf.
  intros Hh Hn Hr Hl Hp. eexists. split; [|done]. unfold Function.controller.
  change (device (set_queue w r k h true)) with (device w).
  destruct (ctl (device w)) as [[[]|e|] s]; [done| |done].
  pose proof (alloc_free w _ k h n r s Hw Hh Hn Hr Hl (E:=AdminErr.t)) as Ha. cbn [snd].
  by erewrite bind_ok by (erewrite bind_ok by exact Ha; reflexivity).
Qed.
End steps.

(** ** Creating queues *)

(** What creating (or restoring) a queue does: errors leave everything but the
    device as it was, and success adds one queue. *)
Definition creates (w w' : World) (i : nat) (f : FunctionImpl) (k : Layout.kind) (h : Z)
    (ctl : Z → M hw Z ()) (e1 e2 : AdminErr.t) (r : outcome AdminErr.t Z) : Prop :=
  match place_err f h, lookup_queue (resources w) (Z.of_nat i) k h with
  | Some e, _ => r = Err e ∧ w' = w
  | None, Some _ => r = Err e1 ∧ w' = w
  | None, None => ∃ d, 0 ≤ d < 130 ∧ device w' = snd (ctl d (device w)) ∧
      match fst (ctl d (device w)) with
      | Ok _ => r = Ok d ∧ only_queue w w' (Z.of_nat i) k h (Some d)
      | _ => r = Err e2 ∧ w' = with_device (snd (ctl d (device w))) w
      end
  end.

Lemma dev_of_range h id : 0 ≤ id < 65 → 0 ≤ dev_of h id < 130.
Proof. intros H'. unfold dev_of. case_decide; [lia|]. rewrite wrap_small by (unfold uint_range; lia). lia. Qed.

Lemma create_phase {A} w i f k h e1 e2 (ctl : Z → M hw Z ()) (g : Z → A) :
  wf w → funcs w !! i = Some f → host_ok h → (∀ d s, 0 ≤ d < 130 → fst (ctl d s) ≠ Panic) →
  let m := n ← Function.resource_index f h; d ← on_resource n (Res.alloc k h);
           dv ← lift (ok_or d e1);
           Function.controller (ctl dv) (on_resource n (Res.free k h);; mret tt) e2;;
           mret (g dv) in
  ∃ r w', m w = (g <$> r, w') ∧ wf w' ∧ creates w w' i f k h ctl e1 e2 r.
Proof.
  intros Hw Hf Hh Hctl m. unfold creates.
  pose proof (alloc_phase w i f Hw Hf k h e1 (λ n dv,
    Function.controller (ctl dv) (on_resource n (Res.free k h);; mret tt) e2;; mret (g dv)) Hh) as Ha.
  cbv beta zeta in Ha. subst m. cbv beta. destruct (place_err f h) as [e|]; [by exists (Err e), w|].
  destruct (lookup_queue (resources w) (Z.of_nat i) k h) as [d|] eqn:Hl; [by exists (Err e1), w|].
  destruct Ha as (n & r & Hn & Hr & Hm). rewrite Hm. set (d := dev_of h (Res.id r)).
  destruct (owned_lookup _ _ _ _ (wf_table w Hw) Hr) as (_ & _ & Hid & _).
  assert (fst (ctl d (device w)) ≠ Panic) as Hctl' by (by apply Hctl, dev_of_range).
  destruct (controller_step w i f Hw Hf k h n r (ctl d) e2 Hh Hn Hr Hl Hctl') as (s & Hc & ->).
  destruct (set_queue_ok w _ k h n r true Hw Hh Hn Hr) as [Hw' Ho].
  destruct (ctl d (device w)) as [[[]|e|] s] eqn:Hcd; [| |done].
  - eexists (Ok d), _. split; [by erewrite bind_ok by exact Hc|]. split; [by apply wf_device|].
    exists d. rewrite Hcd. split; [by apply dev_of_range|]. by split.
  - eexists (Err e2), _. split; [by erewrite bind_err by exact Hc|]. split; [by apply wf_device|].
    exists d. rewrite Hcd. split; [by apply dev_of_range|]. by split.
Qed.

Lemma bind3_ret {S E A B C} (x : M S E A) (y : A → M S E B) (z : B → outcome E C)
    (K : A → C → M S E ()) (w : S) :
  (a ← x; b ← y a; c ← lift (z b); K a c;; mret tt) w = (a ← x; b ← y a; c ← lift (z b); K a c) w.
Proof.
  unfold mbind, M_bind, lift. destruct (x w) as [[a|e|] s]; [|done..].
  destruct (y a s) as [[b|e|] s']; [|done..]. destruct (z b) as [c|e|]; [|done..].
  by destruct (K a c s') as [[[]|e|] s''].
Qed.

Lemma available_step w i f h :
  wf w → funcs w !! i = Some f → host_ok h →
  match place_err f h with
  | Some e => True
  | None => ∃ n r, index_of h = Some n ∧ owned (Z.of_nat i) (resources w) !! n = Some r ∧
      Function.resource_index f h w = (Ok (Z.to_nat (Res.id r)), w) ∧
      ∀ k, read_resource (E:=AdminErr.t) (Z.to_nat (Res.id r)) (Res.enabled k h) w =
           (Ok (bool_decide (is_Some (lookup_queue (resources w) (Z.of_nat i) k h))), w)
  end.
Proof.
  intros Hw Hf Hh. pose proof (resource_index_step w i f Hw Hf h Hh) as Hri.
  destruct (place_err f h); [done|]. destruct Hri as (n & r & Hn & Hr & Hri).
  exists n, r. split_and!; [done..|]. intros k.
  rewrite (enabled_step w _ h n r Hw Hh Hn Hr k), (lookup_here w _ k h n r Hn Hr).
  destruct (bit _ _); [by rewrite bool_decide_eq_true_2|].
  rewrite bool_decide_eq_false_2; [done|]. by intros [??].
Qed.

(** Creating a submission queue looks at its completion queue first. *)
Definition creates_sq (w w' : World) (i : nat) (f : FunctionImpl) (h hc : Z) (ctl : Z → M hw Z ())
    (r : outcome AdminErr.t Z) : Prop :=
  match place_err f hc, lookup_queue (resources w) (Z.of_nat i) Layout.Cq hc with
  | Some e, _ => r = Err e ∧ w' = w
  | None, None => r = Err AdminErr.CqNotAvailable ∧ w' = w
  | None, Some _ =>
      creates w w' i f Layout.Sq h ctl AdminErr.SqAlreadyAllocated AdminErr.CreateSqFailedByQueueController r
  end.

Lemma create_sq_phase {A} w i f h hc (ctl : Z → M hw Z ()) (g : Z → A) :
  wf w → funcs w !! i = Some f → host_ok h → host_ok hc → (∀ d s, 0 ≤ d < 130 → fst (ctl d s) ≠ Panic) →
  let m := n ← Function.resource_index f hc;
           b ← read_resource n (Res.enabled Layout.Cq hc);
           unless b AdminErr.CqNotAvailable;;
           n ← Function.resource_index f h; d ← on_resource n (Res.alloc Layout.Sq h);
           dv ← lift (ok_or d AdminErr.SqAlreadyAllocated);
           Function.controller (ctl dv) (on_resource n (Res.free Layout.Sq h);; mret tt)
             AdminErr.CreateSqFailedByQueueController;;
           mret (g dv) in
  ∃ r w', m w = (g <$> r, w') ∧ wf w' ∧ creates_sq w w' i f h hc ctl r.
Proof.
  intros Hw Hf Hh Hhc Hctl m. subst m. unfold creates_sq.
  pose proof (resource_index_step w i f Hw Hf hc Hhc) as Hri.
  pose proof (available_step w i f hc Hw Hf Hhc) as Ha.
  destruct (place_err f hc) as [e|].
  { exists (Err e), w. erewrite bind_err by exact Hri. done. }
  destruct Ha as (n & r & Hn & Hr & Hri' & Hen). erewrite bind_ok by exact Hri'.
  erewrite bind_ok by apply Hen.
  destruct (lookup_queue (resources w) (Z.of_nat i) Layout.Cq hc) as [dc|].
  2: { exists (Err AdminErr.CqNotAvailable), w. by erewrite bind_err by reflexivity. }
  erewrite bind_ok by reflexivity.
  by apply (create_phase w i f Layout.Sq h _ _ ctl g).
Qed.

Lemma create_cq_ok w i f h mem irq :
  wf w → funcs w !! i = Some f → host_ok h →
  ∃ r w', Function.create_cq i h mem irq w = ((λ _, tt) <$> r, w') ∧ wf w' ∧
    creates w w' i f Layout.Cq h (λ d, qc_create_cq (f_cntrl f) d h mem irq)
      AdminErr.CqAlreadyAllocated AdminErr.CreateCqFailedByQueueController r.
Proof.
  intros Hw Hf Hh. unfold Function.create_cq. erewrite bind_ok by (by apply func_step).
  rewrite <-bind3_ret.
  apply (create_phase w i f Layout.Cq h _ _ (λ d, qc_create_cq (f_cntrl f) d h mem irq) (λ _, tt));
    [done..|]. intros. apply create_cq_returns. lia.
Qed.

Lemma create_sq_ok w i f h hc mem :
  wf w → funcs w !! i = Some f → host_ok h → host_ok hc →
  ∃ r w', Function.create_sq i h hc mem w = ((λ d, (d, d)) <$> r, w') ∧ wf w' ∧
    creates_sq w w' i f h hc (λ d, qc_create_sq (f_cntrl f) d h mem) r.
Proof.
  intros Hw Hf Hh Hhc. unfold Function.create_sq. erewrite bind_ok by (by apply func_step).
  apply (create_sq_phase w i f h hc (λ d, qc_create_sq (f_cntrl f) d h mem) (λ d, (d, d))); [done..|].
  intros. apply create_sq_returns. lia.
Qed.

(** Creating queues.  In a well-formed state, creating the completion queue
    [h] of a function fails with the error of the number when it is outside
    the function's resources, with [CqAlreadyAllocated] when it exists, and
    with [CreateCqFailedByQueueController] when the controller fails; then
    nothing but the device has changed.  Otherwise the map of queues gains
    exactly this queue.  A submission queue also needs its completion queue. *)
Theorem create_queues_exact w i f h hc mem irq :
  wf w → funcs w !! i = Some f → host_ok h → host_ok hc →
  (∃ r w', Function.create_cq i h mem irq w = ((λ _, tt) <$> r, w') ∧ wf w' ∧
     creates w w' i f Layout.Cq h (λ d, qc_create_cq (f_cntrl f) d h mem irq)
       AdminErr.CqAlreadyAllocated AdminErr.CreateCqFailedByQueueController r) ∧
  (∃ r w', Function.create_sq i h hc mem w = ((λ d, (d, d)) <$> r, w') ∧ wf w' ∧
     creates_sq w w' i f h hc (λ d, qc_create_sq (f_cntrl f) d h mem) r).
Proof. intros Hw Hf Hh Hhc. split; [by apply create_cq_ok|by apply create_sq_ok]. Qed.

(** ** Deleting queues *)

Definition deletes_cq (w w' : World) (i : nat) (f : FunctionImpl) (h : Z) (r : outcome AdminErr.t ()) : Prop :=
  match place_err f h, lookup_queue (resources w) (Z.of_nat i) Layout.Sq h,
        lookup_queue (resources w) (Z.of_nat i) Layout.Cq h with
  | Some e, _, _ => r = Err e ∧ w' = w
  | None, Some _, _ => r = Err AdminErr.InvalidQueueDelete ∧ w' = w
  | None, None, None => r = Err AdminErr.InvalidCompletionQueueIdInDelete ∧ w' = w
  | None, None, Some d => r = Ok tt ∧ device w' = qc_delete_cq (f_cntrl f) d h (device w) ∧
      only_queue w w' (Z.of_nat i) Layout.Cq h None
  end.

Definition deletes_sq (w w' : World) (i : nat) (f : FunctionImpl) (h : Z) (r : outcome AdminErr.t Z) : Prop :=
  match place_err f h, lookup_queue (resources w) (Z.of_nat i) Layout.Sq h with
  | Some e, _ => r = Err e ∧ w' = w
  | None, None => r = Err AdminErr.InvalidSqId ∧ w' = w
  | None, Some d => r = Ok d ∧ device w' = qc_delete_sq (f_cntrl f) d h (device w) ∧
      only_queue w w' (Z.of_nat i) Layout.Sq h None
  end.

Lemma delete_cq_ok w i f h :
  wf w → funcs w !! i = Some f → host_ok h →
  ∃ r w', Function.delete_cq i h w = (r, w') ∧ wf w' ∧ deletes_cq w w' i f h r.
Proof.
  intros Hw Hf Hh. pose proof (available_step w i f h Hw Hf Hh) as Ha. unfold deletes_cq.
  pose proof (resource_index_step w i f Hw Hf h Hh) as Hri.
  unfold Function.delete_cq. erewrite bind_ok by (by apply func_step).
  destruct (place_err f h) as [e|].
  { exists (Err e), w. by erewrite bind_err by exact Hri. }
  destruct Ha as (n & r & Hn & Hr & Hri' & Hen). erewrite bind_ok by exact Hri'.
  erewrite bind_ok by apply Hen.
  destruct (lookup_queue _ _ Layout.Sq h) as [ds|].
  { exists (Err AdminErr.InvalidQueueDelete), w. by erewrite bind_err by reflexivity. }
  erewrite bind_ok by reflexivity.
  pose proof (free_step w _ Layout.Cq h n r Hw Hh Hn Hr (E:=AdminErr.t)) as Hfree.
  destruct (lookup_queue _ _ Layout.Cq h) as [d|]; erewrite bind_ok by exact Hfree.
  - destruct (set_queue_ok w _ Layout.Cq h n r false Hw Hh Hn Hr) as [Hw' Ho].
    eexists (Ok tt), _. erewrite bind_ok by reflexivity. split; [reflexivity|].
    split; [by apply wf_device|]. by split_and!.
  - exists (Err AdminErr.InvalidCompletionQueueIdInDelete), w. by erewrite bind_err by reflexivity.
Qed.

Lemma delete_sq_ok w i f h :
  wf w → funcs w !! i = Some f → host_ok h →
  ∃ r w', Function.delete_sq i h w = ((λ d, (d, d)) <$> r, w') ∧ wf w' ∧ deletes_sq w w' i f h r.
Proof.
  intros Hw Hf Hh. unfold deletes_sq.
  unfold Function.delete_sq. erewrite bind_ok by (by apply func_step).
  pose proof (free_phase w i f Hw Hf Layout.Sq h AdminErr.InvalidSqId
    (λ d, call (qc_delete_sq (f_cntrl f) d h);; mret (d, d)) Hh) as Hp. cbv beta zeta in Hp.
  destruct (place_err f h) as [e|]; [by exists (Err e), w|].
  destruct (lookup_queue _ _ Layout.Sq h) as [d|]; [|by exists (Err AdminErr.InvalidSqId), w].
  destruct Hp as (n & r & Hn & Hr & Hp).
  destruct (set_queue_ok w _ Layout.Sq h n r false Hw Hh Hn Hr) as [Hw' Ho].
  eexists (Ok d), _. split; [exact Hp|]. split; [by apply wf_device|]. by split_and!.
Qed.

(** Deleting queues.  Deleting a queue that does not exist is an error that
    changes nothing, and so is deleting a completion queue whose submission
    queue of the same number exists; otherwise the map of queues loses exactly
    this queue, and the controller is told its device queue. *)
Theorem delete_queues_exact w i f h :
  wf w → funcs w !! i = Some f → host_ok h →
  (∃ r w', Function.delete_cq i h w = (r, w') ∧ wf w' ∧ deletes_cq w w' i f h r) ∧
  (∃ r w', Function.delete_sq i h w = ((λ d, (d, d)) <$> r, w') ∧ wf w' ∧ deletes_sq w w' i f h r).
Proof. intros Hw Hf Hh. split; [by apply delete_cq_ok|by apply delete_sq_ok]. Qed.

(** ** Isolation *)

Lemma lookup_queue_Some w p k h d :
  wf w → lookup_queue (resources w) p k h = Some d →
  ∃ n r, index_of h = Some n ∧ owned p (resources w) !! n = Some r ∧ d = dev_of h (Res.id r).
Proof.
  intros Hw. unfold lookup_queue. destruct (index_of h) as [n|]; [|done]. cbn.
  destruct (owned p (resources w) !! n) as [r|] eqn:Hr; [|done]. cbn.
  destruct (bit _ _); [|done]. intros [= <-]. by exists n, r.
Qed.

(** The device queue of a host queue as the code finds it, for both kinds; for
    submission queues it is [Function.dev_sq]. *)
Definition device_queue (i : nat) (k : Layout.kind) (h : Z) : M World AdminErr.t (option Z) :=
  f ← func i; n ← Function.resource_index f h; read_resource n (Res.dev k h).

Lemma device_queue_lookup w i k h d :
  wf w → host_ok h → device_queue i k h w = (Ok (Some d), w) →
  is_Some (funcs w !! i) ∧ lookup_queue (resources w) (Z.of_nat i) k h = Some d.
Proof.
  intros Hw Hh E. unfold device_queue in E. destruct (funcs w !! i) as [f|] eqn:Hf.
  2: { unfold func, mbind, M_bind, get in E. by rewrite Hf in E. }
  split; [done|]. erewrite bind_ok in E by (by apply func_step).
  pose proof (resource_index_step w i f Hw Hf h Hh) as Hri. destruct (place_err f h) as [e|].
  { by erewrite bind_err in E by exact Hri. }
  destruct Hri as (n & r & Hn & Hr & Hri). erewrite bind_ok in E by exact Hri.
  rewrite (lookup_here _ _ _ _ _ _ Hn Hr). unfold read_resource in E. erewrite bind_ok in E by reflexivity.
  rewrite (table_here _ _ _ _ Hw Hr) in E. unfold Res.dev in E. rewrite offset_ok in E by done.
  unfold lift, mbind, outcome_bind in E. rewrite device_id_ok in E by done.
  destruct (bit _ _); congruence.
Qed.

Lemma lookup_queue_disjoint w p p' k h h' d :
  wf w → host_ok h → host_ok h' → lookup_queue (resources w) p k h = Some d →
  lookup_queue (resources w) p' k h' = Some d → Queue.group h d = Queue.group h' d → p = p' ∧ h = h'.
Proof.
  intros Hw Hh Hh' Hl Hl' Hg. destruct (lookup_queue_Some _ _ _ _ _ Hw Hl) as (n & r & Hn & Hr & Hd).
  destruct (owned_lookup _ _ _ _ (wf_table w Hw) Hr) as (Hp & Htab & Hid & _ & Hpos).
  destruct (lookup_queue_Some _ _ _ _ _ Hw Hl') as (n' & r' & Hn' & Hr' & Hd').
  destruct (owned_lookup _ _ _ _ (wf_table w Hw) Hr') as (Hp' & Htab' & Hid' & _ & Hpos').
  destruct (dev_of_inj k h h' (Res.id r) (Res.id r')) as [Heq Ho]; try done; try congruence.
  rewrite Heq in Htab, Hpos. assert (r = r') as <- by congruence.
  assert (p = p') as <- by congruence. split; [done|].
  eapply (place_inj k k h h' n); try done. congruence.
Qed.

Lemma lookup_queue_not_admin w p k h d i f :
  wf w → host_ok h → lookup_queue (resources w) p k h = Some d → funcs w !! i = Some f →
  Queue.group h d = Queue.group Queue.ADMIN_QUEUE_ID (f_cntrl f) → d ≠ f_cntrl f.
Proof.
  intros Hw Hh Hl Hf Hg Heq. destruct (lookup_queue_Some _ _ _ _ _ Hw Hl) as (n & r & Hn & Hr & Hd).
  destruct (owned_lookup _ _ _ _ (wf_table w Hw) Hr) as (_ & _ & Hid & _).
  pose proof (cntrl_range w i f Hw Hf).
  unfold Queue.group, Queue.queue_group_and_channel, Queue.ADMIN_QUEUE_ID, Queue.HSM_QUEUE_START_ID,
    Queue.HSM_QUEUE_END_ID, dev_of, host_ok in *.
  rewrite wrap_small in Hd by (unfold uint_range; lia).
  repeat case_decide; simpl in *; try done; lia.
Qed.

(** A queue that was just created is new. *)
Lemma create_sq_new w i h hc mem d d' w' :
  wf w → host_ok h → host_ok hc → Function.create_sq i h hc mem w = (Ok (d, d'), w') →
  wf w' ∧ only_queue w w' (Z.of_nat i) Layout.Sq h (Some d) ∧
  lookup_queue (resources w) (Z.of_nat i) Layout.Sq h = None.
Proof.
  intros Hw Hh Hhc E. destruct (funcs w !! i) as [f|] eqn:Hf.
  2: { unfold Function.create_sq, func, mbind, M_bind, get in E. by rewrite Hf in E. }
  destruct (create_sq_ok w i f h hc mem Hw Hf Hh Hhc) as (r & w1 & E' & Hw1 & Hc). rewrite E in E'.
  injection E' as Er <-. split; [done|]. destruct r as [d1|e|]; [|done..]. injection Er as -> ->.
  unfold creates_sq, creates in Hc. destruct (place_err f hc); [by destruct Hc|].
  destruct (lookup_queue _ _ Layout.Cq hc); [|by destruct Hc]. destruct (place_err f h); [by destruct Hc|].
  destruct (lookup_queue _ _ Layout.Sq h); [by destruct Hc|]. destruct Hc as (d2 & _ & _ & Hc).
  destruct (qc_create_sq _ _ _ _ _).1; [|by destruct Hc..]. destruct Hc as [[= ->] Ho]. done.
Qed.

(** C23: isolation of the PCIe functions.  In a well-formed state take a device
    queue that the code maps a host queue of a function to.  The code maps no
    other host queue of the same kind, of this or another function, to the
    same queue of the same group of the queue controller; it is not the device
    queue of an admin queue; and no submission queue created next, by any
    function, gets it. *)
Theorem device_queues_disjoint w i k h d :
  wf w → host_ok h → device_queue i k h w = (Ok (Some d), w) →
  (∀ i' h', host_ok h' → device_queue i' k h' w = (Ok (Some d), w) →
     Queue.group h d = Queue.group h' d → i = i' ∧ h = h') ∧
  (∀ j f, funcs w !! j = Some f → Queue.group h d = Queue.group Queue.ADMIN_QUEUE_ID (f_cntrl f) →
     d ≠ f_cntrl f) ∧
  (∀ i' h' hc mem d1 d2 w', k = Layout.Sq → host_ok h' → host_ok hc →
     Function.create_sq i' h' hc mem w = (Ok (d1, d2), w') →
     Queue.group h d = Queue.group h' d1 → d1 ≠ d).
Proof.
  intros Hw Hh [_ Hl]%device_queue_lookup; [|done..]. split_and!.
  - intros i' h' Hh' [_ Hl']%device_queue_lookup Hg; [|done..].
    destruct (lookup_queue_disjoint w _ _ k h h' d Hw Hh Hh' Hl Hl' Hg). split; [lia|done].
  - intros j f Hf Hg. by eapply lookup_queue_not_admin.
  - intros i' h' hc mem d1 d2 w' -> Hh' Hhc (Hw' & Ho & Hn)%create_sq_new Hg ->; [|done..].
    destruct Ho as (_ & _ & _ & _ & _ & Ho).
    assert (¬ (Z.of_nat i = Z.of_nat i' ∧ h = h')) as Hne by (intros [Hi ->]; congruence).
    apply Hne, (lookup_queue_disjoint w' _ _ Layout.Sq h h' d); [done..| | |done].
    + rewrite Ho by done. by rewrite decide_False by tauto.
    + rewrite Ho by done. by rewrite decide_True.
Qed.
End props.
