(* ===== verification/FunctionMgrProps.v ===== *)
(** * Correctness of the function manager

    Moving resources between functions ([Mgr.set_res_cnt]), deleting the queues
    of a function ([Function.disable], [Function.reset]) and the invariant [wf]
    over every operation of the manager. *)

From stdpp Require Import base list numbers option.
From S2P Require Import Prelude Crates AdminError Queues Crc32 PcieFunctions QueueMaps PcieFunctionProps.

Local Open Scope Z_scope.

(** ** Updating the first elements that satisfy a predicate *)

Section update_first.
Context (P : Res.Resource → bool) (g : Res.Resource → Res.Resource).

Lemma update_first_length n l : length (Mgr.update_first P g n l) = length l.
Proof. revert n. induction l as [|r l IH]; intros [|n]; simpl; try done. by destruct (P r); simpl; rewrite IH. Qed.

Lemma update_first_lookup n l j r :
  Mgr.update_first P g n l !! j = Some r → ∃ r0, l !! j = Some r0 ∧ (r = r0 ∨ (r = g r0 ∧ P r0 = true)).
Proof.
  revert n j. induction l as [|r0 l IH]; intros [|n] j; simpl; try done.
  { intros Hj. exists r. auto. }
  destruct (P r0) eqn:Hp; (destruct j as [|j]; [intros [= <-]; exists r0; by auto|apply IH]).
Qed.

(** A predicate the update does not touch. *)
Lemma update_first_out Q n l :
  (∀ r, P r = true → Q r = false ∧ Q (g r) = false) →
  List.filter Q (Mgr.update_first P g n l) = List.filter Q l.
Proof.
  intros HQ. revert n. induction l as [|r l IH]; intros [|n]; simpl; try done.
  destruct (P r) eqn:Hp; simpl; rewrite IH; [|done]. by destruct (HQ r Hp) as [-> ->].
Qed.

(** A predicate the update makes true. *)
Lemma update_first_in Q n l :
  (∀ r, P r = true → Q r = false ∧ Q (g r) = true) → (n ≤ length (List.filter P l))%nat →
  length (List.filter Q (Mgr.update_first P g n l)) = (length (List.filter Q l) + n)%nat.
Proof.
  intros HQ. revert n. induction l as [|r l IH]; intros [|n]; simpl; try done; try lia.
  destruct (P r) eqn:Hp; simpl.
  - intros Hn. destruct (HQ r Hp) as [-> ->]. simpl. rewrite IH by lia. lia.
  - intros Hn. destruct (Q r); simpl; rewrite IH by lia; lia.
Qed.

(** The elements that no longer satisfy it are the first. *)
Lemma update_first_drop n l :
  (∀ r, P r = true → P (g r) = false) →
  List.filter P (Mgr.update_first P g n l) = drop n (List.filter P l).
Proof.
  intros HP. revert n. induction l as [|r l IH]; intros [|n]; simpl; try done.
  destruct (P r) eqn:Hp; simpl; [by rewrite (HP r Hp), IH|by rewrite Hp, IH].
Qed.
End update_first.

Section props.
Context `{BC : BitCrate} `{ZZ : Zeroize} `{QCL : QueueControllerLaws}.

(** ** Moving resources *)

Lemma elem_of_owned r p l : r ∈ owned p l ↔ r ∈ l ∧ owns p r = true.
Proof. unfold owned. rewrite !list_elem_of_In. apply List.filter_In. Qed.

Lemma table_update_first P g n l :
  (∀ r, Res.id (g r) = Res.id r ∧ (Res.alloc_map (g r) = 0 ∨ Res.alloc_map (g r) = Res.alloc_map r)) →
  table_ok l → table_ok (Mgr.update_first P g n l).
Proof.
  intros Hg [Hl Ht]. split; [by rewrite update_first_length|]. intros j r Hj.
  apply update_first_lookup in Hj as (r0 & Hj & [->|[-> _]]); [by apply Ht|].
  destruct (Ht _ _ Hj) as [Hid Hm]. destruct (Hg r0) as [-> [->| ->]]; (split; [done|]); [|done].
  unfold uint_range. lia.
Qed.

(** Moving [n] resources from the predicate [P] with the update [g]. *)
Definition moved (w : World) (i : nat) (f : FunctionImpl) (l : list Res.Resource) (free cnt : Z) : World :=
  with_crc (Mgr.get_crc l)
    (with_funcs (<[i := mkFunction (f_cntrl f) (f_admin_queue f) cnt (f_pfn f)]> (funcs w))
       (with_free free (with_resources l w))).

Lemma moved_wf w i f l free cnt :
  wf w → funcs w !! i = Some f → table_ok l →
  Z.of_nat (length (owned (Z.of_nat i) l)) = cnt → Z.of_nat (length (free_resources l)) = free →
  (∀ q, q ≠ Z.of_nat i → owned q l = owned q (resources w)) →
  wf (moved w i f l free cnt).
Proof.
  intros Hw Hf Ht Hc Hfree Ho. pose proof (lookup_lt_Some _ _ _ Hf) as Hi. constructor; simpl.
  - done.
  - rewrite length_insert. apply Hw.
  - intros j x. rewrite list_lookup_insert. case_decide as Hj.
    + intros [= <-]. destruct Hj as [<- _]. destruct (wf_funcs w Hw i f Hf) as (H1 & H2 & H3 & H4).
      by split_and!.
    + intros Hx. destruct (wf_funcs w Hw j x Hx) as (H1 & H2 & H3 & H4). split_and!; try done.
      simpl. rewrite Ho; [done|]. intros He. apply Hj. split; [by apply Nat2Z.inj|done].
  - done.
  - by left.
Qed.

Lemma counts_small w : wf w → ∀ q,
  (length (owned q (resources w)) + length (free_resources (resources w)) ≤ 65)%nat.
Proof.
  intros Hw q. destruct (wf_table w Hw) as [<- _]. generalize (resources w). clear.
  induction l as [|r l IH]; [done|]. unfold owned, owns, free_resources in *. simpl.
  repeat case_bool_decide; simpl; try lia. congruence.
Qed.

(** What [set_res_cnt] does once the enable bit is cleared. *)
Lemma grow_ok w i f cnt :
  wf w → funcs w !! i = Some f → f_res_cnt f < cnt → cnt - f_res_cnt f ≤ free_resource_cnt w →
  let p := Z.of_nat i in
  let l := Mgr.update_first (λ r, bool_decide (Res.pfn r = None))
             (λ r, Res.reset (Res.set_pfn (Some p) r)) (Z.to_nat (cnt - f_res_cnt f)) (resources w) in
  let w' := moved w i f l (free_resource_cnt w - (cnt - f_res_cnt f)) cnt in
  wf w' ∧ Z.of_nat (length (owned p l)) = cnt ∧
  (∀ q, q ≠ p → owned q l = owned q (resources w)) ∧
  Forall (λ r, r ∈ owned p (resources w) ∨ Res.alloc_map r = 0) (owned p l).
Proof.
  intros Hw Hf Hlt Hfree p l w'. destruct (wf_funcs w Hw i f Hf) as (_ & _ & Hc & _).
  pose proof (wf_free w Hw) as Hfr.
  assert (Z.of_nat (length (owned p l)) = cnt) as Hcnt.
  { unfold l, owned. rewrite update_first_in; [unfold p, owned in *; lia|..|unfold free_resources in *; lia].
    intros r Hr. apply bool_decide_eq_true in Hr. unfold owns. simpl.
    by rewrite Hr, bool_decide_eq_false_2, bool_decide_eq_true_2. }
  assert (∀ q, q ≠ p → owned q l = owned q (resources w)) as Hother.
  { intros q Hq. apply update_first_out. intros r Hr. apply bool_decide_eq_true in Hr.
    unfold owns. simpl. rewrite Hr. split; apply bool_decide_eq_false_2; congruence. }
  split_and!; [|done..|].
  - apply moved_wf; try done.
    + apply table_update_first; [by simpl; auto|apply Hw].
    + unfold l, free_resources. rewrite update_first_drop by done. rewrite length_drop.
      unfold free_resources in *. lia.
  - apply Forall_forall. intros r [Hr Hp]%list_elem_of_In%elem_of_owned.
    apply list_elem_of_lookup in Hr as [j Hj].
    apply update_first_lookup in Hj as (r0 & Hj & [->|[-> _]]); [left|by right].
    apply elem_of_owned. split; [|done]. by eapply list_elem_of_lookup_2.
Qed.

Lemma shrink_ok w i f cnt :
  wf w → funcs w !! i = Some f → 0 ≤ cnt < f_res_cnt f →
  let p := Z.of_nat i in
  let l := Mgr.update_first (owns p) (Res.set_pfn None) (Z.to_nat (f_res_cnt f - cnt)) (resources w) in
  let w' := moved w i f l (wrap 32 (free_resource_cnt w + (f_res_cnt f - cnt))) cnt in
  wf w' ∧ owned p l = drop (Z.to_nat (f_res_cnt f - cnt)) (owned p (resources w)) ∧
  Z.of_nat (length (owned p l)) = cnt ∧
  free_resource_cnt w' = free_resource_cnt w + (f_res_cnt f - cnt) ∧
  (∀ q, q ≠ p → owned q l = owned q (resources w)).
Proof.
  intros Hw Hf Hlt p l w'. destruct (wf_funcs w Hw i f Hf) as (_ & _ & Hc & _).
  pose proof (wf_free w Hw) as Hfr. pose proof (counts_small w Hw p) as Hs. unfold p in Hs.
  assert (owned p l = drop (Z.to_nat (f_res_cnt f - cnt)) (owned p (resources w))) as Hd.
  { apply update_first_drop. intros r Hr. by apply bool_decide_eq_false_2. }
  assert (Z.of_nat (length (owned p l)) = cnt) as Hcnt by (rewrite Hd, length_drop; unfold p; lia).
  assert (wrap 32 (free_resource_cnt w + (f_res_cnt f - cnt)) = free_resource_cnt w + (f_res_cnt f - cnt))
    as Hwr by (apply wrap_small; unfold uint_range; lia).
  assert (∀ q, q ≠ p → owned q l = owned q (resources w)) as Hother.
  { intros q Hq. apply update_first_out. intros r Hr. apply bool_decide_eq_true in Hr.
    unfold owns. simpl. rewrite Hr. split; [apply bool_decide_eq_false_2; congruence|done]. }
  split_and!; try done. apply moved_wf; try done.
  - apply table_update_first; [by simpl; auto|apply Hw].
  - unfold l, free_resources. rewrite update_first_in.
    + rewrite Hwr. unfold free_resources in *. lia.
    + intros r Hr. apply bool_decide_eq_true in Hr. simpl. by rewrite Hr.
    + fold (owned p (resources w)). unfold p. lia.
Qed.

(** The state [set_res_cnt] works on: the enable bit of a virtual function is
    cleared first. *)
Definition cleared_enable (w : World) (p : Z) (f : FunctionImpl) : World :=
  if negb (bool_decide (p = Pcie.Pf)) && qc_enabled (f_cntrl f) (device w)
  then with_device (qc_clear_enable (f_cntrl f) (device w)) w else w.

Lemma set_res_cnt_ok w i f cnt :
  wf w → funcs w !! i = Some f → 0 ≤ cnt →
  let p := Z.of_nat i in
  ∃ r w', Mgr.set_res_cnt p cnt w = (r, w') ∧ wf w' ∧
    device w' = device (cleared_enable w p f) ∧
    if decide (cnt ≤ f_res_cnt f + free_resource_cnt w) then
      r = Ok (f_res_cnt f) ∧ Z.of_nat (length (owned p (resources w'))) = cnt ∧
      cnt + free_resource_cnt w' = f_res_cnt f + free_resource_cnt w ∧
      (∀ q, q ≠ p → owned q (resources w') = owned q (resources w)) ∧
      Forall (λ r, r ∈ owned p (resources w) ∨ Res.alloc_map r = 0) (owned p (resources w'))
    else r = Err AdminErr.SetResCountLimitExceeded ∧ w' = cleared_enable w p f.
Proof.
  intros Hw Hf Hcnt p. pose proof (func_step w i f Hf (E:=AdminErr.t)) as Hfs.
  assert (Mgr.index p = i) as Hidx by apply Nat2Z.id.
  unfold Mgr.set_res_cnt. rewrite Hidx. erewrite bind_ok by exact Hfs.
  erewrite bind_ok by reflexivity.
  set (w0 := cleared_enable w p f).
  assert (wf w0) as Hw0 by (unfold w0, cleared_enable; destruct (_ && _); [by apply wf_device|done]).
  assert (funcs w0 = funcs w ∧ resources w0 = resources w ∧ free_resource_cnt w0 = free_resource_cnt w)
    as (Hf0 & Hr0 & Hfr0) by (unfold w0, cleared_enable; by destruct (_ && _)).
  rewrite <-Hf0 in Hf. rewrite <-Hfr0, <-Hr0.
  erewrite (bind_ok _ _ w tt w0).
  2: { unfold w0, cleared_enable. destruct (_ && _); [|done].
       unfold Function.clear_enable. by erewrite bind_ok by exact Hfs. }
  clearbody w0. destruct (Z.compare_spec (f_res_cnt f) cnt) as [He|Hlt|Hgt].
  - exists (Ok (f_res_cnt f)), w0. erewrite bind_ok by reflexivity.
    pose proof (wf_free w0 Hw0). rewrite decide_True by lia. split_and!; try done.
    + destruct (wf_funcs w0 Hw0 i f Hf) as (_ & _ & Hc & _). unfold p. lia.
    + lia.
    + apply Forall_forall. intros r Hr%list_elem_of_In. by left.
  - case_decide as Hd.
    + destruct (grow_ok w0 i f cnt) as (H1 & H2 & H3 & H4); [done|done|lia|lia|].
      eexists _, _. erewrite bind_ok.
      2: { erewrite bind_ok by reflexivity. rewrite bool_decide_eq_false_2 by lia.
           do 3 (erewrite bind_ok by reflexivity). erewrite bind_ok; [reflexivity|].
           unfold Function.set_res_cnt. by erewrite bind_ok by (by apply func_step). }
      split; [reflexivity|]. split_and!; try done. simpl. lia.
    + exists (Err AdminErr.SetResCountLimitExceeded), w0. erewrite bind_err; [done|].
      erewrite bind_ok by reflexivity. rewrite bool_decide_eq_true_2 by lia. done.
  - pose proof (wf_free w0 Hw0).
    destruct (shrink_ok w0 i f cnt) as (H1 & H2 & H3 & H4 & H5); [done|done|lia|].
    eexists _, _. rewrite decide_True by lia. erewrite bind_ok.
    2: { do 3 (erewrite bind_ok by reflexivity). erewrite bind_ok; [reflexivity|].
         unfold Function.set_res_cnt. by erewrite bind_ok by (by apply func_step). }
    split; [reflexivity|]. split_and!; try done.
    + simpl in *. lia.
    + cbn [resources Mgr.update_crc]. simpl. fold p in H2. rewrite H2. apply Forall_forall.
      intros r Hr%list_elem_of_In. left.
      rewrite <-(take_drop (Z.to_nat (f_res_cnt f - cnt)) (owned p _)). apply elem_of_app. by right.
Qed.

(** Moving resources.  Setting the number of resources of a function
    succeeds exactly when the function's resources and the free ones suffice,
    returns the former number, and moves that many resources between the
    function and the free ones; the resources of every other function and
    their queues stay as they are, and the resources the function gains hold
    no queue of a former owner.  Otherwise nothing but the enable bit has
    changed. *)
Theorem set_res_cnt_exact w i f cnt :
  wf w → funcs w !! i = Some f → 0 ≤ cnt →
  let p := Z.of_nat i in
  ∃ r w', Mgr.set_res_cnt p cnt w = (r, w') ∧ wf w' ∧
    device w' = device (cleared_enable w p f) ∧
    if decide (cnt ≤ f_res_cnt f + free_resource_cnt w) then
      r = Ok (f_res_cnt f) ∧ Z.of_nat (length (owned p (resources w'))) = cnt ∧
      cnt + free_resource_cnt w' = f_res_cnt f + free_resource_cnt w ∧
      (∀ q, q ≠ p → owned q (resources w') = owned q (resources w)) ∧
      Forall (λ r, r ∈ owned p (resources w) ∨ Res.alloc_map r = 0) (owned p (resources w'))
    else r = Err AdminErr.SetResCountLimitExceeded ∧ w' = cleared_enable w p f.
Proof. apply set_res_cnt_ok. Qed.

(** ** Deleting the queues of a function *)

Definition enabled_bits (m : Z) (offs : list nat) : list nat := List.filter (bit m) offs.

Lemma first_from_ok {E} r i offs :
  (i < 65)%nat → Forall (λ o, o < 6)%nat offs →
  Res.first_from (E:=E) r i offs = Ok (head (queue_at i <$> enabled_bits (Res.alloc_map r) offs)).
Proof.
  intros Hi. induction 1 as [|o offs Ho _ IH]; [done|]. unfold enabled_bits in *. simpl.
  destruct (bit _ o); [|done]. by rewrite host_queue_id_ok.
Qed.

Lemma list_from_ok {E} r i offs :
  (i < 65)%nat → Forall (λ o, o < 6)%nat offs →
  Res.list_from (E:=E) r i offs = Ok (queue_at i <$> enabled_bits (Res.alloc_map r) offs).
Proof.
  intros Hi. induction 1 as [|o offs Ho _ IH]; [done|]. unfold enabled_bits in *. simpl.
  destruct (bit _ o); [|done]. rewrite host_queue_id_ok by done. cbn [mbind outcome_bind]. by rewrite IH.
Qed.

Lemma filter_tail {A} `{EqDecision A} (P Q : A → bool) l o t :
  NoDup l → List.filter P l = o :: t → Q o = false → (∀ x, x ∈ l → x ≠ o → Q x = P x) →
  List.filter Q l = t.
Proof.
  intros Hn. revert o t. induction Hn as [|x l Hx Hn IH]; [done|]. intros o t. simpl.
  destruct (P x) eqn:HP.
  - intros [= <- <-] HQ Hs. rewrite HQ. apply List.filter_ext_in. intros y Hy%list_elem_of_In.
    apply Hs; [by right|naive_solver].
  - intros Hf HQ Hs. rewrite Hs, HP; [|by left|].
    { eapply IH; [done..|]. intros y Hy. apply Hs. by right. }
    intros ->.
    assert (P o = true) by (eapply (List.filter_In P o l); rewrite Hf; by left). congruence.
Qed.

(** Clearing a bit of a kind takes it off the enabled bits. *)
Lemma enabled_bits_clear m offs o t :
  uint_range 8 m → NoDup offs → Forall (λ o, o < 6)%nat offs → enabled_bits m offs = o :: t →
  enabled_bits (set_bit 8 m o false) offs = t.
Proof.
  intros Hm Hn Ho He.
  assert (o < 6)%nat.
  { assert (In o offs) as Hin by (eapply (List.filter_In (bit m)); unfold enabled_bits in He; rewrite He; by left).
    apply list_elem_of_In in Hin. eapply list.Forall_forall in Ho; [|done]. done. }
  eapply (filter_tail (bit m)); [done..| |].
  - rewrite set_bit_spec by (done || lia). by rewrite decide_True.
  - intros x Hx Hne. eapply list.Forall_forall in Ho; [|done].
    rewrite set_bit_spec by (done || lia). by rewrite decide_False.
Qed.

Definition kind_offsets (k : Layout.kind) : list nat := seq (Layout.OFFSET k) Layout.LEN.

Lemma kind_offsets_ok k : NoDup (kind_offsets k) ∧ Forall (λ o, o < 6)%nat (kind_offsets k).
Proof.
  split; [apply NoDup_seq|]. apply list.Forall_forall. intros o [H1 H2]%elem_of_seq.
  unfold Layout.LEN in *. destruct k; simpl in *; lia.
Qed.

Lemma kind_offsets_elem k o : o ∈ kind_offsets k ↔ (o < 6)%nat ∧ kind_of o = k.
Proof.
  unfold kind_offsets, Layout.LEN, kind_of. rewrite elem_of_seq.
  destruct k; simpl; case_decide; naive_solver lia.
Qed.

#[local] Arguments kind_offsets : simpl never.
#[local] Arguments enabled_bits : simpl never.

(** The queues of one resource, and telling the controller about them. *)
Definition res_queues (k : Layout.kind) (i : nat) (r : Res.Resource) : list (Layout.kind * Z * Z) :=
  (λ o, (k, queue_at i o, dev_of (queue_at i o) (Res.id r))) <$>
    enabled_bits (Res.alloc_map r) (kind_offsets k).
Definition delete_all (c : Z) (l : list (Layout.kind * Z * Z)) (s : hw) : hw :=
  foldl (λ s '(k, h, d), Function.delete_queue k c d h s) s l.

Lemma free_loop_ok fuel k c i r s :
  (i < 65)%nat → uint_range 8 (Res.alloc_map r) → (length (res_queues k i r) < fuel)%nat →
  ∃ m, Function.free_loop fuel k c i r s = Ok (Res.set_map m r, delete_all c (res_queues k i r) s) ∧
    uint_range 8 m ∧ ∀ o, (o < 6)%nat → bit m o = bit (Res.alloc_map r) o && negb (bool_decide (kind_of o = k)).
Proof.
  destruct (kind_offsets_ok k) as [Hnd Hlt]. intros Hi. unfold res_queues. rewrite length_fmap.
  revert r s. induction fuel as [|fuel IH]; intros r s Hm Hf; [lia|].
  cbn [Function.free_loop]. unfold Res.host_first. fold (kind_offsets k). rewrite first_from_ok by done.
  cbn [mbind outcome_bind]. destruct (enabled_bits (Res.alloc_map r) (kind_offsets k)) as [|o t] eqn:He.
  - exists (Res.alloc_map r). split; [by destruct r|]. split; [done|]. intros o Ho.
    destruct (bit (Res.alloc_map r) o) eqn:Hb; [|done]. simpl. case_bool_decide as Hk; [|done].
    assert (In o (enabled_bits (Res.alloc_map r) (kind_offsets k))) as Hin.
    { apply List.filter_In. split; [|done]. by apply list_elem_of_In, kind_offsets_elem. }
    by rewrite He in Hin.
  - simpl. assert (o ∈ kind_offsets k ∧ bit (Res.alloc_map r) o = true) as [Hin Hb].
    { rewrite list_elem_of_In. apply (List.filter_In (bit (Res.alloc_map r))).
      unfold enabled_bits in He. rewrite He. by left. }
    apply kind_offsets_elem in Hin as [Ho Hk].
    assert (offset_of k (queue_at i o) = o) as Hoff by (rewrite <-Hk; by apply offset_queue_at).
    pose proof (queue_at_ok i o Hi) as Hh.
    unfold Res.free. rewrite offset_ok by done. rewrite Hoff. cbn [mbind outcome_bind]. rewrite Hb.
    rewrite device_id_ok by done. cbn [mbind outcome_bind Res.set_map Res.id].
    set (r' := Res.mkResource (Res.pfn r) (set_bit 8 (Res.alloc_map r) o false) (Res.id r)).
    assert (uint_range 8 (Res.alloc_map r')) as Hm' by (apply set_bit_range; [done|lia]).
    assert (enabled_bits (Res.alloc_map r') (kind_offsets k) = t) as Ht by (by apply enabled_bits_clear).
    destruct (IH r' (Function.delete_queue k c (dev_of (queue_at i o) (Res.id r)) (queue_at i o) s))
      as (m & Hloop & Hmr & Hbits); [done|rewrite Ht; simpl in Hf; lia|].
    exists m. rewrite Ht in Hloop. split; [exact Hloop|]. split; [done|].
    intros o' Ho'. rewrite Hbits by done. simpl. rewrite set_bit_spec by (done || lia).
    case_decide as Hd; [subst o'|done]. rewrite bool_decide_eq_true_2 by done. by rewrite !andb_false_r.
Qed.

#[local] Arguments Function.free_loop : simpl never.

Lemma res_queues_other k k' i r m :
  k ≠ k' →
  (∀ o, (o < 6)%nat → bit m o = bit (Res.alloc_map r) o && negb (bool_decide (kind_of o = k))) →
  res_queues k' i (Res.set_map m r) = res_queues k' i r.
Proof.
  intros Hk Hm. unfold res_queues. f_equal. apply List.filter_ext_in.
  intros o [Ho Hko]%list_elem_of_In%kind_offsets_elem. simpl. rewrite Hm by done.
  rewrite bool_decide_eq_false_2 by congruence. apply andb_true_r.
Qed.

(** The queues of the resources [l] of a function, from position [i]. *)
Fixpoint io_queues (i : nat) (l : list Res.Resource) : list (Layout.kind * Z * Z) :=
  match l with
  | [] => []
  | r :: l => res_queues Layout.Sq i r ++ res_queues Layout.Cq i r ++ io_queues (S i) l
  end.

Definition emptied (r r' : Res.Resource) : Prop :=
  Res.pfn r' = Res.pfn r ∧ Res.id r' = Res.id r ∧ uint_range 8 (Res.alloc_map r') ∧
  ∀ o, (o < 6)%nat → bit (Res.alloc_map r') o = false.
Definition emptied_of (p : Z) (r r' : Res.Resource) : Prop := if owns p r then emptied r r' else r' = r.

Lemma res_queues_fuel k i r : (length (res_queues k i r) < Function.FREE_FUEL)%nat.
Proof.
  unfold res_queues, enabled_bits, Function.FREE_FUEL. rewrite length_fmap.
  pose proof (List.filter_length_le (bit (Res.alloc_map r)) (kind_offsets k)).
  unfold kind_offsets, Layout.LEN in *. rewrite length_seq in *. lia.
Qed.

Lemma delete_io_loop_ok c p i l s :
  (i + length (owned p l) ≤ 65)%nat → Forall (λ r, uint_range 8 (Res.alloc_map r)) l →
  ∃ l', Function.delete_io_loop c p i l s = Ok (l', delete_all c (io_queues i (owned p l)) s) ∧
    Forall2 (emptied_of p) l l'.
Proof.
  intros Hi Hl. revert i s Hi. induction Hl as [|r l Hr _ IH]; intros i s Hi; [by exists []|].
  unfold owned in Hi |- *. simpl in *. unfold emptied_of. destruct (owns p r) eqn:Ho; simpl in *.
  - destruct (free_loop_ok Function.FREE_FUEL Layout.Sq c i r s) as (m & -> & Hm & Hbits);
      [lia|done|apply res_queues_fuel|]. cbn [mbind outcome_bind].
    destruct (free_loop_ok Function.FREE_FUEL Layout.Cq c i (Res.set_map m r)
      (delete_all c (res_queues Layout.Sq i r) s)) as (m' & -> & Hm' & Hbits');
      [lia|done|apply res_queues_fuel|]. cbn [mbind outcome_bind].
    rewrite (res_queues_other Layout.Sq Layout.Cq i r m) by done.
    destruct (IH (S i) (delete_all c (res_queues Layout.Cq i r)
      (delete_all c (res_queues Layout.Sq i r) s))) as (l' & -> & Hl'); [unfold owned; lia|].
    eexists. cbn [mbind outcome_bind]. split.
    { unfold delete_all. by rewrite !foldl_app. }
    constructor; [|done]. rewrite Ho. split_and!; try done. simpl. intros o Hlt.
    rewrite Hbits' by done. simpl. rewrite Hbits by done.
    destruct (kind_of o); simpl; by rewrite ?andb_false_r.
  - destruct (IH i s) as (l' & -> & Hl'); [done|]. eexists. cbn [mbind outcome_bind].
    split; [done|]. constructor; [|done]. by rewrite Ho.
Qed.

Lemma emptied_owned p q l l' :
  Forall2 (emptied_of p) l l' →
  Forall2 (λ r r', if decide (q = p) then emptied r r' else r' = r) (owned q l) (owned q l') ∧
  Res.pfn <$> l' = Res.pfn <$> l.
Proof.
  induction 1 as [|r r' l l' Hr _ IH]; [by split; [constructor|]|]. destruct IH as [IH Hp].
  unfold emptied_of in Hr. split.
  2: { rewrite !fmap_cons, Hp. f_equal. destruct (owns p r); [apply Hr|by subst]. }
  unfold owned in *. simpl. destruct (owns p r) eqn:Ho.
  - destruct Hr as (H1 & H2). assert (owns q r' = owns q r) as -> by (unfold owns; by rewrite H1).
    destruct (owns q r) eqn:Hq; [|done]. constructor; [|done]. rewrite decide_True; [done|].
    unfold owns in *. apply bool_decide_eq_true in Ho, Hq. congruence.
  - subst r'. destruct (owns q r) eqn:Hq; [|done]. constructor; [|done].
    rewrite decide_False; [done|]. congruence.
Qed.

Lemma emptied_queues p l l' :
  Forall2 (emptied_of p) l l' → ∀ q k h,
  lookup_queue l' q k h = if decide (q = p) then None else lookup_queue l q k h.
Proof.
  intros Hl q k h. destruct (emptied_owned p q l l' Hl) as [Ho _]. unfold lookup_queue.
  destruct (index_of h) as [n|]; cbn; [|by case_decide].
  pose proof (offset_of_lt k h). case_decide.
  - destruct (owned q l' !! n) as [r'|] eqn:Hr'; [|done]. cbn.
    eapply Forall2_lookup_r in Ho as (r & _ & He); [|done].
    destruct He as (_ & _ & _ & He). by rewrite He.
  - assert (owned q l = owned q l') as ->; [|done]. clear -Ho.
    induction Ho; [done|]. by subst; f_equal.
Qed.

Lemma emptied_table p l l' : Forall2 (emptied_of p) l l' → table_ok l → table_ok l'.
Proof.
  intros Hl [Hlen Ht]. split; [by rewrite <-(list.Forall2_length _ _ _ Hl)|]. intros j r' Hj.
  eapply Forall2_lookup_r in Hl as (r & Hr & He); [|done]. destruct (Ht _ _ Hr) as [H1 H2].
  unfold emptied_of in He. destruct (owns p r); [|by subst]. destruct He as (_ & -> & ? & _). done.
Qed.

Lemma table_ranges l : table_ok l → Forall (λ r, uint_range 8 (Res.alloc_map r)) l.
Proof. intros [_ Ht]. apply Forall_lookup. intros j r Hj. by apply (Ht j). Qed.

Lemma owned_small p l : table_ok l → (length (owned p l) ≤ 65)%nat.
Proof. intros [<- _]. apply List.filter_length_le. Qed.

(** [delete_io_queues] needs the table alone. *)
Lemma delete_io_queues_table w f :
  table_ok (resources w) →
  ∃ l', Function.delete_io_queues f w =
      (Ok tt, with_device (delete_all (f_cntrl f) (io_queues 0 (owned (f_pfn f) (resources w))) (device w))
                (with_resources l' w)) ∧
    Forall2 (emptied_of (f_pfn f)) (resources w) l' ∧ table_ok l'.
Proof.
  intros Ht.
  destruct (delete_io_loop_ok (f_cntrl f) (f_pfn f) 0 (resources w) (device w)) as (l' & Hloop & Hl).
  { by apply owned_small. }
  { by apply table_ranges. }
  exists l'. unfold Function.delete_io_queues. erewrite bind_ok by reflexivity. rewrite Hloop.
  split_and!; [done..|]. by eapply emptied_table.
Qed.

Lemma delete_io_queues_ok w i f :
  wf w → funcs w !! i = Some f →
  ∃ l', Function.delete_io_queues f w =
      (Ok tt, with_device (delete_all (f_cntrl f) (io_queues 0 (owned (Z.of_nat i) (resources w))) (device w))
                (with_resources l' w)) ∧
    Forall2 (emptied_of (Z.of_nat i)) (resources w) l' ∧ wf (with_resources l' w).
Proof.
  intros Hw Hf. destruct (wf_funcs w Hw i f Hf) as (Hp & _).
  destruct (delete_io_queues_table w f (wf_table w Hw)) as (l' & Hd & Hl & Ht). rewrite Hp in *.
  exists l'. split_and!; [done..|]. apply wf_owners; [done..|].
  by apply (emptied_owned _ 0 _ _ Hl).
Qed.

(** The list holds exactly the queues of the function. *)
Lemma elem_of_res_queues k h d k' i r :
  (k, h, d) ∈ res_queues k' i r ↔
  k = k' ∧ ∃ o, (o < 6)%nat ∧ kind_of o = k ∧ bit (Res.alloc_map r) o = true ∧
    h = queue_at i o ∧ d = dev_of h (Res.id r).
Proof.
  unfold res_queues, enabled_bits. rewrite list_elem_of_fmap.
  setoid_rewrite list_elem_of_In. setoid_rewrite List.filter_In.
  setoid_rewrite <-list_elem_of_In. setoid_rewrite kind_offsets_elem. naive_solver.
Qed.

Lemma elem_of_io_queues k h d i l :
  (k, h, d) ∈ io_queues i l ↔
  ∃ j r o, l !! j = Some r ∧ (o < 6)%nat ∧ kind_of o = k ∧ bit (Res.alloc_map r) o = true ∧
    h = queue_at (i + j) o ∧ d = dev_of h (Res.id r).
Proof.
  revert i. induction l as [|r l IH]; intros i; simpl.
  { split; [by intros ?%not_elem_of_nil|naive_solver]. }
  rewrite !elem_of_app, IH, !elem_of_res_queues. split.
  - intros [(_ & o & Ho)|[(_ & o & Ho)|(j & r' & o & Hj & Ho)]].
    + exists 0%nat, r, o. by rewrite Nat.add_0_r.
    + exists 0%nat, r, o. by rewrite Nat.add_0_r.
    + exists (S j), r', o. by rewrite <-Nat.add_succ_comm.
  - intros ([|j] & r' & o & Hj & Ho & Hk & Hrest).
    + simpl in Hj. injection Hj as ->. rewrite Nat.add_0_r in Hrest.
      destruct k; [left|right; left]; (split; [done|]); by exists o.
    + right; right. exists j, r', o. by rewrite <-Nat.add_succ_comm in Hrest.
Qed.

Lemma io_queues_lookup w p k h d :
  wf w →
  (k, h, d) ∈ io_queues 0 (owned p (resources w)) ↔ host_ok h ∧ lookup_queue (resources w) p k h = Some d.
Proof.
  intros Hw. rewrite elem_of_io_queues. simpl. pose proof (counts_small w Hw p). split.
  - intros (j & r & o & Hj & Ho & <- & Hb & -> & ->).
    pose proof (lookup_lt_Some _ _ _ Hj). assert (j < 65)%nat by lia.
    split; [by apply queue_at_ok|]. unfold lookup_queue. rewrite index_queue_at by done. cbn. rewrite Hj. cbn.
    by rewrite offset_queue_at, Hb.
  - intros [Hh Hl]. unfold lookup_queue in Hl. destruct (index_of h) as [n|] eqn:Hn; [|done]. cbn in Hl.
    destruct (owned p (resources w) !! n) as [r|] eqn:Hr; [|done]. cbn in Hl.
    destruct (bit _ _) eqn:Hb; [|done]. injection Hl as <-.
    exists n, r, (offset_of k h). rewrite (queue_at_of k h n) by done.
    split_and!; try done; [apply offset_of_lt|apply offset_of_kind].
Qed.

Lemma wf_set_func w i f f' :
  wf w → funcs w !! i = Some f → f_cntrl f' = f_cntrl f → f_pfn f' = f_pfn f → f_res_cnt f' = f_res_cnt f →
  (∀ q, f_admin_queue f' = Some q → (q < length (queues w))%nat) →
  wf (with_funcs (<[i := f']> (funcs w)) w).
Proof.
  intros Hw Hf H1 H2 H3 H4. constructor; simpl; try apply Hw.
  - rewrite length_insert. apply Hw.
  - intros j x. rewrite list_lookup_insert. case_decide as Hj.
    + intros [= <-]. destruct Hj as [<- _]. destruct (wf_funcs w Hw i f Hf) as (F1 & F2 & F3 & F4).
      unfold func_ok. by rewrite H1, H2, H3.
    + intros Hx. by apply (wf_funcs w Hw).
Qed.

Lemma wf_queues w l : wf w → (length (queues w) ≤ length l)%nat → wf (with_queues l w).
Proof.
  intros Hw Hl. constructor; simpl; try apply Hw. intros j x Hx.
  destruct (wf_funcs w Hw j x Hx) as (F1 & F2 & F3 & F4). split_and!; try done.
  simpl. intros q Hq. specialize (F4 q Hq). lia.
Qed.

(** The state [w'] has lost the queues of function [p] and no other, and the
    controller was told about each of them. *)
Definition queues_deleted (w w' : World) (p c : Z) (after : hw → hw) : Prop :=
  (∀ q k h, lookup_queue (resources w') q k h =
     if decide (q = p) then None else lookup_queue (resources w) q k h) ∧
  Res.pfn <$> resources w' = Res.pfn <$> resources w ∧
  ∃ l, (∀ k h d, (k, h, d) ∈ l ↔ host_ok h ∧ lookup_queue (resources w) p k h = Some d) ∧
    device w' = after (delete_all c l (device w)).

Lemma queues_deleted_intro w w' i f l' after :
  wf w → Forall2 (emptied_of (Z.of_nat i)) (resources w) l' → resources w' = l' →
  device w' = after (delete_all (f_cntrl f) (io_queues 0 (owned (Z.of_nat i) (resources w))) (device w)) →
  queues_deleted w w' (Z.of_nat i) (f_cntrl f) after.
Proof.
  intros Hw Hl Hr Hd. unfold queues_deleted. rewrite Hr. split_and!.
  - by apply emptied_queues.
  - by destruct (emptied_owned _ 0 _ _ Hl).
  - eexists. split; [|exact Hd]. intros k h d. by apply io_queues_lookup.
Qed.

Lemma disable_ok w i f :
  wf w → funcs w !! i = Some f →
  ∃ w', Function.disable i w = (Ok tt, w') ∧ wf w' ∧
    queues_deleted w w' (Z.of_nat i) (f_cntrl f) (λ s,
      qc_disable (f_cntrl f) (qc_delete_cq (f_cntrl f) (f_cntrl f) 0
        (qc_delete_sq (f_cntrl f) (f_cntrl f) 0 s))) ∧
    funcs w' = <[i := mkFunction (f_cntrl f) None (f_res_cnt f) (f_pfn f)]> (funcs w) ∧
    ∀ q, queues w' !! q =
      (if decide (f_admin_queue f = Some q) then AdminQueue_invalidate <$> queues w !! q else queues w !! q).
Proof.
  intros Hw Hf. destruct (delete_io_queues_ok w i f Hw Hf) as (l' & Hd & Hl & Hw').
  unfold Function.disable. erewrite bind_ok by (by apply func_step). erewrite bind_ok by exact Hd.
  do 3 (erewrite bind_ok by reflexivity). cbn [device with_device].
  destruct (wf_funcs w Hw i f Hf) as (_ & _ & _ & Hq).
  destruct (f_admin_queue f) as [q|] eqn:Haq.
  - eexists. erewrite bind_ok by reflexivity. split; [reflexivity|]. split_and!; try done.
    + apply wf_queues; [|simpl; by rewrite length_alter].
      by eapply (wf_set_func (with_device _ (with_resources l' w))); [apply wf_device|..].
    + by eapply queues_deleted_intro.
    + intros q'. simpl. case_decide as He.
      * injection He as ->. apply list_lookup_alter_eq.
      * apply list_lookup_alter_ne. congruence.
  - eexists. split; [reflexivity|]. split_and!; try done.
    + by repeat apply wf_device.
    + by eapply queues_deleted_intro.
    + simpl. rewrite list_insert_id; [done|]. rewrite Hf. f_equal. destruct f. simpl in *. by subst.
Qed.

(** Disabling a function.  [disable] terminates without a panic and keeps
    the invariant; afterwards the function has no queue, the queues of the
    other functions are the same, every queue it had and the two admin queues
    were deleted in the controller, and the admin queue is invalid for every
    holder of it. *)
Theorem disable_exact w i f :
  wf w → funcs w !! i = Some f →
  ∃ w', Function.disable i w = (Ok tt, w') ∧ wf w' ∧
    queues_deleted w w' (Z.of_nat i) (f_cntrl f) (λ s,
      qc_disable (f_cntrl f) (qc_delete_cq (f_cntrl f) (f_cntrl f) 0
        (qc_delete_sq (f_cntrl f) (f_cntrl f) 0 s))) ∧
    funcs w' = <[i := mkFunction (f_cntrl f) None (f_res_cnt f) (f_pfn f)]> (funcs w) ∧
    ∀ q, queues w' !! q =
      (if decide (f_admin_queue f = Some q) then AdminQueue_invalidate <$> queues w !! q else queues w !! q).
Proof. apply disable_ok. Qed.
End props.
