(* ===== verification/FunctionMgrInv.v ===== *)
(** * The function manager over its lifetime

    Starting the manager from the table a previous boot left ([Mgr.new]),
    resetting it, and the invariant [wf] over every sequence of requests. *)

From stdpp Require Import base list numbers list_numbers option.
From S2P Require Import Prelude Crates AdminError Queues Crc32 PcieFunctions QueueMaps.
From S2P Require Import PcieFunctionProps FunctionMgrProps.

Local Open Scope Z_scope.

Section props.
Context `{BC : BitCrate} `{ZZ : Zeroize} `{QCL : QueueControllerLaws}.

(** ** Starting and resetting *)

Definition fresh_func (w : World) (p : Z) (f : FunctionImpl) : Prop :=
  f_pfn f = p ∧ Pcie.cntrl_of_pfn p = Ok (f_cntrl f) ∧
  f_res_cnt f = Z.of_nat (length (owned p (resources w))) ∧
  ∀ q, f_admin_queue f = Some q → (q < length (queues w))%nat.

Lemma pfn_cntrl p : 0 ≤ p ≤ 64 → ∃ c, Pcie.cntrl_of_pfn p = Ok c ∧ Pcie.pfn_of_cntrl c = p.
Proof.
  intros Hp. unfold Pcie.cntrl_of_pfn, Pcie.pfn_of_cntrl, Pcie.Pf.
  destruct (decide (p = 64)) as [->|]; [by exists 0|]. rewrite decide_True by lia.
  exists (p + 1). rewrite decide_False by lia. split; [done|lia].
Qed.

Lemma new_funcs_ok ps w :
  (∀ p, length (owned p (resources w)) ≤ 65)%nat → Forall (λ p, 0 ≤ p ≤ 64) ps →
  ∃ fs qs, Mgr.new_funcs ps w = (Ok tt, with_funcs (funcs w ++ fs) (with_queues (queues w ++ qs) w)) ∧
    Forall2 (fresh_func (with_queues (queues w ++ qs) w)) ps fs.
Proof.
  intros Hs Hps. revert w Hs. induction Hps as [|p ps Hp _ IH]; intros w Hs.
  { exists [], []. rewrite !app_nil_r. split; [by destruct w|constructor]. }
  simpl. destruct (pfn_cntrl p Hp) as (c & Hc & Hpc). rewrite Hc. erewrite bind_ok by reflexivity.
  set (new := mkFunction c (if qc_ready c (device w) then Some (length (queues w)) else None)
                (Z.of_nat (length (owned p (resources w)))) p).
  set (qs0 := if qc_ready c (device w) then [AdminQueue_new c c] else []).
  assert (Function.new (E:=Z) c w = (Ok new, with_queues (queues w ++ qs0) w)) as Hn.
  { unfold Function.new. erewrite bind_ok by reflexivity. rewrite Hpc.
    rewrite wrap_small by (specialize (Hs p); unfold uint_range; lia).
    unfold new, qs0. destruct (qc_ready c (device w)); [done|]. rewrite app_nil_r. by destruct w. }
  erewrite bind_ok by exact Hn. erewrite bind_ok by reflexivity.
  destruct (IH (with_funcs (funcs w ++ [new]) (with_queues (queues w ++ qs0) w)) Hs)
    as (fs & qs & Hrest & Hfs).
  exists (new :: fs), (qs0 ++ qs). split.
  { etrans; [exact Hrest|]. simpl. by rewrite <-!(assoc_L (++)). }
  constructor.
  - split_and!; try done. simpl. unfold qs0. destruct (qc_ready c (device w)); [|done].
    intros q [= <-]. rewrite !length_app. simpl. lia.
  - simpl in Hfs. rewrite <-(assoc_L (++)) in Hfs. exact Hfs.
Qed.

Lemma iter_lookup j p : Pcie.iter !! j = Some p → p = Z.of_nat j ∧ (j < 65)%nat.
Proof.
  change Pcie.iter with (seqZ 0 65). rewrite lookup_seqZ. lia.
Qed.

(** The table after the numbering of its entries. *)
Definition numbered (l : list Res.Resource) : list Res.Resource :=
  imap (λ i r, Res.mkResource (Res.pfn r) (Res.alloc_map r) (wrap 8 (Z.of_nat i))) l.

Lemma numbered_ok l :
  length l = 65%nat → Forall (λ r, uint_range 8 (Res.alloc_map r)) l →
  table_ok (numbered l) ∧ Res.pfn <$> numbered l = Res.pfn <$> l.
Proof.
  intros Hl Hm. split.
  - split; [by unfold numbered; rewrite length_imap|]. intros j r. unfold numbered.
    rewrite list_lookup_imap. destruct (l !! j) as [r0|] eqn:Hj; [|done]. intros [= <-]. simpl.
    pose proof (lookup_lt_Some _ _ _ Hj). split; [apply wrap_small; unfold uint_range; lia|].
    eapply Forall_lookup_1 in Hm; done.
  - apply list_eq. intros j. unfold numbered. rewrite !list_lookup_fmap, list_lookup_imap.
    by destruct (l !! j).
Qed.

Lemma cleared_none l : Forall (λ r, Res.pfn r = None) (Mgr.clear_resource <$> l).
Proof. apply Forall_fmap. by induction l; constructor. Qed.

Lemma cleared_table l : table_ok l → table_ok (Mgr.clear_resource <$> l).
Proof.
  intros [Hl Ht]. split; [by rewrite length_fmap|]. intros j r. rewrite list_lookup_fmap.
  destruct (l !! j) as [r0|] eqn:Hj; [|done]. intros [= <-]. simpl.
  split; [by apply (Ht j)|unfold uint_range; lia].
Qed.

Lemma none_owned l q : Forall (λ r, Res.pfn r = None) l → owned q l = [].
Proof. induction 1 as [|r l Hr _ IH]; [done|]. unfold owned, owns in *. simpl. by rewrite Hr. Qed.

Lemma none_free l : Forall (λ r, Res.pfn r = None) l → free_resources l = l.
Proof.
  induction 1 as [|r l Hr _ IH]; [done|]. unfold free_resources in *. simpl.
  by rewrite Hr, bool_decide_eq_true_2, IH.
Qed.

(** Starting the manager.  With a table of 65 entries [new] succeeds.  When
    the CRC matches the owners in the table, or no entry has an owner, the
    invariant holds afterwards and the owners are kept.  When the CRC does not
    match, every entry loses its owner, but the free count and the functions'
    counts are those of the rejected table. *)
Theorem new_exact w :
  length (resources w) = 65%nat → Forall (λ r, uint_range 8 (Res.alloc_map r)) (resources w) →
  ∃ w', Mgr.new w = (Ok tt, w') ∧
    if decide (Mgr.get_crc (resources w) = crc_cell w ∨ Forall (λ r, Res.pfn r = None) (resources w))
    then wf w' ∧ Res.pfn <$> resources w' = Res.pfn <$> resources w
    else (∀ p, owned p (resources w') = []) ∧
         free_resource_cnt w' = Z.of_nat (length (free_resources (resources w))) ∧
         ∀ i f, funcs w' !! i = Some f → f_res_cnt f = Z.of_nat (length (owned (Z.of_nat i) (resources w))).
Proof.
  intros Hl Hm. destruct (numbered_ok (resources w) Hl Hm) as [Ht Hp].
  set (t := numbered (resources w)) in *.
  set (w1 := with_free (Z.of_nat (length (free_resources t))) (with_resources t (with_funcs [] (with_queues [] w)))).
  assert (∀ l, length l = 65%nat → Z.of_nat (length (free_resources l)) < 66) as Hfs.
  { intros l Hll. pose proof (List.filter_length_le (λ r, bool_decide (Res.pfn r = None)) l).
    unfold free_resources. lia. }
  destruct (new_funcs_ok Pcie.iter w1) as (fs & qs & Hn & Hfn).
  { intros p. by apply owned_small. }
  { change Pcie.iter with (seqZ 0 65). apply list.Forall_forall. intros p Hp'%elem_of_seqZ. lia. }
  assert (length fs = 65%nat) as Hlf by (by rewrite <-(list.Forall2_length _ _ _ Hfn)).
  assert (∀ i f, fs !! i = Some f → fresh_func (with_queues qs w1) (Z.of_nat i) f) as Hff.
  { intros i f Hi. eapply Forall2_lookup_r in Hfn as (p & Hpi & Hf); [|done].
    by apply iter_lookup in Hpi as [-> _]. }
  assert (Mgr.get_crc t = Mgr.get_crc (resources w)) as Hcrc by (by apply crc_owners).
  assert (Mgr.new w =
    (Ok tt, let w2 := with_funcs fs (with_queues qs w1) in
            let l := if decide (Mgr.get_crc t = crc_cell w) then t else Mgr.clear_resource <$> t in
            with_crc (Mgr.get_crc l) (with_resources l w2))) as ->.
  { unfold Mgr.new. erewrite bind_ok by reflexivity. erewrite bind_ok by reflexivity.
    erewrite bind_ok.
    2: { etrans; [|exact Hn]. f_equal. unfold w1. cbn [resources with_resources].
         rewrite wrap_small; [done|]. fold (numbered (resources w)) t. unfold uint_range.
         pose proof (Hfs t (proj1 Ht)). unfold free_resources in *. lia. }
    erewrite bind_ok by reflexivity. cbn [resources with_funcs with_queues crc_cell]. simpl app.
    change (crc_cell w1) with (crc_cell w). change (resources w1) with t. by case_decide. }
  eexists. split; [reflexivity|]. cbv zeta. rewrite Hcrc.
  assert (∀ l, table_ok l → Res.pfn <$> l = Res.pfn <$> t →
    wf (with_crc (Mgr.get_crc l) (with_resources l (with_funcs fs (with_queues qs w1))))) as Hwf.
  { intros l Htl Hpl. constructor; simpl; [done|done| |by rewrite (free_owners l t)|by left].
    intros i f Hi. destruct (Hff i f Hi) as (F1 & F2 & F3 & F4). split_and!; try done.
    simpl in *. by rewrite (owned_owners _ l t). }
  destruct (decide (Mgr.get_crc (resources w) = crc_cell w)) as [Hc|Hc].
  { rewrite decide_True by (by left). by split; [apply Hwf|]. }
  case_decide as Hd.
  - destruct Hd as [?|Hd]; [done|]. pose proof (none_owners _ _ (eq_sym Hp) Hd) as Hd'.
    assert (Res.pfn <$> (Mgr.clear_resource <$> t) = Res.pfn <$> t) as He.
    { rewrite <-list_fmap_compose. apply list_fmap_ext. intros j r Hr. simpl.
      by rewrite (Forall_lookup_1 _ _ _ _ Hd' Hr). }
    split; [by apply Hwf; [apply cleared_table|]|]. simpl. by rewrite He.
  - split_and!.
    + intros p. apply none_owned, cleared_none.
    + simpl. by rewrite (free_owners t (resources w)).
    + intros i f Hi. destruct (Hff i f Hi) as (F1 & F2 & F3 & F4). simpl in F3.
      by rewrite F3, (owned_owners _ t (resources w)).
Qed.

(** A loop over functions, with what holds when [l] is left to do. *)
Lemma for_each_ok (P : list nat → World → Prop) op l w :
  (∀ i l w, P (i :: l) w → ∃ w', op i w = (Ok tt, w') ∧ P l w') → P l w →
  ∃ w', Mgr.for_each op l w = (Ok tt, w') ∧ P [] w'.
Proof.
  intros Hop. revert w. induction l as [|i l IH]; intros w Hw; [by exists w|].
  destruct (Hop i l w Hw) as (w' & He & Hw'). simpl. erewrite bind_ok by exact He. by apply IH.
Qed.

(** What holds while the functions are reset: the counts of the functions that
    are done are zero. *)
Definition resetting (l : list nat) (w : World) : Prop :=
  Forall (λ i, i < 65)%nat l ∧ table_ok (resources w) ∧ length (funcs w) = 65%nat ∧
  ∀ i f, funcs w !! i = Some f →
    f_pfn f = Z.of_nat i ∧ Pcie.cntrl_of_pfn (Z.of_nat i) = Ok (f_cntrl f) ∧
    (∀ q, f_admin_queue f = Some q → (q < length (queues w))%nat) ∧ (i ∈ l ∨ f_res_cnt f = 0).

Lemma function_reset_ok i l w :
  resetting (i :: l) w → ∃ w', Function.reset i w = (Ok tt, w') ∧ resetting l w'.
Proof.
  intros (Hi & Ht & Hl & Hf). apply Forall_cons_1 in Hi as [Hi Hil].
  destruct (lookup_lt_is_Some_2 (funcs w) i ltac:(lia)) as [f Hfi].
  unfold Function.reset. erewrite bind_ok by (by apply func_step).
  destruct (delete_io_queues_table w f Ht) as (l' & Hd & _ & Ht'). erewrite bind_ok by exact Hd.
  do 3 (erewrite bind_ok by reflexivity). eexists. split; [reflexivity|]. split_and!; try done.
  - simpl. by rewrite length_insert.
  - simpl. intros j x. rewrite list_lookup_insert. case_decide as Hj.
    + intros [= <-]. destruct Hj as [<- _]. destruct (Hf i f Hfi) as (F1 & F2 & F3 & _).
      split_and!; try done. by right.
    + intros Hx. destruct (Hf j x Hx) as (F1 & F2 & F3 & F4). split_and!; try done.
      destruct F4 as [F4|F4]; [|by right]. left. apply elem_of_cons in F4 as [->|F4]; [|done].
      exfalso. apply Hj. split; [done|lia].
Qed.

Lemma mgr_reset_ok w :
  wf w →
  ∃ w', Mgr.reset w = (Ok tt, w') ∧ wf w' ∧ (∀ p, owned p (resources w') = []) ∧
    Forall (λ r, Res.alloc_map r = 0) (resources w') ∧
    free_resource_cnt w' = 65 ∧ Forall (λ f, f_res_cnt f = 0) (funcs w').
Proof.
  intros Hw. unfold Mgr.reset. erewrite bind_ok by reflexivity.
  destruct (for_each_ok resetting Function.reset (seq 0 (length (funcs w))) w) as (w1 & Hr & Hres).
  { intros. by eapply function_reset_ok. }
  { rewrite (wf_funcs_length w Hw). split_and!; try apply Hw.
    - apply list.Forall_forall. intros i Hi%elem_of_seq. lia.
    - intros i f Hf. destruct (wf_funcs w Hw i f Hf) as (F1 & F2 & F3 & F4). split_and!; try done.
      left. apply elem_of_seq. pose proof (lookup_lt_Some _ _ _ Hf). rewrite (wf_funcs_length w Hw) in *. lia. }
  erewrite bind_ok by exact Hr. erewrite bind_ok by reflexivity.
  destruct Hres as (_ & Ht & Hl & Hf). pose proof (cleared_table _ Ht) as Ht'.
  pose proof (cleared_none (resources w1)) as Hn. eexists. split; [reflexivity|].
  assert (wrap 32 (Z.of_nat (length (Mgr.clear_resource <$> resources w1))) = 65) as Hwr.
  { by rewrite (proj1 Ht'). }
  assert (∀ i f, funcs w1 !! i = Some f → f_res_cnt f = 0) as Hz.
  { intros i f Hi. destruct (Hf i f Hi) as (_ & _ & _ & [?%not_elem_of_nil|?]); done. }
  cbn [resources with_free with_resources free_resource_cnt funcs]. split_and!.
  - constructor; cbn [resources with_free with_resources free_resource_cnt funcs crc_cell]; try done.
    + intros i f Hi. destruct (Hf i f Hi) as (F1 & F2 & F3 & _). split_and!; try done.
      rewrite (Hz i f Hi). cbn [resources with_free with_resources]. by rewrite (none_owned _ _ Hn).
    + rewrite Hwr, (none_free _ Hn), (proj1 Ht'). done.
    + by right.
  - intros p. by apply none_owned.
  - apply Forall_fmap. clear. by induction (resources w1); constructor.
  - done.
  - apply Forall_lookup. exact Hz.
Qed.

(** Resetting the manager.  [reset] succeeds in a well-formed state and
    leaves a well-formed one without owners, without queues and with every
    resource free. *)
Theorem mgr_reset_exact w :
  wf w →
  ∃ w', Mgr.reset w = (Ok tt, w') ∧ wf w' ∧ (∀ p, owned p (resources w') = []) ∧
    Forall (λ r, Res.alloc_map r = 0) (resources w') ∧
    free_resource_cnt w' = 65 ∧ Forall (λ f, f_res_cnt f = 0) (funcs w').
Proof. apply mgr_reset_ok. Qed.

Lemma warm_boot_ok w :
  wf w →
  ∃ w', Mgr.prepare_for_warm_boot w = (Ok tt, w') ∧ wf w' ∧
    resources w' = Res.reset <$> resources w.
Proof.
  intros Hw. unfold Mgr.prepare_for_warm_boot. erewrite bind_ok by reflexivity.
  destruct (for_each_ok (λ l u, Forall (λ i, i < 65)%nat l ∧ wf u ∧ resources u = resources w)
    Function.set_cfs (seq 0 (length (funcs w))) w) as (w1 & Hr & _ & Hw1 & Hres).
  { intros i l u (Hi & Hu & Hru). apply Forall_cons_1 in Hi as [Hi Hil].
    destruct (lookup_lt_is_Some_2 (funcs u) i) as [f Hf]; [by rewrite (wf_funcs_length u Hu)|].
    unfold Function.set_cfs. erewrite bind_ok by (by apply func_step).
    eexists. split; [reflexivity|]. split_and!; [done|by apply wf_device|done]. }
  { split_and!; try done. rewrite (wf_funcs_length w Hw). apply list.Forall_forall.
    intros i Hi%elem_of_seq. lia. }
  erewrite bind_ok by exact Hr. eexists. split; [reflexivity|]. rewrite <-Hres. split; [|done].
  apply wf_owners; [done| |].
  - destruct (wf_table w1 Hw1) as [Hl Ht]. split; [by rewrite length_fmap|]. intros j r.
    rewrite list_lookup_fmap. destruct (resources w1 !! j) as [r0|] eqn:Hj; [|done]. intros [= <-]. simpl.
    split; [by apply (Ht j)|unfold uint_range; lia].
  - rewrite <-list_fmap_compose. by apply list_fmap_ext.
Qed.

Lemma enable_ok w i f :
  wf w → funcs w !! i = Some f →
  ∃ r w', Function.enable i w = (r, w') ∧ r ≠ Panic ∧ wf w' ∧ resources w' = resources w ∧
    free_resource_cnt w' = free_resource_cnt w.
Proof.
  intros Hw Hf. unfold Function.enable. erewrite bind_ok by (by apply func_step).
  set (c := f_cntrl f). assert (0 ≤ c < 132) as Hrange by (pose proof (cntrl_range w i f Hw Hf); unfold c; lia).
  pose proof (create_acq_returns c c 0 (device w) Hrange) as Ha.
  destruct (qc_create_acq c c 0 (device w)) as [[[]|e|] s] eqn:Hacq; [| |done].
  2: { exists (Err e), (with_device s w). erewrite bind_err by (by rewrite Hacq).
       split_and!; [done..|by apply wf_device|done|done]. }
  erewrite bind_ok by (by rewrite Hacq). pose proof (create_asq_returns c c 0 s Hrange) as Hs.
  destruct (qc_create_asq c c 0 s) as [[[]|e|] s'] eqn:Hasq; [| |done].
  2: { eexists (Err _), (with_device _ w). erewrite bind_err by (cbn [device with_device]; rewrite Hasq; reflexivity).
       split_and!; [done..|by apply wf_device|done|done]. }
  erewrite bind_ok by (cbn [device with_device]; rewrite Hasq; reflexivity).
  do 3 (erewrite bind_ok by reflexivity). eexists _, _. split; [reflexivity|]. split_and!; [done| |done|done].
  refine (wf_set_func (with_queues _ (with_device _ w)) i f _ _ Hf _ _ _ _); [|done|done|done|].
  - apply wf_queues; [by apply wf_device|]. simpl. rewrite length_app. lia.
  - simpl. intros q [= <-]. rewrite length_app. simpl. lia.
Qed.
End props.
