(* ===== verification/LiveMigration.v ===== *)
(** * Live migration of a PCIe function

    [save_lm_context] writes the queues of a function to a buffer,
    [restore_lm_context] creates them again in another function.  Restoring
    keeps the invariant whatever the buffer holds, as long as its counts fit
    the arrays and its queue numbers are not the admin queue's; restoring what
    was saved gives the queues that were saved. *)

From stdpp Require Import base list numbers option.
From S2P Require Import Prelude Crates Wire AdminError Queues Crc32 PcieFunctions QueueMaps.
From S2P Require Import PcieFunctionProps FunctionMgrProps FunctionMgrInv.

Local Open Scope Z_scope.
Import Lm.

Section props.
Context `{BC : BitCrate} `{ZZ : Zeroize} `{QCL : QueueControllerLaws}.

(** ** Restoring *)

Lemma restore_cq_ok w i f info :
  wf w → funcs w !! i = Some f → host_ok (cq_id info) →
  ∃ r w', Function.restore_cq_info f info w = ((λ _, tt) <$> r, w') ∧ wf w' ∧
    creates w w' i f Layout.Cq (cq_id info) (λ d, qc_restore_cq_info (f_cntrl f) d info)
      AdminErr.CqAlreadyAllocated AdminErr.CreateCqFailedByQueueController r.
Proof.
  intros Hw Hf Hh. unfold Function.restore_cq_info. cbv zeta. rewrite <-bind3_ret.
  apply (create_phase w i f Layout.Cq (cq_id info) _ _
    (λ d, qc_restore_cq_info (f_cntrl f) d info) (λ _, tt)); [done..|].
  intros. apply restore_cq_returns. lia.
Qed.

Lemma bind_tt {S E A B} (x : M S E A) (y z : A → M S E B) w :
  (∀ a s, y a s = z a s) → (a ← x; y a) w = (a ← x; z a) w.
Proof. intros H'. unfold mbind, M_bind. by destruct (x w) as [[a|e|] s]. Qed.

Lemma restore_sq_ok w i f info :
  wf w → funcs w !! i = Some f → host_ok (sq_id info) → host_ok (sq_cq_id info) →
  ∃ r w', Function.restore_sq_info f info w = ((λ _, tt) <$> r, w') ∧ wf w' ∧
    creates_sq w w' i f (sq_id info) (sq_cq_id info) (λ d, qc_restore_sq_info (f_cntrl f) d info) r.
Proof.
  intros Hw Hf Hh Hhc. unfold Function.restore_sq_info. cbv zeta.
  destruct (create_sq_phase w i f (sq_id info) (sq_cq_id info)
    (λ d, qc_restore_sq_info (f_cntrl f) d info) (λ _, tt)) as (r & w' & Hm & Hrest);
    [done..|intros; apply restore_sq_returns; lia|].
  exists r, w'. split; [|done]. rewrite <-Hm. do 3 (apply bind_tt; intros).
  symmetry. apply bind3_ret.
Qed.

(** The queues of the functions other than [i] are those of [w0], and function
    [i] is [f]. *)
Definition others_kept (w0 : World) (i : nat) (f : FunctionImpl) (w : World) : Prop :=
  wf w ∧ funcs w !! i = Some f ∧
  ∀ p k h, p ≠ Z.of_nat i → host_ok h → lookup_queue (resources w) p k h = lookup_queue (resources w0) p k h.

Lemma creates_kept w0 w w' i f k h ctl e1 e2 r :
  others_kept w0 i f w → wf w' → creates w w' i f k h ctl e1 e2 r → others_kept w0 i f w'.
Proof.
  intros (Hw & Hf & Ho) Hw' Hc. split; [done|]. unfold creates in Hc.
  destruct (place_err f h); [by destruct Hc as [_ ->]|].
  destruct (lookup_queue _ _ _ _); [by destruct Hc as [_ ->]|].
  destruct Hc as (d & _ & _ & Hc). destruct (fst _).
  - destruct Hc as (_ & Hfs & _ & _ & _ & _ & Hl). rewrite Hfs. split; [done|].
    intros p k' h' Hp Hh'. rewrite Hl by done. rewrite decide_False by tauto. by apply Ho.
  - by destruct Hc as [_ ->].
  - by destruct Hc as [_ ->].
Qed.

Lemma creates_returns w w' i f k h ctl e1 e2 r : creates w w' i f k h ctl e1 e2 r → r ≠ Panic.
Proof.
  unfold creates. destruct (place_err f h); [by intros [-> _]|].
  destruct (lookup_queue _ _ _ _); [by intros [-> _]|]. intros (d & _ & _ & Hc).
  destruct (fst _); by destruct Hc as [-> _].
Qed.

Lemma creates_sq_kept w0 w w' i f h hc ctl r :
  others_kept w0 i f w → wf w' → creates_sq w w' i f h hc ctl r → r ≠ Panic ∧ others_kept w0 i f w'.
Proof.
  intros Hk Hw'. unfold creates_sq. destruct (place_err f hc); [by intros [-> ->]|].
  destruct (lookup_queue _ _ _ _); [|by intros [-> ->]]. intros Hc.
  split; [by eapply creates_returns|by eapply creates_kept].
Qed.

Lemma restore_loop_ok {A} (P : World → Prop) (Q : A → Prop) restore arr todo index w :
  (∀ a w, Q a → P w → ∃ r w', restore a w = (r, w') ∧ r ≠ Panic ∧ P w') →
  (index + todo ≤ length arr)%nat → Forall Q (take todo (drop index arr)) → P w →
  ∃ r w', Function.restore_loop restore arr index todo w = (r, w') ∧ r ≠ Panic ∧ P w'.
Proof.
  intros Hr. revert index w. induction todo as [|todo IH]; intros index w Hlt HQ Hw; [by exists (Ok tt), w|].
  simpl. destruct (lookup_lt_is_Some_2 arr index ltac:(lia)) as [a Ha]. rewrite Ha.
  rewrite (drop_S _ _ _ Ha) in HQ. simpl in HQ. apply Forall_cons_1 in HQ as [HQa HQ].
  destruct (Hr a w HQa Hw) as (r & w' & Hra & Hp & Hw'). destruct r as [[]|e|]; [| |done].
  - erewrite bind_ok by exact Hra. apply IH; [lia|done..].
  - exists (Err e), w'. by erewrite bind_err by exact Hra.
Qed.

(** The buffers the restore accepts without a panic: the counts fit the arrays
    and no queue is the admin queue. *)
Definition lm_fits (lm : VmLiveMigrationInfo) : Prop :=
  (Z.to_nat (cq_cnt lm) ≤ length (io_cq_info lm))%nat ∧ (Z.to_nat (sq_cnt lm) ≤ length (io_sq_info lm))%nat ∧
  Forall (λ c, host_ok (cq_id c)) (take (Z.to_nat (cq_cnt lm)) (io_cq_info lm)) ∧
  Forall (λ c, host_ok (sq_id c) ∧ host_ok (sq_cq_id c)) (take (Z.to_nat (sq_cnt lm)) (io_sq_info lm)).

Lemma wf_admin w i f :
  wf w → funcs w !! i = Some f →
  let f' := mkFunction (f_cntrl f) (Some (length (queues w))) (f_res_cnt f) (f_pfn f) in
  wf (with_funcs (<[i := f']> (funcs w)) (with_queues (queues w ++ [AdminQueue_new (f_cntrl f) (f_cntrl f)]) w)).
Proof.
  intros Hw Hf f'. refine (wf_set_func (with_queues _ w) i f f' _ Hf _ _ _ _); [|done|done|done|].
  - apply wf_queues; [done|]. rewrite length_app. lia.
  - simpl. intros q [= <-]. rewrite length_app. simpl. lia.
Qed.

Lemma restore_cq_loop_ok w0 i f lm w :
  lm_fits lm → others_kept w0 i f w →
  ∃ r w', Function.restore_loop (Function.restore_cq_info f) (io_cq_info lm) 0 (Z.to_nat (cq_cnt lm)) w = (r, w') ∧
    r ≠ Panic ∧ others_kept w0 i f w'.
Proof.
  intros (H1 & _ & H3 & _) Hk. apply (restore_loop_ok _ (λ c, host_ok (cq_id c))); [|done..].
  intros a u Ha Hu. pose proof Hu as (Hwu & Hfu & _).
  destruct (restore_cq_ok u i f a Hwu Hfu Ha) as (r & w' & Hm & Hw' & Hc).
  eexists _, w'. split; [exact Hm|]. split; [|by eapply creates_kept].
  pose proof (creates_returns _ _ _ _ _ _ _ _ _ _ Hc). by destruct r.
Qed.

Lemma restore_sq_loop_ok w0 i f lm w :
  lm_fits lm → others_kept w0 i f w →
  ∃ r w', Function.restore_loop (Function.restore_sq_info f) (io_sq_info lm) 0 (Z.to_nat (sq_cnt lm)) w = (r, w') ∧
    r ≠ Panic ∧ others_kept w0 i f w'.
Proof.
  intros (_ & H2 & _ & H4) Hk.
  apply (restore_loop_ok _ (λ c, host_ok (sq_id c) ∧ host_ok (sq_cq_id c))); [|done..].
  intros a u [Ha Ha'] Hu. pose proof Hu as (Hwu & Hfu & _).
  destruct (restore_sq_ok u i f a Hwu Hfu Ha Ha') as (r & w' & Hm & Hw' & Hc).
  eexists _, w'. split; [exact Hm|]. destruct (creates_sq_kept w0 u w' i f _ _ _ r Hu Hw' Hc) as [Hr Hk'].
  split; [|done]. by destruct r.
Qed.

(** The function and the state in which the queues are restored. *)
Definition admitted (w : World) (f : FunctionImpl) : FunctionImpl :=
  mkFunction (f_cntrl f) (Some (length (queues w))) (f_res_cnt f) (f_pfn f).
Definition restoring (w : World) (i : nat) (f : FunctionImpl) (s : hw) : World :=
  with_funcs (<[i := admitted w f]> (funcs w))
    (with_queues (queues w ++ [AdminQueue_new (f_cntrl f) (f_cntrl f)]) (with_device s w)).

Definition accepted (f : FunctionImpl) (lm : VmLiveMigrationInfo) : Prop :=
  lm_checksum (set_crc 0 lm) = Lm.crc lm ∧ resource_cnt lm = f_res_cnt f.
Definition refusal (f : FunctionImpl) (lm : VmLiveMigrationInfo) : AdminErr.t :=
  if decide (lm_checksum (set_crc 0 lm) = Lm.crc lm) then AdminErr.ResourceLimitReached
  else AdminErr.InvalidLmContextToRestore.

(** A restore of the controller that fails. *)
Definition restore_fails : Prop :=
  (∃ c d i s, 0 ≤ d < 132 ∧ fst (qc_restore_cq_info c d i s) ≠ Ok tt) ∨
  (∃ c d i s, 0 ≤ d < 132 ∧ fst (qc_restore_sq_info c d i s) ≠ Ok tt).

Lemma controller_plain (m : M hw Z ()) e u :
  fst (m (device u)) ≠ Panic →
  Function.controller m (mret tt) e u =
    (match fst (m (device u)) with Ok _ => Ok tt | _ => Err e end, with_device (snd (m (device u))) u).
Proof. intros Hp. unfold Function.controller. by destruct (m (device u)) as [[[]|e'|] s]. Qed.

Lemma restore_start w i f lm :
  wf w → funcs w !! i = Some f →
  (¬ accepted f lm ∧ Function.restore_lm_context i lm w = (Err (refusal f lm), w)) ∨
  (accepted f lm ∧ restore_fails ∧ ∃ e s, Function.restore_lm_context i lm w = (Err e, with_device s w)) ∨
  (accepted f lm ∧ ∃ s, Function.restore_lm_context i lm w =
     (Function.restore_loop (Function.restore_cq_info (admitted w f)) (io_cq_info lm) 0 (Z.to_nat (cq_cnt lm));;
      Function.restore_loop (Function.restore_sq_info (admitted w f)) (io_sq_info lm) 0 (Z.to_nat (sq_cnt lm)))
     (restoring w i f s)).
Proof.
  intros Hw Hf. pose proof (cntrl_range w i f Hw Hf) as Hrange. unfold Function.restore_lm_context. erewrite bind_ok by (by apply func_step).
  unfold accepted, refusal. cbv zeta.
  destruct (decide (lm_checksum (set_crc 0 lm) = Lm.crc lm)) as [Hc|Hc].
  2: { left. split; [tauto|]. apply bind_err. by rewrite bool_decide_eq_false_2. }
  erewrite bind_ok by (rewrite bool_decide_eq_true_2 by done; reflexivity).
  change (resource_cnt (set_crc 0 lm)) with (resource_cnt lm).
  destruct (decide (resource_cnt lm = f_res_cnt f)) as [Hr|Hr].
  2: { left. split; [tauto|]. apply bind_err. by rewrite bool_decide_eq_false_2. }
  erewrite bind_ok by (rewrite bool_decide_eq_true_2 by done; reflexivity).
  erewrite bind_ok by reflexivity. right. cbn [admin_cq_info admin_sq_info set_crc cntrl_info].
  set (u := with_device _ w). set (c := f_cntrl f) in *.
  pose proof (controller_plain (qc_restore_cq_info c c (admin_cq_info lm))
    AdminErr.CreateCqFailedByQueueController u
    (restore_cq_returns c c (admin_cq_info lm) (device u) ltac:(lia))) as Hcq.
  destruct (fst (qc_restore_cq_info c c (admin_cq_info lm) (device u))) as [[]|e|] eqn:Hq.
  2: { left. split_and!; [done..|left; exists c, c, (admin_cq_info lm), (device u); rewrite Hq; split; [lia|done]|].
       eexists _, _. by erewrite bind_err by exact Hcq. }
  2: { by destruct (restore_cq_returns c c (admin_cq_info lm) (device u) ltac:(lia)). }
  erewrite bind_ok by exact Hcq. set (u' := with_device _ u).
  pose proof (controller_plain (qc_restore_sq_info c c (admin_sq_info lm))
    AdminErr.CreateSqFailedByQueueController u'
    (restore_sq_returns c c (admin_sq_info lm) (device u') ltac:(lia))) as Hsq.
  destruct (fst (qc_restore_sq_info c c (admin_sq_info lm) (device u'))) as [[]|e|] eqn:Hq'.
  2: { left. split_and!; [done..|right; exists c, c, (admin_sq_info lm), (device u'); rewrite Hq'; split; [lia|done]|].
       eexists _, _. by erewrite bind_err by exact Hsq. }
  2: { by destruct (restore_sq_returns c c (admin_sq_info lm) (device u') ltac:(lia)). }
  erewrite bind_ok by exact Hsq. do 4 (erewrite bind_ok by reflexivity).
  right. split; [done|]. eexists. reflexivity.
Qed.

Lemma restoring_kept w i f s :
  wf w → funcs w !! i = Some f → others_kept w i (admitted w f) (restoring w i f s).
Proof.
  intros Hw Hf. split_and!; [|simpl; apply list_lookup_insert_eq; by eapply lookup_lt_Some|done].
  exact (wf_admin (with_device s w) i f (wf_device w s Hw) Hf).
Qed.

Lemma restore_ok w i f lm :
  wf w → funcs w !! i = Some f → lm_fits lm →
  ∃ r w', Function.restore_lm_context i lm w = (r, w') ∧ r ≠ Panic ∧ wf w' ∧
    (∀ p k h, p ≠ Z.of_nat i → host_ok h → lookup_queue (resources w') p k h = lookup_queue (resources w) p k h) ∧
    (¬ accepted f lm → r = Err (refusal f lm) ∧ w' = w).
Proof.
  intros Hw Hf Hfit. destruct (restore_start w i f lm Hw Hf) as [[Ha He]|[(Ha & _ & e & s & He)|(Ha & s & He)]].
  - rewrite He. by eexists _, _.
  - rewrite He. eexists _, _. by split_and!; [done..|apply wf_device| |].
  - rewrite He. pose proof (restoring_kept w i f s Hw Hf) as Hk.
    destruct (restore_cq_loop_ok w i _ lm _ Hfit Hk) as (r & w' & Hr & Hp & Hk').
    destruct r as [[]|e|]; [| |done].
    + erewrite bind_ok by exact Hr.
      destruct (restore_sq_loop_ok w i _ lm _ Hfit Hk') as (r & w'' & Hr' & Hp' & (Hw'' & _ & Ho)).
      by exists r, w''.
    + erewrite bind_err by exact Hr. destruct Hk' as (Hw' & _ & Ho). by exists (Err e), w'.
Qed.

(** Restoring any buffer.  When the counts of the buffer fit its arrays and
    it names no admin queue, restoring it never panics, keeps the invariant and
    leaves the queues of every other function alone, whether it succeeds or
    not; a buffer with a wrong CRC or of another size is refused before
    anything changes. *)
Theorem restore_safe w i f lm :
  wf w → funcs w !! i = Some f → lm_fits lm →
  ∃ r w', Function.restore_lm_context i lm w = (r, w') ∧ r ≠ Panic ∧ wf w' ∧
    (∀ p k h, p ≠ Z.of_nat i → host_ok h → lookup_queue (resources w') p k h = lookup_queue (resources w) p k h) ∧
    (¬ accepted f lm → r = Err (refusal f lm) ∧ w' = w).
Proof. apply restore_ok. Qed.

(** ** Saving *)

(** The queues of a kind of the resources [l], from position [i]. *)
Fixpoint kind_queues (k : Layout.kind) (i : nat) (l : list Res.Resource) : list (Layout.kind * Z * Z) :=
  match l with [] => [] | r :: l => res_queues k i r ++ kind_queues k (S i) l end.

Lemma elem_of_kind_queues k h d k' i l :
  (k, h, d) ∈ kind_queues k' i l ↔ k = k' ∧ (k, h, d) ∈ io_queues i l.
Proof.
  revert i. induction l as [|r l IH]; intros i; simpl.
  { split; [by intros ?%not_elem_of_nil|]. by intros [_ ?%not_elem_of_nil]. }
  rewrite !elem_of_app, IH, !elem_of_res_queues. destruct k, k'; naive_solver.
Qed.

Lemma kind_queues_length k i l : (length (kind_queues k i l) ≤ 3 * length l)%nat.
Proof.
  revert i. induction l as [|r l IH]; intros i; [done|]. simpl. rewrite length_app.
  specialize (IH (S i)). unfold res_queues, enabled_bits. rewrite length_fmap.
  pose proof (List.filter_length_le (bit (Res.alloc_map r)) (kind_offsets k)) as Hl.
  unfold kind_offsets, Layout.LEN in *. rewrite length_seq in Hl. lia.
Qed.

Definition entry {A} (info : Z → Z → A) (q : Layout.kind * Z * Z) : A :=
  let '(_, h, d) := q in info d h.

Lemma infos_of_ok {A} (info : Z → Z → A) k i r :
  (i < 65)%nat →
  (l ← Res.host_list k i r; Function.infos_of info k r l) = Ok (entry info <$> res_queues k i r).
Proof.
  intros Hi. unfold Res.host_list. fold (kind_offsets k).
  rewrite list_from_ok by (done || apply kind_offsets_ok). cbn [mbind outcome_bind].
  unfold res_queues. rewrite <-list_fmap_compose.
  assert (∀ o, o ∈ enabled_bits (Res.alloc_map r) (kind_offsets k) →
    Res.dev (E:=AdminErr.t) k (queue_at i o) r = Ok (Some (dev_of (queue_at i o) (Res.id r)))) as Hdev.
  { intros o Ho. unfold enabled_bits in Ho. apply list_elem_of_In, List.filter_In in Ho as [Ho Hb].
    apply list_elem_of_In, kind_offsets_elem in Ho as [Ho <-]. pose proof (queue_at_ok i o Hi) as Hh.
    unfold Res.dev. rewrite offset_ok, offset_queue_at by done. cbn [mbind outcome_bind].
    rewrite Hb. by rewrite device_id_ok. }
  revert Hdev. induction (enabled_bits _ _) as [|o t IH]; intros Hdev; [done|].
  rewrite !fmap_cons. cbn [Function.infos_of]. rewrite Hdev by (by left). cbn [mbind outcome_bind].
  rewrite IH; [done|]. intros o' Ho'. apply Hdev. by right.
Qed.

(** Storing entries behind those already stored. *)
Lemma store_infos_ok {A} (stored rest : list A) l :
  (length l ≤ length rest)%nat →
  Function.store_infos (stored ++ rest) (length stored) l =
    Ok ((stored ++ l) ++ drop (length l) rest, length (stored ++ l)).
Proof.
  revert stored rest. induction l as [|a l IH]; intros d rest Hl.
  { by rewrite app_nil_r. }
  destruct rest as [|x rest]; simpl in Hl; [lia|]. cbn [Function.store_infos].
  rewrite decide_True by (rewrite length_app; simpl; lia).
  rewrite insert_app_r_alt, Nat.sub_diag by lia. cbn [insert list_insert].
  replace (d ++ a :: rest) with ((d ++ [a]) ++ rest) by (by rewrite <-(assoc_L (++))).
  replace (S (length d)) with (length (d ++ [a])) by (rewrite length_app; simpl; lia).
  rewrite IH by lia. by rewrite <-(assoc_L (++) d [a] l).
Qed.

Lemma save_loop_ok c s l i dsq rsq dcq rcq :
  (i + length l ≤ 65)%nat → (3 * length l ≤ length rsq)%nat → (3 * length l ≤ length rcq)%nat →
  let sqs := entry (λ d h, qc_sq_info c d h s) <$> kind_queues Layout.Sq i l in
  let cqs := entry (λ d h, qc_cq_info c d h s) <$> kind_queues Layout.Cq i l in
  Function.save_loop c s i l (dsq ++ rsq) (length dsq) (dcq ++ rcq) (length dcq) =
    Ok ((dsq ++ sqs) ++ drop (length sqs) rsq, length (dsq ++ sqs),
        ((dcq ++ cqs) ++ drop (length cqs) rcq, length (dcq ++ cqs))).
Proof.
  revert i dsq rsq dcq rcq. induction l as [|r l IH]; intros i dsq rsq dcq rcq Hi Hsq Hcq.
  { simpl. by rewrite !app_nil_r. }
  cbn [length] in Hi, Hsq, Hcq. cbn [Function.save_loop kind_queues].
  pose proof (infos_of_ok (λ d h, qc_sq_info c d h s) Layout.Sq i r ltac:(lia)) as Hs.
  pose proof (infos_of_ok (λ d h, qc_cq_info c d h s) Layout.Cq i r ltac:(lia)) as Hc.
  pose proof (kind_queues_length Layout.Sq i [r]) as Ls. pose proof (kind_queues_length Layout.Cq i [r]) as Lc.
  cbn [kind_queues length] in Ls, Lc. rewrite app_nil_r in Ls, Lc.
  unfold Res.host_sq_list, Res.host_cq_list.
  destruct (Res.host_list Layout.Sq i r) as [hs| |]; [|done..]. cbn [mbind outcome_bind] in Hs |- *.
  rewrite Hs. cbn [mbind outcome_bind]. rewrite store_infos_ok by (rewrite length_fmap; lia).
  cbn [mbind outcome_bind].
  destruct (Res.host_list Layout.Cq i r) as [hc| |]; [|done..]. cbn [mbind outcome_bind] in Hc |- *.
  rewrite Hc. cbn [mbind outcome_bind]. rewrite store_infos_ok by (rewrite length_fmap; lia).
  cbn [mbind outcome_bind].
  rewrite IH by (rewrite ?length_drop, ?length_fmap; lia).
  rewrite !fmap_app, <-!(assoc_L (++)), !drop_drop, !length_app. done.
Qed.

Lemma read_items_length {A} (x : wire A) n l : length (read_items x n l) = n.
Proof. revert l. induction n as [|n IH]; intros l; simpl; [done|]. by rewrite IH. Qed.

Lemma from_le_zeros n : from_le_bytes (replicate n 0) = 0.
Proof. induction n as [|n IH]; [done|]. simpl. by rewrite IH. Qed.

(** The cleared buffer. *)
Lemma zeroized_lm lm0 :
  let z := read_bytes VmLiveMigrationInfo_wire (zeroize (as_bytes VmLiveMigrationInfo_wire lm0)) in
  length (io_sq_info z) = 195%nat ∧ length (io_cq_info z) = 195%nat ∧ Lm.crc z = 0.
Proof.
  intros z. unfold z. rewrite zeroize_spec. generalize (length (as_bytes VmLiveMigrationInfo_wire lm0)).
  intros n. clear. split_and!.
  - apply (read_items_length LmSqInfo_wire).
  - apply (read_items_length LmCqInfo_wire).
  - unfold VmLiveMigrationInfo_wire. cbn [record read_bytes wpair Lm.crc]. rewrite !drop_replicate.
    apply from_le_zeros.
Qed.

Definition saved_sqs (w : World) (i : nat) (c : Z) : list LmSqInfo :=
  entry (λ d h, qc_sq_info c d h (device w)) <$> kind_queues Layout.Sq 0 (owned (Z.of_nat i) (resources w)).
Definition saved_cqs (w : World) (i : nat) (c : Z) : list LmCqInfo :=
  entry (λ d h, qc_cq_info c d h (device w)) <$> kind_queues Layout.Cq 0 (owned (Z.of_nat i) (resources w)).

Lemma accepted_checksum f x :
  Lm.crc x = 0 → resource_cnt x = f_res_cnt f → accepted f (set_crc (lm_checksum x) x).
Proof.
  intros Hc Hr. split; [|exact Hr]. cbn [set_crc Lm.crc]. f_equal. destruct x. cbn in *. by subst.
Qed.

Lemma save_ok w i f lm0 mask bk bk3 :
  wf w → funcs w !! i = Some f →
  ∃ lm, Function.save_lm_context i lm0 mask bk bk3 w = (Ok lm, w) ∧ accepted f lm ∧
    (∃ rest, io_sq_info lm = saved_sqs w i (f_cntrl f) ++ rest) ∧
    (∃ rest, io_cq_info lm = saved_cqs w i (f_cntrl f) ++ rest) ∧
    length (io_sq_info lm) = 195%nat ∧ length (io_cq_info lm) = 195%nat ∧
    sq_cnt lm = Z.of_nat (length (saved_sqs w i (f_cntrl f))) ∧
    cq_cnt lm = Z.of_nat (length (saved_cqs w i (f_cntrl f))) ∧
    session_allocation_mask lm = mask ∧ masked_bk_boot lm = bk ∧ sealed_bk3 lm = bk3.
Proof.
  intros Hw Hf. destruct (zeroized_lm lm0) as (Zs & Zc & Zr).
  unfold Function.save_lm_context. erewrite bind_ok by (by apply func_step).
  erewrite bind_ok by reflexivity. cbv zeta in *.
  set (z := read_bytes VmLiveMigrationInfo_wire _) in *. clearbody z.
  destruct (wf_funcs w Hw i f Hf) as (Hp & _). rewrite Hp.
  set (l := owned (Z.of_nat i) (resources w)).
  assert (length l ≤ 65)%nat as Hl by apply owned_small, Hw.
  pose proof (save_loop_ok (f_cntrl f) (device w) l 0 [] (io_sq_info z) [] (io_cq_info z)
    ltac:(lia) ltac:(lia) ltac:(lia)) as Hs.
  cbv zeta in Hs.
  change (entry (λ d h, qc_sq_info (f_cntrl f) d h (device w)) <$> kind_queues Layout.Sq 0 l)
    with (saved_sqs w i (f_cntrl f)) in Hs.
  change (entry (λ d h, qc_cq_info (f_cntrl f) d h (device w)) <$> kind_queues Layout.Cq 0 l)
    with (saved_cqs w i (f_cntrl f)) in Hs.
  rewrite !app_nil_l in Hs. cbn [length] in Hs.
  erewrite bind_ok by (unfold lift; rewrite Hs; reflexivity).
  assert (length (saved_sqs w i (f_cntrl f)) ≤ 195 ∧ length (saved_cqs w i (f_cntrl f)) ≤ 195)%nat as [Ls Lc].
  { unfold saved_sqs, saved_cqs. rewrite !length_fmap. fold l.
    pose proof (kind_queues_length Layout.Sq 0 l). pose proof (kind_queues_length Layout.Cq 0 l). lia. }
  rewrite !wrap_small by (unfold uint_range; lia).
  eexists. split; [reflexivity|]. split_and!; try reflexivity.
  - by apply accepted_checksum.
  - by eexists.
  - by eexists.
  - cbn [io_sq_info set_crc]. rewrite length_app, length_drop. lia.
  - cbn [io_cq_info set_crc]. rewrite length_app, length_drop. lia.
Qed.

(** ** The round trip *)

Lemma NoDup_kind_queues k i l :
  (i + length l ≤ 65)%nat → NoDup ((λ q, q.1.2) <$> kind_queues k i l).
Proof.
  revert i. induction l as [|r l IH]; intros i Hi; [constructor|]. simpl in *.
  rewrite fmap_app. apply list.NoDup_app. split_and!.
  - unfold res_queues. rewrite <-list_fmap_compose. apply NoDup_fmap_2_strong.
    + intros o o' Ho Ho' Heq. simpl in Heq.
      apply list_elem_of_In, List.filter_In in Ho as [Ho%list_elem_of_In%kind_offsets_elem _].
      apply list_elem_of_In, List.filter_In in Ho' as [Ho'%list_elem_of_In%kind_offsets_elem _].
      destruct Ho as [Ho Hk], Ho' as [Ho' Hk'].
      rewrite <-(offset_queue_at i o), <-(offset_queue_at i o') by (done || lia).
      by rewrite Hk, Hk', Heq.
    + unfold enabled_bits. apply NoDup_ListNoDup, List.NoDup_filter, NoDup_ListNoDup, kind_offsets_ok.
  - intros h Hh Hh'. apply list_elem_of_fmap in Hh as ([[k1 h1] d1] & -> & Hh).
    apply list_elem_of_fmap in Hh' as ([[k2 h2] d2] & Heq & Hh'). simpl in Heq. subst h2.
    apply elem_of_res_queues in Hh as (_ & o & _ & _ & _ & -> & _).
    apply elem_of_kind_queues in Hh' as [_ Hh'].
    apply elem_of_io_queues in Hh' as (j & r' & o' & Hj & _ & _ & _ & Heq & _).
    apply lookup_lt_Some in Hj. apply (f_equal index_of) in Heq.
    rewrite !index_queue_at in Heq by lia. injection Heq. lia.
  - apply IH. lia.
Qed.

(** Adding the queues [ids] of a kind to function [i]. *)
Definition adds (w0 w w' : World) (i : nat) (f : FunctionImpl) (k : Layout.kind) (ids : list Z) : Prop :=
  others_kept w0 i f w' ∧
  ∀ k' h, host_ok h → is_Some (lookup_queue (resources w') (Z.of_nat i) k' h) ↔
    is_Some (lookup_queue (resources w) (Z.of_nat i) k' h) ∨ (k' = k ∧ h ∈ ids).

Lemma creates_adds w0 w w' i f k h ctl e1 e2 r :
  others_kept w0 i f w → wf w' → creates w w' i f k h ctl e1 e2 r →
  place_err f h = None → lookup_queue (resources w) (Z.of_nat i) k h = None →
  (∀ d s, 0 ≤ d < 130 → fst (ctl d s) = Ok tt) → (∃ d, r = Ok d) ∧ adds w0 w w' i f k [h].
Proof.
  intros Hk Hw' Hc Hp Hl Hctl. pose proof (creates_kept _ _ _ _ _ _ _ _ _ _ _ Hk Hw' Hc) as Hk'.
  unfold creates in Hc. rewrite Hp, Hl in Hc. destruct Hc as (d & Hd & _ & Hc). rewrite (Hctl _ _ Hd) in Hc.
  destruct Hc as (-> & _ & _ & _ & _ & _ & Hlk). split; [by eexists|]. split; [done|].
  intros k' h' Hh'. rewrite Hlk by done. rewrite list_elem_of_singleton.
  destruct (decide (k' = k ∧ h' = h)) as [[-> ->]|Hn].
  - rewrite decide_True by done. naive_solver.
  - rewrite decide_False by naive_solver. naive_solver.
Qed.

(** The loop of a kind restores every entry when each is new to the function
    and, for submission queues, has its completion queue. *)
Lemma restore_loop_adds {A} w0 i f k (id : A → Z) (restore : A → M World AdminErr.t ()) pre l post w :
  (∀ a u, others_kept w0 i f u → host_ok (id a) → place_err f (id a) = None →
     lookup_queue (resources u) (Z.of_nat i) k (id a) = None →
     (k = Layout.Sq → is_Some (lookup_queue (resources u) (Z.of_nat i) Layout.Cq (id a))) →
     a ∈ l → ∃ u', restore a u = (Ok tt, u') ∧ adds w0 u u' i f k [id a]) →
  others_kept w0 i f w → NoDup (id <$> l) →
  (∀ a, a ∈ l → host_ok (id a) ∧ place_err f (id a) = None ∧
     lookup_queue (resources w) (Z.of_nat i) k (id a) = None ∧
     (k = Layout.Sq → is_Some (lookup_queue (resources w) (Z.of_nat i) Layout.Cq (id a)))) →
  ∃ w', Function.restore_loop restore (pre ++ l ++ post) (length pre) (length l) w = (Ok tt, w') ∧
    adds w0 w w' i f k (id <$> l).
Proof.
  intros Hstep. revert pre w Hstep. induction l as [|a l IH]; intros pre w Hstep Hk Hn Hl.
  { exists w. split; [done|]. split; [done|]. intros k' h _. simpl. rewrite elem_of_nil. naive_solver. }
  rewrite fmap_cons in Hn. apply list.NoDup_cons in Hn as [Ha Hn].
  destruct (Hl a) as (H1 & H2 & H3 & H4); [by left|].
  destruct (Hstep a w Hk H1 H2 H3 H4) as (w1 & Hr & Hk1 & Hadd); [by left|].
  cbn [length Function.restore_loop].
  assert ((pre ++ (a :: l) ++ post) !! length pre = Some a) as ->.
  { rewrite lookup_app_r by lia. by rewrite Nat.sub_diag. }
  erewrite bind_ok by exact Hr.
  destruct (IH (pre ++ [a]) w1) as (w' & Hr' & Hk' & Hadd').
  - intros b u Hu Hb1 Hb2 Hb3 Hb4 Hb. apply Hstep; try done. by right.
  - done.
  - done.
  - intros b Hb. destruct (Hl b) as (B1 & B2 & B3 & B4); [by right|]. split_and!; try done.
    + apply eq_None_not_Some. rewrite Hadd by done. rewrite list_elem_of_singleton, B3.
      intros [[? ?]|[_ Heq]]; [done|]. apply Ha. rewrite <-Heq. by apply list_elem_of_fmap_2.
    + intros Hs. rewrite Hadd by done. left. by apply B4.
  - exists w'. split.
    + rewrite length_app in Hr'. simpl in Hr'. rewrite Nat.add_1_r, <-(assoc_L (++)) in Hr'. exact Hr'.
    + split; [done|]. intros k' h Hh. rewrite Hadd', Hadd by done.
      rewrite fmap_cons, list_elem_of_singleton, elem_of_cons. naive_solver.
Qed.

(** The information the controller reports names the queue. *)
Class QueueInfoLaws := {
  sq_info_ids c d h s : sq_id (qc_sq_info c d h s) = h ∧ sq_cq_id (qc_sq_info c d h s) = h;
  cq_info_id c d h s : cq_id (qc_cq_info c d h s) = h
}.

Lemma restore_succeeds_cq :
  ¬ restore_fails → ∀ c d i s, 0 ≤ d < 132 → fst (qc_restore_cq_info c d i s) = Ok tt.
Proof.
  intros Hn c d i s Hd. destruct (decide (fst (qc_restore_cq_info c d i s) = Ok tt)) as [?|Hne]; [done|].
  exfalso. apply Hn. left. by exists c, d, i, s.
Qed.

Lemma restore_succeeds_sq :
  ¬ restore_fails → ∀ c d i s, 0 ≤ d < 132 → fst (qc_restore_sq_info c d i s) = Ok tt.
Proof.
  intros Hn c d i s Hd. destruct (decide (fst (qc_restore_sq_info c d i s) = Ok tt)) as [?|Hne]; [done|].
  exfalso. apply Hn. right. by exists c, d, i, s.
Qed.

Lemma saved_ids `{QueueInfoLaws} w i c :
  sq_id <$> saved_sqs w i c = (λ q, q.1.2) <$> kind_queues Layout.Sq 0 (owned (Z.of_nat i) (resources w)) ∧
  cq_id <$> saved_cqs w i c = (λ q, q.1.2) <$> kind_queues Layout.Cq 0 (owned (Z.of_nat i) (resources w)).
Proof.
  unfold saved_sqs, saved_cqs. rewrite <-!list_fmap_compose. split; apply list_fmap_ext; intros _ [[k h] d] _; simpl.
  - apply sq_info_ids.
  - apply cq_info_id.
Qed.

Lemma elem_of_kind_ids w i k h :
  wf w → h ∈ (λ q, q.1.2) <$> kind_queues k 0 (owned (Z.of_nat i) (resources w)) ↔
  host_ok h ∧ is_Some (lookup_queue (resources w) (Z.of_nat i) k h).
Proof.
  intros Hw. rewrite list_elem_of_fmap. split.
  - intros ([[k' h'] d] & -> & [<- Hq]%elem_of_kind_queues). apply io_queues_lookup in Hq as [Hh Hq]; [|done].
    simpl. by rewrite Hq.
  - intros [Hh [d Hd]]. exists (k, h, d). split; [done|]. apply elem_of_kind_queues. split; [done|].
    by apply io_queues_lookup.
Qed.

Lemma lookup_place w i f k h :
  wf w → funcs w !! i = Some f → is_Some (lookup_queue (resources w) (Z.of_nat i) k h) → place_err f h = None.
Proof.
  intros Hw Hf [d Hd]. destruct (lookup_queue_Some _ _ _ _ _ Hw Hd) as (n & r & Hn & Hr & _).
  unfold place_err. rewrite Hn. destruct (wf_funcs w Hw i f Hf) as (_ & _ & Hc & _).
  apply lookup_lt_Some in Hr. by rewrite decide_False by lia.
Qed.

Section roundtrip.
Context `{QIL : QueueInfoLaws} (Hsucc : ¬ restore_fails).
Context (w : World) (i : nat) (f : FunctionImpl) (Hw : wf w) (Hf : funcs w !! i = Some f).
Context (Hpaired : ∀ h, host_ok h → is_Some (lookup_queue (resources w) (Z.of_nat i) Layout.Sq h) →
                        is_Some (lookup_queue (resources w) (Z.of_nat i) Layout.Cq h)).
Context (w2 : World) (j : nat) (f2 : FunctionImpl) (Hw2 : wf w2) (Hf2 : funcs w2 !! j = Some f2).
Context (Hcnt : f_res_cnt f2 = f_res_cnt f).
Context (Hempty : ∀ k h, host_ok h → lookup_queue (resources w2) (Z.of_nat j) k h = None).

Lemma same_place k h :
  is_Some (lookup_queue (resources w) (Z.of_nat i) k h) → place_err (admitted w2 f2) h = None.
Proof using Hw Hf Hcnt.
  intros Hl. pose proof (lookup_place w i f k h Hw Hf Hl) as Hp. unfold place_err in *. simpl. by rewrite Hcnt.
Qed.

Lemma cqs_roundtrip s post :
  ∃ u, Function.restore_loop (Function.restore_cq_info (admitted w2 f2))
         (saved_cqs w i (f_cntrl f) ++ post) 0 (length (saved_cqs w i (f_cntrl f))) (restoring w2 j f2 s) =
       (Ok tt, u) ∧
    adds w2 (restoring w2 j f2 s) u j (admitted w2 f2) Layout.Cq (cq_id <$> saved_cqs w i (f_cntrl f)).
Proof using All.
  destruct (saved_ids w i (f_cntrl f)) as [_ Hids].
  apply (restore_loop_adds w2 j (admitted w2 f2) Layout.Cq cq_id (Function.restore_cq_info (admitted w2 f2)) []).
  - intros a u Hu Ha Hp Hl _ _. pose proof Hu as (Hwu & Hfu & _).
    destruct (restore_cq_ok u j _ a Hwu Hfu Ha) as (r & u' & Hm & Hw' & Hc).
    destruct (creates_adds w2 u u' _ _ _ _ _ _ _ _ Hu Hw' Hc Hp Hl) as [[d ->] Hadd].
    { intros. apply restore_succeeds_cq; [done|lia]. }
    by exists u'.
  - by apply restoring_kept.
  - rewrite Hids. apply NoDup_kind_queues. apply owned_small, Hw.
  - intros a Ha. assert (cq_id a ∈ cq_id <$> saved_cqs w i (f_cntrl f)) as Hin by (by apply list_elem_of_fmap_2).
    rewrite Hids in Hin. apply elem_of_kind_ids in Hin as [Hh Hl]; [|done].
    split_and!; [done|by eapply same_place|by apply Hempty|done].
Qed.

Lemma sqs_roundtrip s u post :
  adds w2 (restoring w2 j f2 s) u j (admitted w2 f2) Layout.Cq (cq_id <$> saved_cqs w i (f_cntrl f)) →
  ∃ v, Function.restore_loop (Function.restore_sq_info (admitted w2 f2))
         (saved_sqs w i (f_cntrl f) ++ post) 0 (length (saved_sqs w i (f_cntrl f))) u = (Ok tt, v) ∧
    adds w2 u v j (admitted w2 f2) Layout.Sq (sq_id <$> saved_sqs w i (f_cntrl f)).
Proof using All.
  destruct (saved_ids w i (f_cntrl f)) as [Hids Hcids]. intros [Hku Hadd].
  apply (restore_loop_adds w2 j (admitted w2 f2) Layout.Sq sq_id (Function.restore_sq_info (admitted w2 f2)) []).
  - intros a v Hv Ha Hp Hl Hcq Hin. pose proof Hv as (Hwv & Hfv & _).
    assert (sq_cq_id a = sq_id a) as Hsame.
    { apply list_elem_of_fmap in Hin as ([[k h] d] & -> & _). simpl.
      destruct (sq_info_ids (f_cntrl f) d h (device w)) as [-> ->]. done. }
    destruct (restore_sq_ok v j _ a Hwv Hfv Ha) as (r & v' & Hm & Hw' & Hc); [by rewrite Hsame|].
    unfold creates_sq in Hc. rewrite Hsame, Hp in Hc. destruct (Hcq eq_refl) as [dc Hdc]. rewrite Hdc in Hc.
    destruct (creates_adds w2 v v' _ _ _ _ _ _ _ _ Hv Hw' Hc Hp Hl) as [[d ->] Hadd'].
    { intros. apply restore_succeeds_sq; [done|lia]. }
    by exists v'.
  - done.
  - rewrite Hids. apply NoDup_kind_queues. apply owned_small, Hw.
  - intros a Ha. assert (sq_id a ∈ sq_id <$> saved_sqs w i (f_cntrl f)) as Hin by (by apply list_elem_of_fmap_2).
    rewrite Hids in Hin. apply elem_of_kind_ids in Hin as [Hh Hl]; [|done].
    split_and!; [done|by eapply same_place| |].
    + apply eq_None_not_Some. rewrite Hadd by done.
      change (resources (restoring w2 j f2 s)) with (resources w2). rewrite Hempty by done.
      intros [[? ?]|[? _]]; done.
    + intros _. rewrite Hadd by done. right. split; [done|]. rewrite Hcids. apply elem_of_kind_ids; [done|].
      split; [done|by apply Hpaired].
Qed.

(** C40: live migration round trip.  Saving a function whose submission queues
    each use the completion queue of their number, and restoring the buffer in
    a function with as many resources and no queues, gives that function
    exactly the queues that were saved, provided the controller does not fail;
    the buffer is never overrun, and no other function changes. *)
Theorem live_migration_roundtrip lm0 mask bk bk3 :
  ∃ lm w2', Function.save_lm_context i lm0 mask bk bk3 w = (Ok lm, w) ∧
    Function.restore_lm_context j lm w2 = (Ok tt, w2') ∧ wf w2' ∧
    (∀ k h, host_ok h → is_Some (lookup_queue (resources w2') (Z.of_nat j) k h) ↔
                        is_Some (lookup_queue (resources w) (Z.of_nat i) k h)) ∧
    (∀ p k h, p ≠ Z.of_nat j → host_ok h →
       lookup_queue (resources w2') p k h = lookup_queue (resources w2) p k h) ∧
    session_allocation_mask lm = mask ∧ masked_bk_boot lm = bk ∧ sealed_bk3 lm = bk3.
Proof using All.
  destruct (save_ok w i f lm0 mask bk bk3 Hw Hf)
    as (lm & Hs & Hacc & [ps Hsq] & [pc Hcq] & _ & _ & Hns & Hnc & Hrest).
  assert (accepted f2 lm) as Hacc2 by (destruct Hacc; split; congruence).
  destruct (restore_start w2 j f2 lm Hw2 Hf2) as [[Hno _]|[(_ & Hno & _)|(_ & s & Hr)]]; [done|done|].
  destruct (cqs_roundtrip s pc) as (u & Hu & Haddu).
  destruct (sqs_roundtrip s u ps Haddu) as (v & Hv & Hkv & Haddv).
  exists lm, v. rewrite Hr, Hcq, Hsq, Hns, Hnc, !Nat2Z.id.
  split; [exact Hs|]. split; [by erewrite bind_ok by exact Hu|].
  destruct Hkv as (Hwv & _ & Ho). split_and!; try done; try apply Hrest.
  intros k h Hh. destruct Haddu as [_ Haddu]. rewrite Haddv, Haddu by done.
  change (resources (restoring w2 j f2 s)) with (resources w2). rewrite Hempty by done.
  destruct (saved_ids w i (f_cntrl f)) as [-> ->]. rewrite !elem_of_kind_ids by done.
  split; [|destruct k; naive_solver]. intros [[[? ?]|[-> [_ ?]]]|[-> [_ ?]]]; done.
Qed.
End roundtrip.
End props.
