(* ===== verification/PcieRequests.v ===== *)
(** * Requests to the function manager

    What the admin application asks of the manager over its lifetime, as a
    type of requests; every sequence of them keeps the invariant [wf] and
    never panics.  The last part is a concrete controller and a concrete
    state, on which the theorems about PCIe functions are evaluated. *)

From stdpp Require Import base list numbers option.
From S2P Require Import Prelude Crates Wire AdminError Queues Crc32 PcieFunctions QueueMaps.
From S2P Require Import PcieFunctionProps FunctionMgrProps FunctionMgrInv LiveMigration.

Local Open Scope Z_scope.
Import Lm.

Inductive request :=
| CreateCq (i : nat) (h : Z) (mem : QueueMem) (irq : option Z)
| CreateSq (i : nat) (h hc : Z) (mem : QueueMem)
| DeleteCq (i : nat) (h : Z)
| DeleteSq (i : nat) (h : Z)
| SetRes (i : nat) (cnt : Z)
| EnableFn (i : nat)
| DisableFn (i : nat)
| Save (i : nat) (lm : VmLiveMigrationInfo) (mask : Z) (bk bk3 : Blob)
| Restore (i : nat) (lm : VmLiveMigrationInfo)
| ResetAll
| WarmBoot.

(** The host queues are not the admin queue, which the commands check before
    they call the manager, and the migration buffer fits its arrays. *)
Definition valid_request (q : request) : Prop :=
  match q with
  | CreateCq i h _ _ | DeleteCq i h | DeleteSq i h => (i < 65)%nat ∧ host_ok h
  | CreateSq i h hc _ => (i < 65)%nat ∧ host_ok h ∧ host_ok hc
  | SetRes i cnt => (i < 65)%nat ∧ 0 ≤ cnt
  | EnableFn i | DisableFn i | Save i _ _ _ _ => (i < 65)%nat
  | Restore i lm => (i < 65)%nat ∧ lm_fits lm
  | ResetAll | WarmBoot => True
  end.

Section requests.
Context `{BC : BitCrate} `{ZZ : Zeroize} `{QCL : QueueControllerLaws}.

(** Whether the request panicked, and the state after it. *)
Definition outcome_of {E A} (x : outcome E A * World) : bool * World :=
  (match fst x with Panic => true | _ => false end, snd x).

Definition serve (q : request) (w : World) : bool * World :=
  match q with
  | CreateCq i h mem irq => outcome_of (Function.create_cq i h mem irq w)
  | CreateSq i h hc mem => outcome_of (Function.create_sq i h hc mem w)
  | DeleteCq i h => outcome_of (Function.delete_cq i h w)
  | DeleteSq i h => outcome_of (Function.delete_sq i h w)
  | SetRes i cnt => outcome_of (Mgr.set_res_cnt (Z.of_nat i) cnt w)
  | EnableFn i => outcome_of (Function.enable i w)
  | DisableFn i => outcome_of (Function.disable i w)
  | Save i lm mask bk bk3 => outcome_of (Function.save_lm_context i lm mask bk bk3 w)
  | Restore i lm => outcome_of (Function.restore_lm_context i lm w)
  | ResetAll => outcome_of (Mgr.reset w)
  | WarmBoot => outcome_of (Mgr.prepare_for_warm_boot w)
  end.

Fixpoint serve_all (qs : list request) (w : World) : bool * World :=
  match qs with
  | [] => (false, w)
  | q :: qs => let '(p, w') := serve q w in if p then (true, w') else serve_all qs w'
  end.

Lemma wf_func w i : wf w → (i < 65)%nat → ∃ f, funcs w !! i = Some f.
Proof. intros Hw Hi. apply lookup_lt_is_Some_2. by rewrite (wf_funcs_length w Hw). Qed.

Lemma outcome_of_ok {E A} (x : outcome E A * World) r w' :
  x = (r, w') → r ≠ Panic → wf w' → ∃ w'', outcome_of x = (false, w'') ∧ wf w''.
Proof. intros -> Hr Hw. exists w'. by destruct r. Qed.

Lemma fmap_returns {E A B} (g : A → B) (r : outcome E A) : r ≠ Panic → g <$> r ≠ Panic.
Proof. by destruct r. Qed.

Lemma creates_sq_returns w w' i f h hc ctl r : creates_sq w w' i f h hc ctl r → r ≠ Panic.
Proof.
  unfold creates_sq. destruct (place_err f hc); [by intros [-> _]|].
  destruct (lookup_queue _ _ _ _); [|by intros [-> _]]. apply creates_returns.
Qed.

Lemma request_ok q w : wf w → valid_request q → ∃ w', serve q w = (false, w') ∧ wf w'.
Proof.
  intros Hw. destruct q as [i h mem irq|i h hc mem|i h|i h|i cnt|i|i|i lm mask bk bk3|i lm| |]; cbn [serve valid_request].
  - intros [Hi Hh]. destruct (wf_func w i Hw Hi) as [f Hf].
    destruct (create_cq_ok w i f h mem irq Hw Hf Hh) as (r & w' & He & Hw' & Hc).
    by eapply outcome_of_ok; [exact He|by eapply fmap_returns, creates_returns|].
  - intros (Hi & Hh & Hhc). destruct (wf_func w i Hw Hi) as [f Hf].
    destruct (create_sq_ok w i f h hc mem Hw Hf Hh Hhc) as (r & w' & He & Hw' & Hc).
    by eapply outcome_of_ok; [exact He|by eapply fmap_returns, creates_sq_returns|].
  - intros [Hi Hh]. destruct (wf_func w i Hw Hi) as [f Hf].
    destruct (delete_cq_ok w i f h Hw Hf Hh) as (r & w' & He & Hw' & Hc).
    eapply outcome_of_ok; [exact He| |done]. unfold deletes_cq in Hc. repeat case_match; naive_solver.
  - intros [Hi Hh]. destruct (wf_func w i Hw Hi) as [f Hf].
    destruct (delete_sq_ok w i f h Hw Hf Hh) as (r & w' & He & Hw' & Hc).
    eapply outcome_of_ok; [exact He| |done]. apply fmap_returns.
    unfold deletes_sq in Hc. repeat case_match; naive_solver.
  - intros [Hi Hc]. destruct (wf_func w i Hw Hi) as [f Hf].
    destruct (set_res_cnt_ok w i f cnt Hw Hf Hc) as (r & w' & He & Hw' & _ & Hr).
    eapply outcome_of_ok; [exact He| |done]. case_decide; naive_solver.
  - intros Hi. destruct (wf_func w i Hw Hi) as [f Hf].
    destruct (enable_ok w i f Hw Hf) as (r & w' & He & Hr & Hw' & _). by eapply outcome_of_ok.
  - intros Hi. destruct (wf_func w i Hw Hi) as [f Hf].
    destruct (disable_ok w i f Hw Hf) as (w' & He & Hw' & _). by eapply outcome_of_ok.
  - intros Hi. destruct (wf_func w i Hw Hi) as [f Hf].
    destruct (save_ok w i f lm mask bk bk3 Hw Hf) as (lm' & He & _). by eapply outcome_of_ok.
  - intros [Hi Hl]. destruct (wf_func w i Hw Hi) as [f Hf].
    destruct (restore_ok w i f lm Hw Hf Hl) as (r & w' & He & Hr & Hw' & _). by eapply outcome_of_ok.
  - intros _. destruct (mgr_reset_ok w Hw) as (w' & He & Hw' & _). by eapply outcome_of_ok.
  - intros _. destruct (warm_boot_ok w Hw) as (w' & He & Hw' & _). by eapply outcome_of_ok.
Qed.

(** C24: the function manager over its lifetime.  From a well-formed state, no
    sequence of valid requests (creating and deleting queues, moving
    resources, enabling, disabling, saving and restoring functions, resets and
    warm boots, in any order and whatever the controller answers) panics, and
    the invariant holds after each of them. *)
Theorem requests_keep_invariant qs w :
  wf w → Forall valid_request qs →
  ∃ w', serve_all qs w = (false, w') ∧ wf w'.
Proof.
  intros Hw Hqs. revert w Hw. induction Hqs as [|q qs Hq _ IH]; intros w Hw; [by exists w|].
  destruct (request_ok q w Hw Hq) as (w' & He & Hw'). cbn [serve_all]. rewrite He. by apply IH.
Qed.

(** A migration buffer that names the admin queue panics.  The entries of
    the buffer are not validated beyond its CRC, which is no authentication: an
    accepted buffer whose first completion queue has number 0 reaches the
    [unreachable!] of the layout once the admin queues are restored. *)
Theorem restore_admin_entry_panics w i f lm info :
  wf w → funcs w !! i = Some f → accepted f lm → ¬ restore_fails →
  0 < cq_cnt lm → io_cq_info lm !! 0%nat = Some info → cq_id info = 0 →
  fst (Function.restore_lm_context i lm w) = Panic.
Proof.
  intros Hw Hf Hacc Hn Hcnt Hin Hid.
  destruct (restore_start w i f lm Hw Hf) as [[Hno _]|[(_ & Hno & _)|(_ & s & Hr)]]; [done|done|].
  rewrite Hr. destruct (Z.to_nat (cq_cnt lm)) as [|n] eqn:He; [lia|]. cbn [Function.restore_loop].
  rewrite Hin. unfold Function.restore_cq_info. rewrite Hid. reflexivity.
Qed.
End requests.

(** ** A concrete controller *)

(** It keeps the list of the operations it performed, with the controller, the
    device queue and the host queue, and never fails. *)
Definition no_regs : ControllerLmInfo := mkCntrlInfo 0 0 0 0 0 0 0 0 0 0.

Definition log_controller : QueueController := {|
  hw := list (Z * Z * Z);
  qc_enabled c l := bool_decide ((1, c, 0) ∈ l);
  qc_ready c l := false;
  qc_enable c l := (1, c, 0) :: l;
  qc_disable c l := (2, c, 0) :: l;
  qc_clear_enable c l := (3, c, 0) :: l;
  qc_set_enable c l := (4, c, 0) :: l;
  qc_reset c l := (5, c, 0) :: l;
  qc_create_asq c d h := λ l, (Ok tt, (6, d, h) :: l);
  qc_create_acq c d h := λ l, (Ok tt, (7, d, h) :: l);
  qc_create_sq c d h m := λ l, (Ok tt, (8, d, h) :: l);
  qc_delete_sq c d h l := (9, d, h) :: l;
  qc_create_cq c d h m q := λ l, (Ok tt, (10, d, h) :: l);
  qc_delete_cq c d h l := (11, d, h) :: l;
  qc_set_cfs c l := (12, c, 0) :: l;
  qc_host_register_info c l := no_regs;
  qc_restore_host_register_info c i l := (13, c, 0) :: l;
  qc_sq_info c d h l := mkSqInfo h 7 h 0 (mkAddr d 0) 0 0;
  qc_restore_sq_info c d i := λ l, (Ok tt, (14, d, sq_id i) :: l);
  qc_cq_info c d h l := mkCqInfo h 7 (mkAddr d 0) 0 0 0 0;
  qc_restore_cq_info c d i := λ l, (Ok tt, (15, d, cq_id i) :: l);
  qc_enable_sq c d h l := (16, d, h) :: l;
  qc_disable_sq c d h l := (17, d, h) :: l
|}.

#[local] Existing Instance bit_crate_Z.
#[local] Existing Instance zeroize_fill.
#[local] Existing Instance log_controller.

#[local] Instance log_controller_laws : QueueControllerLaws.
Proof. split; by intros. Qed.

#[local] Instance log_info_laws : QueueInfoLaws.
Proof. split; by intros. Qed.

Lemma log_restores : ¬ restore_fails.
Proof. by intros [(c & d & i & s & _ & Hn)|(c & d & i & s & _ & Hn)]; apply Hn. Qed.

(** The invariant, as a check that evaluates. *)
Definition wf_check (w : World) : bool :=
  bool_decide (length (resources w) = 65%nat) &&
  bool_decide (Forall (λ '(j, r), Res.id r = Z.of_nat j ∧ 0 ≤ Res.alloc_map r < 2 ^ 8)
                 (imap pair (resources w))) &&
  bool_decide (length (funcs w) = 65%nat) &&
  bool_decide (Forall (λ '(i, f), f_pfn f = Z.of_nat i ∧ Pcie.cntrl_of_pfn (Z.of_nat i) = Ok (f_cntrl f) ∧
      f_res_cnt f = Z.of_nat (length (owned (Z.of_nat i) (resources w))) ∧
      (f_admin_queue f = None ∨ (default 0 (f_admin_queue f) < length (queues w))%nat)) (imap pair (funcs w))) &&
  bool_decide (free_resource_cnt w = Z.of_nat (length (free_resources (resources w)))) &&
  bool_decide (Mgr.get_crc (resources w) = crc_cell w).

Lemma wf_check_ok w : wf_check w = true → wf w.
Proof.
  unfold wf_check. rewrite !andb_true_iff, !bool_decide_eq_true, !Forall_lookup.
  intros (((((H1 & H2) & H3) & H4) & H5) & H6). constructor.
  - split; [done|]. intros j r Hj. apply (H2 j (j, r)). by rewrite list_lookup_imap, Hj.
  - done.
  - intros i f Hf. destruct (H4 i (i, f)) as (F1 & F2 & F3 & F4); [by rewrite list_lookup_imap, Hf|].
    split_and!; try done. intros q Hq. rewrite Hq in F4. by destruct F4.
  - done.
  - by left.
Qed.

(** A device with two functions that own resources, one of which has queues. *)
Definition blank : World :=
  mkWorld [] (replicate 65 (Res.mkResource None 0 0)) [] 0 0 ([] : list (Z * Z * Z)).
Definition a_mem : QueueMem := mkQueueMem (mkAddr 4096 0) 15.
Definition setup : list request :=
  [SetRes 3 2; SetRes 5 2; CreateCq 3 1 a_mem None; CreateSq 3 1 1 a_mem; CreateCq 3 258 a_mem None].
Definition start : World := snd (Mgr.new blank).
Definition busy : World := snd (serve_all setup start).
Definition fn (i : nat) (w : World) : FunctionImpl :=
  default (mkFunction 0 None 0 0) (funcs w !! i).

Lemma start_wf : wf start.
Proof. apply wf_check_ok. by vm_compute. Qed.

Lemma busy_wf : wf busy.
Proof. apply wf_check_ok. by vm_compute. Qed.

Lemma busy_fn i : (i < 65)%nat → funcs busy !! i = Some (fn i busy).
Proof.
  intros Hi. unfold fn. destruct (wf_func busy i busy_wf Hi) as [f Hf]. by rewrite Hf.
Qed.

Lemma busy_total : f_res_cnt (fn 5 busy) + free_resource_cnt busy = 63.
Proof. vm_compute. reflexivity. Qed.

Lemma busy_queue : lookup_queue (resources busy) 3 Layout.Sq 1 = Some 65.
Proof. vm_compute. reflexivity. Qed.

Lemma busy_device_queue : device_queue 3 Layout.Sq 1 busy = (Ok (Some 65), busy).
Proof. vm_compute. reflexivity. Qed.

#[local] Opaque busy start.

Lemma create_queues_exact_witness :
  ∃ r w', Function.create_sq 3 258 258 a_mem busy = ((λ d, (d, d)) <$> r, w') ∧ wf w' ∧
    creates_sq busy w' 3 (fn 3 busy) 258 258 (λ d, qc_create_sq (f_cntrl (fn 3 busy)) d 258 a_mem) r.
Proof.
  destruct (create_queues_exact busy 3 (fn 3 busy) 258 258 a_mem None) as [_ H];
    [apply busy_wf|apply busy_fn; lia|done|done|exact H].
Defined.

Lemma delete_queues_exact_witness :
  ∃ r w', Function.delete_cq 3 1 busy = (r, w') ∧ wf w' ∧ deletes_cq busy w' 3 (fn 3 busy) 1 r.
Proof.
  destruct (delete_queues_exact busy 3 (fn 3 busy) 1) as [H _];
    [apply busy_wf|apply busy_fn; lia|done|exact H].
Defined.

Lemma device_queues_disjoint_witness :
  device_queue 3 Layout.Sq 1 busy = (Ok (Some 65), busy) ∧
  ∀ i' h', host_ok h' → device_queue i' Layout.Sq h' busy = (Ok (Some 65), busy) →
    Queue.group 1 65 = Queue.group h' 65 → 3%nat = i' ∧ 1 = h'.
Proof.
  split; [exact busy_device_queue|].
  destruct (device_queues_disjoint busy 3 Layout.Sq 1 65) as [H _];
    [apply busy_wf|done|exact busy_device_queue|exact H].
Defined.

Lemma set_res_cnt_exact_witness :
  ∃ r w', Mgr.set_res_cnt 5 64 busy = (r, w') ∧ r = Err AdminErr.SetResCountLimitExceeded.
Proof.
  destruct (set_res_cnt_exact busy 5 (fn 5 busy) 64) as (r & w' & H1 & _ & _ & H2);
    [apply busy_wf|apply busy_fn; lia|done|].
  exists r, w'. split; [exact H1|]. rewrite decide_False in H2; [apply H2|].
  pose proof busy_total. lia.
Defined.

Lemma disable_exact_witness :
  ∃ w', Function.disable 3 busy = (Ok tt, w') ∧ lookup_queue (resources w') 3 Layout.Sq 1 = None.
Proof.
  destruct (disable_exact busy 3 (fn 3 busy)) as (w' & H1 & _ & (H2 & _) & _);
    [apply busy_wf|apply busy_fn; lia|].
  exists w'. split; [exact H1|]. by rewrite H2.
Defined.

Lemma new_exact_witness :
  ∃ w', Mgr.new blank = (Ok tt, w') ∧ wf w'.
Proof.
  assert (resources blank = replicate 65 (Res.mkResource None 0 0)) as Hb by reflexivity.
  destruct (new_exact blank) as (w' & H1 & H2);
    [done|rewrite Hb; by apply Forall_replicate|].
  exists w'. split; [exact H1|]. rewrite decide_True in H2; [apply H2|].
  right. rewrite Hb. by apply Forall_replicate.
Defined.

Lemma mgr_reset_exact_witness : ∃ w', Mgr.reset busy = (Ok tt, w') ∧ free_resource_cnt w' = 65.
Proof.
  destruct (mgr_reset_exact busy busy_wf) as (w' & H1 & _ & _ & _ & H2 & _).
  exists w'. split; [exact H1|exact H2].
Defined.

Lemma requests_keep_invariant_witness : ∃ w', serve_all setup start = (false, w') ∧ wf w'.
Proof.
  apply (requests_keep_invariant setup start start_wf). unfold setup, host_ok.
  repeat constructor; simpl; lia.
Defined.

(** Migration from function 3 to function 5, which owns as many resources. *)
Definition no_blob : Blob := mkBlob 0 [].
Definition no_lm : VmLiveMigrationInfo :=
  mkLm (mkVersion 0 0) 0 0 0 no_regs (mkCqInfo 0 0 (mkAddr 0 0) 0 0 0 0) (mkSqInfo 0 0 0 0 (mkAddr 0 0) 0 0)
    [] [] 0 [] no_blob no_blob 0.

(** The queues of function 3 in the busy state. *)
Lemma busy_fn3 :
  io_queues 0 (owned 3 (resources busy)) = [(Layout.Sq, 1, 65); (Layout.Cq, 1, 65); (Layout.Cq, 258, 1)] ∧
  io_queues 0 (owned 5 (resources busy)) = [] ∧ f_res_cnt (fn 5 busy) = f_res_cnt (fn 3 busy).
Proof. vm_compute. done. Qed.

Lemma busy_lookup i k h d :
  host_ok h → lookup_queue (resources busy) (Z.of_nat i) k h = Some d →
  (k, h, d) ∈ io_queues 0 (owned (Z.of_nat i) (resources busy)).
Proof. intros Hh Hl. apply io_queues_lookup; [apply busy_wf|done]. Qed.

Lemma host_ok_1 : host_ok 1.
Proof. done. Qed.

Lemma sq_of_list h d :
  (Layout.Sq, h, d) ∈ [(Layout.Sq, 1, 65); (Layout.Cq, 1, 65); (Layout.Cq, 258, 1)] → h = 1.
Proof. rewrite !elem_of_cons, elem_of_nil. naive_solver. Qed.

Lemma live_migration_roundtrip_witness :
  ∃ lm w2', Function.save_lm_context 3 no_lm 0 no_blob no_blob busy = (Ok lm, busy) ∧
    Function.restore_lm_context 5 lm busy = (Ok tt, w2') ∧
    is_Some (lookup_queue (resources w2') 5 Layout.Sq 1).
Proof.
  destruct busy_fn3 as (H3 & H5 & Hcnt).
  destruct (live_migration_roundtrip log_restores busy 3 (fn 3 busy) busy_wf (busy_fn 3 ltac:(lia)))
    with (w2 := busy) (j := 5%nat) (f2 := fn 5 busy) (lm0 := no_lm) (mask := 0) (bk := no_blob) (bk3 := no_blob)
    as (lm & w2' & H1 & H2 & _ & H4 & _).
  - intros h Hh [d Hd]. pose proof (busy_lookup 3 _ _ _ Hh Hd) as Hin. change (Z.of_nat 3) with 3 in *.
    rewrite H3 in Hin. apply sq_of_list in Hin as ->. exists 65. apply io_queues_lookup; [apply busy_wf|]. rewrite H3. rewrite !elem_of_cons. tauto.
  - apply busy_wf.
  - apply busy_fn. lia.
  - exact Hcnt.
  - intros k h Hh. apply eq_None_not_Some. intros [d Hd]. pose proof (busy_lookup 5 _ _ _ Hh Hd) as Hin.
    change (Z.of_nat 5) with 5 in *. rewrite H5 in Hin. exact (not_elem_of_nil _ Hin).
  - exists lm, w2'. split; [exact H1|]. split; [exact H2|].
    exact (proj2 (H4 Layout.Sq 1 host_ok_1) (ex_intro _ 65 busy_queue)).
Defined.

Lemma restore_safe_witness : ∃ r w', Function.restore_lm_context 5 no_lm busy = (r, w') ∧ r ≠ Panic.
Proof.
  destruct (restore_safe busy 5 (fn 5 busy) no_lm) as (r & w' & H1 & H2 & _);
    [apply busy_wf|apply busy_fn; lia|repeat split; constructor|exists r, w'; split; [exact H1|exact H2]].
Defined.

(** A buffer whose first completion queue is the admin queue, with its CRC. *)
Definition bad_lm : VmLiveMigrationInfo :=
  let lm := mkLm (mkVersion 0 1) 2 0 1 no_regs (mkCqInfo 0 0 (mkAddr 0 0) 0 0 0 0) (mkSqInfo 0 0 0 0 (mkAddr 0 0) 0 0)
              (replicate 195 (mkCqInfo 0 0 (mkAddr 0 0) 0 0 0 0)) (replicate 195 (mkSqInfo 0 0 0 0 (mkAddr 0 0) 0 0)) 0 [0; 0; 0]
              (mkBlob 0 (replicate 300 0)) (mkBlob 0 (replicate 512 0)) 0 in
  set_crc (lm_checksum lm) lm.

Lemma restore_admin_entry_panics_witness : fst (Function.restore_lm_context 5 bad_lm busy) = Panic.
Proof.
  apply (restore_admin_entry_panics busy 5 (fn 5 busy) bad_lm (mkCqInfo 0 0 (mkAddr 0 0) 0 0 0 0));
    [apply busy_wf|apply busy_fn; lia| |apply log_restores|done|done|done].
  apply accepted_checksum; [done|]. vm_compute. reflexivity.
Defined.
