(* ===== verification/CdmaVault.v ===== *)
(** * The bulk-key vault (hsm/src/partition/cdma_vault.rs)

    The AES bulk keys live in the memory of the fast path: 65 tables of seven
    32-byte keys.  The HSM core keeps one availability byte per table and
    sees, like the key store, only the tables of its mask.  A key is named by
    the bit field [AesBulk256KeyId] (types/src/cdma_io.rs). *)

From stdpp Require Import base list numbers option sets.
From S2P Require Import Prelude HsmError KeyEntry Crates KeyTable KeyStore KeyStoreProps.

(** ** [AesBulk256KeyId], [bitfield(u16)]: 3 bits of index, 7 of vault id *)

Module BulkId.

(** A field of [n] bits at bit [off]: the accessor and [with_..]. *)
Definition field (off n id : Z) : Z := Z.land (Z.shiftr id off) (Z.ones n).
Definition with_field (off n v id : Z) : Z :=
  Z.lor (Z.land id (unot 16 (Z.shiftl (Z.ones n) off))) (Z.shiftl (Z.land v (Z.ones n)) off).

Definition new : Z := 0.
Definition key_index (id : Z) : Z := field 0 3 id.
Definition vault_id (id : Z) : Z := field 3 7 id.
Definition with_key_index (v id : Z) : Z := with_field 0 3 v id.
Definition with_vault_id (v id : Z) : Z := with_field 3 7 v id.
Definition with_rsvd (v id : Z) : Z := with_field 10 6 v id.

End BulkId.

(** [IoMemRange]: an address and a length. *)
Record IoMemRange : Set := mkIoMemRange { addr : Z; len : Z }.

Module Cdma.

Definition MAX_KEYS_PER_TABLE : nat := 7.
Definition KEY_SIZE : Z := 32.
Definition TOTAL_TABLE_SIZE : Z := Z.of_nat MAX_KEYS_PER_TABLE * KEY_SIZE.

(** [CdmaKeyVaultImpl]: the metadata base is the availability bytes
    themselves, the state of the operations. *)
Record CdmaKeyVault : Set := mkCdma { base : Z (* usize *); mask : Z (* u128 *) }.

Abbreviation metadata := (list Z).

Section cdma.
Context `{BC : BitCrate}.

Definition is_valid_table (v : CdmaKeyVault) (table_index : Z) : bool :=
  (table_index <? Z.of_nat MAX_TABLE_COUNT)%Z
  && negb (Z.land (mask v) (Z.shiftl 1 table_index) =? 0)%Z.

(** [table_meta_data[i]], which panics out of range. *)
Definition read (i : nat) : M metadata HsmErr Z := λ meta,
  match meta !! i with Some b => (Ok b, meta) | None => (Panic, meta) end.
Definition write (i : nat) (b : Z) : M metadata HsmErr () := λ meta,
  if i <? length meta then (Ok tt, <[i := b]> meta) else (Panic, meta).

(** The inner loop of [import_key]: the first clear bit, set. *)
Fixpoint key_loop (availability : Z) (key_indices : list nat) : option (Z * nat) :=
  match key_indices with
  | [] => None
  | key_index :: key_indices =>
      if negb (bit availability key_index)
      then Some (set_bit 8 availability key_index true, key_index)
      else key_loop availability key_indices
  end.

Fixpoint table_loop (v : CdmaKeyVault) (table_indices : list nat) : M metadata HsmErr Z :=
  match table_indices with
  | [] => throw ReachedMaxAesBulkKeys
  | table_index :: table_indices =>
      if negb (is_valid_table v (Z.of_nat table_index)) then table_loop v table_indices
      else
        availability ← read table_index;
        match key_loop availability (seq 0 MAX_KEYS_PER_TABLE) with
        | Some (availability, key_index) =>
            _ ← write table_index availability;
            mret (BulkId.with_rsvd 0
                    (BulkId.with_vault_id (wrap 8 (Z.of_nat table_index))
                       (BulkId.with_key_index (wrap 8 (Z.of_nat key_index)) BulkId.new)))
        | None => table_loop v table_indices
        end
  end.

(** [import_key]; the key size is [DdiAesKeySize::AesGcmBulk256] as a
    [usize]. *)
Definition import_key (v : CdmaKeyVault) (key_blob : list Z) : M metadata HsmErr Z :=
  let key_size := 32 in
  _ ← unless (length key_blob =? key_size) InvalidArgument;
  table_loop v (seq 0 MAX_TABLE_COUNT).

Definition delete_key (v : CdmaKeyVault) (key_id : Z) : M metadata HsmErr () :=
  let table_index := BulkId.vault_id key_id in
  let key_index := BulkId.key_index key_id in
  _ ← unless (is_valid_table v table_index) InvalidKeyTableIndex;
  b ← read (Z.to_nat table_index);
  _ ← unless (bit b (Z.to_nat key_index)) InvalidKeyIndex;
  write (Z.to_nat table_index) (set_bit 8 b (Z.to_nat key_index) false).

Definition clear_bits (availability : Z) : Z :=
  foldl (λ a key_index, set_bit 8 a key_index false) availability (seq 0 MAX_KEYS_PER_TABLE).

Fixpoint clear_loop (v : CdmaKeyVault) (table_indices : list nat) : M metadata HsmErr () :=
  match table_indices with
  | [] => mret tt
  | table_index :: table_indices =>
      if negb (is_valid_table v (Z.of_nat table_index)) then clear_loop v table_indices
      else
        availability ← read table_index;
        _ ← write table_index (clear_bits availability);
        clear_loop v table_indices
  end.

Definition clear (v : CdmaKeyVault) : M metadata HsmErr () :=
  clear_loop v (seq 0 MAX_TABLE_COUNT).

(** [get_table_entry_mut]: where the key is. *)
Definition get_table_entry_mut (v : CdmaKeyVault) (table_index table_offset : Z) : IoMemRange :=
  mkIoMemRange (base v + table_index * TOTAL_TABLE_SIZE + table_offset * KEY_SIZE) KEY_SIZE.

Definition get_key_entry (v : CdmaKeyVault) (key_id : Z) : M metadata HsmErr IoMemRange :=
  let table_index := BulkId.vault_id key_id in
  let key_index := BulkId.key_index key_id in
  _ ← unless (is_valid_table v table_index) InvalidKeyIndex;
  b ← read (Z.to_nat table_index);
  _ ← unless (bit b (Z.to_nat key_index)) InvalidKeyIndex;
  mret (get_table_entry_mut v table_index key_index).

End cdma.
End Cdma.

(** ** The slots of the metadata *)

Section cdma_props.
Context `{BC : BitCrate}.

(** The invariant: one byte per table, bit 7 never set. *)
Record cdma_wf (meta : Cdma.metadata) : Prop := {
  cm_len : length meta = MAX_TABLE_COUNT;
  cm_byte i b : meta !! i = Some b → uint_range 8 b;
  cm_high i b : meta !! i = Some b → bit b 7 = false
}.

(** Whether slot [k] of table [t] holds a key. *)
Definition used (meta : Cdma.metadata) (p : nat * nat) : bool :=
  match meta !! p.1 with Some b => bit b p.2 | None => false end.

Definition valid_in (v : Cdma.CdmaKeyVault) (t : nat) : bool :=
  Cdma.is_valid_table v (Z.of_nat t).

(** The slots a vault may use, in the order it searches them. *)
Definition table_slots (v : Cdma.CdmaKeyVault) (t : nat) : list (nat * nat) :=
  if valid_in v t then pair t <$> seq 0 Cdma.MAX_KEYS_PER_TABLE else [].
Definition slots_from (v : Cdma.CdmaKeyVault) (ts : list nat) : list (nat * nat) :=
  concat (table_slots v <$> ts).
Definition vault_slots (v : Cdma.CdmaKeyVault) : list (nat * nat) :=
  slots_from v (seq 0 MAX_TABLE_COUNT).

Definition slot_id (p : nat * nat) : Z := Z.of_nat p.2 + 8 * Z.of_nat p.1.

(** The slot a key id names. *)
Definition id_slot (id : Z) : nat * nat :=
  (Z.to_nat (BulkId.vault_id id), Z.to_nat (BulkId.key_index id)).

Lemma elem_of_vault_slots v t k :
  (t, k) ∈ vault_slots v ↔ valid_in v t = true ∧ t < MAX_TABLE_COUNT ∧ k < Cdma.MAX_KEYS_PER_TABLE.
Proof.
  unfold vault_slots, slots_from. rewrite list_elem_of_In, in_concat. split.
  - intros (l & Hl & Hin). apply list_elem_of_In, list_elem_of_fmap in Hl as (t' & -> & Ht).
    apply list_elem_of_In in Hin. unfold table_slots in Hin. apply elem_of_seq in Ht.
    destruct (valid_in v t') eqn:Hv; [|by apply elem_of_nil in Hin].
    apply list_elem_of_fmap in Hin as (k' & [= <- ->] & Hk%elem_of_seq).
    split_and!; [done|lia..].
  - intros (Hv & Ht & Hk). exists (table_slots v t). split.
    + apply list_elem_of_In, list_elem_of_fmap. exists t. split; [done|]. apply elem_of_seq. lia.
    + apply list_elem_of_In. unfold table_slots. rewrite Hv. apply list_elem_of_fmap.
      exists k. split; [done|]. apply elem_of_seq. lia.
Qed.

(** *** The key ids *)

(** The id built for a slot, checked on every slot. *)
Definition built_id (t k : nat) : Z :=
  BulkId.with_rsvd 0
    (BulkId.with_vault_id (wrap 8 (Z.of_nat t))
       (BulkId.with_key_index (wrap 8 (Z.of_nat k)) BulkId.new)).

Lemma built_ids_checked :
  forallb (λ t, forallb (λ k,
    bool_decide (built_id t k = slot_id (t, k) ∧ id_slot (built_id t k) = (t, k)))
      (seq 0 8)) (seq 0 128) = true.
Proof. vm_compute. reflexivity. Qed.

Lemma built_id_slot t k :
  t < 128 → k < 8 → built_id t k = slot_id (t, k) ∧ id_slot (built_id t k) = (t, k).
Proof.
  intros Ht Hk. pose proof built_ids_checked as H. rewrite forallb_forall in H.
  specialize (H t). rewrite forallb_forall in H.
  specialize (H ltac:(apply in_seq; lia) k ltac:(apply in_seq; lia)).
  by apply bool_decide_eq_true in H.
Qed.

Lemma field_range off n id : (0 ≤ n)%Z → (0 ≤ BulkId.field off n id < 2 ^ n)%Z.
Proof.
  intros Hn. unfold BulkId.field. rewrite Z.land_ones by done. apply Z.mod_pos_bound. lia.
Qed.

Lemma id_slot_range id : (id_slot id).1 < 128 ∧ (id_slot id).2 < 8.
Proof.
  unfold id_slot, BulkId.vault_id, BulkId.key_index. cbn [fst snd].
  pose proof (field_range 3 7 id). pose proof (field_range 0 3 id). lia.
Qed.

(** *** Reads and writes *)

Lemma used_insert meta t b p :
  length meta = MAX_TABLE_COUNT → t < MAX_TABLE_COUNT →
  used (<[t := b]> meta) p = if decide (p.1 = t) then bit b p.2 else used meta p.
Proof.
  intros Hl Ht. unfold used. case_decide as H.
  - rewrite H, list_lookup_insert_eq by lia. done.
  - by rewrite list_lookup_insert_ne.
Qed.

Lemma wf_lookup meta t :
  cdma_wf meta → t < MAX_TABLE_COUNT → ∃ b, meta !! t = Some b ∧ uint_range 8 b ∧ bit b 7 = false.
Proof.
  intros [Hl Hb Hh] Ht. destruct (lookup_lt_is_Some_2 meta t) as [b Hlk]; [lia|].
  exists b. eauto.
Qed.

Lemma wf_insert meta t b :
  cdma_wf meta → uint_range 8 b → bit b 7 = false → cdma_wf (<[t := b]> meta).
Proof.
  intros [Hl Hb Hh] Hr H7. constructor.
  - by rewrite length_insert.
  - intros i b' Hlk. apply list_lookup_insert_Some in Hlk as [(_ & <- & _)|[_ ?]]; eauto.
  - intros i b' Hlk. apply list_lookup_insert_Some in Hlk as [(_ & <- & _)|[_ ?]]; eauto.
Qed.

Lemma write_key_ok meta t b :
  cdma_wf meta → t < MAX_TABLE_COUNT → Cdma.write t b meta = (Ok tt, <[t := b]> meta).
Proof.
  intros [Hl _ _] Ht. unfold Cdma.write.
  by rewrite (proj2 (Nat.ltb_lt t (length meta))) by lia.
Qed.

(** Setting one bit of one table. *)
Lemma set_slot meta t k x b :
  cdma_wf meta → meta !! t = Some b → k < 7 ∨ x = false ∧ k < 8 →
  cdma_wf (<[t := set_bit 8 b k x]> meta) ∧
  ∀ p, p.2 < 8 → used (<[t := set_bit 8 b k x]> meta) p
    = if decide (p = (t, k)) then x else used meta p.
Proof.
  intros Hwf Hlk Hk. pose proof Hwf as [Hl Hb Hh].
  assert (t < MAX_TABLE_COUNT) as Ht by (rewrite <- Hl; by eapply lookup_lt_Some).
  split.
  - apply wf_insert; [done|apply set_bit_range; [eauto|lia]|].
    rewrite set_bit_spec by (eauto || lia). case_decide; [|eauto]. destruct Hk; [lia|tauto].
  - intros [t' k'] Hp. cbn in Hp. rewrite used_insert by done. cbn [fst snd].
    destruct (decide (t' = t)) as [->|Hne].
    + rewrite set_bit_spec by (eauto || lia). unfold used. cbn [fst snd]. rewrite Hlk.
      repeat case_decide; congruence.
    + rewrite decide_False by congruence. done.
Qed.

(** *** The searches *)

Definition free_slot (meta : Cdma.metadata) (l : list (nat * nat)) : option (nat * nat) :=
  find (λ p, negb (used meta p)) l.

Lemma key_loop_free meta t b ks :
  meta !! t = Some b →
  Cdma.key_loop b ks
    = (λ p, (set_bit 8 b p.2 true, p.2)) <$> free_slot meta (pair t <$> ks).
Proof.
  intros Hb. induction ks as [|k ks IH]; [done|]. cbn [Cdma.key_loop fmap list_fmap].
  unfold free_slot in *. cbn [find]. rewrite IH. unfold used at 2. cbn [fst snd]. rewrite Hb.
  by destruct (bit b k).
Qed.

Lemma free_slot_app meta l1 l2 :
  free_slot meta (l1 ++ l2)
    = match free_slot meta l1 with Some p => Some p | None => free_slot meta l2 end.
Proof.
  induction l1 as [|p l1 IH]; [done|]. unfold free_slot in *. cbn [app find].
  destruct (negb _); [done|]. apply IH.
Qed.

Lemma free_slot_Some meta l p : free_slot meta l = Some p → p ∈ l ∧ used meta p = false.
Proof.
  intros H. apply find_some in H as [H1 H2]. rewrite list_elem_of_In.
  split; [done|]. by apply negb_true_iff.
Qed.

Lemma table_loop_ok v ts meta :
  cdma_wf meta → Forall (λ t, t < MAX_TABLE_COUNT) ts →
  match free_slot meta (slots_from v ts) with
  | Some (t, k) => ∃ b, meta !! t = Some b ∧ k < 7 ∧
      Cdma.table_loop v ts meta = (Ok (slot_id (t, k)), <[t := set_bit 8 b k true]> meta)
  | None => Cdma.table_loop v ts meta = (Err ReachedMaxAesBulkKeys, meta)
  end.
Proof.
  intros Hwf. induction 1 as [|t ts Ht Hts IH]; [done|].
  change (slots_from v (t :: ts)) with (table_slots v t ++ slots_from v ts).
  rewrite free_slot_app. cbn [Cdma.table_loop].
  unfold table_slots. fold (valid_in v t). destruct (valid_in v t); cbn [negb]; [|done].
  destruct (wf_lookup meta t Hwf Ht) as (b & Hb & Hr & H7).
  rewrite (bind_ok _ _ _ b meta) by (unfold Cdma.read; by rewrite Hb).
  rewrite (key_loop_free meta t) by done.
  destruct (free_slot meta (pair t <$> _)) as [[t' k]|] eqn:Hf; cbn [fmap option_fmap option_map].
  - apply free_slot_Some in Hf as [Hin _].
    apply list_elem_of_fmap in Hin as (k' & [= -> ->] & Hk%elem_of_seq).
    unfold Cdma.MAX_KEYS_PER_TABLE in Hk. exists b. split_and!; [done|lia|].
    cbn [snd]. rewrite (bind_ok _ _ _ tt (<[t := set_bit 8 b k' true]> meta)) by by apply write_key_ok.
    change (BulkId.with_rsvd 0 _) with (built_id t k').
    by rewrite (proj1 (built_id_slot t k' ltac:(unfold MAX_TABLE_COUNT in Ht; lia) ltac:(lia))).
  - exact IH.
Qed.

Lemma seq_tables : Forall (λ t, t < MAX_TABLE_COUNT) (seq 0 MAX_TABLE_COUNT).
Proof. apply list.Forall_forall. intros t Ht%elem_of_seq. lia. Qed.

(** *** The checks of [delete_key] and [get_key_entry] *)

Lemma id_table_lt v id :
  Cdma.is_valid_table v (BulkId.vault_id id) = true → (id_slot id).1 < MAX_TABLE_COUNT.
Proof.
  unfold Cdma.is_valid_table, id_slot. cbn [fst]. intros H.
  apply andb_true_iff in H as [H _]. apply Z.ltb_lt in H.
  pose proof (field_range 3 7 id). unfold BulkId.vault_id in *. lia.
Qed.

Lemma valid_in_id v id :
  Cdma.is_valid_table v (BulkId.vault_id id) = valid_in v (id_slot id).1.
Proof.
  unfold valid_in, id_slot. cbn [fst]. rewrite Z2Nat.id; [done|].
  apply (field_range 3 7). lia.
Qed.

Lemma read_used v id meta :
  cdma_wf meta → valid_in v (id_slot id).1 = true →
  ∃ b, meta !! (id_slot id).1 = Some b ∧ Cdma.read (id_slot id).1 meta = (Ok b, meta) ∧
    bit b (id_slot id).2 = used meta (id_slot id).
Proof.
  intros Hwf Hv. rewrite <- valid_in_id in Hv. apply id_table_lt in Hv.
  destruct (wf_lookup meta _ Hwf Hv) as (b & Hb & _). exists b.
  unfold Cdma.read, used. by rewrite Hb.
Qed.

Lemma delete_key_run v id meta :
  cdma_wf meta →
  if negb (valid_in v (id_slot id).1) then
    Cdma.delete_key v id meta = (Err InvalidKeyTableIndex, meta)
  else if negb (used meta (id_slot id)) then
    Cdma.delete_key v id meta = (Err InvalidKeyIndex, meta)
  else ∃ meta', Cdma.delete_key v id meta = (Ok tt, meta') ∧ cdma_wf meta' ∧
    ∀ p, p.2 < 8 → used meta' p = if decide (p = id_slot id) then false else used meta p.
Proof.
  intros Hwf. unfold Cdma.delete_key. rewrite valid_in_id.
  change (Z.to_nat (BulkId.vault_id id)) with (id_slot id).1.
  change (Z.to_nat (BulkId.key_index id)) with (id_slot id).2.
  destruct (valid_in v (id_slot id).1) eqn:Hv; cbn [negb]; [|done].
  destruct (read_used v id meta Hwf Hv) as (b & Hb & Hread & Hbit).
  rewrite (bind_ok _ _ _ tt meta), (bind_ok _ _ _ b meta) by done. rewrite Hbit.
  destruct (used meta (id_slot id)) eqn:Hu; cbn [negb]; [|done].
  rewrite (bind_ok _ _ _ tt meta) by done. rewrite write_key_ok.
  2: done. 2:{ rewrite <- (cm_len _ Hwf). by eapply lookup_lt_Some. }
  pose proof (id_slot_range id) as [_ Hk].
  destruct (set_slot meta _ (id_slot id).2 false b Hwf Hb) as [H1 H2]; [auto|].
  eexists. split_and!; [done|done|]. intros p Hp. rewrite H2 by done.
  by rewrite <- surjective_pairing.
Qed.

Lemma get_key_entry_run v id meta :
  cdma_wf meta →
  Cdma.get_key_entry v id meta
    = (if valid_in v (id_slot id).1 && used meta (id_slot id)
       then Ok (mkIoMemRange (Cdma.base v + 32 * (7 * Z.of_nat (id_slot id).1
                                                  + Z.of_nat (id_slot id).2)) 32)
       else Err InvalidKeyIndex, meta).
Proof.
  intros Hwf. unfold Cdma.get_key_entry. rewrite valid_in_id.
  change (Z.to_nat (BulkId.vault_id id)) with (id_slot id).1.
  change (Z.to_nat (BulkId.key_index id)) with (id_slot id).2.
  destruct (valid_in v (id_slot id).1) eqn:Hv; cbn [andb]; [|done].
  destruct (read_used v id meta Hwf Hv) as (b & Hb & Hread & Hbit).
  rewrite (bind_ok _ _ _ tt meta), (bind_ok _ _ _ b meta) by done. rewrite Hbit.
  destruct (used meta (id_slot id)) eqn:Hu; [|done].
  rewrite (bind_ok _ _ _ tt meta) by done. unfold mret, M_ret, Cdma.get_table_entry_mut.
  do 3 f_equal. unfold id_slot, Cdma.TOTAL_TABLE_SIZE, Cdma.MAX_KEYS_PER_TABLE, Cdma.KEY_SIZE.
  cbn [fst snd]. pose proof (field_range 3 7 id). pose proof (field_range 0 3 id).
  unfold BulkId.vault_id, BulkId.key_index. lia.
Qed.

(** *** Clearing *)

Lemma clear_fold ks b :
  uint_range 8 b → Forall (λ k, k < 8) ks →
  let b' := foldl (λ a k, set_bit 8 a k false) b ks in
  uint_range 8 b' ∧ ∀ k, k < 8 → bit b' k = if bool_decide (k ∈ ks) then false else bit b k.
Proof.
  intros Hr Hks. revert b Hr. induction Hks as [|k0 ks Hk0 Hks IH]; intros b Hr; cbn [foldl].
  { split; [done|]. intros k Hk. by rewrite bool_decide_false by apply not_elem_of_nil. }
  destruct (IH (set_bit 8 b k0 false)) as [H1 H2]; [apply set_bit_range; [done|lia]|].
  split; [done|]. intros k Hk. rewrite H2 by done. rewrite set_bit_spec by (done || lia).
  repeat case_bool_decide; try case_decide; set_solver.
Qed.

Lemma clear_bits_spec b :
  uint_range 8 b → bit b 7 = false →
  uint_range 8 (Cdma.clear_bits b) ∧ ∀ k, k < 8 → bit (Cdma.clear_bits b) k = false.
Proof.
  intros Hr H7. destruct (clear_fold (seq 0 Cdma.MAX_KEYS_PER_TABLE) b Hr) as [H1 H2].
  { apply list.Forall_forall. intros k Hk%elem_of_seq. unfold Cdma.MAX_KEYS_PER_TABLE in Hk. lia. }
  split; [done|]. intros k Hk. unfold Cdma.clear_bits. rewrite H2 by done.
  case_bool_decide as Hin; [done|]. assert (k = 7) as ->; [|done].
  destruct (decide (k = 7)); [done|]. exfalso. apply Hin, elem_of_seq.
  unfold Cdma.MAX_KEYS_PER_TABLE. lia.
Qed.

Lemma clear_loop_ok v ts meta :
  cdma_wf meta → Forall (λ t, t < MAX_TABLE_COUNT) ts →
  ∃ meta', Cdma.clear_loop v ts meta = (Ok tt, meta') ∧ cdma_wf meta' ∧
    ∀ p, p.2 < 8 → used meta' p
      = if bool_decide (p.1 ∈ ts) && valid_in v p.1 then false else used meta p.
Proof.
  intros Hwf Hts. revert meta Hwf. induction Hts as [|t ts Ht Hts IH]; intros meta Hwf.
  { exists meta. split_and!; [done..|]. intros p _.
    by rewrite bool_decide_false by apply not_elem_of_nil. }
  cbn [Cdma.clear_loop]. fold (valid_in v t). destruct (valid_in v t) eqn:Hv; cbn [negb].
  - destruct (wf_lookup meta t Hwf Ht) as (b & Hb & Hr & H7).
    destruct (clear_bits_spec b Hr H7) as [Hcr Hc].
    rewrite (bind_ok _ _ _ b meta) by (unfold Cdma.read; by rewrite Hb).
    rewrite (bind_ok _ _ _ tt (<[t := Cdma.clear_bits b]> meta)) by by apply write_key_ok.
    destruct (IH (<[t := Cdma.clear_bits b]> meta)) as (meta' & Hrun & Hwf' & Hu).
    { apply wf_insert; [done|done|]. apply Hc. lia. }
    exists meta'. split_and!; [done..|]. intros p Hp. rewrite Hu by done.
    rewrite used_insert by (done || apply Hwf).
    destruct (decide (p.1 = t)) as [->|Hne].
    + rewrite Hc by done. rewrite (bool_decide_true (t ∈ t :: ts)) by by left.
      rewrite Hv. by destruct (_ && _).
    + rewrite (bool_decide_ext (p.1 ∈ t :: ts) (p.1 ∈ ts)); [done|]. set_solver.
  - destruct (IH meta Hwf) as (meta' & Hrun & Hwf' & Hu). exists meta'.
    split_and!; [done..|]. intros p Hp. rewrite Hu by done.
    destruct (decide (p.1 = t)) as [->|Hne].
    + by rewrite Hv, !andb_false_r.
    + rewrite (bool_decide_ext (p.1 ∈ t :: ts) (p.1 ∈ ts)); [done|]. set_solver.
Qed.

Lemma valid_in_lt v t : valid_in v t = true → t < MAX_TABLE_COUNT.
Proof.
  unfold valid_in, Cdma.is_valid_table. intros H. apply andb_true_iff in H as [H _]. lia.
Qed.

Lemma clear_run v meta :
  cdma_wf meta →
  ∃ meta', Cdma.clear v meta = (Ok tt, meta') ∧ cdma_wf meta' ∧
    ∀ p, p.2 < 8 → used meta' p = if valid_in v p.1 then false else used meta p.
Proof.
  intros Hwf. destruct (clear_loop_ok v _ meta Hwf seq_tables) as (meta' & Hr & Hwf' & Hu).
  exists meta'. split_and!; [done..|]. intros p Hp. rewrite Hu by done.
  destruct (valid_in v p.1) eqn:Hv; [|by rewrite andb_false_r].
  rewrite bool_decide_true; [done|]. apply elem_of_seq. apply valid_in_lt in Hv. lia.
Qed.

Lemma import_key_run v blob meta :
  cdma_wf meta →
  if negb (length blob =? 32) then Cdma.import_key v blob meta = (Err InvalidArgument, meta)
  else match free_slot meta (vault_slots v) with
  | Some p => ∃ meta', Cdma.import_key v blob meta = (Ok (slot_id p), meta') ∧ cdma_wf meta' ∧
      id_slot (slot_id p) = p ∧ p ∈ vault_slots v ∧ used meta p = false ∧
      ∀ q, q.2 < 8 → used meta' q = if decide (q = p) then true else used meta q
  | None => Cdma.import_key v blob meta = (Err ReachedMaxAesBulkKeys, meta)
  end.
Proof.
  intros Hwf. unfold Cdma.import_key. destruct (length blob =? 32); cbn [negb]; [|done].
  rewrite (bind_ok _ _ _ tt meta) by done.
  pose proof (table_loop_ok v _ meta Hwf seq_tables) as Hl. fold (vault_slots v) in Hl.
  destruct (free_slot meta (vault_slots v)) as [[t k]|] eqn:Hf; [|done].
  destruct Hl as (b & Hb & Hk & Hrun). apply free_slot_Some in Hf as [Hin Hfree].
  destruct (set_slot meta t k true b Hwf Hb) as [H1 H2]; [lia|].
  pose proof Hin as (_ & Ht & _)%elem_of_vault_slots. unfold MAX_TABLE_COUNT in Ht.
  destruct (built_id_slot t k) as [E1 E2]; [lia..|]. rewrite <- E1.
  eexists. split_and!; [by rewrite E1|done..].
Qed.

(** C31: the bulk-key vault hands out key slots.  [import_key] refuses a key
    that is not 32 bytes, otherwise takes the first free slot of the tables
    of its mask (seven per table), marks it alone and returns the id that
    names it; [ReachedMaxAesBulkKeys], nothing changed, exactly when all
    those slots are taken.  [delete_key] frees exactly the slot the id names,
    refusing a table outside the mask and a slot that holds no key; [clear]
    frees exactly the slots of the mask.  Slots of other masks are never
    touched. *)
Theorem cdma_vault_exact v blob id meta :
  cdma_wf meta →
  (if negb (length blob =? 32) then Cdma.import_key v blob meta = (Err InvalidArgument, meta)
   else match free_slot meta (vault_slots v) with
   | Some p => ∃ meta', Cdma.import_key v blob meta = (Ok (slot_id p), meta') ∧ cdma_wf meta' ∧
       id_slot (slot_id p) = p ∧ p ∈ vault_slots v ∧ used meta p = false ∧
       ∀ q, q.2 < 8 → used meta' q = if decide (q = p) then true else used meta q
   | None => Cdma.import_key v blob meta = (Err ReachedMaxAesBulkKeys, meta)
   end) ∧
  (if negb (valid_in v (id_slot id).1) then
     Cdma.delete_key v id meta = (Err InvalidKeyTableIndex, meta)
   else if negb (used meta (id_slot id)) then
     Cdma.delete_key v id meta = (Err InvalidKeyIndex, meta)
   else ∃ meta', Cdma.delete_key v id meta = (Ok tt, meta') ∧ cdma_wf meta' ∧
     ∀ p, p.2 < 8 → used meta' p = if decide (p = id_slot id) then false else used meta p) ∧
  (∃ meta', Cdma.clear v meta = (Ok tt, meta') ∧ cdma_wf meta' ∧
     ∀ p, p.2 < 8 → used meta' p = if valid_in v p.1 then false else used meta p).
Proof. intros Hwf. split_and!; [by apply import_key_run|by apply delete_key_run|by apply clear_run]. Qed.

(** Keys do not overlap.  Whatever vaults share the memory at [base], two
    ids that name different slots and are both accepted have disjoint 32-byte
    ranges, inside the 16 KB of the vault memory. *)
Theorem cdma_keys_disjoint v1 v2 id1 id2 meta r1 r2 :
  cdma_wf meta → Cdma.base v1 = Cdma.base v2 → id_slot id1 ≠ id_slot id2 →
  Cdma.get_key_entry v1 id1 meta = (Ok r1, meta) →
  Cdma.get_key_entry v2 id2 meta = (Ok r2, meta) →
  (addr r1 + len r1 ≤ addr r2 ∨ addr r2 + len r2 ≤ addr r1)%Z ∧
  (Cdma.base v1 ≤ addr r1 ∧ addr r1 + len r1 ≤ Cdma.base v1 + 16 * 1024)%Z.
Proof.
  intros Hwf Hbase Hne. rewrite !get_key_entry_run by done.
  pose proof (id_slot_range id1) as [_ Hk1]. pose proof (id_slot_range id2) as [_ Hk2].
  revert Hne Hk1 Hk2. generalize (id_slot id1) (id_slot id2). intros [t1 k1] [t2 k2] Hne Hk1 Hk2.
  destruct (valid_in v1 _) eqn:Hv1; [|done]. destruct (valid_in v2 _) eqn:Hv2; [|done].
  destruct (used meta (t1, k1)) eqn:Hu1; [|done].
  destruct (used meta (t2, k2)) eqn:Hu2; [|done]. intros [= <-] [= <-].
  apply valid_in_lt in Hv1, Hv2. cbn [addr len]. rewrite <- Hbase. cbn [fst snd] in *.
  assert (∀ t k, used meta (t, k) = true → k < 8 → k < 7) as H7.
  { intros t k Hu Hk. destruct (decide (k = 7)) as [->|]; [|lia]. unfold used in Hu.
    cbn [fst snd] in Hu. destruct (meta !! t) as [b|] eqn:Hb; [|done].
    by rewrite (cm_high _ Hwf t b Hb) in Hu. }
  apply H7 in Hu1, Hu2; [|done..]. unfold MAX_TABLE_COUNT in *.
  assert (t1 ≠ t2 ∨ k1 ≠ k2) by (destruct (decide (t1 = t2)); [right; congruence|by left]).
  lia.
Qed.

End cdma_props.

(** ** Witnesses *)

#[local] Existing Instance bit_crate_Z.

Definition free_metadata : Cdma.metadata := replicate MAX_TABLE_COUNT 0%Z.

Lemma free_metadata_wf : cdma_wf free_metadata.
Proof.
  constructor.
  - reflexivity.
  - intros i b (-> & _)%lookup_replicate. by vm_compute.
  - intros i b (-> & _)%lookup_replicate. done.
Qed.

Definition two_table_vault : Cdma.CdmaKeyVault := Cdma.mkCdma 0 6.

(** Nine imports: seven keys of table 1, then two of table 2. *)
Definition nine_keys : list (outcome HsmErr Z) * Cdma.metadata :=
  foldl (λ s _, let '(r, m) := Cdma.import_key two_table_vault (replicate 32 0%Z) s.2 in
                (s.1 ++ [r], m)) ([], free_metadata) (seq 0 9).

Example nine_keys_ids :
  nine_keys.1 = Ok <$> [8; 9; 10; 11; 12; 13; 14; 16; 17]%Z.
Proof. vm_compute. reflexivity. Qed.

Lemma cdma_vault_exact_witness :
  (∃ meta', Cdma.import_key two_table_vault (replicate 32 0%Z) free_metadata
     = (Ok 8%Z, meta') ∧ used meta' (1, 0) = true) ∧
  Cdma.delete_key two_table_vault 3 free_metadata = (Err InvalidKeyTableIndex, free_metadata).
Proof.
  destruct (cdma_vault_exact two_table_vault (replicate 32 0%Z) 3 free_metadata free_metadata_wf)
    as (H1 & H2 & _).
  split; [|exact H2].
  assert (free_slot free_metadata (vault_slots two_table_vault) = Some (1, 0)) as Hf
    by (vm_compute; reflexivity).
  rewrite Hf in H1. destruct H1 as (meta' & Hrun & _ & _ & _ & _ & Hu). exists meta'.
  split; [exact Hrun|]. rewrite Hu; [reflexivity|cbn; lia].
Defined.

Definition two_keys : Cdma.metadata := <[1 := 3%Z]> free_metadata.

Lemma two_keys_wf : cdma_wf two_keys.
Proof. apply wf_insert; [apply free_metadata_wf|by vm_compute|done]. Qed.

Lemma cdma_keys_disjoint_witness :
  Cdma.get_key_entry two_table_vault 8 two_keys = (Ok (mkIoMemRange 224 32), two_keys) ∧
  (224 + 32 ≤ 256 ∨ 256 + 32 ≤ 224)%Z.
Proof.
  split; [vm_compute; reflexivity|].
  apply (cdma_keys_disjoint two_table_vault two_table_vault 8 9 two_keys
           (mkIoMemRange 224 32) (mkIoMemRange 256 32) two_keys_wf eq_refl);
    [vm_compute; congruence|vm_compute; reflexivity..].
Defined.
