(* ===== verification/IoQueues.v ===== *)
(** * IO queues and deferred queue deletion (hsm/src/partition/queue,
    handler.rs, fsm/hsm_fsm.rs)

    A partition keeps its enabled IO queues in a table of reference-counted
    objects; every IO in flight holds a reference to its queue.  A request to
    delete a queue, to disable a function or to migrate it closes queues at
    once; when some of them still have IOs in flight the answer is [Pending]
    and a reference-counted delete context is left in those queues.  The IO
    that drops the last reference sends the deferred notification.

    [Rc] objects live in two append-only stores, a handle is an index, and
    the strong counts are explicit. *)

From stdpp Require Import base list numbers option.
From S2P Require Import Prelude HsmError Queues IpcMessages IpcMessageTypes.

Definition HSM_IO_QUEUE_SIZE : nat := 65.
Definition HSM_IO_QUEUE_BASE : Z := 65.

(** An object behind an [Rc] and its strong count. *)
Record Rc (A : Type) := mkRc { strong : nat; rimpl : A }.
Arguments mkRc {A} strong rimpl.
Arguments strong {A} r.
Arguments rimpl {A} r.

Record IoQueueImpl : Set := mkIoQueue {
  q_sq_id : Z; (* DevSqId *)
  q_cq_id : Z; (* DevCqId *)
  q_valid : bool;
  q_delete_ctx : option nat (* handle of an IoQueueDeleteContext *)
}.

Record IoQueueDeleteContextImpl : Set := mkDeleteContext {
  target_tag : Z; (* TagId, u16 *)
  migrate : bool
}.

(** What the code under the model calls: the partition's state changes, and
    the notification sent to the admin core. *)
Inductive io_event : Set :=
  | EvDisable (pfn : Z)
  | EvEndMigrate (pfn : Z)
  | EvReset (pfn : Z)
  | EvQueueDeleteResponse (tag pfn : Z) (sent : bool). (* the send, and whether the pipe took it *)
#[global] Instance io_event_eq_dec : EqDecision io_event.
Proof. solve_decision. Defined.

(** The queues of every partition, the IOs in flight (with the function and
    the queue handle of their [HsmFsm]) and the events so far. *)
Record IoState : Set := mkIoState {
  queues : list (Rc IoQueueImpl);
  ctxs : list (Rc IoQueueDeleteContextImpl);
  tables : list (list (option nat)); (* IoQueueMgr::io_queues, by function *)
  enabled : list bool; (* PartStateImpl::enabled, by function *)
  ios : list (option (Z * nat)); (* HsmFsm::pfn, HsmFsm::ioq *)
  events : list io_event
}.

Module Io.

(** ** Reference counts *)

Definition on_queue (q : nat) (f : Rc IoQueueImpl → Rc IoQueueImpl) (s : IoState) : IoState :=
  mkIoState (alter f q (queues s)) (ctxs s) (tables s) (enabled s) (ios s) (events s).
Definition on_ctx (c : nat) (f : Rc IoQueueDeleteContextImpl → Rc IoQueueDeleteContextImpl)
    (s : IoState) : IoState :=
  mkIoState (queues s) (alter f c (ctxs s)) (tables s) (enabled s) (ios s) (events s).
Definition set_table (pfn : nat) (t : list (option nat)) (s : IoState) : IoState :=
  mkIoState (queues s) (ctxs s) (<[pfn := t]> (tables s)) (enabled s) (ios s) (events s).
Definition set_enabled (pfn : nat) (b : bool) (s : IoState) : IoState :=
  mkIoState (queues s) (ctxs s) (tables s) (<[pfn := b]> (enabled s)) (ios s) (events s).
Definition set_ios (l : list (option (Z * nat))) (s : IoState) : IoState :=
  mkIoState (queues s) (ctxs s) (tables s) (enabled s) l (events s).
Definition emit (l : list io_event) (s : IoState) : IoState :=
  mkIoState (queues s) (ctxs s) (tables s) (enabled s) (ios s) (events s ++ l).

Definition inc {A} (r : Rc A) : Rc A := mkRc (S (strong r)) (rimpl r).
Definition dec {A} (r : Rc A) : Rc A := mkRc (strong r - 1) (rimpl r).

(** [Drop] of a context handle, and of an optional one. *)
Definition drop_ctx (c : option nat) (s : IoState) : IoState :=
  match c with Some c => on_ctx c dec s | None => s end.

(** [Drop] of a queue handle: the last one drops the object and its context. *)
Definition drop_queue (q : nat) (s : IoState) : IoState :=
  let s' := on_queue q dec s in
  match queues s' !! q with
  | Some r => if strong r =? 0 then drop_ctx (q_delete_ctx (rimpl r)) s' else s'
  | None => s'
  end.

Definition update (f : IoQueueImpl → IoQueueImpl) (r : Rc IoQueueImpl) : Rc IoQueueImpl :=
  mkRc (strong r) (f (rimpl r)).

(** ** [IoQueue] (ioq.rs) *)

Definition new_queue (sq_id cq_id : Z) (s : IoState) : nat * IoState :=
  (length (queues s),
   mkIoState (queues s ++ [mkRc 1 (mkIoQueue sq_id cq_id true None)]) (ctxs s) (tables s)
     (enabled s) (ios s) (events s)).

Definition new_ctx (tag : Z) (migrate : bool) (s : IoState) : nat * IoState :=
  (length (ctxs s),
   mkIoState (queues s) (ctxs s ++ [mkRc 1 (mkDeleteContext tag migrate)]) (tables s)
     (enabled s) (ios s) (events s)).

Definition alloc_ctx (tag : Z) (migrate : bool) : M IoState HsmErr nat := λ s,
  let '(c, s) := new_ctx tag migrate s in (Ok c, s).

Definition valid (s : IoState) (q : nat) : bool :=
  match queues s !! q with Some r => q_valid (rimpl r) | None => false end.
Definition ref_cnt (s : IoState) (q : nat) : nat :=
  match queues s !! q with Some r => strong r | None => 0 end.
Definition delete_ctx (s : IoState) (q : nat) : option nat :=
  r ← queues s !! q; q_delete_ctx (rimpl r).
Definition ctx_ref_cnt (s : IoState) (c : nat) : nat :=
  match ctxs s !! c with Some r => strong r | None => 0 end.

Definition invalidate (q : nat) : IoState → IoState :=
  on_queue q (update (λ r, mkIoQueue (q_sq_id r) (q_cq_id r) false (q_delete_ctx r))).

Definition put_ctx (q : nat) (c : option nat) : IoState → IoState :=
  on_queue q (update (λ r, mkIoQueue (q_sq_id r) (q_cq_id r) (q_valid r) c)).

(** The assignment drops the context that was there. *)
Definition set_delete_context (q : nat) (c : option nat) (s : IoState) : IoState :=
  drop_ctx (delete_ctx s q) (put_ctx q c s).

Definition take_delete_ctx (q : nat) (s : IoState) : option nat * IoState :=
  (delete_ctx s q, put_ctx q None s).

(** ** [IoQueueMgr] (ioq_mgr.rs) *)

Definition default_table : list (option nat) := replicate HSM_IO_QUEUE_SIZE None.

(** [usize::from(sq_id) - HSM_IO_QUEUE_BASE] as an index into [io_queues]: a
    wrapped difference is out of range. *)
Definition ioq_index (t : list (option nat)) (sq_id : Z) : option nat :=
  if (sq_id <? HSM_IO_QUEUE_BASE)%Z then None
  else let i := Z.to_nat (sq_id - HSM_IO_QUEUE_BASE) in
       if i <? length t then Some i else None.

(** Access to a partition's table; [partitions[index]] and [io_queues[..]]
    panic out of range. *)
Definition with_slot {A} (pfn : nat) (sq_id : Z)
    (f : list (option nat) → nat → option nat → M IoState HsmErr A) : M IoState HsmErr A := λ s,
  match tables s !! pfn with
  | Some t =>
      match ioq_index t sq_id with
      | Some i => f t i (mjoin (t !! i)) s
      | None => (Panic, s)
      end
  | None => (Panic, s)
  end.

Definition enable_io_queue (pfn : nat) (sq_id cq_id : Z) : M IoState HsmErr () :=
  with_slot pfn sq_id (λ t i slot s,
    match slot with
    | None =>
        let '(q, s) := new_queue sq_id cq_id s in
        (Ok tt, set_table pfn (<[i := Some q]> t) s)
    | Some _ => (Ok tt, s)
    end).

(** Closing one queue taken out of its slot, without dropping it: whether it
    is still referenced by a command, in which case it gets a context. *)
Definition close_queue (q : nat) (c : option nat) (s : IoState) : bool * IoState :=
  let pending := 1 <? ref_cnt s q in
  let s := if pending then set_delete_context q c s else s in
  (pending, invalidate q s).

Definition disable_io_queue (pfn : nat) (sq_id : Z) (c : option nat) : M IoState HsmErr bool :=
  with_slot pfn sq_id (λ t i slot s,
    let s := set_table pfn (<[i := None]> t) s in
    match slot with
    | None => (Ok false, drop_ctx c s)
    | Some q =>
        let '(pending, s) := close_queue q c s in
        let s := if pending then s else drop_ctx c s in
        (Ok pending, drop_queue q s)
    end).

(** The closure of [disable_all_io_queues] on one slot: [delete_ctx.clone()]
    for a queue still referenced, and [*q = None]. *)
Definition disable_one (pfn : nat) (c : option nat) (acc : bool * IoState) (i : nat) :
    bool * IoState :=
  let '(pending_disable, s) := acc in
  match tables s !! pfn with
  | None => (pending_disable, s)
  | Some t =>
      match mjoin (t !! i) with
      | None => (pending_disable, s)
      | Some q =>
          let referenced := 1 <? ref_cnt s q in
          let s := match c with
                   | Some c' => if referenced then on_ctx c' inc s else s
                   | None => s
                   end in
          let '(_, s) := close_queue q c s in
          let s := set_table pfn (<[i := None]> t) s in
          (pending_disable || referenced, drop_queue q s)
      end
  end.

Definition disable_all_io_queues (pfn : nat) (c : option nat) : M IoState HsmErr bool := λ s,
  match tables s !! pfn with
  | Some t =>
      let '(pending_disable, s) := foldl (disable_one pfn c) (false, s) (seq 0 (length t)) in
      (Ok pending_disable, drop_ctx c s)
  | None => (Panic, s)
  end.

(** [io_queue] clones the handle. *)
Definition io_queue (pfn : nat) (sq_id : Z) : M IoState HsmErr (option nat) :=
  with_slot pfn sq_id (λ t i slot s,
    match slot with
    | Some q => (Ok (Some q), on_queue q inc s)
    | None => (Ok None, s)
    end).

(** ** The partition's calls (part.rs) *)

Definition part_enabled (pfn : nat) : M IoState HsmErr bool := λ s,
  match enabled s !! pfn with Some b => (Ok b, s) | None => (Panic, s) end.

Definition part_enable (pfn : nat) : M IoState HsmErr () := λ s,
  if pfn <? length (enabled s) then (Ok tt, set_enabled pfn true s) else (Panic, s).

Definition part_disable (pfn : nat) (c : option nat) : M IoState HsmErr bool :=
  pending ← disable_all_io_queues pfn c;
  _ ← modify (λ s, emit [EvDisable (Z.of_nat pfn)] (set_enabled pfn false s));
  mret pending.

Definition part_reset (pfn : nat) : M IoState HsmErr () :=
  _ ← part_disable pfn None;
  modify (emit [EvReset (Z.of_nat pfn)]).

Definition end_migrate (pfn : Z) : IoState → IoState := emit [EvEndMigrate pfn].

(** ** Requests of the admin core (handler.rs) *)

Inductive IpcStatus : Set := StSuccess | StPending | StInvalidField | StFunctionNotEnabled.
#[global] Instance IpcStatus_eq_dec : EqDecision IpcStatus.
Proof. solve_decision. Defined.

(** [handle_pfn_enable] on a decoded message: the status of the response. *)
Definition handle_pfn_enable (tag : Z) (info : PfnEnableDisableInfo) : M IoState HsmErr IpcStatus :=
  let pfn := Z.to_nat (pf_pfn info) in
  if decide (pf_action info = PfnEnableDisableAction_Enable) then
    _ ← part_enable pfn; mret StSuccess
  else if decide (pf_action info = PfnEnableDisableAction_Disable) then
    c ← alloc_ctx tag false;
    pending ← part_disable pfn (Some c);
    mret (if pending : bool then StPending else StSuccess)
  else if decide (pf_action info = PfnEnableDisableAction_Migrate) then
    c ← alloc_ctx tag true;
    pending ← disable_all_io_queues pfn (Some c);
    if pending : bool then mret StPending
    else _ ← modify (end_migrate (pf_pfn info)); mret StSuccess
  else mret StInvalidField.

(** [handle_create_delete_sq] on a decoded message. *)
Definition handle_create_delete_sq (tag : Z) (info : SqCreateDeleteInfo) :
    M IoState HsmErr IpcStatus :=
  let pfn := Z.to_nat (sq_pfn info) in
  on ← part_enabled pfn;
  if negb on then mret StFunctionNotEnabled
  else
    c ← alloc_ctx tag false;
    if decide (sq_action info = SqAction_Create) then
      _ ← enable_io_queue pfn (sq_device_sq_id info) (sq_device_cq_id info);
      _ ← modify (drop_ctx (Some c));
      mret StSuccess
    else
      pending ← disable_io_queue pfn (sq_device_sq_id info) (Some c);
      mret (if pending : bool then StPending else StSuccess).

(** [on_flr] resets every partition. *)
Fixpoint reset_all (pfns : list nat) : M IoState HsmErr () :=
  match pfns with
  | [] => mret tt
  | pfn :: pfns => _ ← part_reset pfn; reset_all pfns
  end.
Definition on_flr : M IoState HsmErr () := reset_all (Z.to_nat <$> Pcie.iter).

(** ** IOs (hsm_fsm.rs) *)

Definition add_io (pfn : Z) (q : nat) : M IoState HsmErr nat := λ s,
  (Ok (length (ios s)), set_ios (ios s ++ [Some (pfn, q)]) s).

(** The part of [on_rx_ready] that takes the queue: [HsmFsm::ioq]. *)
Definition io_start (pfn : nat) (sq_id : Z) : M IoState HsmErr nat :=
  on ← part_enabled pfn;
  _ ← unless on PartitionNotEnabled;
  q ← io_queue pfn sq_id;
  match q with
  | None => throw QueueNotEnabled
  | Some q => add_io (Z.of_nat pfn) q
  end.

(** [retire_io], called when the FSM of the IO is dropped; [sent] is the answer
    of the pipe to the admin core, which refuses the response when it is full. *)
Definition retire_io (sent : bool) (pfn : Z) (q : nat) : M IoState HsmErr () := λ s,
  if negb (valid s q) && (ref_cnt s q =? 1) then
    match take_delete_ctx q s with
    | (Some c, s) =>
        let '(res, s) :=
          match ctxs s !! c with
          | Some r =>
              if strong r =? 1 then
                let s := if migrate (rimpl r) then end_migrate pfn s else s in
                (if sent then Ok tt else Err DeferredQueueDeleteNotifyErr,
                 emit [EvQueueDeleteResponse (target_tag (rimpl r)) pfn sent] s)
              else (Ok tt, s)
          | None => (Ok tt, s)
          end in
        (res, drop_ctx (Some c) s)
    | (None, s) => (Ok tt, s)
    end
  else (Ok tt, s).

(** [Drop] of an [HsmFsm] that holds a queue: [let _ = self.retire_io()], then
    the field. *)
Definition io_drop (sent : bool) (io : nat) : M IoState HsmErr () := λ s,
  match ios s !! io with
  | Some (Some (pfn, q)) =>
      (Ok tt, set_ios (<[io := None]> (ios s)) (drop_queue q (retire_io sent pfn q s).2))
  | _ => (Ok tt, s)
  end.

Definition init : IoState :=
  mkIoState [] [] (replicate Pcie.MAX_PCIE_FUNCTIONS default_table)
    (replicate Pcie.MAX_PCIE_FUNCTIONS false) [] [].

End Io.
