(* ===== verification/IoQueueProps.v ===== *)
(** * Deferred queue deletion: the reference counts implement waiting sets

    The invariant of the queue objects, and the refinement of the abstract
    machine in which a deletion is the set of IOs it waits for. *)

From stdpp Require Import base list numbers option.
From S2P Require Import Prelude HsmError Queues IpcMessages IpcMessageTypes IoQueues.

(** ** Views of the state *)

Definition slot_at (s : IoState) (pfn i : nat) : option nat :=
  t ← tables s !! pfn; mjoin (t !! i).

Definition io_pfn (s : IoState) (io : nat) : option Z := fst <$> mjoin (ios s !! io).
Definition io_q (s : IoState) (io : nat) : option nat := snd <$> mjoin (ios s !! io).
Definition io_ctx (s : IoState) (io : nat) : option nat := q ← io_q s io; Io.delete_ctx s q.

Definition io_ids (s : IoState) : list nat := seq 0 (length (ios s)).

(** The IOs in flight on a queue, and the ones a context waits for. *)
Definition ios_on (s : IoState) (q : nat) : list nat :=
  filter (λ io, io_q s io = Some q) (io_ids s).
Definition waits (s : IoState) (c : nat) : list nat :=
  filter (λ io, io_ctx s io = Some c) (io_ids s).

(** The queues that hold a context. *)
Definition holders (s : IoState) (c : nat) : list nat :=
  filter (λ q, Io.delete_ctx s q = Some c) (seq 0 (length (queues s))).

Definition is_open (s : IoState) (q : nat) : bool :=
  existsb (λ t, existsb (λ x, bool_decide (x = Some q)) t) (tables s).

(** The invariant.  [owner c] is the function context [c] was made for, and
    [held] the context a handler still holds. *)
Record io_inv (owner : nat → Z) (held : option nat) (s : IoState) : Prop := {
  io_tables : length (tables s) = Pcie.MAX_PCIE_FUNCTIONS;
  io_tables_len pfn t : tables s !! pfn = Some t → length t = HSM_IO_QUEUE_SIZE;
  io_enabled : length (enabled s) = Pcie.MAX_PCIE_FUNCTIONS;
  io_unique pfn i pfn' i' q :
    slot_at s pfn i = Some q → slot_at s pfn' i' = Some q → pfn = pfn' ∧ i = i';
  io_slot_live pfn i q : slot_at s pfn i = Some q → q < length (queues s);
  io_live io q : io_q s io = Some q → q < length (queues s);
  io_count q r : queues s !! q = Some r →
    strong r = (if is_open s q then 1 else 0) + length (ios_on s q);
  io_valid q r : queues s !! q = Some r → q_valid (rimpl r) = is_open s q;
  io_open_ctx q : is_open s q = true → Io.delete_ctx s q = None;
  io_ctx_busy q c : Io.delete_ctx s q = Some c → ios_on s q ≠ [] ∧ c < length (ctxs s);
  io_ctx_count c r : ctxs s !! c = Some r →
    strong r = length (holders s c) + if decide (held = Some c) then 1 else 0;
  io_held_live c : held = Some c → c < length (ctxs s);
  io_pfn_slot pfn i q io p :
    slot_at s pfn i = Some q → ios s !! io = Some (Some (p, q)) → p = Z.of_nat pfn;
  io_pfn_ctx io p q c :
    ios s !! io = Some (Some (p, q)) → Io.delete_ctx s q = Some c → p = owner c
}.

Lemma is_open_slot s q : is_open s q = true ↔ ∃ pfn i, slot_at s pfn i = Some q.
Proof.
  unfold is_open, slot_at. rewrite existsb_exists. split.
  - intros (t & Ht & Hx). apply existsb_exists in Hx as (x & Hx & ->%bool_decide_eq_true).
    apply list_elem_of_In, list_elem_of_lookup in Ht as [pfn Hp].
    apply list_elem_of_In, list_elem_of_lookup in Hx as [i Hi].
    exists pfn, i. by rewrite Hp; cbn; rewrite Hi.
  - intros (pfn & i & H). destruct (tables s !! pfn) as [t|] eqn:Hp; [|done].
    cbn in H. destruct (t !! i) as [x|] eqn:Hi; [|done]. cbn in H. subst x.
    exists t. split.
    + apply list_elem_of_In, list_elem_of_lookup. by exists pfn.
    + apply existsb_exists. exists (Some q). split; [|by apply bool_decide_eq_true].
      apply list_elem_of_In, list_elem_of_lookup. by exists i.
Qed.

Lemma is_open_ext s s' q :
  (∀ pfn i, slot_at s pfn i = Some q ↔ slot_at s' pfn i = Some q) → is_open s q = is_open s' q.
Proof.
  intros H. apply eq_true_iff_eq. rewrite !is_open_slot. naive_solver.
Qed.

Lemma elem_of_ios_on s q io : io ∈ ios_on s q ↔ io_q s io = Some q.
Proof.
  unfold ios_on, io_ids. rewrite list_elem_of_filter, elem_of_seq. split; [tauto|].
  intros H. split; [done|]. unfold io_q in H.
  destruct (ios s !! io) as [x|] eqn:Hio; [|done]. apply lookup_lt_Some in Hio. lia.
Qed.

Lemma elem_of_waits s c io : io ∈ waits s c ↔ io_ctx s io = Some c.
Proof.
  unfold waits, io_ids. rewrite list_elem_of_filter, elem_of_seq. split; [tauto|].
  intros H. split; [done|]. unfold io_ctx, io_q in H.
  destruct (ios s !! io) as [x|] eqn:Hio; [|done]. apply lookup_lt_Some in Hio. lia.
Qed.

Lemma elem_of_holders s c q : q ∈ holders s c ↔ Io.delete_ctx s q = Some c.
Proof.
  unfold holders. rewrite list_elem_of_filter, elem_of_seq. split; [tauto|].
  intros H. split; [done|]. unfold Io.delete_ctx in H.
  destruct (queues s !! q) as [x|] eqn:Hq; [|done]. apply lookup_lt_Some in Hq. lia.
Qed.

Lemma io_q_Some s io q : io_q s io = Some q ↔ ∃ p, ios s !! io = Some (Some (p, q)).
Proof.
  unfold io_q. destruct (ios s !! io) as [[[p q']|]|]; cbn; naive_solver.
Qed.

Lemma set_slot_at s pfn t i x pfn' i' :
  tables s !! pfn = Some t → i < length t →
  slot_at (Io.set_table pfn (<[i := x]> t) s) pfn' i'
    = if decide (pfn' = pfn ∧ i' = i) then x else slot_at s pfn' i'.
Proof.
  intros Ht Hi. unfold slot_at. cbn [Io.set_table tables].
  assert (pfn < length (tables s)) by by eapply lookup_lt_Some.
  destruct (decide (pfn' = pfn)) as [->|Hp].
  - rewrite list_lookup_insert_eq by done. cbn. destruct (decide (i' = i)) as [->|Hne].
    + rewrite decide_True, list_lookup_insert_eq by done. done.
    + rewrite decide_False, list_lookup_insert_ne by naive_solver. by rewrite Ht.
  - rewrite list_lookup_insert_ne by done. rewrite decide_False by naive_solver. done.
Qed.

(** ** Counting *)

Lemma filter_same {A} (P Q : A → Prop) `{∀ x, Decision (P x), ∀ x, Decision (Q x)} (l : list A) :
  (∀ x, x ∈ l → P x ↔ Q x) → filter P l = filter Q l.
Proof.
  intros HPQ. induction l as [|x l IH]; [done|]. rewrite !filter_cons.
  rewrite IH by (intros y Hy; apply HPQ; by right).
  pose proof (HPQ x ltac:(by left)). repeat case_decide; tauto.
Qed.

Lemma filter_gain {A} (P Q : A → Prop) `{∀ x, Decision (P x), ∀ x, Decision (Q x)} (l : list A) a :
  base.NoDup l → a ∈ l → ¬ P a → (∀ x, x ∈ l → Q x ↔ P x ∨ x = a) →
  length (filter Q l) = S (length (filter P l)).
Proof.
  intros Hnd Hin Ha HQ. induction Hnd as [|x l Hx Hnd IH]; [by apply elem_of_nil in Hin|].
  rewrite !filter_cons. pose proof (HQ x ltac:(by left)) as Hqx.
  apply elem_of_cons in Hin as [<-|Hin].
  - rewrite decide_True by (apply Hqx; by right). rewrite decide_False by done. cbn. f_equal.
    f_equal. apply filter_same. intros y Hy. rewrite HQ by by right.
    split; [|tauto]. intros [ ?| ->]; done.
  - specialize (IH Hin (λ y Hy, HQ y (list_elem_of_further _ _ _ Hy))).
    destruct (decide (P x)).
    + rewrite decide_True by (apply Hqx; by left). cbn. by rewrite IH.
    + rewrite decide_False; [done|]. rewrite Hqx. intros [ ?| ->]; done.
Qed.

(** ** Closing a queue *)

(** The state after [disable_one] on the slot of queue [q]. *)
Definition closed (pfn i q k : nat) (c : option nat) (t : list (option nat))
    (r : IoQueueImpl) (s : IoState) : IoState :=
  mkIoState
    (<[q := mkRc k (mkIoQueue (q_sq_id r) (q_cq_id r) false (if k =? 0 then None else c))]>
       (queues s))
    (match c with Some c' => if k =? 0 then ctxs s else alter Io.inc c' (ctxs s) | None => ctxs s end)
    (<[pfn := <[i := None]> t]> (tables s)) (enabled s) (ios s) (events s).

Lemma alter_insert_eq {A} (f : A → A) (l : list A) i x :
  l !! i = Some x → alter f i l = <[i := f x]> l.
Proof.
  intros Hi. apply list_eq. intros j. destruct (decide (i = j)) as [<-|Hne].
  - rewrite list_lookup_alter_eq, Hi, list_lookup_insert_eq; [done|]. by eapply lookup_lt_Some.
  - by rewrite list_lookup_alter_ne, list_lookup_insert_ne.
Qed.

Lemma disable_one_closed pfn i q k c t r s b :
  tables s !! pfn = Some t → t !! i = Some (Some q) → queues s !! q = Some (mkRc (S k) r) →
  q_delete_ctx r = None →
  Io.disable_one pfn c (b, s) i = (b || negb (k =? 0), closed pfn i q k c t r s).
Proof.
  intros Ht Hi Hq Hctx. assert (q < length (queues s)) as Hlt by by eapply lookup_lt_Some.
  unfold Io.disable_one. rewrite Ht, Hi. cbn [mjoin option_join].
  unfold Io.close_queue. assert (Io.ref_cnt s q = S k) as Href by (unfold Io.ref_cnt; by rewrite Hq).
  set (s1 := match c with Some _ => _ | None => _ end).
  assert (queues s1 = queues s) as Hq1 by (subst s1; destruct c; [destruct (1 <? _)|]; done).
  assert (Io.ref_cnt s1 q = S k) as -> by (unfold Io.ref_cnt; by rewrite Hq1, Hq).
  assert ((1 <? S k) = negb (k =? 0)) as Hk by (destruct k; done).
  subst s1. rewrite Href, Hk in *. clear Href. f_equal.
  destruct k as [|k]; cbn [Nat.eqb negb] in *.
  - assert ((match c with Some _ => s | None => s end) = s) as -> by by destruct c.
    unfold Io.drop_queue, Io.invalidate, Io.set_table, Io.on_queue.
    cbn [queues ctxs tables enabled ios events].
    rewrite (alter_insert_eq _ _ _ _ Hq). cbn [Io.update strong rimpl].
    rewrite (alter_insert_eq Io.dec (<[q := _]> _) q _ (list_lookup_insert_eq _ _ _ Hlt)).
    rewrite list_insert_insert_eq, list_lookup_insert_eq by done.
    unfold Io.dec, Io.update. cbn [strong rimpl Nat.sub Nat.eqb q_delete_ctx].
    rewrite Hctx. cbn [Io.drop_ctx]. unfold closed. cbn [Nat.eqb]. by destruct c.
  - set (s2 := match c with Some _ => _ | None => _ end) in *.
    unfold Io.set_delete_context.
    assert (Io.delete_ctx s2 q = None) as ->.
    { unfold Io.delete_ctx. by rewrite Hq1, Hq. }
    cbn [Io.drop_ctx]. unfold Io.put_ctx, Io.drop_queue, Io.invalidate, Io.set_table, Io.on_queue.
    cbn [queues ctxs tables enabled ios events]. rewrite Hq1.
    rewrite (alter_insert_eq _ _ _ _ Hq). cbn [Io.update strong rimpl].
    rewrite (alter_insert_eq _ (<[q := _]> _) q _ (list_lookup_insert_eq _ _ _ Hlt)).
    rewrite list_insert_insert_eq by done.
    rewrite (alter_insert_eq Io.dec (<[q := _]> _) q _ (list_lookup_insert_eq _ _ _ Hlt)).
    rewrite list_insert_insert_eq, list_lookup_insert_eq by done.
    unfold Io.dec, Io.update.
    cbn [strong rimpl Nat.sub Nat.eqb q_delete_ctx q_valid q_sq_id q_cq_id]. unfold closed. cbn [Nat.eqb]. subst s2. by destruct c.
Qed.

Section close.
Variables (owner : nat → Z) (c : option nat) (s : IoState) (pfn i : nat).
Variables (t : list (option nat)) (q : nat) (r : IoQueueImpl) (k : nat).
Hypothesis Hinv : io_inv owner c s.
Hypothesis Ht : tables s !! pfn = Some t.
Hypothesis Hi : t !! i = Some (Some q).
Hypothesis Hq : queues s !! q = Some (mkRc (S k) r).
Hypothesis Hown : ∀ c', c = Some c' → owner c' = Z.of_nat pfn.

Let s' : IoState := closed pfn i q k c t r s.

Lemma close_q_lt : q < length (queues s).
Proof. by eapply lookup_lt_Some. Qed.

Lemma close_slot : slot_at s pfn i = Some q.
Proof. unfold slot_at. rewrite Ht. cbn. by rewrite Hi. Qed.

Lemma close_was_open : is_open s q = true.
Proof. apply is_open_slot. exists pfn, i. apply close_slot. Qed.

Lemma close_ios : k = length (ios_on s q).
Proof.
  pose proof (io_count _ _ _ Hinv q _ Hq) as H. rewrite close_was_open in H. cbn in H. lia.
Qed.

Lemma close_slot_at pfn' i' :
  slot_at s' pfn' i' = if decide (pfn' = pfn ∧ i' = i) then None else slot_at s pfn' i'.
Proof. apply (set_slot_at s pfn t i None pfn' i' Ht). by eapply lookup_lt_Some. Qed.

Lemma close_slot_inv pfn' i' q' :
  slot_at s' pfn' i' = Some q' → slot_at s pfn' i' = Some q' ∧ q' ≠ q.
Proof.
  rewrite close_slot_at. case_decide as Hd; [done|]. intros Hs. split; [done|]. intros ->.
  apply Hd. apply (io_unique _ _ _ Hinv _ _ _ _ _ Hs close_slot).
Qed.

Lemma close_is_open q' : is_open s' q' = if decide (q' = q) then false else is_open s q'.
Proof.
  case_decide as Hd.
  - subst q'. destruct (is_open s' q) eqn:Ho; [|done].
    apply is_open_slot in Ho as (p & j & Hs). by apply close_slot_inv in Hs as [_ ?].
  - symmetry. apply is_open_ext. intros p j. rewrite close_slot_at.
    case_decide as Hpj; [|done]. destruct Hpj as [-> ->]. rewrite close_slot. naive_solver.
Qed.

Lemma close_delete_ctx q' :
  Io.delete_ctx s' q'
    = if decide (q' = q) then (if k =? 0 then None else c) else Io.delete_ctx s q'.
Proof.
  unfold Io.delete_ctx. cbn [s' closed queues]. case_decide as Hd.
  - subst q'. by rewrite list_lookup_insert_eq by apply close_q_lt.
  - by rewrite list_lookup_insert_ne.
Qed.

Lemma close_old_ctx : Io.delete_ctx s q = None.
Proof. apply (io_open_ctx _ _ _ Hinv), close_was_open. Qed.

Lemma close_holders c' :
  length (holders s' c') = length (holders s c') + if decide (k ≠ 0 ∧ c = Some c') then 1 else 0.
Proof.
  unfold holders. replace (length (queues s')) with (length (queues s))
    by (cbn [s' closed queues]; by rewrite length_insert).
  case_decide as Hd.
  - destruct Hd as [Hk Hc]. rewrite Nat.add_1_r. apply (filter_gain _ _ _ q).
    + apply NoDup_seq.
    + apply elem_of_seq. pose proof close_q_lt. lia.
    + by rewrite close_old_ctx.
    + intros x _. rewrite close_delete_ctx. destruct k; [done|]. cbn. case_decide; naive_solver.
  - rewrite Nat.add_0_r. f_equal. apply filter_same. intros x _. rewrite close_delete_ctx.
    case_decide as Hx; [|done]. subst x. rewrite close_old_ctx.
    destruct k; cbn; [done|]. split; [|done]. intros Hc. exfalso. apply Hd. done.
Qed.

Lemma close_ctxs c' r' :
  ctxs s' !! c' = Some r' →
  ∃ r0, ctxs s !! c' = Some r0 ∧ rimpl r' = rimpl r0 ∧
    strong r' = strong r0 + if decide (k ≠ 0 ∧ c = Some c') then 1 else 0.
Proof.
  cbn [s' closed ctxs]. destruct c as [c0|].
  - destruct k as [|k']; cbn [Nat.eqb].
    + intros H. exists r'. rewrite decide_False by lia. split_and!; [done..|lia].
    + destruct (decide (c0 = c')) as [->|Hne].
      * rewrite list_lookup_alter_eq. intros H.
        destruct (ctxs s !! c') as [r0|]; [|done]. injection H as <-. exists r0.
        rewrite decide_True by (split; [lia|done]). split_and!; [done..|].
        cbn [Io.inc strong]. lia.
      * rewrite list_lookup_alter_ne by done. intros H. exists r'.
        rewrite decide_False by naive_solver. split_and!; [done..|lia].
  - intros H. exists r'. rewrite decide_False by naive_solver. split_and!; [done..|lia].
Qed.

Lemma close_len_ctxs : length (ctxs s') = length (ctxs s).
Proof.
  cbn [s' closed ctxs]. destruct c; [|done]. destruct (k =? 0); [done|]. apply length_alter.
Qed.

Lemma close_inv : io_inv owner c s'.
Proof.
  pose proof Hinv as [H1 H2 H3 H4 H5 H6 H7 H8 H9 H10 H11 H12 H13 H14].
  constructor.
  - cbn [s' closed tables]. by rewrite length_insert.
  - intros p t' Hp. cbn [s' closed tables] in Hp.
    apply list_lookup_insert_Some in Hp as [(<- & <- & _)|[_ Hp]]; [|eauto].
    rewrite length_insert. eauto.
  - done.
  - intros p j p' j' q' Hs1 Hs2. apply close_slot_inv in Hs1 as [Hs1 _], Hs2 as [Hs2 _]. eauto.
  - intros p j q' Hs. apply close_slot_inv in Hs as [Hs _].
    cbn [s' closed queues]. rewrite length_insert. eauto.
  - intros io q' Hio. cbn [s' closed queues]. rewrite length_insert. by apply (H6 io).
  - intros q' r' Hq'. rewrite close_is_open. change (ios_on s' q') with (ios_on s q').
    cbn [s' closed queues] in Hq'.
    apply list_lookup_insert_Some in Hq' as [(<- & <- & _)|[Hne Hq']].
    + rewrite decide_True by done. cbn [strong]. apply close_ios.
    + rewrite decide_False by done. eauto.
  - intros q' r' Hq'. rewrite close_is_open. cbn [s' closed queues] in Hq'.
    apply list_lookup_insert_Some in Hq' as [(<- & <- & _)|[Hne Hq']].
    + by rewrite decide_True.
    + rewrite decide_False by done. eauto.
  - intros q'. rewrite close_is_open, close_delete_ctx. case_decide; [done|]. eauto.
  - intros q' c'. rewrite close_delete_ctx, close_len_ctxs.
    change (ios_on s' q') with (ios_on s q'). case_decide as Hd; [|eauto]. subst q'.
    rewrite close_ios. destruct (ios_on s q); cbn [length Nat.eqb]; [done|].
    intros Hc. split; [done|]. eauto.
  - intros c' r' Hc'. apply close_ctxs in Hc' as (r0 & Hc0 & _ & ->).
    rewrite (H11 _ _ Hc0), close_holders. lia.
  - intros c' Hc'. rewrite close_len_ctxs. eauto.
  - intros p j q' io p' Hs Hio. apply close_slot_inv in Hs as [Hs _]. eauto.
  - intros io p q' c' Hio. rewrite close_delete_ctx. case_decide as Hd; [|eauto]. subst q'.
    destruct (k =? 0); [done|]. intros Hc. rewrite (Hown c' Hc).
    apply (H13 pfn i q io p close_slot Hio).
Qed.

End close.

(** What closing queues leaves alone. *)
Record same_frame (s s' : IoState) : Prop := {
  sf_enabled : enabled s' = enabled s;
  sf_ios : ios s' = ios s;
  sf_events : events s' = events s;
  sf_queues : length (queues s') = length (queues s);
  sf_ctxs : (rimpl <$> ctxs s') = (rimpl <$> ctxs s)
}.

Lemma same_frame_refl s : same_frame s s.
Proof. by constructor. Qed.

Lemma same_frame_trans s1 s2 s3 : same_frame s1 s2 → same_frame s2 s3 → same_frame s1 s3.
Proof. intros [] []. constructor; congruence. Qed.

Lemma same_frame_ios_on s s' q : same_frame s s' → ios_on s' q = ios_on s q.
Proof. intros []. unfold ios_on, io_ids, io_q. by rewrite sf_ios0. Qed.

Lemma fmap_alter_inc {A} (l : list (Rc A)) c : rimpl <$> alter Io.inc c l = rimpl <$> l.
Proof. revert c. induction l as [|x l IH]; intros [|c]; cbn; [done..|]. by rewrite IH. Qed.
Lemma fmap_alter_dec {A} (l : list (Rc A)) c : rimpl <$> alter Io.dec c l = rimpl <$> l.
Proof. revert c. induction l as [|x l IH]; intros [|c]; cbn; [done..|]. by rewrite IH. Qed.

Lemma closed_frame pfn i q k c t r s : same_frame s (closed pfn i q k c t r s).
Proof.
  constructor; [done..| |].
  - cbn [closed queues]. apply length_insert.
  - cbn [closed ctxs]. destruct c as [c|]; [|done]. destruct (k =? 0); [done|].
    apply fmap_alter_inc.
Qed.

Definition busy (s : IoState) (q : nat) : bool := negb (length (ios_on s q) =? 0).

Definition busy_slot (s : IoState) (x : option nat) : bool :=
  match x with Some q => busy s q | None => false end.

Definition clear_slots (t : list (option nat)) (js : list nat) : list (option nat) :=
  foldl (λ t j, <[j := None]> t) t js.

(** One iteration of [disable_all_io_queues]. *)
Lemma disable_one_ok owner c s pfn i t b :
  io_inv owner c s → tables s !! pfn = Some t → (∀ c', c = Some c' → owner c' = Z.of_nat pfn) →
  ∃ s', Io.disable_one pfn c (b, s) i = (b || busy_slot s (mjoin (t !! i)), s') ∧
    io_inv owner c s' ∧ same_frame s s' ∧ tables s' = <[pfn := <[i := None]> t]> (tables s) ∧
    ∀ q, Io.delete_ctx s' q
      = if decide (t !! i = Some (Some q)) then (if busy s q then c else None)
        else Io.delete_ctx s q.
Proof.
  intros Hinv Ht Hown. destruct (t !! i) as [[q|]|] eqn:Hi.
  - destruct (lookup_lt_is_Some_2 (queues s) q) as [[n r] Hq].
    { eapply (io_slot_live _ _ _ Hinv pfn i). by apply close_slot with (t := t). }
    assert (is_open s q = true) as Ho by by eapply close_was_open.
    pose proof (io_count _ _ _ Hinv q _ Hq) as Hn. rewrite Ho in Hn. cbn [strong] in Hn.
    destruct n as [|k]; [lia|]. assert (k = length (ios_on s q)) as Hk by lia.
    assert (q_delete_ctx r = None) as Hctx.
    { pose proof (io_open_ctx _ _ _ Hinv q Ho) as H. unfold Io.delete_ctx in H. by rewrite Hq in H. }
    exists (closed pfn i q k c t r s). split_and!.
    + rewrite (disable_one_closed pfn i q k c t r s b Ht Hi Hq Hctx).
      cbn [mjoin option_join busy_slot]. unfold busy. by rewrite Hk.
    + by eapply close_inv.
    + apply closed_frame.
    + done.
    + intros q'. rewrite (close_delete_ctx c s pfn i t q r k) by done. unfold busy.
      destruct (decide (q' = q)) as [->|Hne].
      * rewrite decide_True by done. rewrite <- Hk. by destruct (k =? 0).
      * by rewrite decide_False by congruence.
  - exists s. unfold Io.disable_one. rewrite Ht, Hi. cbn. rewrite orb_false_r.
    split_and!; [done|done|apply same_frame_refl| |done].
    by rewrite (list_insert_id t), list_insert_id.
  - exists s. unfold Io.disable_one. rewrite Ht, Hi. cbn. rewrite orb_false_r.
    split_and!; [done|done|apply same_frame_refl| |done].
    rewrite (list_insert_ge t), list_insert_id; [done|done|]. by apply lookup_ge_None.
Qed.

Lemma lookup_clear_slots t js i :
  clear_slots t js !! i = if decide (i ∈ js) then (λ _, None) <$> t !! i else t !! i.
Proof.
  revert t. induction js as [|j js IH]; intros t; cbn [clear_slots foldl].
  { by rewrite decide_False by apply not_elem_of_nil. }
  rewrite IH. destruct (decide (i = j)) as [->|Hne].
  - rewrite (decide_True (P := j ∈ j :: js)) by by left.
    destruct (decide (j < length t)).
    + rewrite list_lookup_insert_eq by done.
      destruct (lookup_lt_is_Some_2 t j) as [x ->]; [done|]. by case_decide.
    + rewrite list_insert_ge by lia. rewrite lookup_ge_None_2 by lia. by case_decide.
  - rewrite list_lookup_insert_ne by done.
    by rewrite (decide_ext (i ∈ js) (i ∈ j :: js)) by (rewrite elem_of_cons; tauto).
Qed.

Lemma existsb_ext_in {A} (f g : A → bool) (l : list A) :
  (∀ x, x ∈ l → f x = g x) → existsb f l = existsb g l.
Proof.
  intros H. induction l as [|x l IH]; [done|]. cbn. rewrite H by by left.
  rewrite IH; [done|]. intros y Hy. apply H. by right.
Qed.

(** Several iterations. *)
Lemma disable_loop_ok owner c pfn js : ∀ s t b,
  io_inv owner c s → tables s !! pfn = Some t → (∀ c', c = Some c' → owner c' = Z.of_nat pfn) →
  base.NoDup js →
  ∃ s', foldl (Io.disable_one pfn c) (b, s) js
      = (b || existsb (λ i, busy_slot s (mjoin (t !! i))) js, s') ∧
    io_inv owner c s' ∧ same_frame s s' ∧ tables s' = <[pfn := clear_slots t js]> (tables s) ∧
    ∀ q, Io.delete_ctx s' q
      = if existsb (λ i, bool_decide (t !! i = Some (Some q))) js
        then (if busy s q then c else None) else Io.delete_ctx s q.
Proof.
  induction js as [|j js IH]; intros s t b Hinv Ht Hown Hnd.
  { exists s. cbn. rewrite orb_false_r. split_and!; [done|done|apply same_frame_refl| |done].
    by rewrite list_insert_id. }
  apply list.NoDup_cons in Hnd as [Hj Hnd]. cbn [foldl existsb].
  destruct (disable_one_ok owner c s pfn j t b Hinv Ht Hown)
    as (s1 & Hrun & Hinv1 & Hf1 & Ht1 & Hc1).
  rewrite Hrun. assert (pfn < length (tables s)) as Hlt by by eapply lookup_lt_Some.
  destruct (IH s1 (<[j := None]> t) (b || busy_slot s (mjoin (t !! j))))
    as (s2 & Hrun2 & Hinv2 & Hf2 & Ht2 & Hc2); [done| |done|done|].
  { rewrite Ht1. by apply list_lookup_insert_eq. }
  exists s2. assert (∀ q, busy s1 q = busy s q) as Hb.
  { intros q. unfold busy. by rewrite (same_frame_ios_on s s1). }
  assert (∀ i, i ∈ js → <[j := None]> t !! i = t !! i) as Hsame.
  { intros i Hi. apply list_lookup_insert_ne. intros ->. done. }
  split_and!.
  - rewrite Hrun2, <- orb_assoc. f_equal. f_equal. f_equal. apply existsb_ext_in.
    intros i Hi. rewrite Hsame by done.
    destruct (mjoin (t !! i)); [apply Hb|done].
  - done.
  - by eapply same_frame_trans.
  - rewrite Ht2, Ht1. cbn [clear_slots foldl]. by rewrite list_insert_insert_eq.
  - intros q. rewrite Hc2, Hc1, Hb.
    rewrite (existsb_ext_in _ (λ i, bool_decide (t !! i = Some (Some q)))).
    2:{ intros i Hi. by rewrite Hsame. }
    destruct (decide (t !! j = Some (Some q))) as [Hq|Hq].
    + rewrite bool_decide_true by done. cbn [orb]. by case_match.
    + by rewrite bool_decide_false by done.
Qed.

(** ** Contexts *)

Lemma on_ctx_frame c f s :
  (∀ r, rimpl (f r) = rimpl r) → same_frame s (Io.on_ctx c f s).
Proof.
  intros Hf. constructor; [done..|]. cbn [Io.on_ctx ctxs].
  generalize (ctxs s). intros l. revert c.
  induction l as [|x l IH]; intros [|c]; cbn; [done|done|by rewrite Hf|by rewrite IH].
Qed.

(** Dropping the handler's own handle. *)
Lemma drop_held owner c s : io_inv owner c s → io_inv owner None (Io.drop_ctx c s).
Proof.
  intros [H1 H2 H3 H4 H5 H6 H7 H8 H9 H10 H11 H12 H13 H14]. destruct c as [c|]; [|by constructor].
  assert (length (alter Io.dec c (ctxs s)) = length (ctxs s)) as Hl by apply length_alter.
  constructor; try done.
  - intros q c'. cbn [Io.drop_ctx Io.on_ctx ctxs]. rewrite Hl. apply H10.
  - intros c' r'. change (holders (Io.drop_ctx (Some c) s) c') with (holders s c').
    cbn [Io.drop_ctx Io.on_ctx ctxs].
    rewrite decide_False by done. destruct (decide (c = c')) as [->|Hne].
    + rewrite list_lookup_alter_eq. destruct (ctxs s !! c') as [r|] eqn:Hr; [|done].
      intros [= <-]. cbn [Io.dec strong]. rewrite (H11 _ _ Hr), decide_True by done. lia.
    + rewrite list_lookup_alter_ne by done. intros Hr. rewrite (H11 _ _ Hr).
      by rewrite decide_False by congruence.
Qed.

Definition set_owner (owner : nat → Z) (c : nat) (p : Z) (c' : nat) : Z :=
  if decide (c' = c) then p else owner c'.

Lemma new_ctx_inv owner s tag m p :
  io_inv owner None s →
  io_inv (set_owner owner (length (ctxs s)) p) (Some (length (ctxs s)))
    (Io.new_ctx tag m s).2.
Proof.
  intros [H1 H2 H3 H4 H5 H6 H7 H8 H9 H10 H11 H12 H13 H14].
  constructor; try done.
  - intros q c Hc. cbn [Io.new_ctx snd ctxs]. rewrite length_app. destruct (H10 _ _ Hc). split; [done|]. cbn. lia.
  - intros c r Hc. change (holders (Io.new_ctx tag m s).2 c) with (holders s c).
    cbn [Io.new_ctx snd ctxs] in Hc. apply lookup_app_Some in Hc as [Hc|[Hge Hc]].
    + rewrite (H11 _ _ Hc). apply lookup_lt_Some in Hc.
      rewrite !decide_False; [done|intros [= <-]; lia|done].
    + assert (c = length (ctxs s)) as ->.
      { apply lookup_lt_Some in Hc. cbn in Hc. lia. }
      rewrite Nat.sub_diag in Hc. injection Hc as <-. cbn [strong].
      rewrite decide_True by done. destruct (holders s (length (ctxs s))) as [|q l] eqn:Hh; [done|].
      assert (q ∈ holders s (length (ctxs s))) as Hin by (rewrite Hh; by left).
      apply elem_of_holders in Hin. destruct (H10 _ _ Hin). lia.
  - intros c [= <-]. cbn [Io.new_ctx snd ctxs]. rewrite length_app. cbn. lia.
  - intros io p' q c Hio Hc. unfold set_owner. rewrite decide_False; [by eapply H14|].
    intros ->. destruct (H10 _ _ Hc). lia.
Qed.

Lemma new_ctx_frame owner s tag m c :
  io_inv owner None s →
  waits (Io.new_ctx tag m s).2 c = waits s c ∧ (length (ctxs s) ≤ c → waits s c = []).
Proof.
  intros Hinv. split; [done|]. intros Hc.
  destruct (waits s c) as [|io l] eqn:Hw; [done|].
  assert (io ∈ waits s c) as Hin by (rewrite Hw; by left).
  apply elem_of_waits in Hin. unfold io_ctx in Hin.
  destruct (io_q s io) as [q|]; [|done]. cbn in Hin.
  destruct (io_ctx_busy _ _ _ Hinv _ _ Hin). lia.
Qed.

(** ** Enabling a queue *)

Lemma enable_inv owner held s pfn t i sq cq :
  io_inv owner held s → tables s !! pfn = Some t → t !! i = Some None →
  io_inv owner held
    (Io.set_table pfn (<[i := Some (length (queues s))]> t) (Io.new_queue sq cq s).2).
Proof.
  intros Hinv Ht Hi. set (s1 := (Io.new_queue sq cq s).2).
  set (n := length (queues s)). set (s' := Io.set_table _ _ _).
  pose proof Hinv as [H1 H2 H3 H4 H5 H6 H7 H8 H9 H10 H11 H12 H13 H14].
  assert (tables s1 !! pfn = Some t) as Ht1 by done.
  assert (i < length t) as Hlt by by eapply lookup_lt_Some.
  assert (∀ p j, slot_at s' p j = if decide (p = pfn ∧ j = i) then Some n else slot_at s p j)
    as Hslot by (intros p j; apply (set_slot_at s1 pfn t i (Some n) p j Ht1 Hlt)).
  assert (∀ q, is_open s' q = if decide (q = n) then true else is_open s q) as Hopen.
  { intros q. case_decide as Hq.
    - subst q. apply is_open_slot. exists pfn, i. by rewrite Hslot, decide_True.
    - symmetry. apply is_open_ext. intros p j. rewrite Hslot. case_decide as Hpj; [|done].
      destruct Hpj as [-> ->]. unfold slot_at. rewrite Ht. cbn. rewrite Hi. cbn. naive_solver. }
  assert (∀ q, Io.delete_ctx s' q = if decide (q = n) then None else Io.delete_ctx s q) as Hctx.
  { intros q. unfold Io.delete_ctx. cbn. case_decide as Hq.
    - subst q. by rewrite list_lookup_middle.
    - destruct (decide (q < n)).
      + by rewrite lookup_app_l.
      + rewrite (lookup_ge_None_2 (queues s)) by (fold n; lia).
        rewrite lookup_ge_None_2; [done|]. rewrite length_app. cbn. fold n. lia. }
  assert (length (queues s') = S n) as Hlen by (cbn; rewrite length_app; cbn; fold n; lia).
  assert (ios_on s n = []) as Hnone.
  { destruct (ios_on s n) as [|io l] eqn:Hl; [done|].
    assert (io ∈ ios_on s n) as Hin by (rewrite Hl; by left).
    apply elem_of_ios_on, H6 in Hin. fold n in Hin. lia. }
  assert (∀ p j, slot_at s p j ≠ Some n) as Hfresh.
  { intros p j Hs. apply H5 in Hs. fold n in Hs. lia. }
  constructor.
  - cbn. by rewrite length_insert.
  - intros p t' Hp. cbn in Hp.
    apply list_lookup_insert_Some in Hp as [(<- & <- & _)|[_ Hp]]; [|eauto].
    rewrite length_insert. eauto.
  - done.
  - intros p j p' j' q. rewrite !Hslot. repeat case_decide; naive_solver.
  - intros p j q. rewrite Hslot, Hlen. case_decide; [intros [= <-]; lia|].
    intros Hs%H5. fold n in Hs. lia.
  - intros io q Hio. rewrite Hlen. apply (H6 io) in Hio. fold n in Hio. lia.
  - intros q r Hq. rewrite Hopen. change (ios_on s' q) with (ios_on s q).
    apply lookup_app_Some in Hq as [Hq|[Hge Hq]].
    + rewrite decide_False; [eauto|]. apply lookup_lt_Some in Hq. fold n in Hq. lia.
    + assert (q = n) as -> by (apply lookup_lt_Some in Hq; cbn in Hq; fold n in Hq, Hge; lia).
      fold n in Hq. rewrite Nat.sub_diag in Hq. injection Hq as <-.
      by rewrite decide_True, Hnone.
  - intros q r Hq. rewrite Hopen. apply lookup_app_Some in Hq as [Hq|[Hge Hq]].
    + rewrite decide_False; [eauto|]. apply lookup_lt_Some in Hq. fold n in Hq. lia.
    + assert (q = n) as -> by (apply lookup_lt_Some in Hq; cbn in Hq; fold n in Hq, Hge; lia).
      fold n in Hq. rewrite Nat.sub_diag in Hq. injection Hq as <-. by rewrite decide_True.
  - intros q. rewrite Hopen, Hctx. case_decide; [done|]. eauto.
  - intros q c. rewrite Hctx. change (ios_on s' q) with (ios_on s q). case_decide; [done|]. eauto.
  - intros c r Hc. rewrite (H11 _ _ Hc). f_equal. unfold holders. rewrite Hlen, seq_S.
    rewrite list.filter_app, length_app. fold n. cbn [Nat.add].
    rewrite (filter_cons_False _ n []) by (by rewrite Hctx, decide_True).
    cbn. rewrite Nat.add_0_r. f_equal. apply filter_same. intros q Hq%elem_of_seq.
    rewrite Hctx, decide_False by lia. done.
  - done.
  - intros p j q io p'. rewrite Hslot. case_decide as Hd; [|eauto]. intros [= <-] Hio.
    assert (io_q s io = Some n) as Hn by (apply io_q_Some; by exists p').
    apply H6 in Hn. fold n in Hn. lia.
  - intros io p q c Hio. rewrite Hctx. case_decide; [done|]. eauto.
Qed.

(** ** Starting an IO *)

Definition started (s : IoState) (p : Z) (q : nat) : IoState :=
  Io.set_ios (ios s ++ [Some (p, q)]) (Io.on_queue q Io.inc s).

Lemma on_queue_inc_ctx s q q' : Io.delete_ctx (Io.on_queue q Io.inc s) q' = Io.delete_ctx s q'.
Proof.
  unfold Io.delete_ctx. cbn [Io.on_queue queues]. destruct (decide (q = q')) as [->|Hne].
  - rewrite list_lookup_alter_eq. by destruct (queues s !! q').
  - by rewrite list_lookup_alter_ne.
Qed.

Lemma started_io_q s p q io :
  io_q (started s p q) io = if decide (io = length (ios s)) then Some q else io_q s io.
Proof.
  unfold io_q. cbn [started Io.set_ios ios]. case_decide as Hd.
  - subst io. by rewrite list_lookup_middle.
  - destruct (decide (io < length (ios s))); [by rewrite lookup_app_l|].
    rewrite !lookup_ge_None_2; [done|lia|]. rewrite length_app. cbn. lia.
Qed.

Lemma started_ios_on s p q q' :
  ios_on (started s p q) q' = ios_on s q' ++ if decide (q' = q) then [length (ios s)] else [].
Proof.
  unfold ios_on, io_ids. cbn [started Io.set_ios ios]. rewrite length_app. cbn [length].
  rewrite Nat.add_1_r, seq_S, list.filter_app. f_equal.
  - apply filter_same. intros io Hio%elem_of_seq. rewrite started_io_q, decide_False by lia. done.
  - cbn [Nat.add]. rewrite filter_cons, filter_nil.
    destruct (decide (io_q _ _ = _)) as [H|H]; rewrite started_io_q, decide_True in H by done.
    + rewrite decide_True by congruence. done.
    + rewrite decide_False by congruence. done.
Qed.

Lemma started_inv owner s pfn i q :
  io_inv owner None s → slot_at s pfn i = Some q → io_inv owner None (started s (Z.of_nat pfn) q).
Proof.
  intros Hinv Hs. pose proof Hinv as [H1 H2 H3 H4 H5 H6 H7 H8 H9 H10 H11 H12 H13 H14].
  assert (is_open s q = true) as Ho by (apply is_open_slot; by exists pfn, i).
  set (s' := started s (Z.of_nat pfn) q).
  assert (∀ q', is_open s' q' = is_open s q') as Hopen by done.
  assert (∀ q', Io.delete_ctx s' q' = Io.delete_ctx s q') as Hctx
    by (intros q'; apply on_queue_inc_ctx).
  assert (length (queues s') = length (queues s)) as Hl by apply length_alter.
  assert (∀ io p q', ios s' !! io = Some (Some (p, q')) →
    ios s !! io = Some (Some (p, q')) ∨ p = Z.of_nat pfn ∧ q' = q) as Hios.
  { intros io p q' Hio. cbn in Hio. apply lookup_app_Some in Hio as [Hio|[_ Hio]]; [by left|].
    apply list_lookup_singleton_Some in Hio as [_ [= -> ->]]. by right. }
  constructor; try done.
  - intros p j q' Hp. rewrite Hl. by apply (H5 p j).
  - intros io q'. rewrite Hl. unfold s'. rewrite started_io_q. case_decide; [|apply H6].
    intros [= <-]. by apply (H5 pfn i).
  - intros q' r'. rewrite Hopen. unfold s'. rewrite started_ios_on, length_app.
    cbn [started Io.set_ios Io.on_queue queues]. destruct (decide (q' = q)) as [->|Hne].
    + rewrite list_lookup_alter_eq. destruct (queues s !! q) as [r|] eqn:Hr; [|done].
      intros [= <-]. cbn [Io.inc strong length]. rewrite (H7 _ _ Hr). lia.
    + rewrite list_lookup_alter_ne by done. intros Hr. rewrite (H7 _ _ Hr). cbn. lia.
  - intros q' r'. rewrite Hopen. unfold s'. cbn [started Io.set_ios Io.on_queue queues].
    destruct (decide (q' = q)) as [->|Hne].
    + rewrite list_lookup_alter_eq. destruct (queues s !! q) as [r|] eqn:Hr; [|done].
      intros [= <-]. exact (H8 q r Hr).
    + rewrite list_lookup_alter_ne by done. apply H8.
  - intros q'. rewrite Hctx. apply H9.
  - intros q' c. rewrite Hctx. intros Hc. destruct (H10 _ _ Hc) as [Hne Hlt]. split; [|done].
    unfold s'. rewrite started_ios_on. by destruct (ios_on s q').
  - intros c r Hc. rewrite (H11 _ _ Hc). f_equal. unfold holders. rewrite Hl. f_equal.
    apply filter_same. intros x _. by rewrite Hctx.
  - intros p j q' io p' Hsl Hio. apply Hios in Hio as [Hio|[-> ->]]; [by eapply H13|].
    by destruct (H4 pfn i p j q Hs Hsl) as [-> _].
  - intros io p q' c Hio. rewrite Hctx. apply Hios in Hio as [Hio|[-> ->]]; [by eapply H14|].
    by rewrite (H9 q Ho).
Qed.

Lemma started_waits s p q c :
  Io.delete_ctx s q = None → waits (started s p q) c = waits s c.
Proof.
  intros Hq. unfold waits, io_ids. cbn [started Io.set_ios ios]. rewrite length_app. cbn [length].
  rewrite Nat.add_1_r, seq_S, list.filter_app.
  assert (∀ io, io_ctx (started s p q) io
    = if decide (io = length (ios s)) then None else io_ctx s io) as Hctx.
  { intros io. unfold io_ctx. rewrite started_io_q. case_decide; cbn.
    - etransitivity; [exact (on_queue_inc_ctx s q q)|done].
    - destruct (io_q s io) as [q'|]; [|done]. cbn. exact (on_queue_inc_ctx s q q'). }
  rewrite (filter_cons_False _ (0 + length (ios s)) []).
  2:{ rewrite Hctx, decide_True by lia. done. }
  rewrite filter_nil, app_nil_r. apply filter_same. intros io Hio%elem_of_seq.
  by rewrite Hctx, decide_False by lia.
Qed.

(** ** Retiring an IO *)

(** The context the last reference of a closed queue takes out of it. *)
Definition taken (r : Rc IoQueueImpl) : option nat :=
  if negb (q_valid (rimpl r)) && (strong r =? 1) then q_delete_ctx (rimpl r) else None.

Definition notification (sent : bool) (s : IoState) (p : Z) (c : option nat) : list io_event :=
  match c ≫= λ c, ctxs s !! c with
  | Some r =>
      if strong r =? 1 then
        (if migrate (rimpl r) then [EvEndMigrate p] else [])
          ++ [EvQueueDeleteResponse (target_tag (rimpl r)) p sent]
      else []
  | None => []
  end.

Definition retired (sent : bool) (s : IoState) (io : nat) (p : Z) (q : nat) (r : Rc IoQueueImpl) : IoState :=
  mkIoState
    (<[q := mkRc (strong r - 1)
              (mkIoQueue (q_sq_id (rimpl r)) (q_cq_id (rimpl r)) (q_valid (rimpl r))
                 (if negb (q_valid (rimpl r)) && (strong r =? 1) then None
                  else q_delete_ctx (rimpl r)))]> (queues s))
    (match taken r with Some c => alter Io.dec c (ctxs s) | None => ctxs s end)
    (tables s) (enabled s) (<[io := None]> (ios s)) (events s ++ notification sent s p (taken r)).

Lemma retire_io_exact sent s p q r :
  queues s !! q = Some r →
  (Io.retire_io sent p q s).2 =
    mkIoState
      (<[q := mkRc (strong r)
                (mkIoQueue (q_sq_id (rimpl r)) (q_cq_id (rimpl r)) (q_valid (rimpl r))
                   (if negb (q_valid (rimpl r)) && (strong r =? 1) then None
                    else q_delete_ctx (rimpl r)))]> (queues s))
      (match taken r with Some c => alter Io.dec c (ctxs s) | None => ctxs s end)
      (tables s) (enabled s) (ios s) (events s ++ notification sent s p (taken r)).
Proof.
  intros Hq. destruct r as [n [sq cq v d]]. unfold Io.retire_io, taken, notification.
  assert (Io.valid s q = v) as -> by (unfold Io.valid; by rewrite Hq).
  assert (Io.ref_cnt s q = n) as -> by (unfold Io.ref_cnt; by rewrite Hq).
  cbn [rimpl strong q_valid q_delete_ctx q_sq_id q_cq_id].
  destruct (negb v && (n =? 1)) eqn:Hl.
  - unfold Io.take_delete_ctx. assert (Io.delete_ctx s q = d) as ->.
    { unfold Io.delete_ctx. by rewrite Hq. }
    assert (Io.put_ctx q None s
      = mkIoState (<[q := mkRc n (mkIoQueue sq cq v None)]> (queues s)) (ctxs s) (tables s)
          (enabled s) (ios s) (events s)) as Hput.
    { unfold Io.put_ctx, Io.on_queue. by rewrite (alter_insert_eq _ _ _ _ Hq). }
    destruct d as [c|]; rewrite Hput; [|by rewrite app_nil_r].
    cbn [ctxs mbind option_bind]. destruct (ctxs s !! c) as [[m [tg mig]]|] eqn:Hc.
    + cbn [strong rimpl]. destruct (m =? 1); [|by rewrite app_nil_r].
      cbn [migrate target_tag].
      unfold Io.drop_ctx, Io.on_ctx, Io.end_migrate, Io.emit.
      destruct mig; cbn [queues ctxs tables enabled ios events]; [|done].
      by rewrite <- app_assoc.
    + by rewrite app_nil_r.
  - cbn [mbind option_bind]. rewrite app_nil_r, list_insert_id by done. by destruct s.
Qed.

Lemma io_drop_exact sent owner s io p q r :
  io_inv owner None s → ios s !! io = Some (Some (p, q)) → queues s !! q = Some r →
  Io.io_drop sent io s = (Ok tt, retired sent s io p q r).
Proof.
  intros Hinv Hio Hq. unfold Io.io_drop. rewrite Hio, (retire_io_exact sent s p q r Hq).
  assert (q < length (queues s)) as Hlt by by eapply lookup_lt_Some.
  f_equal. unfold Io.drop_queue, Io.on_queue. cbn [queues ctxs tables enabled ios events].
  rewrite (alter_insert_eq Io.dec (<[q := _]> _) q _ (list_lookup_insert_eq _ _ _ Hlt)).
  rewrite list_insert_insert_eq, list_lookup_insert_eq by done.
  unfold Io.dec. cbn [strong rimpl q_delete_ctx].
  pose proof (io_count _ _ _ Hinv q r Hq) as Hn. pose proof (io_valid _ _ _ Hinv q r Hq) as Hv.
  assert (io ∈ ios_on s q) as Hin by (apply elem_of_ios_on, io_q_Some; by exists p).
  destruct (ios_on s q) as [|? l]; [by apply elem_of_nil in Hin|]. cbn [length] in Hn.
  destruct (strong r - 1 =? 0) eqn:H0; [|done].
  assert (strong r = 1) as H1 by (apply Nat.eqb_eq in H0; lia). unfold retired. rewrite H1, Hv.
  destruct (is_open s q); [lia|]. reflexivity.
Qed.

Section retire.
Variables (sent : bool) (owner : nat → Z) (s : IoState) (io : nat) (p : Z) (q : nat) (r : Rc IoQueueImpl).
Hypothesis Hinv : io_inv owner None s.
Hypothesis Hio : ios s !! io = Some (Some (p, q)).
Hypothesis Hq : queues s !! q = Some r.

Let s' : IoState := retired sent s io p q r.
Let last : bool := negb (q_valid (rimpl r)) && (strong r =? 1).

Lemma retire_q_lt : q < length (queues s).
Proof. by eapply lookup_lt_Some. Qed.

Lemma retire_io_q x : io_q s' x = if decide (x = io) then None else io_q s x.
Proof.
  unfold io_q. cbn [s' retired ios]. case_decide as Hx.
  - subst x. by rewrite list_lookup_insert_eq by (by eapply lookup_lt_Some).
  - by rewrite list_lookup_insert_ne.
Qed.

Lemma retire_on : io ∈ ios_on s q.
Proof. apply elem_of_ios_on, io_q_Some. by exists p. Qed.

Lemma retire_ids : io_ids s' = io_ids s.
Proof. unfold io_ids. cbn [s' retired ios]. by rewrite length_insert. Qed.

Lemma retire_ios_on q' : ios_on s' q' = filter (λ x, x ≠ io) (ios_on s q').
Proof.
  unfold ios_on. rewrite retire_ids, list_filter_filter. apply filter_same. intros x _.
  rewrite retire_io_q. case_decide; naive_solver.
Qed.

Lemma retire_len : length (filter (λ x, x ≠ io) (ios_on s q)) = length (ios_on s q) - 1.
Proof.
  pose proof (filter_gain (λ x, x ≠ io) (λ _, True) (ios_on s q) io) as H.
  assert (filter (λ _, True) (ios_on s q) = ios_on s q) as E.
  { clear. induction (ios_on s q) as [|x l IH]; [done|]. rewrite filter_cons_True by done.
    by rewrite IH. }
  rewrite E in H. rewrite H; [lia| |apply retire_on|naive_solver|].
  - apply list.NoDup_filter, NoDup_seq.
  - intros x _. destruct (decide (x = io)); naive_solver.
Qed.

Lemma retire_last : last = true ↔ is_open s q = false ∧ ios_on s q = [io].
Proof.
  unfold last. rewrite (io_valid _ _ _ Hinv q r Hq), (io_count _ _ _ Hinv q r Hq).
  pose proof retire_on as Hin. destruct (is_open s q); cbn [negb andb].
  - naive_solver.
  - rewrite Nat.eqb_eq. destruct (ios_on s q) as [|x [|y l]] eqn:E; cbn.
    + by apply elem_of_nil in Hin.
    + apply list_elem_of_singleton in Hin as ->. naive_solver.
    + naive_solver.
Qed.

Lemma retire_delete_ctx q' :
  Io.delete_ctx s' q' = if decide (q' = q ∧ last = true) then None else Io.delete_ctx s q'.
Proof.
  unfold Io.delete_ctx. cbn [s' retired queues]. destruct (decide (q' = q)) as [->|Hne].
  - rewrite list_lookup_insert_eq by apply retire_q_lt. rewrite Hq. cbn.
    fold last. destruct last; [by rewrite decide_True|by rewrite decide_False by naive_solver].
  - rewrite list_lookup_insert_ne by done. by rewrite decide_False by naive_solver.
Qed.

Lemma retire_taken : taken r = if last then Io.delete_ctx s q else None.
Proof. unfold taken, Io.delete_ctx. rewrite Hq. by fold last. Qed.

Lemma retire_waits c : waits s' c = filter (λ x, x ≠ io) (waits s c).
Proof.
  unfold waits. rewrite retire_ids, list_filter_filter. apply filter_same. intros x _.
  unfold io_ctx. rewrite retire_io_q. case_decide as Hx; [naive_solver|].
  destruct (io_q s x) as [q'|] eqn:Hxq; cbn; [|naive_solver].
  rewrite retire_delete_ctx. case_decide as Hd; [|naive_solver].
  destruct Hd as [-> Hl]. apply retire_last in Hl as [_ Hl].
  apply elem_of_ios_on in Hxq. rewrite Hl in Hxq. apply list_elem_of_singleton in Hxq. done.
Qed.

Lemma retire_holders c :
  length (holders s c) = length (holders s' c) + if decide (taken r = Some c) then 1 else 0.
Proof.
  unfold holders. replace (length (queues s')) with (length (queues s))
    by (cbn [s' retired queues]; by rewrite length_insert).
  rewrite retire_taken. destruct last eqn:Hl.
  - destruct (decide (Io.delete_ctx s q = Some c)) as [Hc|Hc].
    + rewrite Nat.add_1_r. apply (filter_gain _ _ _ q).
      * apply NoDup_seq.
      * apply elem_of_seq. pose proof retire_q_lt. lia.
      * by rewrite retire_delete_ctx, decide_True.
      * intros x _. rewrite retire_delete_ctx. rewrite Hl. case_decide; naive_solver.
    + rewrite Nat.add_0_r. f_equal. apply filter_same. intros x _. rewrite retire_delete_ctx, Hl.
      case_decide; naive_solver.
  - rewrite decide_False by done. rewrite Nat.add_0_r. f_equal. apply filter_same. intros x _.
    rewrite retire_delete_ctx, Hl. by rewrite decide_False by naive_solver.
Qed.

Lemma retire_inv : io_inv owner None s'.
Proof.
  pose proof Hinv as [H1 H2 H3 H4 H5 H6 H7 H8 H9 H10 H11 H12 H13 H14].
  assert (length (queues s') = length (queues s)) as Hl
    by (cbn [s' retired queues]; by rewrite length_insert).
  assert (length (ctxs s') = length (ctxs s)) as Hlc.
  { cbn [s' retired ctxs]. destruct (taken r); [apply length_alter|done]. }
  assert (∀ x p' q', ios s' !! x = Some (Some (p', q')) → ios s !! x = Some (Some (p', q'))) as Hios.
  { intros x p' q' Hx. cbn [s' retired ios] in Hx.
    apply list_lookup_insert_Some in Hx as [(_ & ? & _)|[_ ?]]; [done|done]. }
  constructor; try done.
  - intros p' j q' Hs. rewrite Hl. by apply (H5 p' j).
  - intros x q'. rewrite Hl, retire_io_q. case_decide; [done|]. apply H6.
  - intros q' r' Hq'. change (is_open s' q') with (is_open s q'). rewrite retire_ios_on.
    cbn [s' retired queues] in Hq'. apply list_lookup_insert_Some in Hq' as [(<- & <- & _)|[Hne Hq']].
    + cbn [strong]. rewrite retire_len, (H7 _ _ Hq). pose proof retire_on as Hin.
      destruct (ios_on s q); [by apply elem_of_nil in Hin|]. cbn. lia.
    + rewrite (H7 _ _ Hq'). do 2 f_equal. rewrite <- (retire_ios_on q').
      unfold ios_on. rewrite retire_ids. apply filter_same. intros x _. rewrite retire_io_q.
      case_decide as Hx; [|done]. subst x.
      assert (io_q s io = Some q) as -> by (apply io_q_Some; by exists p). naive_solver.
  - intros q' r' Hq'. change (is_open s' q') with (is_open s q').
    cbn [s' retired queues] in Hq'. apply list_lookup_insert_Some in Hq' as [(<- & <- & _)|[Hne Hq']].
    + apply (H8 _ _ Hq).
    + by apply H8.
  - intros q' Ho. rewrite retire_delete_ctx. case_decide; [done|]. by apply H9.
  - intros q' c. rewrite retire_delete_ctx, Hlc. case_decide as Hd; [done|]. intros Hc.
    destruct (H10 _ _ Hc) as [Hne Hlt]. split; [|done]. rewrite retire_ios_on. intros Hnil.
    assert (∀ x, x ∈ ios_on s q' → x = io) as Hall.
    { intros x Hx. destruct (decide (x = io)); [done|]. exfalso.
      assert (x ∈ filter (λ x, x ≠ io) (ios_on s q')) as Hin by (by apply list_elem_of_filter).
      rewrite Hnil in Hin. by apply elem_of_nil in Hin. }
    assert (base.NoDup (ios_on s q')) as Hnd by apply list.NoDup_filter, NoDup_seq.
    assert (ios_on s q' = [io]) as Hone.
    { destruct (ios_on s q') as [|x [|y l]]; [done| |].
      - by rewrite (Hall x) by by left.
      - apply list.NoDup_cons in Hnd as [Hx _]. exfalso. apply Hx.
        rewrite (Hall x), (Hall y); [by left|right; by left|by left]. }
    assert (q' = q) as ->.
    { assert (io ∈ ios_on s q') as Hin by (rewrite Hone; by left).
      apply elem_of_ios_on, io_q_Some in Hin as [p' Hp']. congruence. }
    apply Hd. split; [done|]. apply retire_last. split; [|done].
    destruct (is_open s q) eqn:Ho; [|done]. by rewrite (H9 q Ho) in Hc.
  - intros c r'. rewrite decide_False by done. rewrite Nat.add_0_r.
    cbn [s' retired ctxs]. pose proof (retire_holders c) as Hh.
    destruct (taken r) as [c0|].
    + destruct (decide (c0 = c)) as [->|Hne].
      * rewrite list_lookup_alter_eq. destruct (ctxs s !! c) as [r0|] eqn:Hr0; [|done].
        intros [= <-]. cbn [Io.dec strong]. rewrite (H11 _ _ Hr0).
        rewrite decide_True in Hh by done. rewrite decide_False by done. fold s'. lia.
      * rewrite list_lookup_alter_ne by done. intros Hr0. rewrite (H11 _ _ Hr0).
        rewrite decide_False in Hh by congruence. rewrite decide_False by done. fold s'. lia.
    + intros Hr0. rewrite (H11 _ _ Hr0). rewrite decide_False in Hh by done.
      rewrite decide_False by done. fold s'. lia.
  - intros p' j q' x p'' Hs Hx. apply Hios in Hx. by eapply H13.
  - intros x p' q' c Hx. rewrite retire_delete_ctx. case_decide; [done|]. apply Hios in Hx.
    by apply H14 with (1 := Hx).
Qed.

(** The deferred response goes out exactly when the context waited for this
    IO alone. *)
Lemma retire_notifies c :
  io_ctx s io = Some c → last = true → strong <$> ctxs s !! c = Some 1 ↔ waits s c = [io].
Proof.
  intros Hc Hl. apply retire_last in Hl as [Hopen Hone].
  assert (io_q s io = Some q) as Hioq by (apply io_q_Some; by exists p).
  unfold io_ctx in Hc. rewrite Hioq in Hc. cbn in Hc.
  destruct (io_ctx_busy _ _ _ Hinv _ _ Hc) as [_ Hlt].
  destruct (lookup_lt_is_Some_2 (ctxs s) c Hlt) as [rc Hrc]. rewrite Hrc. cbn.
  rewrite (io_ctx_count _ _ _ Hinv _ _ Hrc), decide_False, Nat.add_0_r by done.
  assert (q ∈ holders s c) as Hqh by by apply elem_of_holders.
  assert (base.NoDup (holders s c)) as Hnd by apply list.NoDup_filter, NoDup_seq.
  split.
  - intros [= Hlen]. destruct (holders s c) as [|x [|y l]] eqn:Hh; [done| |done].
    apply list_elem_of_singleton in Hqh as <-.
    assert (waits s c = ios_on s q) as ->; [|done].
    unfold waits, ios_on. apply filter_same. intros y _. unfold io_ctx. split.
    + destruct (io_q s y) as [qy|] eqn:Hy; [|done]. cbn. intros Hyc%elem_of_holders.
      rewrite Hh in Hyc. by apply list_elem_of_singleton in Hyc as ->.
    + intros ->. done.
  - intros Hw. f_equal. destruct (holders s c) as [|x l] eqn:Hh; [by apply elem_of_nil in Hqh|].
    destruct l as [|y l]; [done|]. exfalso.
    assert (∀ z, z ∈ x :: y :: l → z = q) as Hall.
    { intros z Hz. rewrite <- Hh in Hz. apply elem_of_holders in Hz.
      destruct (io_ctx_busy _ _ _ Hinv _ _ Hz) as [Hne _].
      destruct (ios_on s z) as [|w ws] eqn:Hzs; [done|].
      assert (w ∈ ios_on s z) as Hwz by (rewrite Hzs; by left).
      apply elem_of_ios_on in Hwz.
      assert (w ∈ waits s c) as Hww.
      { apply elem_of_waits. unfold io_ctx. by rewrite Hwz. }
      rewrite Hw in Hww. apply list_elem_of_singleton in Hww as ->. congruence. }
    apply list.NoDup_cons in Hnd as [Hx _]. apply Hx.
    rewrite (Hall x), (Hall y); [by left|right; by left|by left].
Qed.

Lemma retire_not_last c : io_ctx s io = Some c → last = false → waits s c ≠ [io].
Proof.
  intros Hc Hl Hw. assert (io_q s io = Some q) as Hioq by (apply io_q_Some; by exists p).
  unfold io_ctx in Hc. rewrite Hioq in Hc. cbn in Hc.
  assert (last = true); [|congruence]. apply retire_last. split.
  - destruct (is_open s q) eqn:Ho; [|done]. by rewrite (io_open_ctx _ _ _ Hinv q Ho) in Hc.
  - assert (∀ x, x ∈ ios_on s q → x = io) as Hall.
    { intros x Hx. apply elem_of_ios_on in Hx. assert (x ∈ waits s c) as Hxw.
      { apply elem_of_waits. unfold io_ctx. by rewrite Hx. }
      rewrite Hw in Hxw. by apply list_elem_of_singleton in Hxw. }
    assert (base.NoDup (ios_on s q)) as Hnd by apply list.NoDup_filter, NoDup_seq.
    pose proof retire_on as Hin.
    destruct (ios_on s q) as [|x [|y l]]; [by apply elem_of_nil in Hin| |].
    + by rewrite (Hall x) by by left.
    + apply list.NoDup_cons in Hnd as [Hx _]. exfalso. apply Hx.
      rewrite (Hall x), (Hall y); [by left|right; by left|by left].
Qed.

Lemma retire_events :
  notification sent s p (taken r)
    = match io_ctx s io with
      | Some c =>
          if decide (waits s c = [io]) then
            match ctxs s !! c with
            | Some rc => (if migrate (rimpl rc) then [EvEndMigrate p] else [])
                ++ [EvQueueDeleteResponse (target_tag (rimpl rc)) p sent]
            | None => []
            end
          else []
      | None => []
      end.
Proof.
  assert (io_ctx s io = Io.delete_ctx s q) as Hctx.
  { unfold io_ctx. assert (io_q s io = Some q) as -> by (apply io_q_Some; by exists p). done. }
  rewrite retire_taken. destruct last eqn:Hl.
  - rewrite <- Hctx. destruct (io_ctx s io) as [c|] eqn:Hc; [|done].
    pose proof (retire_notifies c Hc Hl) as Hn. unfold notification. cbn [mbind option_bind].
    destruct (ctxs s !! c) as [rc|] eqn:Hrc; [|by case_decide]. cbn in Hn.
    destruct (strong rc =? 1) eqn:H1.
    + apply Nat.eqb_eq in H1. by rewrite decide_True by (apply Hn; congruence).
    + apply Nat.eqb_neq in H1. rewrite decide_False; [done|]. rewrite <- Hn. congruence.
  - unfold notification. cbn. destruct (io_ctx s io) as [c|] eqn:Hc; [|done].
    by rewrite decide_False by (apply retire_not_last; done).
Qed.

End retire.
