(* ===== verification/IoQueueSpec.v ===== *)
(** * Deferred queue deletion: the abstract machine and the refinement

    In the abstract machine there are no reference counts: a request that
    closes queues records the IOs in flight on them, an IO that ends leaves
    every record, and the record it empties is answered. *)

From stdpp Require Import base list numbers option.
From S2P Require Import Prelude HsmError Queues IpcMessages IpcMessageTypes IoQueues IoQueueProps.

(** ** The abstract machine *)

Record deletion : Set := mkDeletion {
  d_tag : Z; d_pfn : Z; d_migrate : bool;
  d_waits : list nat (* the IOs it waits for *)
}.

Record AState : Set := mkAState {
  a_queues : nat; (* queues made so far *)
  a_tables : list (list (option nat));
  a_enabled : list bool;
  a_ios : list (option (Z * nat));
  a_dels : list deletion;
  a_events : list io_event
}.

Module Spec.

(** The IOs in flight on the queues of some slots. *)
Definition on_slots (slots : list (option nat)) (x : option (Z * nat)) : bool :=
  match x with Some (_, q) => bool_decide (Some q ∈ slots) | None => false end.
Definition in_flight (a : AState) (slots : list (option nat)) : list nat :=
  filter (λ io, on_slots slots (mjoin (a_ios a !! io)) = true) (seq 0 (length (a_ios a))).

(** Recording a deletion that waits for IOs. *)
Definition record (tag pfn : Z) (m : bool) (w : list nat) (dels : list deletion) : list deletion :=
  match w with [] => dels | _ => dels ++ [mkDeletion tag pfn m w] end.

Definition status (w : list nat) : Io.IpcStatus :=
  match w with [] => Io.StSuccess | _ => Io.StPending end.

(** Closing all the queues of a function. *)
Definition close_all (pfn : nat) (t : list (option nat)) (a : AState)
    (dels : list deletion) (enabled : list bool) (evs : list io_event) : AState :=
  mkAState (a_queues a) (<[pfn := replicate (length t) None]> (a_tables a)) enabled (a_ios a)
    dels (a_events a ++ evs).

Definition disable (tag : Z) (pfn : nat) (t : list (option nat)) (a : AState) :
    Io.IpcStatus * AState :=
  let w := in_flight a t in
  (status w,
   close_all pfn t a (record tag (Z.of_nat pfn) false w (a_dels a))
     (<[pfn := false]> (a_enabled a)) [EvDisable (Z.of_nat pfn)]).

Definition migrate_fn (tag : Z) (pfn : nat) (t : list (option nat)) (a : AState) :
    Io.IpcStatus * AState :=
  let w := in_flight a t in
  (status w,
   close_all pfn t a (record tag (Z.of_nat pfn) true w (a_dels a)) (a_enabled a)
     match w with [] => [EvEndMigrate (Z.of_nat pfn)] | _ => [] end).

Definition reset (pfn : nat) (t : list (option nat)) (a : AState) : AState :=
  close_all pfn t a (a_dels a) (<[pfn := false]> (a_enabled a))
    [EvDisable (Z.of_nat pfn); EvReset (Z.of_nat pfn)].

Definition enable (pfn : nat) (a : AState) : AState :=
  mkAState (a_queues a) (a_tables a) (<[pfn := true]> (a_enabled a)) (a_ios a) (a_dels a)
    (a_events a).

(** A new queue takes a free slot; an occupied one stays. *)
Definition create (pfn i : nat) (t : list (option nat)) (a : AState) : AState :=
  match mjoin (t !! i) with
  | Some _ => a
  | None => mkAState (S (a_queues a)) (<[pfn := <[i := Some (a_queues a)]> t]> (a_tables a))
              (a_enabled a) (a_ios a) (a_dels a) (a_events a)
  end.

Definition delete (tag : Z) (pfn i : nat) (t : list (option nat)) (a : AState) :
    Io.IpcStatus * AState :=
  let w := in_flight a [mjoin (t !! i)] in
  (status w,
   mkAState (a_queues a) (<[pfn := <[i := None]> t]> (a_tables a)) (a_enabled a) (a_ios a)
     (record tag (Z.of_nat pfn) false w (a_dels a)) (a_events a)).

Definition start (pfn : nat) (q : nat) (a : AState) : AState :=
  mkAState (a_queues a) (a_tables a) (a_enabled a) (a_ios a ++ [Some (Z.of_nat pfn, q)])
    (a_dels a) (a_events a).

(** An IO that ends: what is left of a deletion, and the answer of the one
    that waited for it alone. *)
Definition leave (io : nat) (d : deletion) : option deletion :=
  match filter (λ x, x ≠ io) (d_waits d) with
  | [] => None
  | w => Some (mkDeletion (d_tag d) (d_pfn d) (d_migrate d) w)
  end.

Definition answer (sent : bool) (io : nat) (d : deletion) : list io_event :=
  if decide (d_waits d = [io]) then
    (if d_migrate d then [EvEndMigrate (d_pfn d)] else [])
      ++ [EvQueueDeleteResponse (d_tag d) (d_pfn d) sent]
  else [].

Definition finish (sent : bool) (io : nat) (a : AState) : AState :=
  match a_ios a !! io with
  | Some (Some _) =>
      mkAState (a_queues a) (a_tables a) (a_enabled a) (<[io := None]> (a_ios a))
        (omap (leave io) (a_dels a)) (a_events a ++ concat (answer sent io <$> a_dels a))
  | _ => a
  end.

End Spec.

(** ** Requests *)

Inductive io_req : Type :=
  | RqPfn (tag : Z) (info : PfnEnableDisableInfo)
  | RqSq (tag : Z) (info : SqCreateDeleteInfo)
  | RqReset (pfn : Z)
  | RqStart (pfn sq_id : Z)
  | RqDrop (sent : bool) (io : nat).

Inductive io_reply : Set :=
  | RpStatus (st : Io.IpcStatus)
  | RpIo (r : outcome HsmErr nat)
  | RpDone.

(** One request on the code's state; an IO that is refused is a reply. *)
Definition io_step (rq : io_req) (s : IoState) : outcome HsmErr io_reply * IoState :=
  match rq with
  | RqPfn tag info => (st ← Io.handle_pfn_enable tag info; mret (RpStatus st)) s
  | RqSq tag info => (st ← Io.handle_create_delete_sq tag info; mret (RpStatus st)) s
  | RqReset pfn => (_ ← Io.part_reset (Z.to_nat pfn); mret RpDone) s
  | RqStart pfn sq_id =>
      match Io.io_start (Z.to_nat pfn) sq_id s with
      | (Panic, s) => (Panic, s)
      | (r, s) => (Ok (RpIo r), s)
      end
  | RqDrop sent io => (_ ← Io.io_drop sent io; mret RpDone) s
  end.

(** The same request on the abstract machine. *)
Definition a_step (rq : io_req) (a : AState) : io_reply * AState :=
  match rq with
  | RqPfn tag info =>
      let pfn := Z.to_nat (pf_pfn info) in
      let t := default [] (a_tables a !! pfn) in
      if decide (pf_action info = PfnEnableDisableAction_Enable) then
        (RpStatus Io.StSuccess, Spec.enable pfn a)
      else if decide (pf_action info = PfnEnableDisableAction_Disable) then
        let '(st, a) := Spec.disable tag pfn t a in (RpStatus st, a)
      else if decide (pf_action info = PfnEnableDisableAction_Migrate) then
        let '(st, a) := Spec.migrate_fn tag pfn t a in (RpStatus st, a)
      else (RpStatus Io.StInvalidField, a)
  | RqSq tag info =>
      let pfn := Z.to_nat (sq_pfn info) in
      let t := default [] (a_tables a !! pfn) in
      let i := Z.to_nat (sq_device_sq_id info - HSM_IO_QUEUE_BASE) in
      if negb (default false (a_enabled a !! pfn)) then (RpStatus Io.StFunctionNotEnabled, a)
      else if decide (sq_action info = SqAction_Create) then
        (RpStatus Io.StSuccess, Spec.create pfn i t a)
      else let '(st, a) := Spec.delete tag pfn i t a in (RpStatus st, a)
  | RqReset pfn =>
      (RpDone, Spec.reset (Z.to_nat pfn) (default [] (a_tables a !! Z.to_nat pfn)) a)
  | RqStart pfn sq_id =>
      let pfn := Z.to_nat pfn in
      if negb (default false (a_enabled a !! pfn)) then (RpIo (Err PartitionNotEnabled), a)
      else match mjoin (default [] (a_tables a !! pfn)
                          !! Z.to_nat (sq_id - HSM_IO_QUEUE_BASE)) with
           | None => (RpIo (Err QueueNotEnabled), a)
           | Some q => (RpIo (Ok (length (a_ios a))), Spec.start pfn q a)
           end
  | RqDrop sent io => (RpDone, Spec.finish sent io a)
  end.

(** A function the device has, and an IO queue of the HSM core. *)
Definition pfn_ok (pfn : Z) : Prop := (0 ≤ pfn < Z.of_nat Pcie.MAX_PCIE_FUNCTIONS)%Z.
Definition sq_ok (sq_id : Z) : Prop :=
  (HSM_IO_QUEUE_BASE ≤ sq_id < HSM_IO_QUEUE_BASE + Z.of_nat HSM_IO_QUEUE_SIZE)%Z.
#[global] Instance pfn_ok_dec p : Decision (pfn_ok p).
Proof. unfold pfn_ok. apply _. Defined.
#[global] Instance sq_ok_dec q : Decision (sq_ok q).
Proof. unfold sq_ok. apply _. Defined.

Definition req_ok (rq : io_req) : Prop :=
  match rq with
  | RqPfn _ info => pfn_ok (pf_pfn info)
  | RqSq _ info => pfn_ok (sq_pfn info) ∧ sq_ok (sq_device_sq_id info)
  | RqReset pfn => pfn_ok pfn
  | RqStart pfn sq_id => pfn_ok pfn ∧ sq_ok sq_id
  | RqDrop _ _ => True
  end.
#[global] Instance req_ok_dec rq : Decision (req_ok rq).
Proof. destruct rq; cbn; apply _. Defined.

(** ** The abstraction *)

Definition del_of (owner : nat → Z) (s : IoState) (c : nat) : option deletion :=
  match waits s c with
  | [] => None
  | w => r ← ctxs s !! c; Some (mkDeletion (target_tag (rimpl r)) (owner c) (migrate (rimpl r)) w)
  end.

Definition dels (owner : nat → Z) (s : IoState) : list deletion :=
  omap (del_of owner s) (seq 0 (length (ctxs s))).

Definition abs (owner : nat → Z) (s : IoState) : AState :=
  mkAState (length (queues s)) (tables s) (enabled s) (ios s) (dels owner s) (events s).

Lemma omap_ext_in {A B} (f g : A → option B) (l : list A) :
  (∀ x, x ∈ l → f x = g x) → omap f l = omap g l.
Proof.
  intros H. induction l as [|x l IH]; [done|]. cbn. rewrite H by by left.
  rewrite IH; [done|]. intros y Hy. apply H. by right.
Qed.

Lemma omap_app {A B} (f : A → option B) (l1 l2 : list A) :
  omap f (l1 ++ l2) = omap f l1 ++ omap f l2.
Proof. induction l1 as [|x l1 IH]; [done|]. cbn. rewrite IH. by destruct (f x). Qed.

(** States that agree on the contexts and what they wait for. *)
Lemma dels_ext owner s s' :
  (rimpl <$> ctxs s') = (rimpl <$> ctxs s) → (∀ c, waits s' c = waits s c) →
  dels owner s' = dels owner s.
Proof.
  intros Hc Hw. unfold dels.
  assert (length (ctxs s') = length (ctxs s)) as ->.
  { by rewrite <- (length_fmap rimpl (ctxs s')), Hc, length_fmap. }
  apply omap_ext_in. intros c _. unfold del_of. rewrite Hw.
  assert (rimpl <$> ctxs s' !! c = rimpl <$> ctxs s !! c) as H
    by (by rewrite <- !list_lookup_fmap, Hc).
  destruct (waits s c); [done|].
  destruct (ctxs s' !! c), (ctxs s !! c); cbn in *; try done. by injection H as ->.
Qed.

(** Closing the queues of the slots in [slots] for a new context. *)
Lemma dels_record owner s s' tag m p slots :
  io_inv owner None s → ios s' = ios s →
  (rimpl <$> ctxs s') = (rimpl <$> ctxs s) ++ [mkDeleteContext tag m] →
  (∀ q, Some q ∈ slots → Io.delete_ctx s q = None) →
  (∀ q, Io.delete_ctx s' q
     = if bool_decide (Some q ∈ slots) then (if busy s q then Some (length (ctxs s)) else None)
       else Io.delete_ctx s q) →
  dels (set_owner owner (length (ctxs s)) p) s'
    = Spec.record tag p m (Spec.in_flight (abs owner s) slots) (dels owner s).
Proof.
  intros Hinv Hios Hctxs Hnone Hctx. set (n := length (ctxs s)) in *.
  assert (length (ctxs s') = S n) as Hlen.
  { rewrite <- (length_fmap rimpl (ctxs s')), Hctxs, length_app, length_fmap. cbn. fold n. lia. }
  assert (∀ io q, io_q s io = Some q → busy s q = true) as Hbusy.
  { intros io q Hq%elem_of_ios_on. unfold busy. by destruct (ios_on s q); [apply elem_of_nil in Hq|]. }
  assert (∀ io, io_ctx s' io = if Spec.on_slots slots (mjoin (ios s !! io)) then Some n
                               else io_ctx s io) as Hio.
  { intros io. unfold io_ctx, io_q. rewrite Hios. unfold io_q in Hbusy. specialize (Hbusy io).
    destruct (mjoin (ios s !! io)) as [[p' q]|]; [|done]. cbn in *. rewrite Hctx.
    by rewrite (Hbusy q). }
  assert (∀ io, io_ctx s io ≠ Some n) as Hold.
  { intros io. unfold io_ctx. destruct (io_q s io) as [q|]; [|done]. cbn. intros Hc.
    destruct (io_ctx_busy _ _ _ Hinv _ _ Hc). fold n in H0. lia. }
  assert (waits s' n = Spec.in_flight (abs owner s) slots) as Hw.
  { unfold waits, io_ids, Spec.in_flight. cbn [abs a_ios]. rewrite Hios. apply filter_same.
    intros io _. rewrite Hio. destruct (Spec.on_slots _ _); [done|]. naive_solver. }
  unfold dels. rewrite Hlen, seq_S, omap_app. cbn [Nat.add]. fold n.
  assert (omap (del_of (set_owner owner n p) s') (seq 0 n) = omap (del_of owner s) (seq 0 n)) as ->.
  { apply omap_ext_in. intros c Hc%elem_of_seq. unfold del_of.
    assert (waits s' c = waits s c) as ->.
    { unfold waits, io_ids. rewrite Hios. apply filter_same. intros io _. rewrite Hio.
      destruct (Spec.on_slots slots (mjoin (ios s !! io))) eqn:Hs; [|done].
      unfold io_ctx, io_q. destruct (mjoin (ios s !! io)) as [[p' q]|]; [|done]. cbn in *.
      apply bool_decide_eq_true in Hs. rewrite (Hnone q Hs). split; [intros [= ->]; lia|done]. }
    assert (rimpl <$> ctxs s' !! c = rimpl <$> ctxs s !! c) as H.
    { rewrite <- !list_lookup_fmap, Hctxs, lookup_app_l; [done|]. rewrite length_fmap. fold n. lia. }
    destruct (waits s c); [done|]. unfold set_owner. rewrite decide_False by lia.
    destruct (ctxs s' !! c), (ctxs s !! c); cbn in *; try done. by injection H as ->. }
  cbn [omap list_omap]. unfold del_of. rewrite Hw.
  assert (rimpl <$> ctxs s' !! n = Some (mkDeleteContext tag m)) as Hn.
  { rewrite <- list_lookup_fmap, Hctxs. apply list_lookup_middle. by rewrite length_fmap. }
  destruct (ctxs s' !! n) as [r|] eqn:Hr; [|done]. injection Hn as Hn.
  unfold Spec.record. destruct (Spec.in_flight (abs owner s) slots) as [|io l] eqn:Hin.
  - by rewrite app_nil_r.
  - cbn. unfold set_owner. rewrite decide_True by done. by rewrite Hn.
Qed.

(** ** Closing the queues of a function *)

Lemma clear_all (t : list (option nat)) : clear_slots t (seq 0 (length t)) = replicate (length t) None.
Proof.
  apply list_eq. intros i. rewrite lookup_clear_slots. destruct (decide (i < length t)).
  - rewrite decide_True by (apply elem_of_seq; lia). rewrite lookup_replicate_2 by done.
    by destruct (lookup_lt_is_Some_2 t i) as [x ->].
  - rewrite decide_False by (rewrite elem_of_seq; lia).
    rewrite !lookup_ge_None_2; [done|rewrite length_replicate; lia|lia].
Qed.

Lemma existsb_slots (t : list (option nat)) (q : nat) :
  existsb (λ i, bool_decide (t !! i = Some (Some q))) (seq 0 (length t))
    = bool_decide (Some q ∈ t).
Proof.
  apply eq_true_iff_eq. rewrite existsb_exists, bool_decide_eq_true, list_elem_of_lookup. split.
  - intros (i & _ & Hi%bool_decide_eq_true). by exists i.
  - intros [i Hi]. exists i. split; [|by apply bool_decide_eq_true].
    apply in_seq. apply lookup_lt_Some in Hi. lia.
Qed.

Lemma open_slot_ctx owner held s pfn t q :
  io_inv owner held s → tables s !! pfn = Some t → Some q ∈ t → Io.delete_ctx s q = None.
Proof.
  intros Hinv Ht [i Hi]%list_elem_of_lookup. apply (io_open_ctx _ _ _ Hinv), is_open_slot.
  exists pfn, i. unfold slot_at. rewrite Ht. cbn. by rewrite Hi.
Qed.

Lemma in_flight_nil owner s slots :
  Spec.in_flight (abs owner s) slots = [] ↔ ∀ q, Some q ∈ slots → busy s q = false.
Proof.
  split.
  - intros Hn q Hq. unfold busy. apply negb_false_iff, Nat.eqb_eq.
    destruct (ios_on s q) as [|io l] eqn:Hl; [done|]. exfalso.
    assert (io ∈ ios_on s q) as Hin by (rewrite Hl; by left).
    assert (io ∈ Spec.in_flight (abs owner s) slots) as Hf; [|rewrite Hn in Hf; by apply elem_of_nil in Hf].
    unfold ios_on, io_ids in Hin. apply list_elem_of_filter in Hin as [Hio Hseq].
    apply list_elem_of_filter. split; [|done]. cbn [abs a_ios].
    apply io_q_Some in Hio as [p ->]. cbn. by apply bool_decide_eq_true.
  - intros H. destruct (Spec.in_flight _ _) as [|io l] eqn:Hl; [done|]. exfalso.
    assert (io ∈ Spec.in_flight (abs owner s) slots) as Hin by (rewrite Hl; by left).
    apply list_elem_of_filter in Hin as [Ho _]. cbn [abs a_ios] in Ho.
    destruct (ios s !! io) as [[[p q]|]|] eqn:Hio; [|done..]. cbn in Ho.
    apply bool_decide_eq_true in Ho. specialize (H q Ho).
    assert (io ∈ ios_on s q) as Hin by (apply elem_of_ios_on, io_q_Some; by exists p).
    unfold busy in H. destruct (ios_on s q); [by apply elem_of_nil in Hin|done].
Qed.

Definition waiting (w : list nat) : bool := negb (length w =? 0).

Lemma busy_slots_flight owner s t :
  existsb (λ i, busy_slot s (mjoin (t !! i))) (seq 0 (length t))
    = waiting (Spec.in_flight (abs owner s) t).
Proof.
  unfold waiting. apply eq_true_iff_eq. rewrite existsb_exists, negb_true_iff, Nat.eqb_neq.
  rewrite length_zero_iff_nil, (in_flight_nil owner s t). split.
  - intros (i & _ & Hb) H. destruct (t !! i) as [[q|]|] eqn:Hi; [|done..]. cbn in Hb.
    rewrite H in Hb; [done|]. apply list_elem_of_lookup. by exists i.
  - intros Hn. destruct (existsb (λ i, busy_slot s (mjoin (t !! i))) (seq 0 (length t))) eqn:E.
    + by apply existsb_exists in E.
    + exfalso. apply Hn. intros q [i Hi]%list_elem_of_lookup.
      destruct (busy s q) eqn:Hb; [|done]. rewrite <- E. symmetry. apply existsb_exists.
      exists i. rewrite Hi. split; [|done]. apply in_seq. apply lookup_lt_Some in Hi. lia.
Qed.

Lemma drop_ctx_frame c s : same_frame s (Io.drop_ctx c s).
Proof. destruct c; [by apply on_ctx_frame|apply same_frame_refl]. Qed.

Lemma drop_ctx_delete c s q : Io.delete_ctx (Io.drop_ctx c s) q = Io.delete_ctx s q.
Proof. by destruct c. Qed.

(** [disable_all_io_queues] with a context just made. *)
Lemma disable_all_ctx owner s pfn t tag m :
  io_inv owner None s → tables s !! pfn = Some t →
  let c := length (ctxs s) in
  let owner' := set_owner owner c (Z.of_nat pfn) in
  let w := Spec.in_flight (abs owner s) t in
  ∃ s', Io.disable_all_io_queues pfn (Some c) (Io.new_ctx tag m s).2 = (Ok (waiting w), s') ∧
    io_inv owner' None s' ∧
    abs owner' s' = Spec.close_all pfn t (abs owner s)
      (Spec.record tag (Z.of_nat pfn) m w (dels owner s)) (enabled s) [].
Proof.
  intros Hinv Ht c owner' w. set (s1 := (Io.new_ctx tag m s).2).
  pose proof (new_ctx_inv owner s tag m (Z.of_nat pfn) Hinv) as Hinv1. fold s1 c owner' in Hinv1.
  destruct (disable_loop_ok owner' (Some c) pfn (seq 0 (length t)) s1 t false Hinv1 Ht)
    as (s2 & Hrun & Hinv2 & Hf & Ht2 & Hc2); [|apply NoDup_seq|].
  { intros c' [= <-]. unfold owner', set_owner. by rewrite decide_True. }
  exists (Io.drop_ctx (Some c) s2). unfold Io.disable_all_io_queues.
  change (tables s1) with (tables s). rewrite Ht, Hrun.
  pose proof (drop_ctx_frame (Some c) s2) as Hf3.
  pose proof (same_frame_trans _ _ _ Hf Hf3) as [He Hi Hev Hq Hcx]. split_and!.
  - cbn [orb]. do 2 f_equal. change (busy_slot s1) with (busy_slot s).
    apply busy_slots_flight.
  - by apply drop_held.
  - unfold abs at 1, Spec.close_all. rewrite He, Hi, Hev, Hq, app_nil_r.
    f_equal.
    + change (tables (Io.drop_ctx (Some c) s2)) with (tables s2). rewrite Ht2. by rewrite clear_all.
    + apply dels_record; [done| | | |].
      * by rewrite Hi.
      * rewrite Hcx. cbn [s1 Io.new_ctx snd ctxs]. by rewrite fmap_app.
      * intros q Hin. by eapply open_slot_ctx.
      * intros q. rewrite drop_ctx_delete, Hc2, existsb_slots. done.
Qed.

(** [disable_all_io_queues] without one. *)
Lemma disable_all_none owner s pfn t :
  io_inv owner None s → tables s !! pfn = Some t →
  ∃ s', Io.disable_all_io_queues pfn None s
      = (Ok (waiting (Spec.in_flight (abs owner s) t)), s') ∧
    io_inv owner None s' ∧
    abs owner s' = Spec.close_all pfn t (abs owner s) (dels owner s) (enabled s) [].
Proof.
  intros Hinv Ht.
  destruct (disable_loop_ok owner None pfn (seq 0 (length t)) s t false Hinv Ht)
    as (s2 & Hrun & Hinv2 & Hf & Ht2 & Hc2); [done|apply NoDup_seq|].
  exists s2. unfold Io.disable_all_io_queues. rewrite Ht, Hrun. pose proof Hf as [He Hi Hev Hq Hcx].
  split_and!; [|done|].
  - cbn [orb Io.drop_ctx]. do 2 f_equal. apply busy_slots_flight.
  - unfold abs at 1, Spec.close_all. rewrite He, Hi, Hev, Hq, app_nil_r, Ht2, clear_all.
    f_equal. apply dels_ext; [done|]. intros c. unfold waits, io_ids. rewrite Hi.
    apply filter_same. intros io _. unfold io_ctx, io_q. rewrite Hi.
    destruct (mjoin (ios s !! io)) as [[p q]|]; [|done]. cbn. rewrite Hc2, existsb_slots.
    case_bool_decide as Hin; [|done].
    rewrite (open_slot_ctx owner None s pfn t q Hinv Ht Hin). by destruct (busy s q).
Qed.

(** ** Deleting one queue *)

Lemma ioq_index_ok (t : list (option nat)) sq :
  length t = HSM_IO_QUEUE_SIZE → sq_ok sq →
  Io.ioq_index t sq = Some (Z.to_nat (sq - HSM_IO_QUEUE_BASE)) ∧
  Z.to_nat (sq - HSM_IO_QUEUE_BASE) < length t.
Proof.
  intros Hl [H1 H2]. unfold Io.ioq_index. rewrite (proj2 (Z.ltb_ge _ _)) by done.
  assert (Z.to_nat (sq - HSM_IO_QUEUE_BASE) < length t) as Hi
    by (rewrite Hl; unfold HSM_IO_QUEUE_SIZE, HSM_IO_QUEUE_BASE in *; lia).
  by rewrite (proj2 (Nat.ltb_lt _ _)).
Qed.

Lemma alter_dec_inc {A} (l : list (Rc A)) c : alter Io.dec c (alter Io.inc c l) = l.
Proof.
  revert c. induction l as [|[n x] l IH]; intros [|c]; cbn; [done|done| |by rewrite IH].
  unfold Io.dec, Io.inc. cbn. by rewrite Nat.sub_0_r.
Qed.

(** Moving the context into the queue is cloning it and dropping the clone. *)
Lemma disable_io_queue_one pfn sq i t c s :
  tables s !! pfn = Some t → Io.ioq_index t sq = Some i → i < length t →
  (∀ q, t !! i = Some (Some q) → ∃ k r, queues s !! q = Some (mkRc (S k) r) ∧ q_delete_ctx r = None) →
  Io.disable_io_queue pfn sq (Some c) s
    = let '(b, s') := Io.disable_one pfn (Some c) (false, s) i in (Ok b, Io.drop_ctx (Some c) s').
Proof.
  intros Ht Hidx Hi Hq. destruct (lookup_lt_is_Some_2 t i Hi) as [[q|] Hslot].
  - destruct (Hq q Hslot) as (k & r & Hqr & Hctx).
    rewrite (disable_one_closed pfn i q k (Some c) t r s false Ht Hslot Hqr Hctx).
    assert (q < length (queues s)) as Hlt by by eapply lookup_lt_Some.
    unfold Io.disable_io_queue, Io.with_slot. rewrite Ht, Hidx, Hslot. cbn [mjoin option_join].
    unfold Io.close_queue. set (s1 := Io.set_table _ _ _).
    assert (queues s1 = queues s) as Hq1 by done.
    assert (Io.ref_cnt s1 q = S k) as -> by (unfold Io.ref_cnt; by rewrite Hq1, Hqr).
    assert (Io.delete_ctx s1 q = None) as Hd by (unfold Io.delete_ctx; by rewrite Hq1, Hqr).
    unfold Io.set_delete_context. rewrite Hd.
    destruct k as [|k]; cbn [Nat.ltb Nat.leb Nat.eqb negb orb]; f_equal;
      unfold Io.drop_queue, Io.invalidate, Io.put_ctx, Io.drop_ctx, Io.on_ctx, Io.on_queue, closed;
      cbn [queues ctxs tables enabled ios events s1 Io.set_table Nat.eqb];
      rewrite (alter_insert_eq _ _ _ _ Hqr);
      repeat (rewrite (alter_insert_eq _ (<[q := _]> _) q _ (list_lookup_insert_eq _ _ _ Hlt));
              rewrite list_insert_insert_eq);
      rewrite list_lookup_insert_eq by done; unfold Io.dec, Io.update;
      cbn [strong rimpl Nat.sub Nat.eqb q_delete_ctx q_sq_id q_cq_id q_valid queues ctxs tables
           enabled ios events].
    + by rewrite Hctx.
    + fold (@Io.dec IoQueueDeleteContextImpl). by rewrite alter_dec_inc.
  - unfold Io.disable_io_queue, Io.with_slot, Io.disable_one. rewrite Ht, Hidx, Hslot.
    cbn [mjoin option_join]. f_equal. f_equal. unfold Io.set_table.
    rewrite (list_insert_id t), list_insert_id by done. by destruct s.
Qed.

Lemma slot_queue owner held s pfn i t q :
  io_inv owner held s → tables s !! pfn = Some t → t !! i = Some (Some q) →
  ∃ k r, queues s !! q = Some (mkRc (S k) r) ∧ q_delete_ctx r = None.
Proof.
  intros Hinv Ht Hi. assert (slot_at s pfn i = Some q) as Hs.
  { unfold slot_at. rewrite Ht. cbn. by rewrite Hi. }
  destruct (lookup_lt_is_Some_2 (queues s) q) as [[n r] Hq]; [by eapply io_slot_live|].
  assert (is_open s q = true) as Ho by (apply is_open_slot; by exists pfn, i).
  pose proof (io_count _ _ _ Hinv q _ Hq) as Hn. rewrite Ho in Hn. cbn in Hn.
  destruct n as [|k]; [lia|]. exists k, r. split; [done|].
  pose proof (io_open_ctx _ _ _ Hinv q Ho) as H. unfold Io.delete_ctx in H. by rewrite Hq in H.
Qed.

Lemma disable_queue_ctx owner s pfn t sq tag :
  io_inv owner None s → tables s !! pfn = Some t → sq_ok sq →
  let c := length (ctxs s) in
  let i := Z.to_nat (sq - HSM_IO_QUEUE_BASE) in
  let owner' := set_owner owner c (Z.of_nat pfn) in
  ∃ s', Io.disable_io_queue pfn sq (Some c) (Io.new_ctx tag false s).2
      = (Ok (waiting (Spec.in_flight (abs owner s) [mjoin (t !! i)])), s') ∧
    io_inv owner' None s' ∧ abs owner' s' = (Spec.delete tag pfn i t (abs owner s)).2.
Proof.
  intros Hinv Ht Hsq c i owner'. set (s1 := (Io.new_ctx tag false s).2).
  pose proof (new_ctx_inv owner s tag false (Z.of_nat pfn) Hinv) as Hinv1.
  fold s1 c owner' in Hinv1.
  destruct (ioq_index_ok t sq (io_tables_len _ _ _ Hinv _ _ Ht) Hsq) as [Hidx Hi]. fold i in Hidx, Hi.
  assert (tables s1 !! pfn = Some t) as Ht1 by done.
  rewrite (disable_io_queue_one pfn sq i t c s1 Ht1 Hidx Hi)
    by (intros q Hq; by eapply slot_queue).
  destruct (disable_one_ok owner' (Some c) s1 pfn i t false Hinv1 Ht1)
    as (s2 & Hrun & Hinv2 & Hf & Ht2 & Hc2).
  { intros c' [= <-]. unfold owner', set_owner. by rewrite decide_True. }
  rewrite Hrun. exists (Io.drop_ctx (Some c) s2).
  pose proof (drop_ctx_frame (Some c) s2) as Hf3.
  pose proof (same_frame_trans _ _ _ Hf Hf3) as [He Hio Hev Hq Hcx].
  destruct (lookup_lt_is_Some_2 t i Hi) as [x Hx]. rewrite Hx in *. cbn [mjoin option_join] in *.
  split_and!.
  - cbn [orb]. do 2 f_equal. change (busy_slot s1) with (busy_slot s).
    pose proof (busy_slots_flight owner s [x]) as Hb. cbn in Hb. by rewrite orb_false_r in Hb.
  - by apply drop_held.
  - unfold abs at 1, Spec.delete. cbn [snd]. rewrite He, Hio, Hev, Hq. f_equal; [done|].
    rewrite Hx. cbn [mjoin option_join]. apply dels_record; [done| | | |].
    + by rewrite Hio.
    + rewrite Hcx. cbn [s1 Io.new_ctx snd ctxs]. by rewrite fmap_app.
    + intros q Hin%list_elem_of_singleton. subst x.
      eapply open_slot_ctx; [done|done|]. apply list_elem_of_lookup. by exists i.
    + intros q. rewrite drop_ctx_delete, Hc2. change (busy s1 q) with (busy s q).
      destruct (decide (Some x = Some (Some q))) as [[= ->]|Hne].
      * rewrite bool_decide_true by by left. done.
      * rewrite bool_decide_false; [done|]. intros Hin%list_elem_of_singleton. congruence.
Qed.

(** ** The end of an IO *)

Lemma omap_omap {A B C} (f : A → option B) (g : B → option C) (l : list A) :
  omap g (omap f l) = omap (λ x, f x ≫= g) l.
Proof.
  induction l as [|x l IH]; [done|]. cbn. destruct (f x) as [y|]; cbn; rewrite IH; done.
Qed.

Definition answers (sent : bool) (io : nat) (o : option deletion) : list io_event :=
  match o with Some d => Spec.answer sent io d | None => [] end.

Lemma concat_answers sent owner s io l :
  concat (Spec.answer sent io <$> omap (del_of owner s) l)
    = concat (answers sent io <$> (del_of owner s <$> l)).
Proof. induction l as [|c l IH]; [done|]. cbn. destruct (del_of owner s c); cbn; by rewrite IH. Qed.

Lemma concat_only {A B} (f : A → list B) (l : list A) c :
  base.NoDup l → c ∈ l → (∀ x, x ≠ c → f x = []) → concat (f <$> l) = f c.
Proof.
  intros Hnd Hc Hf. assert (∀ l', c ∉ l' → concat (f <$> l') = []) as Hnil.
  { intros l'. induction l' as [|x l' IH]; intros Hx; [done|]. cbn.
    apply not_elem_of_cons in Hx as [Hne Hx]. rewrite (Hf x), IH by done. done. }
  induction Hnd as [|x l Hx Hnd IH]; [by apply elem_of_nil in Hc|]. cbn.
  apply elem_of_cons in Hc as [<-|Hc].
  - by rewrite Hnil, app_nil_r.
  - rewrite (Hf x), IH; [done|done|]. intros ->. done.
Qed.

Lemma io_drop_abs sent owner s io :
  io_inv owner None s →
  ∃ s', Io.io_drop sent io s = (Ok tt, s') ∧ io_inv owner None s' ∧
    abs owner s' = Spec.finish sent io (abs owner s).
Proof.
  intros Hinv. unfold Spec.finish. cbn [abs a_ios a_dels a_events a_queues a_tables a_enabled].
  destruct (ios s !! io) as [[[p q]|]|] eqn:Hio.
  2,3: exists s; unfold Io.io_drop; by rewrite Hio.
  assert (io_q s io = Some q) as Hioq by (apply io_q_Some; by exists p).
  destruct (lookup_lt_is_Some_2 (queues s) q) as [r Hq]; [by eapply io_live|].
  exists (retired sent s io p q r).
  split_and!; [by eapply io_drop_exact|by eapply retire_inv|].
  set (s' := retired sent s io p q r).
  assert ((rimpl <$> ctxs s') = (rimpl <$> ctxs s)) as Hcx.
  { cbn [s' retired ctxs]. destruct (taken r); [apply fmap_alter_dec|done]. }
  assert (length (ctxs s') = length (ctxs s)) as Hlen
    by (by rewrite <- (length_fmap rimpl (ctxs s')), Hcx, length_fmap).
  unfold abs. f_equal.
  - cbn [s' retired queues]. apply length_insert.
  - unfold dels. rewrite Hlen, omap_omap. apply omap_ext_in. intros c Hc%elem_of_seq.
    unfold del_of. assert (waits s' c = filter (λ x, x ≠ io) (waits s c)) as ->
      by by eapply retire_waits.
    destruct (lookup_lt_is_Some_2 (ctxs s) c) as [rc Hrc]; [lia|].
    assert (rimpl <$> ctxs s' !! c = Some (rimpl rc)) as Hrc'
      by (by rewrite <- list_lookup_fmap, Hcx, list_lookup_fmap, Hrc).
    destruct (ctxs s' !! c) as [rc'|]; [|done]. injection Hrc' as Hrc'.
    rewrite Hrc. destruct (waits s c) as [|x l] eqn:Hw; [done|].
    cbn [mbind option_bind]. unfold Spec.leave. cbn [d_waits d_tag d_pfn d_migrate].
    rewrite Hrc'. by destruct (filter _ (x :: l)).
  - cbn [s' retired events]. f_equal. rewrite (retire_events sent owner s io p q r Hinv Hio Hq).
    unfold dels. rewrite concat_answers, <- list_fmap_compose.
    assert (∀ c, io_ctx s io ≠ Some c → answers sent io (del_of owner s c) = []) as Hother.
    { intros c Hc. unfold del_of. destruct (waits s c) as [|x l] eqn:Hw; [done|].
      destruct (ctxs s !! c); [|done]. cbn. unfold Spec.answer. cbn [d_waits].
      rewrite decide_False; [done|]. intros Hone. apply Hc. apply elem_of_waits.
      rewrite Hw, Hone. by left. }
    destruct (io_ctx s io) as [c|] eqn:Hc.
    + assert (Io.delete_ctx s q = Some c) as Hdc by (unfold io_ctx in Hc; by rewrite Hioq in Hc).
      destruct (io_ctx_busy _ _ _ Hinv _ _ Hdc) as [_ Hlt].
      rewrite (concat_only _ _ c); [|apply NoDup_seq|apply elem_of_seq; lia|].
      2:{ intros x Hx. apply Hother. congruence. }
      cbn [compose]. unfold del_of. assert (io ∈ waits s c) as Hin by by apply elem_of_waits.
      destruct (waits s c) as [|x l] eqn:Hw; [by apply elem_of_nil in Hin|].
      destruct (lookup_lt_is_Some_2 (ctxs s) c Hlt) as [rc Hrc]. rewrite Hrc. cbn.
      unfold Spec.answer. cbn [d_waits d_tag d_pfn d_migrate].
      by rewrite <- (io_pfn_ctx _ _ _ Hinv io p q c Hio Hdc).
    + assert (∀ l, concat (answers sent io ∘ del_of owner s <$> l) = []) as Hnil.
      { intros l. induction l as [|c l IH]; [done|]. cbn. by rewrite Hother, IH. }
      by rewrite Hnil.
Qed.

(** ** Every request *)

Lemma table_of owner held s pfn :
  io_inv owner held s → pfn_ok pfn →
  ∃ t, tables s !! Z.to_nat pfn = Some t ∧ length t = HSM_IO_QUEUE_SIZE.
Proof.
  intros Hinv [H1 H2]. destruct (lookup_lt_is_Some_2 (tables s) (Z.to_nat pfn)) as [t Ht].
  { rewrite (io_tables _ _ _ Hinv). lia. }
  exists t. split; [done|]. by eapply io_tables_len.
Qed.

Lemma enabled_of owner held s pfn :
  io_inv owner held s → pfn_ok pfn → ∃ b, enabled s !! Z.to_nat pfn = Some b.
Proof.
  intros Hinv [H1 H2]. apply lookup_lt_is_Some_2. rewrite (io_enabled _ _ _ Hinv). lia.
Qed.

(** [enabled] and [events] are no part of the invariant beyond a length. *)
Lemma inv_enabled owner s b pfn evs :
  io_inv owner None s → io_inv owner None (Io.emit evs (Io.set_enabled pfn b s)).
Proof. intros []. constructor; try done. cbn. by rewrite length_insert. Qed.

Lemma inv_emit owner s evs : io_inv owner None s → io_inv owner None (Io.emit evs s).
Proof. intros []. by constructor. Qed.

Lemma abs_emit owner s evs :
  abs owner (Io.emit evs s)
    = mkAState (a_queues (abs owner s)) (a_tables (abs owner s)) (a_enabled (abs owner s))
        (a_ios (abs owner s)) (a_dels (abs owner s)) (a_events (abs owner s) ++ evs).
Proof. done. Qed.

Lemma abs_set_enabled owner s pfn b :
  abs owner (Io.set_enabled pfn b s)
    = mkAState (a_queues (abs owner s)) (a_tables (abs owner s))
        (<[pfn := b]> (a_enabled (abs owner s))) (a_ios (abs owner s)) (a_dels (abs owner s))
        (a_events (abs owner s)).
Proof. done. Qed.

Lemma status_waiting w :
  (if waiting w then Io.StPending else Io.StSuccess) = Spec.status w.
Proof. by destruct w. Qed.

Definition refines (rq : io_req) (owner : nat → Z) (s : IoState) : Prop :=
  ∃ reply s' owner', io_step rq s = (Ok reply, s') ∧ io_inv owner' None s' ∧
    a_step rq (abs owner s) = (reply, abs owner' s').

Lemma pfn_refines tag info owner s :
  io_inv owner None s → pfn_ok (pf_pfn info) → refines (RqPfn tag info) owner s.
Proof.
  intros Hinv Hp. destruct (table_of owner None s _ Hinv Hp) as (t & Ht & Hlen).
  destruct (enabled_of owner None s _ Hinv Hp) as [b Hb].
  assert (Z.of_nat (Z.to_nat (pf_pfn info)) = pf_pfn info) as Hz by (destruct Hp; lia).
  unfold refines, io_step, a_step, Io.handle_pfn_enable. cbn [abs a_tables]. rewrite Ht.
  cbn [default]. set (pfn := Z.to_nat (pf_pfn info)) in *.
  destruct (decide (pf_action info = PfnEnableDisableAction_Enable)) as [_|_].
  { eexists _, (Io.set_enabled pfn true s), owner. split_and!; [| |done].
    - unfold Io.part_enable, mbind, M_bind, mret, M_ret.
      rewrite (proj2 (Nat.ltb_lt _ _)) by (by eapply lookup_lt_Some). done.
    - destruct Hinv. constructor; try done. cbn. by rewrite length_insert. }
  destruct (decide (pf_action info = PfnEnableDisableAction_Disable)) as [_|_].
  { destruct (disable_all_ctx owner s pfn t tag false Hinv Ht) as (s1 & Hrun & Hinv1 & Habs).
    eexists _, (Io.emit [EvDisable (Z.of_nat pfn)] (Io.set_enabled pfn false s1)), _.
    split_and!.
    - unfold Io.part_disable, Io.alloc_ctx, mbind, M_bind, mret, M_ret.
      change (Io.new_ctx tag false s) with (length (ctxs s), (Io.new_ctx tag false s).2).
      cbn beta iota zeta. rewrite Hrun. unfold modify. cbn beta iota zeta.
      by rewrite status_waiting.
    - apply inv_enabled, Hinv1.
    - rewrite abs_emit, abs_set_enabled, Habs. unfold Spec.disable, Spec.close_all.
      cbn [a_queues a_tables a_enabled a_ios a_dels a_events]. by rewrite app_nil_r. }
  destruct (decide (pf_action info = PfnEnableDisableAction_Migrate)) as [_|_].
  { destruct (disable_all_ctx owner s pfn t tag true Hinv Ht) as (s1 & Hrun & Hinv1 & Habs).
    set (w := Spec.in_flight (abs owner s) t) in *.
    eexists (RpStatus (Spec.status w)), (Io.emit (match w with [] => [EvEndMigrate (Z.of_nat pfn)] | _ => [] end) s1), _.
    split_and!.
    - unfold Io.alloc_ctx, mbind, M_bind, mret, M_ret.
      change (Io.new_ctx tag true s) with (length (ctxs s), (Io.new_ctx tag true s).2).
      cbn beta iota zeta. rewrite Hrun. rewrite Hz. destruct w; cbn.
      + done.
      + f_equal. unfold Io.emit. rewrite app_nil_r. by destruct s1.
    - apply inv_emit, Hinv1.
    - rewrite abs_emit, Habs. unfold Spec.migrate_fn, Spec.close_all. fold w. rewrite Hz.
      cbn [a_queues a_tables a_enabled a_ios a_dels a_events]. rewrite app_nil_r. reflexivity. }
  by eexists _, s, owner.
Qed.

(** A context that was made and not used. *)
Lemma dels_unused owner s s' tag m p :
  io_inv owner None s → ios s' = ios s →
  (rimpl <$> ctxs s') = (rimpl <$> ctxs s) ++ [mkDeleteContext tag m] →
  (∀ q, Io.delete_ctx s' q = Io.delete_ctx s q) →
  dels (set_owner owner (length (ctxs s)) p) s' = dels owner s.
Proof.
  intros Hinv Hios Hcx Hctx. rewrite (dels_record owner s s' tag m p []); try done.
  - assert (Spec.in_flight (abs owner s) [] = []) as ->; [|done].
    apply in_flight_nil. intros q Hq. by apply elem_of_nil in Hq.
  - intros q Hq. by apply elem_of_nil in Hq.
Qed.

Lemma sq_refines tag info owner s :
  io_inv owner None s → pfn_ok (sq_pfn info) → sq_ok (sq_device_sq_id info) →
  refines (RqSq tag info) owner s.
Proof.
  intros Hinv Hp Hsq. destruct (table_of owner None s _ Hinv Hp) as (t & Ht & Hlen).
  destruct (enabled_of owner None s _ Hinv Hp) as [b Hb].
  unfold refines, io_step, a_step, Io.handle_create_delete_sq, Io.part_enabled.
  cbn [abs a_tables a_enabled]. rewrite Ht, Hb. cbn [default].
  set (pfn := Z.to_nat (sq_pfn info)) in *.
  destruct (ioq_index_ok t _ Hlen Hsq) as [Hidx Hi].
  set (i := Z.to_nat (sq_device_sq_id info - HSM_IO_QUEUE_BASE)) in *.
  change (from_option id false (Some b)) with b.
  unfold mbind, M_bind, mret, M_ret, Io.alloc_ctx. rewrite Hb.
  destruct b; cbn [negb]; [|by eexists _, s, owner].
  change (Io.new_ctx tag false s) with (length (ctxs s), (Io.new_ctx tag false s).2).
  pose proof (new_ctx_inv owner s tag false (Z.of_nat pfn) Hinv) as Hinv1.
  set (c := length (ctxs s)) in *. set (s1 := (Io.new_ctx tag false s).2) in *.
  destruct (decide (sq_action info = SqAction_Create)) as [_|_].
  - unfold Io.enable_io_queue, Io.with_slot. change (tables s1) with (tables s).
    rewrite Ht, Hidx. cbn beta iota zeta. unfold Spec.create. cbn [id].
    destruct (mjoin (t !! i)) as [q|] eqn:Hslot.
    + eexists _, (Io.drop_ctx (Some c) s1), _. split_and!.
      * unfold modify. done.
      * by apply drop_held.
      * f_equal. unfold abs. rewrite (dels_unused owner s _ tag false); [done|done|done| |done].
        cbn. rewrite fmap_alter_dec. by rewrite fmap_app.
    + eexists _, _, _. split_and!.
      * unfold modify. cbn beta iota zeta. done.
      * apply drop_held, enable_inv; [done|done|].
        destruct (lookup_lt_is_Some_2 t i Hi) as [x Hx]. rewrite Hx in *. by destruct x.
      * f_equal. unfold abs. rewrite (dels_unused owner s _ tag false); [|done|done| |].
        -- cbn [Io.drop_ctx Io.on_ctx Io.set_table Io.new_queue snd queues tables enabled ios
             events a_queues a_tables a_enabled a_ios a_dels a_events].
           rewrite length_app. cbn [length]. by rewrite Nat.add_1_r.
        -- cbn. rewrite fmap_alter_dec. by rewrite fmap_app.
        -- intros q. rewrite drop_ctx_delete. unfold Io.delete_ctx. cbn.
           destruct (decide (q < length (queues s))); [by rewrite lookup_app_l|].
           rewrite (lookup_ge_None_2 (queues s)) by lia.
           destruct (decide (q = length (queues s))) as [->|]; [by rewrite list_lookup_middle|].
           rewrite lookup_ge_None_2; [done|]. rewrite length_app. cbn. lia.
  - destruct (disable_queue_ctx owner s pfn t _ tag Hinv Ht Hsq) as (s2 & Hrun & Hinv2 & Habs).
    fold c s1 i in Hrun, Habs. eexists _, s2, _. split_and!; [|exact Hinv2|].
    + rewrite Hrun. by rewrite status_waiting.
    + unfold Spec.delete in *. cbn [id snd] in *. f_equal. exact (eq_sym Habs).
Qed.

Lemma reset_refines pfn owner s :
  io_inv owner None s → pfn_ok pfn → refines (RqReset pfn) owner s.
Proof.
  intros Hinv Hp. destruct (table_of owner None s _ Hinv Hp) as (t & Ht & Hlen).
  unfold refines, io_step, a_step, Io.part_reset, Io.part_disable. cbn [abs a_tables].
  rewrite Ht. set (n := Z.to_nat pfn) in *.
  destruct (disable_all_none owner s n t Hinv Ht) as (s1 & Hrun & Hinv1 & Habs).
  exists RpDone, (Io.emit [EvReset (Z.of_nat n)]
    (Io.emit [EvDisable (Z.of_nat n)] (Io.set_enabled n false s1))), owner. split_and!.
  - unfold mbind, M_bind, mret, M_ret. rewrite Hrun. done.
  - by apply inv_emit, inv_enabled.
  - rewrite !abs_emit, abs_set_enabled, Habs. unfold Spec.reset, Spec.close_all.
    cbn [a_queues a_tables a_enabled a_ios a_dels a_events id default].
    rewrite app_nil_r, <- app_assoc. reflexivity.
Qed.

Lemma start_refines pfn sq owner s :
  io_inv owner None s → pfn_ok pfn → sq_ok sq → refines (RqStart pfn sq) owner s.
Proof.
  intros Hinv Hp Hsq. destruct (table_of owner None s _ Hinv Hp) as (t & Ht & Hlen).
  destruct (enabled_of owner None s _ Hinv Hp) as [b Hb].
  destruct (ioq_index_ok t _ Hlen Hsq) as [Hidx Hi].
  unfold refines, io_step, a_step, Io.io_start, Io.part_enabled, Io.io_queue, Io.with_slot.
  cbn [abs a_tables a_enabled a_ios]. rewrite Ht, Hb.
  change (from_option id false (Some b)) with b. change (from_option id [] (Some t)) with t.
  unfold mbind, M_bind. rewrite Hb. destruct b; cbn [negb unless]; [|by eexists _, s, owner].
  unfold mret, M_ret. rewrite Ht, Hidx.
  destruct (mjoin (t !! Z.to_nat (sq - HSM_IO_QUEUE_BASE))) as [q|] eqn:Hslot.
  - assert (slot_at s (Z.to_nat pfn) (Z.to_nat (sq - HSM_IO_QUEUE_BASE)) = Some q) as Hs
      by (unfold slot_at; by rewrite Ht).
    eexists _, (started s (Z.of_nat (Z.to_nat pfn)) q), owner. split_and!.
    + done.
    + by eapply started_inv.
    + f_equal. unfold Spec.start, abs.
      assert (dels owner (started s (Z.of_nat (Z.to_nat pfn)) q) = dels owner s) as ->.
      { apply dels_ext; [done|]. intros c. apply started_waits.
        apply (io_open_ctx _ _ _ Hinv), is_open_slot. eauto. }
      cbn [started Io.set_ios Io.on_queue queues tables enabled ios events]. by rewrite length_alter.
  - by eexists _, s, owner.
Qed.

Lemma step_refines rq owner s :
  io_inv owner None s → req_ok rq → refines rq owner s.
Proof.
  intros Hinv Hok. destruct rq as [tag info|tag info|pfn|pfn sq|sent io]; cbn in Hok.
  - by apply pfn_refines.
  - destruct Hok. by apply sq_refines.
  - by apply reset_refines.
  - destruct Hok. by apply start_refines.
  - destruct (io_drop_abs sent owner s io Hinv) as (s' & Hrun & Hinv' & Habs).
    exists RpDone, s', owner. split_and!; [|done|cbn; by rewrite Habs].
    unfold io_step, mbind, M_bind, mret, M_ret. by rewrite Hrun.
Qed.

(** ** Whole runs *)

Fixpoint io_run (rqs : list io_req) (s : IoState) : list (outcome HsmErr io_reply) * IoState :=
  match rqs with
  | [] => ([], s)
  | rq :: rqs =>
      let '(r, s) := io_step rq s in let '(rs, s) := io_run rqs s in (r :: rs, s)
  end.

Fixpoint a_run (rqs : list io_req) (a : AState) : list io_reply * AState :=
  match rqs with
  | [] => ([], a)
  | rq :: rqs => let '(r, a) := a_step rq a in let '(rs, a) := a_run rqs a in (r :: rs, a)
  end.

Definition a_init : AState :=
  mkAState 0 (replicate Pcie.MAX_PCIE_FUNCTIONS Io.default_table)
    (replicate Pcie.MAX_PCIE_FUNCTIONS false) [] [] [].

Lemma init_tables pfn t : tables Io.init !! pfn = Some t → t = Io.default_table.
Proof. intros H. by apply lookup_replicate in H as [-> _]. Qed.

Lemma init_slot pfn i : slot_at Io.init pfn i = None.
Proof.
  unfold slot_at. destruct (tables Io.init !! pfn) as [t|] eqn:Ht; [|done].
  apply init_tables in Ht as ->. cbn [mbind option_bind].
  destruct (Io.default_table !! i) as [x|] eqn:Hx; [|done].
  by apply lookup_replicate in Hx as [-> _].
Qed.

Lemma init_inv : io_inv (λ _, 0%Z) None Io.init.
Proof.
  constructor; try done.
  - intros pfn t Ht%init_tables. by subst t.
  - intros pfn i pfn' i' q Hs. by rewrite init_slot in Hs.
  - intros pfn i q Hs. by rewrite init_slot in Hs.
Qed.

Lemma run_refines rqs owner s :
  io_inv owner None s → Forall req_ok rqs →
  ∃ owner' s', io_run rqs s = (Ok <$> (a_run rqs (abs owner s)).1, s') ∧
    io_inv owner' None s' ∧ abs owner' s' = (a_run rqs (abs owner s)).2.
Proof.
  intros Hinv Hok. revert owner s Hinv.
  induction Hok as [|rq rqs Hrq Hok IH]; intros owner s Hinv; [by exists owner, s|].
  destruct (step_refines rq owner s Hinv Hrq) as (rp & s1 & owner1 & Hrun & Hinv1 & Ha).
  cbn [io_run a_run]. rewrite Hrun, Ha.
  destruct (IH owner1 s1 Hinv1) as (owner2 & s2 & Hrun2 & Hinv2 & Habs2).
  exists owner2, s2. rewrite Hrun2. by destruct (a_run rqs (abs owner1 s1)).
Qed.

(** A message for a queue of the fast path.  [IpcMessageCreateDeleteSq::validate]
    admits every device queue id up to 129, but the queue manager subtracts 65
    from it. *)
Lemma low_queue_step owner s tag info :
  io_inv owner None s → pfn_ok (sq_pfn info) → (sq_device_sq_id info < HSM_IO_QUEUE_BASE)%Z →
  (io_step (RqSq tag info) s).1 =
    if default false (enabled s !! Z.to_nat (sq_pfn info)) then Panic
    else Ok (RpStatus Io.StFunctionNotEnabled).
Proof.
  intros Hinv Hp Hsq. destruct (table_of owner None s _ Hinv Hp) as (t & Ht & Hlen).
  destruct (enabled_of owner None s _ Hinv Hp) as [b Hb].
  unfold io_step, Io.handle_create_delete_sq, Io.part_enabled, Io.alloc_ctx, mbind, M_bind.
  rewrite Hb. cbn [default]. destruct b; [|done]. cbn [negb].
  assert (Io.ioq_index t (sq_device_sq_id info) = None) as Hidx.
  { unfold Io.ioq_index. by rewrite (proj2 (Z.ltb_lt _ _)). }
  change (Io.new_ctx tag false s) with (length (ctxs s), (Io.new_ctx tag false s).2).
  cbn beta iota zeta.
  destruct (decide (sq_action info = SqAction_Create));
    unfold Io.enable_io_queue, Io.disable_io_queue, Io.with_slot;
    cbn [tables Io.new_ctx snd]; by rewrite Ht, Hidx.
Qed.

(** C26: deferred deletion is exact.  Take any sequence of requests to create
    and delete submission queues of the HSM core (device queues 65 to 129), to
    enable, disable, migrate and reset functions of the device, and of IOs
    started and ended, in any order.  The code answers every request and
    performs every state change and notification as the machine without
    reference counts: a request that closes queues is answered [Pending]
    exactly when IOs are in flight on them, and then exactly one response with
    its tag and function is given to the pipe to the admin core (after ending
    the migration, for a migration), when the last of those IOs ends, and not
    before; it is lost exactly when the pipe refuses it.  A request for a
    queue 0 to 64, which the validation of the message admits, panics exactly
    when the function is enabled. *)
Theorem deferred_deletion_exact rqs :
  Forall req_ok rqs →
  (io_run rqs Io.init).1 = Ok <$> (a_run rqs a_init).1 ∧
  events (io_run rqs Io.init).2 = a_events (a_run rqs a_init).2 ∧
  ∀ tag info, pfn_ok (sq_pfn info) → (sq_device_sq_id info < HSM_IO_QUEUE_BASE)%Z →
    (io_step (RqSq tag info) (io_run rqs Io.init).2).1 =
      if default false (a_enabled (a_run rqs a_init).2 !! Z.to_nat (sq_pfn info)) then Panic
      else Ok (RpStatus Io.StFunctionNotEnabled).
Proof.
  intros Hok. destruct (run_refines rqs _ _ init_inv Hok) as (owner & s & Hrun & Hinv & Habs).
  change (abs (λ _, 0%Z) Io.init) with a_init in *.
  rewrite Hrun, <- Habs. split_and!; [done..|]. intros tag info. by apply low_queue_step with owner.
Qed.

(** ** Witnesses *)

(** Function 3 with one queue and two IOs: the deletion waits for both; a
    migration of a function with no IO ends at once. *)
Definition sample_run : list io_req :=
  [RqPfn 1 (mkPfnInfo 3 PfnEnableDisableAction_Enable);
   RqSq 2 (mkSqInfo 3 70 70 SqAction_Create);
   RqStart 3 70; RqStart 3 70; RqStart 3 71;
   RqSq 7 (mkSqInfo 3 70 70 SqAction_Delete);
   RqDrop true 0; RqDrop true 1;
   RqPfn 8 (mkPfnInfo 3 PfnEnableDisableAction_Migrate);
   RqPfn 9 (mkPfnInfo 3 PfnEnableDisableAction_Disable)].

Lemma deferred_deletion_exact_witness :
  (io_run sample_run Io.init).1
    = Ok <$> [RpStatus Io.StSuccess; RpStatus Io.StSuccess; RpIo (Ok 0); RpIo (Ok 1);
              RpIo (Err QueueNotEnabled); RpStatus Io.StPending; RpDone; RpDone;
              RpStatus Io.StSuccess; RpStatus Io.StSuccess] ∧
  events (io_run sample_run Io.init).2
    = [EvQueueDeleteResponse 7 3 true; EvEndMigrate 3; EvDisable 3] ∧
  (io_step (RqSq 2 (mkSqInfo 3 10 10 SqAction_Create)) (io_run (take 1 sample_run) Io.init).2).1 = Panic.
Proof.
  destruct (deferred_deletion_exact sample_run) as (H1 & H2 & _).
  { repeat (apply Forall_cons; [vm_compute; repeat split; discriminate|]). apply Forall_nil. }
  destruct (deferred_deletion_exact (take 1 sample_run)) as (_ & _ & H3).
  { repeat (apply Forall_cons; [vm_compute; repeat split; discriminate|]). apply Forall_nil. }
  rewrite H1, H2. split; [vm_compute; reflexivity|]. split; [vm_compute; reflexivity|].
  rewrite (H3 2%Z (mkSqInfo 3 10 10 SqAction_Create)); [vm_compute; reflexivity|..];
    vm_compute; repeat split; discriminate.
Defined.
