(* ===== verification/Partition.v ===== *)
(** * The partition (hsm/src/partition/state.rs, part.rs, session/app_sess/mod.rs)

    One partition per PCIe function: the volatile state, the persistent store
    that survives a reset of the core, the data store written before a
    firmware update, and, shared with the other partitions, the vault memory
    and the bulk-key metadata, of which it sees the tables of its resource
    mask.  The IO queues of the partition are in IoQueues.v. *)

From stdpp Require Import base list numbers option.
From S2P Require Import Prelude HsmError KeyEntry Crates KeyTable KeyStore StoreInterface VaultKeys KeyVault.
From S2P Require Import SessionTable PinPolicy CdmaVault CmdResource.

(** ** The stores (types/src/hsm.rs) *)

Inductive UnwrappingKeyValidity : Set := Empty | PendingPct | PctPassed.
Definition validity_u8 (v : UnwrappingKeyValidity) : Z :=
  match v with Empty => 0 | PendingPct => 1 | PctPassed => 2 end.

Record PartitionIdentifier : Set := mkPartitionIdentifier {
  pid_id : list Z; (* [u8; 16] *)
  pid_priv_key : list Z; (* [u8; 48] *)
  pid_pub_key : list Z (* [u8; 97] *)
}.

(** [PartitionCert], [MaskedBkBoot] and [SealedBk3]: a length and a buffer. *)
Record LenBuf : Set := mkLenBuf { lb_len : Z (* u32 *); lb_data : list Z }.

Record Bk3SessionKey : Set := mkBk3 { bk3_is_valid : bool; bk3_key : list Z (* [u8; 48] *) }.

Record HsmPartPersistentStore : Set := mkPersistent {
  session_table : HsmPartSessionTable; (* the 18 bytes of the table *)
  unwrapping_key_required : bool;
  unwrapping_key_bk_valid : Z; (* u8 *)
  unwrapping_key_bk : list Z; (* [u8; 516] *)
  pin_policy : Pin.PinPolicy;
  vm_launch_guid : list Z; (* [u8; 16] *)
  partition_id_valid : bool;
  partition_identifier : PartitionIdentifier;
  partition_cert_valid : bool;
  partition_cert : LenBuf; (* MAX_PART_CERT_LENGTH bytes *)
  masked_bk_boot : LenBuf; (* MASKED_BK_BOOT_SIZE bytes *)
  sealed_bk3 : LenBuf; (* SEALED_BK3_SIZE bytes *)
  nonce : list Z; (* [u8; 32] *)
  bk3_session_key : Bk3SessionKey
}.

(** [PartStore]: what [store_data] keeps over a firmware update. *)
Record PartStore : Set := mkPartStore {
  st_unwrapping_key_id : option Z;
  st_establish_cred_encryption_key_id : option Z;
  st_session_encryption_key_id : option Z;
  st_masking_key : option Z;
  st_user_cred : Cred.UserCredential;
  st_enabled : bool
}.

(** ** [PartStateImpl] *)

Record GetCertChainLengthsInfo : Set := mkCertChain {
  num_certs : Z; (* u8 *)
  cert_lengths : list Z
}.

Record PartStateImpl : Set := mkPartState {
  pfn : Z;
  part_enabled : bool;
  rgs : Z; (* ResourceGroups, u128 *)
  cred_mgr : Cred.UserCredential;
  unwrapping_key_id : option Z;
  establish_cred_encryption_key_id : option Z;
  session_encryption_key_id : option Z;
  cert_chain_len_info : option GetCertChainLengthsInfo;
  masking_key : option Z
}.

(** Everything the operations of a partition reach.  [rng_draws] counts the
    calls of the random number generator, [pka_ctxs] are the contexts of the
    PKA engines, [now] the values its time stamp counter reads next. *)
Record World : Set := mkWorld {
  part : PartStateImpl;
  pstore : HsmPartPersistentStore;
  data_store : PartStore;
  vault_mem : memory;
  cdma_meta : Cdma.metadata;
  rng_draws : nat;
  pka_ctxs : list (option Z)
}.

Definition with_part (f : PartStateImpl → PartStateImpl) (w : World) : World :=
  mkWorld (f (part w)) (pstore w) (data_store w) (vault_mem w) (cdma_meta w) (rng_draws w)
    (pka_ctxs w).
Definition with_pstore (f : HsmPartPersistentStore → HsmPartPersistentStore) (w : World) : World :=
  mkWorld (part w) (f (pstore w)) (data_store w) (vault_mem w) (cdma_meta w) (rng_draws w)
    (pka_ctxs w).
Definition with_data_store (d : PartStore) (w : World) : World :=
  mkWorld (part w) (pstore w) d (vault_mem w) (cdma_meta w) (rng_draws w) (pka_ctxs w).
Definition with_vault (m : memory) (w : World) : World :=
  mkWorld (part w) (pstore w) (data_store w) m (cdma_meta w) (rng_draws w) (pka_ctxs w).
Definition with_cdma (m : Cdma.metadata) (w : World) : World :=
  mkWorld (part w) (pstore w) (data_store w) (vault_mem w) m (rng_draws w) (pka_ctxs w).
Definition next_draw (w : World) : World :=
  mkWorld (part w) (pstore w) (data_store w) (vault_mem w) (cdma_meta w) (S (rng_draws w))
    (pka_ctxs w).

(** ** Field updates *)

Module PS.
Definition set_enabled b p := mkPartState (pfn p) b (rgs p) (cred_mgr p) (unwrapping_key_id p)
  (establish_cred_encryption_key_id p) (session_encryption_key_id p) (cert_chain_len_info p)
  (masking_key p).
Definition set_rgs m p := mkPartState (pfn p) (part_enabled p) m (cred_mgr p)
  (unwrapping_key_id p) (establish_cred_encryption_key_id p) (session_encryption_key_id p)
  (cert_chain_len_info p) (masking_key p).
Definition set_cred_mgr c p := mkPartState (pfn p) (part_enabled p) (rgs p) c
  (unwrapping_key_id p) (establish_cred_encryption_key_id p) (session_encryption_key_id p)
  (cert_chain_len_info p) (masking_key p).
Definition set_unwrapping_key_id k p := mkPartState (pfn p) (part_enabled p) (rgs p) (cred_mgr p) k
  (establish_cred_encryption_key_id p) (session_encryption_key_id p) (cert_chain_len_info p)
  (masking_key p).
Definition set_establish_cred_encryption_key_id k p := mkPartState (pfn p) (part_enabled p) (rgs p)
  (cred_mgr p) (unwrapping_key_id p) k (session_encryption_key_id p) (cert_chain_len_info p)
  (masking_key p).
Definition set_session_encryption_key_id k p := mkPartState (pfn p) (part_enabled p) (rgs p)
  (cred_mgr p) (unwrapping_key_id p) (establish_cred_encryption_key_id p) k
  (cert_chain_len_info p) (masking_key p).
Definition set_cert_chain_lengths_info i p := mkPartState (pfn p) (part_enabled p) (rgs p)
  (cred_mgr p) (unwrapping_key_id p) (establish_cred_encryption_key_id p)
  (session_encryption_key_id p) i (masking_key p).
Definition set_partition_mk_id k p := mkPartState (pfn p) (part_enabled p) (rgs p) (cred_mgr p)
  (unwrapping_key_id p) (establish_cred_encryption_key_id p) (session_encryption_key_id p)
  (cert_chain_len_info p) k.
End PS.

Module Per.
Definition set_session_table x s := mkPersistent x (unwrapping_key_required s)
  (unwrapping_key_bk_valid s) (unwrapping_key_bk s) (pin_policy s) (vm_launch_guid s)
  (partition_id_valid s) (partition_identifier s) (partition_cert_valid s) (partition_cert s)
  (masked_bk_boot s) (sealed_bk3 s) (nonce s) (bk3_session_key s).
Definition set_unwrapping_key_required x s := mkPersistent (session_table s) x
  (unwrapping_key_bk_valid s) (unwrapping_key_bk s) (pin_policy s) (vm_launch_guid s)
  (partition_id_valid s) (partition_identifier s) (partition_cert_valid s) (partition_cert s)
  (masked_bk_boot s) (sealed_bk3 s) (nonce s) (bk3_session_key s).
Definition set_unwrapping_key x v s := mkPersistent (session_table s) (unwrapping_key_required s)
  v x (pin_policy s) (vm_launch_guid s)
  (partition_id_valid s) (partition_identifier s) (partition_cert_valid s) (partition_cert s)
  (masked_bk_boot s) (sealed_bk3 s) (nonce s) (bk3_session_key s).
Definition set_pin_policy x s := mkPersistent (session_table s) (unwrapping_key_required s)
  (unwrapping_key_bk_valid s) (unwrapping_key_bk s) x (vm_launch_guid s)
  (partition_id_valid s) (partition_identifier s) (partition_cert_valid s) (partition_cert s)
  (masked_bk_boot s) (sealed_bk3 s) (nonce s) (bk3_session_key s).
Definition set_vm_launch_guid x s := mkPersistent (session_table s) (unwrapping_key_required s)
  (unwrapping_key_bk_valid s) (unwrapping_key_bk s) (pin_policy s) x
  (partition_id_valid s) (partition_identifier s) (partition_cert_valid s) (partition_cert s)
  (masked_bk_boot s) (sealed_bk3 s) (nonce s) (bk3_session_key s).
Definition set_partition_id_valid x s := mkPersistent (session_table s) (unwrapping_key_required s)
  (unwrapping_key_bk_valid s) (unwrapping_key_bk s) (pin_policy s) (vm_launch_guid s)
  x (partition_identifier s) (partition_cert_valid s) (partition_cert s)
  (masked_bk_boot s) (sealed_bk3 s) (nonce s) (bk3_session_key s).
Definition set_partition_identifier x s := mkPersistent (session_table s)
  (unwrapping_key_required s) (unwrapping_key_bk_valid s) (unwrapping_key_bk s) (pin_policy s)
  (vm_launch_guid s) (partition_id_valid s) x (partition_cert_valid s) (partition_cert s)
  (masked_bk_boot s) (sealed_bk3 s) (nonce s) (bk3_session_key s).
Definition set_partition_cert_valid x s := mkPersistent (session_table s)
  (unwrapping_key_required s) (unwrapping_key_bk_valid s) (unwrapping_key_bk s) (pin_policy s)
  (vm_launch_guid s) (partition_id_valid s) (partition_identifier s) x (partition_cert s)
  (masked_bk_boot s) (sealed_bk3 s) (nonce s) (bk3_session_key s).
Definition set_partition_cert x s := mkPersistent (session_table s) (unwrapping_key_required s)
  (unwrapping_key_bk_valid s) (unwrapping_key_bk s) (pin_policy s) (vm_launch_guid s)
  (partition_id_valid s) (partition_identifier s) (partition_cert_valid s) x
  (masked_bk_boot s) (sealed_bk3 s) (nonce s) (bk3_session_key s).
Definition set_masked_bk_boot x s := mkPersistent (session_table s) (unwrapping_key_required s)
  (unwrapping_key_bk_valid s) (unwrapping_key_bk s) (pin_policy s) (vm_launch_guid s)
  (partition_id_valid s) (partition_identifier s) (partition_cert_valid s) (partition_cert s)
  x (sealed_bk3 s) (nonce s) (bk3_session_key s).
Definition set_sealed_bk3 x s := mkPersistent (session_table s) (unwrapping_key_required s)
  (unwrapping_key_bk_valid s) (unwrapping_key_bk s) (pin_policy s) (vm_launch_guid s)
  (partition_id_valid s) (partition_identifier s) (partition_cert_valid s) (partition_cert s)
  (masked_bk_boot s) x (nonce s) (bk3_session_key s).
Definition set_nonce x s := mkPersistent (session_table s) (unwrapping_key_required s)
  (unwrapping_key_bk_valid s) (unwrapping_key_bk s) (pin_policy s) (vm_launch_guid s)
  (partition_id_valid s) (partition_identifier s) (partition_cert_valid s) (partition_cert s)
  (masked_bk_boot s) (sealed_bk3 s) x (bk3_session_key s).
Definition set_bk3_session_key x s := mkPersistent (session_table s) (unwrapping_key_required s)
  (unwrapping_key_bk_valid s) (unwrapping_key_bk s) (pin_policy s) (vm_launch_guid s)
  (partition_id_valid s) (partition_identifier s) (partition_cert_valid s) (partition_cert s)
  (masked_bk_boot s) (sealed_bk3 s) (nonce s) x.
End Per.

(** [rng().bytes(&mut [u8; n])]: the bytes of the [k]-th call.  The
    generator is hardware. *)
Class Rng := {
  rng_bytes : nat → nat → list Z;
  length_rng_bytes k n : length (rng_bytes k n) = n
}.

Definition APP_VAULT_ID_FOR_INTERNAL_KEYS : Z := 255.
Definition MAX_PART_CERT_LENGTH : Z := 800.
Definition MASKED_BK_BOOT_SIZE : nat := 300.
Definition SEALED_BK3_SIZE : nat := 512.

(** ** [PartState] (state.rs) *)

Module State.
Section state.
Context `{ZC : Zerocopy, ZZ : Zeroize, BC : BitCrate, RNG : Rng}.
(** [env().cdma_vault_addr()] *)
Variable cdma_vault_addr : Z.

(** [vault()] and [cdma_vault()]: the shared memory through the mask. *)
Definition vault (w : World) : KeyStoreI memory := key_store_ops (mkKeyStoreImpl (rgs (part w))).

Definition on_vault {A} (f : KeyStoreI memory → M memory HsmErr A) : M World HsmErr A := λ w,
  let '(r, m) := f (vault w) (vault_mem w) in (r, with_vault m w).

Definition cdma_vault (w : World) : Cdma.CdmaKeyVault :=
  Cdma.mkCdma cdma_vault_addr (rgs (part w)).

Definition on_cdma {A} (f : Cdma.CdmaKeyVault → M Cdma.metadata HsmErr A) : M World HsmErr A := λ w,
  let '(r, m) := f (cdma_vault w) (cdma_meta w) in (r, with_cdma m w).

Definition on_sessions {A} (f : M HsmPartSessionTable HsmErr A) : M World HsmErr A := λ w,
  let '(r, t) := f (session_table (pstore w)) in (r, with_pstore (Per.set_session_table t) w).

Definition on_cred {A} (f : M Cred.UserCredential HsmErr A) : M World HsmErr A := λ w,
  let '(r, c) := f (cred_mgr (part w)) in (r, with_part (PS.set_cred_mgr c) w).

Definition new (p : Z) : PartStateImpl :=
  mkPartState p false 0 Cred.default None None None None None.

Definition enable : M World HsmErr () := modify (with_part (PS.set_enabled true)).

Definition reset_nonce : M World HsmErr () :=
  modify (λ w, next_draw (with_pstore (Per.set_nonce (rng_bytes (rng_draws w) 32)) w)).

(** [session_table().restore(session_table().backup())] *)
Definition reserve_sessions : M World HsmErr () :=
  on_sessions (modify (λ t, Sessions.restore (Sessions.backup t) t)).

Definition clear_cred : M World HsmErr () := on_cred (modify Cred.clear).

Definition disable : M World HsmErr () :=
  _ ← modify (with_part (PS.set_enabled false));
  _ ← clear_cred;
  _ ← modify (with_part (PS.set_unwrapping_key_id None));
  _ ← modify (with_part (PS.set_establish_cred_encryption_key_id None));
  _ ← modify (with_part (PS.set_session_encryption_key_id None));
  _ ← reset_nonce;
  _ ← reserve_sessions;
  _ ← on_vault (λ I, modify Vault.clear);
  _ ← on_cdma Cdma.clear;
  _ ← modify (with_pstore (Per.set_pin_policy Pin.default));
  modify (with_part (PS.set_partition_mk_id None)).

Definition clear_bk3_session : HsmPartPersistentStore → HsmPartPersistentStore := λ s,
  Per.set_bk3_session_key (mkBk3 false (zeroize (bk3_key (bk3_session_key s)))) s.

Definition migrate : M World HsmErr () :=
  _ ← clear_cred;
  _ ← modify (with_part (PS.set_unwrapping_key_id None));
  _ ← modify (with_pstore clear_bk3_session);
  _ ← modify (with_pstore (Per.set_pin_policy Pin.default));
  _ ← modify (with_part (PS.set_establish_cred_encryption_key_id None));
  _ ← modify (with_part (PS.set_session_encryption_key_id None));
  _ ← reset_nonce;
  _ ← reserve_sessions;
  _ ← on_vault (λ I, modify Vault.clear);
  _ ← on_cdma Cdma.clear;
  modify (with_part (PS.set_partition_mk_id None)).

Definition clear_lenbuf (b : LenBuf) : LenBuf := mkLenBuf 0 (zeroize (lb_data b)).

Definition clear_store (s : HsmPartPersistentStore) : HsmPartPersistentStore :=
  let s := Per.set_vm_launch_guid (replicate 16 0%Z) s in
  let s := Per.set_partition_id_valid false s in
  let s := Per.set_partition_cert_valid false s in
  let s := Per.set_partition_cert (clear_lenbuf (partition_cert s)) s in
  let i := partition_identifier s in
  let s := Per.set_partition_identifier
             (mkPartitionIdentifier (zeroize (pid_id i)) (zeroize (pid_priv_key i))
                (zeroize (pid_pub_key i))) s in
  let s := Per.set_unwrapping_key_required false s in
  let s := Per.set_unwrapping_key (zeroize (unwrapping_key_bk s)) (validity_u8 Empty) s in
  let s := Per.set_masked_bk_boot (clear_lenbuf (masked_bk_boot s)) s in
  let s := Per.set_sealed_bk3 (clear_lenbuf (sealed_bk3 s)) s in
  clear_bk3_session s.

Definition clear_partition_info : M World HsmErr () :=
  _ ← modify (with_pstore clear_store);
  _ ← modify (with_part (PS.set_cert_chain_lengths_info None));
  _ ← on_sessions (modify (Sessions.restore 0));
  modify (with_part (PS.set_partition_mk_id None)).

Definition rgs_reset : M World HsmErr () := modify (with_part (PS.set_rgs 0)).

(** *** The persistent fields *)

Definition set_vm_launch_guid (guid : list Z) : M World HsmErr () := λ w,
  match copy_from_slice (vm_launch_guid (pstore w)) 0 16 guid with
  | Ok g => (Ok tt, with_pstore (Per.set_vm_launch_guid g) w)
  | Err e => (Err e, w)
  | Panic => (Panic, w)
  end.

Definition on_identifier (f : PartitionIdentifier → outcome HsmErr PartitionIdentifier) :
    M World HsmErr () := λ w,
  match f (partition_identifier (pstore w)) with
  | Ok i => (Ok tt, with_pstore (Per.set_partition_identifier i) w)
  | Err e => (Err e, w)
  | Panic => (Panic, w)
  end.

Definition set_partition_id (id : list Z) : M World HsmErr () :=
  on_identifier (λ i, x ← copy_from_slice (pid_id i) 0 16 id;
                      Ok (mkPartitionIdentifier x (pid_priv_key i) (pid_pub_key i))).
Definition set_partition_id_priv_key (key : list Z) : M World HsmErr () :=
  on_identifier (λ i, x ← copy_from_slice (pid_priv_key i) 0 48 key;
                      Ok (mkPartitionIdentifier (pid_id i) x (pid_pub_key i))).
Definition set_partition_id_pub_key (key : list Z) : M World HsmErr () :=
  on_identifier (λ i, x ← copy_from_slice (pid_pub_key i) 0 1 [4%Z];
                      x ← copy_from_slice x 1 96 key;
                      Ok (mkPartitionIdentifier (pid_id i) (pid_priv_key i) x)).

(** [get_partition_cert]: the bytes of the range. *)
Definition get_partition_cert (w : World) : outcome HsmErr (list Z) :=
  slice (lb_data (partition_cert (pstore w))) 0 (Z.to_nat (lb_len (partition_cert (pstore w)))).

Definition set_partition_cert_length (length : Z) : M World HsmErr () :=
  _ ← unless (negb (MAX_PART_CERT_LENGTH <? length)%Z) PartitionCertTooLarge;
  modify (with_pstore (λ s, Per.set_partition_cert
                              (mkLenBuf length (lb_data (partition_cert s))) s)).

Definition masked_bk_boot_range (w : World) : outcome HsmErr (list Z) :=
  slice (lb_data (masked_bk_boot (pstore w))) 0 MASKED_BK_BOOT_SIZE.
Definition sealed_bk3_range (w : World) : outcome HsmErr (list Z) :=
  slice (lb_data (sealed_bk3 (pstore w))) 0 SEALED_BK3_SIZE.

Definition get_bk3_session (w : World) : option (list Z) :=
  if bk3_is_valid (bk3_session_key (pstore w)) then Some (bk3_key (bk3_session_key (pstore w)))
  else None.

Definition set_bk3_session (bk3_session : list Z) : M World HsmErr () := λ w,
  match copy_from_slice (bk3_key (bk3_session_key (pstore w))) 0 48 bk3_session with
  | Ok k => (Ok tt, with_pstore (Per.set_bk3_session_key (mkBk3 true k)) w)
  | Err e => (Err e, w)
  | Panic => (Panic, w)
  end.

Definition is_partition_provisioned (w : World) : bool :=
  bool_decide (is_Some (masking_key (part w))).

(** *** Saving and restoring *)

Definition store_data : M World HsmErr () := modify (λ w,
  let p := part w in
  with_data_store
    (mkPartStore (unwrapping_key_id p) (establish_cred_encryption_key_id p)
       (session_encryption_key_id p) (masking_key p) (cred_mgr p) (part_enabled p)) w).

(** [restore_res_mask]: the resources of the function in the resource table
    of the admin core, given as the function of each. *)
Definition res_mask (p : Z) (resource : list (option Z)) : Z :=
  foldl (λ m '(i, r), if decide (r = Some p) then Z.lor m (Z.shiftl 1 (Z.of_nat i)) else m) 0%Z
    (imap (λ i r, (i, r)) resource).

Definition restore_res_mask (resource : list (option Z)) : M World HsmErr () := λ w,
  let mask := res_mask (pfn (part w)) resource in
  let w := with_part (PS.set_rgs mask) w in
  (Ok tt, if (mask =? 0)%Z then w
          else with_pstore (Per.set_unwrapping_key_required true) w).

(** [PartState::restore], up to the IO queues. *)
Definition restore (p : Z) (resource : list (option Z)) : M World HsmErr () :=
  w ← get;
  let part_store := data_store w in
  _ ← modify (with_part (λ _, new p));
  _ ← modify (with_part (PS.set_enabled (st_enabled part_store)));
  _ ← modify (with_part (PS.set_unwrapping_key_id (st_unwrapping_key_id part_store)));
  _ ← modify (with_part (PS.set_establish_cred_encryption_key_id
                           (st_establish_cred_encryption_key_id part_store)));
  _ ← modify (with_part (PS.set_partition_mk_id (st_masking_key part_store)));
  _ ← modify (with_part (PS.set_session_encryption_key_id
                           (st_session_encryption_key_id part_store)));
  _ ← restore_res_mask resource;
  _ ← on_cred (modify (Cred.restore_user_cred (st_user_cred part_store)));
  modify (with_pstore (Per.set_partition_cert_valid false)).

Definition new_with_resource_table (p : Z) (resource : list (option Z)) : M World HsmErr () :=
  _ ← modify (with_part (λ _, new p));
  restore_res_mask resource.

End state.
End State.

(** ** [Partition] (part.rs) *)

(** [DdiApiRev] and [UserSession]. *)
Record DdiApiRev : Set := mkApiRev { rev_major : Z; rev_minor : Z (* u32 *) }.
Record UserSession : Set := mkUserSession { us_id : nat (* u16 *); us_api_rev : DdiApiRev }.

Module Part.
Section part.
Context `{ZC : Zerocopy, ZZ : Zeroize, BC : BitCrate, RNG : Rng}.
Variable cdma_vault_addr : Z.

#[local] Abbreviation on_vault := State.on_vault.
#[local] Abbreviation on_cdma := (State.on_cdma cdma_vault_addr).

Definition vault_id (w : World) : Z := Cred.get_user_vault_id (cred_mgr (part w)).

(** [pka_engine().find_ctx(|c| Some(id) == *c).is_some()] *)
Definition key_in_use (w : World) (id : Z) : bool :=
  bool_decide (is_Some (List.find (λ c, bool_decide (Some id = c)) (pka_ctxs w))).

(** *** Session keys *)

(** The keys of a session in the order the store visits them: by table, by
    entry. *)
Definition session_keys (w : World) (id : nat) : list Z :=
  filter (λ k, match Store.get_entry (mkKeyStoreImpl (rgs (part w))) (vault_mem w) k true with
               | Ok entry => Table.session_only_of (Z.of_nat id) entry
               | _ => false
               end = true)
    (t ← seq 0 MAX_TABLE_COUNT; e ← seq 0 MAX_TABLE_ENTRY_COUNT;
     [KeyNumber_new (Z.of_nat t) (Z.of_nat e)]).

Definition free_bulk (w : World) (cdma_key_id : Z) : M Cdma.metadata HsmErr bool := λ meta,
  match Cdma.delete_key (State.cdma_vault cdma_vault_addr w) cdma_key_id meta with
  | (Ok _, meta) => (Ok false, meta)
  | (Err _, meta) => (Ok true, meta)
  | (Panic, meta) => (Panic, meta)
  end.

(** The callback of [delete_session_keys] on one key: whether it may not be
    deleted; the slot of a bulk key is freed on the way. *)
Definition refuse (w : World) (k : Z) : M Cdma.metadata HsmErr bool :=
  let I := State.vault w in
  match VKey.kind (I := I) (vault_mem w) (Vault.key_unchecked k) with
  | Panic => lift Panic
  | Err _ => mret true
  | Ok kind =>
      if negb (is_bulk_key kind) then mret (key_in_use w k)
      else match VKey.blob (I := I) (vault_mem w) (Vault.key_unchecked k) with
           | Panic => lift Panic
           | Err _ => mret true
           | Ok blob =>
               b ← lift (slice blob 0 2);
               free_bulk w (from_le_bytes b)
           end
  end.

(** The callback on the keys of the session, one after the other: the
    refused ones. *)
Fixpoint refused (w : World) (keys : list Z) : M Cdma.metadata HsmErr (list Z) :=
  match keys with
  | [] => mret []
  | k :: keys =>
      r ← refuse w k;
      l ← refused w keys;
      mret (if r : bool then k :: l else l)
  end.

(** [delete_session_keys].  The store calls the callback once for each key of
    the session, just before it removes that key and no earlier one; a
    callback reads only its own key and the bulk-key metadata, so its answers
    and effects are those of the calls made one after the other on the memory
    before the removals. *)
Definition delete_session_keys (id : nat) : M World HsmErr () :=
  w ← get;
  l ← on_cdma (λ _, refused w (session_keys w id));
  on_vault (λ I, Vault.delete_all_session_keys (Z.of_nat id) (λ k, bool_decide (k ∈ l))).

(** *** Sessions *)

Definition delete_user_session (id : nat) : M World HsmErr () :=
  State.on_sessions (Sessions.delete id).

Definition flush_session (id : nat) : M World HsmErr () := delete_user_session id.

Definition needs_renegotiation (w : World) (id : nat) : bool :=
  Sessions.needs_renegotiation (session_table (pstore w)) id.

(** Deleting the vault key of a session. *)
Definition delete_session_key (id : nat) : M World HsmErr () :=
  w ← get;
  target ← lift (Sessions.get_target_session (session_table (pstore w)) id);
  on_vault (λ I, Vault.delete_key (vault_id w) KEY_TAG_UNASSIGNED target (key_in_use w)).

Definition rollback_open_session (id : nat) (is_reopen : bool) : M World HsmErr () :=
  _ ← delete_session_key id;
  if is_reopen then State.on_sessions (Sessions.rollback_recreation id)
  else State.on_sessions (Sessions.delete id).

Definition close_user_session (id : nat) : M World HsmErr () :=
  _ ← delete_session_keys id;
  _ ← delete_session_key id;
  delete_user_session id.

Definition user_session (w : World) (id : nat) (allow_disabled : bool) :
    outcome HsmErr UserSession :=
  let I := State.vault w in
  key_id ← Sessions.get_target_session (session_table (pstore w)) id;
  key ← Vault.open_session_key (I := I) (vault_mem w) (vault_id w) key_id allow_disabled;
  key_blob ← SessionK.session_key_blob (I := I) (vault_mem w) key;
  major ← slice key_blob 0 4;
  minor ← slice key_blob 4 (length key_blob - 4);
  minor ← copy_from_slice (replicate 4 0%Z) 0 4 minor;
  Ok (mkUserSession id (mkApiRev (from_le_bytes major) (from_le_bytes minor))).

(** *** The state of the function *)

Definition enable : M World HsmErr () := State.enable.
(** [disable], [begin_migrate] also close the IO queues: IoQueues.v. *)
Definition disable : M World HsmErr () := State.disable cdma_vault_addr.
Definition end_migrate : M World HsmErr () := State.migrate cdma_vault_addr.

Definition reset : M World HsmErr () :=
  _ ← disable;
  _ ← modify (with_pstore (Per.set_vm_launch_guid (replicate 16 0%Z)));
  _ ← State.rgs_reset;
  State.clear_partition_info.

Definition set_resource_mask (mask : Z) : M World HsmErr () := modify (with_part (PS.set_rgs mask)).

(** *** The unwrapping key *)

Definition delete_internal_key (key_id : Z) : M World HsmErr () :=
  w ← get;
  on_vault (λ I, Vault.delete_key APP_VAULT_ID_FOR_INTERNAL_KEYS KEY_TAG_UNASSIGNED key_id
                   (key_in_use w)).

Definition clear_unwrapping_key : M World HsmErr () :=
  w ← get;
  _ ← match unwrapping_key_id (part w) with
      | Some id =>
          on_vault (λ I, Vault.delete_key APP_VAULT_ID_FOR_INTERNAL_KEYS 65535 id (key_in_use w))
      | None => mret tt
      end;
  _ ← modify (with_pstore (λ s, Per.set_unwrapping_key (zeroize (unwrapping_key_bk s))
                                  (validity_u8 Empty) s));
  modify (with_part (PS.set_unwrapping_key_id None)).

Definition is_unwrapping_key_pct_verified (w : World) : bool :=
  (unwrapping_key_bk_valid (pstore w) =? validity_u8 PctPassed)%Z.

Definition mark_unwrapping_key_pct_verified : M World HsmErr () :=
  modify (with_pstore (λ s, Per.set_unwrapping_key (unwrapping_key_bk s)
                              (validity_u8 PctPassed) s)).

Definition import_unwrapping_key (key_blob : list Z) : M World HsmErr Z :=
  key ← lift (Rsa.imported_new Rsa.Rsa2kPrivate Rsa.Unwrap key_blob);
  k ← on_vault (λ I, Vault.rsa_import_key APP_VAULT_ID_FOR_INTERNAL_KEYS 65535 None true key KA_App);
  mret (vk_key_id k).

(** The end of [unmask_unwrapping_key_and_import], on the decrypted key. *)
Definition store_unwrapping_key (decrypted_key : list Z) : M World HsmErr () :=
  w ← get;
  _ ← unless (bool_decide (unwrapping_key_id (part w) = None)) InvalidState;
  bk ← lift (copy_from_slice (unwrapping_key_bk (pstore w)) 0
               (length (unwrapping_key_bk (pstore w))) decrypted_key);
  _ ← modify (with_pstore (Per.set_unwrapping_key bk (validity_u8 PendingPct)));
  key_id ← import_unwrapping_key decrypted_key;
  modify (with_part (PS.set_unwrapping_key_id (Some key_id))).

(** *** Credentials *)

Definition verify_nonce (w : World) (n : list Z) : outcome HsmErr () :=
  if bool_decide (n ≠ nonce (pstore w)) then Err NonceMismatch else Ok tt.

Definition verify_cred_is_not_set (w : World) : outcome HsmErr () :=
  if Cred.verify_user_cred_is_set (cred_mgr (part w)) then Err AppLimitReached else Ok tt.

Definition verify_cred_is_set (w : World) : outcome HsmErr () :=
  if negb (Cred.verify_user_cred_is_set (cred_mgr (part w))) then Err CredentialsNotEstablished
  else Ok tt.

Definition clear_credentials : M World HsmErr () := State.clear_cred.

Definition clear_provisioning_state : M World HsmErr () :=
  modify (with_part (PS.set_partition_mk_id None)).

(** [authorize_user_with_pin_policy]; the policy lives in the persistent
    store. *)
Definition authorize_user_with_pin_policy (now now' : Z) (id pin : list Z) : M World HsmErr () := λ w,
  let '(r, a) := Login.authorize_user_with_pin_policy now now' id pin
                   (Login.mkPartAuth (cred_mgr (part w)) (pin_policy (pstore w))) in
  (r, with_pstore (Per.set_pin_policy (Login.pin_policy_mgr a)) w).

(** [get_cert_len]: the lengths of the device chain, then the alias
    certificate, then the partition's. *)
Definition get_cert_len (w : World) (alias_cert_len : Z) (cert_id : Z) : outcome HsmErr (option Z) :=
  match cert_chain_len_info (part w) with
  | None => Ok None
  | Some info =>
      let sub n := Z.max 0 (num_certs info - n) in
      if (cert_id <? sub 2)%Z then
        match cert_lengths info !! Z.to_nat cert_id with
        | Some l => Ok (Some l)
        | None => Panic
        end
      else if (cert_id =? sub 2)%Z then Ok (Some alias_cert_len)
      else if (cert_id =? sub 1)%Z then Ok (Some (lb_len (partition_cert (pstore w))))
      else Ok None
  end.

End part.
End Part.

(** ** [UserSession] (session/app_sess/mod.rs) *)

Module Session.
Section session.
Context `{ZC : Zerocopy, ZZ : Zeroize, BC : BitCrate, RNG : Rng}.

(** [unwrap_or(u16::MAX)] *)
Definition physical_session_id (w : World) (s : UserSession) : Z :=
  match Sessions.get_target_session (session_table (pstore w)) (us_id s) with
  | Ok k => k
  | _ => 65535
  end.

(** [let _ = vault().disable_key(..)] *)
Definition invalidate (s : UserSession) : M World HsmErr () := λ w,
  match State.on_vault (λ I, Vault.disable_key (physical_session_id w s)) w with
  | (Panic, w) => (Panic, w)
  | (_, w) => (Ok tt, w)
  end.

Definition valid (w : World) (s : UserSession) : bool :=
  let I := State.vault w in
  is_ok (Sessions.valid (session_table (pstore w)) (us_id s))
  && is_ok (Vault.open_session_key (I := I) (vault_mem w) (Part.vault_id w)
              (physical_session_id w s) false).

Definition get_key_kind (w : World) (s : UserSession) (key_id : Z) : outcome HsmErr EntryKind :=
  let I := State.vault w in
  let sid := Z.of_nat (us_id s) in
  match Vault.key (I := I) (vault_mem w) APP_VAULT_ID_FOR_INTERNAL_KEYS sid key_id true with
  | Ok k => VKey.kind (I := I) (vault_mem w) k
  | Panic => Panic
  | Err _ =>
      k ← Vault.key (I := I) (vault_mem w) (Part.vault_id w) sid key_id true;
      VKey.kind (I := I) (vault_mem w) k
  end.

Definition delete_key (s : UserSession) (key_id : Z) : M World HsmErr () :=
  w ← get;
  let sid := Z.of_nat (us_id s) in
  _ ← match Vault.key (I := State.vault w) (vault_mem w) APP_VAULT_ID_FOR_INTERNAL_KEYS sid
              key_id true with
      | Ok _ => throw CannotDeleteInternalKeys
      | Err _ => mret tt
      | Panic => lift Panic
      end;
  State.on_vault (λ I, Vault.delete_key (Part.vault_id w) sid key_id (Part.key_in_use w)).

(** The check of [DeleteKeyCmd::on_start] (fsm/delete_key.rs): the kind of
    the key to delete, never a session key. *)
Definition delete_key_kind (w : World) (s : UserSession) (key_id : Z) : outcome HsmErr EntryKind :=
  kind ← get_key_kind w s key_id;
  if bool_decide (kind = EK_Session) then Err KeyNotFound else Ok kind.

End session.
End Session.
