(* ===== verification/PartitionLogin.v ===== *)
(** * Establishing credentials and opening sessions (hsm/src/partition/part.rs)

    The ends of the two commands that check a credential the host encrypted
    for the partition: [end_establish_credential] and [end_open_user_session].
    The engines and the key derivations they call are the fields of
    [LoginEnv]. *)

From stdpp Require Import base list numbers option.
From S2P Require Import Prelude HsmError KeyEntry Crates KeyTable KeyStore StoreInterface VaultKeys KeyVault.
From S2P Require Import SessionTable PinPolicy CdmaVault Partition.

(** [DdiEncryptedEstablishCredential] and [DdiEncryptedSessionCredential];
    the first has no seed. *)
Record EncryptedCredential : Set := mkEncrypted {
  encrypted_id : list Z;
  encrypted_pin : list Z;
  encrypted_seed : list Z;
  iv : list Z;
  cred_nonce : list Z; (* [u8; 32] *)
  tag : list Z (* [u8; 48] *)
}.

(** What one run of a command gets from outside: the result of the ECDH
    engine, whether each DMA buffer is granted, the engines and derivations
    as functions, the boot key seeds and the time stamps. *)
Record LoginEnv : Type := mkLoginEnv {
  ecdh_secret : outcome HsmErr (list Z);
  dma_granted : nat → bool;
  hkdf_sha384 : list Z → list Z → outcome HsmErr (list Z); (* secret, nonce: the 144-byte buffer *)
  hmac_sha384 : list Z → list Z → outcome HsmErr (list Z); (* key, message: the 64-byte buffer *)
  aes_cbc_decrypt : list Z → list Z → list Z → option (list Z * list Z); (* key, iv, text: text, iv *)
  bk_session_gen : list Z → list Z → list Z → list Z → outcome HsmErr (list Z);
  bmk_svn : list Z → outcome HsmErr (option Z); (* the SVN in the metadata of a BMK *)
  bmk_unmask : list Z → list Z → outcome HsmErr (list Z); (* BK, BMK: the key *)
  generate_mk : outcome HsmErr (list Z); (* LMKeyDerive::generate_mk: 80 bytes *)
  bks_table : Bks.BksTable;
  tsc_now : Z; tsc_now' : Z
}.

Module Auth.
Section login.
Context `{ZC : Zerocopy, ZZ : Zeroize, BC : BitCrate, RNG : Rng}.
Variable env : LoginEnv.

(** The [k]-th [dma_alloc] of the command. *)
Definition dma_alloc (k : nat) : M World HsmErr () := unless (dma_granted env k) DmaAllocFailure.

(** The tag covers the encrypted fields, the IV and the current nonce. *)
Definition verify_tag (k : nat) (hmac_key : list Z) (c : EncryptedCredential) (body : list Z) :
    M World HsmErr () :=
  _ ← dma_alloc k;
  w ← get;
  _ ← dma_alloc (S k);
  hash ← lift (hmac_sha384 env hmac_key (body ++ iv c ++ nonce (pstore w)));
  hash ← lift (slice hash 0 48);
  unless (bool_decide (tag c = hash)) PinDecryptionFailed.

Definition verify_encrypted_establish_credential_tag (hmac_key : list Z) (c : EncryptedCredential) :
    M World HsmErr () :=
  _ ← unless ((length (encrypted_id c) =? 16) && (length (encrypted_pin c) =? 16)
              && (length (iv c) =? 16)) InvalidArgument;
  verify_tag 1 hmac_key c (encrypted_id c ++ encrypted_pin c).

Definition verify_encrypted_session_credential_tag (hmac_key : list Z) (c : EncryptedCredential) :
    M World HsmErr () :=
  _ ← unless ((length (encrypted_id c) =? 16) && (length (encrypted_pin c) =? 16)
              && (length (encrypted_seed c) =? 48) && (length (iv c) =? 16)) InvalidArgument;
  verify_tag 1 hmac_key c (encrypted_id c ++ encrypted_pin c ++ encrypted_seed c).

(** [decrypt_credential] with its buffer; the engine updates the IV, which
    the next call uses. *)
Definition decrypt_credential (k : nat) (aes_key ciphertext iv : list Z) :
    M World HsmErr (list Z * list Z) :=
  _ ← dma_alloc k;
  lift (ok_or (aes_cbc_decrypt env aes_key iv ciphertext) AesDecryptFailed).

(** The derivation both commands start with: the AES and the HMAC key. *)
Definition derive_keys : M World HsmErr (list Z) :=
  secret ← lift (match ecdh_secret env with Err _ => Err EcdhComputeFailed | r => r end);
  _ ← dma_alloc 0;
  w ← get;
  lift (hkdf_sha384 env secret (nonce (pstore w))).

(** [let _ = vault().delete_key(..)] *)
Definition delete_ignored (key_id : Z) : M World HsmErr () := λ w,
  match Part.delete_internal_key key_id w with
  | (Panic, w) => (Panic, w)
  | (_, w) => (Ok tt, w)
  end.

Definition end_establish_credential (c : EncryptedCredential) : M World HsmErr () :=
  keys ← derive_keys;
  w ← get;
  _ ← lift (Part.verify_nonce w (cred_nonce c));
  _ ← lift (Part.verify_cred_is_not_set w);
  hmac_key ← lift (slice keys 32 48);
  _ ← verify_encrypted_establish_credential_tag hmac_key c;
  _ ← State.reset_nonce;
  aes_key ← lift (slice keys 0 32);
  d ← decrypt_credential 3 aes_key (encrypted_id c) (iv c);
  let '(id, iv) := d in
  d ← decrypt_credential 4 aes_key (encrypted_pin c) iv;
  let '(pin, _) := d in
  _ ← State.on_cred (Cred.change_user_cred id pin);
  w ← get;
  match establish_cred_encryption_key_id (part w) with
  | None => mret tt
  | Some key_id =>
      _ ← modify (with_part (PS.set_establish_cred_encryption_key_id None));
      delete_ignored key_id
  end.

(** *** The session's masking key *)

Definition generate_bk_session (bks1 session_seed : list Z) (w : World) : outcome HsmErr (list Z) :=
  let bks2 := Bks.get_bks2 (bks_table env) in
  bk3_session ← ok_or (State.get_bk3_session w) PartitionNotProvisioned;
  if negb (length session_seed =? 48) then Err InvalidArgument
  else bk_session_gen env session_seed bks1 bks2 bk3_session.

Definition get_bks1_from_bmk (bmk : list Z) : outcome HsmErr (list Z) :=
  s ← match bmk_svn env bmk with Err _ => Err MaskedKeyDecodeFailed | r => r end;
  s ← ok_or s MaskedKeyDecodeFailed;
  ok_or (Bks.get_bks1 s (bks_table env)) MaskingBkBootFailed.

Definition import_smk_from_bmk (session_seed bmk : list Z) : M World HsmErr (list Z) :=
  bks1 ← lift (get_bks1_from_bmk bmk);
  w ← get;
  bk3_session ← lift (ok_or (State.get_bk3_session w) PartitionNotProvisioned);
  _ ← dma_alloc 6;
  bk_session ← lift (if negb (length session_seed =? 48) then Err InvalidArgument
                     else bk_session_gen env session_seed bks1 (Bks.get_bks2 (bks_table env))
                            bk3_session);
  lift (match bmk_unmask env bk_session bmk with Err _ => Err MaskedKeyDecodeFailed | r => r end).

(** *** Opening and reopening a session *)

(** [end_open_user_session] once the user is authorized: the session key,
    made of the revision and a masking key, new or from the backup ... *)
Definition session_key_to_import (rev : DdiApiRev) (seed : list Z) (reopen_sess_id : option nat)
    (bmk_session : option (list Z)) : M World HsmErr SessionK.SessionKeyToImport :=
  let rev_buf := to_le_bytes 4 (rev_major rev) ++ to_le_bytes 4 (rev_minor rev) in
  bks1 ← lift (Bks.get_bks1_current (bks_table env));
  w ← get;
  _ ← lift (generate_bk_session bks1 seed w);
  mk_session ← match reopen_sess_id with
               | Some _ =>
                   bmk ← lift (ok_or bmk_session InvalidState);
                   import_smk_from_bmk seed bmk
               | None => lift (generate_mk env)
               end;
  lift (SessionK.to_import_new rev_buf mk_session).

(** ... then the key is imported and the session gets a slot. *)
Definition create_user_session (rev : DdiApiRev) (seed : list Z) (reopen_sess_id : option nat)
    (bmk_session : option (list Z)) : M World HsmErr UserSession :=
  key_to_import ← session_key_to_import rev seed reopen_sess_id bmk_session;
  w ← get;
  _ ← unless (negb (bool_decide (reopen_sess_id = None)
                    && (Sessions.get_available_session_count (session_table (pstore w)) =? 0)))
        SessionLimitReached;
  session_key ← State.on_vault (λ I, Vault.import_session_key (Part.vault_id w) key_to_import);
  session_id ← match reopen_sess_id with
               | Some sess_id =>
                   _ ← State.on_sessions (Sessions.recreate_session sess_id (vk_key_id session_key));
                   mret sess_id
               | None => State.on_sessions (Sessions.create_session (vk_key_id session_key))
               end;
  mret (mkUserSession session_id rev).

Definition end_open_user_session (rev : DdiApiRev) (c : EncryptedCredential)
    (reopen_sess_id : option nat) (bmk_session : option (list Z)) : M World HsmErr UserSession :=
  keys ← derive_keys;
  w ← get;
  _ ← lift (Part.verify_nonce w (cred_nonce c));
  hmac_key ← lift (slice keys 32 48);
  _ ← verify_encrypted_session_credential_tag hmac_key c;
  _ ← State.reset_nonce;
  aes_key ← lift (slice keys 0 32);
  d ← decrypt_credential 3 aes_key (encrypted_id c) (iv c);
  let '(id, iv) := d in
  d ← decrypt_credential 4 aes_key (encrypted_pin c) iv;
  let '(pin, iv) := d in
  d ← decrypt_credential 5 aes_key (encrypted_seed c) iv;
  let '(seed, _) := d in
  _ ← Part.authorize_user_with_pin_policy (tsc_now env) (tsc_now' env) id pin;
  create_user_session rev seed reopen_sess_id bmk_session.

(** [OpenSessionCmd::rollback] (fsm/open_session.rs). *)
Definition rollback (is_reopen : bool) (sess_id : option nat) : M World HsmErr () :=
  match sess_id with
  | Some sess_id => Part.rollback_open_session sess_id is_reopen
  | None => mret tt
  end.

(** [OpenSessionCmd::on_end] and what HsmFsm does with its result: [later] is
    the outcome of the steps once the session exists (the response with the
    session's backup key, its transfer to the host).  The session id is
    recorded only on success; HsmFsm calls the rollback once for the error of
    the command or of a later step and ignores its result. *)
Definition open_session (rev : DdiApiRev) (c : EncryptedCredential) (is_reopen : bool)
    (hdr_sess_id : option nat) (bmk_session : option (list Z)) (later : outcome HsmErr ()) :
    M World HsmErr UserSession := λ w,
  let reopen_sess_id := if is_reopen then hdr_sess_id else None in
  let undo e sess_id w :=
    match rollback is_reopen sess_id w with
    | (Panic, w) => (Panic, w)
    | (_, w) => (Err e, w)
    end in
  match end_open_user_session rev c reopen_sess_id bmk_session w with
  | (Ok s, w) =>
      match later with
      | Ok _ => (Ok s, w)
      | Err e => undo e (Some (us_id s)) w
      | Panic => (Panic, w)
      end
  | (Err e, w) => undo (if decide (e = Pending) then InvalidState else e) None w
  | (Panic, w) => (Panic, w)
  end.

End login.
End Auth.
