(* ===== verification/PartitionProps.v ===== *)
(** * Correctness of the partition

    What a function's disable, migration and reset erase, what closing and
    opening a session do to the vault, and the round trip of the data store.
    All are stated on the keys and session slots a partition's state
    represents ([part_rep]). *)

From stdpp Require Import base list numbers option gmap.
From S2P Require Import Prelude HsmError KeyEntry Crates KeyTable KeyTableSpec KeyTableRefine KeyTableOps KeyStore KeyStoreProps StoreInterface VaultKeys KeyVault VaultProps.
From S2P Require Import SessionTable PinPolicy CdmaVault Partition PartitionLogin.

Section partition_props.
Context `{ZC : Zerocopy, ZZ : Zeroize, BC : BitCrate, RNG : Rng}.
Variable cdma_vault_addr : Z.

(** The vault keys the partition reaches, its session slots, and sound bulk
    key metadata. *)
Record part_rep (w : World) (K : KeyMap) (ss : list slot) : Prop := {
  pr_vault : store_keys (mkKeyStoreImpl (rgs (part w))) (vault_mem w) K;
  pr_table : st_wf (session_table (pstore w));
  pr_slots : slots (session_table (pstore w)) = ss;
  pr_cdma : cdma_wf (cdma_meta w)
}.

(** ** Erasure *)

(** What is left of [w] once its function is disabled, migrated or reset:
    nothing of the guest, and everything of the other partitions. *)
Record erased (w w' : World) : Prop := {
  er_cred : cred_mgr (part w') = Cred.default;
  er_ids : unwrapping_key_id (part w') = None ∧ establish_cred_encryption_key_id (part w') = None ∧
    session_encryption_key_id (part w') = None ∧ masking_key (part w') = None;
  er_pin : pin_policy (pstore w') = Pin.default;
  er_nonce : nonce (pstore w') = rng_bytes (rng_draws w) 32;
  er_vault : store_keys (mkKeyStoreImpl (rgs (part w))) (vault_mem w') ∅;
  er_vault_other t : Store.is_valid_table (mkKeyStoreImpl (rgs (part w))) (Z.of_nat t) = false →
    vault_mem w' !! t = vault_mem w !! t;
  er_cdma : cdma_wf (cdma_meta w');
  er_cdma_slots p : p.2 < 8 →
    used (cdma_meta w') p
      = if valid_in (State.cdma_vault cdma_vault_addr w) p.1 then false
        else used (cdma_meta w) p;
  er_sessions id allow : ∃ e, Part.user_session w' id allow = Err e
}.

Definition pending (s : slot) : slot := if decide (s = SlotFree) then SlotFree else SlotPending.

Lemma no_active_no_session w id allow :
  st_wf (session_table (pstore w)) →
  (∀ t, slots (session_table (pstore w)) !! id ≠ Some (SlotActive t)) →
  ∃ e, Part.user_session w id allow = Err e.
Proof.
  intros Hwf Hno. unfold Part.user_session.
  rewrite (proj1 (session_lookups_refine _ id Hwf)).
  destruct (slots (session_table (pstore w)) !! id) as [[|t|]|] eqn:Hs; try by eexists.
  by destruct (Hno t).
Qed.

Lemma pending_not_active (ss : list slot) id t : (pending <$> ss) !! id ≠ Some (SlotActive t).
Proof.
  rewrite list_lookup_fmap. destruct (ss !! id); cbn; [|done]. unfold pending. by case_decide.
Qed.

Lemma nuke_erases w K :
  store_keys (mkKeyStoreImpl (rgs (part w))) (vault_mem w) K →
  let st := mkKeyStoreImpl (rgs (part w)) in
  let mem' := Store.nuke st (vault_mem w) in
  store_keys st mem' ∅ ∧
  ∀ t, Store.is_valid_table st (Z.of_nat t) = false → mem' !! t = vault_mem w !! t.
Proof.
  intros HK st mem'. split; [by eapply store_nuke_law|].
  destruct HK as (As & HS & _). by destruct (store_nuke_rep st (vault_mem w) As HS) as (? & ? & ? & ?).
Qed.

Lemma restore_none t :
  st_wf t → st_wf (Sessions.restore 0 t) ∧
    slots (Sessions.restore 0 t) = replicate MAX_SESSIONS SlotFree.
Proof.
  intros [Ha Hr Hl Hs]. split.
  - constructor; try done. cbn. by rewrite zeroize_spec, length_replicate.
  - apply list_eq. intros i. rewrite lookup_slots. case_decide as Hi.
    + rewrite lookup_replicate_2 by done. unfold slot_of. cbn.
      rewrite (bit_spec 8) by (done || unfold MAX_SESSIONS in *; lia). by rewrite Z.bits_0.
    + symmetry. apply lookup_replicate_None. lia.
Qed.

#[local] Opaque Store.nuke Cdma.clear Sessions.restore Sessions.backup slots replicate
  Part.user_session.

#[local] Ltac run_state :=
  unfold Part.disable, Part.end_migrate, State.disable, State.migrate, State.clear_cred,
    State.reset_nonce, State.reserve_sessions, State.on_cred, State.on_sessions, State.on_vault,
    modify, mbind, M_bind, Vault.clear.

Lemma disable_run w K ss :
  part_rep w K ss →
  ∃ w', Part.disable cdma_vault_addr w = (Ok tt, w') ∧ erased w w' ∧
    part_enabled (part w') = false ∧ rgs (part w') = rgs (part w) ∧
    st_wf (session_table (pstore w')) ∧ slots (session_table (pstore w')) = pending <$> ss.
Proof.
  intros [HK Hwf <- Hc].
  destruct (clear_run (State.cdma_vault cdma_vault_addr w) _ Hc) as (meta' & Hrun & Hc' & Hu).
  destruct (backup_restore_pending _ _ Hwf Hwf) as [Hwf' Hss'].
  destruct (nuke_erases w K HK) as [Hn1 Hn2].
  run_state. unfold State.on_cdma. cbn. unfold State.cdma_vault in *. cbn in Hrun |- *.
  rewrite Hrun. cbn.
  eexists. split_and!; [reflexivity|constructor; cbn; try done..|done|done|exact Hwf'|exact Hss'].
  intros id allow. apply no_active_no_session; [exact Hwf'|]. cbn. rewrite Hss'.
  intros t. apply pending_not_active.
Qed.

Lemma migrate_run w K ss :
  part_rep w K ss →
  ∃ w', Part.end_migrate cdma_vault_addr w = (Ok tt, w') ∧ erased w w' ∧
    part_enabled (part w') = part_enabled (part w) ∧ rgs (part w') = rgs (part w) ∧
    State.get_bk3_session w' = None ∧ Forall (λ b, b = 0%Z) (bk3_key (bk3_session_key (pstore w'))) ∧
    st_wf (session_table (pstore w')) ∧ slots (session_table (pstore w')) = pending <$> ss.
Proof.
  intros [HK Hwf <- Hc].
  destruct (clear_run (State.cdma_vault cdma_vault_addr w) _ Hc) as (meta' & Hrun & Hc' & Hu).
  destruct (backup_restore_pending _ _ Hwf Hwf) as [Hwf' Hss'].
  destruct (nuke_erases w K HK) as [Hn1 Hn2].
  run_state. unfold State.on_cdma. cbn. unfold State.cdma_vault in *. cbn in Hrun |- *.
  rewrite Hrun. cbn.
  eexists. split_and!; [reflexivity|constructor; cbn; try done..|done|done|done| |exact Hwf'|exact Hss'].
  - intros id allow. apply no_active_no_session; [exact Hwf'|]. cbn. rewrite Hss'.
    intros t. apply pending_not_active.
  - cbn. rewrite zeroize_spec. by apply Forall_replicate.
Qed.

(** The persistent store without the identity, the certificate, the
    provisioned seeds and the unwrapping key. *)
Definition wiped (l : list Z) : Prop := Forall (λ b, b = 0%Z) l.
Definition wiped_buf (b : LenBuf) : Prop := lb_len b = 0%Z ∧ wiped (lb_data b).

Record store_wiped (s : HsmPartPersistentStore) : Prop := {
  sw_guid : wiped (vm_launch_guid s);
  sw_id : partition_id_valid s = false ∧ wiped (pid_id (partition_identifier s)) ∧
    wiped (pid_priv_key (partition_identifier s)) ∧ wiped (pid_pub_key (partition_identifier s));
  sw_cert : partition_cert_valid s = false ∧ wiped_buf (partition_cert s);
  sw_unwrap : unwrapping_key_required s = false ∧ unwrapping_key_bk_valid s = validity_u8 Empty ∧
    wiped (unwrapping_key_bk s);
  sw_seeds : wiped_buf (masked_bk_boot s) ∧ wiped_buf (sealed_bk3 s) ∧
    bk3_is_valid (bk3_session_key s) = false ∧ wiped (bk3_key (bk3_session_key s))
}.

Lemma zeroize_wiped l : wiped (zeroize l).
Proof. rewrite zeroize_spec. by apply Forall_replicate. Qed.

Lemma clear_store_wiped s : store_wiped (State.clear_store s).
Proof.
  constructor; unfold wiped_buf; cbn; split_and?; try done; try apply zeroize_wiped.
  by apply Forall_replicate.
Qed.

Lemma set_table_wiped t s : store_wiped s → store_wiped (Per.set_session_table t s).
Proof. destruct s. intros []. constructor; assumption. Qed.

Lemma reset_run w K ss :
  part_rep w K ss →
  ∃ w', Part.reset cdma_vault_addr w = (Ok tt, w') ∧ erased w w' ∧
    part_enabled (part w') = false ∧ rgs (part w') = 0%Z ∧
    cert_chain_len_info (part w') = None ∧ store_wiped (pstore w') ∧
    st_wf (session_table (pstore w')) ∧
    slots (session_table (pstore w')) = replicate MAX_SESSIONS SlotFree.
Proof.
  intros Hrep. destruct (disable_run w K ss Hrep) as (w1 & Hrun & Her & He & Hr & Hwf & Hss).
  unfold Part.reset. rewrite (bind_ok _ _ _ tt w1) by done.
  destruct (restore_none _ Hwf) as [Hwf' Hss'].
  unfold State.rgs_reset, State.clear_partition_info, State.on_sessions, modify, mbind, M_bind. cbn.
  eexists. split_and!; [reflexivity| |done|done|done|..]; cbn.
  - destruct Her. constructor; cbn; try done; [naive_solver|]. intros id allow.
    apply no_active_no_session; cbn; [exact Hwf'|]. rewrite Hss'. intros t.
    destruct (replicate MAX_SESSIONS SlotFree !! id) eqn:Hl; [|done].
    apply lookup_replicate in Hl as [-> _]. done.
  - apply set_table_wiped, clear_store_wiped.
  - exact Hwf'.
  - exact Hss'.
Qed.

(** C14: disabling, migrating and resetting a function erase the guest.
    Each succeeds; afterwards no key is left in the partition's vault tables
    and no bulk key in its slots, the credential is the default one, the PIN
    policy is fresh, the nonce is new, the ids of the internal keys are
    forgotten, and no session can be used; the vault tables and bulk-key
    slots of the other partitions are untouched.  Disable and migration keep
    the ids of the open sessions reserved until they are renegotiated, and a
    migration also wipes the session key seed; a reset frees them, gives up
    the resources and wipes the identity, the certificate, the provisioned
    seeds and the unwrapping key. *)
Theorem partition_erasure w K ss :
  part_rep w K ss →
  (∃ w', Part.disable cdma_vault_addr w = (Ok tt, w') ∧ erased w w' ∧
     part_enabled (part w') = false ∧ slots (session_table (pstore w')) = pending <$> ss) ∧
  (∃ w', Part.end_migrate cdma_vault_addr w = (Ok tt, w') ∧ erased w w' ∧
     State.get_bk3_session w' = None ∧ wiped (bk3_key (bk3_session_key (pstore w'))) ∧
     slots (session_table (pstore w')) = pending <$> ss) ∧
  (∃ w', Part.reset cdma_vault_addr w = (Ok tt, w') ∧ erased w w' ∧
     part_enabled (part w') = false ∧ rgs (part w') = 0%Z ∧ store_wiped (pstore w') ∧
     slots (session_table (pstore w')) = replicate MAX_SESSIONS SlotFree).
Proof.
  intros Hrep. destruct (disable_run w K ss Hrep) as (w1 & ?).
  destruct (migrate_run w K ss Hrep) as (w2 & ?). destruct (reset_run w K ss Hrep) as (w3 & ?).
  split_and!; [exists w1|exists w2|exists w3]; unfold wiped; naive_solver.
Qed.

(** ** Sessions *)

#[local] Transparent Cdma.clear Sessions.restore Sessions.backup slots replicate
  Part.user_session.

Definition app_of (w : World) : Z := Part.vault_id w.

(** A session key of the user's vault. *)
Record session_key (app : Z) (le : LogicalEntry) : Prop := {
  sk_kind : le_kind le = EK_Session;
  sk_app : le_app_id le = app;
  sk_flags : ef_session (le_flags le) = false
}.

(** Every active session has a session key of its own. *)
Record sess_inv (app : Z) (K : KeyMap) (ss : list slot) : Prop := {
  si_key id k : ss !! id = Some (SlotActive k) → ∃ le, K !! k = Some le ∧ session_key app le;
  si_inj i j k : ss !! i = Some (SlotActive k) → ss !! j = Some (SlotActive k) → i = j
}.

(** The revision a session key's blob starts with. *)
Definition blob_rev (b : list Z) : DdiApiRev :=
  mkApiRev (from_le_bytes (take 4 b)) (from_le_bytes (take 4 (drop 4 b))).

(** What [user_session] answers. *)
Definition session_of (app : Z) (K : KeyMap) (ss : list slot) (id : nat) (allow : bool) :
    outcome HsmErr UserSession :=
  k ← slot_target (ss !! id);
  le ← access (K !! k) app KEY_TAG_UNASSIGNED allow;
  if decide (le_kind le = EK_Session) then Ok (mkUserSession id (blob_rev (le_blob le)))
  else Err InvalidKeyType.

Lemma session_blob_len le : le_wf le → le_kind le = EK_Session → length (le_blob le) = 88.
Proof.
  intros Hwf Hk. pose proof (le_args _ Hwf) as [Hargs _]. apply expected_key_len_raw in Hargs.
  rewrite Hk in Hargs. cbn in Hargs. by injection Hargs.
Qed.

#[local] Abbreviation st_of w := (mkKeyStoreImpl (rgs (part w))).

Lemma slice_ok {E} (off n : nat) (l : list Z) :
  off + n ≤ length l → slice (E := E) l off n = Ok (take n (drop off l)).
Proof. intros. unfold slice. by rewrite decide_True. Qed.

Lemma user_session_rep w K ss id allow :
  part_rep w K ss → sess_inv (app_of w) K ss →
  Part.user_session w id allow = session_of (app_of w) K ss id allow.
Proof.
  intros [HK Hwf <- _] [Hkey _]. unfold Part.user_session, session_of.
  rewrite (proj1 (session_lookups_refine _ id Hwf)).
  destruct (slots (session_table (pstore w)) !! id) as [[|k|]|] eqn:Hs; try done.
  cbn [slot_target mbind outcome_bind]. destruct (Hkey id k Hs) as (le & Hk & Hse).
  destruct (store_keys_wf (st_of w) _ _ _ _ HK Hk) as [Hn Hle].
  unfold Vault.open_session_key, State.vault.
  rewrite (vault_key_rep (Spec := key_store_spec (st_of w)) (vault_mem w) K) by done.
  rewrite Hk. unfold app_of.
  destruct (access (Some le) (Part.vault_id w) KEY_TAG_UNASSIGNED allow) as [le'|e|] eqn:Ha; [|done..].
  apply access_Some in Ha. injection Ha as <-. cbn [fmap outcome_fmap mbind outcome_bind].
  unfold VKey.try_from_kind.
  rewrite (vkey_kind_rep (Spec := key_store_spec (st_of w)) (vault_mem w) K), Hk by done.
  pose proof (session_blob_len _ Hle (sk_kind _ _ Hse)) as Hlen.
  rewrite (sk_kind _ _ Hse), decide_True by done. cbn [mbind outcome_bind].
  rewrite bool_decide_true by done. cbn [mbind outcome_bind]. unfold SessionK.session_key_blob.
  rewrite (vkey_blob_rep (Spec := key_store_spec (st_of w)) (vault_mem w) K), Hk by done.
  cbn [mbind outcome_bind]. rewrite (slice_ok 0 8), drop_0 by lia. cbn [mbind outcome_bind].
  rewrite (slice_ok 0 4), drop_0 by (rewrite length_take; lia). cbn [mbind outcome_bind].
  rewrite (slice_ok 4), skipn_firstn_comm by (rewrite length_take; lia).
  cbn [mbind outcome_bind]. rewrite length_take, Hlen. change (8 `min` 88 - 4) with 4.
  change (8 - 4) with 4. rewrite take_take. change (4 `min` 4) with 4.
  rewrite take_take. change (4 `min` 8) with 4.
  unfold copy_from_slice. rewrite decide_True.
  2:{ rewrite length_replicate, length_take, length_drop. lia. }
  cbn. rewrite app_nil_r. done.
Qed.

(** ** Saving and restoring *)

Lemma res_mask_snoc p res r :
  State.res_mask p (res ++ [r])
    = if decide (r = Some p) then Z.lor (State.res_mask p res) (Z.shiftl 1 (Z.of_nat (length res)))
      else State.res_mask p res.
Proof. unfold State.res_mask. rewrite imap_app, foldl_app. cbn. by rewrite Nat.add_0_r. Qed.

Lemma res_mask_testbit p res i :
  Z.testbit (State.res_mask p res) (Z.of_nat i) = bool_decide (res !! i = Some (Some p)).
Proof.
  induction res as [|r res IH] using rev_ind; [by rewrite Z.testbit_0_l|].
  rewrite res_mask_snoc. destruct (decide (i < length res)) as [Hi|Hi].
  - rewrite lookup_app_l by done. destruct (decide (r = Some p)); [|exact IH].
    rewrite Z.lor_spec, IH, Z.shiftl_1_l, Z.pow2_bits_false by lia. apply orb_false_r.
  - rewrite lookup_ge_None_2, bool_decide_false in IH by (lia || done).
    destruct (decide (i = length res)) as [->|Hne].
    + rewrite list_lookup_middle by done. destruct (decide (r = Some p)) as [Hr|Hr].
      * rewrite Z.lor_spec, Z.shiftl_1_l, Z.pow2_bits_true by lia. rewrite orb_true_r.
        by rewrite bool_decide_true by congruence.
      * rewrite IH, bool_decide_false by congruence. done.
    + rewrite lookup_ge_None_2 by (rewrite length_app; cbn; lia).
      rewrite bool_decide_false by done. destruct (decide (r = Some p)); [|exact IH].
      rewrite Z.lor_spec, IH, Z.shiftl_1_l, Z.pow2_bits_false by lia. done.
Qed.

(** A firmware update keeps the partition.  What [store_data] saved,
    [restore] brings back over any volatile state: whether the function is
    enabled, the credential and the ids of the internal keys; the resource
    mask is rebuilt from the admin core's resource table, a table being in it
    exactly when the entry names the function; the cached certificate is
    dropped, and a function with resources needs an unwrapping key. *)
Theorem store_restore_roundtrip w w1 resource :
  data_store w1 = data_store (State.store_data w).2 →
  ∃ w', State.restore (pfn (part w)) resource w1 = (Ok tt, w') ∧
    part w' = PS.set_cert_chain_lengths_info None (PS.set_rgs (State.res_mask (pfn (part w)) resource) (part w)) ∧
    (∀ i, Z.testbit (rgs (part w')) (Z.of_nat i)
            = bool_decide (resource !! i = Some (Some (pfn (part w))))) ∧
    partition_cert_valid (pstore w') = false ∧
    (unwrapping_key_required (pstore w1) = true ∨ rgs (part w') ≠ 0%Z →
     unwrapping_key_required (pstore w') = true) ∧
    vault_mem w' = vault_mem w1 ∧ session_table (pstore w') = session_table (pstore w1).
Proof.
  intros Hd. unfold State.restore, State.restore_res_mask, State.on_cred, modify, mbind, M_bind, get.
  rewrite Hd. cbn -[State.res_mask]. pose proof (res_mask_testbit (pfn (part w)) resource) as Hbits.
  set (mask := State.res_mask (pfn (part w)) resource) in *. eexists. split; [done|].
  destruct (Z.eqb_spec mask 0) as [H0|H0]; cbn; split_and!; try done.
  intros [?|?]; done.
Qed.

(** ** The unwrapping key *)

(** A masked key of another size than the unwrapping key's slot, which the
    host may send in its place, makes [copy_from_slice] panic. *)
Theorem wrong_unwrapping_key_panics w key :
  unwrapping_key_id (part w) = None → length key ≠ length (unwrapping_key_bk (pstore w)) →
  Part.store_unwrapping_key key w = (Panic, w).
Proof.
  intros Hid Hlen. unfold Part.store_unwrapping_key. rewrite (bind_ok _ _ _ w w) by done.
  rewrite Hid. rewrite (bind_ok _ _ _ tt w) by done.
  unfold copy_from_slice. rewrite decide_False by (by intros [_ ?]). done.
Qed.

End partition_props.
