(* ===== verification/PartitionSessions.v ===== *)
(** * Opening, using and closing sessions

    A session is a slot of the session table whose target is a session key
    of the user's vault: [create_user_session], [user_session],
    [close_user_session] and the rollback of part.rs, on the keys and slots
    the partition represents. *)

From stdpp Require Import base list numbers option gmap.
From S2P Require Import Prelude HsmError KeyEntry Crates KeyTable KeyTableSpec KeyTableRefine KeyTableOps KeyStore KeyStoreProps StoreInterface VaultKeys KeyVault VaultProps.
From S2P Require Import SessionTable PinPolicy CdmaVault Partition PartitionLogin PartitionProps.

(** The drivers and derivations answer or report an error, with results of
    the documented lengths, and the seed table has its entries. *)
Record env_ok (env : LoginEnv) : Prop := {
  eo_bks : length (Bks.bks1_entries (bks_table env)) = Bks.NUM_BKS1_ENTRIES;
  eo_ecdh : ecdh_secret env ≠ Panic;
  eo_gen a b c d : bk_session_gen env a b c d ≠ Panic;
  eo_svn b : bmk_svn env b ≠ Panic;
  eo_unmask k b : bmk_unmask env k b ≠ Panic;
  eo_mk : generate_mk env ≠ Panic;
  eo_hkdf s n : match hkdf_sha384 env s n with Ok b => length b = 144 | Err _ => True | Panic => False end;
  eo_hmac k m : match hmac_sha384 env k m with Ok b => length b = 64 | Err _ => True | Panic => False end
}.

Record rev_ok (rev : DdiApiRev) : Prop := {
  ro_major : uint_range 32 (rev_major rev);
  ro_minor : uint_range 32 (rev_minor rev)
}.

Section sessions.
Context `{ZC : Zerocopy, ZZ : Zeroize, BC : BitCrate, RNG : Rng}.
Variable cdma_vault_addr : Z.

#[local] Abbreviation st_of w := (mkKeyStoreImpl (rgs (part w))).

Lemma bind_cases {S E A B} (m : M S E A) (f : A → M S E B) s :
  (m ≫= f) s = match m s with
               | (Ok a, s') => f a s'
               | (Err e, s') => (Err e, s')
               | (Panic, s') => (Panic, s')
               end.
Proof. unfold mbind, M_bind. by destruct (m s) as [[] ?]. Qed.

(** The entry of a session key. *)
Definition session_le (app : Z) (b : list Z) : LogicalEntry :=
  new_entry (map_flags id (map_flags (set_local true) (map_flags (set_session false)
    EntryAttributes_default))) KEY_TAG_UNASSIGNED EK_Session app b.

Lemma session_le_key app b : session_key app (session_le app b).
Proof. by constructor. Qed.

Lemma session_attributes_wf app b : attributes_wf (le_attributes (session_le app b)).
Proof. unfold attributes_wf. split_and!; try done; simpl; repeat constructor; done. Qed.

Lemma to_import_spec rev smk :
  SessionK.to_import_new rev smk
    = if (length rev =? 8) && (length smk =? 80) then Ok (SessionK.mkToImport (rev ++ smk))
      else Err InvalidKeyType.
Proof.
  unfold SessionK.to_import_new, SessionK.SESSION_KEY_SIZE, SessionK.MK_AES_CBC_256_HMAC384_SIZE_BYTES.
  destruct (Nat.eqb_spec (length rev) 8) as [H1|]; [|done].
  destruct (Nat.eqb_spec (length smk) 80) as [H2|]; [|done]. cbn [negb orb andb].
  change (replicate SessionK.Session 0%Z) with ([] ++ replicate 8 0%Z ++ replicate 80 0%Z).
  rewrite copy_middle by done. cbn [mbind outcome_bind].
  rewrite <- (app_nil_r (replicate 80 0%Z)). change ([] ++ ?l) with l.
  change (SessionK.Session - 8) with 80. rewrite copy_middle by done.
  cbn [mbind outcome_bind]. by rewrite app_nil_r.
Qed.

Lemma import_session_key_rep (w : World) K key :
  store_keys (st_of w) (vault_mem w) K → length (SessionK.blob key) = 88 →
  ∃ r w', State.on_vault (λ I, Vault.import_session_key (Part.vault_id w) key) w = (r, w') ∧
    match r with
    | Ok k => ∃ mem' n, k = mkVaultKey n ∧ K !! n = None ∧ w' = with_vault mem' w ∧
        store_keys (st_of w) mem' (<[n := session_le (Part.vault_id w) (SessionK.blob key)]> K)
    | Err e => w' = w
    | Panic => False
    end.
Proof.
  intros HK Hlen. unfold State.on_vault, State.vault, Vault.import_session_key, Vault.import_internal.
  rewrite slice_ok by (rewrite Hlen; done).
  rewrite drop_0, take_ge by (rewrite Hlen; vm_compute; lia).
  rewrite bind_cases. cbn [lift]. rewrite bind_cases.
  destruct (store_add_law (st_of w) (vault_mem w) K _ KEY_TAG_UNASSIGNED EK_Session
    (Part.vault_id w) (SessionK.blob key) HK (session_attributes_wf (Part.vault_id w) []))
    as (r & mem' & Hadd & Hlaw).
  cbn [ks_add_entry key_store_ops]. cbn [session_le le_attributes new_entry] in Hadd, Hlaw.
  rewrite Hadd. destruct r as [n|e|]; cbn.
  - destruct Hlaw as (_ & Hnone & HK' & _). eexists _, _. split; [done|]. cbn.
    exists mem', n. done.
  - destruct Hlaw as [-> _]. eexists _, _. split; [done|]. cbn. by destruct w.
  - done.
Qed.

(** Computations that only read the world and never panic. *)
Definition reads {A} (m : M World HsmErr A) (w : World) (P : A → Prop) : Prop :=
  ∃ r, m w = (r, w) ∧ match r with Ok a => P a | Err _ => True | Panic => False end.

Lemma reads_lift {A} (r : outcome HsmErr A) w (P : A → Prop) :
  r ≠ Panic → (∀ a, r = Ok a → P a) → reads (lift r) w P.
Proof. intros Hr HP. exists r. split; [done|]. destruct r; auto. Qed.

Lemma reads_get w (P : World → Prop) : P w → reads get w P.
Proof. intros. by exists (Ok w). Qed.

Lemma reads_bind {A B} (m : M World HsmErr A) (f : A → M World HsmErr B) w P Q :
  reads m w P → (∀ a, P a → reads (f a) w Q) → reads (m ≫= f) w Q.
Proof.
  intros (r & Hr & HP) Hf. unfold reads. rewrite bind_cases, Hr.
  destruct r as [a|e|]; [by apply Hf|by exists (Err e)|done].
Qed.

Lemma reads_unless b e w : reads (unless b e) w (λ _, b = true).
Proof. destruct b; [by exists (Ok tt)|by exists (Err e)]. Qed.

Lemma ok_or_total {A} (o : option A) (e : HsmErr) : ok_or o e ≠ Panic.
Proof. by destruct o. Qed.

Section env.
Variable env : LoginEnv.
Hypothesis Henv : env_ok env.

Lemma import_smk_reads seed bmk w : reads (Auth.import_smk_from_bmk env seed bmk) w (λ _, True).
Proof.
  unfold Auth.import_smk_from_bmk, Auth.dma_alloc.
  repeat (eapply reads_bind; [|intros ? _]).
  - apply (reads_lift _ _ (λ _, True)); [|done]. unfold Auth.get_bks1_from_bmk.
    pose proof (eo_svn _ Henv bmk). destruct (bmk_svn env bmk) as [[x|]| |]; [|done..]. cbn.
    apply ok_or_total.
  - by apply (reads_get _ (λ _, True)).
  - apply (reads_lift _ _ (λ _, True)); [apply ok_or_total|done].
  - apply reads_unless.
  - apply (reads_lift _ _ (λ _, True)); [|done].
    destruct (negb _); [done|apply (eo_gen _ Henv)].
  - apply (reads_lift _ _ (λ _, True)); [|done].
    match goal with |- context [bmk_unmask env ?a ?b] => pose proof (eo_unmask _ Henv a b) end.
    by destruct (bmk_unmask env _ _).
Qed.

Lemma session_key_reads rev seed reopen bmk w :
  rev_ok rev →
  reads (Auth.session_key_to_import env rev seed reopen bmk) w
    (λ key, length (SessionK.blob key) = 88 ∧ blob_rev (SessionK.blob key) = rev).
Proof.
  intros [H1 H2]. unfold Auth.session_key_to_import.
  repeat (eapply reads_bind; [|intros ? _]).
  - apply (reads_lift _ _ (λ _, True)); [|done]. unfold Bks.get_bks1_current.
    pose proof (eo_bks _ Henv) as Hl. by destruct (Bks.bks1_entries (bks_table env)).
  - by apply (reads_get _ (λ _, True)).
  - apply (reads_lift _ _ (λ _, True)); [|done]. unfold Auth.generate_bk_session.
    destruct (State.get_bk3_session _); [|done]. cbn. destruct (negb _); [done|apply (eo_gen _ Henv)].
  - instantiate (1 := λ _, True). destruct reopen as [id|].
    + eapply (reads_bind _ _ _ (λ _, True)); [apply reads_lift; [apply ok_or_total|done]|].
      intros b _. apply import_smk_reads.
    + apply reads_lift; [apply (eo_mk _ Henv)|done].
  - rewrite to_import_spec. apply reads_lift; [by destruct (_ && _)|].
    remember (to_le_bytes 4 (rev_major rev) ++ to_le_bytes 4 (rev_minor rev)) as rb eqn:Hrb.
    intros key. destruct (_ =? 8) eqn:Hr; [|done]. destruct (_ =? 80) eqn:Hs; [|done].
    apply Nat.eqb_eq in Hr, Hs. cbn [andb]. intros Heq. injection Heq as <-.
    cbn [SessionK.blob]. split; [rewrite length_app; lia|].
    unfold blob_rev. rewrite Hrb. clear Hrb. destruct rev as [x y]. cbn [rev_major rev_minor] in *. f_equal.
    + rewrite <- app_assoc, take_app_length' by (by rewrite length_to_le_bytes).
      by apply from_to_le_bytes.
    + rewrite <- app_assoc, drop_app_length', take_app_length' by (by rewrite length_to_le_bytes).
      by apply from_to_le_bytes.
Qed.

(** The slot a session is opened in: the first free one, or the one that
    waits to be reopened. *)
Definition opened_slot (ss : list slot) (reopen : option nat) : option nat :=
  match reopen with
  | None => fst <$> list_find (λ s, s = SlotFree) ss
  | Some id => if decide (ss !! id = Some SlotPending) then Some id else None
  end.

Lemma opened_slot_lt ss reopen id : opened_slot ss reopen = Some id → id < length ss.
Proof.
  destruct reopen as [i|]; cbn.
  - case_decide as Hi; [|done]. intros [= <-]. by eapply lookup_lt_Some.
  - destruct (list_find _ ss) as [[i s]|] eqn:Hf; [|done]. intros [= <-].
    apply list_find_Some in Hf as (Hi & _). by eapply lookup_lt_Some.
Qed.

Lemma sess_inv_fresh app K ss k id t :
  sess_inv app K ss → K !! k = None → ss !! id = Some (SlotActive t) → t ≠ k.
Proof. intros [Hkey _] Hnone Hs ->. destruct (Hkey id k Hs) as (le & ? & _). congruence. Qed.

(** A fresh session key in a slot that was not active. *)
Lemma sess_inv_open app K ss k le id :
  sess_inv app K ss → K !! k = None → session_key app le →
  sess_inv app (<[k := le]> K) (<[id := SlotActive k]> ss).
Proof.
  intros Hinv Hnone Hle. pose proof Hinv as [Hkey Hinj]. constructor.
  - intros i t [(-> & [= ->] & _)|[_ Hs]]%list_lookup_insert_Some.
    + exists le. by rewrite lookup_insert_eq.
    + rewrite lookup_insert_ne by (symmetry; by eapply sess_inv_fresh). eauto.
  - intros i j t [(-> & [= ->] & _)|[Hi Hs]]%list_lookup_insert_Some
      [(-> & Heq & _)|[Hj Hs']]%list_lookup_insert_Some.
    + done.
    + by destruct (sess_inv_fresh _ _ _ _ _ _ Hinv Hnone Hs').
    + injection Heq as ->. by destruct (sess_inv_fresh _ _ _ _ _ _ Hinv Hnone Hs).
    + eauto.
Qed.

Lemma sess_inv_extra app K ss k le :
  sess_inv app K ss → K !! k = None → sess_inv app (<[k := le]> K) ss.
Proof.
  intros Hinv Hnone. pose proof Hinv as [Hkey Hinj]. constructor; [|done].
  intros i t Hs. rewrite lookup_insert_ne by (symmetry; by eapply sess_inv_fresh). eauto.
Qed.

Lemma session_of_frame app K ss k le id i sl allow :
  sess_inv app K ss → K !! k = None → i ≠ id →
  session_of app (<[k := le]> K) (<[id := sl]> ss) i allow = session_of app K ss i allow.
Proof.
  intros Hinv Hnone Hne. unfold session_of. rewrite list_lookup_insert_ne by done.
  destruct (ss !! i) as [[|t|]|] eqn:Hs; try done. cbn.
  rewrite lookup_insert_ne by (symmetry; by eapply sess_inv_fresh). done.
Qed.

Lemma session_of_opened app K ss k b id allow :
  id < length ss →
  session_of app (<[k := session_le app b]> K) (<[id := SlotActive k]> ss) id allow
    = Ok (mkUserSession id (blob_rev b)).
Proof.
  intros Hid. unfold session_of. rewrite list_lookup_insert_eq by done. cbn.
  rewrite lookup_insert_eq. unfold access, spec_lookup. cbn. rewrite andb_false_r.
  cbn. by rewrite decide_True by done.
Qed.

Lemma length_slots t : length (slots t) = MAX_SESSIONS.
Proof. unfold slots. by rewrite length_fmap, length_seq. Qed.

(** The table part of [create_user_session]. *)
Definition place (reopen : option nat) (k : Z) : M HsmPartSessionTable HsmErr nat :=
  match reopen with
  | Some id => _ ← Sessions.recreate_session id k; mret id
  | None => Sessions.create_session k
  end.

Lemma place_run reopen k t :
  st_wf t →
  ∃ r t', place reopen k t = (r, t') ∧
    match r with
    | Ok id => opened_slot (slots t) reopen = Some id ∧ st_wf t' ∧
        slots t' = <[id := SlotActive k]> (slots t)
    | Err e => opened_slot (slots t) reopen = None ∧ slots t' = slots t ∧ st_wf t' ∧
        match reopen with
        | None => e = SessionLimitReached
        | Some id => e = match slot_target (slots t !! id) with Ok _ => InvalidState | Err e => e | Panic => e end
        end
    | Panic => False
    end.
Proof.
  intros Hwf. destruct reopen as [id|]; cbn [place opened_slot].
  - destruct (session_updates_refine t id k Hwf) as (_ & _ & t' & Hr & Hwf' & Hs').
    rewrite bind_cases, Hr. destruct (slots t !! id) as [[|v|]|] eqn:Hs; cbn in *.
    1,2,4: eexists _, t'; split; [done|]; by rewrite decide_False by done.
    by eexists _, t'.
  - pose proof (create_session_refines t k Hwf) as Hc.
    destruct (list_find _ (slots t)) as [[id s]|] eqn:Hf.
    + destruct Hc as (t' & -> & Hwf' & Hs'). by eexists _, t'.
    + rewrite Hc. by eexists _, t.
Qed.

Lemma place_on_sessions reopen k w :
  (match reopen with
   | Some sess_id => _ ← State.on_sessions (Sessions.recreate_session sess_id k); mret sess_id
   | None => State.on_sessions (Sessions.create_session k)
   end : M World HsmErr nat) w = State.on_sessions (place reopen k) w.
Proof.
  destruct reopen as [id|]; [|done]. unfold State.on_sessions, place. rewrite !bind_cases.
  by destruct (Sessions.recreate_session id k (session_table (pstore w))) as [[]].
Qed.

Lemma available_slot t :
  st_wf t →
  negb (bool_decide (@None nat = None) && (Sessions.get_available_session_count t =? 0)) = true →
  opened_slot (slots t) None ≠ None.
Proof.
  intros Hwf Hn. rewrite (proj2 (proj2 (session_lookups_refine t 0 Hwf))) in Hn. cbn [opened_slot].
  intros Hf. apply fmap_None in Hf. apply negb_true_iff in Hn. rewrite bool_decide_true in Hn by done.
  cbn [andb] in Hn. apply Nat.eqb_neq in Hn. apply Hn. apply length_zero_iff_nil.
  apply list_find_None in Hf. induction Hf as [|s l Hs Hl IH]; [done|].
  rewrite list.filter_cons, decide_False in Hn |- * by done. by apply IH.
Qed.

Lemma create_session_run rev seed reopen bmk w K ss :
  part_rep w K ss → sess_inv (app_of w) K ss → rev_ok rev →
  ∃ r w', Auth.create_user_session env rev seed reopen bmk w = (r, w') ∧
    match r with
    | Ok s => us_api_rev s = rev ∧ opened_slot ss reopen = Some (us_id s) ∧
        ∃ k b, K !! k = None ∧ blob_rev b = rev ∧ app_of w' = app_of w ∧
          part_rep w' (<[k := session_le (app_of w) b]> K) (<[us_id s := SlotActive k]> ss)
    | Err e => w' = w ∨
        ∃ id k b, reopen = Some id ∧ ss !! id ≠ Some SlotPending ∧ K !! k = None ∧
          app_of w' = app_of w ∧ part_rep w' (<[k := session_le (app_of w) b]> K) ss ∧
          e = match slot_target (ss !! id) with Err e => e | _ => InvalidState end
    | Panic => False
    end.
Proof.
  intros [HK Hwf <- Hc] Hinv Hrev. unfold Auth.create_user_session.
  rewrite bind_cases.
  destruct (session_key_reads rev seed reopen bmk w Hrev) as (r & -> & Hr).
  destruct r as [key|e|]; [|by eexists _, w; split; [done|left]|done].
  destruct Hr as [Hlen Hblob]. rewrite bind_cases. cbn [get]. rewrite bind_cases. unfold unless.
  destruct (negb _) eqn:Hfull; [|by eexists _, w; split; [done|left]]. cbn [mret M_ret]. rewrite bind_cases.
  destruct (import_session_key_rep w K key HK Hlen) as (r & w1 & -> & Hr).
  destruct r as [k|e|]; [|subst; by eexists _, w; split; [done|left]|done].
  destruct Hr as (mem' & n & -> & Hnone & -> & HK'). cbn [vk_key_id].
  rewrite bind_cases, place_on_sessions. unfold State.on_sessions.
  destruct (place_run reopen n (session_table (pstore w)) Hwf) as (r & t' & Hplace & Hr).
  cbn [pstore with_vault]. rewrite Hplace. destruct r as [id|e|]; [..|done].
  - destruct Hr as (Hop & Hwf' & Hs'). eexists _, _. split; [done|].
    cbn [us_api_rev us_id]. split_and!; [done..|]. exists n, (SessionK.blob key).
    split_and!; [done..|]. constructor; [exact HK'|exact Hwf'|exact Hs'|exact Hc].
  - destruct Hr as (Hop & Hs' & Hwf' & He). eexists _, _. split; [done|]. right.
    destruct reopen as [id|].
    + exists id, n, (SessionK.blob key). cbn [opened_slot] in Hop. case_decide as Hp; [done|].
      split_and!; [done..| |by destruct (slots (session_table (pstore w)) !! id) as [[]|]].
      constructor; [exact HK'|exact Hwf'|exact Hs'|exact Hc].
    + destruct (available_slot _ Hwf Hfull Hop).
Qed.


(** Opening a session.  With working drivers the command never panics.
    It succeeds only in the first free slot (a reopened session: only in its
    own slot, which must wait for renegotiation); then exactly one fresh key
    is in the vault, the session key, the slot names it, [user_session]
    gives the session with its revision back, and every other session is
    what it was.  When it fails nothing has changed, except that reopening a
    session that does not wait for it leaves the imported key behind. *)
Theorem open_session_exact rev seed reopen bmk w K ss :
  part_rep w K ss → sess_inv (app_of w) K ss → rev_ok rev →
  ∃ r w', Auth.create_user_session env rev seed reopen bmk w = (r, w') ∧
    match r with
    | Ok s => us_api_rev s = rev ∧ opened_slot ss reopen = Some (us_id s) ∧
        Part.user_session w' (us_id s) false = Ok s ∧
        (∀ id allow, id ≠ us_id s → Part.user_session w' id allow = Part.user_session w id allow) ∧
        ∃ k b, K !! k = None ∧
          part_rep w' (<[k := session_le (app_of w) b]> K) (<[us_id s := SlotActive k]> ss) ∧
          sess_inv (app_of w') (<[k := session_le (app_of w) b]> K) (<[us_id s := SlotActive k]> ss)
    | Err e => w' = w ∨
        ∃ id k b, reopen = Some id ∧ ss !! id ≠ Some SlotPending ∧ K !! k = None ∧
          part_rep w' (<[k := session_le (app_of w) b]> K) ss ∧
          e = match slot_target (ss !! id) with Err e => e | _ => InvalidState end
    | Panic => False
    end.
Proof.
  intros Hrep Hinv Hrev.
  destruct (create_session_run rev seed reopen bmk w K ss Hrep Hinv Hrev) as (r & w' & Hrun & Hr).
  exists r, w'. split; [done|]. destruct r as [[i v]|e|]; [..|done]; cbn [us_api_rev us_id] in *.
  2:{ destruct Hr as [->|(id & k & b & Hr)]; [by left|right]. exists id, k, b. naive_solver. }
  destruct Hr as (-> & Hop & k & b & Hnone & Hb & Happ & Hrep').
  assert (sess_inv (app_of w') (<[k := session_le (app_of w) b]> K) (<[i := SlotActive k]> ss)) as Hinv'.
  { rewrite Happ. apply sess_inv_open; [done..|apply session_le_key]. }
  split_and!; [done..| | |exists k, b; by split_and!].
  - rewrite (user_session_rep w' _ _ i false Hrep' Hinv'), Happ.
    rewrite session_of_opened, Hb; [done|]. by apply (opened_slot_lt ss reopen).
  - intros id allow Hne. rewrite (user_session_rep w' _ _ id allow Hrep' Hinv'), Happ.
    rewrite session_of_frame by done. by rewrite (user_session_rep w K ss).
Qed.

(** ** Credentials *)

Lemma derive_keys_reads w :
  reads (Auth.derive_keys env) w
    (λ keys, length keys = 144 ∧ ∃ secret, ecdh_secret env = Ok secret ∧
       hkdf_sha384 env secret (nonce (pstore w)) = Ok keys).
Proof.
  unfold Auth.derive_keys, Auth.dma_alloc.
  eapply (reads_bind _ _ _ (λ s, ecdh_secret env = Ok s)).
  { pose proof (eo_ecdh _ Henv). apply reads_lift; by destruct (ecdh_secret env). }
  intros secret Hs. eapply reads_bind; [apply reads_unless|intros _ _].
  eapply (reads_bind _ _ _ (λ w', w' = w)); [by apply reads_get|intros ? ->].
  pose proof (eo_hkdf _ Henv secret (nonce (pstore w))) as Hk.
  apply reads_lift; [by intros Hp; rewrite Hp in Hk|]. intros keys Hkeys. rewrite Hkeys in Hk.
  split; [done|]. by exists secret.
Qed.

(** The body the tag covers. *)
Definition tag_ok (keys : list Z) (c : EncryptedCredential) (body : list Z) (w : World) : Prop :=
  ∃ h, hmac_sha384 env (take 48 (drop 32 keys)) (body ++ iv c ++ nonce (pstore w)) = Ok h ∧
    tag c = take 48 h.

Lemma verify_tag_reads k keys c body w :
  length keys = 144 →
  reads (Auth.verify_tag env k (take 48 (drop 32 keys)) c body) w (λ _, tag_ok keys c body w).
Proof.
  intros Hlen. unfold Auth.verify_tag, Auth.dma_alloc.
  eapply reads_bind; [apply reads_unless|intros _ _].
  eapply (reads_bind _ _ _ (λ w', w' = w)); [by apply reads_get|intros ? ->].
  eapply reads_bind; [apply reads_unless|intros _ _].
  set (m := body ++ iv c ++ nonce (pstore w)).
  pose proof (eo_hmac _ Henv (take 48 (drop 32 keys)) m) as Hh.
  eapply (reads_bind _ _ _ (λ h, hmac_sha384 env (take 48 (drop 32 keys)) m = Ok h ∧ length h = 64)).
  { apply reads_lift; [by intros Hp; rewrite Hp in Hh|]. intros h Hhm. by rewrite Hhm in Hh. }
  intros h [Hhm Hl]. rewrite slice_ok by lia. rewrite drop_0.
  eapply (reads_bind _ _ _ (λ h', h' = take 48 h)); [by apply reads_lift; [|intros ? [= <-]]|].
  intros ? ->. destruct (reads_unless (bool_decide (tag c = take 48 h)) PinDecryptionFailed w)
    as (r & Hr & Hb).
  exists r. split; [done|]. destruct r; [|done..]. apply bool_decide_eq_true in Hb. by exists h.
Qed.

Lemma session_tag_reads keys c w :
  length keys = 144 →
  reads (Auth.verify_encrypted_session_credential_tag env (take 48 (drop 32 keys)) c) w
    (λ _, tag_ok keys c (encrypted_id c ++ encrypted_pin c ++ encrypted_seed c) w).
Proof.
  intros Hlen. eapply reads_bind; [apply reads_unless|intros _ _]. by apply verify_tag_reads.
Qed.

Lemma establish_tag_reads keys c w :
  length keys = 144 →
  reads (Auth.verify_encrypted_establish_credential_tag env (take 48 (drop 32 keys)) c) w
    (λ _, tag_ok keys c (encrypted_id c ++ encrypted_pin c) w).
Proof.
  intros Hlen. eapply reads_bind; [apply reads_unless|intros _ _]. by apply verify_tag_reads.
Qed.

Lemma verify_nonce_reads w n :
  reads (lift (Part.verify_nonce w n)) w (λ _, n = nonce (pstore w)).
Proof.
  unfold Part.verify_nonce. case_bool_decide as Hn; by apply reads_lift.
Qed.

Lemma decrypt_reads k key text v w :
  reads (Auth.decrypt_credential env k key text v) w
    (λ d, aes_cbc_decrypt env key v text = Some d).
Proof.
  unfold Auth.decrypt_credential, Auth.dma_alloc.
  eapply reads_bind; [apply reads_unless|intros _ _].
  apply reads_lift; [apply ok_or_total|]. intros d.
  destruct (aes_cbc_decrypt _ _ _ _); [|done]. by intros [= ->].
Qed.

(** The outcome of a credential check: refused with nothing changed, or
    accepted for the current nonce, which is then replaced. *)
Definition accepted (c : EncryptedCredential) (body : list Z) (w : World) (keys : list Z) : Prop :=
  cred_nonce c = nonce (pstore w) ∧ length keys = 144 ∧
  (∃ secret, ecdh_secret env = Ok secret ∧ hkdf_sha384 env secret (nonce (pstore w)) = Ok keys) ∧
  tag_ok keys c body w.

(** The three fields of a session credential, deciphered in order. *)
Definition deciphered (keys : list Z) (c : EncryptedCredential) (uid upin seed : list Z) : Prop :=
  ∃ iv1 iv2 iv3, let key := take 32 keys in
    aes_cbc_decrypt env key (iv c) (encrypted_id c) = Some (uid, iv1) ∧
    aes_cbc_decrypt env key iv1 (encrypted_pin c) = Some (upin, iv2) ∧
    aes_cbc_decrypt env key iv2 (encrypted_seed c) = Some (seed, iv3).

(** The world once the nonce is replaced. *)
Definition renewed (w : World) : World :=
  next_draw (with_pstore (Per.set_nonce (rng_bytes (rng_draws w) 32)) w).

Lemma reads_ok {A B} (m : M World HsmErr A) (f : A → M World HsmErr B) w P (Q : _ → Prop) :
  reads m w P → (∀ e, Q (Err e, w)) → (∀ a, P a → Q (f a w)) → Q ((m ≫= f) w).
Proof. intros (r & Hr & HP) He Hf. rewrite bind_cases, Hr. destruct r; [by apply Hf|auto|done]. Qed.

Lemma authorize_run uid upin w :
  let '(r, w') := Part.authorize_user_with_pin_policy (tsc_now env) (tsc_now' env) uid upin w in
  (∃ p, w' = with_pstore (Per.set_pin_policy p) w) ∧ r ≠ Panic ∧
  (r = Ok tt → Cred.authorize_user uid upin (cred_mgr (part w)) = true ∧
     Pin.can_login (tsc_now env) (pin_policy (pstore w)) = true).
Proof.
  unfold Part.authorize_user_with_pin_policy, Login.authorize_user_with_pin_policy, Pin.enforce_pin_policy.
  cbn [Login.cred_mgr Login.pin_policy_mgr].
  destruct (Pin.can_login _ _) eqn:Hc; cbn [negb]; [|by split_and!; [eexists|..]].
  destruct (Cred.authorize_user uid upin (cred_mgr (part w))); by split_and!; [eexists|..].
Qed.

(** The volatile state an accepted credential leaves. *)
Definition kept (w w' : World) : Prop :=
  part w' = part w ∧ pka_ctxs w' = pka_ctxs w ∧ rng_draws w' = S (rng_draws w).

(** The keys and slots [end_open_user_session] leaves. *)
Definition opened (app : Z) (K : KeyMap) (ss : list slot) (reopen : option nat)
    (r : outcome HsmErr UserSession) (w' : World) : Prop :=
  match r with
  | Ok s => opened_slot ss reopen = Some (us_id s) ∧
      ∃ k b, K !! k = None ∧
        part_rep w' (<[k := session_le app b]> K) (<[us_id s := SlotActive k]> ss)
  | Err e => part_rep w' K ss ∨
      ∃ id k b, reopen = Some id ∧ ss !! id ≠ Some SlotPending ∧ K !! k = None ∧
        part_rep w' (<[k := session_le app b]> K) ss
  | Panic => False
  end.

(** The invariant of sessions and keys. *)
Definition sessions_ok (w : World) : Prop :=
  ∃ K ss, part_rep w K ss ∧ sess_inv (app_of w) K ss.

Lemma opened_ok app K ss reopen r w' :
  sess_inv app K ss → app_of w' = app → opened app K ss reopen r w' → sessions_ok w'.
Proof.
  intros Hinv <- Ho. unfold opened in Ho. destruct r as [s|e|]; [..|done].
  - destruct Ho as (_ & k & b & Hnone & Hrep'). eexists _, _. split; [done|].
    apply sess_inv_open; [done..|apply session_le_key].
  - destruct Ho as [Ho|(id & k & b & _ & _ & Hnone & Hrep')]; [by exists K, ss|].
    eexists _, _. split; [done|]. by apply sess_inv_extra.
Qed.

(** What a run that got past the tag leaves. *)
Definition logged_in (c : EncryptedCredential) (w : World) (keys : list Z) (K : KeyMap)
    (ss : list slot) (reopen : option nat) (r : outcome HsmErr UserSession) (w' : World) : Prop :=
  nonce (pstore w') = rng_bytes (rng_draws w) 32 ∧ r ≠ Panic ∧
  (∀ s, r = Ok s → ∃ uid upin seed, deciphered keys c uid upin seed ∧
     Cred.authorize_user uid upin (cred_mgr (part w)) = true ∧
     Pin.can_login (tsc_now env) (pin_policy (pstore w)) = true) ∧
  kept w w' ∧ opened (app_of w) K ss reopen r w'.

Definition same_volatile (w w' : World) : Prop :=
  nonce (pstore w') = nonce (pstore w) ∧ part w' = part w ∧ rng_draws w' = rng_draws w ∧
  pka_ctxs w' = pka_ctxs w.

Lemma create_session_nonce rev seed reopen bmk w r w' :
  Auth.create_user_session env rev seed reopen bmk w = (r, w') → rev_ok rev →
  same_volatile w w'.
Proof.
  intros Hrun Hrev. revert Hrun. unfold Auth.create_user_session.
  eapply (reads_ok _ _ _ _ (λ x, x = (r, w') → same_volatile w w'));
    [by apply session_key_reads|by intros e [= _ <-]|]. intros key _.
  rewrite bind_cases. cbn [get]. rewrite bind_cases. unfold unless.
  destruct (negb _); [|by intros [= _ <-]]. cbn [mret M_ret]. rewrite bind_cases.
  unfold State.on_vault. destruct (Vault.import_session_key _ _ _) as [[k|e|] m].
  2,3: by intros [= _ <-].
  rewrite bind_cases, place_on_sessions. unfold State.on_sessions.
  destruct (place _ _ _) as [[id|e|] t]; by intros [= _ <-].
Qed.

Lemma create_session_opened rev seed reopen bmk w K ss r w' :
  part_rep w K ss → sess_inv (app_of w) K ss → rev_ok rev →
  Auth.create_user_session env rev seed reopen bmk w = (r, w') → opened (app_of w) K ss reopen r w'.
Proof.
  intros Hrep Hinv Hrev Hrun.
  destruct (create_session_run rev seed reopen bmk w K ss Hrep Hinv Hrev) as (r' & w1 & Hrun' & Hr).
  rewrite Hrun in Hrun'. injection Hrun' as <- <-. destruct r as [s|e|]; [naive_solver| |done].
  destruct Hr as [->|(id & k & b & ? & ? & ? & _ & ? & _)]; [by left|right]. by exists id, k, b.
Qed.

Lemma login_rest rev c reopen bmk keys w K ss :
  part_rep w K ss → sess_inv (app_of w) K ss → rev_ok rev → length keys = 144 →
  ∃ r w',
    (_ ← State.reset_nonce;
     aes_key ← lift (slice keys 0 32);
     d ← Auth.decrypt_credential env 3 aes_key (encrypted_id c) (iv c);
     let '(id, iv) := d in
     d ← Auth.decrypt_credential env 4 aes_key (encrypted_pin c) iv;
     let '(pin, iv) := d in
     d ← Auth.decrypt_credential env 5 aes_key (encrypted_seed c) iv;
     let '(seed, _) := d in
     _ ← Part.authorize_user_with_pin_policy (tsc_now env) (tsc_now' env) id pin;
     Auth.create_user_session env rev seed reopen bmk) w = (r, w') ∧ logged_in c w keys K ss reopen r w'.
Proof.
  intros Hrep Hinv Hrev Hlen. rewrite (bind_ok _ _ _ tt (renewed w)) by done.
  rewrite slice_ok, drop_0 by lia. rewrite (bind_ok _ _ _ (take 32 keys) (renewed w)) by done.
  assert (∀ e : HsmErr, ∃ r w', (Err e, renewed w) = (r, w') ∧ logged_in c w keys K ss reopen r w') as Herr.
  { intros e. eexists _, _. split; [done|]. unfold logged_in, kept. split_and!; try done.
    left. destruct Hrep. by constructor. }
  eapply (reads_ok _ _ _ _ (λ x, ∃ r w', x = (r, w') ∧ logged_in c w keys K ss reopen r w'));
    [apply decrypt_reads|done|]. intros [uid iv1] Hd1.
  eapply (reads_ok _ _ _ _ (λ x, ∃ r w', x = (r, w') ∧ logged_in c w keys K ss reopen r w'));
    [apply decrypt_reads|done|]. intros [upin iv2] Hd2.
  eapply (reads_ok _ _ _ _ (λ x, ∃ r w', x = (r, w') ∧ logged_in c w keys K ss reopen r w'));
    [apply decrypt_reads|done|]. intros [seed iv3] Hd3.
  rewrite bind_cases. pose proof (authorize_run uid upin (renewed w)) as Ha.
  destruct (Part.authorize_user_with_pin_policy _ _ _ _ _) as [r2 w2].
  destruct Ha as ([p ->] & Hnp & Hauth). set (w2 := with_pstore _ _).
  assert (part_rep w2 K ss) as Hrep2 by (destruct Hrep; by constructor).
  destruct r2 as [[]|e|]; [| |done].
  2:{ eexists _, _. split; [done|]. unfold logged_in, kept. split_and!; try done. by left. }
  destruct (create_session_run rev seed reopen bmk w2 K ss Hrep2 Hinv Hrev) as (r & w' & Hrun & Hr).
  destruct (create_session_nonce _ _ _ _ _ _ _ Hrun Hrev) as (Hn & Hp & Hd & Hx).
  exists r, w'. split; [done|]. unfold logged_in, kept. split_and!.
  - done.
  - by destruct r.
  - intros s _. exists uid, upin, seed. split; [by exists iv1, iv2, iv3|]. by apply Hauth.
  - done.
  - done.
  - done.
  - by eapply (create_session_opened rev seed reopen bmk w2 K ss r w').
Qed.

Definition session_body (c : EncryptedCredential) : list Z :=
  encrypted_id c ++ encrypted_pin c ++ encrypted_seed c.

Lemma login_run rev c reopen bmk w K ss :
  part_rep w K ss → sess_inv (app_of w) K ss → rev_ok rev →
  ∃ r w', Auth.end_open_user_session env rev c reopen bmk w = (r, w') ∧
    ((w' = w ∧ ∃ e, r = Err e) ∨
     ∃ keys, accepted c (session_body c) w keys ∧ logged_in c w keys K ss reopen r w').
Proof.
  intros Hrep Hinv Hrev. unfold Auth.end_open_user_session.
  assert (∀ e : HsmErr, ∃ r w', (Err e, w) = (r, w') ∧
    ((w' = w ∧ ∃ e, r = Err e) ∨
     ∃ keys, accepted c (session_body c) w keys ∧ logged_in c w keys K ss reopen r w')) as Herr.
  { intros e. eexists _, _. split; [done|]. left. eauto. }
  eapply (reads_ok _ _ _ _ (λ x, ∃ r w', x = (r, w') ∧ _)); [apply derive_keys_reads|done|].
  intros keys [Hlen Hsec]. rewrite (bind_ok _ _ _ w w) by done.
  eapply (reads_ok _ _ _ _ (λ x, ∃ r w', x = (r, w') ∧ _)); [apply verify_nonce_reads|done|].
  intros [] Hnonce. rewrite (slice_ok 32 48 keys) by lia.
  rewrite (bind_ok _ _ _ (take 48 (drop 32 keys)) w) by done.
  eapply (reads_ok _ _ _ _ (λ x, ∃ r w', x = (r, w') ∧ _)); [by apply session_tag_reads|done|].
  intros ? Htag. destruct (login_rest rev c reopen bmk keys w K ss Hrep Hinv Hrev Hlen)
    as (r & w' & Hrun & Hl).
  exists r, w'. split; [exact Hrun|]. right. by exists keys.
Qed.

(** C16: a session is opened only with the user's credential.  A run either
    changes nothing and fails, or its credential named the current nonce and
    its tag is the HMAC of the encrypted fields, the IV and that nonce under
    the agreed key; then the nonce has been replaced, whatever happens
    afterwards, and success means that the decrypted id and PIN are the
    user's and that the PIN policy admitted the attempt. *)
Theorem login_authenticated rev c reopen bmk w K ss :
  part_rep w K ss → sess_inv (app_of w) K ss → rev_ok rev →
  ∃ r w', Auth.end_open_user_session env rev c reopen bmk w = (r, w') ∧
    ((w' = w ∧ ∃ e, r = Err e) ∨
     ∃ keys, accepted c (session_body c) w keys ∧
       nonce (pstore w') = rng_bytes (rng_draws w) 32 ∧ r ≠ Panic ∧
       ∀ s, r = Ok s → ∃ uid upin seed, deciphered keys c uid upin seed ∧
         Cred.authorize_user uid upin (cred_mgr (part w)) = true ∧
         Pin.can_login (tsc_now env) (pin_policy (pstore w)) = true).
Proof.
  intros Hrep Hinv Hrev. destruct (login_run rev c reopen bmk w K ss Hrep Hinv Hrev)
    as (r & w' & Hrun & [Hr|(keys & Ha & Hn & Hp & Hs & _)]); exists r, w'; split; try done.
  - by left.
  - right. by exists keys.
Qed.

End env.
End sessions.
