(* ===== verification/PartitionCredentials.v ===== *)
(** * Establishing the credential, and replays

    The credential of a partition is set once, by [end_establish_credential];
    over any sequence of the two commands that check an encrypted credential
    no nonce is accepted twice. *)

From stdpp Require Import base list numbers option gmap.
From S2P Require Import Prelude HsmError KeyEntry Crates KeyTable KeyTableSpec KeyTableRefine KeyTableOps KeyStore KeyStoreProps StoreInterface VaultKeys KeyVault VaultProps.
From S2P Require Import SessionTable PinPolicy CdmaVault Partition PartitionLogin PartitionProps PartitionSessions.

Section credentials.
Context `{ZC : Zerocopy, ZZ : Zeroize, BC : BitCrate, RNG : Rng}.

#[local] Abbreviation st_of w := (mkKeyStoreImpl (rgs (part w))).

(** The user's vault is not the one of the internal keys, and key ids are
    [u16]. *)
Definition login_inv (w : World) : Prop :=
  sessions_ok w ∧ app_of w ≠ APP_VAULT_ID_FOR_INTERNAL_KEYS ∧
  ∀ k, establish_cred_encryption_key_id (part w) = Some k → uint_range 16 k.

(** Deleting or disabling an internal key keeps the sessions. *)
Lemma sess_inv_other app K K' ss n :
  sess_inv app K ss → (∀ m, m ≠ n → K' !! m = K !! m) →
  (∀ le, K !! n = Some le → le_app_id le ≠ app) → sess_inv app K' ss.
Proof.
  intros [Hkey Hinj] Heq Happ. constructor; [|done]. intros id k Hs.
  destruct (Hkey id k Hs) as (le & Hk & Hle). exists le. split; [|done].
  rewrite Heq; [done|]. intros ->. by destruct (Happ le Hk), Hle.
Qed.

Lemma access_app o app session allow le : access o app session allow = Ok le → le_app_id le = app.
Proof.
  unfold access. destruct (spec_lookup o allow) as [le'|e|]; [|done..]. cbn.
  case_decide as Hm; [|done]. intros [= <-]. by destruct Hm.
Qed.

Lemma delete_ignored_run k w :
  sessions_ok w → app_of w ≠ APP_VAULT_ID_FOR_INTERNAL_KEYS → uint_range 16 k →
  ∃ mem', Auth.delete_ignored k w = (Ok tt, with_vault mem' w) ∧ sessions_ok (with_vault mem' w).
Proof.
  intros (K & ss & Hrep & Hinv) Happ Hk. pose proof Hrep as [HK Hwf Hs Hc].
  unfold Auth.delete_ignored, Part.delete_internal_key. rewrite (bind_ok _ _ _ w w) by done.
  unfold State.on_vault, State.vault.
  pose proof (delete_key_exact (Spec := key_store_spec (st_of w)) (vault_mem w) K
    APP_VAULT_ID_FOR_INTERNAL_KEYS KEY_TAG_UNASSIGNED k (Part.key_in_use w) HK Hk) as Hdel.
  destruct (access (K !! k) APP_VAULT_ID_FOR_INTERNAL_KEYS KEY_TAG_UNASSIGNED true) as [le|e|] eqn:Ha;
    [..|done].
  - destruct Hdel as (mem' & -> & HK'). exists mem'. split; [by destruct (Part.key_in_use w k)|].
    eexists _, ss. split; [constructor; [exact HK'|done..]|].
    apply (sess_inv_other _ K _ _ k); [done|..].
    + intros m Hm. destruct (Part.key_in_use w k);
        [by rewrite lookup_insert_ne|by rewrite lookup_delete_ne].
    + intros le' Hle'. pose proof (access_Some _ _ _ _ _ Ha) as Hs'.
      pose proof (access_app _ _ _ _ _ Ha) as Hl. rewrite Hs' in Hle'. injection Hle' as <-.
      intros He. apply Happ. by transitivity (le_app_id le).
  - rewrite Hdel. exists (vault_mem w). destruct w. by split; [|exists K, ss].
Qed.

Definition establish_body (c : EncryptedCredential) : list Z := encrypted_id c ++ encrypted_pin c.

(** What a run that got past the tag leaves. *)
Definition established (env : LoginEnv) (c : EncryptedCredential) (w : World) (keys : list Z)
    (r : outcome HsmErr ()) (w' : World) : Prop :=
  Cred.verify_user_cred_is_set (cred_mgr (part w)) = false ∧
  nonce (pstore w') = rng_bytes (rng_draws w) 32 ∧ rng_draws w' = S (rng_draws w) ∧ r ≠ Panic ∧
  match r with
  | Ok _ => ∃ uid upin iv1 iv2, let key := take 32 keys in
      aes_cbc_decrypt env key (iv c) (encrypted_id c) = Some (uid, iv1) ∧
      aes_cbc_decrypt env key iv1 (encrypted_pin c) = Some (upin, iv2) ∧
      Cred.id (cred_mgr (part w')) = uid ∧ Cred.pin (cred_mgr (part w')) = upin ∧
      Cred.verify_user_cred_is_set (cred_mgr (part w')) = true ∧
      establish_cred_encryption_key_id (part w') = None
  | _ => part w' = part w
  end.

Section env.
Variable env : LoginEnv.
Hypothesis Henv : env_ok env.

Lemma change_cred_run uid upin c :
  ∃ r c', Cred.change_user_cred uid upin c = (r, c') ∧ Cred.vault_id c' = Cred.vault_id c ∧
    match r with
    | Ok _ => Cred.id c' = uid ∧ Cred.pin c' = upin ∧ Cred.verify_user_cred_is_set c' = true
    | Err _ => c' = c
    | Panic => False
    end.
Proof.
  unfold Cred.change_user_cred. destruct (_ || _); [by eexists _, _|].
  destruct (bool_decide (uid = _) || bool_decide (upin = _)) eqn:Hz; [by eexists _, _|].
  apply orb_false_iff in Hz as [H1 H2]. eexists _, _. split; [done|].
  unfold Cred.verify_user_cred_is_set. cbn [Cred.id Cred.pin Cred.vault_id]. by rewrite H1, H2.
Qed.

(** The end of the command: the credential is set and the key deleted. *)
Lemma set_credential_run uid upin w :
  login_inv w →
  ∃ r w',
    (_ ← State.on_cred (Cred.change_user_cred uid upin);
     w ← get;
     match establish_cred_encryption_key_id (part w) with
     | None => mret tt
     | Some key_id =>
         _ ← modify (with_part (PS.set_establish_cred_encryption_key_id None));
         Auth.delete_ignored key_id
     end) w = (r, w') ∧ login_inv w' ∧ pstore w' = pstore w ∧ rng_draws w' = rng_draws w ∧
    match r with
    | Ok _ => Cred.id (cred_mgr (part w')) = uid ∧ Cred.pin (cred_mgr (part w')) = upin ∧
        Cred.verify_user_cred_is_set (cred_mgr (part w')) = true ∧
        establish_cred_encryption_key_id (part w') = None
    | Err _ => part w' = part w
    | Panic => False
    end.
Proof.
  intros ((K & ss & Hrep & Hinv) & Happ & Hid).
  destruct (change_cred_run uid upin (cred_mgr (part w))) as (r & c' & Hc & Hv & Hr).
  rewrite bind_cases. unfold State.on_cred at 1. rewrite Hc.
  set (w1 := with_part (PS.set_cred_mgr c') w).
  assert (app_of w1 = app_of w) as Happ1 by exact Hv.
  assert (sessions_ok w1) as Hs1.
  { exists K, ss. split; [destruct Hrep; by constructor|by rewrite Happ1]. }
  destruct r as [[]|e|]; [| |done].
  2:{ subst c'. exists (Err e), w1. destruct w as [[] ? ? ? ? ? ?]. by split_and!. }
  destruct Hr as (H1 & H2 & H3). rewrite (bind_ok _ _ _ w1 w1) by done.
  change (establish_cred_encryption_key_id (part w1)) with (establish_cred_encryption_key_id (part w)).
  destruct (establish_cred_encryption_key_id (part w)) as [k|] eqn:Hk.
  - set (w2 := with_part (PS.set_establish_cred_encryption_key_id None) w1).
    rewrite (bind_ok _ _ _ tt w2) by done.
    assert (sessions_ok w2) as Hs2.
    { exists K, ss. split; [destruct Hrep; by constructor|by rewrite <- Happ1 in Hinv]. }
    destruct (delete_ignored_run k w2 Hs2) as (mem' & -> & Hs3); [by rewrite <- Happ1 in Happ|auto|].
    eexists _, _. split; [done|]. split_and!; try done. by rewrite <- Happ1 in Happ.
  - exists (Ok tt), w1. split; [done|]. split; [|by split_and!].
    split_and!; [done|by rewrite Happ1|]. intros k Hk'. change (establish_cred_encryption_key_id (part w) = Some k) in Hk'. congruence.
Qed.

Lemma establish_run c w :
  login_inv w →
  ∃ r w', Auth.end_establish_credential env c w = (r, w') ∧
    ((w' = w ∧ ∃ e, r = Err e) ∨
     ∃ keys, accepted env c (establish_body c) w keys ∧ established env c w keys r w' ∧ login_inv w').
Proof.
  intros Hinv. unfold Auth.end_establish_credential.
  assert (∀ e : HsmErr, ∃ r w', (Err e, w) = (r, w') ∧ ((w' = w ∧ ∃ e, r = Err e) ∨
     ∃ keys, accepted env c (establish_body c) w keys ∧ established env c w keys r w' ∧
       login_inv w')) as Herr.
  { intros e. eexists _, _. split; [done|]. left. eauto. }
  eapply (reads_ok _ _ _ _ (λ x, ∃ r w', x = (r, w') ∧ _)); [by apply derive_keys_reads|done|].
  intros keys [Hlen Hsec]. rewrite (bind_ok _ _ _ w w) by done.
  eapply (reads_ok _ _ _ _ (λ x, ∃ r w', x = (r, w') ∧ _)); [apply verify_nonce_reads|done|].
  intros [] Hnonce.
  eapply (reads_ok _ _ _ (λ _, Cred.verify_user_cred_is_set (cred_mgr (part w)) = false)
    (λ x, ∃ r w', x = (r, w') ∧ _)); [|done|].
  { apply reads_lift; unfold Part.verify_cred_is_not_set;
      by destruct (Cred.verify_user_cred_is_set _). }
  intros [] Hset. rewrite (slice_ok 32 48 keys) by lia.
  rewrite (bind_ok _ _ _ (take 48 (drop 32 keys)) w) by done.
  eapply (reads_ok _ _ _ _ (λ x, ∃ r w', x = (r, w') ∧ _)); [by apply establish_tag_reads|done|].
  intros ? Htag. assert (accepted env c (establish_body c) w keys) as Hacc by done.
  clear Herr Htag Hnonce Hsec.
  assert (login_inv (renewed w)) as Hinv'.
  { destruct Hinv as ((K & ss & Hrep & Hsi) & Happ & Hid). split_and!; [|done..].
    exists K, ss. split; [destruct Hrep; by constructor|done]. }
  rewrite (bind_ok _ _ _ tt (renewed w)) by done.
  rewrite (slice_ok 0 32 keys), drop_0 by lia.
  rewrite (bind_ok _ _ _ (take 32 keys) (renewed w)) by done.
  assert (∀ e : HsmErr, ∃ r w', (Err e, renewed w) = (r, w') ∧ ((w' = w ∧ ∃ e, r = Err e) ∨
     ∃ keys, accepted env c (establish_body c) w keys ∧ established env c w keys r w' ∧
       login_inv w')) as Herr.
  { intros e. eexists _, _. split; [done|]. right. by exists keys. }
  eapply (reads_ok _ _ _ _ (λ x, ∃ r w', x = (r, w') ∧ _)); [apply decrypt_reads|done|].
  intros [uid iv1] Hd1.
  eapply (reads_ok _ _ _ _ (λ x, ∃ r w', x = (r, w') ∧ _)); [apply decrypt_reads|done|].
  intros [upin iv2] Hd2.
  destruct (set_credential_run uid upin (renewed w) Hinv') as (r & w' & Hrun & Hinv2 & Hp & Hd & Hr).
  exists r, w'. split; [exact Hrun|]. right. exists keys. split_and!; [done| |done].
  unfold established. rewrite Hp, Hd. split_and!; try done; [by destruct r|].
  destruct r; [|done..]. exists uid, upin, iv1, iv2. naive_solver.
Qed.

End env.

(** C19: the credential is established once.  With working drivers the command
    never panics; it changes nothing and fails unless no credential is set,
    the request names the current nonce and its tag is the HMAC under the
    agreed key.  Then the nonce is replaced, and on success the credential is
    the decrypted id and PIN, is set, so that every later attempt fails and
    changes nothing, and the key agreement key is forgotten; on failure the
    partition's own state is unchanged. *)
Theorem establish_once env c w :
  env_ok env → login_inv w →
  ∃ r w', Auth.end_establish_credential env c w = (r, w') ∧
    ((w' = w ∧ ∃ e, r = Err e) ∨
     ∃ keys, accepted env c (establish_body c) w keys ∧ established env c w keys r w') ∧
    (r = Ok tt → ∀ env' c' w'', env_ok env' → login_inv w'' →
       cred_mgr (part w'') = cred_mgr (part w') →
       ∃ e, Auth.end_establish_credential env' c' w'' = (Err e, w'')).
Proof.
  intros Henv Hinv. destruct (establish_run env Henv c w Hinv) as (r & w' & Hrun & Hr).
  exists r, w'. split; [done|]. split; [naive_solver|].
  intros -> env' c' w'' Henv' Hinv'' Hcred.
  destruct (establish_run env' Henv' c' w'' Hinv'') as (r2 & w2 & -> & [[-> [e ->]]|(k2 & _ & He & _)]).
  - by exists e.
  - destruct Hr as [[_ [e [=]]]|(k1 & _ & He1 & _)]. destruct He as [He _]. rewrite Hcred in He.
    destruct He1 as (_ & _ & _ & _ & uid & upin & iv1 & iv2 & _ & _ & _ & _ & Hset & _). congruence.
Qed.

(** ** Replays *)

Inductive Attempt : Type :=
  | Establish (env : LoginEnv) (c : EncryptedCredential)
  | Open (env : LoginEnv) (rev : DdiApiRev) (c : EncryptedCredential) (reopen : option nat)
      (bmk : option (list Z)).

Definition attempt_ok (a : Attempt) : Prop :=
  match a with Establish env _ => env_ok env | Open env rev _ _ _ => env_ok env ∧ rev_ok rev end.
Definition attempt_cred (a : Attempt) : EncryptedCredential :=
  match a with Establish _ c => c | Open _ _ c _ _ => c end.
Definition attempt (a : Attempt) (w : World) : outcome HsmErr () * World :=
  match a with
  | Establish env c => Auth.end_establish_credential env c w
  | Open env rev c reopen bmk =>
      let '(r, w') := Auth.end_open_user_session env rev c reopen bmk w in ((λ _, tt) <$> r, w')
  end.
Definition attempts (l : list Attempt) (w : World) : World := foldl (λ w a, (attempt a w).2) w l.

(** An attempt has an effect when it succeeds or changes anything: a session
    or a key, the credential, the count of PIN failures, the nonce. *)
Definition effective (a : Attempt) (w : World) : Prop :=
  (attempt a w).1 = Ok tt ∨ (attempt a w).2 ≠ w.

Lemma attempt_step a w :
  attempt_ok a → login_inv w →
  login_inv (attempt a w).2 ∧
  ((∃ e, attempt a w = (Err e, w)) ∨
   (cred_nonce (attempt_cred a) = nonce (pstore w) ∧
    nonce (pstore (attempt a w).2) = rng_bytes (rng_draws w) 32 ∧
    rng_draws (attempt a w).2 = S (rng_draws w))).
Proof.
  intros Hok Hinv. destruct a as [env c|env rev c reopen bmk]; cbn [attempt attempt_cred].
  - destruct (establish_run env Hok c w Hinv) as (r & w' & -> & [[-> [e ->]]|(k & Ha & He & Hi)]); cbn [snd].
    + eauto.
    + split; [done|]. right. destruct Ha as [? _], He as (_ & ? & ? & _). done.
  - destruct Hok as [Henv Hrev], Hinv as ((K & ss & Hrep & Hsi) & Happ & Hid).
    destruct (login_run env Henv rev c reopen bmk w K ss Hrep Hsi Hrev)
      as (r & w' & -> & [[-> [e ->]]|(k & Ha & Hn & _ & _ & (Hp & _ & Hd) & Ho)]); cbn [snd].
    + split; [|eauto]. split_and!; [by exists K, ss|done..].
    + split; [|right; by destruct Ha as [? _]].
      assert (app_of w' = app_of w) as Happ' by (unfold app_of, Part.vault_id; by rewrite Hp).
      split_and!; [by eapply opened_ok|by rewrite Happ'|by rewrite Hp].
Qed.

(** An attempt that has an effect named the current nonce and replaced it. *)
Lemma effective_step a w :
  attempt_ok a → login_inv w → effective a w →
  cred_nonce (attempt_cred a) = nonce (pstore w) ∧
  nonce (pstore (attempt a w).2) = rng_bytes (rng_draws w) 32 ∧ rng_draws (attempt a w).2 = S (rng_draws w).
Proof.
  intros Hok Hinv Heff. destruct (attempt_step a w Hok Hinv) as [_ [[e He]|H]]; [|done].
  unfold effective in Heff. rewrite He in Heff. cbn in Heff. naive_solver.
Qed.

(** After any attempts the nonce is the first one or one drawn since. *)
Lemma attempts_nonce l w :
  Forall attempt_ok l → login_inv w →
  let w' := attempts l w in
  login_inv w' ∧ rng_draws w ≤ rng_draws w' ≤ rng_draws w + length l ∧
  ((rng_draws w' = rng_draws w ∧ nonce (pstore w') = nonce (pstore w)) ∨
   ∃ k, rng_draws w ≤ k < rng_draws w' ∧ nonce (pstore w') = rng_bytes k 32).
Proof.
  intros Hl. revert w. induction Hl as [|a l Ha Hl IH]; intros w Hinv; cbn [length attempts foldl].
  { split_and!; [done|lia|lia|by left]. }
  destruct (attempt_step a w Ha Hinv) as [Hinv' Hs]. destruct (IH _ Hinv') as (Hi & Hd & Hn).
  fold (attempts l (attempt a w).2) in *. split; [done|]. destruct Hs as [[e He]|(_ & Hn1 & Hd1)].
  - rewrite He in *. cbn [snd] in *. split; [lia|done].
  - rewrite Hd1 in *. split; [lia|]. right. destruct Hn as [[Hd2 Hn]|(k & Hk & Hn)].
    + exists (rng_draws w). split; [lia|congruence].
    + exists k. split; [lia|done].
Qed.

(** C15: no replay.  Take any sequence of attempts to establish the credential
    or to open and reopen sessions, whatever the host sends, with drivers that
    may fail but do not panic and answer with the documented sizes, and a
    random generator that does not repeat a nonce.  Once an attempt had an
    effect (it succeeded, or it changed anything, a count of PIN failures
    included), every later attempt with the same nonce fails and changes
    nothing, however many attempts are made in between: an encrypted
    credential is accepted at most once. *)
Theorem credentials_not_replayed (before between : list Attempt) (a b : Attempt) w :
  login_inv w → Forall attempt_ok (before ++ a :: between ++ [b]) →
  let n := rng_draws w + S (length before + length between) in
  (∀ j k, rng_draws w ≤ j < n → rng_draws w ≤ k < n → rng_bytes j 32 = rng_bytes k 32 → j = k) →
  (∀ k, rng_draws w ≤ k < n → rng_bytes k 32 ≠ nonce (pstore w)) →
  let wa := attempts before w in
  let wb := attempts between (attempt a wa).2 in
  effective a wa → cred_nonce (attempt_cred b) = cred_nonce (attempt_cred a) →
  ∃ e, attempt b wb = (Err e, wb).
Proof.
  intros Hinv [Hl1 [Ha [Hl2 [Hb _]%Forall_cons_iff]%Forall_app]%Forall_cons_iff]%Forall_app n Hinj Hfresh wa wb Heff Heq.
  destruct (attempts_nonce before w Hl1 Hinv) as (Hia & Hda & Hna). fold wa in Hia, Hda, Hna.
  destruct (effective_step a wa Ha Hia Heff) as (Hca & Hn1 & Hd1).
  destruct (attempt_step a wa Ha Hia) as [Hi1 _].
  destruct (attempts_nonce between _ Hl2 Hi1) as (Hib & Hdb & Hnb). fold wb in Hib, Hdb, Hnb.
  destruct (attempt_step b wb Hb Hib) as [_ [He|(Hcb & _ & _)]]; [done|exfalso].
  assert (∃ j, rng_draws wa ≤ j < rng_draws wa + S (length between) ∧ nonce (pstore wb) = rng_bytes j 32)
    as (j & Hj & Hnj).
  { destruct Hnb as [[_ ->]|(k & Hk & ->)].
    - exists (rng_draws wa). split; [lia|done].
    - exists k. split; [lia|done]. }
  assert (rng_bytes j 32 = nonce (pstore wa)) as Hsame by congruence.
  destruct Hna as [[Hd Hw]|(k & Hk & Hw)]; rewrite Hw in Hsame.
  - revert Hsame. apply Hfresh. lia.
  - apply Hinj in Hsame; lia.
Qed.

End credentials.
