(* ===== verification/PartitionClose.v ===== *)
(** * Closing sessions

    [close_user_session] of part.rs removes the keys of the session, with the
    bulk keys' slots, then the session key, then the slot of the session. *)

From stdpp Require Import base list numbers option gmap sets.
From S2P Require Import Prelude HsmError KeyEntry Crates KeyTable KeyTableSpec KeyTableRefine KeyTableOps KeyStore KeyStoreProps StoreInterface VaultKeys KeyVault VaultProps.
From S2P Require Import SessionTable PinPolicy CdmaVault Partition PartitionLogin PartitionProps PartitionSessions.

Section closing.
Context `{ZC : Zerocopy, ZZ : Zeroize, BC : BitCrate, RNG : Rng}.
Variable cdma_vault_addr : Z.

#[local] Abbreviation st_of w := (mkKeyStoreImpl (rgs (part w))).

(** ** The keys of a session *)

Lemma key_number_elem (n : Z) mem As le st :
  StoreRep mem As → uint_range 16 n → key_at st As n = Some le →
  ∃ t e, n = KeyNumber_new (Z.of_nat t) (Z.of_nat e) ∧ t ∈ seq 0 MAX_TABLE_COUNT ∧
    e ∈ seq 0 MAX_TABLE_ENTRY_COUNT.
Proof.
  intros HS Hn Hk.
  destruct (key_at_inv _ _ _ _ (sr_length _ _ HS) Hk) as (i & A & Hi & Ht & _ & HA & Ha).
  destruct (Forall2_lookup_r _ _ _ _ _ (sr_tables _ _ HS) HA) as (tb & _ & HR).
  exists i, (Z.to_nat (KeyNumber_entry n)). split_and!; [|done|].
  - rewrite Ht, Z2Nat.id by (pose proof (KeyNumber_entry_range n); unfold uint_range in *; lia).
    by rewrite KeyNumber_new_split.
  - apply elem_of_seq. apply lookup_lt_Some in Ha. rewrite (rep_length _ _ HR) in Ha. lia.
Qed.

Lemma seq_u8 i n : n ≤ 256 → i ∈ seq 0 n → uint_range 8 (Z.of_nat i).
Proof. intros Hn Hi%elem_of_seq. unfold uint_range. lia. Qed.

Definition all_key_numbers : list Z :=
  t ← seq 0 MAX_TABLE_COUNT; e ← seq 0 MAX_TABLE_ENTRY_COUNT;
  [KeyNumber_new (Z.of_nat t) (Z.of_nat e)].

Lemma elem_of_key_numbers n :
  n ∈ all_key_numbers ↔ ∃ t e, n = KeyNumber_new (Z.of_nat t) (Z.of_nat e) ∧
    t ∈ seq 0 MAX_TABLE_COUNT ∧ e ∈ seq 0 MAX_TABLE_ENTRY_COUNT.
Proof.
  unfold all_key_numbers. rewrite list_elem_of_bind. setoid_rewrite list_elem_of_bind.
  setoid_rewrite list_elem_of_singleton. naive_solver.
Qed.

Lemma key_numbers_range n : n ∈ all_key_numbers → uint_range 16 n.
Proof.
  intros (t & e & -> & Ht & He)%elem_of_key_numbers.
  apply KeyNumber_range; (eapply seq_u8; [|eassumption]); vm_compute; lia.
Qed.

Lemma elem_of_session_keys w K id n :
  store_keys (st_of w) (vault_mem w) K →
  n ∈ Part.session_keys w id ↔ ∃ le, K !! n = Some le ∧ session_sel (Z.of_nat id) le = true.
Proof.
  intros HK. unfold Part.session_keys. rewrite list_elem_of_filter. fold all_key_numbers.
  assert (∀ m, uint_range 16 m →
    match Store.get_entry (st_of w) (vault_mem w) m true with
    | Ok entry => Table.session_only_of (Z.of_nat id) entry | _ => false end = true ↔
    ∃ le, K !! m = Some le ∧ session_sel (Z.of_nat id) le = true) as Hm.
  { intros m Hm. destruct (store_get_entry_law (st_of w) (vault_mem w) K m true HK Hm) as [off ->].
    destruct (K !! m) as [le|]; cbn; [rewrite session_sel_of|]; naive_solver. }
  split.
  - intros [Hs Hn]. apply Hm; [by apply key_numbers_range|done].
  - intros (le & Hk & Hs). pose proof (store_keys_range _ _ _ _ _ HK Hk) as Hn.
    split; [apply Hm; [done|by exists le]|]. apply elem_of_key_numbers.
    destruct HK as (As & HS & HA & _). rewrite HA in Hk by done. by eapply key_number_elem.
Qed.

Lemma key_number_inj t e t' e' :
  t ∈ seq 0 MAX_TABLE_COUNT → t' ∈ seq 0 MAX_TABLE_COUNT →
  e ∈ seq 0 MAX_TABLE_ENTRY_COUNT → e' ∈ seq 0 MAX_TABLE_ENTRY_COUNT →
  KeyNumber_new (Z.of_nat t) (Z.of_nat e) = KeyNumber_new (Z.of_nat t') (Z.of_nat e') →
  t = t' ∧ e = e'.
Proof.
  intros Ht Ht' He He' Heq.
  assert (∀ i, i ∈ seq 0 MAX_TABLE_COUNT → uint_range 8 (Z.of_nat i)) as H1
    by (intros i; apply seq_u8; vm_compute; lia).
  assert (∀ i, i ∈ seq 0 MAX_TABLE_ENTRY_COUNT → uint_range 8 (Z.of_nat i)) as H2
    by (intros i; apply seq_u8; vm_compute; lia).
  split; apply Nat2Z.inj.
  - rewrite <- (KeyNumber_table_new (Z.of_nat t) (Z.of_nat e)) by auto.
    rewrite Heq. by apply KeyNumber_table_new; auto.
  - rewrite <- (KeyNumber_entry_new (Z.of_nat t) (Z.of_nat e)) by auto.
    rewrite Heq. by apply KeyNumber_entry_new; auto.
Qed.

Lemma key_numbers_NoDup : base.NoDup all_key_numbers.
Proof.
  unfold all_key_numbers. apply NoDup_bind; [..|apply NoDup_seq].
  - intros t t' n Ht Ht' (e & Hn & He)%list_elem_of_bind (e' & Hn' & He')%list_elem_of_bind.
    apply list_elem_of_singleton in Hn, Hn'. subst n. by apply (key_number_inj t e t' e').
  - intros t Ht. apply NoDup_bind; [..|apply NoDup_seq].
    + intros e e' n He He' Hn%list_elem_of_singleton Hn'%list_elem_of_singleton. subst n.
      by apply (key_number_inj t e t e').
    + intros e _. apply NoDup_singleton.
Qed.

Lemma session_keys_NoDup w id : base.NoDup (Part.session_keys w id).
Proof. apply list.NoDup_filter, key_numbers_NoDup. Qed.

(** ** The callback *)

(** The slot a bulk key's blob names. *)
Definition bulk_slot (le : LogicalEntry) : nat * nat := id_slot (from_le_bytes (take 2 (le_blob le))).

#[local] Abbreviation cdma w := (State.cdma_vault cdma_vault_addr w).

(** Whether the callback lets the key be deleted. *)
Definition deletable (w : World) (meta : Cdma.metadata) (n : Z) (le : LogicalEntry) : bool :=
  if is_bulk_key (le_kind le) then valid_in (cdma w) (bulk_slot le).1 && used meta (bulk_slot le)
  else negb (Part.key_in_use w n).

Lemma refuse_run w K meta n le :
  store_keys (st_of w) (vault_mem w) K → K !! n = Some le → cdma_wf meta →
  ∃ meta', Part.refuse cdma_vault_addr w n meta = (Ok (negb (deletable w meta n le)), meta') ∧
    cdma_wf meta' ∧
    ∀ p, p.2 < 8 → used meta' p =
      if is_bulk_key (le_kind le) && deletable w meta n le && bool_decide (p = bulk_slot le) then false
      else used meta p.
Proof.
  intros HK Hk Hwf. destruct (store_keys_wf _ _ _ _ _ HK Hk) as [Hn Hle].
  unfold Part.refuse, State.vault, Vault.key_unchecked, deletable.
  rewrite (vkey_kind_rep (Spec := key_store_spec (st_of w)) (vault_mem w) K), Hk by done.
  destruct (is_bulk_key (le_kind le)) eqn:Hb; cbn [negb].
  2:{ rewrite negb_involutive. exists meta. done. }
  rewrite (vkey_blob_rep (Spec := key_store_spec (st_of w)) (vault_mem w) K), Hk by done.
  assert (length (le_blob le) = 2) as Hlen.
  { pose proof (le_args _ Hle) as [Hargs _]. apply expected_key_len_raw in Hargs.
    destruct (le_kind le); try done; cbn in Hargs; by injection Hargs. }
  rewrite slice_ok, drop_0 by lia. rewrite (bind_ok _ _ _ (take 2 (le_blob le)) meta) by done.
  unfold Part.free_bulk.
  pose proof (delete_key_run (cdma w) (from_le_bytes (take 2 (le_blob le))) meta Hwf) as Hd.
  fold (bulk_slot le) in Hd.
  destruct (valid_in (cdma w) (bulk_slot le).1); cbn [negb andb] in *; [|rewrite Hd; by exists meta].
  destruct (used meta (bulk_slot le)) eqn:Hu; cbn [negb andb] in *; [|rewrite Hd; by exists meta].
  destruct Hd as (meta' & -> & Hwf' & Hu'). exists meta'. split_and!; [done..|].
  intros p Hp. rewrite Hu' by done. case_decide; case_bool_decide; done.
Qed.

(** Bulk keys that are deletable and share no slot stay deletable. *)
Lemma refused_run w K keys meta :
  store_keys (st_of w) (vault_mem w) K → cdma_wf meta → (∀ n, n ∈ keys → is_Some (K !! n)) →
  ∃ l meta', Part.refused cdma_vault_addr w keys meta = (Ok l, meta') ∧ cdma_wf meta' ∧
    (∀ p, p.2 < 8 → used meta' p = true → used meta p = true) ∧ l ⊆ keys.
Proof.
  intros HK. revert meta. induction keys as [|n keys IH]; intros meta Hwf Hin.
  { exists [], meta. by split_and!. }
  cbn [Part.refused]. destruct (Hin n ltac:(by left)) as [le Hk].
  destruct (refuse_run w K meta n le HK Hk Hwf) as (m1 & Hr & Hwf1 & Hu1).
  erewrite bind_ok by exact Hr.
  destruct (IH m1 Hwf1) as (l & m2 & Hl & Hwf2 & Hu2 & Hsub); [by intros; apply Hin; right|].
  erewrite bind_ok by exact Hl. eexists _, m2. split; [done|]. split_and!; [done|..].
  - intros p Hp Hused. apply Hu2 in Hused; [|done]. rewrite Hu1 in Hused by done.
    by destruct (_ && bool_decide _).
  - destruct (negb _); set_solver.
Qed.

(** Whether one of the keys is the bulk key of slot [p]. *)
Definition names_slot (K : KeyMap) (keys : list Z) (p : nat * nat) : bool :=
  existsb (λ n, match K !! n with
                | Some le => is_bulk_key (le_kind le) && bool_decide (p = bulk_slot le)
                | None => false
                end) keys.

(** The keys can all be deleted: no key is in use, and the bulk keys have
    live slots of their own. *)
Record all_deletable (w : World) (K : KeyMap) (keys : list Z) (meta : Cdma.metadata) : Prop := {
  ad_key n : n ∈ keys → ∃ le, K !! n = Some le ∧ deletable w meta n le = true;
  ad_slots n m le le' : n ∈ keys → m ∈ keys → n ≠ m → K !! n = Some le → K !! m = Some le' →
    is_bulk_key (le_kind le) = true → is_bulk_key (le_kind le') = true → bulk_slot le ≠ bulk_slot le'
}.

Lemma all_deletable_tail w K n keys meta meta' le :
  all_deletable w K (n :: keys) meta → base.NoDup (n :: keys) → K !! n = Some le →
  (∀ p, p.2 < 8 → used meta' p =
     if is_bulk_key (le_kind le) && bool_decide (p = bulk_slot le) then false else used meta p) →
  all_deletable w K keys meta'.
Proof.
  intros [Hkey Hslots] [Hnin _]%list.NoDup_cons Hk Hu. constructor.
  - intros m Hm. destruct (Hkey m ltac:(by right)) as (lm & Hkm & Hd). exists lm. split; [done|].
    unfold deletable in *. destruct (is_bulk_key (le_kind lm)) eqn:Hbm; [|done].
    apply andb_true_iff in Hd as [Hv Hused]. rewrite Hv. cbn [andb].
    rewrite Hu by apply id_slot_range.
    destruct (is_bulk_key (le_kind le)) eqn:Hb; [|done]. rewrite bool_decide_false; [done|].
    apply (Hslots m n); [by right|by left|set_solver|done..].
  - intros x y lx ly Hx Hy. apply Hslots; by right.
Qed.

Lemma refused_none w K keys meta :
  store_keys (st_of w) (vault_mem w) K → cdma_wf meta → base.NoDup keys →
  all_deletable w K keys meta →
  ∃ meta', Part.refused cdma_vault_addr w keys meta = (Ok [], meta') ∧
    ∀ p, p.2 < 8 → used meta' p = if names_slot K keys p then false else used meta p.
Proof.
  intros HK. revert meta. induction keys as [|n keys IH]; intros meta Hwf Hnd Had.
  { by exists meta. }
  cbn [Part.refused]. destruct (ad_key _ _ _ _ Had n ltac:(by left)) as (le & Hk & Hd).
  destruct (refuse_run w K meta n le HK Hk Hwf) as (m1 & Hr & Hwf1 & Hu1).
  rewrite Hd in Hr, Hu1. erewrite bind_ok by exact Hr. setoid_rewrite andb_true_r in Hu1.
  destruct (IH m1 Hwf1) as (m2 & Hl & Hu2).
  { by apply list.NoDup_cons in Hnd as [_ ?]. }
  { by eapply all_deletable_tail. }
  erewrite bind_ok by exact Hl. exists m2. split; [done|]. intros p Hp.
  rewrite Hu2, Hu1 by done. cbn [names_slot existsb]. rewrite Hk.
  destruct (is_bulk_key _ && _); cbn [orb]; [by destruct (names_slot _ _ _)|done].
Qed.

(** ** Closing *)

Lemma bulk_remove_keep sel cb (K : KeyMap) n le :
  K !! n = Some le → sel le = false → bulk_remove sel cb K !! n = Some le.
Proof. intros Hk Hs. unfold bulk_remove. rewrite map_lookup_imap, Hk. cbn. by rewrite Hs. Qed.

Lemma session_key_not_selected app sid le : session_key app le → session_sel sid le = false.
Proof. intros Hle. unfold session_sel. by rewrite (sk_flags _ _ Hle). Qed.

Lemma sess_inv_bulk app K ss sid cb :
  sess_inv app K ss → sess_inv app (bulk_remove (session_sel sid) cb K) ss.
Proof.
  intros [Hkey Hinj]. constructor; [|done]. intros id k Hs. destruct (Hkey id k Hs) as (le & Hk & Hle).
  exists le. split; [|done]. apply bulk_remove_keep; [done|by eapply session_key_not_selected].
Qed.

Lemma delete_session_keys_run id w K ss :
  part_rep w K ss →
  ∃ r w' l, Part.delete_session_keys cdma_vault_addr id w = (r, w') ∧ r ≠ Panic ∧
    part w' = part w ∧ pka_ctxs w' = pka_ctxs w ∧
    part_rep w' (bulk_remove (session_sel (Z.of_nat id)) (λ n, bool_decide (n ∈ l)) K) ss ∧
    (all_deletable w K (Part.session_keys w id) (cdma_meta w) →
     r = Ok tt ∧ l = [] ∧
     ∀ p, p.2 < 8 → used (cdma_meta w') p
       = if names_slot K (Part.session_keys w id) p then false else used (cdma_meta w) p).
Proof.
  intros [HK Hwf <- Hc]. unfold Part.delete_session_keys. rewrite (bind_ok _ _ _ w w) by done.
  set (keys := Part.session_keys w id).
  assert (∀ n, n ∈ keys → is_Some (K !! n)) as Hin.
  { intros n (le & Hk & _)%(elem_of_session_keys w K id n HK). by exists le. }
  destruct (refused_run w K keys (cdma_meta w) HK Hc Hin) as (l & meta' & Hl & Hc' & _ & Hsub).
  rewrite (bind_ok _ _ _ l (with_cdma meta' w)) by (unfold State.on_cdma; by rewrite Hl).
  unfold State.on_vault, State.vault. cbn [part with_cdma vault_mem].
  unfold Vault.delete_all_session_keys. rewrite bind_cases.
  destruct (ks_remove_session_law (KeyStoreSpec := key_store_spec (st_of w)) (vault_mem w) K
    (λ k, bool_decide (k ∈ l)) (Z.of_nat id) HK) as (r & mem' & -> & Hp & HK' & Hok).
  exists ((λ _, tt) <$> r), (with_vault mem' (with_cdma meta' w)), l.
  split_and!; [by destruct r|by destruct r|done|done|by constructor|].
  intros Had. destruct (refused_none w K keys (cdma_meta w) HK Hc (session_keys_NoDup w id) Had)
    as (m2 & Hl2 & Hu). rewrite Hl in Hl2. injection Hl2 as -> ->. split_and!; [|done..].
  assert (is_ok r = true) as Hr; [|by destruct r]. apply Hok. intros n le _ _.
  apply bool_decide_false, not_elem_of_nil.
Qed.

Lemma session_slot_freed app K ss id k :
  sess_inv app K ss → ss !! id = Some (SlotActive k) →
  sess_inv app (delete k K) (<[id := SlotFree]> ss).
Proof.
  intros [Hkey Hinj] Hid. constructor.
  - intros i t [(_ & [=] & _)|[Hne Hs]]%list_lookup_insert_Some.
    destruct (Hkey i t Hs) as (le & Hk & Hle). exists le. split; [|done].
    rewrite lookup_delete_ne; [done|]. intros ->. by destruct Hne, (Hinj i id t).
  - intros i j t [(_ & [=] & _)|[_ Hi]]%list_lookup_insert_Some
      [(_ & [=] & _)|[_ Hj]]%list_lookup_insert_Some. eauto.
Qed.

Lemma session_key_disabled app K ss k le :
  sess_inv app K ss → K !! k = Some le → sess_inv app (<[k := le_set_disabled true le]> K) ss.
Proof.
  intros [Hkey Hinj] Hk. constructor; [|done]. intros i t Hs.
  destruct (Hkey i t Hs) as (lt & Hkt & Hle). destruct (decide (t = k)) as [->|Hne].
  - rewrite lookup_insert_eq. eexists. split; [done|]. rewrite Hk in Hkt. injection Hkt as <-.
    destruct Hle. by constructor.
  - rewrite lookup_insert_ne by done. by exists lt.
Qed.

Lemma delete_session_key_run id k w K ss :
  part_rep w K ss → sess_inv (app_of w) K ss → ss !! id = Some (SlotActive k) →
  ∃ w' le, K !! k = Some le ∧
    Part.delete_session_key id w
      = (if Part.key_in_use w k then Err CannotDeleteKeyInUse else Ok tt, w') ∧
    part w' = part w ∧ cdma_meta w' = cdma_meta w ∧
    part_rep w' (if Part.key_in_use w k then <[k := le_set_disabled true le]> K else delete k K) ss.
Proof.
  intros [HK Hwf Hss Hc] [Hkey _] Hid. destruct (Hkey id k Hid) as (le & Hk & Hle).
  pose proof (store_keys_range _ _ _ _ _ HK Hk) as Hn.
  unfold Part.delete_session_key. rewrite (bind_ok _ _ _ w w) by done.
  rewrite (proj1 (session_lookups_refine _ id Hwf)), Hss, Hid. cbn [slot_target].
  rewrite (bind_ok _ _ _ k w) by done. unfold State.on_vault, State.vault.
  pose proof (delete_key_exact (Spec := key_store_spec (st_of w)) (vault_mem w) K
    (Part.vault_id w) KEY_TAG_UNASSIGNED k (Part.key_in_use w) HK Hn) as Hdel.
  rewrite Hk in Hdel. unfold access, spec_lookup in Hdel. cbn [negb andb mbind outcome_bind] in Hdel.
  rewrite decide_True in Hdel by (split; [apply Hle|by rewrite (sk_flags _ _ Hle)]).
  destruct Hdel as (mem' & -> & HK'). exists (with_vault mem' w), le.
  by split_and!.
Qed.

Lemma delete_user_session_run id w K ss :
  part_rep w K ss →
  ∃ w', Part.delete_user_session id w = (Ok tt, w') ∧ part w' = part w ∧
    cdma_meta w' = cdma_meta w ∧
    part_rep w' K (if decide (id < MAX_SESSIONS) then <[id := SlotFree]> ss else ss).
Proof.
  intros [HK Hwf <- Hc]. unfold Part.delete_user_session, State.on_sessions.
  destruct (session_updates_refine (session_table (pstore w)) id 0 Hwf) as ((t' & -> & Hwf' & Hs) & _).
  eexists. by split_and!.
Qed.

(** The keys of others over the two removals. *)
Lemma removals_frame (K X : KeyMap) sid cb k n le :
  n ≠ k → session_sel sid le = false → (∀ m, m ≠ k → X !! m = bulk_remove (session_sel sid) cb K !! m) →
  X !! n = Some le ↔ K !! n = Some le.
Proof. intros Hn Hs HX. rewrite HX by done. by apply bulk_remove_other. Qed.

(** C18: closing a session.  It never panics; it keeps the invariant of the
    sessions; the keys that are not the session's, and the other sessions'
    slots, are what they were, and a key of the session that is left is
    disabled.  When no key of the session is in use and its bulk keys have
    live slots of their own the call succeeds: no key of the session is left,
    its bulk-key slots, and no others, are freed, its session key is deleted
    and its slot is free. *)
Theorem close_session_exact id k w K ss :
  part_rep w K ss → sess_inv (app_of w) K ss → ss !! id = Some (SlotActive k) →
  ∃ r w' K' ss', Part.close_user_session cdma_vault_addr id w = (r, w') ∧ r ≠ Panic ∧
    part_rep w' K' ss' ∧ sess_inv (app_of w') K' ss' ∧
    (∀ n le, n ≠ k → session_sel (Z.of_nat id) le = false → K' !! n = Some le ↔ K !! n = Some le) ∧
    (∀ n le, K' !! n = Some le → session_sel (Z.of_nat id) le = true →
       ef_disabled (le_flags le) = true) ∧
    (∀ i, i ≠ id → ss' !! i = ss !! i) ∧
    (Part.key_in_use w k = false →
     all_deletable w K (Part.session_keys w id) (cdma_meta w) →
     r = Ok tt ∧ ss' = <[id := SlotFree]> ss ∧ K' !! k = None ∧
     (∀ n le, K' !! n = Some le → session_sel (Z.of_nat id) le = false) ∧
     ∀ p, p.2 < 8 → used (cdma_meta w') p
       = if names_slot K (Part.session_keys w id) p then false else used (cdma_meta w) p).
Proof.
  intros Hrep Hinv Hid.
  destruct (delete_session_keys_run id w K ss Hrep)
    as (r1 & w1 & l & Hrun1 & Hp1 & Hpart1 & Hpka1 & Hrep1 & Hok1).
  set (K1 := bulk_remove _ _ K) in Hrep1.
  assert (app_of w1 = app_of w) as Happ1 by (unfold app_of, Part.vault_id; by rewrite Hpart1).
  assert (sess_inv (app_of w1) K1 ss) as Hinv1 by (rewrite Happ1; by apply sess_inv_bulk).
  assert (∀ n le, K1 !! n = Some le → session_sel (Z.of_nat id) le = true →
    ef_disabled (le_flags le) = true ∧ bool_decide (n ∈ l) = true) as Hleft
    by (intros n le; apply bulk_remove_left).
  unfold Part.close_user_session. rewrite bind_cases, Hrun1.
  destruct r1 as [[]|e|]; [| |done].
  2:{ eexists _, w1, K1, ss. split_and!; try done.
      - intros n le _. apply bulk_remove_other.
      - intros n le Hk Hs. by eapply Hleft.
      - intros _ Had. by destruct (Hok1 Had). }
  destruct (delete_session_key_run id k w1 K1 ss Hrep1 Hinv1 Hid)
    as (w2 & le & Hk & Hrun2 & Hpart2 & Hcd2 & Hrep2).
  assert (app_of w2 = app_of w1) as Happ2 by (unfold app_of, Part.vault_id; by rewrite Hpart2).
  assert (Part.key_in_use w1 k = Part.key_in_use w k) as Huse
    by (unfold Part.key_in_use; by rewrite Hpka1).
  assert (session_sel (Z.of_nat id) le = false) as Hle.
  { destruct (si_key _ _ _ Hinv1 id k Hid) as (le' & Hk' & Hle'). rewrite Hk in Hk'.
    injection Hk' as <-. by eapply session_key_not_selected. }
  rewrite bind_cases, Hrun2. destruct (Part.key_in_use w1 k).
  - eexists _, w2, _, ss. split_and!; [done..|exact Hrep2| | | |done|].
    + rewrite Happ2. by apply session_key_disabled.
    + intros n le' Hn Hs. apply (removals_frame K _ (Z.of_nat id) (λ n, bool_decide (n ∈ l)) k);
        [done..|]. intros m Hm. by rewrite lookup_insert_ne.
    + intros n le' Hk' Hs. apply lookup_insert_Some in Hk' as [[-> <-]|[_ Hk']]; [done|].
      by eapply Hleft.
    + rewrite <- Huse. done.
  - destruct (delete_user_session_run id w2 _ ss Hrep2) as (w3 & Hrun3 & Hpart3 & Hcd3 & Hrep3).
    rewrite decide_True in Hrep3.
    2:{ apply lookup_lt_Some in Hid. rewrite <- (pr_slots _ _ _ Hrep), length_slots in Hid. done. }
    eexists _, w3, _, _. split_and!; [exact Hrun3|done|exact Hrep3|..].
    + assert (app_of w3 = app_of w2) as -> by (unfold app_of, Part.vault_id; by rewrite Hpart3).
      rewrite Happ2. by apply session_slot_freed.
    + intros n le' Hn Hs. apply (removals_frame K _ (Z.of_nat id) (λ n, bool_decide (n ∈ l)) k);
        [done..|]. intros m Hm. by rewrite lookup_delete_ne.
    + intros n le' Hk' Hs. apply lookup_delete_Some in Hk' as [_ Hk']. by eapply Hleft.
    + intros i Hi. by rewrite list_lookup_insert_ne.
    + intros _ Had. destruct (Hok1 Had) as (_ & -> & Hu). split_and!; [done|done|by rewrite lookup_delete_eq|..].
      * intros n le' Hk'. apply lookup_delete_Some in Hk' as [_ Hk'].
        destruct (session_sel (Z.of_nat id) le') eqn:Hs; [|done].
        destruct (Hleft n le' Hk' Hs) as [_ Hin]. apply bool_decide_eq_true in Hin.
        by apply not_elem_of_nil in Hin.
      * intros p Hp. rewrite Hcd3, Hcd2. by apply Hu.
Qed.

End closing.
