(* ===== verification/OpenSessionProps.v ===== *)
(** * The open-session command

    [OpenSessionCmd] with its rollback: a failed command leaves the keys and
    sessions of the partition as they were, except that reopening a session
    that is already open leaves a key behind. *)

From stdpp Require Import base list numbers option gmap.
From S2P Require Import Prelude HsmError KeyEntry Crates KeyTable KeyTableSpec KeyTableRefine KeyTableOps KeyStore KeyStoreProps StoreInterface VaultKeys KeyVault VaultProps.
From S2P Require Import SessionTable PinPolicy CdmaVault Partition PartitionLogin PartitionProps PartitionSessions PartitionClose.

Section open_session.
Context `{ZC : Zerocopy, ZZ : Zeroize, BC : BitCrate, RNG : Rng}.

(** PKA contexts name keys of the vault. *)
Definition contexts_live (w : World) (K : KeyMap) : Prop :=
  ∀ k, Part.key_in_use w k = true → is_Some (K !! k).

Lemma table_rollback_run (is_reopen : bool) id k (ss : list slot) w K :
  part_rep w K (<[id := SlotActive k]> ss) → id < length ss →
  ss !! id = Some (if is_reopen then SlotPending else SlotFree) →
  ∃ w', (if is_reopen then State.on_sessions (Sessions.rollback_recreation id)
         else State.on_sessions (Sessions.delete id)) w = (Ok tt, w') ∧ part_rep w' K ss.
Proof.
  intros [HK Hwf Hss Hc] Hid Hslot.
  assert (id < MAX_SESSIONS) as Hid8.
  { rewrite <- (length_slots (session_table (pstore w))), Hss, length_insert. done. }
  destruct (session_updates_refine (session_table (pstore w)) id 0 Hwf)
    as ((t1 & Hr1 & Hwf1 & Hs1) & (t2 & Hr2 & Hwf2 & Hs2) & _).
  rewrite decide_True in Hs1, Hs2 by done. rewrite Hss, list_insert_insert_eq in Hs1, Hs2.
  unfold State.on_sessions. destruct is_reopen.
  - rewrite Hr2. eexists. split; [done|]. constructor; [exact HK|exact Hwf2| |exact Hc].
    change (slots t2 = ss). rewrite Hs2. by apply list_insert_id.
  - rewrite Hr1. eexists. split; [done|]. constructor; [exact HK|exact Hwf1| |exact Hc].
    change (slots t1 = ss). rewrite Hs1. by apply list_insert_id.
Qed.

(** The rollback undoes an opening. *)
Lemma rollback_run (is_reopen : bool) reopen id k b w w1 (K : KeyMap) (ss : list slot) :
  sess_inv (app_of w) K ss → contexts_live w K → K !! k = None →
  opened_slot ss reopen = Some id → (is_reopen = true ↔ is_Some reopen) →
  part w1 = part w → pka_ctxs w1 = pka_ctxs w →
  part_rep w1 (<[k := session_le (app_of w) b]> K) (<[id := SlotActive k]> ss) →
  ∃ w', Part.rollback_open_session id is_reopen w1 = (Ok tt, w') ∧ part_rep w' K ss.
Proof.
  intros Hinv Hlive Hnone Hop Hre Hpart Hpka Hrep.
  assert (app_of w1 = app_of w) as Happ by (unfold app_of, Part.vault_id; by rewrite Hpart).
  pose proof (opened_slot_lt _ _ _ Hop) as Hid.
  assert (Part.key_in_use w1 k = false) as Huse.
  { unfold Part.key_in_use. rewrite Hpka. fold (Part.key_in_use w k).
    destruct (Part.key_in_use w k) eqn:Hu; [|done]. apply Hlive in Hu as [? Hu]. congruence. }
  destruct (delete_session_key_run id k w1 _ _ Hrep) as (w2 & le & _ & Hrun & _ & _ & Hrep2).
  { rewrite Happ. apply sess_inv_open; [done..|apply session_le_key]. }
  { by apply list_lookup_insert_eq. }
  rewrite Huse in Hrun, Hrep2. rewrite delete_insert_id in Hrep2 by done.
  unfold Part.rollback_open_session. rewrite (bind_ok _ _ _ tt w2) by done.
  apply (table_rollback_run is_reopen id k); [done..|].
  destruct reopen as [i|]; cbn in Hop.
  - rewrite (proj2 Hre) by (by eexists). case_decide; [|done]. by injection Hop as ->.
  - destruct is_reopen; [by destruct (proj1 Hre eq_refl)|].
    destruct (list_find _ ss) as [[j sl]|] eqn:Hf; [|done]. injection Hop as ->.
    by apply list_find_Some in Hf as (Hj & -> & _).
Qed.

(** C17: the open-session command is all or nothing.  With working drivers it
    never panics.  When it answers a session, that session is opened: one
    fresh key, one slot.  When it fails, at any step up to the transfer of the
    response, the rollback has restored the keys and the session slots of the
    partition exactly; the one exception is a reopening of a session that
    does not wait for it, after which one more session key is in the vault. *)
Theorem open_session_atomic env rev c (is_reopen : bool) hdr bmk later w K ss :
  env_ok env → rev_ok rev → later ≠ Panic → (is_reopen = true → is_Some hdr) →
  part_rep w K ss → sess_inv (app_of w) K ss → contexts_live w K →
  let reopen := if is_reopen then hdr else None in
  ∃ r w', Auth.open_session env rev c is_reopen hdr bmk later w = (r, w') ∧
    match r with
    | Ok s => later = Ok tt ∧ opened_slot ss reopen = Some (us_id s) ∧
        ∃ k b, K !! k = None ∧
          part_rep w' (<[k := session_le (app_of w) b]> K) (<[us_id s := SlotActive k]> ss)
    | Err e => part_rep w' K ss ∨
        ∃ id k b, reopen = Some id ∧ ss !! id ≠ Some SlotPending ∧ K !! k = None ∧
          part_rep w' (<[k := session_le (app_of w) b]> K) ss
    | Panic => False
    end.
Proof.
  intros Henv Hrev Hlater Hhdr Hrep Hinv Hlive reopen. unfold Auth.open_session. fold reopen.
  assert (is_reopen = true ↔ is_Some reopen) as Hre.
  { subst reopen. destruct is_reopen; [naive_solver|]. by split; [|intros []]. }
  destruct (login_run env Henv rev c reopen bmk w K ss Hrep Hinv Hrev)
    as (r & w1 & -> & [[-> [e ->]]|(keys & _ & _ & _ & _ & (Hp & Hpka & _) & Ho)]).
  { eexists _, _. split; [done|]. by left. }
  destruct r as [s|e|]; cbn in Ho; [| |done].
  2:{ eexists _, _. split; [done|]. exact Ho. }
  destruct Ho as (Hop & k & b & Hnone & Hrep1). destruct later as [[]|e|]; [| |done].
  - eexists _, _. split; [done|]. by split_and!; [..|exists k, b].
  - destruct (rollback_run is_reopen reopen (us_id s) k b w w1 K ss Hinv Hlive Hnone Hop Hre Hp Hpka Hrep1)
      as (w' & Hrun & Hrep'). cbn [Auth.rollback]. rewrite Hrun.
    eexists _, _. split; [done|]. by left.
Qed.

(** Reopening an open session leaks a key.  When the session is active and
    its key can be derived and stored, the key is in the vault and the
    command fails with [InvalidState]; the session id is not recorded, so the
    rollback does nothing, and the key stays, named by no session. *)
Theorem reopen_active_leaks_key env rev seed bmk id t w K ss key n w1 :
  part_rep w K ss → sess_inv (app_of w) K ss → ss !! id = Some (SlotActive t) →
  Auth.session_key_to_import env rev seed (Some id) bmk w = (Ok key, w) →
  length (SessionK.blob key) = 88 →
  State.on_vault (λ I, Vault.import_session_key (Part.vault_id w) key) w = (Ok (mkVaultKey n), w1) →
  ∃ w', Auth.create_user_session env rev seed (Some id) bmk w = (Err InvalidState, w') ∧
    K !! n = None ∧ part_rep w' (<[n := session_le (app_of w) (SessionK.blob key)]> K) ss ∧
    Auth.rollback true None w' = (Ok tt, w') ∧ ∀ i, ss !! i ≠ Some (SlotActive n).
Proof.
  intros [HK Hwf Hss Hc] Hinv Hid Hkey Hlen Himp. unfold Auth.create_user_session.
  rewrite (bind_ok _ _ _ key w) by done. rewrite (bind_ok _ _ _ w w) by done.
  rewrite (bind_ok _ _ _ tt w) by done. rewrite (bind_ok _ _ _ (mkVaultKey n) w1) by done.
  destruct (import_session_key_rep w K key HK Hlen) as (r & w1' & Himp' & Hr).
  rewrite Himp in Himp'. injection Himp' as <- <-.
  destruct Hr as (mem' & n' & [= <-] & Hnone & -> & HK').
  pose proof (place_on_sessions (Some id) n (with_vault mem' w)) as Hpl. cbv iota in Hpl.
  cbn [vk_key_id]. rewrite bind_cases, Hpl. unfold State.on_sessions. cbn [pstore with_vault].
  destruct (place_run (Some id) n (session_table (pstore w)) Hwf) as (r & t' & -> & Hr).
  rewrite Hss in Hr. destruct r as [i|e|]; [..|done].
  { destruct Hr as [Hop _]. cbn in Hop. rewrite Hid, decide_False in Hop by done. done. }
  destruct Hr as (_ & Hs' & Hwf' & He). rewrite Hid in He. cbn in He. subst e.
  eexists. split_and!; [done|done| |done|].
  - constructor; cbn; [exact HK'|exact Hwf'|exact Hs'|exact Hc].
  - intros i Hi. by destruct (sess_inv_fresh _ _ _ _ _ _ Hinv Hnone Hi).
Qed.

End open_session.
