(* ===== verification/PartitionWitnesses.v ===== *)
(** * The partition theorems at a concrete partition

    A function with two vault tables, free session slots and a set
    credential; [w1] is the same partition with one session open. *)

From stdpp Require Import base list numbers option gmap.
From S2P Require Import Prelude HsmError KeyEntry Crates KeyTable KeyTableSpec KeyTableRefine KeyTableOps KeyStore KeyStoreProps StoreInterface KeyStoreTheorems VaultKeys KeyVault VaultProps.
From S2P Require Import SessionTable PinPolicy CdmaVault Partition PartitionLogin PartitionProps PartitionSessions PartitionCredentials PartitionClose OpenSessionProps.

#[local] Existing Instance zerocopy_le.
#[local] Existing Instance zeroize_fill.
#[local] Existing Instance bit_crate_Z.

#[local] Instance sample_rng : Rng := {|
  rng_bytes k n := to_le_bytes n (Z.of_nat k + 1);
  length_rng_bytes k n := length_to_le_bytes n (Z.of_nat k + 1)
|}.

Definition zbuf (n : nat) : LenBuf := mkLenBuf 0 (replicate n 0%Z).

Definition sample_cred : Cred.UserCredential :=
  Cred.mkUserCredential (replicate 16 1%Z) (replicate 16 2%Z) 0.

Definition sample_store : HsmPartPersistentStore :=
  mkPersistent zeroed_sessions true 0 (replicate 516 0%Z) Pin.default (replicate 16 0%Z) false
    (mkPartitionIdentifier (replicate 16 0%Z) (replicate 48 0%Z) (replicate 97 0%Z)) false
    (zbuf 800) (zbuf 300) (zbuf 512) (replicate 32 0%Z) (mkBk3 true (replicate 48 9%Z)).

Definition sample_part (c : Cred.UserCredential) : PartStateImpl :=
  mkPartState 2 true 3 c None None None None None.

Definition empty_part_store : PartStore := mkPartStore None None None None Cred.default false.

Definition sample_world (c : Cred.UserCredential) : World :=
  mkWorld (sample_part c) sample_store empty_part_store zeroed_memory free_metadata 0 [].

Definition sample_bks : Bks.BksTable :=
  Bks.mkBksTable (replicate 11 (Bks.mkBksTableEntry 1 (replicate 8 0%Z) (replicate 32 5%Z)))
    (Bks.mkBksTableEntry 1 (replicate 8 0%Z) (replicate 32 6%Z)).

(** Drivers that always answer; the cipher leaves the text as it is. *)
Definition sample_env : LoginEnv :=
  mkLoginEnv (Ok (replicate 48 1%Z)) (λ _, true) (λ _ n, Ok (replicate 144 (hd 0%Z n)))
    (λ _ m, Ok (replicate 64 (foldl Z.add 0%Z m))) (λ _ v t, Some (t, v))
    (λ _ _ _ _, Ok (replicate 80 3%Z)) (λ _, Ok (Some 0%Z)) (λ _ _, Ok (replicate 80 4%Z))
    (Ok (replicate 80 5%Z)) sample_bks 0%Z 0%Z.

Lemma sample_env_ok : env_ok sample_env.
Proof. constructor; try done; intros; apply length_replicate. Qed.

Definition sample_rev : DdiApiRev := mkApiRev 1 0.
Lemma sample_rev_ok : rev_ok sample_rev.
Proof. by constructor. Qed.

(** The credential of the sample user for the nonce of zeros. *)
Definition sample_request : EncryptedCredential :=
  mkEncrypted (replicate 16 1%Z) (replicate 16 2%Z) (replicate 48 0%Z) (replicate 16 0%Z)
    (replicate 32 0%Z) (replicate 48 48%Z).

Abbreviation w0 := (sample_world sample_cred).
Abbreviation free_slots := (replicate MAX_SESSIONS SlotFree).

Lemma sample_part_rep c : part_rep (sample_world c) ∅ free_slots.
Proof.
  constructor; [exact (store_keys_zeroed two_tables)|apply zeroed_sessions_wf| |apply free_metadata_wf].
  vm_compute. reflexivity.
Qed.

Lemma sample_inv app : sess_inv app ∅ free_slots.
Proof.
  constructor; [intros id k|intros i j k]; intros Hs; by apply lookup_replicate in Hs as [[=] _].
Qed.

(** The partition once a session is open. *)
Definition w1 : World :=
  (Auth.create_user_session sample_env sample_rev (replicate 48 0%Z) None None w0).2.

Lemma w1_opened :
  Auth.create_user_session sample_env sample_rev (replicate 48 0%Z) None None w0
    = (Ok (mkUserSession 0 sample_rev), w1).
Proof.
  unfold w1. destruct (Auth.create_user_session _ _ _ _ _ _) as [r w] eqn:E. cbn [snd]. f_equal.
  change r with ((r, w).1). rewrite <- E. vm_compute. reflexivity.
Qed.

#[local] Opaque w1.

Lemma w1_rep : ∃ k K, part_rep w1 K (<[0 := SlotActive k]> free_slots) ∧
  sess_inv (app_of w1) K (<[0 := SlotActive k]> free_slots).
Proof.
  destruct (create_session_run sample_env sample_env_ok sample_rev (replicate 48 0%Z) None None w0 ∅
    free_slots (sample_part_rep _) (sample_inv _) sample_rev_ok) as (r & w' & Hrun & Hr).
  rewrite w1_opened in Hrun. apply pair_eq in Hrun as [<- <-].
  destruct Hr as (_ & _ & k & b & Hnone & _ & Happ & Hrep). 
  exists k, (<[k := session_le (app_of w0) b]> ∅). split; [exact Hrep|].
  rewrite Happ. apply sess_inv_open; [apply sample_inv|done|apply session_le_key].
Qed.

Lemma partition_erasure_witness :
  (∃ w', Part.disable 0 w1 = (Ok tt, w') ∧ ∃ e, Part.user_session w' 0 true = Err e) ∧
  (∃ w', Part.reset 0 w1 = (Ok tt, w') ∧ rgs (part w') = 0%Z).
Proof.
  destruct w1_rep as (k & K & Hrep & _).
  destruct (partition_erasure 0 w1 K _ Hrep) as ((w' & H1 & H2 & _) & _ & (w'' & H3 & _ & _ & H4 & _)).
  split; [exists w'|exists w'']; split; try assumption. apply (er_sessions _ _ _ H2).
Defined.

Lemma store_restore_roundtrip_witness :
  ∃ w', State.restore 2 [None; Some 2; Some 3; Some 2]%Z (State.store_data w0).2 = (Ok tt, w') ∧
    rgs (part w') = 10%Z ∧ cred_mgr (part w') = sample_cred.
Proof.
  destruct (store_restore_roundtrip w0 (State.store_data w0).2 [None; Some 2; Some 3; Some 2]%Z eq_refl)
    as (w' & H1 & H2 & _).
  exists w'. split; [exact H1|]. rewrite H2. split; reflexivity.
Defined.

Lemma open_session_exact_witness :
  Part.user_session w1 0 false = Ok (mkUserSession 0 sample_rev).
Proof.
  destruct (open_session_exact sample_env sample_env_ok sample_rev (replicate 48 0%Z) None None w0 ∅
    free_slots (sample_part_rep _) (sample_inv _) sample_rev_ok) as (r & w' & Hrun & Hr).
  rewrite w1_opened in Hrun. apply pair_eq in Hrun as [<- <-]. apply Hr.
Defined.

Lemma login_authenticated_witness :
  ∃ s w', Auth.end_open_user_session sample_env sample_rev sample_request None None w0 = (Ok s, w') ∧
    nonce (pstore w') = rng_bytes 0 32.
Proof.
  destruct (login_authenticated sample_env sample_env_ok sample_rev sample_request None None w0 ∅
    free_slots (sample_part_rep _) (sample_inv _) sample_rev_ok) as (r & w' & Hrun & Hr).
  assert (r = Ok (mkUserSession 0 sample_rev)) as ->.
  { change r with ((r, w').1). rewrite <- Hrun. vm_compute. reflexivity. }
  exists (mkUserSession 0 sample_rev), w'. split; [exact Hrun|].
  destruct Hr as [[_ [e [=]]]|(keys & _ & Hn & _)]. exact Hn.
Defined.

Lemma sample_login_inv c : Cred.vault_id c = 0%Z → login_inv (sample_world c).
Proof.
  intros Hv. split_and!; [exists ∅, free_slots; split; [apply sample_part_rep|apply sample_inv]| |done].
  unfold app_of, Part.vault_id, Cred.get_user_vault_id. cbn. by rewrite Hv.
Qed.

Lemma establish_once_witness :
  ∃ w', Auth.end_establish_credential sample_env sample_request (sample_world Cred.default)
          = (Ok tt, w') ∧ Cred.id (cred_mgr (part w')) = replicate 16 1%Z.
Proof.
  destruct (establish_once sample_env sample_request (sample_world Cred.default) sample_env_ok
    (sample_login_inv Cred.default eq_refl)) as (r & w' & Hrun & Hr & _).
  assert (r = Ok tt) as ->.
  { change r with ((r, w').1). rewrite <- Hrun. vm_compute. reflexivity. }
  exists w'. split; [exact Hrun|].
  destruct Hr as [[_ [e [=]]]|(keys & _ & _ & _ & _ & _ & uid & upin & iv1 & iv2 & H1 & _ & H2 & _)].
  rewrite H2. cbn in H1. injection H1 as <- _. reflexivity.
Defined.

(** A session is opened, another request fails, the first one is sent again. *)
Definition sample_open (c : EncryptedCredential) : Attempt := Open sample_env sample_rev c None None.
Definition other_request : EncryptedCredential :=
  mkEncrypted (replicate 16 1%Z) (replicate 16 2%Z) (replicate 48 3%Z) (replicate 16 4%Z)
    (replicate 32 9%Z) (replicate 48 5%Z).

Lemma credentials_not_replayed_witness :
  (attempt (sample_open sample_request) w0).1 = Ok tt ∧
  ∃ e, attempt (sample_open sample_request)
         (attempts [sample_open other_request] (attempt (sample_open sample_request) w0).2)
       = (Err e, attempts [sample_open other_request] (attempt (sample_open sample_request) w0).2).
Proof.
  assert ((attempt (sample_open sample_request) w0).1 = Ok tt) as Hok by (vm_compute; reflexivity).
  split; [exact Hok|].
  apply (credentials_not_replayed [] [sample_open other_request] (sample_open sample_request)
    (sample_open sample_request) w0).
  - apply sample_login_inv. reflexivity.
  - repeat constructor; apply sample_env_ok || apply sample_rev_ok.
  - intros j k Hj Hk. cbn in Hj, Hk.
    destruct j as [|[|j]], k as [|[|k]]; try lia; intros H; first [reflexivity|discriminate H].
  - intros k Hk. cbn in Hk. destruct k as [|[|k]]; try lia; intros H; discriminate H.
  - left. exact Hok.
  - reflexivity.
Defined.

Lemma close_session_exact_witness :
  ∃ w', Part.close_user_session 0 0 w1 = (Ok tt, w').
Proof.
  destruct w1_rep as (k & K & Hrep & Hinv).
  destruct (close_session_exact 0 0 k w1 K _ Hrep Hinv eq_refl)
    as (r & w' & K' & ss' & Hrun & _ & _ & _ & _ & _ & _ & Hok).
  exists w'. rewrite Hrun. destruct Hok as [-> _]; [reflexivity| |reflexivity].
  assert (Part.session_keys w1 0 = []) as -> by (vm_compute; reflexivity).
  constructor; intros; exfalso; by eapply not_elem_of_nil.
Defined.

Lemma open_session_atomic_witness :
  ∃ r w', Auth.open_session sample_env sample_rev sample_request false None None
            (Err DmaAllocFailure) w0 = (r, w') ∧ r = Err DmaAllocFailure ∧ part_rep w' ∅ free_slots.
Proof.
  destruct (open_session_atomic sample_env sample_rev sample_request false None None
    (Err DmaAllocFailure) w0 ∅ free_slots sample_env_ok sample_rev_ok ltac:(discriminate)
    ltac:(discriminate) (sample_part_rep _) (sample_inv _)) as (r & w' & Hrun & Hr).
  { intros k Hk. discriminate Hk. }
  exists r, w'. split; [exact Hrun|].
  assert (r = Err DmaAllocFailure) as ->.
  { change r with ((r, w').1). rewrite <- Hrun. vm_compute. reflexivity. }
  split; [reflexivity|]. destruct Hr as [Hr|(id & k & b & [=] & _)]. exact Hr.
Defined.

Definition sample_key : SessionK.SessionKeyToImport :=
  SessionK.mkToImport (to_le_bytes 4 1 ++ to_le_bytes 4 0 ++ replicate 80 4%Z).

(** Another session key fits. *)
Lemma w1_import :
  State.on_vault (λ I, Vault.import_session_key (Part.vault_id w1) sample_key) w1
    = (Ok (mkVaultKey 1),
       (State.on_vault (λ I, Vault.import_session_key (Part.vault_id w1) sample_key) w1).2).
Proof.
  destruct (State.on_vault _ _) as [r w] eqn:E. cbn [snd]. f_equal. change r with ((r, w).1).
  rewrite <- E. vm_compute. reflexivity.
Qed.

Lemma w1_derived :
  Auth.session_key_to_import sample_env sample_rev (replicate 48 0%Z) (Some 0) (Some [1%Z]) w1
    = (Ok sample_key, w1).
Proof.
  destruct (session_key_reads sample_env sample_env_ok sample_rev (replicate 48 0%Z) (Some 0)
    (Some [1%Z]) w1 sample_rev_ok) as (r & Hr & _).
  rewrite Hr. f_equal. change r with ((r, w1).1). rewrite <- Hr. vm_compute. reflexivity.
Qed.

Lemma reopen_active_leaks_key_witness :
  ∃ w', Auth.create_user_session sample_env sample_rev (replicate 48 0%Z) (Some 0)
            (Some [1%Z]) w1 = (Err InvalidState, w') ∧ Auth.rollback true None w' = (Ok tt, w').
Proof.
  destruct w1_rep as (k & K & Hrep & Hinv).
  destruct (reopen_active_leaks_key sample_env sample_rev (replicate 48 0%Z) (Some [1%Z]) 0 k w1 K _
    sample_key 1 _ Hrep Hinv eq_refl w1_derived eq_refl w1_import) as (w' & H1 & _ & _ & H2 & _).
  exists w'. split; assumption.
Defined.
