(* ===== verification/DdiCodec.v ===== *)
(** * Derived codecs of DDI messages (serde/ddi/derive)

    The derive macro [Ddi] generates [MborLen], [MborEncode] and [MborDecode]
    for every request and response structure.  A structure is a description
    [ddi_fields], the macro's [DdiStruct]; [len], [encode] and [decode] are
    what the macro generates for it.  The theorems hold for every
    description. *)

From stdpp Require Import base list numbers option.
From S2P Require Import Prelude.
From S2P Require Import Mbor.

(** The type of a field: an integer, a boolean, an open enumeration, an
    enumeration with the discriminants [ids], a fixed array
    ([DdiStructFieldKind::Array]), a byte array ([MborArray]) or a nested
    structure; the fields in the order of their ids. *)
Inductive ddi_type : Set :=
  | TyU8 | TyU16 | TyU32 | TyU64 | TyBool | TyEnum
  | TyClosed (ids : list Z)
  | TyArray (N : nat)
  | TyByteArray (N : nat)
  | TyStruct (fs : ddi_fields)
with ddi_fields : Set :=
  | FNil
  | FCons (id : Z) (opt : bool) (ty : ddi_type) (fs : ddi_fields).

Scheme ddi_type_mut := Induction for ddi_type Sort Prop
  with ddi_fields_mut := Induction for ddi_fields Sort Prop.
Combined Scheme ddi_mutind from ddi_type_mut, ddi_fields_mut.

(** The values of a type; a byte array is the bytes it points to. *)
Fixpoint denote (t : ddi_type) : Set :=
  match t with
  | TyBool => bool
  | TyArray _ | TyByteArray _ => list Z
  | TyStruct fs => denote_fields fs
  | _ => Z
  end
with denote_fields (fs : ddi_fields) : Set :=
  match fs with
  | FNil => unit
  | FCons _ opt ty fs => ((if opt then option (denote ty) else denote ty) * denote_fields fs)%type
  end.

Module Ddi.

(** [pad4(position as u32 + 3) as u8]. *)
Definition array_pad (pos : nat) : Z :=
  wrap 8 (pad4 (wrap 32 (wrap 32 (Z.of_nat pos) + 3))).

Fixpoint num_fields (fs : ddi_fields) : nat :=
  match fs with FNil => 0 | FCons _ _ _ fs => S (num_fields fs) end.

(** The number of optional fields that are [None]. *)
Fixpoint num_none (fs : ddi_fields) : denote_fields fs → nat :=
  match fs with
  | FNil => λ _, 0
  | FCons _ true _ fs => λ '(o, vs), (match o with Some _ => 0 | None => 1 end) + num_none fs vs
  | FCons _ false _ fs => λ '(_, vs), num_none fs vs
  end.

(** [cnt], of type [MborId]. *)
Definition field_cnt (fs : ddi_fields) (vs : denote_fields fs) : Z :=
  wrap 8 (Z.of_nat (num_fields fs) - Z.of_nat (num_none fs vs)).

(** ** [struct_len], with the accumulator *)

Fixpoint len (t : ddi_type) : denote t → nat → nat :=
  match t return denote t → nat → nat with
  | TyU8 => λ v acc, acc + mbor_len (mkU8 v)
  | TyU16 => λ v acc, acc + mbor_len (mkU16 v)
  | TyU32 | TyEnum | TyClosed _ => λ v acc, acc + mbor_len (mkU32 v)
  | TyU64 => λ v acc, acc + mbor_len (mkU64 v)
  | TyBool => λ v acc, acc + mbor_len v
  | TyArray _ => λ v acc, acc + mbor_len (mkSlice v)
  | TyByteArray N => λ v acc,
      acc + padded_array_len (N:=N) (mkArray (Outside v) (length v)) (array_pad acc)
  | TyStruct fs => λ vs acc, len_fields fs vs (acc + mbor_len (mkMap (field_cnt fs vs)))
  end
with len_fields (fs : ddi_fields) : denote_fields fs → nat → nat :=
  match fs return denote_fields fs → nat → nat with
  | FNil => λ _ acc, acc
  | FCons id true ty fs => λ '(o, vs) acc,
      len_fields fs vs
        (match o with Some v => len ty v (acc + mbor_len (mkU8 id)) | None => acc end)
  | FCons id false ty fs => λ '(v, vs) acc,
      len_fields fs vs (len ty v (acc + mbor_len (mkU8 id)))
  end.

(** ** [struct_encode], [open_enum_encode] *)

Definition encode_array (N : nat) (v : list Z) : M MborEncoder MborEncodeError () :=
  e ← get;
  _ ← padded_array_encode (N:=N) (mkArray (Outside v) (length v)) (array_pad (e_pos e));
  mret tt.

Fixpoint encode (t : ddi_type) : denote t → M MborEncoder MborEncodeError () :=
  match t return denote t → M MborEncoder MborEncodeError () with
  | TyU8 => λ v, mbor_encode (mkU8 v)
  | TyU16 => λ v, mbor_encode (mkU16 v)
  | TyU32 | TyEnum | TyClosed _ => λ v, mbor_encode (mkU32 v)
  | TyU64 => λ v, mbor_encode (mkU64 v)
  | TyBool => λ v, mbor_encode v
  | TyArray _ => λ v, mbor_encode (mkSlice v)
  | TyByteArray N => encode_array N
  | TyStruct fs => λ vs, mbor_encode (mkMap (field_cnt fs vs));; encode_fields fs vs
  end
with encode_fields (fs : ddi_fields) : denote_fields fs → M MborEncoder MborEncodeError () :=
  match fs return denote_fields fs → M MborEncoder MborEncodeError () with
  | FNil => λ _, mret tt
  | FCons id true ty fs => λ '(o, vs),
      match o with
      | Some v => mbor_encode (mkU8 id);; encode ty v;; encode_fields fs vs
      | None => encode_fields fs vs
      end
  | FCons id false ty fs => λ '(v, vs), mbor_encode (mkU8 id);; encode ty v;; encode_fields fs vs
  end.

(** ** [struct_decode], [open_enum_decode] *)

Definition decode_u8 : M MborDecoder MborDecodeError Z := '(mkU8 v) ← mbor_decode; mret v.
Definition decode_u16 : M MborDecoder MborDecodeError Z := '(mkU16 v) ← mbor_decode; mret v.
Definition decode_u32 : M MborDecoder MborDecodeError Z := '(mkU32 v) ← mbor_decode; mret v.
Definition decode_u64 : M MborDecoder MborDecodeError Z := '(mkU64 v) ← mbor_decode; mret v.

Definition decode_array (N : nat) : M MborDecoder MborDecodeError (list Z) :=
  a ← array_decode N; d ← get; mret (as_slice (d_buffer d) a).

(** [enum_decode]: the number read is transmuted to the enumeration, which is
    undefined behaviour when no variant has it; the model panics. *)
Definition decode_closed (ids : list Z) : M MborDecoder MborDecodeError Z :=
  v ← decode_u32; if bool_decide (v ∈ ids) then mret v else lift Panic.

(** The test of an optional field: fields remain and the next id is its own. *)
Definition present (id cnt : Z) : M MborDecoder MborDecodeError bool :=
  d ← get;
  mret ((0 <? cnt)%Z && match Dec.peek_u8 d with Some i => (i =? id)%Z | None => false end).

(** The id of a mandatory field. *)
Definition expect_id (id cnt : Z) : M MborDecoder MborDecodeError () :=
  if (cnt =? 0)%Z then throw InvalidId
  else i ← decode_u8; if negb (i =? id)%Z then throw InvalidId else mret tt.

Fixpoint decode (t : ddi_type) : M MborDecoder MborDecodeError (denote t) :=
  match t return M MborDecoder MborDecodeError (denote t) with
  | TyU8 => decode_u8
  | TyU16 => decode_u16
  | TyU32 | TyEnum => decode_u32
  | TyClosed ids => decode_closed ids
  | TyU64 => decode_u64
  | TyBool => mbor_decode
  | TyArray N => fixed_array_decode N
  | TyByteArray N => decode_array N
  | TyStruct fs =>
      '(mkMap cnt) ← mbor_decode;
      '(vs, cnt) ← decode_fields fs cnt;
      if negb (cnt =? 0)%Z then throw DecInvalidLen else mret vs
  end
with decode_fields (fs : ddi_fields) : Z → M MborDecoder MborDecodeError (denote_fields fs * Z) :=
  match fs return Z → M MborDecoder MborDecodeError (denote_fields fs * Z) with
  | FNil => λ cnt, mret (tt, cnt)
  | FCons id true ty fs => λ cnt,
      here ← present id cnt;
      if here : bool then
        _ ← decode_u8;
        v ← decode ty;
        '(vs, cnt) ← decode_fields fs (cnt - 1)%Z;
        mret ((Some v, vs), cnt)
      else '(vs, cnt) ← decode_fields fs cnt; mret ((None, vs), cnt)
  | FCons id false ty fs => λ cnt,
      _ ← expect_id id cnt;
      v ← decode ty;
      '(vs, cnt) ← decode_fields fs (cnt - 1)%Z;
      mret ((v, vs), cnt)
  end.

(** ** Descriptions the codec is exact for

    The macro checks that the ids are consecutive.  That there are fewer than 32
    fields and that sizes fit 16 bits is what the encoding needs besides; all
    messages of the interface are so. *)

Fixpoint wf_type (t : ddi_type) : bool :=
  match t with
  | TyClosed ids => forallb (λ v, (0 <=? v)%Z && (v <? 2 ^ 32)%Z) ids
  | TyArray N => (0 <? N) && (Z.of_nat N <? 65536)%Z
  | TyByteArray N => (Z.of_nat N <? 65536)%Z
  | TyStruct fs =>
      (num_fields fs <? 32) && wf_fields fs (match fs with FCons id _ _ _ => id | FNil => 0%Z end)
  | _ => true
  end
with wf_fields (fs : ddi_fields) (next : Z) : bool :=
  match fs with
  | FNil => true
  | FCons id _ ty fs => (id =? next)%Z && (0 <=? id)%Z && (id <? 256)%Z && wf_type ty && wf_fields fs (next + 1)%Z
  end.

(** Descriptions whose enumerations are all open. *)
Fixpoint all_open (t : ddi_type) : bool :=
  match t with TyClosed _ => false | TyStruct fs => all_open_fields fs | _ => true end
with all_open_fields (fs : ddi_fields) : bool :=
  match fs with FNil => true | FCons _ _ ty fs => all_open ty && all_open_fields fs end.

(** Values in the range of their types. *)
Fixpoint valid (t : ddi_type) : denote t → Prop :=
  match t return denote t → Prop with
  | TyU8 => λ v, uint_range 8 v
  | TyU16 => λ v, uint_range 16 v
  | TyU32 | TyEnum => λ v, uint_range 32 v
  | TyU64 => λ v, uint_range 64 v
  | TyClosed ids => λ v, v ∈ ids
  | TyBool => λ _, True
  | TyArray N => λ v, length v = N
  | TyByteArray N => λ v, length v ≤ N
  | TyStruct fs => valid_fields fs
  end
with valid_fields (fs : ddi_fields) : denote_fields fs → Prop :=
  match fs return denote_fields fs → Prop with
  | FNil => λ _, True
  | FCons _ true ty fs => λ '(o, vs), match o with Some v => valid ty v | None => True end ∧ valid_fields fs vs
  | FCons _ false ty fs => λ '(v, vs), valid ty v ∧ valid_fields fs vs
  end.

(** ** The bytes of a value at a position *)

Fixpoint image (t : ddi_type) : denote t → nat → list Z :=
  match t return denote t → nat → list Z with
  | TyU8 => λ v _, Mbor.image (mkU8 v)
  | TyU16 => λ v _, Mbor.image (mkU16 v)
  | TyU32 | TyEnum | TyClosed _ => λ v _, Mbor.image (mkU32 v)
  | TyU64 => λ v _, Mbor.image (mkU64 v)
  | TyBool => λ v _, Mbor.image v
  | TyArray _ => λ v _, slice_image v
  | TyByteArray _ => λ v pos, array_header (array_pad pos) (length v) ++ v
  | TyStruct fs => λ vs pos, Mbor.image (mkMap (field_cnt fs vs)) ++ image_fields fs vs (pos + 1)
  end
with image_fields (fs : ddi_fields) : denote_fields fs → nat → list Z :=
  match fs return denote_fields fs → nat → list Z with
  | FNil => λ _ _, []
  | FCons id true ty fs => λ '(o, vs) pos,
      match o with
      | Some v =>
          Mbor.image (mkU8 id) ++ image ty v (pos + 2) ++
          image_fields fs vs (pos + 2 + length (image ty v (pos + 2)))
      | None => image_fields fs vs pos
      end
  | FCons id false ty fs => λ '(v, vs) pos,
      Mbor.image (mkU8 id) ++ image ty v (pos + 2) ++
      image_fields fs vs (pos + 2 + length (image ty v (pos + 2)))
  end.

End Ddi.
