(* ===== verification/DdiCodecProps.v ===== *)
(** * Correctness of the derived codecs

    Every description the macro accepts encodes to its [image], which has the
    length [len] computes, and decodes back; decoding any bytes never panics
    and yields values in range. *)

From stdpp Require Import base list numbers option.
From S2P Require Import Prelude.
From S2P Require Import Mbor.
From S2P Require Import DdiCodec.

Section codec.
Import Ddi.

(** ** Padding *)

Lemma land_unot_3 x : uint_range 32 x → Z.land x (unot 32 3) = (x - x `mod` 4)%Z.
Proof.
  intros Hx. replace (Z.land x (unot 32 3)) with (Z.shiftl (Z.shiftr x 2) 2).
  - rewrite Z.shiftl_mul_pow2, Z.shiftr_div_pow2 by lia.
    change (2 ^ 2)%Z with 4%Z. pose proof (Z.div_mod x 4). lia.
  - apply Z.bits_inj'. intros j Hj. rewrite Z.land_spec.
    destruct (decide (j < 2)%Z) as [Hlt|Hge].
    + rewrite Z.shiftl_spec_low by lia. rewrite testbit_unot by lia.
      assert (j = 0 ∨ j = 1)%Z as [-> | ->] by lia; cbn; by rewrite andb_false_r.
    + rewrite Z.shiftl_spec, Z.shiftr_spec by lia. rewrite Z.sub_add.
      destruct (decide (j < 32)%Z) as [H32|H32].
      * rewrite testbit_unot by lia. change 3%Z with (Z.ones 2).
        rewrite Z.ones_spec_high by lia. by rewrite andb_true_r.
      * rewrite (Z.bits_above_log2 x j); [done|unfold uint_range in Hx; lia|].
        unfold uint_range in Hx. destruct (decide (x = 0)%Z) as [->|]; [cbn; lia|].
        apply Z.log2_lt_pow2; [lia|]. eapply Z.lt_le_trans; [apply Hx|].
        apply Z.pow_le_mono_r; lia.
Qed.

Lemma pad4_mod len : uint_range 32 len → pad4 len = ((- len) `mod` 4)%Z.
Proof.
  intros Hl. unfold pad4. rewrite land_unot_3.
  2:{ unfold wrap, uint_range. apply Z.mod_pos_bound. lia. }
  unfold wrap, uint_range in *. change (2 ^ 32)%Z with (4 * 1073741824)%Z in *.
  pose proof (Z.div_mod (len + 3) (4 * 1073741824)). pose proof (Z.div_mod len 4).
  pose proof (Z.mod_pos_bound len 4).
  assert (len + 3 < 4 * 1073741824 ∨ 4 * 1073741824 ≤ len + 3)%Z as [Hs|Hb] by lia.
  - rewrite (Z.mod_small (len + 3)) by lia.
    rewrite <- (Z.mod_unique (- len) 4 (- ((len + 3) / 4)) ((len + 3) - (len + 3) `mod` 4 - len)).
    + apply Z.mod_small. pose proof (Z.mod_pos_bound (len + 3) 4).
      pose proof (Z.div_mod (len + 3) 4). lia.
    + left. pose proof (Z.mod_pos_bound (len + 3) 4). pose proof (Z.div_mod (len + 3) 4). lia.
    + pose proof (Z.div_mod (len + 3) 4). lia.
  - rewrite <- (Z.mod_unique (len + 3) (4 * 1073741824) 1 (len + 3 - 4 * 1073741824)) by lia.
    rewrite (Z.mod_small (len + 3 - 4 * 1073741824) 4) by lia.
    rewrite Z.sub_diag.
    rewrite <- (Z.mod_unique (0 - len) (4 * 1073741824) (-1) (4 * 1073741824 - len)) by lia.
    rewrite <- (Z.mod_unique (- len) 4 (- 1073741824) (4 * 1073741824 - len)) by lia. done.
Qed.

Lemma array_pad_range pos : (0 ≤ array_pad pos < 4)%Z.
Proof.
  unfold array_pad. rewrite pad4_mod.
  2:{ unfold wrap, uint_range. apply Z.mod_pos_bound. lia. }
  set (x := (- _)%Z). pose proof (Z.mod_pos_bound x 4). unfold wrap. rewrite Z.mod_small; lia.
Qed.

(** ** Encoding at a position *)

Definition encodes_at (m : M MborEncoder MborEncodeError ()) (img : nat → list Z) : Prop :=
  ∀ e, e_pos e ≤ length (e_buffer e) →
    if decide (e_pos e + length (img (e_pos e)) ≤ length (e_buffer e)) then
      m e = (Ok tt, mkEncoder (splice (e_buffer e) (e_pos e) (img (e_pos e)))
                      (e_pos e + length (img (e_pos e))))
    else ∃ e', m e = (Err BufferOverflow, e').

Lemma encodes_at_const m bs : encodes m bs (λ _, tt) → encodes_at m (λ _, bs).
Proof. intros H. exact H. Qed.

Lemma encodes_at_seq m m' img img' :
  encodes_at m img → encodes_at m' img' →
  encodes_at (m;; m') (λ p, img p ++ img' (p + length (img p))).
Proof.
  intros Hm Hf e He. specialize (Hm e He). unfold mbind, M_bind. rewrite length_app.
  case_decide as H1; [|destruct Hm as [e' ->]; rewrite decide_False by lia; eauto].
  rewrite Hm. specialize (Hf (mkEncoder (splice (e_buffer e) (e_pos e) (img (e_pos e)))
    (e_pos e + length (img (e_pos e))))).
  cbn [e_pos e_buffer] in Hf. rewrite length_splice_fit in Hf by done. specialize (Hf H1).
  case_decide as H2.
  - rewrite decide_True by lia. rewrite Hf. by rewrite splice_app, Nat.add_assoc by lia.
  - by rewrite decide_False by lia.
Qed.

Lemma encodes_at_ret : encodes_at (mret tt) (λ _, []).
Proof.
  intros e He. cbn. rewrite decide_True by lia. unfold splice. cbn.
  rewrite Nat.add_0_r, take_drop. by destruct e.
Qed.

Lemma encode_array_at N v :
  length v ≤ N → encodes_at (encode_array N v) (λ p, array_header (array_pad p) (length v) ++ v).
Proof.
  intros Hl e He. unfold encode_array, mbind, M_bind, get.
  pose proof (array_encodes (N:=N) v _ Hl (array_pad_range (e_pos e)) e He) as H.
  case_decide; [by rewrite H|]. destruct H as [e' ->]. eauto.
Qed.

(** The id and the value of a field, and the fields after it. *)
Lemma field_encodes id ty v fs vs :
  uint_range 8 id →
  encodes_at (encode ty v) (image ty v) → encodes_at (encode_fields fs vs) (image_fields fs vs) →
  encodes_at (mbor_encode (mkU8 id);; encode ty v;; encode_fields fs vs)
    (λ p, Mbor.image (mkU8 id) ++ image ty v (p + 2) ++
          image_fields fs vs (p + 2 + length (image ty v (p + 2)))).
Proof.
  intros Hid Hv Hf.
  pose proof (encodes_at_seq (mbor_encode (mkU8 id)) (encode ty v;; encode_fields fs vs)
    (λ _, Mbor.image (mkU8 id))
    (λ p, image ty v p ++ image_fields fs vs (p + length (image ty v p)))
    (encode_image (mkU8 id) Hid) (encodes_at_seq _ _ _ _ Hv Hf)) as H.
  exact H.
Qed.

Lemma wf_cons id opt ty fs n :
  wf_fields (FCons id opt ty fs) n = true →
  id = n ∧ uint_range 8 id ∧ wf_type ty = true ∧ wf_fields fs (n + 1) = true.
Proof.
  cbn. rewrite !andb_true_iff, Z.eqb_eq, Z.leb_le, Z.ltb_lt. unfold uint_range. naive_solver.
Qed.

Lemma num_none_le fs vs : num_none fs vs ≤ num_fields fs.
Proof.
  induction fs as [|id opt ty fs IH]; cbn; [done|]. destruct opt, vs as [o vs]; specialize (IH vs).
  - destruct o; lia.
  - lia.
Qed.

Lemma field_cnt_small fs vs :
  num_fields fs < 32 → field_cnt fs vs = Z.of_nat (num_fields fs - num_none fs vs) ∧
    (0 ≤ field_cnt fs vs < 32)%Z.
Proof.
  intros H. pose proof (num_none_le fs vs). unfold field_cnt.
  rewrite wrap_small by (unfold uint_range; lia). lia.
Qed.

Lemma wf_struct fs :
  wf_type (TyStruct fs) = true → num_fields fs < 32 ∧ ∃ n, wf_fields fs n = true.
Proof. cbn [wf_type]. rewrite andb_true_iff, Nat.ltb_lt. intros [H1 H2]. eauto. Qed.

Lemma closed_range ids v : wf_type (TyClosed ids) = true → v ∈ ids → uint_range 32 v.
Proof.
  cbn [wf_type]. intros Hw Hv. rewrite forallb_forall in Hw. apply list_elem_of_In in Hv.
  specialize (Hw v Hv). rewrite andb_true_iff, Z.leb_le, Z.ltb_lt in Hw. exact Hw.
Qed.

Lemma encode_image_all :
  (∀ t, wf_type t = true → ∀ v, valid t v → encodes_at (encode t v) (image t v)) ∧
  (∀ fs n, wf_fields fs n = true → ∀ vs, valid_fields fs vs →
     encodes_at (encode_fields fs vs) (image_fields fs vs)).
Proof.
  apply (ddi_mutind
    (λ t, wf_type t = true → ∀ v, valid t v → encodes_at (encode t v) (image t v))
    (λ fs, ∀ n, wf_fields fs n = true → ∀ vs, valid_fields fs vs →
       encodes_at (encode_fields fs vs) (image_fields fs vs))).
  1-6: intros _ v Hv; apply encodes_at_const; by apply encode_image.
  - intros ids Hw v Hv. apply encodes_at_const. by apply (encode_image (mkU32 v)), (closed_range ids).
  - intros N _ v _. apply encodes_at_const, slice_encodes.
  - intros N _ v Hv. by apply encode_array_at.
  - intros fs IH [Hn [n Hw]]%wf_struct vs Hv. cbn [encode image].
    pose proof (field_cnt_small fs vs Hn) as [_ Hc].
    exact (encodes_at_seq _ _ (λ _, Mbor.image (mkMap (field_cnt fs vs))) _
      (encode_image (mkMap (field_cnt fs vs)) Hc) (IH n Hw vs Hv)).
  - intros n _ [] _. apply encodes_at_ret.
  - intros id opt ty IHt fs IHf n (-> & Hid & Ht & Hf)%wf_cons vs.
    destruct opt, vs as [o vs]; cbn [valid_fields encode_fields image_fields].
    + destruct o as [v|]; intros [Hv Hvs]; [|by eapply IHf].
      apply field_encodes; eauto.
    + intros [Hv Hvs]. apply field_encodes; eauto.
Qed.

(** ** The accumulator counts the image *)

Lemma len_image_all :
  (∀ t v acc, len t v acc = acc + length (image t v acc)) ∧
  (∀ fs vs acc, len_fields fs vs acc = acc + length (image_fields fs vs acc)).
Proof.
  apply (ddi_mutind
    (λ t, ∀ v acc, len t v acc = acc + length (image t v acc))
    (λ fs, ∀ vs acc, len_fields fs vs acc = acc + length (image_fields fs vs acc))).
  1-7: intros ? acc || intros ids v acc; cbn; by rewrite ?length_to_be_bytes.
  - intros N v acc. cbn [len image]. unfold slice_image, mbor_len, slice_len.
    cbn [length]. by rewrite length_app, length_to_be_bytes.
  - intros N v acc. cbn [len image]. rewrite length_app, length_array_header. done.
  - intros fs IH vs acc. cbn [len image]. rewrite IH, length_app.
    change (mbor_len (mkMap (field_cnt fs vs))) with 1.
    change (length (Mbor.image (mkMap (field_cnt fs vs)))) with 1. lia.
  - intros [] acc. cbn. lia.
  - intros id opt ty IHt fs IHf vs acc. destruct opt, vs as [o vs]; cbn [len_fields image_fields].
    + destruct o as [v|]; rewrite IHf; [|done]. rewrite IHt, !length_app.
      change (mbor_len (mkU8 id)) with 2. change (length (Mbor.image (mkU8 id))) with 2. lia.
    + rewrite IHf, IHt, !length_app.
      change (mbor_len (mkU8 id)) with 2. change (length (Mbor.image (mkU8 id))) with 2. lia.
Qed.

(** ** Decoding at a position *)

Definition decodes_at {A} (m : M MborDecoder MborDecodeError A) (img : nat → list Z) (a : A) : Prop :=
  ∀ d, at_pos d (img (d_pos d)) → d_pos d ≤ length (d_buffer d) →
    m d = (Ok a, mkDecoder (d_buffer d) (d_pos d + length (img (d_pos d)))).

Lemma decodes_at_const {A} (m : M _ _ A) bs a :
  decodes m bs (λ _, a) → decodes_at m (λ _, bs) a.
Proof. intros H d Hd _. exact (H d Hd). Qed.

Lemma decodes_at_bind {A B} (m : M _ _ A) (f : A → M _ _ B) img img' a b :
  decodes_at m img a → decodes_at (f a) img' b →
  decodes_at (m ≫= f) (λ p, img p ++ img' (p + length (img p))) b.
Proof.
  intros Hm Hf d Hd Hp. pose proof (at_pos_fits _ _ Hd Hp) as Hfit. rewrite length_app in Hfit.
  apply at_pos_app in Hd as [H1 H2]. unfold mbind, M_bind. rewrite (Hm d H1 Hp).
  rewrite Hf; cbn [d_pos d_buffer]; [|done|lia]. by rewrite length_app, Nat.add_assoc.
Qed.

Lemma decodes_at_ret {A} (a : A) : decodes_at (mret a) (λ _, []) a.
Proof. apply decodes_at_const, decodes_ret. Qed.

(** A codec of the crate whose value is unwrapped. *)
Lemma unwrap_decodes {A B} (m : M MborDecoder MborDecodeError A) (f : A → M _ _ B) bs a b :
  decodes m bs (λ _, a) → f a = mret b → decodes_at (m ≫= f) (λ _, bs) b.
Proof.
  intros Hm Hf d Hd _. unfold mbind, M_bind. rewrite (Hm d Hd), Hf. done.
Qed.

Lemma decode_u8_at v : uint_range 8 v → decodes_at decode_u8 (λ _, Mbor.image (mkU8 v)) v.
Proof. intros Hv. eapply unwrap_decodes; [by apply (decode_image (mkU8 v))|done]. Qed.

Lemma decode_array_at N v :
  length v ≤ N → (Z.of_nat N < 65536)%Z →
  decodes_at (decode_array N) (λ p, array_header (array_pad p) (length v) ++ v) v.
Proof.
  intros Hl HN d Hd Hp. unfold decode_array, mbind, M_bind, get.
  rewrite (array_decodes N v _ Hl HN (array_pad_range (d_pos d)) d Hd Hp).
  unfold mret, M_ret, as_slice. cbn [ptr d_buffer]. apply at_pos_app in Hd as [_ Hd].
  unfold at_pos in Hd. cbn [d_pos d_buffer] in Hd. cbn [Mbor.len]. by rewrite Hd.
Qed.

Lemma peek_u8_id d id bs :
  at_pos d (Mbor.image (mkU8 id) ++ bs) → Dec.peek_u8 d = Some id.
Proof.
  intros [H _]%at_pos_app. unfold Dec.peek_u8.
  by rewrite (bytes_decodes_any 2 [U8_MARKER; id] eq_refl ltac:(lia) d H).
Qed.

(** The first id in the image of the fields numbered from [n]. *)
Lemma first_id fs n vs pos :
  wf_fields fs n = true → num_none fs vs < num_fields fs →
  ∃ id bs, (n ≤ id)%Z ∧ image_fields fs vs pos = Mbor.image (mkU8 id) ++ bs.
Proof.
  revert n. induction fs as [|id opt ty fs IH]; intros n; cbn [num_fields num_none]; [lia|].
  intros (-> & _ & _ & Hf)%wf_cons. destruct opt, vs as [o vs]; cbn [image_fields].
  - destruct o as [v|]; intros Hlt; [by eexists n, _|].
    destruct (IH vs (n + 1)%Z Hf) as (id & bs & Hid & E); [lia|]. exists id, bs. split; [lia|done].
  - intros _. by eexists n, _.
Qed.

Lemma present_some id cnt d bs :
  (0 < cnt)%Z → at_pos d (Mbor.image (mkU8 id) ++ bs) → present id cnt d = (Ok true, d).
Proof.
  intros Hc Hd. unfold present, mbind, M_bind, get, mret, M_ret.
  by rewrite (peek_u8_id d id bs Hd), Z.eqb_refl, (proj2 (Z.ltb_lt _ _)).
Qed.

Lemma present_none fs n vs id d :
  wf_fields fs n = true → (id < n)%Z → at_pos d (image_fields fs vs (d_pos d)) →
  present id (Z.of_nat (num_fields fs - num_none fs vs)) d = (Ok false, d).
Proof.
  intros Hf Hid Hd. unfold present, mbind, M_bind, get, mret, M_ret.
  pose proof (num_none_le fs vs).
  destruct (decide (num_none fs vs < num_fields fs)) as [Hlt|Hge].
  - destruct (first_id fs n vs (d_pos d) Hf Hlt) as (id' & bs & Hn & E). rewrite E in Hd.
    rewrite (peek_u8_id _ _ _ Hd), (proj2 (Z.eqb_neq _ _)) by lia. by rewrite andb_false_r.
  - replace (num_fields fs - num_none fs vs) with 0 by lia. done.
Qed.

Lemma expect_id_at id cnt :
  uint_range 8 id → (0 < cnt)%Z → decodes_at (expect_id id cnt) (λ _, Mbor.image (mkU8 id)) tt.
Proof.
  intros Hid Hc d Hd Hp. unfold expect_id. rewrite (proj2 (Z.eqb_neq _ _)) by lia.
  unfold mbind, M_bind. rewrite (decode_u8_at id Hid d Hd Hp), Z.eqb_refl. done.
Qed.

(** The id and the value of a field that is there, and the fields after it. *)
Lemma field_decodes {A B} (m : M MborDecoder MborDecodeError B) x id ty v fs vs cnt
    (k : denote ty → denote_fields fs → A) :
  decodes_at m (λ _, Mbor.image (mkU8 id)) x →
  decodes_at (decode ty) (image ty v) v →
  decodes_at (decode_fields fs cnt) (image_fields fs vs) (vs, 0%Z) →
  decodes_at (_ ← m; v ← decode ty; '(vs, cnt) ← decode_fields fs cnt; mret (k v vs, cnt))
    (λ p, Mbor.image (mkU8 id) ++ image ty v (p + 2) ++
          image_fields fs vs (p + 2 + length (image ty v (p + 2)))) (k v vs, 0%Z).
Proof.
  intros Hm Hv Hf d Hd Hp.
  pose proof (at_pos_fits _ _ Hd Hp) as Hfit. rewrite !length_app in Hfit.
  change (length (Mbor.image (mkU8 id))) with 2 in Hfit.
  apply at_pos_app in Hd as [H1 Hd]. apply at_pos_app in Hd as [H2 H3].
  change (length (Mbor.image (mkU8 id))) with 2 in H2, H3. cbn [d_pos d_buffer] in H3.
  unfold mbind, M_bind. rewrite (Hm d H1 Hp). change (length (Mbor.image (mkU8 id))) with 2.
  rewrite Hv; cbn [d_pos d_buffer]; [|done|lia].
  rewrite Hf; cbn [d_pos d_buffer]; [|done|lia].
  unfold mret, M_ret. rewrite !length_app. change (length (Mbor.image (mkU8 id))) with 2.
  do 2 f_equal. lia.
Qed.

Lemma decode_image_all :
  (∀ t, wf_type t = true → ∀ v, valid t v → decodes_at (decode t) (image t v) v) ∧
  (∀ fs n, wf_fields fs n = true → ∀ vs, valid_fields fs vs →
     decodes_at (decode_fields fs (Z.of_nat (num_fields fs - num_none fs vs)))
       (image_fields fs vs) (vs, 0%Z)).
Proof.
  apply (ddi_mutind
    (λ t, wf_type t = true → ∀ v, valid t v → decodes_at (decode t) (image t v) v)
    (λ fs, ∀ n, wf_fields fs n = true → ∀ vs, valid_fields fs vs →
       decodes_at (decode_fields fs (Z.of_nat (num_fields fs - num_none fs vs)))
         (image_fields fs vs) (vs, 0%Z))).
  - intros _ v Hv. by apply decode_u8_at.
  - intros _ v Hv. eapply unwrap_decodes; [by apply (decode_image (mkU16 v))|done].
  - intros _ v Hv. eapply unwrap_decodes; [by apply (decode_image (mkU32 v))|done].
  - intros _ v Hv. eapply unwrap_decodes; [by apply (decode_image (mkU64 v))|done].
  - intros _ v Hv. by apply decodes_at_const, (decode_image v).
  - intros _ v Hv. eapply unwrap_decodes; [by apply (decode_image (mkU32 v))|done].
  - intros ids Hw v Hv. unfold decode, decode_closed, decode_u32.
    eapply (unwrap_decodes _ _ _ v v).
    + intros d Hd. pose proof (decode_image (mkU32 v) (closed_range ids v Hw Hv) d Hd) as E.
      unfold mbind, M_bind. rewrite E. done.
    + cbn [valid] in Hv. by rewrite bool_decide_true.
  - intros N Hw v Hl. cbn [wf_type] in Hw. rewrite andb_true_iff, Nat.ltb_lt, Z.ltb_lt in Hw.
    pose proof (fixed_array_decodes v) as H. cbn [valid] in Hl. rewrite Hl in H.
    apply decodes_at_const, H; lia.
  - intros N Hw v Hv. cbn [wf_type] in Hw. rewrite Z.ltb_lt in Hw. by apply decode_array_at.
  - intros fs IH [Hn [n Hw]]%wf_struct vs Hv. cbn [decode image].
    pose proof (field_cnt_small fs vs Hn) as [Ec Hc].
    refine (decodes_at_bind _ _ (λ _, Mbor.image (mkMap (field_cnt fs vs)))
      (image_fields fs vs) (mkMap (field_cnt fs vs)) vs
      (decodes_at_const _ _ _ (decode_image (mkMap (field_cnt fs vs)) Hc)) _).
    rewrite Ec. intros d Hd Hp. unfold mbind, M_bind. by rewrite (IH n Hw vs Hv d Hd Hp).
  - intros n _ [] _. apply decodes_at_ret.
  - intros id opt ty IHt fs IHf n (-> & Hid & Ht & Hf)%wf_cons vs Hv.
    destruct opt, vs as [o vs]; cbn [valid_fields decode_fields image_fields num_fields num_none] in Hv |- *;
      pose proof (num_none_le fs vs) as Hle.
    + destruct o as [v|]; destruct Hv as [Hv Hvs].
      * intros d Hd Hp.
        assert (0 < Z.of_nat (S (num_fields fs) - (0 + num_none fs vs)))%Z as Hc by lia.
        rewrite (bind_ok _ _ _ _ _ (present_some n _ d _ Hc Hd)).
        replace (Z.of_nat (S (num_fields fs) - (0 + num_none fs vs)) - 1)%Z
          with (Z.of_nat (num_fields fs - num_none fs vs)) by lia.
        apply (field_decodes decode_u8 n n ty v fs vs _ (λ v vs, (Some v, vs)));
          eauto using decode_u8_at.
      * replace (S (num_fields fs) - (1 + num_none fs vs)) with (num_fields fs - num_none fs vs) by lia.
        intros d Hd Hp. rewrite (bind_ok _ _ _ _ _ (present_none fs (n + 1) vs n d Hf ltac:(lia) Hd)).
        unfold mbind, M_bind. by rewrite (IHf _ Hf vs Hvs d Hd Hp).
    + destruct Hv as [Hv Hvs].
      replace (Z.of_nat (S (num_fields fs) - num_none fs vs) - 1)%Z
        with (Z.of_nat (num_fields fs - num_none fs vs)) by lia.
      apply (field_decodes (expect_id n _) tt n ty o fs vs _ (λ v vs, (v, vs)));
        [apply expect_id_at; [done|lia]|by apply IHt|by eapply IHf].
Qed.

(** ** Any bytes *)

Context (buf : list Z) (Hbytes : Forall (uint_range 8) buf).

(** What the decoder returns is in range. *)
Lemma bytes_in_range n : robust buf (Dec.bytes n) (λ _ b, length b = n ∧ Forall (uint_range 8) b).
Proof using Hbytes.
  intros d Hb Hd. destruct (robust_bytes buf n d Hb Hd) as (r & d' & E & Hp & Hb' & Hpos & Hl).
  exists r, d'. split_and!; [done..|lia|lia|]. intros b ->. split; [by apply Hl|].
  unfold Dec.bytes, slice in E. rewrite Hb in E. destruct (_ <? _); [done|]. case_decide; [|done].
  simplify_eq. by apply Forall_take, Forall_drop.
Qed.

Lemma from_be_bytes_range l :
  Forall (uint_range 8) l → uint_range (8 * Z.of_nat (length l)) (from_be_bytes l).
Proof.
  intros H. unfold from_be_bytes. rewrite <- length_rev. apply from_le_bytes_range.
  by apply Forall_rev.
Qed.

Lemma uint_robust {A} (mk : Z → A) (get_ : A → Z) n err :
  (∀ v, get_ (mk v) = v) →
  robust buf (b ← Dec.bytes (S n); v ← Dec.be_uint n err (drop 1 b); mret (mk v))
    (λ _ a, uint_range (8 * Z.of_nat n) (get_ a)).
Proof using Hbytes.
  intros Hg. eapply robust_bind; [apply bytes_in_range|]. intros b (_ & _ & Hl & Hr).
  unfold Dec.be_uint. case_decide as El.
  - eapply (robust_bind _ _ _ (λ _ v, uint_range (8 * Z.of_nat n) v)).
    + apply robust_ret. intros _. rewrite <- El. apply from_be_bytes_range. by apply Forall_drop.
    + intros v (_ & _ & Hv). apply robust_ret. intros _. by rewrite Hg.
  - eapply (robust_bind _ _ _ (λ _ _, False)); [apply robust_throw|]. by intros v (_ & _ & []).
Qed.

Lemma u8_robust : robust buf decode_u8 (λ _ v, uint_range 8 v).
Proof using Hbytes.
  eapply (robust_bind _ _ _ (λ _ '(mkU8 v), uint_range 8 v)).
  - eapply robust_bind; [apply (bytes_in_range 2)|]. intros b (_ & _ & Hl & Hr).
    destruct (lookup_lt_is_Some_2 b 1) as [v Hv]; [lia|]. unfold Dec.index. rewrite Hv.
    eapply (robust_bind _ _ _ (λ _ v, uint_range 8 v)).
    + apply robust_ret. intros _. by eapply Forall_lookup_1.
    + intros v' (_ & _ & Hv'). by apply robust_ret.
  - intros [v] (_ & _ & Hv). by apply robust_ret.
Qed.

Lemma array_bytes_robust N :
  robust buf (decode_array N) (λ _ v, length v ≤ N).
Proof.
  eapply robust_bind; [apply array_robust|]. intros a (d & Hd & off & Hp & Ho & Hl & HN).
  intros d' Hb Hpos. eexists _, d'. unfold mbind, M_bind, get, mret, M_ret.
  split; [reflexivity|]. split_and!; [done..|lia|lia|].
  intros v [= <-]. unfold as_slice. rewrite Hp, length_take. lia.
Qed.

Lemma present_robust id cnt : robust buf (present id cnt) (λ _ b, b = true → (0 < cnt)%Z).
Proof.
  intros d Hb Hd. eexists _, d. split; [reflexivity|]. split_and!; [done..|lia|lia|].
  intros b [= <-] [H%Z.ltb_lt _]%andb_true_iff. done.
Qed.

Lemma expect_id_robust id cnt : robust buf (expect_id id cnt) (λ _ _, cnt ≠ 0%Z).
Proof using Hbytes.
  unfold expect_id. destruct (Z.eqb_spec cnt 0); [apply robust_throw|].
  eapply robust_bind; [apply u8_robust|]. intros i _.
  destruct (negb _); [apply robust_throw|by apply robust_ret].
Qed.

Lemma decode_robust_all :
  (∀ t, all_open t = true → robust buf (decode t) (λ _ v, valid t v)) ∧
  (∀ fs, all_open_fields fs = true → ∀ cnt, robust buf (decode_fields fs cnt) (λ _ '(vs, _), valid_fields fs vs)).
Proof using Hbytes.
  apply (ddi_mutind
    (λ t, all_open t = true → robust buf (decode t) (λ _ v, valid t v))
    (λ fs, all_open_fields fs = true → ∀ cnt, robust buf (decode_fields fs cnt) (λ _ '(vs, _), valid_fields fs vs))).
  - intros _. apply u8_robust.
  - intros _. eapply robust_bind; [apply (uint_robust mkU16 (λ '(mkU16 v), v) 2); done|].
    intros [v] (_ & _ & Hv). by apply robust_ret.
  - intros _. eapply robust_bind; [apply (uint_robust mkU32 (λ '(mkU32 v), v) 4); done|].
    intros [v] (_ & _ & Hv). by apply robust_ret.
  - intros _. eapply robust_bind; [apply (uint_robust mkU64 (λ '(mkU64 v), v) 8); done|].
    intros [v] (_ & _ & Hv). by apply robust_ret.
  - intros _. eapply robust_bind; [apply robust_byte|]. intros b _. cbn zeta.
    destruct (_ =? 0)%Z; [by apply robust_ret|].
    destruct (_ =? 1)%Z; [by apply robust_ret|apply robust_throw].
  - intros _. eapply robust_bind; [apply (uint_robust mkU32 (λ '(mkU32 v), v) 4); done|].
    intros [v] (_ & _ & Hv). by apply robust_ret.
  - done.
  - intros N _. apply fixed_array_robust.
  - intros N _. apply array_bytes_robust.
  - intros fs IH Ho. cbn [decode]. specialize (IH Ho). eapply (robust_bind _ _ _ (λ _ _, True)).
    + eapply robust_bind; [apply robust_byte|]. intros b _.
      destruct (negb _); [apply robust_throw|by apply robust_ret].
    + intros [cnt] _. eapply robust_bind; [apply IH|]. intros [vs c] (_ & _ & Hvs).
      destruct (negb _); [apply robust_throw|by apply robust_ret].
  - intros _ cnt. by apply robust_ret.
  - intros id opt ty IHt fs IHf [Ht Hf]%andb_true_iff cnt. specialize (IHt Ht). specialize (IHf Hf). destruct opt; cbn [decode_fields].
    + eapply robust_bind; [apply present_robust|]. intros [] _.
      * eapply robust_bind; [apply u8_robust|]. intros _ _.
        eapply robust_bind; [apply IHt|]. intros v (_ & _ & Hv).
        eapply robust_bind; [apply IHf|]. intros [vs c] (_ & _ & Hvs). by apply robust_ret.
      * eapply robust_bind; [apply IHf|]. intros [vs c] (_ & _ & Hvs). by apply robust_ret.
    + eapply robust_bind; [apply expect_id_robust|]. intros _ _.
      eapply robust_bind; [apply IHt|]. intros v (_ & _ & Hv).
      eapply robust_bind; [apply IHf|]. intros [vs c] (_ & _ & Hvs). by apply robust_ret.
Qed.

End codec.
