(* ===== verification/DdiTypes.v ===== *)
(** * DDI messages (serde/ddi/types)

    The operations and status codes of the interface with the host, the
    descriptions of the request and response structures, and the conversions
    between the two forms of key properties. *)

From stdpp Require Import base list numbers option.
From S2P Require Import Prelude.
From S2P Require Import Mbor.
From S2P Require Import DdiCodec.
From S2P Require Import VaultKeys.

Definition DDI_MAX_KEY_LABEL_LENGTH : nat := 128.

(** Open enumerations are their numbers. *)
Module DdiOp.
Definition Invalid : Z := 1001.
Definition GetApiRev : Z := 1002.
Definition GetDeviceInfo : Z := 1003.
Definition DeleteKey : Z := 1014.
Definition OpenKey : Z := 1015.
Definition AttestKey : Z := 1016.
Definition RsaModExp : Z := 1031.
Definition RsaUnwrap : Z := 1035.
Definition GetUnwrappingKey : Z := 1051.
Definition EccGenerateKeyPair : Z := 1061.
Definition EccSign : Z := 1062.
Definition AesGenerateKey : Z := 1071.
Definition AesEncryptDecrypt : Z := 1072.
Definition EcdhKeyExchange : Z := 1074.
Definition HkdfDerive : Z := 1075.
Definition KbkdfCounterHmacDerive : Z := 1076.
Definition Hmac : Z := 1077.
Definition GetEstablishCredEncryptionKey : Z := 1101.
Definition EstablishCredential : Z := 1102.
Definition GetSessionEncryptionKey : Z := 1103.
Definition OpenSession : Z := 1104.
Definition CloseSession : Z := 1105.
Definition ChangePin : Z := 1106.
Definition UnmaskKey : Z := 1107.
Definition GetCertChainInfo : Z := 1108.
Definition GetCertificate : Z := 1109.
Definition ReopenSession : Z := 1110.
Definition InitBk3 : Z := 1111.
Definition GetSealedBk3 : Z := 1112.
Definition SetSealedBk3 : Z := 1113.
Definition ResetFunction : Z := 2001.
Definition DerKeyImport : Z := 2002.
Definition GetPerfLogChunk : Z := 2003.
Definition TestAction : Z := 2004.
Definition GetPrivKey : Z := 2005.
Definition ShaDigest : Z := 2006.
Definition GetRandomNumber : Z := 2007.
Definition RawKeyImport : Z := 2008.
Definition SoftAes : Z := 2009.
Definition RsaUnwrapKekTest : Z := 2010.
End DdiOp.

Module DdiStatus.
Definition Success : Z := 0.
Definition InvalidArg : Z := 134217731.
Definition InternalError : Z := 134217736.
Definition UnsupportedCmd : Z := 134217737.
Definition DdiEncodeFailed : Z := 141033473.
Definition DdiDecodeFailed : Z := 141033474.
Definition VaultSessionLimitReached : Z := 141557761.
Definition SessionNotExpected : Z := 141557762.
Definition SessionExpected : Z := 141557763.
Definition SessionNotFound : Z := 141557764.
Definition InvalidManagerCredentials : Z := 141557766.
Definition InvalidAppCredentials : Z := 141557767.
Definition VaultNotFound : Z := 141557768.
Definition AppAlreadyExists : Z := 141557769.
Definition AppNotFound : Z := 141557770.
Definition KeyNotFound : Z := 141557774.
Definition InvalidKeyType : Z := 141557775.
Definition KeyDecodeFailed : Z := 141557776.
Definition RsaEncryptFailed : Z := 141557777.
Definition RsaDecryptFailed : Z := 141557778.
Definition RsaSignFailed : Z := 141557779.
Definition FileHandleSessionLimitReached : Z := 141557790.
Definition FileHandleNoExistingSession : Z := 141557791.
Definition FileHandleSessionIdDoesNotMatch : Z := 141557792.
Definition KeyTagAlreadyExists : Z := 141557793.
Definition InvalidPermissions : Z := 141557794.
Definition EccSignFailed : Z := 141557795.
Definition EccVerifyFailed : Z := 141557796.
Definition AesEncryptFailed : Z := 141557797.
Definition AesDecryptFailed : Z := 141557798.
Definition FunctionNotEnabled : Z := 141557799.
Definition AnotherKeyInUse : Z := 141557800.
Definition KeyNotInUse : Z := 141557801.
Definition UnsupportedRevision : Z := 141557802.
Definition DerAndKeyTypeMismatch : Z := 141557803.
Definition VaultAppLimitReached : Z := 141557804.
Definition NotEnoughSpace : Z := 141557805.
Definition ReachedMaxKeys : Z := 141557806.
Definition CannotDeleteKeyInUse : Z := 141557807.
Definition CannotDeleteSomeKeysInUse : Z := 141557808.
Definition CannotCloseSessionInUse : Z := 141557809.
Definition CannotCloseSomeSessionsInUse : Z := 141557810.
Definition CannotDeleteKeyAndCloseSessionInUse : Z := 141557811.
Definition InvalidKeyNumber : Z := 141557812.
Definition FunctionNotFound : Z := 141557814.
Definition RsaToDerError : Z := 141557815.
Definition RsaGenerateError : Z := 141557816.
Definition RsaGetModulusError : Z := 141557817.
Definition RsaGetPublicExponentError : Z := 141557818.
Definition RsaInvalidKeyLength : Z := 141557819.
Definition EccToDerError : Z := 141557820.
Definition EccGenerateError : Z := 141557821.
Definition EccDeriveError : Z := 141557822.
Definition EccGetCurveError : Z := 141557823.
Definition EccGetCoordinatesError : Z := 141557824.
Definition ShaError : Z := 141557825.
Definition AesGenerateError : Z := 141557826.
Definition CoseSign1UnexpectedSignature : Z := 141557827.
Definition CannotUseDefaultCredentials : Z := 141557828.
Definition HkdfError : Z := 141557829.
Definition KbkdfError : Z := 141557830.
Definition RsaUnwrapError : Z := 141557831.
Definition AttestKeyError : Z := 141557832.
Definition InvalidShortAppId : Z := 141557833.
Definition NoShortAppIdCreated : Z := 141557834.
Definition NoTagProvided : Z := 141557835.
Definition AesGcmInvalidBufferSize : Z := 141557836.
Definition AesGcmDecryptTagDoesNotMatch : Z := 141557837.
Definition AesXtsInvalidBufferSize : Z := 141557838.
Definition AesXtsInvalidDul : Z := 141557839.
Definition EccInvalidKeyLength : Z := 141557840.
Definition AesInvalidKeyLength : Z := 141557841.
Definition InvalidCertificate : Z := 141557842.
Definition PendingKeyGeneration : Z := 141557843.
Definition CannotDeleteInternalKeys : Z := 141557844.
Definition FailedToSendSoftAesRequest : Z := 141557845.
Definition HmacError : Z := 141557846.
Definition PinDecryptionFailed : Z := 141557847.
Definition ReachedMaxAesBulkKeys : Z := 141557848.
Definition HmacInvalidInputSize : Z := 141557849.
Definition RngError : Z := 141557850.
Definition NonceMismatch : Z := 141557851.
Definition EstablishCredEncryptionKeyGenerateFailed : Z := 141557852.
Definition HkdfInvalidInputParam : Z := 141557853.
Definition KbkdfInvalidInputParam : Z := 141557854.
Definition LoginFailed : Z := 141557855.
Definition FailedSoftAesResponse : Z := 141557856.
Definition KeyStructuralValidationFailed : Z := 141557857.
Definition PendingIo : Z := 141557858.
Definition ReceivedEmptyIoEvent : Z := 141557859.
Definition IoChannelReceiveError : Z := 141557860.
Definition IoChannelDecodeError : Z := 141557861.
Definition IoChannelUnknownOp : Z := 141557862.
Definition IoChannelInvalidSrcLen : Z := 141557863.
Definition IoChannelInvalidDstLen : Z := 141557864.
Definition PartitionNotEnabled : Z := 141557865.
Definition IoChannePipelNotEnabled : Z := 141557866.
Definition IoChannePipeNotValid : Z := 141557867.
Definition DmaBufferAllocFailure : Z := 141557868.
Definition IoChannelInvalidBufferDescriptor : Z := 141557869.
Definition DmaHardwareEmptyCompletionFound : Z := 141557870.
Definition DmaCompletedWithError : Z := 141557871.
Definition DmaIoIdentifierMismatch : Z := 141557872.
Definition IoChannelPipeNotFound : Z := 141557873.
Definition FailedToAssociateIoWithPartition : Z := 141557874.
Definition FailedToStartDmaTransaction : Z := 141557875.
Definition IoChannelFailedToSendResponse : Z := 141557876.
Definition FailedToIdentifyDmaBuffer : Z := 141557877.
Definition IoChannelRequestDecodeError : Z := 141557878.
Definition IoCommandNotFound : Z := 141557879.
Definition IoChannelInvalidSrcAlignment : Z := 141557880.
Definition IoChannelInvalidDstAlignment : Z := 141557881.
Definition IoCommandError : Z := 141557882.
Definition SpuriousIpcMessageReceived : Z := 141557883.
Definition InvalidIpcMessageReceived : Z := 141557884.
Definition FailedToDecodeIpcMessage : Z := 141557885.
Definition InvalidIpcMessageOpCodeFound : Z := 141557886.
Definition IoChannelTxEmptyCompletionFound : Z := 141557887.
Definition FailedToAssociateIoWithCompletion : Z := 141557888.
Definition IoChannelFailedToSendCompletion : Z := 141557889.
Definition DefragmentationNeeded : Z := 141557890.
Definition InvalidSessionControlOpcode : Z := 141557891.
Definition DerDecodeFailed : Z := 141557892.
Definition InvalidMemoryMapEntry : Z := 141557893.
Definition ProcessedInvalidIoEvent : Z := 141557894.
Definition ProcessedIoEventInInvalidState : Z := 141557895.
Definition CannotAssociateIoWithPkaCompletion : Z := 141557896.
Definition IdentifiedPkaEngineNotBusy : Z := 141557897.
Definition IdentifiedEccCalculationFailure : Z := 141557898.
Definition FailedToGenerateEccPublicKey : Z := 141557899.
Definition IdentifiedRsaCalculationFailure : Z := 141557900.
Definition FailedToBeginRsaCalculation : Z := 141557901.
Definition FailedToPerformRsaMultiplication : Z := 141557902.
Definition FailedToEndRsaCalculation : Z := 141557903.
Definition FailedToPerformRsaModularInverse : Z := 141557904.
Definition FailedToComputeEcdhSharedSecret : Z := 141557905.
Definition FailedToIdentifyIoChannelPipe : Z := 141557906.
Definition IdentifiedInvalidIoChannelPipe : Z := 141557907.
Definition FailedToSendIpMessage : Z := 141557908.
Definition IpcResponseFailure : Z := 141557909.
Definition KeyDerivationFailure : Z := 141557910.
Definition DerDecodeFailedForAesBulkKey : Z := 141557911.
Definition InvalidIpcShutdownMessage : Z := 141557912.
Definition SessionEncryptionKeyGenerateFailed : Z := 141557913.
Definition IoTimedOut : Z := 141557914.
Definition IoDrainInProgress : Z := 141557915.
Definition IoChannelPipeDeleteError : Z := 141557916.
Definition IpcResponseDecodeError : Z := 141557917.
Definition UnknownSelfTestRequestReceived : Z := 141557918.
Definition SelfTestMissingInstance : Z := 141557919.
Definition FailedToWipePkaMemory : Z := 141557920.
Definition IoDrainReady : Z := 141557921.
Definition InvalidPackageInfo : Z := 141557922.
Definition PctValidationEccGenKeyFailed : Z := 141557923.
Definition PctValidationEstablishCredEncKeyFailed : Z := 141557924.
Definition PctValidationSessionEncKeyFailed : Z := 141557925.
Definition PctValidationUnwrappingKeyFailed : Z := 141557926.
Definition PctValidationRsaUnwrapEccKeyFailed : Z := 141557927.
Definition PctValidationRsaUnwrapRsaKeyFailed : Z := 141557928.
Definition NonFipsApprovedDigest : Z := 141557929.
Definition DigestHashMismatchWithEccCurve : Z := 141557930.
Definition UnsupportedDigestHashAlgorithm : Z := 141557931.
Definition FailedToStartPublicKeyValidation : Z := 141557932.
Definition FailedToEndEccPublicKeyValidation : Z := 141557933.
Definition EccPointValidationFailed : Z := 141557934.
Definition EccPublicKeyValidationFailed : Z := 141557935.
Definition EccDerKeyShorterThanCurve : Z := 141557936.
Definition RsaUnwrapInvalidRequest : Z := 141557937.
Definition RsaUnwrapInvalidKek : Z := 141557938.
Definition RsaUnwrapOaepDecodeFailed : Z := 141557939.
Definition RsaUnwrapInvalidAesUnwrapState : Z := 141557940.
Definition RsaUnwrapAesUnwrapFailed : Z := 141557941.
Definition AttestationReportEncodeFailed : Z := 141557942.
Definition CoseKeyEncodeFailed : Z := 141557943.
Definition AttestKeyInternalError : Z := 141557944.
Definition PartitionIdGenerationFailed : Z := 141557945.
Definition PartitionCertGenerationFailed : Z := 141557946.
Definition PartitionCertInvalidTypeConversion : Z := 141557947.
Definition FsmAllocationFailed : Z := 141557948.
Definition PartitionCertTooLarge : Z := 141557949.
Definition MaskedKeyInvalidLength : Z := 141557950.
Definition MaskedKeyPreEncodeFailed : Z := 141557951.
Definition MaskedKeyEncodeFailed : Z := 141557952.
Definition MaskedKeyDecodeFailed : Z := 141557953.
Definition InvalidAlgorithm : Z := 141557954.
Definition InsufficientBuffer : Z := 141557955.
Definition InvalidKeyLength : Z := 141557956.
Definition MetadataEncodeFailed : Z := 141557957.
Definition MetadataDecodeFailed : Z := 141557958.
Definition SessionNeedsRenegotiation : Z := 141557959.
Definition BkBootGenerationFailed : Z := 141557960.
Definition MaskingBk3Failed : Z := 141557961.
Definition UnmaskingBk3Failed : Z := 141557962.
Definition MaskingBkBootFailed : Z := 141557963.
Definition UnmaskingBkBootFailed : Z := 141557964.
Definition MaskedBkBootNotPresent : Z := 141557965.
Definition SealedBk3TooLarge : Z := 141557966.
Definition PartitionAlreadyProvisioned : Z := 141557967.
Definition SealedBk3NotPresent : Z := 141557968.
Definition CredentialsNotEstablished : Z := 141557969.
Definition InvalidAliasKey : Z := 141557970.
Definition UnmaskUnwrappingKeyNotAllowed : Z := 141557971.
Definition InvalidPartitionIdContent : Z := 141557972.
Definition PartitionNotProvisioned : Z := 141557973.
Definition Bk3AlreadyInitialized : Z := 141557974.
Definition SealedBk3AlreadySet : Z := 141557975.
Definition PartitionIdKeyGenerationPctFailed : Z := 141557976.
End DdiStatus.

Inductive DdiSessionKind : Set := SessionNone | SessionUser.

(** [DdiSessionKind::from(DdiOp)]. *)
Definition DdiSessionKind_from (op : Z) : DdiSessionKind :=
  if bool_decide (op ∈ [DdiOp.Invalid; DdiOp.GetApiRev; DdiOp.GetDeviceInfo; DdiOp.GetEstablishCredEncryptionKey; DdiOp.EstablishCredential; DdiOp.GetSessionEncryptionKey; DdiOp.OpenSession; DdiOp.InitBk3; DdiOp.GetSealedBk3; DdiOp.SetSealedBk3; DdiOp.GetCertChainInfo; DdiOp.GetCertificate]) then SessionNone
  else SessionUser.

(** ** Structures *)

Fixpoint struct (l : list (Z * bool * ddi_type)) : ddi_fields :=
  match l with
  | [] => FNil
  | (id, opt, ty) :: l => FCons id opt ty (struct l)
  end.
Definition req (id : Z) (ty : ddi_type) : Z * bool * ddi_type := (id, false, ty).
Definition opt (id : Z) (ty : ddi_type) : Z * bool * ddi_type := (id, true, ty).

Module Msg.

(** lib.rs *)
Definition DdiDerPublicKey : ddi_fields := struct [
  req 1 (TyByteArray 768) (* der *);
  req 2 TyEnum (* key_kind *)].
Definition DdiTargetKeyMetadata : ddi_fields := struct [req 1 (TyArray 16) (* blob *)].
Definition DdiTargetKeyProperties : ddi_fields := struct [
  req 1 (TyStruct DdiTargetKeyMetadata) (* key_metadata *);
  req 2 (TyByteArray DDI_MAX_KEY_LABEL_LENGTH) (* key_label *)].
Definition DdiKeyProperties : ddi_fields := struct [
  req 1 TyEnum (* key_usage *);
  req 2 TyEnum (* key_availability *);
  req 3 (TyByteArray DDI_MAX_KEY_LABEL_LENGTH) (* key_label *)].
Definition DdiApiRev : ddi_fields := struct [
  req 1 TyU32 (* major *);
  req 2 TyU32 (* minor *)].
Definition DdiReqHdr : ddi_fields := struct [
  opt 1 (TyStruct DdiApiRev) (* rev *);
  req 2 TyEnum (* op *);
  opt 3 TyU16 (* sess_id *)].
Definition DdiReqExt : ddi_fields := FNil.
Definition DdiRespHdr : ddi_fields := struct [
  opt 1 (TyStruct DdiApiRev) (* rev *);
  req 2 TyEnum (* op *);
  opt 3 TyU16 (* sess_id *);
  req 4 TyEnum (* status *);
  req 5 TyBool (* fips_approved *)].
Definition DdiRespExt : ddi_fields := FNil.

(** metadata.rs *)

(** masked_key.rs *)
Definition DdiMaskedKeyAttributes : ddi_fields := struct [req 1 (TyArray 32) (* blob *)].
Definition DdiMaskedKeyMetadata : ddi_fields := struct [
  opt 1 TyU64 (* svn *);
  req 2 TyEnum (* key_type *);
  req 3 (TyStruct DdiMaskedKeyAttributes) (* key_attributes *);
  opt 4 TyU16 (* bks2_index *);
  opt 5 TyU16 (* key_tag *);
  req 6 (TyByteArray DDI_MAX_KEY_LABEL_LENGTH) (* key_label *);
  req 7 TyU16 (* key_length *)].

(** aes.rs *)
Definition DdiAesGenerateKeyReq : ddi_fields := struct [
  req 1 TyEnum (* key_size *);
  opt 2 TyU16 (* key_tag *);
  req 3 (TyStruct DdiTargetKeyProperties) (* key_properties *)].
Definition DdiAesGenerateKeyResp : ddi_fields := struct [
  req 1 TyU16 (* key_id *);
  opt 2 TyU16 (* bulk_key_id *);
  req 3 (TyByteArray 3072) (* masked_key *)].
Definition DdiAesEncryptDecryptReq : ddi_fields := struct [
  req 1 TyU16 (* key_id *);
  req 2 TyEnum (* op *);
  req 3 (TyByteArray 1024) (* msg *);
  req 4 (TyByteArray 16) (* iv *)].
Definition DdiAesEncryptDecryptResp : ddi_fields := struct [
  req 1 (TyByteArray 1024) (* msg *);
  req 2 (TyByteArray 16) (* iv *)].

(** attest_key.rs *)
Definition DdiAttestKeyReq : ddi_fields := struct [
  req 1 TyU16 (* key_id *);
  req 2 (TyByteArray 128) (* report_data *)].
Definition DdiAttestKeyResp : ddi_fields := struct [req 1 (TyByteArray 834) (* report *)].

(** open_session.rs *)
Definition DdiEncryptedEstablishCredential : ddi_fields := struct [
  req 1 (TyByteArray 16) (* encrypted_id *);
  req 2 (TyByteArray 16) (* encrypted_pin *);
  req 3 (TyByteArray 16) (* iv *);
  req 4 (TyArray 32) (* nonce *);
  req 5 (TyArray 48) (* tag *)].
Definition DdiEncryptedSessionCredential : ddi_fields := struct [
  req 1 (TyByteArray 16) (* encrypted_id *);
  req 2 (TyByteArray 16) (* encrypted_pin *);
  req 3 (TyByteArray 48) (* encrypted_seed *);
  req 4 (TyByteArray 16) (* iv *);
  req 5 (TyArray 32) (* nonce *);
  req 6 (TyArray 48) (* tag *)].
Definition DdiOpenSessionReq : ddi_fields := struct [
  req 1 (TyStruct DdiEncryptedSessionCredential) (* encrypted_credential *);
  req 2 (TyStruct DdiDerPublicKey) (* pub_key *)].
Definition DdiOpenSessionResp : ddi_fields := struct [
  req 1 TyU16 (* sess_id *);
  req 2 TyU8 (* short_app_id *);
  req 3 (TyByteArray 1024) (* bmk_session *)].

(** change_pin.rs *)
Definition DdiEncryptedPin : ddi_fields := struct [
  req 2 (TyByteArray 16) (* encrypted_pin *);
  req 3 (TyByteArray 16) (* iv *);
  req 4 (TyArray 32) (* nonce *);
  req 5 (TyArray 48) (* tag *)].
Definition DdiChangePinReq : ddi_fields := struct [
  req 1 (TyStruct DdiEncryptedPin) (* new_pin *);
  req 2 (TyStruct DdiDerPublicKey) (* pub_key *)].
Definition DdiChangePinResp : ddi_fields := FNil.

(** close_session.rs *)
Definition DdiCloseSessionReq : ddi_fields := FNil.
Definition DdiCloseSessionResp : ddi_fields := FNil.

(** delete_key.rs *)
Definition DdiDeleteKeyReq : ddi_fields := struct [req 1 TyU16 (* key_id *)].
Definition DdiDeleteKeyResp : ddi_fields := FNil.

(** derive.rs *)
Definition DdiHkdfDeriveReq : ddi_fields := struct [
  req 1 TyU16 (* key_id *);
  req 2 TyEnum (* hash_algorithm *);
  opt 3 (TyByteArray 256) (* salt *);
  opt 4 (TyByteArray 256) (* info *);
  req 5 TyEnum (* key_type *);
  opt 6 TyU16 (* key_tag *);
  req 7 (TyStruct DdiTargetKeyProperties) (* key_properties *);
  opt 8 TyU8 (* key_length *)].
Definition DdiHkdfDeriveResp : ddi_fields := struct [
  req 1 TyU16 (* key_id *);
  req 2 (TyByteArray 3072) (* masked_key *);
  opt 3 TyU16 (* bulk_key_id *)].
Definition DdiKbkdfCounterHmacDeriveReq : ddi_fields := struct [
  req 1 TyU16 (* key_id *);
  req 2 TyEnum (* hash_algorithm *);
  opt 3 (TyByteArray 256) (* label *);
  opt 4 (TyByteArray 256) (* context *);
  req 5 TyEnum (* key_type *);
  opt 6 TyU16 (* key_tag *);
  req 7 (TyStruct DdiTargetKeyProperties) (* key_properties *);
  opt 8 TyU8 (* key_length *)].
Definition DdiKbkdfCounterHmacDeriveResp : ddi_fields := struct [
  req 1 TyU16 (* key_id *);
  req 2 (TyByteArray 3072) (* masked_key *);
  opt 3 TyU16 (* bulk_key_id *)].

(** ecc.rs *)
Definition DdiEccGenerateKeyPairReq : ddi_fields := struct [
  req 1 TyEnum (* curve *);
  opt 2 TyU16 (* key_tag *);
  req 3 (TyStruct DdiTargetKeyProperties) (* key_properties *)].
Definition DdiEccGenerateKeyPairResp : ddi_fields := struct [
  req 1 TyU16 (* private_key_id *);
  opt 2 (TyStruct DdiDerPublicKey) (* pub_key *);
  req 3 (TyByteArray 3072) (* masked_key *)].
Definition DdiEccSignReq : ddi_fields := struct [
  req 1 TyU16 (* key_id *);
  req 2 (TyByteArray 96) (* digest *);
  req 3 TyEnum (* digest_algo *)].
Definition DdiEccSignResp : ddi_fields := struct [req 1 (TyByteArray 192) (* signature *)].
Definition DdiEcdhKeyExchangeReq : ddi_fields := struct [
  req 1 TyU16 (* priv_key_id *);
  req 2 (TyByteArray 192) (* pub_key_der *);
  req 3 TyEnum (* key_type *);
  opt 4 TyU16 (* key_tag *);
  req 5 (TyStruct DdiTargetKeyProperties) (* key_properties *)].
Definition DdiEcdhKeyExchangeResp : ddi_fields := struct [
  req 1 TyU16 (* key_id *);
  req 2 (TyByteArray 3072) (* masked_key *)].

(** error.rs *)
Definition DdiErrReq : ddi_fields := FNil.
Definition DdiErrResp : ddi_fields := FNil.

(** establish_credential.rs *)
Definition DdiEstablishCredentialReq : ddi_fields := struct [
  req 1 (TyStruct DdiEncryptedEstablishCredential) (* encrypted_credential *);
  req 2 (TyStruct DdiDerPublicKey) (* pub_key *);
  req 3 (TyByteArray 1024) (* masked_bk3 *);
  req 4 (TyByteArray 1024) (* bmk *);
  req 5 (TyByteArray 1024) (* masked_unwrapping_key *);
  req 6 (TyByteArray 1024) (* pota_sig *);
  req 7 (TyStruct DdiDerPublicKey) (* pota_pub_key *)].
Definition DdiEstablishCredentialResp : ddi_fields := struct [req 1 (TyByteArray 1024) (* bmk *)].

(** get_api_rev.rs *)
Definition DdiGetApiRevReq : ddi_fields := FNil.
Definition DdiGetApiRevResp : ddi_fields := struct [
  req 1 (TyStruct DdiApiRev) (* min *);
  req 2 (TyStruct DdiApiRev) (* max *)].

(** get_cert.rs *)
Definition DdiGetCertChainInfoReq : ddi_fields := struct [req 1 TyU8 (* slot_id *)].
Definition DdiGetCertChainInfoResp : ddi_fields := struct [
  req 1 TyU8 (* num_certs *);
  req 2 (TyByteArray 32) (* thumbprint *)].
Definition DdiGetCertificateReq : ddi_fields := struct [
  req 1 TyU8 (* slot_id *);
  req 2 TyU8 (* cert_id *)].
Definition DdiGetCertificateResp : ddi_fields := struct [req 1 (TyByteArray 2048) (* certificate *)].

(** get_device_info.rs *)
Definition DdiGetDeviceInfoReq : ddi_fields := FNil.
Definition DdiGetDeviceInfoResp : ddi_fields := struct [
  req 1 TyEnum (* kind *);
  req 2 TyU8 (* tables *);
  req 3 TyBool (* fips_approved *)].

(** get_establish_cred_encryption_key.rs *)
Definition DdiGetEstablishCredEncryptionKeyReq : ddi_fields := FNil.
Definition DdiGetEstablishCredEncryptionKeyResp : ddi_fields := struct [
  req 1 (TyStruct DdiDerPublicKey) (* pub_key *);
  req 2 (TyArray 32) (* nonce *);
  req 3 (TyByteArray 192) (* pub_key_signature *)].

(** get_sealed_bk3.rs *)
Definition DdiGetSealedBk3Req : ddi_fields := FNil.
Definition DdiGetSealedBk3Resp : ddi_fields := struct [req 1 (TyByteArray 1024) (* sealed_bk3 *)].

(** get_session_encryption_key.rs *)
Definition DdiGetSessionEncryptionKeyReq : ddi_fields := FNil.
Definition DdiGetSessionEncryptionKeyResp : ddi_fields := struct [
  req 1 (TyStruct DdiDerPublicKey) (* pub_key *);
  req 2 (TyArray 32) (* nonce *);
  req 3 (TyByteArray 192) (* pub_key_signature *)].

(** get_unwrapping_key.rs *)
Definition DdiGetUnwrappingKeyReq : ddi_fields := FNil.
Definition DdiGetUnwrappingKeyResp : ddi_fields := struct [
  req 1 TyU16 (* key_id *);
  req 2 (TyStruct DdiDerPublicKey) (* pub_key *);
  req 3 (TyByteArray 1024) (* masked_key *)].

(** hmac.rs *)
Definition DdiHmacReq : ddi_fields := struct [
  req 1 TyU16 (* key_id *);
  req 2 (TyByteArray 1024) (* msg *)].
Definition DdiHmacResp : ddi_fields := struct [req 1 (TyByteArray 64) (* tag *)].

(** init_bk3.rs *)
Definition DdiInitBk3Req : ddi_fields := struct [req 1 (TyByteArray 48) (* bk3 *)].
Definition DdiInitBk3Resp : ddi_fields := struct [
  req 1 (TyByteArray 1024) (* masked_bk3 *);
  req 2 (TyArray 16) (* vm_launch_guid *)].

(** mask.rs *)
Definition DdiUnmaskKeyReq : ddi_fields := struct [req 1 (TyByteArray 3072) (* masked_key *)].
Definition DdiUnmaskKeyResp : ddi_fields := struct [
  req 1 TyU16 (* key_id *);
  opt 2 (TyStruct DdiDerPublicKey) (* pub_key *);
  opt 3 TyU16 (* bulk_key_id *);
  req 4 TyEnum (* kind *);
  req 5 (TyByteArray 3072) (* masked_key *)].

(** open_key.rs *)
Definition DdiOpenKeyReq : ddi_fields := struct [req 1 TyU16 (* key_tag *)].
Definition DdiOpenKeyResp : ddi_fields := struct [
  req 1 TyU16 (* key_id *);
  req 2 TyEnum (* key_kind *);
  opt 3 (TyStruct DdiDerPublicKey) (* pub_key *);
  opt 4 TyU16 (* bulk_key_id *)].

(** reopen_session.rs *)
Definition DdiReopenSessionReq : ddi_fields := struct [
  req 1 (TyStruct DdiEncryptedSessionCredential) (* encrypted_credential *);
  req 2 (TyStruct DdiDerPublicKey) (* pub_key *);
  req 3 (TyByteArray 1024) (* bmk_session *)].
Definition DdiReopenSessionResp : ddi_fields := struct [
  req 1 TyU16 (* sess_id *);
  req 2 TyU8 (* short_app_id *);
  req 3 (TyByteArray 1024) (* bmk_session *)].

(** rsa.rs *)
Definition DdiRsaCryptoPadding : list Z := [1%Z].
Definition DdiRsaModExpReq : ddi_fields := struct [
  req 1 TyU16 (* key_id *);
  req 2 (TyByteArray 512) (* y *);
  req 3 TyEnum (* op_type *)].
Definition DdiRsaModExpResp : ddi_fields := struct [req 1 (TyByteArray 512) (* x *)].
Definition DdiRsaUnwrapReq : ddi_fields := struct [
  req 1 TyU16 (* key_id *);
  req 2 (TyByteArray 3072) (* wrapped_blob *);
  req 3 TyEnum (* wrapped_blob_key_class *);
  req 4 (TyClosed DdiRsaCryptoPadding) (* wrapped_blob_padding *);
  req 5 TyEnum (* wrapped_blob_hash_algorithm *);
  opt 6 TyU16 (* key_tag *);
  req 7 (TyStruct DdiTargetKeyProperties) (* key_properties *)].
Definition DdiRsaUnwrapResp : ddi_fields := struct [
  req 1 TyU16 (* key_id *);
  opt 2 (TyStruct DdiDerPublicKey) (* pub_key *);
  opt 3 TyU16 (* bulk_key_id *);
  req 4 TyEnum (* kind *);
  req 5 (TyByteArray 3072) (* masked_key *)].

(** set_sealed_bk3.rs *)
Definition DdiSetSealedBk3Req : ddi_fields := struct [req 1 (TyByteArray 1024) (* sealed_bk3 *)].
Definition DdiSetSealedBk3Resp : ddi_fields := FNil.

(** [ddi_op_req_resp!]: a header and the data. *)
Definition cmd_req (data : ddi_fields) : ddi_fields :=
  struct [req 0 (TyStruct DdiReqHdr) (* hdr *); req 1 (TyStruct data) (* data *)].
Definition cmd_resp (data : ddi_fields) : ddi_fields :=
  struct [req 0 (TyStruct DdiRespHdr) (* hdr *); req 1 (TyStruct data) (* data *)].

(** The requests and the responses the macro declares. *)
Definition requests : list ddi_fields := cmd_req <$> [
  DdiAesGenerateKeyReq;
  DdiAesEncryptDecryptReq;
  DdiAttestKeyReq;
  DdiOpenSessionReq;
  DdiChangePinReq;
  DdiCloseSessionReq;
  DdiDeleteKeyReq;
  DdiHkdfDeriveReq;
  DdiKbkdfCounterHmacDeriveReq;
  DdiEccGenerateKeyPairReq;
  DdiEccSignReq;
  DdiEcdhKeyExchangeReq;
  DdiErrReq;
  DdiEstablishCredentialReq;
  DdiGetApiRevReq;
  DdiGetCertChainInfoReq;
  DdiGetCertificateReq;
  DdiGetDeviceInfoReq;
  DdiGetEstablishCredEncryptionKeyReq;
  DdiGetSealedBk3Req;
  DdiGetSessionEncryptionKeyReq;
  DdiGetUnwrappingKeyReq;
  DdiHmacReq;
  DdiInitBk3Req;
  DdiUnmaskKeyReq;
  DdiOpenKeyReq;
  DdiReopenSessionReq;
  DdiRsaModExpReq;
  DdiRsaUnwrapReq;
  DdiSetSealedBk3Req].
Definition responses : list ddi_fields := cmd_resp <$> [
  DdiAesGenerateKeyResp;
  DdiAesEncryptDecryptResp;
  DdiAttestKeyResp;
  DdiOpenSessionResp;
  DdiChangePinResp;
  DdiCloseSessionResp;
  DdiDeleteKeyResp;
  DdiHkdfDeriveResp;
  DdiKbkdfCounterHmacDeriveResp;
  DdiEccGenerateKeyPairResp;
  DdiEccSignResp;
  DdiEcdhKeyExchangeResp;
  DdiErrResp;
  DdiEstablishCredentialResp;
  DdiGetApiRevResp;
  DdiGetCertChainInfoResp;
  DdiGetCertificateResp;
  DdiGetDeviceInfoResp;
  DdiGetEstablishCredEncryptionKeyResp;
  DdiGetSealedBk3Resp;
  DdiGetSessionEncryptionKeyResp;
  DdiGetUnwrappingKeyResp;
  DdiHmacResp;
  DdiInitBk3Resp;
  DdiUnmaskKeyResp;
  DdiOpenKeyResp;
  DdiReopenSessionResp;
  DdiRsaModExpResp;
  DdiRsaUnwrapResp;
  DdiSetSealedBk3Resp].

End Msg.

(** ** [DdiDecoder::decode_hdr] *)

Inductive MborError : Set := DecodeError | EncodeError.

Definition decode_hdr {T} (hdr : M MborDecoder MborDecodeError T) :
    M MborDecoder MborError T := λ d,
  match mbor_decode (A:=MborMap) d with
  | (Ok (mkMap count), d) =>
      if (count =? 2)%Z then
        match Ddi.decode_u8 d with
        | (Ok res, d) =>
            if negb (res =? 0)%Z then (Err DecodeError, d)
            else match hdr d with
                 | (Ok h, d) => (Ok h, d)
                 | (Err _, d) => (Err DecodeError, d)
                 | (Panic, d) => (Panic, d)
                 end
        | (Err _, d) => (Err DecodeError, d)
        | (Panic, d) => (Panic, d)
        end
      else (Err DecodeError, d)
  | (Err _, d) => (Err DecodeError, d)
  | (Panic, d) => (Panic, d)
  end.

(** ** Key properties (metadata.rs, lib.rs) *)

Module KeyProps.

(** [DdiTargetKeyMetadata]: the flags are the first bits of a 16-byte blob. *)
Definition metadata := list Z.
Definition default_metadata : metadata := replicate 16 0%Z.

Definition BIT_FLAG_SESSION : nat := 0.
Definition BIT_FLAG_MODIFIABLE : nat := 1.
Definition BIT_FLAG_ENCRYPT : nat := 2.
Definition BIT_FLAG_DECRYPT : nat := 3.
Definition BIT_FLAG_SIGN : nat := 4.
Definition BIT_FLAG_VERIFY : nat := 5.
Definition BIT_FLAG_DERIVE : nat := 6.
Definition BIT_FLAG_WRAP : nat := 7.
Definition BIT_FLAG_UNWRAP : nat := 8.

Definition get_bit (m : metadata) (bit : nat) : bool :=
  negb (Z.land (m !!! (bit / 8)%nat) (Z.shiftl 1 (Z.of_nat (bit mod 8)%nat)) =? 0)%Z.

Definition set_bit (m : metadata) (bit : nat) (value : bool) : metadata :=
  alter (λ b, set_bit_to 8 b (Z.of_nat (bit mod 8)) value) (bit / 8) m.

(** [impl TryFrom<DdiTargetKeyMetadata> for DdiKeyUsage]; the error is
    [DdiTypeError::InvalidArgument]. *)
Definition usage_of (m : metadata) : option DdiKeyUsage :=
  let encrypt := get_bit m BIT_FLAG_ENCRYPT in
  let decrypt := get_bit m BIT_FLAG_DECRYPT in
  let sign := get_bit m BIT_FLAG_SIGN in
  let verify := get_bit m BIT_FLAG_VERIFY in
  let derive := get_bit m BIT_FLAG_DERIVE in
  let wrap := get_bit m BIT_FLAG_WRAP in
  let unwrap := get_bit m BIT_FLAG_UNWRAP in
  if encrypt && decrypt && negb sign && negb verify && negb derive && negb wrap && negb unwrap
  then Some DKU_EncryptDecrypt
  else if sign && verify && negb encrypt && negb decrypt && negb derive && negb wrap && negb unwrap
  then Some DKU_SignVerify
  else if unwrap && negb sign && negb verify && negb encrypt && negb decrypt && negb derive && negb wrap
  then Some DKU_Unwrap
  else if derive && negb sign && negb verify && negb encrypt && negb decrypt && negb wrap && negb unwrap
  then Some DKU_Derive
  else None.

Record DdiTargetKeyProperties : Set := mkTarget { key_metadata : metadata; t_key_label : list Z }.
Record DdiKeyProperties : Set := mkProps {
  key_usage : DdiKeyUsage; key_availability : DdiKeyAvailability; key_label : list Z
}.

(** [impl TryFrom<DdiKeyProperties> for DdiTargetKeyProperties]. *)
Definition to_target (p : DdiKeyProperties) : option DdiTargetKeyProperties :=
  let m := default_metadata in
  let m := match key_availability p with DKA_Session => set_bit m BIT_FLAG_SESSION true | _ => m end in
  m ← match key_usage p with
      | DKU_EncryptDecrypt => Some (set_bit (set_bit m BIT_FLAG_ENCRYPT true) BIT_FLAG_DECRYPT true)
      | DKU_SignVerify => Some (set_bit (set_bit m BIT_FLAG_SIGN true) BIT_FLAG_VERIFY true)
      | DKU_Unwrap => Some (set_bit m BIT_FLAG_UNWRAP true)
      | DKU_Derive => Some (set_bit m BIT_FLAG_DERIVE true)
      | DKU_other _ => None
      end;
  Some (mkTarget m (key_label p)).

(** [impl TryFrom<DdiTargetKeyProperties> for DdiKeyProperties]. *)
Definition from_target (t : DdiTargetKeyProperties) : option DdiKeyProperties :=
  u ← usage_of (key_metadata t);
  Some (mkProps u (if get_bit (key_metadata t) BIT_FLAG_SESSION then DKA_Session else DKA_App)
    (t_key_label t)).

End KeyProps.
