(* ===== verification/HostStatus.v ===== *)
(** * Status codes of errors (hsm/src/error.rs)

    The code a failed command reports in its response and the code an error
    completion carries. *)

From stdpp Require Import base list numbers option.
From S2P Require Import Prelude.
From S2P Require Import HsmError.
From S2P Require Import Mbor.
From S2P Require Import DdiTypes.

(** [impl From<HsmErr> for DdiStatus]. *)
Definition DdiStatus_from (e : HsmErr) : Z :=
  match e with
  | HsmError.Pending => DdiStatus.PendingIo
  | HsmError.IoChannelRecvNone => DdiStatus.ReceivedEmptyIoEvent
  | HsmError.IoChannelRecvErr => DdiStatus.IoChannelReceiveError
  | HsmError.SqeDecodeError => DdiStatus.IoChannelDecodeError
  | HsmError.SqeUnknownOp => DdiStatus.IoChannelUnknownOp
  | HsmError.UnsupportedCmd => DdiStatus.UnsupportedCmd
  | HsmError.SqeInvalidSrcLen => DdiStatus.IoChannelInvalidSrcLen
  | HsmError.SqeInvalidDstLen => DdiStatus.IoChannelInvalidDstLen
  | HsmError.PartitionNotEnabled => DdiStatus.PartitionNotEnabled
  | HsmError.QueueNotEnabled => DdiStatus.IoChannePipelNotEnabled
  | HsmError.QueueNotValid => DdiStatus.IoChannePipeNotValid
  | HsmError.DmaAllocFailure => DdiStatus.DmaBufferAllocFailure
  | HsmError.SqeInvalidPsdt => DdiStatus.IoChannelInvalidBufferDescriptor
  | HsmError.DmaCompletionEmpty => DdiStatus.DmaHardwareEmptyCompletionFound
  | HsmError.DmaEndErr => DdiStatus.DmaCompletedWithError
  | HsmError.DmaTagMismatch => DdiStatus.DmaIoIdentifierMismatch
  | HsmError.ExpectedIoQueue => DdiStatus.IoChannelPipeNotFound
  | HsmError.ExpectedPcieFn => DdiStatus.FailedToAssociateIoWithPartition
  | HsmError.DmaStartError => DdiStatus.FailedToStartDmaTransaction
  | HsmError.IoChannelSendError => DdiStatus.IoChannelFailedToSendResponse
  | HsmError.ExpectedDmaBuf => DdiStatus.FailedToIdentifyDmaBuffer
  | HsmError.ReqHdrDecodeErr => DdiStatus.IoChannelRequestDecodeError
  | HsmError.ExpectedCmdFsm => DdiStatus.IoCommandNotFound
  | HsmError.SqeInvalidSrcPrpAlgin => DdiStatus.IoChannelInvalidSrcAlignment
  | HsmError.SqeInvalidDstPrpAlgin => DdiStatus.IoChannelInvalidDstAlignment
  | HsmError.CmdError => DdiStatus.IoCommandError
  | HsmError.InvalidMgrCredential => DdiStatus.InvalidManagerCredentials
  | HsmError.InvalidUserCredential => DdiStatus.InvalidAppCredentials
  | HsmError.AppNotFound => DdiStatus.AppNotFound
  | HsmError.AppAlreadyExists => DdiStatus.AppAlreadyExists
  | HsmError.SessionNotFound => DdiStatus.SessionNotFound
  | HsmError.SessionLimitReached => DdiStatus.VaultSessionLimitReached
  | HsmError.FunctionNotEnabled => DdiStatus.FunctionNotEnabled
  | HsmError.SpuriousIpcMessageEvent => DdiStatus.SpuriousIpcMessageReceived
  | HsmError.InvalidIpcMessage => DdiStatus.InvalidIpcMessageReceived
  | HsmError.IpcMessageDecodeErr => DdiStatus.FailedToDecodeIpcMessage
  | HsmError.InvalidMessageOpcode => DdiStatus.InvalidIpcMessageOpCodeFound
  | HsmError.SessionExpected => DdiStatus.SessionExpected
  | HsmError.IoChannelSendCompleteNone => DdiStatus.IoChannelTxEmptyCompletionFound
  | HsmError.IoTagMismatch => DdiStatus.FailedToAssociateIoWithCompletion
  | HsmError.IoChannelSendCompleteError => DdiStatus.IoChannelFailedToSendCompletion
  | HsmError.AnotherKeyInUse => DdiStatus.AnotherKeyInUse
  | HsmError.KeyNotInUse => DdiStatus.KeyNotInUse
  | HsmError.InvalidArgument => DdiStatus.InvalidArg
  | HsmError.NotEnoughSpace => DdiStatus.NotEnoughSpace
  | HsmError.DefragNeeded => DdiStatus.DefragmentationNeeded
  | HsmError.InvalidKeyIndex => DdiStatus.KeyNotFound
  | HsmError.CannotDeleteKeyInUse => DdiStatus.CannotDeleteKeyInUse
  | HsmError.CannotDeleteSomeKeysInUse => DdiStatus.CannotDeleteSomeKeysInUse
  | HsmError.KeyNotFound => DdiStatus.KeyNotFound
  | HsmError.KeyTagAlreadyExists => DdiStatus.KeyTagAlreadyExists
  | HsmError.AesEncryptFailed => DdiStatus.AesEncryptFailed
  | HsmError.UnsupportedRevision => DdiStatus.UnsupportedRevision
  | HsmError.SessionNotExpected => DdiStatus.SessionNotExpected
  | HsmError.VaultNotFound => DdiStatus.VaultNotFound
  | HsmError.InvalidSessionControlOpcode => DdiStatus.InvalidSessionControlOpcode
  | HsmError.DerEncodeFailed => DdiStatus.DerDecodeFailed
  | HsmError.AppLimitReached => DdiStatus.VaultAppLimitReached
  | HsmError.CannotCloseSessionInUse => DdiStatus.CannotCloseSessionInUse
  | HsmError.CannotCloseSomeSessionsInUse => DdiStatus.CannotCloseSomeSessionsInUse
  | HsmError.CannotDeleteKeyAndCloseSessionInUse => DdiStatus.CannotDeleteKeyAndCloseSessionInUse
  | HsmError.InvalidPermissions => DdiStatus.InvalidPermissions
  | HsmError.AesDecryptFailed => DdiStatus.AesDecryptFailed
  | HsmError.DdiDecodeFailed => DdiStatus.DdiDecodeFailed
  | HsmError.DdiEncodeFailed => DdiStatus.DdiEncodeFailed
  | HsmError.InvalidKeyType => DdiStatus.InvalidKeyType
  | HsmError.EccGenKeyFailed => DdiStatus.EccGenerateError
  | HsmError.EccVerifyFailed => DdiStatus.EccVerifyFailed
  | HsmError.CannotUseDefaultCredentials => DdiStatus.CannotUseDefaultCredentials
  | HsmError.InvalidMemoryMapEntry => DdiStatus.InvalidMemoryMapEntry
  | HsmError.InvalidEvent => DdiStatus.ProcessedInvalidIoEvent
  | HsmError.InvalidState => DdiStatus.ProcessedIoEventInInvalidState
  | HsmError.PkaTagMismatch => DdiStatus.CannotAssociateIoWithPkaCompletion
  | HsmError.PkaEngineNotBusy => DdiStatus.IdentifiedPkaEngineNotBusy
  | HsmError.EccSignFailed => DdiStatus.EccSignFailed
  | HsmError.EccMontgomeryConstCalcFailed => DdiStatus.IdentifiedEccCalculationFailure
  | HsmError.EccGenPubKeyFailed => DdiStatus.FailedToGenerateEccPublicKey
  | HsmError.DerDecodeFailed => DdiStatus.KeyDecodeFailed
  | HsmError.ShaCmdFailed => DdiStatus.ShaError
  | HsmError.RsaModExpFailed => DdiStatus.RsaDecryptFailed
  | HsmError.RsaUnwrapInternalErr => DdiStatus.RsaUnwrapError
  | HsmError.RsaUnwrapInvalidReq => DdiStatus.RsaUnwrapInvalidRequest
  | HsmError.RsaUnwrapInvalidKek => DdiStatus.RsaUnwrapInvalidKek
  | HsmError.RsaUnwrapOaepDecodeFailed => DdiStatus.RsaUnwrapOaepDecodeFailed
  | HsmError.RsaUnwrapInvalidAesUnwrapState => DdiStatus.RsaUnwrapInvalidAesUnwrapState
  | HsmError.RsaUnwrapAesUnwrapFailed => DdiStatus.RsaUnwrapAesUnwrapFailed
  | HsmError.RsaMontgomeryConstCalcFailed => DdiStatus.IdentifiedRsaCalculationFailure
  | HsmError.RsaMontgomeryInFailed => DdiStatus.FailedToBeginRsaCalculation
  | HsmError.RsaModularMultiplicationFailed => DdiStatus.FailedToPerformRsaMultiplication
  | HsmError.RsaMontgomeryOutFailed => DdiStatus.FailedToEndRsaCalculation
  | HsmError.RsaModularInverseFailed => DdiStatus.FailedToPerformRsaModularInverse
  | HsmError.AttestationReportEncodeFailed => DdiStatus.AttestationReportEncodeFailed
  | HsmError.CoseKeyEncodeFailed => DdiStatus.CoseKeyEncodeFailed
  | HsmError.AttestKeyInternalErr => DdiStatus.AttestKeyInternalError
  | HsmError.EcdhComputeFailed => DdiStatus.FailedToComputeEcdhSharedSecret
  | HsmError.ExpectedIoq => DdiStatus.FailedToIdentifyIoChannelPipe
  | HsmError.InvalidIoq => DdiStatus.IdentifiedInvalidIoChannelPipe
  | HsmError.IpcSendFailure => DdiStatus.FailedToSendIpMessage
  | HsmError.IpcResponseError => DdiStatus.IpcResponseFailure
  | HsmError.DerAndKeyTypeMismatch => DdiStatus.DerAndKeyTypeMismatch
  | HsmError.KeyDeriveFailed => DdiStatus.KeyDerivationFailure
  | HsmError.CannotDeleteAppSessionsOpen => DdiStatus.CannotCloseSomeSessionsInUse
  | HsmError.AesBulk256InvalidParameter => DdiStatus.DerDecodeFailedForAesBulkKey
  | HsmError.InvalidIpcShutdownRequest => DdiStatus.InvalidIpcShutdownMessage
  | HsmError.InvalidCertificate => DdiStatus.InvalidCertificate
  | HsmError.SessionEncryptionKeyGenerateFailed => DdiStatus.SessionEncryptionKeyGenerateFailed
  | HsmError.PinDecryptionFailed => DdiStatus.PinDecryptionFailed
  | HsmError.PendingKeyGeneration => DdiStatus.PendingKeyGeneration
  | HsmError.IoTimeOut => DdiStatus.IoTimedOut
  | HsmError.DrainBusy => DdiStatus.IoDrainInProgress
  | HsmError.CannotDeleteInternalKeys => DdiStatus.CannotDeleteInternalKeys
  | HsmError.DeferredQueueDeleteNotifyErr => DdiStatus.IoChannelPipeDeleteError
  | HsmError.SoftAesReqSendFailed => DdiStatus.FailedToSendSoftAesRequest
  | HsmError.IpcResponseDecodeError => DdiStatus.IpcResponseDecodeError
  | HsmError.ReachedMaxAesBulkKeys => DdiStatus.ReachedMaxAesBulkKeys
  | HsmError.HmacInvalidInputSize => DdiStatus.HmacInvalidInputSize
  | HsmError.HmacComputeFailed => DdiStatus.HmacError
  | HsmError.NonceMismatch => DdiStatus.NonceMismatch
  | HsmError.EstablishCredEncryptionKeyGenerateFailed => DdiStatus.EstablishCredEncryptionKeyGenerateFailed
  | HsmError.HkdfInvalidInputParam => DdiStatus.HkdfInvalidInputParam
  | HsmError.HkdfError => DdiStatus.HkdfError
  | HsmError.KbkdfInvalidInputParam => DdiStatus.KbkdfInvalidInputParam
  | HsmError.KbkdfError => DdiStatus.KbkdfError
  | HsmError.InvalidKeyTableIndex => DdiStatus.KeyNotFound
  | HsmError.UnknownSelfTest => DdiStatus.UnknownSelfTestRequestReceived
  | HsmError.MissingSelfTestEngineInstance => DdiStatus.SelfTestMissingInstance
  | HsmError.LoginFailed => DdiStatus.LoginFailed
  | HsmError.SoftAesInvalidResp => DdiStatus.FailedSoftAesResponse
  | HsmError.PkaMemoryWipeFailed => DdiStatus.FailedToWipePkaMemory
  | HsmError.DrainReady => DdiStatus.IoDrainReady
  | HsmError.KeyStructuralValidationFailed => DdiStatus.KeyStructuralValidationFailed
  | HsmError.InvalidPorMeasurementDataAccess => DdiStatus.InvalidPackageInfo
  | HsmError.PctValidationEccGenKeyFailed => DdiStatus.PctValidationEccGenKeyFailed
  | HsmError.PctValidationEstablishCredEncKeyFailed => DdiStatus.PctValidationEstablishCredEncKeyFailed
  | HsmError.PctValidationSessionEncKeyFailed => DdiStatus.PctValidationSessionEncKeyFailed
  | HsmError.PctValidationUnwrappingKeyFailed => DdiStatus.PctValidationUnwrappingKeyFailed
  | HsmError.PctValidationRsaUnwrapEccKeyFailed => DdiStatus.PctValidationRsaUnwrapEccKeyFailed
  | HsmError.PctValidationRsaUnwrapRsaKeyFailed => DdiStatus.PctValidationRsaUnwrapRsaKeyFailed
  | HsmError.NonFipsApprovedMessageDigest => DdiStatus.NonFipsApprovedDigest
  | HsmError.DigestHashMismatchWithEccCurve => DdiStatus.DigestHashMismatchWithEccCurve
  | HsmError.UnsupportedDigestHashAlgorithm => DdiStatus.UnsupportedDigestHashAlgorithm
  | HsmError.BeginEccPointValidationFailed => DdiStatus.FailedToStartPublicKeyValidation
  | HsmError.EndEccPointValidationFailed => DdiStatus.FailedToEndEccPublicKeyValidation
  | HsmError.EccPointValidationFailed => DdiStatus.EccPointValidationFailed
  | HsmError.EccPublicKeyValidationFailed => DdiStatus.EccPublicKeyValidationFailed
  | HsmError.EccDerKeyShorterThanCurve => DdiStatus.EccDerKeyShorterThanCurve
  | HsmError.PartitionIdGenerationFailed => DdiStatus.PartitionIdGenerationFailed
  | HsmError.PartitionCertGenerationFailed => DdiStatus.PartitionCertGenerationFailed
  | HsmError.PartitionCertInvalidTypeConversion => DdiStatus.PartitionCertInvalidTypeConversion
  | HsmError.FsmAllocationFailed => DdiStatus.FsmAllocationFailed
  | HsmError.PartitionCertTooLarge => DdiStatus.PartitionCertTooLarge
  | HsmError.MaskedKeyDecodeFailed => DdiStatus.MaskedKeyDecodeFailed
  | HsmError.MaskedKeyEncodeFailed => DdiStatus.MaskedKeyEncodeFailed
  | HsmError.MaskedKeyInvalidLength => DdiStatus.MaskedKeyInvalidLength
  | HsmError.MaskedKeyPreEncodeFailed => DdiStatus.MaskedKeyPreEncodeFailed
  | HsmError.InvalidAlgorithm => DdiStatus.InvalidAlgorithm
  | HsmError.InsufficientBuffer => DdiStatus.InsufficientBuffer
  | HsmError.InvalidKeyLength => DdiStatus.InvalidKeyLength
  | HsmError.MetadataEncodeFailed => DdiStatus.MetadataEncodeFailed
  | HsmError.MetadataDecodeFailed => DdiStatus.MetadataDecodeFailed
  | HsmError.SessionNeedsRenegotiation => DdiStatus.SessionNeedsRenegotiation
  | HsmError.BkBootGenerationFailed => DdiStatus.BkBootGenerationFailed
  | HsmError.MaskingBk3Failed => DdiStatus.MaskingBk3Failed
  | HsmError.UnmaskingBk3Failed => DdiStatus.UnmaskingBk3Failed
  | HsmError.MaskingBkBootFailed => DdiStatus.MaskingBkBootFailed
  | HsmError.UnmaskingBkBootFailed => DdiStatus.UnmaskingBkBootFailed
  | HsmError.MaskedBkBootNotPresent => DdiStatus.MaskedBkBootNotPresent
  | HsmError.SealedBk3TooLarge => DdiStatus.SealedBk3TooLarge
  | HsmError.PartitionAlreadyProvisioned => DdiStatus.PartitionAlreadyProvisioned
  | HsmError.SealedBk3NotPresent => DdiStatus.SealedBk3NotPresent
  | HsmError.InvalidAliasKey => DdiStatus.InvalidAliasKey
  | HsmError.UnmaskUnwrappingKeyNotAllowed => DdiStatus.UnmaskUnwrappingKeyNotAllowed
  | HsmError.InvalidPartIdPrivKeyInternalError => DdiStatus.InvalidPartitionIdContent
  | HsmError.PartitionNotProvisioned => DdiStatus.PartitionNotProvisioned
  | HsmError.CredentialsNotEstablished => DdiStatus.CredentialsNotEstablished
  | HsmError.Bk3AlreadyInitialized => DdiStatus.Bk3AlreadyInitialized
  | HsmError.SealedBk3AlreadySet => DdiStatus.SealedBk3AlreadySet
  | HsmError.PartitionIdKeyGenerationPctFailed => DdiStatus.PartitionIdKeyGenerationPctFailed
  | HsmError.InvalidIpcGetKeyBulkRequest => DdiStatus.InternalError
  end.

(** [host_status_code!]. *)
Definition HostStatusCodeType_GENERIC : Z := 0.
Definition host_status_code (type code : Z) : Z := Z.lor (Z.shiftl type 8) code.

Module HostStatusCode.
Definition Success : Z := host_status_code HostStatusCodeType_GENERIC 0x0.
Definition InvalidCommandOpCode : Z := host_status_code HostStatusCodeType_GENERIC 0x1.
Definition InvalidFieldInCommand : Z := host_status_code HostStatusCodeType_GENERIC 0x2.
Definition InternalError : Z := host_status_code HostStatusCodeType_GENERIC 0x7.
Definition InvalidPsdtFieldInCommand : Z := host_status_code HostStatusCodeType_GENERIC 0xC0.
Definition InvalidSrcLenFieldInCommand : Z := host_status_code HostStatusCodeType_GENERIC 0xC1.
Definition InvalidDstLenFieldInCommand : Z := host_status_code HostStatusCodeType_GENERIC 0xC2.
Definition InvalidSrcPrpFieldInCommand : Z := host_status_code HostStatusCodeType_GENERIC 0xC3.
Definition InvalidDstPrpFieldInCommand : Z := host_status_code HostStatusCodeType_GENERIC 0xC4.
Definition DmaCompletionEmpty : Z := host_status_code HostStatusCodeType_GENERIC 0xC5.
Definition DmaTxnError : Z := host_status_code HostStatusCodeType_GENERIC 0xC6.
Definition DmaTagMismatch : Z := host_status_code HostStatusCodeType_GENERIC 0xC7.
Definition ReqHdrDecodeErr : Z := host_status_code HostStatusCodeType_GENERIC 0xC8.
Definition DmaStartError : Z := host_status_code HostStatusCodeType_GENERIC 0xC9.

(** [impl From<u16> for HostStatusCode], guards in order. *)
Definition from_u16 (value : Z) : Z :=
  if (value =? InvalidCommandOpCode)%Z then InvalidCommandOpCode else
  if (value =? InvalidFieldInCommand)%Z then InvalidFieldInCommand else
  if (value =? InvalidPsdtFieldInCommand)%Z then InvalidPsdtFieldInCommand else
  if (value =? InvalidSrcLenFieldInCommand)%Z then InvalidSrcLenFieldInCommand else
  if (value =? InvalidDstLenFieldInCommand)%Z then InvalidDstLenFieldInCommand else
  if (value =? InvalidSrcPrpFieldInCommand)%Z then InvalidSrcPrpFieldInCommand else
  if (value =? InvalidDstPrpFieldInCommand)%Z then InvalidDstPrpFieldInCommand else
  if (value =? DmaCompletionEmpty)%Z then DmaCompletionEmpty else
  if (value =? DmaTxnError)%Z then DmaTxnError else
  if (value =? DmaTagMismatch)%Z then DmaTagMismatch else
  if (value =? ReqHdrDecodeErr)%Z then ReqHdrDecodeErr else
  if (value =? DmaStartError)%Z then DmaStartError else
  if (value =? Success)%Z then Success else
  InternalError.

(** [impl From<HsmErr> for HostStatusCode]. *)
Definition from_HsmErr (e : HsmErr) : Z :=
  match e with
  | HsmError.SqeUnknownOp => InvalidCommandOpCode
  | HsmError.SqeInvalidSrcLen => InvalidSrcLenFieldInCommand
  | HsmError.SqeInvalidDstLen => InvalidDstLenFieldInCommand
  | HsmError.SqeInvalidPsdt => InvalidPsdtFieldInCommand
  | HsmError.DmaEndErr => DmaTxnError
  | HsmError.DmaStartError => DmaStartError
  | HsmError.DmaCompletionEmpty => DmaCompletionEmpty
  | HsmError.DmaTagMismatch => DmaTagMismatch
  | HsmError.ReqHdrDecodeErr => ReqHdrDecodeErr
  | HsmError.SqeInvalidSrcPrpAlgin => InvalidSrcPrpFieldInCommand
  | HsmError.SqeInvalidDstPrpAlgin => InvalidDstPrpFieldInCommand
  | _ => InternalError
  end.

End HostStatusCode.
