(* ===== verification/DdiProps.v ===== *)
(** * DDI messages: theorems

    The round trip and the robustness of every message of the interface, the
    key properties of requests. *)

From stdpp Require Import base list numbers option.
From S2P Require Import Prelude.
From S2P Require Import HsmError.
From S2P Require Import Mbor.
From S2P Require Import DdiCodec.
From S2P Require Import DdiCodecProps.
From S2P Require Import VaultKeys.
From S2P Require Import DdiTypes.
From S2P Require Import HostStatus.

(** Every message of the interface is such a description. *)
Lemma messages_wf :
  forallb (λ fs, Ddi.wf_type (TyStruct fs)) (Msg.requests ++ Msg.responses) = true.
Proof. vm_compute. reflexivity. Qed.

(** C27: a derived codec is exact, for every structure with consecutive field
    numbers below 256, fewer than 32 fields and sizes below 65536 ([wf_type]), as
    every request and response of the interface is: into a buffer with room
    for the length [mbor_len] announces, encoding writes exactly that many
    bytes and decoding them returns the value and consumes them all; into a
    shorter buffer it fails with [BufferOverflow]. *)
Theorem ddi_roundtrip t (v : denote t) buf :
  Ddi.wf_type t = true → Ddi.valid t v →
  if decide (Ddi.len t v 0 ≤ length buf) then
    ∃ buf', Ddi.encode t v (Enc.new buf) = (Ok tt, mkEncoder buf' (Ddi.len t v 0)) ∧
      length buf' = length buf ∧
      drop (Ddi.len t v 0) buf' = drop (Ddi.len t v 0) buf ∧
      Ddi.decode t (Dec.new buf') = (Ok v, mkDecoder buf' (Ddi.len t v 0))
  else ∃ e, Ddi.encode t v (Enc.new buf) = (Err BufferOverflow, e).
Proof.
  intros Hw Hv. rewrite (proj1 len_image_all t v 0), Nat.add_0_l.
  pose proof (proj1 encode_image_all t Hw v Hv (Enc.new buf)) as He.
  cbn [Enc.new e_pos e_buffer] in He. specialize (He ltac:(lia)). rewrite Nat.add_0_l in He.
  case_decide as Hfit; [|exact He].
  eexists. split; [exact He|]. split; [by apply length_splice_fit|]. split.
  - unfold splice. rewrite take_0, Nat.add_0_l, app_nil_l. by rewrite drop_app_length.
  - pose proof (proj1 decode_image_all t Hw v Hv
      (mkDecoder (splice buf 0 (Ddi.image t v 0)) 0)) as Hd.
    cbn [d_pos d_buffer] in Hd. apply Hd; [by apply at_pos_splice|lia].
Qed.

(** C28: no request can make the derived decoders misbehave: whatever the bytes,
    decoding a structure whose enumerations are open returns a value in range
    or an error, without panicking and without leaving the message. *)
Theorem ddi_decode_robust t buf :
  Ddi.all_open t = true → Forall (uint_range 8) buf →
  ∃ r d, Ddi.decode t (Dec.new buf) = (r, d) ∧ r ≠ Panic ∧
    d_buffer d = buf ∧ d_pos d ≤ length buf ∧ ∀ v, r = Ok v → Ddi.valid t v.
Proof.
  intros Ho Hb. destruct (proj1 (decode_robust_all buf Hb) t Ho (Dec.new buf) eq_refl)
    as (r & d & H); [cbn; lia|]. exists r, d. naive_solver.
Qed.

(** The one closed enumeration of the requests is the padding of RsaUnwrap:
    a number that is no variant is undefined behaviour. *)
Lemma closed_enum_undefined ids v :
  uint_range 32 v → v ∉ ids → ∀ d, at_pos d (Mbor.image (mkU32 v)) →
  ∃ d', Ddi.decode (TyClosed ids) d = (Panic, d').
Proof.
  intros Hv Hi d Hd. cbn [Ddi.decode]. unfold Ddi.decode_closed, Ddi.decode_u32, mbind, M_bind.
  pose proof (decode_image (MborCodec:=u32_codec) (mkU32 v) Hv d Hd) as E. rewrite E. unfold mret, M_ret.
  rewrite bool_decide_false by done. by eexists.
Qed.

Lemma requests_open :
  filter (λ fs, Ddi.all_open (TyStruct fs) = false) Msg.requests = [Msg.cmd_req Msg.DdiRsaUnwrapReq].
Proof. vm_compute. reflexivity. Qed.

(** Key properties survive the conversion to flags and back, and the flags
    a request may carry are exactly those of one usage: encrypting and
    decrypting, signing and verifying, unwrapping, or deriving. *)
Theorem key_properties_roundtrip (p : KeyProps.DdiKeyProperties) :
  match KeyProps.key_usage p, KeyProps.key_availability p with
  | DKU_other _, _ => KeyProps.to_target p = None
  | _, DKA_other _ => ∃ t, KeyProps.to_target p = Some t ∧
      KeyProps.from_target t = Some (KeyProps.mkProps (KeyProps.key_usage p) DKA_App (KeyProps.key_label p))
  | _, _ => KeyProps.to_target p ≫= KeyProps.from_target = Some p
  end.
Proof. destruct p as [[] [] l]; eexists || idtac; try reflexivity. all: split; reflexivity. Qed.

(** ** Witnesses *)

(** A response to [OpenSession] with a masked key of five bytes. *)
Definition sample_resp : denote (TyStruct (Msg.cmd_resp Msg.DdiOpenSessionResp)) :=
  ((Some (1, (0, tt)), (DdiOp.OpenSession, (Some 3, (DdiStatus.Success, (true, tt))))),
   ((3, (7, ([1; 2; 3; 4; 5], tt))), tt))%Z.

Lemma ddi_roundtrip_witness :
  ∃ buf', Ddi.encode _ sample_resp (Enc.new (replicate 70 0%Z)) = (Ok tt, mkEncoder buf' 65) ∧
    Ddi.decode (TyStruct (Msg.cmd_resp Msg.DdiOpenSessionResp)) (Dec.new buf')
      = (Ok sample_resp, mkDecoder buf' 65).
Proof.
  assert (Ddi.len _ sample_resp 0 = 65) as El by (vm_compute; reflexivity).
  pose proof (ddi_roundtrip (TyStruct (Msg.cmd_resp Msg.DdiOpenSessionResp)) sample_resp
    (replicate 70 0%Z)) as H.
  rewrite El in H. change (length (replicate 70 0%Z)) with 70 in H.
  rewrite decide_True in H by lia. destruct H as (buf' & H1 & _ & _ & H2).
  - vm_compute. reflexivity.
  - vm_compute. repeat split; lia || discriminate.
  - exists buf'. split; [exact H1|exact H2].
Defined.

Lemma ddi_decode_robust_witness :
  ∃ r d, Ddi.decode (TyStruct Msg.DdiReqHdr) (Dec.new [0xA3; 0x18; 1; 0xA2; 0x18]%Z) = (r, d) ∧ r ≠ Panic.
Proof.
  destruct (ddi_decode_robust (TyStruct Msg.DdiReqHdr) [0xA3; 0x18; 1; 0xA2; 0x18]%Z)
    as (r & d & H1 & H2 & _).
  - reflexivity.
  - repeat constructor; discriminate.
  - exists r, d. split; [exact H1|exact H2].
Defined.
