(* ===== verification/HsmSqe.v ===== *)
(** * Queue entries (hsm/src/fsm/mod.rs)

    The 64-byte submission entry a host posts, the 16-byte completion entry
    the firmware answers with, and the session-control kinds of operations. *)

From stdpp Require Import base list numbers option.
From S2P Require Import Prelude.
From S2P Require Import HsmError.
From S2P Require Import Wire.
From S2P Require Import Mbor.
From S2P Require Import DdiTypes.
From S2P Require Import HostStatus.

(** ** Bit fields: [n] bits at offset [off] of a [w]-bit word *)

Definition bits_get (off n v : Z) : Z := Z.land (Z.shiftr v off) (Z.ones n).
Definition bits_set (w off n v x : Z) : Z :=
  Z.lor (Z.land v (unot w (Z.shiftl (Z.ones n) off))) (Z.shiftl (Z.land x (Z.ones n)) off).

(** [HsmSqeCmdOpcode]: an open enumeration of 10 bits. *)
Module Opcode.
Definition Generic : Z := 0.
Definition Flush : Z := 1.
Definition Unknown : Z := 0x3FF.
Definition from_u32 (value : Z) : Z :=
  if (value =? Generic)%Z then Generic else if (value =? Flush)%Z then Flush else Unknown.
End Opcode.

(** [HsmSqeCmd]: op, set, psdt, id. *)
Module Cmd.
Definition op (cmd : Z) : Z := Opcode.from_u32 (bits_get 0 10 cmd).
Definition psdt (cmd : Z) : Z := bits_get 14 2 cmd.
Definition id (cmd : Z) : Z := bits_get 16 16 cmd.
End Cmd.

Inductive HsmSessionControlKind : Set := NoSession | Open | Close | InSession.
#[global] Instance HsmSessionControlKind_eq_dec : EqDecision HsmSessionControlKind.
Proof. solve_decision. Defined.

Module Ctrl.
Definition to_u8 (k : HsmSessionControlKind) : Z :=
  match k with NoSession => 0 | Open => 1 | Close => 2 | InSession => 3 end.
Definition from_u8 (v : Z) : HsmSessionControlKind :=
  if (v =? 0)%Z then NoSession else if (v =? 1)%Z then Open
  else if (v =? 2)%Z then Close else InSession.

(** [HsmSessionControlKind::from(DdiOp)]. *)
Definition from_op (op : Z) : HsmSessionControlKind :=
  if bool_decide (op ∈ [DdiOp.GetApiRev; DdiOp.GetDeviceInfo; DdiOp.GetEstablishCredEncryptionKey;
       DdiOp.EstablishCredential; DdiOp.GetSessionEncryptionKey; DdiOp.InitBk3; DdiOp.GetSealedBk3;
       DdiOp.SetSealedBk3; DdiOp.GetCertChainInfo; DdiOp.GetCertificate]) then NoSession
  else if bool_decide (op = DdiOp.OpenSession) then Open
  else if bool_decide (op ∈ [DdiOp.CloseSession; DdiOp.ResetFunction]) then Close
  else InSession.
End Ctrl.

(** [HsmSessionFlags], a byte: ctrl, id_valid, app_vault_id_is_valid,
    session_closed. *)
Module Flags.
Definition ctrl (f : Z) : HsmSessionControlKind := Ctrl.from_u8 (bits_get 0 2 f).
Definition id_valid (f : Z) : bool := Z.testbit f 2.
Definition app_vault_id_is_valid (f : Z) : bool := Z.testbit f 3.
Definition session_closed (f : Z) : bool := Z.testbit f 4.
Definition set_ctrl (k : HsmSessionControlKind) (f : Z) : Z := bits_set 8 0 2 f (Ctrl.to_u8 k).
Definition set_id_valid (b : bool) (f : Z) : Z := bits_set 8 2 1 f (Z.b2z b).
Definition set_app_vault_id_is_valid (b : bool) (f : Z) : Z := bits_set 8 3 1 f (Z.b2z b).
Definition set_session_closed (b : bool) (f : Z) : Z := bits_set 8 4 1 f (Z.b2z b).
End Flags.

(** [PsfField::default().with_status(status)]: the status is above the phase. *)
Definition psf_with_status (status : Z) : Z := bits_set 16 1 11 0 status.
Definition psf_status (psf : Z) : Z := HostStatusCode.from_u16 (bits_get 1 11 psf).

(** ** Layouts *)

Record MemoryAddr : Set := mkAddr { addr_lo : Z; addr_hi : Z }.
Definition MemoryAddr_wire : wire MemoryAddr :=
  record (wpair u32 u32) (λ '(lo, hi), mkAddr lo hi) (λ a, (addr_lo a, addr_hi a)).

Record HsmSqeDmaDesc : Set := mkDmaDesc { desc_len : Z; prp1 : MemoryAddr; prp2 : MemoryAddr }.
Definition HsmSqeDmaDesc_wire : wire HsmSqeDmaDesc :=
  record (wpair u32 (wpair MemoryAddr_wire MemoryAddr_wire))
    (λ '(l, (p, q)), mkDmaDesc l p q) (λ d, (desc_len d, (prp1 d, prp2 d))).

Record HsmSqe : Set := mkSqe {
  sqe_cmd : Z; (* HsmSqeCmd, u32 *)
  sqe_src : HsmSqeDmaDesc;
  sqe_dst : HsmSqeDmaDesc;
  sqe_session_flags : Z; (* HsmSessionFlags, u8 *)
  sqe_rsvd1 : list Z;
  sqe_session_id : Z; (* u16 *)
  sqe_rsvd2 : list Z
}.
Definition HsmSqe_wire : wire HsmSqe :=
  record (wpair u32 (wpair HsmSqeDmaDesc_wire (wpair HsmSqeDmaDesc_wire (wpair u8
            (wpair (array 3 u8) (wpair u16 (array 14 u8)))))))
    (λ '(c, (s, (d, (f, (r1, (i, r2)))))), mkSqe c s d f r1 i r2)
    (λ e, (sqe_cmd e, (sqe_src e, (sqe_dst e, (sqe_session_flags e, (sqe_rsvd1 e,
            (sqe_session_id e, sqe_rsvd2 e))))))).

Definition default_desc : HsmSqeDmaDesc := mkDmaDesc 0 (mkAddr 0 0) (mkAddr 0 0).
Definition default_sqe : HsmSqe := mkSqe 0 default_desc default_desc 0 [0; 0; 0]%Z 0 (replicate 14 0%Z).

Record HsmCqe : Set := mkCqe {
  dst_len : Z; (* u16 *)
  cqe_session_flags : Z; (* u8 *)
  cqe_rsvd1 : Z;
  cqe_session_id : Z; (* u16 *)
  cqe_app_vault_id : Z; (* u8 *)
  cqe_rsvd2 : Z;
  sq_head : Z; (* u16 *)
  cqe_sq_id : Z; (* u16 *)
  cmd_id : Z; (* u16 *)
  psf : Z (* PsfField, u16 *)
}.
Definition HsmCqe_wire : wire HsmCqe :=
  record (wpair u16 (wpair u8 (wpair u8 (wpair u16 (wpair u8 (wpair u8 (wpair u16
            (wpair u16 (wpair u16 u16)))))))))
    (λ '(l, (f, (r1, (i, (v, (r2, (h, (q, (c, p))))))))), mkCqe l f r1 i v r2 h q c p)
    (λ e, (dst_len e, (cqe_session_flags e, (cqe_rsvd1 e, (cqe_session_id e, (cqe_app_vault_id e,
            (cqe_rsvd2 e, (sq_head e, (cqe_sq_id e, (cmd_id e, psf e)))))))))).

(** [static_assertions::assert_eq_size!] with [IoRxEntry] and [IoTxEntry]. *)
Lemma entry_sizes : wsize HsmSqe_wire = 64 ∧ wsize HsmCqe_wire = 16.
Proof. done. Qed.

(** [impl From<IoRxEntry> for HsmSqe] and [impl From<HsmCqe> for IoTxEntry]. *)
Definition sqe_from (entry : list Z) : HsmSqe := read_bytes HsmSqe_wire entry.
Definition cqe_into (e : HsmCqe) : list Z := as_bytes HsmCqe_wire e.
