(* ===== verification/HsmFsm.v ===== *)
(** * The request state machine (hsm/src/fsm/hsm_fsm.rs)

    One machine per request of the host: it takes a submission entry, fetches
    the request by DMA, checks its header, runs a command, sends the response
    by DMA and posts a completion entry.  The hardware is an environment of
    answers with a trace of the calls made to it; the partition and the
    commands are the classes [FsmPartition] and [HsmCmd], the traits
    [HsmPartition] and [HsmCmdTrait].  The test hooks are off. *)

From stdpp Require Import base list numbers option.
From S2P Require Import Prelude.
From S2P Require Import HsmError.
From S2P Require Import Wire.
From S2P Require Import Mbor.
From S2P Require Import DdiCodec.
From S2P Require Import DdiTypes.
From S2P Require Import HostStatus.
From S2P Require Import CmdResource.
From S2P Require Import Partition.
From S2P Require Import HsmSqe.

(** ** Events (event.rs) *)

Inductive HsmFsmEvent : Set :=
  | RxReady | TxComplete | DmaComplete | StartCmd | Flr
  | AdminToHsmIpcRequest | FpToHsmIpcResponse | HspToHsmIpcResponse | AdminToHsmIpcResponse
  | PkaDone (idx : nat) | PkaError (idx : nat)
  | ResourceReady (res : HsmFsmResourceId)
  | TimerElapsed | CheckAlive | SoftAesResp | SelfTestRequest
  | ResourceCleanup (res : HsmFsmResourceId) (idx : nat)
  | InitPartition (pfn : Z)
  | FpToHsmIpcRequest | Unknown.
#[global] Instance HsmFsmEvent_eq_dec : EqDecision HsmFsmEvent.
Proof. solve_decision. Defined.

(** ** The hardware (drivers/io, drivers/gdma, heap.rs) *)

Record IoRxDesc : Set := mkRx {
  rx_sq_id : Z; rx_addr : Z; rx_entry : list Z; rx_pfn : Z; rx_status : bool
}.
Record IoTxDesc : Set := mkTx {
  tx_queue_id : Z; rx_queue_id : Z; tx_tag : Z; tx_entry : list Z
}.

Inductive DmaDescFormat : Set := Prp | Sgl.

(** [MemoryLocation] as its byte. *)
Module Loc.
Definition Soc : Z := 0.
Definition PCIE_PF_MEMORY_LOCATION_ID : Z := 0x10.
Definition PCIE_VF_MEMORY_LOCATION_ID_START : Z := 0x20.
Definition loc (pfn : Z) : Z :=
  if (pfn =? 64)%Z then PCIE_PF_MEMORY_LOCATION_ID else PCIE_VF_MEMORY_LOCATION_ID_START + pfn.
End Loc.

Record DmaMemoryDesc : Set := mkMem { fmt : DmaDescFormat; loc : Z; addr : MemoryAddr }.
Record DmaTxnDesc : Set := mkTxn {
  src_fst : DmaMemoryDesc; src_snd : option DmaMemoryDesc;
  dst_fst : DmaMemoryDesc; dst_snd : option DmaMemoryDesc;
  txn_len : Z; txn_tag : Z
}.

(** A DMA allocation: its address and its bytes. *)
Record DmaBuffer : Set := mkBuf { buf_addr : Z; buf_data : list Z }.

(** [MemoryAddr::from(&[u8])]. *)
Definition addr_of (b : DmaBuffer) : MemoryAddr :=
  mkAddr (wrap 32 (buf_addr b)) (wrap 32 (Z.shiftr (buf_addr b) 32)).
Definition buf_len (b : DmaBuffer) : Z := Z.of_nat (length (buf_data b)).

(** The calls made to the hardware, with their outcome. *)
Inductive hal_call : Set :=
  | CallBeginRecv
  | CallEndRecv (addr sq_id : Z)
  | CallBeginSend (desc : IoTxDesc) (ok : bool)
  | CallEndSend
  | CallAlloc (size : nat) (ok : bool)
  | CallBeginTxn (desc : DmaTxnDesc) (ok : bool)
  | CallEndTxn.

(** The answers of the hardware; the [nat] is the number of calls before. *)
Record HalEnv : Type := mkHal {
  hal_recv : nat → option IoRxDesc;
  hal_send : nat → bool;
  hal_end_send : nat → option bool; (* whether the status is Success *)
  hal_alloc : nat → nat → option Z;
  hal_txn : nat → bool;
  hal_end_txn : nat → option (bool * Z);
  hal_arrived : nat → nat → list Z (* what a transfer of a length left in its buffer *)
}.

(** ** Commands *)

(** The structures [init_cmd] chooses from. *)
Inductive CmdKind : Set :=
  | GetApiRevCmd | GetDeviceInfoCmd | OpenKeyCmd | DeleteKeyCmd | AesGenKeyCmd | AesEncDecCmd
  | EccGenKeyCmd | EccSignCmd | EcdhKeyExchangeCmd | HkdfDeriveCmd | KbkdfDeriveCmd | RsaModExpCmd
  | GetUnwrappingKeyCmd | RsaUnwrapCmd | AttestKeyCmd | GetCertChainInfoCmd | GetCertificateCmd
  | GetEstablishCredEncryptionKeyCmd | EstablishCredentialCmd | GetSessionEncryptionKeyCmd
  | OpenSessionCmd (is_reopen : bool) | CloseSessionCmd | ChangePinCmd | HmacCmd | UnmaskKeyCmd
  | InitBk3Cmd | SetSealedBk3Cmd | GetSealedBk3Cmd | UnsupportedCmd
  | FlushSessionCmd (session_id : Z).

(** What the constructor of a command is given: the request, the session or
    the session id where it takes one, the function. *)
Inductive CmdArg : Set := ArgNone | ArgSession (s : UserSession) | ArgSessId (id : Z).
Record CmdInit : Set := mkInit { ci_req : option DmaBuffer; ci_arg : CmdArg; ci_pfn : Z }.

(** [HsmCmdTrait], on a command and what commands share. *)
Class HsmCmd (C P : Type) := {
  new_cmd : CmdKind → CmdInit → C;
  cmd_on_event : HsmFsmEvent → Z → M (C * P) HsmErr ();
  cmd_rollback : Z → M (C * P) HsmErr ();
  cmd_take_response : C → option DmaBuffer * C;
  cmd_session_id : C → option Z;
  cmd_app_vault_id : C → option Z;
  cmd_retry : C → bool;
  cmd_requires_resource : Z → HsmFsmResourceId → C → bool;
  cmd_acquire_resource : Z → HsmFsmResourceId → C → outcome HsmErr HsmFsmEvent * C
}.

(** What the machine needs of the partition of a function; a call that cannot
    fail has the empty type of errors. *)
Record IoQueue : Set := mkIoq { ioq_handle : nat; sq_id : Z; cq_id : Z }.

Class FsmPartition (P : Type) := {
  fp_enabled : Z → P → bool;
  fp_io_queue : Z → Z → M P Empty_set (option IoQueue);
  fp_is_provisioned : Z → P → bool;
  fp_needs_renegotiation : Z → Z → P → bool;
  fp_user_session : Z → Z → bool → P → outcome HsmErr UserSession;
  fp_flush_session : Z → Z → M P Empty_set ();
  (* [retire_io] after the entry is released, and the drop of the queue *)
  fp_retire : Z → IoQueue → P → P
}.

(** [MIN_API_REV], [MAX_API_REV] of part.rs, and the order of revisions. *)
Definition MIN_API_REV : DdiApiRev := mkApiRev 1 0.
Definition MAX_API_REV : DdiApiRev := mkApiRev 1 0.
Definition rev_lt (a b : DdiApiRev) : bool :=
  if (rev_major a =? rev_major b)%Z then (rev_minor a <? rev_minor b)%Z
  else (rev_major a <? rev_major b)%Z.
Definition rev_eqb (a b : DdiApiRev) : bool :=
  (rev_major a =? rev_major b)%Z && (rev_minor a =? rev_minor b)%Z.

(** [DdiReqHdr] of a decoded message. *)
Record ReqHdr : Set := mkHdr { hdr_rev : option DdiApiRev; hdr_op : Z; hdr_sess_id : option Z }.
Definition rev_of (r : denote (TyStruct Msg.DdiApiRev)) : DdiApiRev :=
  let '(major, (minor, _)) := r in mkApiRev major minor.
Definition rev_to (r : DdiApiRev) : denote (TyStruct Msg.DdiApiRev) :=
  (rev_major r, (rev_minor r, tt)).
Definition hdr_of (h : denote (TyStruct Msg.DdiReqHdr)) : ReqHdr :=
  let '(rev, (op, (sess_id, _))) := h in mkHdr (rev_of <$> rev) op sess_id.

(** [DdiErrCmdResp] with the header of [err_resp]. *)
Definition err_cmd_resp (rev : option DdiApiRev) (op : Z) (sess_id : option Z) (status : Z) :
    denote (TyStruct (Msg.cmd_resp Msg.DdiErrResp)) :=
  ((rev_to <$> rev, (op, (sess_id, (status, (false, tt))))), (tt, tt)).

(** ** The machine *)

Inductive HsmFsmState : Set := Init | DmaIn | Cmd | DmaOut | DmaOutErr | Completion.
#[global] Instance HsmFsmState_eq_dec : EqDecision HsmFsmState.
Proof. solve_decision. Defined.

Record HsmFsm (C : Type) : Type := mkFsm {
  state : HsmFsmState;
  ioq : option IoQueue;
  pfn : option Z;
  sqe : HsmSqe;
  sqe_addr : Z;
  dma_buf : option DmaBuffer;
  cmd : option C;
  session_id : option Z;
  session_flags : Z;
  app_vault_id : option Z;
  req_hdr : ReqHdr;
  err : option HsmErr
}.
Arguments mkFsm {C}. Arguments state {C}. Arguments ioq {C}. Arguments pfn {C}.
Arguments sqe {C}. Arguments sqe_addr {C}. Arguments dma_buf {C}. Arguments cmd {C}.
Arguments session_id {C}. Arguments session_flags {C}. Arguments app_vault_id {C}.
Arguments req_hdr {C}. Arguments err {C}.

Record FsmWorld (C P : Type) : Type := mkFsmWorld {
  fsm : HsmFsm C; shared : P; trace : list hal_call
}.
Arguments mkFsmWorld {C P}. Arguments fsm {C P}. Arguments shared {C P}. Arguments trace {C P}.

Module Fsm.
Section fsm.
Context {C P : Type} `{HC : HsmCmd C P, FP : FsmPartition P}.
Variable hal : HalEnv.

Abbreviation FM := (M (FsmWorld C P) HsmErr).

(** *** Assignments to fields *)

Definition set_state x (f : HsmFsm C) : HsmFsm C := mkFsm x (ioq f) (pfn f) (sqe f) (sqe_addr f) (dma_buf f)
  (cmd f) (session_id f) (session_flags f) (app_vault_id f) (req_hdr f) (err f).
Definition set_ioq x (f : HsmFsm C) : HsmFsm C := mkFsm (state f) x (pfn f) (sqe f) (sqe_addr f) (dma_buf f)
  (cmd f) (session_id f) (session_flags f) (app_vault_id f) (req_hdr f) (err f).
Definition set_pfn x (f : HsmFsm C) : HsmFsm C := mkFsm (state f) (ioq f) x (sqe f) (sqe_addr f) (dma_buf f)
  (cmd f) (session_id f) (session_flags f) (app_vault_id f) (req_hdr f) (err f).
Definition set_sqe x a (f : HsmFsm C) : HsmFsm C := mkFsm (state f) (ioq f) (pfn f) x a (dma_buf f)
  (cmd f) (session_id f) (session_flags f) (app_vault_id f) (req_hdr f) (err f).
Definition set_dma_buf x (f : HsmFsm C) : HsmFsm C := mkFsm (state f) (ioq f) (pfn f) (sqe f) (sqe_addr f) x
  (cmd f) (session_id f) (session_flags f) (app_vault_id f) (req_hdr f) (err f).
Definition set_cmd x (f : HsmFsm C) : HsmFsm C := mkFsm (state f) (ioq f) (pfn f) (sqe f) (sqe_addr f)
  (dma_buf f) x (session_id f) (session_flags f) (app_vault_id f) (req_hdr f) (err f).
Definition set_ids b s v (f : HsmFsm C) : HsmFsm C := mkFsm (state f) (ioq f) (pfn f) (sqe f) (sqe_addr f)
  b (cmd f) s (session_flags f) v (req_hdr f) (err f).
Definition set_flags x (f : HsmFsm C) : HsmFsm C := mkFsm (state f) (ioq f) (pfn f) (sqe f) (sqe_addr f)
  (dma_buf f) (cmd f) (session_id f) x (app_vault_id f) (req_hdr f) (err f).
Definition set_req_hdr x (f : HsmFsm C) : HsmFsm C := mkFsm (state f) (ioq f) (pfn f) (sqe f) (sqe_addr f)
  (dma_buf f) (cmd f) (session_id f) (session_flags f) (app_vault_id f) x (err f).
Definition set_err x (f : HsmFsm C) : HsmFsm C := mkFsm (state f) (ioq f) (pfn f) (sqe f) (sqe_addr f)
  (dma_buf f) (cmd f) (session_id f) (session_flags f) (app_vault_id f) (req_hdr f) x.

Definition upd (g : HsmFsm C → HsmFsm C) : FM () :=
  modify (λ w, mkFsmWorld (g (fsm w)) (shared w) (trace w)).
Definition self : FM (HsmFsm C) := λ w, (Ok (fsm w), w).

(** A call of the hardware: its answer may depend on the calls before it. *)
Definition call {A} (answer : nat → A) (entry : A → hal_call) : FM A := λ w,
  let a := answer (length (trace w)) in
  (Ok a, mkFsmWorld (fsm w) (shared w) (trace w ++ [entry a])).

Definition on_shared {A} (m : M P Empty_set A) : FM A := λ w,
  let '(r, p) := m (shared w) in
  (match r with Ok a => Ok a | Err e => match e with end | Panic => Panic end,
   mkFsmWorld (fsm w) p (trace w)).
Definition peek {A} (f : P → A) : FM A := λ w, (Ok (f (shared w)), w).

(** [r.or_else(|err| h(err))]. *)
Definition or_else {A} (m : FM A) (h : HsmErr → FM A) : FM A := λ w,
  match m w with (Err e, w) => h e w | r => r end.

(** The result of a call as a value; a panic stays one. *)
Definition try {A} (m : FM A) : FM (outcome HsmErr A) := λ w,
  match m w with (Panic, w) => (Panic, w) | (r, w) => (Ok r, w) end.

(** A call of the command: [self.cmd.as_mut().ok_or(ExpectedCmdFsm)?]. *)
Definition on_cmd {A} (m : M (C * P) HsmErr A) : FM A := λ w,
  match cmd (fsm w) with
  | None => (Err ExpectedCmdFsm, w)
  | Some c =>
      let '(r, (c, p)) := m (c, shared w) in
      (r, mkFsmWorld (set_cmd (Some c) (fsm w)) p (trace w))
  end.

Definition new : HsmFsm C :=
  mkFsm Init None None default_sqe 0 None None None 0 None (mkHdr None DdiOp.Invalid None) None.

(** *** Completions *)

(** [send_err_cqe], [send_cqe] and [send_flush_cqe] post one entry. *)
Definition post (cqe : IoQueue → HsmCqe) (tag : Z) : FM () :=
  f ← self;
  match ioq f with
  | None => throw ExpectedIoQueue
  | Some q =>
      let desc := mkTx (wrap 8 (cq_id q)) (wrap 8 (sq_id q)) tag (cqe_into (cqe q)) in
      ok ← call (hal_send hal) (CallBeginSend desc);
      _ ← unless ok IoChannelSendError;
      upd (set_state Completion)
  end.

Definition completion_flags (f : HsmFsm C) : Z :=
  Flags.set_app_vault_id_is_valid (bool_decide (is_Some (app_vault_id f)))
    (Flags.set_id_valid (bool_decide (is_Some (session_id f))) (session_flags f)).

Definition cqe_of (f : HsmFsm C) (len status : Z) (q : IoQueue) : HsmCqe :=
  mkCqe len (completion_flags f) 0 (default 0%Z (session_id f)) (default 0%Z (app_vault_id f)) 0 0
    (sq_id q) (Cmd.id (sqe_cmd (sqe f))) (psf_with_status status).

Definition send_err_cqe {A} (e : HsmErr) (tag : Z) : FM A :=
  f ← self;
  _ ← post (cqe_of f 0 (HostStatusCode.from_HsmErr e)) tag;
  throw HsmError.Pending.

Definition send_cqe (tag : Z) : FM () :=
  f ← self;
  match ioq f with
  | None => throw ExpectedIoQueue
  | Some _ =>
      let len := match dma_buf f with Some b => wrap 16 (buf_len b) | None => 0%Z end in
      _ ← upd (set_dma_buf None);
      _ ← post (cqe_of f len HostStatusCode.Success) tag;
      throw HsmError.Pending
  end.

Definition send_flush_cqe (sess_id flags tag : Z) : FM () :=
  f ← self;
  post (λ q, mkCqe 0 flags 0 sess_id 0 0 0 (sq_id q) (Cmd.id (sqe_cmd (sqe f)))
               (psf_with_status HostStatusCode.Success)) tag.

(** *** DMA *)

Definition make_in_dma_desc (f : HsmFsm C) (tag : Z) : outcome HsmErr DmaTxnDesc :=
  pfn ← ok_or (pfn f) ExpectedPcieFn;
  buf ← ok_or (dma_buf f) ExpectedDmaBuf;
  Ok (mkTxn (mkMem Prp (Loc.loc pfn) (prp1 (sqe_src (sqe f)))) None
            (mkMem Sgl Loc.Soc (addr_of buf)) (Some (mkMem Sgl Loc.Soc (mkAddr (wrap 32 (buf_len buf)) 0)))
            (wrap 32 (buf_len buf)) tag).

Definition make_out_dma_desc (f : HsmFsm C) (tag : Z) : outcome HsmErr DmaTxnDesc :=
  pfn ← ok_or (pfn f) ExpectedPcieFn;
  buf ← ok_or (dma_buf f) ExpectedDmaBuf;
  Ok (mkTxn (mkMem Sgl Loc.Soc (addr_of buf)) (Some (mkMem Sgl Loc.Soc (mkAddr (wrap 32 (buf_len buf)) 0)))
            (mkMem Prp (Loc.loc pfn) (prp1 (sqe_dst (sqe f)))) None
            (wrap 32 (buf_len buf)) tag).

Definition begin_dma (desc : outcome HsmErr DmaTxnDesc) (next : HsmFsmState) : FM () :=
  d ← lift desc;
  ok ← call (hal_txn hal) (CallBeginTxn d);
  _ ← unless ok DmaStartError;
  upd (set_state next).

Definition begin_in_dma (tag : Z) : FM () := f ← self; begin_dma (make_in_dma_desc f tag) DmaIn.
Definition begin_out_dma (tag : Z) : FM () := f ← self; begin_dma (make_out_dma_desc f tag) DmaOut.

Definition end_dma (tag : Z) : FM () :=
  r ← call (hal_end_txn hal) (λ _, CallEndTxn);
  match r with
  | None => throw DmaCompletionEmpty
  | Some (success, t) =>
      _ ← unless success DmaEndErr;
      unless (t =? tag)%Z DmaTagMismatch
  end.

(** [allocate_from_pool(size)]; the buffer is zero. *)
Definition allocate_from_pool (size : nat) : FM (option DmaBuffer) :=
  a ← call (λ n, hal_alloc hal n size) (λ a, CallAlloc size (bool_decide (is_Some a)));
  mret ((λ p, mkBuf p (replicate size 0%Z)) <$> a).

(** [encode_buf] of an error response. *)
Definition encode_buf (t : ddi_type) (v : denote t) : FM DmaBuffer :=
  o ← allocate_from_pool (Ddi.len t v 0);
  match o with
  | None => throw DmaAllocFailure
  | Some b =>
      match Ddi.encode t v (Enc.new (buf_data b)) with
      | (Ok _, e) => mret (mkBuf (buf_addr b) (e_buffer e))
      | (Err _, _) => throw DdiEncodeFailed
      | (Panic, _) => lift Panic
      end
  end.

Definition err_resp (f : HsmFsm C) (sess_id : option Z) (status op : Z) : FM DmaBuffer :=
  encode_buf (TyStruct (Msg.cmd_resp Msg.DdiErrResp)) (err_cmd_resp (hdr_rev (req_hdr f)) op sess_id status).

(** *** Validation *)

Definition PAGE_SIZE : Z := 4 * 1024.

Definition validate_sqe_with_generic_opcode (s : HsmSqe) : outcome HsmErr () :=
  if ((desc_len (sqe_src s) <? 1) || (PAGE_SIZE <? desc_len (sqe_src s)))%Z then Err SqeInvalidSrcLen
  else if ((desc_len (sqe_dst s) <? 1) || (2 * PAGE_SIZE <? desc_len (sqe_dst s)))%Z
  then Err SqeInvalidDstLen
  else if negb (Z.lor (Z.land (addr_lo (prp1 (sqe_src s))) (PAGE_SIZE - 1))
                      (Z.land (addr_lo (prp2 (sqe_src s))) (PAGE_SIZE - 1)) =? 0)%Z
  then Err SqeInvalidSrcPrpAlgin
  else if negb (Z.lor (Z.land (addr_lo (prp1 (sqe_dst s))) (PAGE_SIZE - 1))
                      (Z.land (addr_lo (prp2 (sqe_dst s))) (PAGE_SIZE - 1)) =? 0)%Z
  then Err SqeInvalidDstPrpAlgin
  else Ok tt.

Definition validate_sqe_with_flush_opcode (s : HsmSqe) : outcome HsmErr () :=
  if negb (bool_decide (Flags.ctrl (sqe_session_flags s) = Close)) then Err InvalidSessionControlOpcode
  else if negb (Flags.id_valid (sqe_session_flags s)) then Err SessionExpected
  else Ok tt.

Definition validate_sqe (s : HsmSqe) : outcome HsmErr () :=
  if negb (HsmSqe.Cmd.psdt (sqe_cmd s) =? 0)%Z then Err SqeInvalidPsdt
  else if (HsmSqe.Cmd.op (sqe_cmd s) =? Opcode.Generic)%Z then validate_sqe_with_generic_opcode s
  else if (HsmSqe.Cmd.op (sqe_cmd s) =? Opcode.Flush)%Z then validate_sqe_with_flush_opcode s
  else Err SqeUnknownOp.

Definition validate_session_hijack_protection (s : HsmSqe) (h : ReqHdr) : outcome HsmErr () :=
  let ctrl := Flags.ctrl (sqe_session_flags s) in
  let id_valid := Flags.id_valid (sqe_session_flags s) in
  if negb (bool_decide (ctrl = Ctrl.from_op (hdr_op h))) then Err InvalidArgument
  else
    _ ← match ctrl, id_valid with
        | NoSession, true => Err InvalidArgument
        | Open, true => Err SessionNotExpected
        | Close, false => Err InvalidArgument
        | InSession, false => Err InvalidArgument
        | _, _ => Ok tt
        end;
    if id_valid then
      match hdr_sess_id h with
      | Some id => if negb (sqe_session_id s =? id)%Z then Err InvalidArgument else Ok tt
      | None => Err InvalidArgument
      end
    else match hdr_sess_id h with Some _ => Err InvalidArgument | None => Ok tt end.

Definition req_session_id (h : ReqHdr) : outcome HsmErr Z := ok_or (hdr_sess_id h) SessionExpected.

Definition user_session (pfn : Z) (h : ReqHdr) (p : P) : outcome HsmErr UserSession :=
  id ← req_session_id h; fp_user_session pfn id false p.

Definition validate_req_hdr (f : HsmFsm C) (pfn : Z) (p : P) : outcome HsmErr () :=
  let h := req_hdr f in
  if negb (fp_enabled pfn p) then Err FunctionNotEnabled
  else
    _ ← validate_session_hijack_protection (sqe f) h;
    match DdiSessionKind_from (hdr_op h) with
    | SessionUser =>
        id ← req_session_id h;
        if fp_needs_renegotiation pfn id p &&
           (bool_decide (hdr_op h = DdiOp.ReopenSession) || bool_decide (hdr_op h = DdiOp.CloseSession))
        then Ok tt
        else
          s ← fp_user_session pfn id true p;
          rev ← ok_or (hdr_rev h) UnsupportedRevision;
          if negb (rev_eqb rev (us_api_rev s)) then Err UnsupportedRevision else Ok tt
    | SessionNone =>
        if negb (bool_decide (hdr_op h = DdiOp.GetApiRev)) then
          rev ← ok_or (hdr_rev h) UnsupportedRevision;
          if rev_lt rev MIN_API_REV || rev_lt MAX_API_REV rev then Err UnsupportedRevision else Ok tt
        else match hdr_rev h with Some _ => Err UnsupportedRevision | None => Ok tt end
    end.

(** *** Starting the command *)

(** [on_err]: the error response becomes the buffer to send. *)
Definition on_err (sess_id : option Z) (status op : Z) : FM () :=
  f ← self;
  r ← try (err_resp f sess_id status op);
  match r with
  | Ok b => _ ← upd (set_dma_buf (Some b)); throw CmdError
  | _ => throw CmdError
  end.

Inductive arg_kind : Set := NeedsNone | NeedsSession | NeedsSessId.

(** The command of each operation and what its constructor takes. *)
Definition cmd_table : list (Z * (CmdKind * arg_kind)) := [
  (DdiOp.GetApiRev, (GetApiRevCmd, NeedsNone));
  (DdiOp.GetDeviceInfo, (GetDeviceInfoCmd, NeedsNone));
  (DdiOp.OpenKey, (OpenKeyCmd, NeedsSession));
  (DdiOp.DeleteKey, (DeleteKeyCmd, NeedsSession));
  (DdiOp.AesGenerateKey, (AesGenKeyCmd, NeedsSession));
  (DdiOp.AesEncryptDecrypt, (AesEncDecCmd, NeedsSession));
  (DdiOp.EccGenerateKeyPair, (EccGenKeyCmd, NeedsSession));
  (DdiOp.EccSign, (EccSignCmd, NeedsSession));
  (DdiOp.EcdhKeyExchange, (EcdhKeyExchangeCmd, NeedsSession));
  (DdiOp.HkdfDerive, (HkdfDeriveCmd, NeedsSession));
  (DdiOp.KbkdfCounterHmacDerive, (KbkdfDeriveCmd, NeedsSession));
  (DdiOp.RsaModExp, (RsaModExpCmd, NeedsSession));
  (DdiOp.GetUnwrappingKey, (GetUnwrappingKeyCmd, NeedsSession));
  (DdiOp.RsaUnwrap, (RsaUnwrapCmd, NeedsSession));
  (DdiOp.AttestKey, (AttestKeyCmd, NeedsSessId));
  (DdiOp.GetCertChainInfo, (GetCertChainInfoCmd, NeedsNone));
  (DdiOp.GetCertificate, (GetCertificateCmd, NeedsNone));
  (DdiOp.GetEstablishCredEncryptionKey, (GetEstablishCredEncryptionKeyCmd, NeedsNone));
  (DdiOp.EstablishCredential, (EstablishCredentialCmd, NeedsNone));
  (DdiOp.GetSessionEncryptionKey, (GetSessionEncryptionKeyCmd, NeedsNone));
  (DdiOp.OpenSession, (OpenSessionCmd false, NeedsNone));
  (DdiOp.ReopenSession, (OpenSessionCmd true, NeedsNone));
  (DdiOp.CloseSession, (CloseSessionCmd, NeedsNone));
  (DdiOp.ChangePin, (ChangePinCmd, NeedsSession));
  (DdiOp.Hmac, (HmacCmd, NeedsSession));
  (DdiOp.UnmaskKey, (UnmaskKeyCmd, NeedsSession));
  (DdiOp.InitBk3, (InitBk3Cmd, NeedsNone));
  (DdiOp.SetSealedBk3, (SetSealedBk3Cmd, NeedsNone));
  (DdiOp.GetSealedBk3, (GetSealedBk3Cmd, NeedsNone))].

Definition cmd_of_op (op : Z) : CmdKind * arg_kind :=
  match List.find (λ e, (e.1 =? op)%Z) cmd_table with
  | Some (_, k) => k
  | None => (UnsupportedCmd, NeedsNone)
  end.

Definition cmd_arg (k : arg_kind) (pfn : Z) (h : ReqHdr) (p : P) : outcome HsmErr CmdArg :=
  match k with
  | NeedsNone => Ok ArgNone
  | NeedsSession => s ← user_session pfn h p; Ok (ArgSession s)
  | NeedsSessId => id ← req_session_id h; Ok (ArgSessId id)
  end.

(** Decoding the header of the request. *)
Definition read_hdr (buf : DmaBuffer) : FM () :=
  match decode_hdr (Ddi.decode (TyStruct Msg.DdiReqHdr)) (Dec.new (buf_data buf)) with
  | (Ok h, _) => upd (set_req_hdr (hdr_of h))
  | (Err _, _) => on_err None DdiStatus.DdiDecodeFailed DdiOp.Invalid
  | (Panic, _) => lift Panic
  end.

Definition init_cmd (tag : Z) : FM () :=
  f ← self;
  buf ← lift (ok_or (dma_buf f) ExpectedDmaBuf);
  _ ← upd (set_dma_buf None);
  _ ← read_hdr buf;
  f ← self;
  pfn ← lift (ok_or (pfn f) ExpectedPcieFn);
  let op := hdr_op (req_hdr f) in
  _ ← upd (λ f, set_flags (Flags.set_ctrl (Ctrl.from_op op) (session_flags f)) f);
  f ← self;
  v ← peek (validate_req_hdr f pfn);
  _ ← or_else (lift v) (λ e, on_err (hdr_sess_id (req_hdr f)) (DdiStatus_from e) op);
  provisioned ← peek (fp_is_provisioned pfn);
  _ ← (if bool_decide (Flags.ctrl (session_flags f) = InSession) && negb provisioned
       then on_err None DdiStatus.PartitionNotProvisioned op else mret tt);
  let '(kind, args) := cmd_of_op op in
  a ← peek (cmd_arg args pfn (req_hdr f));
  arg ← lift a;
  _ ← upd (set_cmd (Some (new_cmd kind (mkInit (Some buf) arg pfn))));
  upd (set_state Cmd).

(** *** Running the command *)

Definition issue_command_rollback (tag : Z) : FM () := on_cmd (cmd_rollback tag).

Definition cmd_err_resp (tag : Z) (e : HsmErr) : FM (option DmaBuffer * option Z) :=
  f ← self;
  r ← try (err_resp f (hdr_sess_id (req_hdr f)) (DdiStatus_from e) (hdr_op (req_hdr f)));
  match r with
  | Ok b => mret (Some b, hdr_sess_id (req_hdr f))
  | Err e => send_err_cqe e tag
  | Panic => lift Panic
  end.

(** The three fields after the command answered [r]. *)
Definition collect (r : outcome HsmErr ()) (tag : Z) :
    FM (option DmaBuffer * option Z * option Z) :=
  f ← self;
  match r with
  | Panic => lift Panic
  | Err e =>
      if HsmErr_pending e then mret (None, None, None)
      else match err f with
           | Some first => '(b, s) ← cmd_err_resp tag first; mret (b, s, None)
           | None =>
               _ ← upd (set_err (Some e));
               rb ← try (issue_command_rollback tag);
               match rb with
               | Err HsmError.Pending => mret (None, None, None)
               | _ => '(b, s) ← cmd_err_resp tag e; mret (b, s, None)
               end
           end
  | Ok _ =>
      match err f with
      | Some first => '(b, s) ← cmd_err_resp tag first; mret (b, s, None)
      | None => on_cmd (λ '(c, p),
          let '(b, c) := cmd_take_response c in
          (Ok (b, cmd_session_id c, cmd_app_vault_id c), (c, p)))
      end
  end.

(** A failed transfer of the response: the command is rolled back unless an
    error was met before, and an error completion is posted. *)
Definition fail_out_dma (e : HsmErr) (tag : Z) : FM () :=
  f ← self;
  match err f with
  | Some _ => send_err_cqe e tag
  | None =>
      _ ← upd (λ f, set_state DmaOutErr (set_err (Some e) f));
      rb ← try (issue_command_rollback tag);
      match rb with
      | Err HsmError.Pending => throw HsmError.Pending
      | _ => send_err_cqe e tag
      end
  end.

Definition close_flag : FM () :=
  closed ← on_cmd (λ '(c, p), (Ok (negb (cmd_retry c)), (c, p)));
  upd (λ f, set_flags (Flags.set_session_closed closed (session_flags f)) f).

Definition respond (tag : Z) : FM () :=
  f ← self;
  match dma_buf f with
  | None => mret tt
  | Some _ =>
      _ ← (if bool_decide (Flags.ctrl (session_flags f) = Close) then close_flag else mret tt);
      r ← try (begin_out_dma tag);
      match r with
      | Ok _ => throw HsmError.Pending
      | Err e => fail_out_dma e tag
      | Panic => lift Panic
      end
  end.

Definition process_cmd_event (event : HsmFsmEvent) (tag : Z) : FM () :=
  r ← (λ w, match cmd (fsm w) with
            | None => (Err ExpectedCmdFsm, w)
            | Some _ => try (on_cmd (cmd_on_event event tag)) w
            end);
  f ← self;
  _ ← (if (HsmSqe.Cmd.op (sqe_cmd (sqe f)) =? Opcode.Flush)%Z && bool_decide (event = FpToHsmIpcResponse)
       then
         _ ← close_flag;
         f ← self;
         send_flush_cqe (sqe_session_id (sqe f)) (session_flags f) tag
       else
         '(b, s, v) ← collect r tag;
         _ ← upd (set_ids b s v);
         respond tag);
  throw HsmError.Pending.

Definition flush_session (tag : Z) : FM () :=
  f ← self;
  pfn ← lift (ok_or (pfn f) ExpectedPcieFn);
  let id := sqe_session_id (sqe f) in
  s ← peek (fp_user_session pfn id true);
  match s with
  | Panic => lift Panic
  | Ok _ =>
      _ ← upd (λ f, set_flags (Flags.set_ctrl Close (Flags.set_id_valid true (session_flags f))) f);
      _ ← upd (set_cmd (Some (new_cmd (FlushSessionCmd id) (mkInit None ArgNone pfn))));
      _ ← upd (set_state Cmd);
      process_cmd_event StartCmd tag
  | Err _ =>
      _ ← on_shared (fp_flush_session pfn id);
      f ← self;
      _ ← send_flush_cqe id (session_flags f) tag;
      throw HsmError.Pending
  end.

(** *** The handlers *)

Definition process_rx_entry (tag : Z) : FM () :=
  f ← self;
  _ ← or_else (lift (validate_sqe (sqe f))) (λ e, send_err_cqe e tag);
  _ ← (if (HsmSqe.Cmd.op (sqe_cmd (sqe f)) =? Opcode.Flush)%Z then flush_session tag else mret tt);
  o ← allocate_from_pool (Z.to_nat (desc_len (sqe_src (sqe f))));
  match o with
  | None => send_err_cqe DmaAllocFailure tag
  | Some b =>
      _ ← upd (set_dma_buf (Some b));
      _ ← or_else (begin_in_dma tag) (λ e, send_err_cqe e tag);
      throw HsmError.Pending
  end.

(** [ioq]: the queue of the entry, if its function and queue are enabled. *)
Definition find_ioq (desc : IoRxDesc) : FM IoQueue :=
  on ← peek (fp_enabled (rx_pfn desc));
  _ ← unless on PartitionNotEnabled;
  q ← on_shared (fp_io_queue (rx_pfn desc) (rx_sq_id desc));
  lift (ok_or q QueueNotEnabled).

Definition begin_recv_sqe : FM IoRxDesc :=
  o ← call (hal_recv hal) (λ _, CallBeginRecv);
  desc ← lift (ok_or o IoChannelRecvNone);
  _ ← unless (rx_status desc) IoChannelRecvErr;
  mret desc.

Definition on_rx_ready (tag : Z) : FM () :=
  desc ← begin_recv_sqe;
  _ ← upd (set_pfn (Some (rx_pfn desc)));
  q ← or_else (find_ioq desc) (λ e,
        _ ← call (λ _, tt) (λ _, CallEndRecv (rx_addr desc) (rx_sq_id desc)); throw e);
  _ ← upd (set_ioq (Some q));
  _ ← upd (set_sqe (sqe_from (rx_entry desc)) (rx_addr desc));
  process_rx_entry tag.

(** The transfer has filled the buffer. *)
Definition arrive : FM () := λ w,
  match dma_buf (fsm w) with
  | Some b =>
      let data := hal_arrived hal (length (trace w)) (length (buf_data b)) in
      (Ok tt, mkFsmWorld (set_dma_buf (Some (mkBuf (buf_addr b) data)) (fsm w)) (shared w) (trace w))
  | None => (Ok tt, w)
  end.

Definition on_in_dma_complete (tag : Z) : FM () :=
  _ ← or_else (_ ← end_dma tag; arrive) (λ e, send_err_cqe e tag);
  _ ← or_else (init_cmd tag) (λ e,
        match e with
        | CmdError =>
            r ← try (begin_out_dma tag);
            match r with
            | Ok _ => throw HsmError.Pending
            | Err e => send_err_cqe e tag
            | Panic => lift Panic
            end
        | _ => send_err_cqe e tag
        end);
  process_cmd_event StartCmd tag.

Definition on_out_dma_complete (tag : Z) : FM () :=
  r ← try (end_dma tag);
  match r with
  | Ok _ => send_cqe tag
  | Err e => fail_out_dma e tag
  | Panic => lift Panic
  end.

Definition on_dma_out_err (event : HsmFsmEvent) (tag : Z) : FM () :=
  r ← (λ w, match cmd (fsm w) with
            | None => (Err ExpectedCmdFsm, w)
            | Some _ => try (on_cmd (cmd_on_event event tag)) w
            end);
  match r with
  | Err HsmError.Pending => throw HsmError.Pending
  | _ => f ← self; send_err_cqe (default DmaStartError (err f)) tag
  end.

Definition on_tx_complete : FM () :=
  r ← call (hal_end_send hal) (λ _, CallEndSend);
  match r with
  | Some success => unless success IoChannelSendCompleteError
  | None => throw IoChannelSendCompleteNone
  end.

Definition on_event (event : HsmFsmEvent) (tag : Z) : FM () :=
  f ← self;
  match state f, event with
  | Init, RxReady => on_rx_ready tag
  | DmaIn, DmaComplete => on_in_dma_complete tag
  | Cmd, _ => process_cmd_event event tag
  | _, CheckAlive => throw IoTimeOut
  | DmaOut, DmaComplete => on_out_dma_complete tag
  | DmaOutErr, _ => on_dma_out_err event tag
  | Completion, TxComplete => on_tx_complete
  | _, _ => throw HsmError.Pending
  end.

Definition acquire_resource (tag : Z) (id : HsmFsmResourceId) : FM HsmFsmEvent := λ w,
  match cmd (fsm w) with
  | None => (Panic, w)
  | Some c =>
      if negb (cmd_requires_resource tag id c) then (Panic, w)
      else let '(r, c) := cmd_acquire_resource tag id c in
           (r, mkFsmWorld (set_cmd (Some c) (fsm w)) (shared w) (trace w))
  end.

(** [Drop]: [retire_io], whose result is ignored. *)
Definition drop (w : FsmWorld C P) : FsmWorld C P :=
  match ioq (fsm w) with
  | None => w
  | Some q =>
      let w := mkFsmWorld (fsm w) (shared w) (trace w ++ [CallEndRecv (sqe_addr (fsm w)) (sq_id q)]) in
      match pfn (fsm w) with
      | Some p => mkFsmWorld (fsm w) (fp_retire p q (shared w)) (trace w)
      | None => w
      end
  end.

End fsm.
End Fsm.
