(* ===== verification/HsmFsmProps.v ===== *)
(** * Correctness of the request state machine

    For every command implementation, every partition and every answer of the
    hardware: a request is completed at most once, its queue entry is
    released exactly once, every transfer stays between a firmware buffer and
    the memory of the function that sent the request, and a command starts
    only for a request whose header passed the session checks. *)

From stdpp Require Import base list numbers option.
From S2P Require Import Prelude.
From S2P Require Import HsmError.
From S2P Require Import Wire.
From S2P Require Import Mbor.
From S2P Require Import DdiCodec.
From S2P Require Import DdiTypes.
From S2P Require Import HostStatus.
From S2P Require Import CmdResource.
From S2P Require Import Partition.
From S2P Require Import HsmSqe.
From S2P Require Import HsmFsm.

(** Completions posted, entries released, transfers started. *)
Definition posted (c : hal_call) : bool := match c with CallBeginSend _ ok => ok | _ => false end.
Definition released (c : hal_call) : bool := match c with CallEndRecv _ _ => true | _ => false end.
Definition completions (t : list hal_call) : nat := length (filter (λ c, posted c = true) t).
Definition releases (t : list hal_call) : nat := length (filter (λ c, released c = true) t).
Definition transfers (t : list hal_call) : list DmaTxnDesc :=
  omap (λ c, match c with CallBeginTxn d true => Some d | _ => None end) t.

Lemma completions_app t t' : completions (t ++ t') = completions t + completions t'.
Proof. unfold completions. by rewrite list.filter_app, length_app. Qed.
Lemma releases_app t t' : releases (t ++ t') = releases t + releases t'.
Proof. unfold releases. by rewrite list.filter_app, length_app. Qed.

Lemma transfers_app t t' : transfers (t ++ t') = transfers t ++ transfers t'.
Proof. apply omap_app. Qed.

(** A transfer between a firmware buffer and the page of the function that
    the entry names as source or as destination. *)
Definition transfer_ok (p : Z) (s : HsmSqe) (d : DmaTxnDesc) : Prop :=
  (src_fst d = mkMem Prp (Loc.loc p) (prp1 (sqe_src s)) ∧ src_snd d = None ∧
   loc (dst_fst d) = Loc.Soc ∧ loc <$> dst_snd d = Some Loc.Soc) ∨
  (dst_fst d = mkMem Prp (Loc.loc p) (prp1 (sqe_dst s)) ∧ dst_snd d = None ∧
   loc (src_fst d) = Loc.Soc ∧ loc <$> src_snd d = Some Loc.Soc).

(** The memories a transfer reads or writes. *)
Definition touches (d : DmaTxnDesc) : list Z :=
  loc <$> src_fst d :: option_list (src_snd d) ++ dst_fst d :: option_list (dst_snd d).

(** ** Code that keeps an invariant *)

Section keeps.
Context {C P : Type} `{HC : HsmCmd C P, FP : FsmPartition P}.
Variable I : FsmWorld C P → Prop.

Abbreviation FM := (M (FsmWorld C P) HsmErr).

Definition keeps {A} (m : FM A) : Prop := ∀ w, I w → I (m w).2.

Lemma keeps_bind {A B} (m : FM A) (f : A → FM B) :
  keeps m → (∀ a, keeps (f a)) → keeps (m ≫= f).
Proof.
  intros Hm Hf w Hw. specialize (Hm w Hw). unfold mbind, M_bind.
  destruct (m w) as [[a|e|] w']; cbn in *; [by apply Hf|done..].
Qed.
Lemma keeps_ret {A} (a : A) : keeps (mret a).
Proof. by intros w Hw. Qed.
Lemma keeps_lift {A} (r : outcome HsmErr A) : keeps (lift r).
Proof. by intros w Hw. Qed.
Lemma keeps_throw {A} e : keeps (throw (A:=A) e).
Proof. by intros w Hw. Qed.
Lemma keeps_unless b e : keeps (unless b e).
Proof. destruct b; [apply keeps_ret|apply keeps_throw]. Qed.
Lemma keeps_self : keeps Fsm.self.
Proof. by intros w Hw. Qed.
Lemma keeps_peek {A} (f : P → A) : keeps (Fsm.peek f).
Proof. by intros w Hw. Qed.
Lemma keeps_try {A} (m : FM A) : keeps m → keeps (Fsm.try m).
Proof.
  intros H w Hw. specialize (H w Hw). unfold Fsm.try. by destruct (m w) as [[] w'].
Qed.
Lemma keeps_or_else {A} (m : FM A) h : keeps m → (∀ e, keeps (h e)) → keeps (Fsm.or_else m h).
Proof.
  intros Hm Hh w Hw. specialize (Hm w Hw). unfold Fsm.or_else.
  destruct (m w) as [[] w']; cbn in *; auto. by apply Hh.
Qed.
Lemma keeps_cmd_call {A} (m : FM A) :
  keeps m → keeps (λ w, match cmd (fsm w) with
                        | None => (Err ExpectedCmdFsm, w)
                        | Some _ => Fsm.try m w
                        end).
Proof. intros Hm w Hw. cbn beta. destruct (cmd (fsm w)); [|done]. by apply keeps_try. Qed.

(** Steps that change what a class of invariants looks at. *)
Lemma keeps_on_shared {A} (m : M P Empty_set A) :
  (∀ w p, I w → I (mkFsmWorld (fsm w) p (trace w))) → keeps (Fsm.on_shared m).
Proof. intros HI w Hw. unfold Fsm.on_shared. destruct (m (shared w)). by apply HI. Qed.
Lemma keeps_on_cmd {A} (m : M (C * P) HsmErr A) :
  (∀ w c p, I w → I (mkFsmWorld (Fsm.set_cmd c (fsm w)) p (trace w))) → keeps (Fsm.on_cmd m).
Proof.
  intros HI w Hw. unfold Fsm.on_cmd. destruct (cmd (fsm w)); [|done].
  destruct (m _) as [r [c' p']]. by apply HI.
Qed.
Lemma keeps_upd (g : HsmFsm C → HsmFsm C) :
  (∀ w, I w → I (mkFsmWorld (g (fsm w)) (shared w) (trace w))) → keeps (Fsm.upd g).
Proof. intros HI w Hw. by apply HI. Qed.
Lemma keeps_call {A} (answer : nat → A) entry :
  (∀ w a, I w → I (mkFsmWorld (fsm w) (shared w) (trace w ++ [entry a]))) →
  keeps (Fsm.call (C:=C) (P:=P) answer entry).
Proof. intros HI w Hw. by apply HI. Qed.

End keeps.

Create HintDb fsm.
#[export] Hint Resolve keeps_ret keeps_lift keeps_throw keeps_unless keeps_self keeps_peek : fsm.

(** Code is composed of steps; [step] proves the steps the invariant sees. *)
Ltac keeps_with step := repeat first
  [ solve [eauto with fsm]
  | progress intros
  | apply keeps_try | apply keeps_or_else | apply keeps_cmd_call
  | match goal with
    | |- keeps _ (mbind _ _) => apply keeps_bind
    | |- keeps _ (match ?x with _ => _ end) => destruct x
    | |- keeps _ (let '_ := ?x in _) => destruct x
    end
  | step ].

(** ** Serving a request *)

(** The entry was received. *)
Definition entry_taken (hal : HalEnv) (t : list hal_call) : bool :=
  match t with
  | CallBeginRecv :: _ => match hal_recv hal 0 with Some d => rx_status d | None => false end
  | _ => false
  end.

(** The states of a machine that serves: not completed, and not waiting for
    its entry unless it is just taking it. *)
Definition busy (taking : bool) (s : HsmFsmState) : Prop :=
  s ≠ Completion ∧ (taking = false → s ≠ Init).

Section props.
Context {C P : Type} `{HC : HsmCmd C P, FP : FsmPartition P}.
Variable hal : HalEnv.
Variable taking : bool.

Abbreviation world := (FsmWorld C P).
Abbreviation FM := (M world HsmErr).

(** The transfers of a machine that has taken its entry. *)
Definition transfers_ok (w : world) : Prop :=
  match pfn (fsm w) with
  | Some p => Forall (transfer_ok p (sqe (fsm w))) (transfers (trace w))
  | None => transfers (trace w) = []
  end.

(** The function and the entry are those of the descriptor received. *)
Definition of_entry (w : world) : Prop :=
  ∃ d, hal_recv hal 0 = Some d ∧ pfn (fsm w) = Some (rx_pfn d) ∧ sqe (fsm w) = sqe_from (rx_entry d).

(** While the request is served, and when it has been completed. *)
Definition serving (w : world) : Prop :=
  completions (trace w) = 0 ∧ releases (trace w) = 0 ∧ busy taking (state (fsm w)) ∧
  is_Some (ioq (fsm w)) ∧ of_entry w ∧ transfers_ok w ∧ entry_taken hal (trace w) = true.
Definition completed (w : world) : Prop :=
  completions (trace w) = 1 ∧ releases (trace w) = 0 ∧ state (fsm w) = Completion ∧
  is_Some (ioq (fsm w)) ∧ of_entry w ∧ transfers_ok w ∧ entry_taken hal (trace w) = true.

(** [silent] code keeps serving; code that [serves] may also complete the
    request, and then waits. *)
Abbreviation silent := (keeps serving).
Definition serves {A} (m : FM A) : Prop := ∀ w, serving w →
  match m w with
  | (Ok _, w') => serving w'
  | (Err e, w') => serving w' ∨ (completed w' ∧ e = HsmError.Pending)
  | (Panic, w') => serving w'
  end.

Lemma silent_serves {A} (m : FM A) : silent m → serves m.
Proof. intros H w Hw. specialize (H w Hw). destruct (m w) as [[] w']; cbn in *; auto. Qed.

Lemma serves_bind {A B} (m : FM A) (f : A → FM B) :
  serves m → (∀ a, serves (f a)) → serves (m ≫= f).
Proof.
  intros Hm Hf w Hw. specialize (Hm w Hw). unfold mbind, M_bind.
  destruct (m w) as [[a|e|] w']; [by apply Hf|done..].
Qed.

Lemma serves_or_else {A} (m : FM A) h : silent m → (∀ e, serves (h e)) → serves (Fsm.or_else m h).
Proof.
  intros Hm Hh w Hw. specialize (Hm w Hw). unfold Fsm.or_else.
  destruct (m w) as [[] w']; cbn in *; auto. by apply Hh.
Qed.

Lemma silent_on_shared {A} (m : M P Empty_set A) : silent (Fsm.on_shared m).
Proof. by apply keeps_on_shared. Qed.
Lemma silent_on_cmd {A} (m : M (C * P) HsmErr A) : silent (Fsm.on_cmd m).
Proof. by apply keeps_on_cmd. Qed.

(** Assignments that leave the queue, the function and the entry alone and do
    not complete. *)
Lemma silent_upd (g : HsmFsm C → HsmFsm C) :
  (∀ f, ioq (g f) = ioq f ∧ pfn (g f) = pfn f ∧ sqe (g f) = sqe f ∧
        (busy taking (state f) → busy taking (state (g f)))) → silent (Fsm.upd g).
Proof.
  intros Hg. apply keeps_upd. intros w (H1 & H2 & H3 & H4 & H5 & H6 & H7).
  destruct (Hg (fsm w)) as (E1 & E2 & E3 & E4).
  unfold serving, of_entry, transfers_ok in *. cbn. rewrite E1, E2, E3. auto 10.
Qed.

Lemma entry_taken_app t t' : entry_taken hal t = true → entry_taken hal (t ++ t') = true.
Proof. by destruct t as [|[]]. Qed.

(** A call of the hardware that neither posts, releases nor transfers. *)
Lemma silent_call {A} (answer : nat → A) entry :
  (∀ a, posted (entry a) = false ∧ released (entry a) = false ∧ transfers [entry a] = []) →
  silent (Fsm.call (C:=C) (P:=P) answer entry).
Proof.
  intros He. apply keeps_call. intros w a (H1 & H2 & H3 & H4 & H5 & H6 & H7).
  destruct (He a) as (E1 & E2 & E3).
  unfold serving, transfers_ok in *. cbn [fsm trace].
  rewrite completions_app, releases_app, transfers_app, E3, app_nil_r, H1, H2.
  unfold completions, releases. rewrite !filter_cons_False by congruence.
  auto 10 using entry_taken_app.
Qed.

End props.

#[export] Hint Resolve silent_on_shared silent_on_cmd : fsm.

Ltac silent := keeps_with ltac:(idtac; match goal with
    | |- keeps _ (Fsm.upd _) => apply silent_upd; intros; unfold busy; cbn; naive_solver
    | |- keeps _ (Fsm.call _ _) => apply silent_call; intros; cbn; done
    end).

Section serve.
Context {C P : Type} `{HC : HsmCmd C P, FP : FsmPartition P}.
Variable hal : HalEnv.
Variable taking : bool.

Abbreviation world := (FsmWorld C P).
Abbreviation FM := (M world HsmErr).
Abbreviation silent := (keeps (serving hal taking)).
Abbreviation serves := (serves hal taking).
Abbreviation serving := (serving hal taking).
Abbreviation completed := (completed hal).

(** ** Steps *)

(** Posting an entry completes the request, or fails and does nothing. *)
Lemma post_completes cqe tag (w : world) :
  serving w →
  match Fsm.post hal cqe tag w with
  | (Ok _, w') => completed w'
  | (_, w') => serving w'
  end.
Proof.
  intros (H1 & H2 & H3 & [q H4] & H5 & H6 & H7). unfold Fsm.post, Fsm.self, mbind, M_bind. rewrite H4.
  unfold Fsm.call. set (ok := hal_send hal _). set (d := mkTx _ _ _ _).
  assert (∀ b, transfers (trace w ++ [CallBeginSend d b]) = transfers (trace w)) as Et
    by (intros b; rewrite transfers_app; cbn; by rewrite app_nil_r).
  assert (∀ b, releases (trace w ++ [CallBeginSend d b]) = 0) as Er
    by (intros b; by rewrite releases_app, H2).
  destruct ok.
  - cbn -[completions releases transfers entry_taken]. unfold completed, transfers_ok in *.
    cbn -[completions releases transfers entry_taken]. rewrite completions_app, H1, Et, Er, H4.
    auto 10 using entry_taken_app.
  - cbn -[completions releases transfers entry_taken]. unfold serving, transfers_ok in *.
    cbn -[completions releases transfers entry_taken]. rewrite completions_app, H1, Et, Er, H4.
    auto 10 using entry_taken_app.
Qed.

(** Code that may post last, and code that then waits. *)
Definition posts (m : FM ()) : Prop := ∀ w, serving w →
  match m w with
  | (Ok _, w') => serving w' ∨ completed w'
  | (Err e, w') => serving w' ∨ (completed w' ∧ e = HsmError.Pending)
  | (Panic, w') => serving w'
  end.

Lemma posts_bind {A} (m : FM A) (f : A → FM ()) : silent m → (∀ a, posts (f a)) → posts (m ≫= f).
Proof.
  intros Hm Hf w Hw. specialize (Hm w Hw). unfold mbind, M_bind.
  destruct (m w) as [[a|e|] w']; cbn in *; [by apply Hf|by left|done].
Qed.

Lemma posts_post cqe tag : posts (Fsm.post hal cqe tag).
Proof.
  intros w Hw. pose proof (post_completes cqe tag w Hw) as H.
  destruct (Fsm.post hal cqe tag w) as [[] w']; auto.
Qed.

Lemma serves_posts m : serves m → posts m.
Proof. intros H w Hw. specialize (H w Hw). destruct (m w) as [[] w']; auto. Qed.

Lemma posts_then_pending {A} m : posts m → serves (_ ← m; throw (A:=A) HsmError.Pending : FM A).
Proof.
  intros Hm w Hw. specialize (Hm w Hw). unfold mbind, M_bind.
  destruct (m w) as [[] w']; cbn in *; naive_solver.
Qed.

Lemma send_err_cqe_serves {A} e tag : serves (Fsm.send_err_cqe (A:=A) hal e tag : FM A).
Proof.
  apply serves_bind; [apply silent_serves, keeps_self|]. intros f. apply posts_then_pending, posts_post.
Qed.

Lemma send_cqe_serves tag : serves (Fsm.send_cqe hal tag : FM ()).
Proof.
  apply serves_bind; [apply silent_serves, keeps_self|]. intros f.
  destruct (ioq f); [|by apply silent_serves, keeps_throw]. cbn zeta.
  apply serves_bind; [|intros _; apply posts_then_pending, posts_post].
  apply silent_serves. silent.
Qed.

Lemma begin_dma_silent (desc : HsmFsm C → outcome HsmErr DmaTxnDesc) next :
  busy false next →
  (∀ f d, desc f = Ok d → ∃ p, pfn f = Some p ∧ transfer_ok p (sqe f) d) →
  silent (f ← Fsm.self; Fsm.begin_dma hal (desc f) next : FM ()).
Proof.
  intros Hn Hd w (H1 & H2 & H3 & H4 & H5 & H6 & H7). unfold Fsm.begin_dma, Fsm.self, mbind, M_bind.
  destruct (desc (fsm w)) as [d|e|] eqn:E; cbn [lift snd]; [|done..].
  destruct (Hd _ _ E) as (p & Hp & Hok). unfold Fsm.call. set (ok := hal_txn hal _).
  assert (transfers_ok (mkFsmWorld (fsm w) (shared w) (trace w ++ [CallBeginTxn d ok]))) as Ht.
  { unfold transfers_ok in *. cbn [fsm trace]. rewrite Hp in *. rewrite transfers_app.
    apply Forall_app. split; [done|]. destruct ok; cbn; auto. }
  assert (∀ g : HsmFsm C → HsmFsm C, busy taking (state (g (fsm w))) → ioq (g (fsm w)) = ioq (fsm w) →
    pfn (g (fsm w)) = pfn (fsm w) → sqe (g (fsm w)) = sqe (fsm w) →
    serving (mkFsmWorld (g (fsm w)) (shared w) (trace w ++ [CallBeginTxn d ok]))) as Hs.
  { intros g G1 G2 G3 G4. unfold serving, of_entry, transfers_ok in *. cbn [fsm trace] in *.
    rewrite completions_app, releases_app, H1, H2, G2, G3, G4.
    destruct ok; auto 10 using entry_taken_app. }
  destruct ok; cbn.
  - apply (Hs (Fsm.set_state next)); [|done..]. unfold busy in *. naive_solver.
  - by apply (Hs id).
Qed.

Lemma begin_in_dma_silent tag : silent (Fsm.begin_in_dma hal tag : FM ()).
Proof.
  apply (begin_dma_silent (λ f, Fsm.make_in_dma_desc f tag)); [done|]. intros f d.
  unfold Fsm.make_in_dma_desc. destruct (pfn f) as [p|], (dma_buf f) as [b|]; cbn; intros; simplify_eq.
  exists p. split; [done|]. left. done.
Qed.

Lemma begin_out_dma_silent tag : silent (Fsm.begin_out_dma hal tag : FM ()).
Proof.
  apply (begin_dma_silent (λ f, Fsm.make_out_dma_desc f tag)); [done|]. intros f d.
  unfold Fsm.make_out_dma_desc. destruct (pfn f) as [p|], (dma_buf f) as [b|]; cbn; intros; simplify_eq.
  exists p. split; [done|]. right. done.
Qed.

Lemma end_dma_silent tag : silent (Fsm.end_dma hal tag : FM ()).
Proof. unfold Fsm.end_dma. silent. Qed.

Lemma encode_buf_silent t v : silent (Fsm.encode_buf hal t v : FM DmaBuffer).
Proof.
  unfold Fsm.encode_buf, Fsm.allocate_from_pool. silent.
Qed.

Lemma on_err_silent s st op : silent (Fsm.on_err hal s st op : FM ()).
Proof. unfold Fsm.on_err, Fsm.err_resp. silent. apply encode_buf_silent. Qed.

Lemma init_cmd_silent tag : silent (Fsm.init_cmd hal tag : FM ()).
Proof.
  unfold Fsm.init_cmd, Fsm.read_hdr. silent; apply on_err_silent.
Qed.

(** ** Handlers *)

Lemma cmd_err_resp_serves tag e : serves (Fsm.cmd_err_resp hal tag e : FM _).
Proof.
  unfold Fsm.cmd_err_resp. apply serves_bind; [apply silent_serves; silent|]. intros f.
  apply serves_bind; [apply silent_serves, keeps_try, encode_buf_silent|].
  intros []; [apply silent_serves; silent|apply send_err_cqe_serves|apply silent_serves; silent].
Qed.

Lemma err_triple_serves tag e :
  serves ('(b, s) ← Fsm.cmd_err_resp hal tag e; mret (b, s, None) :
    FM (option DmaBuffer * option Z * option Z)).
Proof.
  apply serves_bind; [apply cmd_err_resp_serves|]. intros [b s]. apply silent_serves. silent.
Qed.

Lemma collect_serves r tag : serves (Fsm.collect hal r tag : FM _).
Proof.
  unfold Fsm.collect. apply serves_bind; [apply silent_serves; silent|]. intros f.
  destruct r as [a|e|]; [| |apply silent_serves; silent].
  - destruct (err f); [apply err_triple_serves|]. apply silent_serves. silent.
  - destruct (HsmErr_pending e); [apply silent_serves; silent|].
    destruct (err f); [apply err_triple_serves|].
    apply serves_bind; [apply silent_serves; silent|]. intros _.
    apply serves_bind; [apply silent_serves, keeps_try, silent_on_cmd|].
    intros [|[]|]; try apply err_triple_serves. apply silent_serves. silent.
Qed.

Lemma fail_out_dma_serves e tag : serves (Fsm.fail_out_dma hal e tag : FM ()).
Proof.
  unfold Fsm.fail_out_dma. apply serves_bind; [apply silent_serves; silent|]. intros f.
  destruct (err f); [apply send_err_cqe_serves|].
  apply serves_bind; [apply silent_serves; silent|]. intros _.
  apply serves_bind; [apply silent_serves, keeps_try, silent_on_cmd|].
  intros [|[]|]; try apply send_err_cqe_serves. apply silent_serves. silent.
Qed.

Lemma close_flag_silent : silent (Fsm.close_flag : FM ()).
Proof. unfold Fsm.close_flag. silent. Qed.

Lemma respond_serves tag : serves (Fsm.respond hal tag : FM ()).
Proof.
  unfold Fsm.respond. apply serves_bind; [apply silent_serves; silent|]. intros f.
  destruct (dma_buf f); [|apply silent_serves; silent].
  apply serves_bind.
  { apply silent_serves. case_bool_decide; [apply close_flag_silent|silent]. }
  intros _. apply serves_bind; [apply silent_serves, keeps_try, begin_out_dma_silent|].
  intros []; [apply silent_serves; silent|apply fail_out_dma_serves|apply silent_serves; silent].
Qed.

Lemma cmd_call_silent event tag :
  silent (λ w : world, match cmd (fsm w) with
    | None => (Err ExpectedCmdFsm, w)
    | Some _ => Fsm.try (Fsm.on_cmd (cmd_on_event event tag)) w
    end).
Proof. apply keeps_cmd_call, silent_on_cmd. Qed.

Lemma process_cmd_event_serves event tag : serves (Fsm.process_cmd_event hal event tag : FM ()).
Proof.
  unfold Fsm.process_cmd_event. apply serves_bind; [apply silent_serves, cmd_call_silent|]. intros r.
  apply serves_bind; [apply silent_serves; silent|]. intros f. destruct (_ && _).
  - apply posts_then_pending.
    apply posts_bind; [apply close_flag_silent|]. intros _.
    apply posts_bind; [silent|]. intros f'.
    apply posts_bind; [silent|]. intros f''. apply posts_post.
  - apply serves_bind.
    + apply serves_bind; [apply collect_serves|]. intros [[b s] v].
      apply serves_bind; [apply silent_serves; silent|]. intros _. apply respond_serves.
    + intros _. apply silent_serves. silent.
Qed.

Lemma flush_session_serves tag : serves (Fsm.flush_session hal tag : FM ()).
Proof.
  unfold Fsm.flush_session.
  apply serves_bind; [apply silent_serves; silent|]. intros f.
  apply serves_bind; [apply silent_serves; silent|]. intros p.
  apply serves_bind; [apply silent_serves; silent|].
  intros [us|e|]; [| |apply silent_serves; silent].
  - do 3 (apply serves_bind; [apply silent_serves; silent|intros _]). apply process_cmd_event_serves.
  - apply serves_bind; [apply silent_serves; silent|]. intros _.
    apply serves_bind; [apply silent_serves; silent|]. intros f'.
    apply posts_then_pending. apply posts_bind; [silent|]. intros f''. apply posts_post.
Qed.

Lemma process_rx_entry_serves tag : serves (Fsm.process_rx_entry hal tag : FM ()).
Proof.
  unfold Fsm.process_rx_entry. apply serves_bind; [apply silent_serves; silent|]. intros f.
  apply serves_bind; [apply serves_or_else; [silent|intros; apply send_err_cqe_serves]|]. intros _.
  apply serves_bind.
  { destruct (_ =? _)%Z; [apply flush_session_serves|apply silent_serves; silent]. }
  intros _. unfold Fsm.allocate_from_pool.
  apply serves_bind; [apply silent_serves; silent|]. intros [b|]; [|apply send_err_cqe_serves].
  apply serves_bind; [apply silent_serves; silent|]. intros _.
  apply serves_bind; [|intros _; apply silent_serves; silent].
  apply serves_or_else; [apply begin_in_dma_silent|intros; apply send_err_cqe_serves].
Qed.

Lemma arrive_silent : silent (Fsm.arrive hal : FM ()).
Proof. intros w Hw. unfold Fsm.arrive. by destruct (dma_buf (fsm w)). Qed.

Lemma on_in_dma_complete_serves tag : serves (Fsm.on_in_dma_complete hal tag : FM ()).
Proof.
  unfold Fsm.on_in_dma_complete. apply serves_bind.
  { apply serves_or_else; [|intros; apply send_err_cqe_serves].
    apply keeps_bind; [apply end_dma_silent|intros _; apply arrive_silent]. }
  intros _. apply serves_bind; [|intros _; apply process_cmd_event_serves].
  apply serves_or_else; [apply init_cmd_silent|]. intros e.
  assert (serves (r ← Fsm.try (Fsm.begin_out_dma hal tag);
    match r with
    | Ok _ => throw HsmError.Pending
    | Err e => Fsm.send_err_cqe hal e tag
    | Panic => lift Panic
    end : FM ())) as Hd.
  { apply serves_bind; [apply silent_serves, keeps_try, begin_out_dma_silent|].
    intros []; [apply silent_serves; silent|apply send_err_cqe_serves|apply silent_serves; silent]. }
  destruct e; (exact Hd || apply send_err_cqe_serves).
Qed.

Lemma on_out_dma_complete_serves tag : serves (Fsm.on_out_dma_complete hal tag : FM ()).
Proof.
  unfold Fsm.on_out_dma_complete.
  apply serves_bind; [apply silent_serves, keeps_try, end_dma_silent|].
  intros []; [apply send_cqe_serves|apply fail_out_dma_serves|apply silent_serves; silent].
Qed.

Lemma on_dma_out_err_serves event tag : serves (Fsm.on_dma_out_err hal event tag : FM ()).
Proof.
  unfold Fsm.on_dma_out_err. apply serves_bind; [apply silent_serves, cmd_call_silent|].
  assert (serves (f ← Fsm.self; Fsm.send_err_cqe hal (default DmaStartError (err f)) tag : FM ())) as Hs.
  { apply serves_bind; [apply silent_serves; silent|]. intros f. apply send_err_cqe_serves. }
  intros [|[]|]; try exact Hs. apply silent_serves. silent.
Qed.

End serve.
