(* ===== verification/HsmFsmTheorems.v ===== *)
(** * The life of a request

    Sequences of events delivered to one machine, with the rest of the
    firmware changing what it shares in between. *)

From stdpp Require Import base list numbers option.
From S2P Require Import Prelude.
From S2P Require Import HsmError.
From S2P Require Import Wire.
From S2P Require Import Mbor.
From S2P Require Import DdiCodec.
From S2P Require Import DdiTypes.
From S2P Require Import HostStatus.
From S2P Require Import CmdResource.
From S2P Require Import Partition.
From S2P Require Import HsmSqe.
From S2P Require Import HsmFsm.
From S2P Require Import HsmFsmProps.

Section life.
Context {C P : Type} `{HC : HsmCmd C P, FP : FsmPartition P}.
Variable hal : HalEnv.

Abbreviation world := (FsmWorld C P).

(** Events are delivered while the machine waits; between two events what is
    shared may change in any way. *)
Fixpoint run (tag : Z) (evs : list (HsmFsmEvent * (P → P))) (w : world) : outcome HsmErr () * world :=
  match evs with
  | [] => (Err HsmError.Pending, w)
  | (ev, g) :: evs =>
      match Fsm.on_event hal ev tag (mkFsmWorld (fsm w) (g (shared w)) (trace w)) with
      | (Err HsmError.Pending, w) => run tag evs w
      | r => r
      end
  end.

Definition start (p : P) : world := mkFsmWorld Fsm.new p [].

Definition fresh (w : world) : Prop := fsm w = Fsm.new ∧ trace w = [].

(** The queue or the function of the entry was disabled, or there was no
    entry: the machine ends without having served. *)
Definition refused (w : world) : Prop :=
  ioq (fsm w) = None ∧ completions (trace w) = 0 ∧ transfers (trace w) = [] ∧
  releases (trace w) = if entry_taken hal (trace w) then 1 else 0.

(** What holds of a machine that waits, and of one that has ended. *)
Definition waiting (w : world) : Prop := fresh w ∨ serving hal false w ∨ completed hal w.
Definition ended (r : outcome HsmErr ()) (w : world) : Prop :=
  match r with
  | Ok _ => completed hal w
  | Err _ => fresh w ∨ refused w ∨ serving hal true w ∨ completed hal w
  | Panic => completions (trace w) = 0 ∧ (transfers (trace w) = [] ∨ serving hal true w)
  end.

Definition outcome_ok (r : outcome HsmErr ()) (w : world) : Prop :=
  match r with Err HsmError.Pending => waiting w | _ => ended r w end.

Lemma serving_busy (w : world) : serving hal true w → state (fsm w) ≠ Init → serving hal false w.
Proof. unfold serving, busy. naive_solver. Qed.
Lemma serving_weaken (w : world) : serving hal false w → serving hal true w.
Proof. unfold serving, busy. naive_solver. Qed.

(** Handlers never return [Ok]: the request is completed asynchronously. *)
Definition never_ok {A} (m : M world HsmErr A) : Prop := ∀ w a w', m w ≠ (Ok a, w').

Lemma never_ok_throw {A} e : never_ok (throw (A:=A) e).
Proof. done. Qed.
Lemma never_ok_bind {A B} (m : M world HsmErr A) (f : A → M world HsmErr B) :
  (∀ a, never_ok (f a)) → never_ok (m ≫= f).
Proof. intros Hf w b w' (a & w1 & _ & H)%M_bind_Ok. by apply Hf in H. Qed.
Lemma never_ok_send_err {A} e tag : never_ok (Fsm.send_err_cqe (A:=A) hal e tag).
Proof. do 2 (apply never_ok_bind; intros ?). apply never_ok_throw. Qed.
Lemma never_ok_send tag : never_ok (Fsm.send_cqe hal tag).
Proof.
  apply never_ok_bind. intros f. destruct (ioq f); [|done].
  do 2 (apply never_ok_bind; intros ?). apply never_ok_throw.
Qed.
Lemma never_ok_process event tag : never_ok (Fsm.process_cmd_event hal event tag).
Proof. do 3 (apply never_ok_bind; intros ?). apply never_ok_throw. Qed.
Lemma never_ok_rx tag : never_ok (Fsm.process_rx_entry hal tag).
Proof.
  do 4 (apply never_ok_bind; intros ?). destruct a2; [|apply never_ok_send_err].
  do 2 (apply never_ok_bind; intros ?). apply never_ok_throw.
Qed.
Lemma never_ok_in tag : never_ok (Fsm.on_in_dma_complete hal tag).
Proof. do 2 (apply never_ok_bind; intros ?). apply never_ok_process. Qed.
Lemma never_ok_fail e tag : never_ok (Fsm.fail_out_dma hal e tag).
Proof.
  apply never_ok_bind. intros f. destruct (err f); [apply never_ok_send_err|].
  do 2 (apply never_ok_bind; intros ?). destruct a0 as [|[]|]; apply never_ok_send_err || done.
Qed.
Lemma never_ok_out tag : never_ok (Fsm.on_out_dma_complete hal tag).
Proof.
  apply never_ok_bind. intros [a|e|]; [apply never_ok_send|apply never_ok_fail|done].
Qed.
Lemma never_ok_out_err event tag : never_ok (Fsm.on_dma_out_err hal event tag).
Proof.
  apply never_ok_bind. intros [|[]|]; try done; apply never_ok_bind; intros f; apply never_ok_send_err.
Qed.

(** A handler of a machine that serves. *)
Lemma serves_outcome (m : M world HsmErr ()) (w : world) r w' :
  serves hal false m → never_ok m → serving hal false w → m w = (r, w') → outcome_ok r w'.
Proof.
  intros Hm Hok Hw E. specialize (Hm w Hw). specialize (Hok w tt w'). rewrite E in Hm, Hok.
  destruct r as [[]|e|]; [done| |].
  - assert (serving hal false w' → serving hal true w') by apply serving_weaken.
    unfold outcome_ok, waiting, ended. destruct e; naive_solver.
  - split; [by destruct Hm|]. right. by apply serving_weaken.
Qed.

(** ** Taking the entry *)

Lemma bind_self {A} (k : HsmFsm C → M world HsmErr A) (w : world) :
  (Fsm.self ≫= k) w = k (fsm w) w.
Proof. done. Qed.
Lemma bind_peek {A B} (g : P → A) (k : A → M world HsmErr B) (w : world) :
  (Fsm.peek g ≫= k) w = k (g (shared w)) w.
Proof. done. Qed.
Lemma bind_upd {A} g (k : () → M world HsmErr A) (w : world) :
  (Fsm.upd g ≫= k) w = k tt (mkFsmWorld (g (fsm w)) (shared w) (trace w)).
Proof. done. Qed.
Lemma bind_lift_Ok {A B} (a : A) (k : A → M world HsmErr B) (w : world) :
  (lift (Ok a) ≫= k) w = k a w.
Proof. done. Qed.

Lemma validate_sqe_not_pending s : Fsm.validate_sqe s ≠ Err HsmError.Pending.
Proof.
  unfold Fsm.validate_sqe, Fsm.validate_sqe_with_generic_opcode, Fsm.validate_sqe_with_flush_opcode.
  repeat match goal with |- (if ?b then _ else _) ≠ _ => destruct b; try discriminate end.
Qed.

(** A completion is posted, or refused by the channel. *)
Lemma post_result cqe tag (w : world) r w' :
  serving hal true w → Fsm.post hal cqe tag w = (r, w') →
  (r = Ok tt ∧ completed hal w') ∨ (r = Err IoChannelSendError ∧ serving hal true w').
Proof.
  intros Hw E. pose proof (post_completes hal true cqe tag w Hw) as Hp. rewrite E in Hp.
  destruct Hw as (_ & _ & _ & [q Hq] & _).
  unfold Fsm.post, Fsm.self, Fsm.call, mbind, M_bind in E. rewrite Hq in E.
  destruct (hal_send hal _); injection E as <- <-; auto.
Qed.

(** An error completion. *)
Lemma send_err_outcome {A} e tag (w : world) r w' :
  serving hal true w → Fsm.send_err_cqe (A:=A) hal e tag w = (r, w') →
  (r = Err HsmError.Pending ∧ completed hal w') ∨ (r = Err IoChannelSendError ∧ serving hal true w').
Proof.
  intros Hw E. unfold Fsm.send_err_cqe, Fsm.self, mbind, M_bind in E.
  destruct (Fsm.post hal _ tag w) as [r1 w1] eqn:Ep.
  apply post_result in Ep as [[-> ?]|[-> ?]]; [..|done]; injection E as <- <-; auto.
Qed.

Definition rx_ok (r : outcome HsmErr ()) (w : world) : Prop :=
  match r with
  | Ok _ => False
  | Err HsmError.Pending => serving hal false w ∨ completed hal w
  | _ => serving hal true w
  end.

Lemma send_err_rx e tag (w : world) r w' :
  serving hal true w → Fsm.send_err_cqe hal e tag w = (r, w') → rx_ok r w'.
Proof.
  intros Hw E. destruct (send_err_outcome e tag w r w' Hw E) as [[-> H]|[-> H]]; cbn; auto.
Qed.

Lemma serves_rx (m : M world HsmErr ()) (w : world) r w' :
  serves hal false m → never_ok m → serving hal false w → m w = (r, w') → rx_ok r w'.
Proof.
  intros Hm Hok Hw E. specialize (Hm w Hw). specialize (Hok w tt w'). rewrite E in Hm, Hok.
  destruct r as [[]|e|]; [done| |by apply serving_weaken].
  cbn. destruct e; try (destruct Hm as [H|[? ?]]; [by apply serving_weaken|done]). naive_solver.
Qed.

Lemma upd_serving (g : HsmFsm C → HsmFsm C) (w : world) :
  (∀ f, ioq (g f) = ioq f ∧ pfn (g f) = pfn f ∧ sqe (g f) = sqe f ∧ busy false (state (g f))) →
  serving hal true w → serving hal false (mkFsmWorld (g (fsm w)) (shared w) (trace w)).
Proof.
  intros Hg Hw. apply serving_busy.
  - apply (silent_upd hal true g); [|done]. intros f. destruct (Hg f) as (? & ? & ? & ?).
    unfold busy in *. naive_solver.
  - cbn. destruct (Hg (fsm w)) as (_ & _ & _ & _ & H). by apply H.
Qed.

Lemma flush_session_rx tag (w : world) r w' :
  serving hal true w → Fsm.flush_session hal tag w = (r, w') → rx_ok r w'.
Proof.
  intros Hw E. pose proof Hw as (_ & _ & _ & _ & (d & _ & Hp & _) & _).
  unfold Fsm.flush_session in E. rewrite bind_self, Hp in E. cbn [ok_or] in E.
  rewrite bind_lift_Ok in E. cbn zeta in E. rewrite bind_peek in E.
  destruct (fp_user_session _ _ _ _) as [us|e|].
  - rewrite !bind_upd in E. cbn [fsm shared trace] in E.
    eapply serves_rx in E; [done|apply process_cmd_event_serves|apply never_ok_process|].
    apply (upd_serving (λ f, Fsm.set_state Cmd (Fsm.set_cmd _ (Fsm.set_flags _ f)))); [|done].
    intros f. unfold busy. naive_solver.
  - pose proof (silent_on_shared hal true
      (fp_flush_session (rx_pfn d) (sqe_session_id (sqe (fsm w)))) w Hw) as Hs. unfold mbind at 1, M_bind at 1 in E.
    destruct (Fsm.on_shared _ w) as [[[]|e'|] w1] eqn:Es; cbn [snd] in Hs.
    + unfold Fsm.send_flush_cqe, Fsm.self, mbind, M_bind in E.
      destruct (Fsm.post hal _ tag w1) as [r1 w2] eqn:Ep.
      apply post_result in Ep as [[-> ?]|[-> ?]]; [..|done]; injection E as <- <-; cbn; auto.
    + unfold Fsm.on_shared in Es. destruct (fp_flush_session _ _ _) as [[|[]|]]; by injection Es.
    + by injection E as <- <-.
  - by injection E as <- <-.
Qed.

Lemma begin_dma_state desc next (w w' : world) :
  Fsm.begin_dma hal desc next w = (Ok tt, w') → state (fsm w') = next.
Proof.
  intros (d & w1 & _ & (ok & w2 & _ & ([] & w3 & _ & E)%M_bind_Ok)%M_bind_Ok)%M_bind_Ok. by injection E as <-.
Qed.

Lemma process_rx_entry_rx tag (w : world) r w' :
  serving hal true w → Fsm.process_rx_entry hal tag w = (r, w') → rx_ok r w'.
Proof.
  intros Hw E. unfold Fsm.process_rx_entry in E. rewrite bind_self in E.
  unfold mbind at 1, M_bind at 1, Fsm.or_else at 1, lift at 1 in E.
  destruct (Fsm.validate_sqe _) as [[]|e|]; [| |by injection E as <- <-].
  2: { destruct (Fsm.send_err_cqe hal e tag w) as [r1 w1] eqn:Es.
       pose proof (send_err_outcome e tag w r1 w1 Hw Es) as [[-> H]|[-> H]]; injection E as <- <-; cbn; auto. }
  unfold mbind at 1, M_bind at 1 in E. destruct (_ =? Opcode.Flush)%Z.
  { destruct (Fsm.flush_session hal tag w) as [r1 w1] eqn:Ef. apply flush_session_rx in Ef; [|done].
    destruct r1; [done|by injection E as <- <-..]. }
  cbn [mret M_ret] in E. unfold mbind at 1, M_bind at 1 in E.
  destruct (Fsm.allocate_from_pool hal _ w) as [r1 w1] eqn:Ea.
  assert (serving hal true w1) as Hw1.
  { assert (keeps (serving hal true) (Fsm.allocate_from_pool hal (Z.to_nat (desc_len (sqe_src (sqe (fsm w)))))
      : M world HsmErr _)) as Hk by (unfold Fsm.allocate_from_pool; silent).
    specialize (Hk w Hw). by rewrite Ea in Hk. }
  injection Ea as <- _. destruct (_ <$> _) as [b|]; [|by eapply send_err_rx].
  rewrite bind_upd in E. unfold mbind at 1, M_bind at 1, Fsm.or_else at 1 in E.
  set (w2 := mkFsmWorld _ _ _) in E.
  assert (serving hal true w2) as Hw2 by (unfold w2; by apply (silent_upd hal true (Fsm.set_dma_buf (Some b)))).
  pose proof (begin_in_dma_silent hal true tag w2 Hw2) as Hb.
  destruct (Fsm.begin_in_dma hal tag w2) as [[[]|e|] w3] eqn:Eb; cbn [snd] in Hb.
  - injection E as <- <-. left. apply serving_busy; [done|].
    apply begin_dma_state in Eb. congruence.
  - destruct (Fsm.send_err_cqe hal e tag w3) as [r1 w4] eqn:Es.
    pose proof (send_err_outcome e tag w3 r1 w4 Hb Es) as [[-> H]|[-> H]]; injection E as <- <-; cbn; auto.
  - by injection E as <- <-.
Qed.

Lemma rx_ok_outcome r (w : world) : rx_ok r w → outcome_ok r w.
Proof.
  unfold rx_ok, outcome_ok, waiting, ended. destruct r as [|e|]; [done| |].
  - destruct e; naive_solver.
  - intros H. split; [by destruct H|]. by right.
Qed.

(** A machine whose entry is just taken, with its queue. *)
Lemma taken_serving d q (p : P) :
  hal_recv hal 0 = Some d → rx_status d = true →
  serving hal true (mkFsmWorld (Fsm.set_sqe (sqe_from (rx_entry d)) (rx_addr d)
    (Fsm.set_ioq (Some q) (Fsm.set_pfn (Some (rx_pfn d)) Fsm.new))) p [CallBeginRecv] : world).
Proof.
  intros Hr Hs. unfold serving, of_entry, transfers_ok, busy. cbn. rewrite Hr, Hs.
  split_and!; try done. by exists d.
Qed.

(** Looking up the queue of the entry changes only the partition. *)
Lemma find_ioq_frame d (w w' : world) r :
  Fsm.find_ioq d w = (r, w') → fsm w' = fsm w ∧ trace w' = trace w ∧ r ≠ Err HsmError.Pending.
Proof.
  unfold Fsm.find_ioq. rewrite bind_peek. unfold mbind, M_bind, Fsm.on_shared.
  destruct (fp_enabled _ _); cbn; [|by intros [= <- <-]].
  destruct (fp_io_queue _ _ _) as [[[q|]|[]|] p]; cbn; by intros [= <- <-].
Qed.

Lemma begin_recv_eq (f : HsmFsm C) (p : P) :
  Fsm.begin_recv_sqe hal (mkFsmWorld f p []) =
    (match hal_recv hal 0 with
     | Some d => if rx_status d then Ok d else Err IoChannelRecvErr
     | None => Err IoChannelRecvNone
     end, mkFsmWorld f p [CallBeginRecv]).
Proof.
  unfold Fsm.begin_recv_sqe, Fsm.call, mbind, M_bind. cbn.
  destruct (hal_recv hal 0) as [d|]; cbn; [|done]. by destruct (rx_status d).
Qed.

Lemma on_rx_ready_outcome tag (w : world) r w' :
  fresh w → Fsm.on_rx_ready hal tag w = (r, w') → outcome_ok r w'.
Proof.
  destruct w as [f p t]. intros [Hf0 Ht0] E. cbn in Hf0, Ht0. subst f t.
  unfold Fsm.on_rx_ready in E. unfold mbind at 1, M_bind at 1 in E. rewrite begin_recv_eq in E.
  assert (∀ e (p : P), e ≠ HsmError.Pending → (∀ d, hal_recv hal 0 = Some d → rx_status d = false) →
    outcome_ok (Err e) (mkFsmWorld Fsm.new p [CallBeginRecv] : world)) as Hnone.
  { intros e p' He Hd. cut (ended (Err e) (mkFsmWorld Fsm.new p' [CallBeginRecv] : world)); [by destruct e|].
    right. left. unfold refused. cbn. destruct (hal_recv hal 0) as [d|]; [|done]. by rewrite (Hd d). }
  destruct (hal_recv hal 0) as [d|] eqn:Hr; [|injection E as <- <-; by apply Hnone].
  destruct (rx_status d) eqn:Hs.
  2: { injection E as <- <-. apply Hnone; [done|]. by intros ? [= <-]. }
  rewrite bind_upd in E. cbn [trace fsm shared] in E.
  unfold mbind at 1, M_bind at 1, Fsm.or_else in E.
  destruct (Fsm.find_ioq d _) as [r1 w1] eqn:Ef. apply find_ioq_frame in Ef as (Hf & Ht & Hp).
  destruct w1 as [f1 p1 t1]. cbn in Hf, Ht. subst f1 t1. destruct r1 as [q|e|].
  - rewrite !bind_upd in E. apply rx_ok_outcome. eapply process_rx_entry_rx; [|exact E].
    by apply taken_serving.
  - injection E as <- <-. cut (ended (Err e) (mkFsmWorld (Fsm.set_pfn (Some (rx_pfn d)) Fsm.new) p1
      [CallBeginRecv; CallEndRecv (rx_addr d) (rx_sq_id d)] : world)); [by destruct e|].
    right. left. unfold refused. cbn. by rewrite Hr, Hs.
  - injection E as <- <-. split; [done|by left].
Qed.

Lemma on_tx_complete_outcome (w : world) r w' :
  completed hal w → Fsm.on_tx_complete hal w = (r, w') → outcome_ok r w'.
Proof.
  intros (H1 & H2 & H3 & H4 & H5 & H6 & H7) E.
  unfold Fsm.on_tx_complete, Fsm.call, mbind, M_bind in E.
  set (w1 := mkFsmWorld _ _ _) in E.
  assert (completed hal w1) as Hc.
  { unfold completed, of_entry, transfers_ok, w1 in *. cbn [fsm shared trace].
    rewrite completions_app, releases_app, transfers_app, H1, H2. cbn [transfers omap list_omap].
    rewrite app_nil_r. auto 10 using entry_taken_app. }
  destruct (hal_end_send hal _) as [[]|]; injection E as <- <-; cbn; auto.
Qed.

(** ** Any sequence of events *)

Lemma on_event_outcome event tag (w : world) r w' :
  waiting w → Fsm.on_event hal event tag w = (r, w') → outcome_ok r w'.
Proof.
  intros Hw E. unfold Fsm.on_event in E. rewrite bind_self in E.
  assert (∀ e, e ≠ HsmError.Pending → throw (A:=()) e w = (r, w') → outcome_ok r w') as Hthrow.
  { intros e He [= <- <-]. cut (ended (Err e) w); [by destruct e|].
    destruct Hw as [?|[?%serving_weaken|?]]; cbn; auto. }
  assert (throw (A:=()) HsmError.Pending w = (r, w') → outcome_ok r w') as Hpend
    by (by intros [= <- <-]).
  assert (∀ m : M world HsmErr (), state (fsm w) ≠ Init → state (fsm w) ≠ Completion →
    serves hal false m → never_ok m → m w = (r, w') → outcome_ok r w') as Hserve.
  { intros m H1 H2 Hm Hn. apply serves_outcome; [done..|].
    destruct Hw as [[Hf _]|[?|(_ & _ & ? & _)]]; [|done..]. by rewrite Hf in H1. }
  destruct (state (fsm w)) eqn:Hst.
  - destruct event; try exact (Hpend E); [|by eapply (Hthrow IoTimeOut)].
    destruct Hw as [Hw|[Hw|Hw]]; [by eapply on_rx_ready_outcome| |].
    + destruct Hw as (_ & _ & [_ Hn] & _). by destruct Hn.
    + destruct Hw as (_ & _ & Hn & _). congruence.
  - destruct event; try exact (Hpend E); [|by eapply (Hthrow IoTimeOut)].
    eapply Hserve; [done..|apply on_in_dma_complete_serves|apply never_ok_in|done].
  - eapply Hserve; [done..|apply process_cmd_event_serves|apply never_ok_process|done].
  - destruct event; try exact (Hpend E); [|by eapply (Hthrow IoTimeOut)].
    eapply Hserve; [done..|apply on_out_dma_complete_serves|apply never_ok_out|done].
  - destruct event; try by eapply (Hthrow IoTimeOut).
    all: eapply Hserve; [done..|apply on_dma_out_err_serves|apply never_ok_out_err|exact E].
  - destruct event; try exact (Hpend E); [|by eapply (Hthrow IoTimeOut)].
    destruct Hw as [[Hf _]|[(_ & _ & [Hn _] & _)|Hw]]; [by rewrite Hf in Hst|done|].
    by eapply on_tx_complete_outcome.
Qed.

Lemma run_outcome tag evs : ∀ (w : world) r w', waiting w → run tag evs w = (r, w') → outcome_ok r w'.
Proof.
  induction evs as [|[ev g] evs IH]; intros w r w' Hw E; cbn in E; [by injection E as <- <-|].
  destruct (Fsm.on_event hal ev tag _) as [r1 w1] eqn:Ee.
  apply on_event_outcome in Ee; [|exact Hw].
  destruct r1 as [|e|]; [by injection E as <- <-| |by injection E as <- <-].
  destruct e; try (by injection E as <- <-). by eapply IH.
Qed.

Lemma start_waiting p : waiting (start p).
Proof. left. done. Qed.

Lemma drop_releases (w : world) :
  releases (trace (Fsm.drop w)) = releases (trace w) + match ioq (fsm w) with Some _ => 1 | None => 0 end.
Proof.
  unfold Fsm.drop. destruct (ioq (fsm w)) as [q|]; [|lia].
  cbv zeta. cbn [fsm trace shared]. destruct (pfn (fsm w)); cbn [trace]; by rewrite releases_app.
Qed.

Lemma completed_drop (w : world) :
  completed hal w → releases (trace (Fsm.drop w)) = if entry_taken hal (trace w) then 1 else 0.
Proof. intros (_ & Hr & _ & [q Hq] & _ & _ & Ht). by rewrite drop_releases, Hr, Hq, Ht. Qed.
Lemma serving_drop b (w : world) :
  serving hal b w → releases (trace (Fsm.drop w)) = if entry_taken hal (trace w) then 1 else 0.
Proof. intros (_ & Hr & _ & [q Hq] & _ & _ & Ht). by rewrite drop_releases, Hr, Hq, Ht. Qed.
Lemma fresh_drop (w : world) :
  fresh w → releases (trace (Fsm.drop w)) = if entry_taken hal (trace w) then 1 else 0.
Proof. intros [Hf Ht]. by rewrite drop_releases, Hf, Ht. Qed.
Lemma refused_drop (w : world) :
  refused w → releases (trace (Fsm.drop w)) = if entry_taken hal (trace w) then 1 else 0.
Proof. intros (Hi & _ & _ & Hr). rewrite drop_releases, Hi, Hr. lia. Qed.

(** The four situations, whatever the result. *)
Definition situation (r : outcome HsmErr ()) (w : world) : Prop :=
  match r with
  | Panic => completions (trace w) = 0 ∧ (transfers (trace w) = [] ∨ serving hal true w)
  | Ok _ => completed hal w
  | Err e => fresh w ∨ (refused w ∧ e ≠ HsmError.Pending) ∨ serving hal true w ∨ completed hal w
  end.

Lemma outcome_situation r (w : world) : outcome_ok r w → situation r w.
Proof.
  unfold outcome_ok, situation, waiting, ended. destruct r as [|e|]; [done| |done].
  pose proof (serving_weaken w). destruct e; naive_solver.
Qed.

(** C7: whatever the events, their order, the answers of the hardware and what
    other requests do to the partition in between, a request is completed at
    most once; it ends well only after its completion was posted; while it
    waits its completion has been posted exactly when it is in the last state;
    and when the machine is dropped its queue entry has been released exactly
    once if it was received, and never otherwise. *)
Theorem request_served_once (tag : Z) (evs : list (HsmFsmEvent * (P → P))) (p : P) :
  let '(r, w) := run tag evs (start p) in
  completions (trace w) ≤ 1 ∧
  (r = Ok tt → completions (trace w) = 1) ∧
  (r = Err HsmError.Pending → completions (trace w) = if bool_decide (state (fsm w) = Completion) then 1 else 0) ∧
  (r ≠ Panic → releases (trace (Fsm.drop w)) = if entry_taken hal (trace w) then 1 else 0).
Proof.
  destruct (run tag evs (start p)) as [r w] eqn:E.
  apply run_outcome, outcome_situation in E; [|apply start_waiting].
  destruct r as [[]|e|]; cbn in E.
  - pose proof (completed_drop w E). destruct E as (-> & _). split_and!; [lia|done..].
  - destruct E as [H|[[H He]|[H|H]]].
    + pose proof (fresh_drop w H). destruct H as [Hf Ht].
      split_and!; [rewrite Ht; cbn; lia|done|by rewrite Hf, Ht|done].
    + pose proof (refused_drop w H). destruct H as (_ & -> & _). split_and!; [lia|done| |done].
      intros [= ->]. done.
    + pose proof (serving_drop true w H). destruct H as (-> & _ & [Hn _] & _).
      rewrite bool_decide_false by done. split_and!; [lia|done..].
    + pose proof (completed_drop w H). destruct H as (-> & _ & -> & _). split_and!; [lia|done..].
  - destruct E as [-> _]. split_and!; [lia|done..].
Qed.

(** ** Memory *)

Lemma loc_inj p q : (0 ≤ p ≤ 64)%Z → (0 ≤ q ≤ 64)%Z → Loc.loc p = Loc.loc q → p = q.
Proof.
  unfold Loc.loc, Loc.PCIE_PF_MEMORY_LOCATION_ID, Loc.PCIE_VF_MEMORY_LOCATION_ID_START.
  destruct (Z.eqb_spec p 64), (Z.eqb_spec q 64); lia.
Qed.
Lemma loc_not_soc p : (0 ≤ p ≤ 64)%Z → Loc.loc p ≠ Loc.Soc.
Proof.
  unfold Loc.loc, Loc.Soc, Loc.PCIE_PF_MEMORY_LOCATION_ID, Loc.PCIE_VF_MEMORY_LOCATION_ID_START.
  destruct (Z.eqb_spec p 64); lia.
Qed.

Lemma transfer_touches p s d l : transfer_ok p s d → l ∈ touches d → l = Loc.loc p ∨ l = Loc.Soc.
Proof.
  unfold transfer_ok, touches.
  destruct d as [[f1 l1 a1] [[f2 l2 a2]|] [f3 l3 a3] [[f4 l4 a4]|] n t]; cbn;
    intros [(? & ? & ? & ?)|(? & ? & ? & ?)]; simplify_eq; rewrite ?elem_of_cons, ?elem_of_nil; naive_solver.
Qed.

Lemma run_transfers tag evs p r (w : world) d :
  run tag evs (start p) = (r, w) → d ∈ transfers (trace w) →
  ∃ rx, hal_recv hal 0 = Some rx ∧ transfer_ok (rx_pfn rx) (sqe_from (rx_entry rx)) d.
Proof.
  intros E Hd. apply run_outcome, outcome_situation in E; [|apply start_waiting].
  assert (of_entry hal w ∧ transfers_ok w) as [(rx & Hr & Hp & Hs) Ht].
  { destruct r as [[]|e|]; cbn in E.
    - by destruct E as (_ & _ & _ & _ & ? & ? & _).
    - destruct E as [[_ H]|[[(_ & _ & H & _) _]|[(_ & _ & _ & _ & ? & ? & _)|(_ & _ & _ & _ & ? & ? & _)]]];
        [rewrite H in Hd; by apply not_elem_of_nil in Hd..|done|done].
    - destruct E as [_ [H|(_ & _ & _ & _ & ? & ? & _)]]; [rewrite H in Hd; by apply not_elem_of_nil in Hd|done]. }
  exists rx. split; [done|]. unfold transfers_ok in Ht. rewrite Hp, Hs in Ht.
  rewrite Forall_forall in Ht. apply Ht. by rewrite <-list_elem_of_In.
Qed.

(** C10: the memory of the functions is kept apart.  Every transfer of a
    request is between firmware memory and the memory of the function whose
    queue the request came from, at the page its entry names; no transfer
    reads or writes the memory of another function. *)
Theorem dma_confined (tag : Z) (evs : list (HsmFsmEvent * (P → P))) (p : P) (rx : IoRxDesc) :
  hal_recv hal 0 = Some rx → (0 ≤ rx_pfn rx ≤ 64)%Z →
  ∀ d, d ∈ transfers (trace (run tag evs (start p)).2) →
  transfer_ok (rx_pfn rx) (sqe_from (rx_entry rx)) d ∧
  ∀ other, (0 ≤ other ≤ 64)%Z → other ≠ rx_pfn rx → Loc.loc other ∉ touches d.
Proof.
  intros Hr Hb d Hd. destruct (run tag evs (start p)) as [r w] eqn:E.
  destruct (run_transfers _ _ _ _ _ _ E Hd) as (rx' & Hr' & Hok). simplify_eq.
  split; [done|]. intros other Ho Hne Hin. destruct (transfer_touches _ _ _ _ Hok Hin) as [El|El].
  - by apply Hne, loc_inj.
  - by apply loc_not_soc in El.
Qed.

End life.
