(* ===== verification/HsmFsmSession.v ===== *)
(** * Starting a command

    A request is bound to its session three times: by its queue entry, by its
    header and by the sessions of the partition.  What [init_cmd] has checked
    of them when it starts a command. *)

From stdpp Require Import base list numbers option.
From S2P Require Import Prelude.
From S2P Require Import HsmError.
From S2P Require Import Wire.
From S2P Require Import Mbor.
From S2P Require Import DdiCodec.
From S2P Require Import DdiTypes.
From S2P Require Import HostStatus.
From S2P Require Import CmdResource.
From S2P Require Import Partition.
From S2P Require Import HsmSqe.
From S2P Require Import HsmFsm.
From S2P Require Import HsmFsmProps.
From S2P Require Import HsmFsmTheorems.

(** ** Flags and revisions *)

Lemma ctrl_set_ctrl k f : Flags.ctrl (Flags.set_ctrl k f) = k.
Proof.
  unfold Flags.ctrl, Flags.set_ctrl, bits_get, bits_set.
  rewrite Z.shiftr_0_r, !Z.shiftl_0_r, Z.land_lor_distr_l, <-Z.land_assoc.
  change (Z.land (unot 8 (Z.ones 2)) (Z.ones 2)) with 0%Z. rewrite Z.land_0_r, Z.lor_0_l. by destruct k.
Qed.

Lemma rev_eqb_eq a b : rev_eqb a b = true → a = b.
Proof.
  destruct a, b. unfold rev_eqb. cbn. rewrite andb_true_iff, !Z.eqb_eq. by intros [-> ->].
Qed.

(** One revision is supported. *)
Lemma rev_only rev : rev_lt rev MIN_API_REV || rev_lt MAX_API_REV rev = false → rev = mkApiRev 1 0.
Proof.
  destruct rev as [a b]. unfold rev_lt, MIN_API_REV, MAX_API_REV. cbn [rev_major rev_minor].
  destruct (Z.eqb_spec a 1), (Z.eqb_spec 1 a); rewrite orb_false_iff, !Z.ltb_ge; intros []; f_equal; lia.
Qed.

(** The header agrees with the entry. *)
Lemma hijack_ok s h :
  Fsm.validate_session_hijack_protection s h = Ok tt →
  Flags.ctrl (sqe_session_flags s) = Ctrl.from_op (hdr_op h) ∧
  hdr_sess_id h = if Flags.id_valid (sqe_session_flags s) then Some (sqe_session_id s) else None.
Proof.
  unfold Fsm.validate_session_hijack_protection. case_bool_decide as Hc; [|done]. cbn [negb].
  intros H. split; [done|]. revert H.
  destruct (Flags.ctrl _), (Flags.id_valid _), (hdr_sess_id h) as [id|]; cbn; try done;
    destruct (Z.eqb_spec (sqe_session_id s) id); cbn; congruence.
Qed.

Section session.
Context {C P : Type} `{HC : HsmCmd C P, FP : FsmPartition P}.
Variable hal : HalEnv.

Abbreviation world := (FsmWorld C P).

(** The session of an operation that has one: it exists under the revision
    of the request, or waits to be renegotiated and the request is to reopen
    or to close it. *)
Definition session_ok (fn : Z) (h : ReqHdr) (p : P) : Prop :=
  match DdiSessionKind_from (hdr_op h), hdr_sess_id h with
  | SessionUser, Some id =>
      (fp_needs_renegotiation fn id p = true ∧
       (hdr_op h = DdiOp.ReopenSession ∨ hdr_op h = DdiOp.CloseSession)) ∨
      (∃ us, fp_user_session fn id true p = Ok us ∧ hdr_rev h = Some (us_api_rev us))
  | SessionUser, None => False
  | SessionNone, _ => hdr_rev h = if bool_decide (hdr_op h = DdiOp.GetApiRev) then None else Some (mkApiRev 1 0)
  end.

(** The session a command is given. *)
Definition arg_ok (fn : Z) (id : Z) (arg : CmdArg) (p : P) : Prop :=
  match arg with
  | ArgNone => True
  | ArgSession us => fp_user_session fn id false p = Ok us
  | ArgSessId i => i = id
  end.

Lemma req_hdr_ok (f : HsmFsm C) fn (p : P) :
  Fsm.validate_req_hdr f fn p = Ok tt →
  fp_enabled fn p = true ∧ Fsm.validate_session_hijack_protection (sqe f) (req_hdr f) = Ok tt ∧
  session_ok fn (req_hdr f) p.
Proof.
  unfold Fsm.validate_req_hdr, session_ok. destruct (fp_enabled fn p); [|done]. cbn [negb].
  destruct (Fsm.validate_session_hijack_protection _ _) as [[]|e|]; [|done..]. cbn.
  intros H. split_and!; [done..|]. revert H.
  destruct (DdiSessionKind_from _).
  - destruct (bool_decide_reflect (hdr_op (req_hdr f) = DdiOp.GetApiRev)); cbn.
    + by destruct (hdr_rev (req_hdr f)).
    + destruct (hdr_rev (req_hdr f)) as [rev|]; cbn; [|done].
      destruct (_ || _) eqn:Hr; [done|]. intros _. f_equal. by apply rev_only.
  - unfold Fsm.req_session_id. destruct (hdr_sess_id (req_hdr f)) as [id|]; cbn; [|done].
    destruct (_ && _) eqn:Hn.
    + apply andb_true_iff in Hn as [Hn [Ho|Ho]%orb_true_iff]; apply bool_decide_eq_true in Ho; auto.
    + destruct (fp_user_session _ _ _ _) as [us|e|]; [|done..]. cbn.
      destruct (hdr_rev (req_hdr f)) as [rev|]; cbn; [|done].
      destruct (rev_eqb rev (us_api_rev us)) eqn:Hr; cbn; [|done].
      apply rev_eqb_eq in Hr as ->. eauto.
Qed.

(** [on_err] and reading the header. *)
Lemma on_err_never_ok sess st op : never_ok (Fsm.on_err hal sess st op : M world HsmErr ()).
Proof.
  do 2 (apply never_ok_bind; intros ?). destruct a0; [|apply never_ok_throw..].
  apply never_ok_bind. intros _. apply never_ok_throw.
Qed.

Lemma read_hdr_ok buf (w w' : world) :
  Fsm.read_hdr hal buf w = (Ok tt, w') →
  ∃ h, (decode_hdr (Ddi.decode (TyStruct Msg.DdiReqHdr)) (Dec.new (buf_data buf))).1 = Ok h ∧
    w' = mkFsmWorld (Fsm.set_req_hdr (hdr_of h) (fsm w)) (shared w) (trace w).
Proof.
  unfold Fsm.read_hdr. destruct (decode_hdr _ _) as [[h|e|] d]; cbn [fst].
  - intros [= <-]. eauto.
  - intros H. by apply on_err_never_ok in H.
  - done.
Qed.

Lemma or_else_on_err (v : outcome HsmErr ()) k (w w' : world) :
  (∀ e, never_ok (k e)) → Fsm.or_else (lift v) k w = (Ok tt, w') → v = Ok tt ∧ w' = w.
Proof.
  intros Hk. unfold Fsm.or_else, lift. destruct v as [[]|e|]; [by intros [= <-]| |done].
  intros H. by apply Hk in H.
Qed.

(** The session of the argument is that of the entry. *)
Lemma cmd_arg_ok k fn h (p : P) arg s :
  Fsm.cmd_arg k fn h p = Ok arg → 
  hdr_sess_id h = (if Flags.id_valid (sqe_session_flags s) then Some (sqe_session_id s) else None) →
  arg_ok fn (sqe_session_id s) arg p.
Proof.
  unfold Fsm.cmd_arg, Fsm.user_session, Fsm.req_session_id. intros H Hid. rewrite Hid in H.
  destruct k; [by injection H as <-| |]; destruct (Flags.id_valid _); try done; cbn in H.
  - destruct (fp_user_session _ _ _ _) as [us|e|] eqn:E; [|done..]. injection H as <-. exact E.
  - by injection H as <-.
Qed.

(** A command that [init_cmd] starts: what was checked of the request, the
    session and the partition. *)
Lemma init_cmd_ok (tag : Z) (w w' : world) :
  Fsm.init_cmd hal tag w = (Ok tt, w') →
  ∃ buf fn hd arg,
    let h := hdr_of hd in
    let s := sqe (fsm w) in
    dma_buf (fsm w) = Some buf ∧ pfn (fsm w) = Some fn ∧
    (decode_hdr (Ddi.decode (TyStruct Msg.DdiReqHdr)) (Dec.new (buf_data buf))).1 = Ok hd ∧
    shared w' = shared w ∧ trace w' = trace w ∧ fp_enabled fn (shared w) = true ∧
    Flags.ctrl (sqe_session_flags s) = Ctrl.from_op (hdr_op h) ∧
    (hdr_sess_id h = if Flags.id_valid (sqe_session_flags s) then Some (sqe_session_id s) else None) ∧
    session_ok fn h (shared w) ∧
    (Ctrl.from_op (hdr_op h) = InSession → fp_is_provisioned fn (shared w) = true) ∧
    arg_ok fn (sqe_session_id s) arg (shared w) ∧
    state (fsm w') = Cmd ∧ pfn (fsm w') = pfn (fsm w) ∧ sqe (fsm w') = s ∧
    cmd (fsm w') = Some (new_cmd (Fsm.cmd_of_op (hdr_op h)).1 (mkInit (Some buf) arg fn)).
Proof.
  unfold Fsm.init_cmd. rewrite bind_self. destruct (dma_buf (fsm w)) as [buf|]; [|done]. cbn [ok_or].
  rewrite bind_lift_Ok, bind_upd. intros ([] & w1 & (hd & Hd & ->)%read_hdr_ok & E)%M_bind_Ok.
  rewrite bind_self in E. cbn [fsm shared trace] in E.
  destruct (pfn (fsm w)) as [fn|] eqn:Hp; cbn [pfn Fsm.set_req_hdr Fsm.set_dma_buf] in E; rewrite Hp in E; [|done].
  cbn [ok_or] in E. rewrite bind_lift_Ok in E. cbn zeta in E.
  rewrite bind_upd, bind_self, bind_peek in E. cbn [fsm shared trace] in E.
  apply M_bind_Ok in E as ([] & w2 & Hv & E).
  apply or_else_on_err in Hv as [Hv ->]; [|intros; apply on_err_never_ok].
  apply req_hdr_ok in Hv as (Hen & [Hctrl Hid]%hijack_ok & Hs).
  rewrite bind_peek in E. cbn [fsm shared trace] in E.
  apply M_bind_Ok in E as ([] & w3 & Hprov & E).
  exists buf, fn, hd. cbn zeta.
  cbn [req_hdr sqe session_flags Fsm.set_flags Fsm.set_req_hdr Fsm.set_dma_buf] in *.
  rewrite ctrl_set_ctrl in Hprov.
  assert ((Ctrl.from_op (hdr_op (hdr_of hd)) = InSession → fp_is_provisioned fn (shared w) = true) ∧
    w3 = mkFsmWorld (Fsm.set_flags (Flags.set_ctrl (Ctrl.from_op (hdr_op (hdr_of hd))) (session_flags (fsm w)))
      (Fsm.set_req_hdr (hdr_of hd) (Fsm.set_dma_buf None (fsm w)))) (shared w) (trace w)) as [Hpr ->].
  { destruct (bool_decide_reflect (Ctrl.from_op (hdr_op (hdr_of hd)) = InSession)), (fp_is_provisioned fn _);
      cbn in Hprov; try (by injection Hprov as <-). by apply on_err_never_ok in Hprov. }
  destruct (Fsm.cmd_of_op _) as [kind args]. rewrite bind_peek in E. cbn [fsm shared trace] in E.
  apply M_bind_Ok in E as (arg & w4 & Ha & E). injection Ha as Ha <-.
  rewrite bind_upd in E. injection E as <-. exists arg. cbn.
  split_and!; try done. by eapply cmd_arg_ok.
Qed.

End session.
