(* ===== verification/HsmFsmRollback.v ===== *)
(** * Rollback

    A command that fails, or whose response cannot be sent, is rolled back so
    that what it had created is undone.  The error is remembered, and a
    command is never rolled back twice: the second time could undo what
    belongs to another request by then. *)

From stdpp Require Import base list numbers option.
From S2P Require Import Prelude.
From S2P Require Import HsmError.
From S2P Require Import Wire.
From S2P Require Import Mbor.
From S2P Require Import DdiCodec.
From S2P Require Import DdiTypes.
From S2P Require Import HostStatus.
From S2P Require Import CmdResource.
From S2P Require Import Partition.
From S2P Require Import HsmSqe.
From S2P Require Import HsmFsm.
From S2P Require Import HsmFsmProps.
From S2P Require Import HsmFsmTheorems.

Section rollback.
Context {C P : Type} `{HC : HsmCmd C P, FP : FsmPartition P}.
Variable hal : HalEnv.

(** ** Counting rollbacks, beside any commands and any partition *)

Definition beside {S A E} (m : M (C * P) E A) (f : S → S) : M (C * (P * S)) E A :=
  λ '(c, (p, n)), let '(r, (c, p)) := m (c, p) in (r, (c, (p, f n))).
Definition beside_part {S A E} (m : M P E A) : M (P * S) E A :=
  λ '(p, n), let '(r, p) := m p in (r, (p, n)).

#[local] Instance counted_cmd : HsmCmd C (P * nat) := {|
  new_cmd := @new_cmd C P HC;
  cmd_on_event ev tag := beside (cmd_on_event ev tag) id;
  cmd_rollback tag := beside (cmd_rollback tag) S;
  cmd_take_response := @cmd_take_response C P HC;
  cmd_session_id := @cmd_session_id C P HC;
  cmd_app_vault_id := @cmd_app_vault_id C P HC;
  cmd_retry := @cmd_retry C P HC;
  cmd_requires_resource := @cmd_requires_resource C P HC;
  cmd_acquire_resource := @cmd_acquire_resource C P HC
|}.

#[local] Instance counted_partition : FsmPartition (P * nat) := {|
  fp_enabled fn x := fp_enabled fn x.1;
  fp_io_queue fn q := beside_part (fp_io_queue fn q);
  fp_is_provisioned fn x := fp_is_provisioned fn x.1;
  fp_needs_renegotiation fn id x := fp_needs_renegotiation fn id x.1;
  fp_user_session fn id b x := fp_user_session fn id b x.1;
  fp_flush_session fn id := beside_part (fp_flush_session fn id);
  fp_retire fn q x := (fp_retire fn q x.1, x.2)
|}.

Abbreviation world := (FsmWorld C (P * nat)).
Abbreviation FM := (M world HsmErr).

Definition rollbacks (w : world) : nat := (shared w).2.

(** A command that was rolled back has an error that is remembered. *)
Definition remembered (w : world) : Prop :=
  match err (fsm w) with None => rollbacks w = 0 | Some _ => rollbacks w ≤ 1 end.

Abbreviation keeps := (keeps remembered).

(** ** Steps *)

Lemma keeps_step_upd (g : HsmFsm C → HsmFsm C) : (∀ f, err (g f) = err f) → keeps (Fsm.upd g : FM ()).
Proof. intros Hg. apply keeps_upd. intros w. unfold remembered, rollbacks. cbn. by rewrite Hg. Qed.
Lemma keeps_step_call {A} (answer : nat → A) entry : keeps (Fsm.call answer entry : FM A).
Proof. by apply keeps_call. Qed.
Lemma keeps_step_shared {A} (m : M P Empty_set A) : keeps (Fsm.on_shared (beside_part m) : FM A).
Proof.
  intros [f [p n] t] Hw. unfold Fsm.on_shared, beside_part. cbn. by destruct (m p).
Qed.
Lemma keeps_flush_shared fn id : keeps (Fsm.on_shared (fp_flush_session fn id) : FM ()).
Proof. apply keeps_step_shared. Qed.
Lemma keeps_queue_shared fn q : keeps (Fsm.on_shared (fp_io_queue fn q) : FM _).
Proof. apply keeps_step_shared. Qed.
Lemma keeps_step_cmd {A} (m : M (C * (P * nat)) HsmErr A) :
  (∀ c x, (m (c, x)).2.2.2 = x.2) → keeps (Fsm.on_cmd m : FM A).
Proof.
  intros Hm [f x t] Hw. unfold Fsm.on_cmd. cbn [fsm shared]. destruct (cmd f) as [c|]; [|done].
  specialize (Hm c x). destruct (m (c, x)) as [r [c' x']]. unfold remembered, rollbacks in *.
  cbn in *. by rewrite Hm.
Qed.
Lemma keeps_event ev tag : keeps (Fsm.on_cmd (cmd_on_event ev tag) : FM ()).
Proof.
  apply keeps_step_cmd. intros c [p n]. cbn. by destruct (cmd_on_event ev tag (c, p)) as [r [c' p']].
Qed.

(** The error is remembered, then the command is rolled back. *)
Lemma keeps_rollback {A} (g : HsmFsm C → HsmFsm C) tag (k : outcome HsmErr () → FM A) (w : world) :
  (∀ f, is_Some (err (g f))) → (∀ r, keeps (k r)) → remembered w → err (fsm w) = None →
  remembered ((Fsm.upd g ≫= λ _, Fsm.try (Fsm.issue_command_rollback tag) ≫= k) w).2.
Proof.
  intros Hg Hk Hw He. rewrite bind_upd.
  assert (∀ c n, n ≤ 1 → ∀ p t, remembered (mkFsmWorld (Fsm.set_cmd c (g (fsm w))) (p, n) t)) as Hset.
  { intros c n Hn p t. unfold remembered, rollbacks. cbn. destruct (Hg (fsm w)) as [e ->]. done. }
  assert (rollbacks w = 0) as H0 by (unfold remembered in Hw; by rewrite He in Hw).
  destruct w as [f [p n] t]. cbn in *. subst n.
  unfold mbind, M_bind, Fsm.try, Fsm.issue_command_rollback, Fsm.on_cmd. cbn [fsm shared trace].
  destruct (cmd (g f)) as [c|] eqn:Hc; cbn.
  - destruct (cmd_rollback tag (c, p)) as [[a|e|] [c' p']]; [apply Hk|apply Hk|]; apply Hset; lia.
  - apply Hk. unfold remembered, rollbacks. cbn. destruct (Hg f) as [e ->]. lia.
Qed.

#[local] Hint Resolve keeps_step_call keeps_flush_shared keeps_queue_shared keeps_event : fsm.

Ltac counts := keeps_with ltac:(idtac; match goal with
    | |- HsmFsmProps.keeps _ (Fsm.upd _) => apply keeps_step_upd; done
    | |- HsmFsmProps.keeps _ (Fsm.on_cmd (λ '(_, _), _)) =>
        apply keeps_step_cmd; intros; repeat case_match; simplify_eq; done
    end).

(** ** The handlers *)

Lemma keeps_send_err {A} e tag : keeps (Fsm.send_err_cqe (A:=A) hal e tag : FM A).
Proof. unfold Fsm.send_err_cqe, Fsm.post. counts. Qed.
Lemma keeps_send_cqe tag : keeps (Fsm.send_cqe hal tag : FM ()).
Proof. unfold Fsm.send_cqe, Fsm.post. counts. Qed.
Lemma keeps_send_flush id fl tag : keeps (Fsm.send_flush_cqe hal id fl tag : FM ()).
Proof. unfold Fsm.send_flush_cqe, Fsm.post. counts. Qed.
Lemma keeps_begin_in tag : keeps (Fsm.begin_in_dma hal tag : FM ()).
Proof. unfold Fsm.begin_in_dma, Fsm.begin_dma. counts. Qed.
Lemma keeps_begin_out tag : keeps (Fsm.begin_out_dma hal tag : FM ()).
Proof. unfold Fsm.begin_out_dma, Fsm.begin_dma. counts. Qed.
Lemma keeps_end_dma tag : keeps (Fsm.end_dma hal tag : FM ()).
Proof. unfold Fsm.end_dma. counts. Qed.
Lemma keeps_encode_buf t v : keeps (Fsm.encode_buf hal t v : FM DmaBuffer).
Proof. unfold Fsm.encode_buf, Fsm.allocate_from_pool. counts. Qed.
Lemma keeps_close_flag : keeps (Fsm.close_flag : FM ()).
Proof. unfold Fsm.close_flag. counts. Qed.
#[local] Hint Resolve keeps_send_err keeps_send_cqe keeps_send_flush keeps_begin_in keeps_begin_out
  keeps_end_dma keeps_encode_buf keeps_close_flag : fsm.

Lemma keeps_init_cmd tag : keeps (Fsm.init_cmd hal tag : FM ()).
Proof. unfold Fsm.init_cmd, Fsm.read_hdr, Fsm.on_err, Fsm.err_resp. counts. Qed.
Lemma keeps_cmd_err_resp tag e : keeps (Fsm.cmd_err_resp hal tag e : FM _).
Proof. unfold Fsm.cmd_err_resp, Fsm.err_resp. counts. Qed.
#[local] Hint Resolve keeps_init_cmd keeps_cmd_err_resp : fsm.

Lemma keeps_err_triple tag e :
  keeps ('(b, s) ← Fsm.cmd_err_resp hal tag e; mret (b, s, None) : FM (option DmaBuffer * option Z * option Z)).
Proof. counts. Qed.

Lemma keeps_collect r tag : keeps (Fsm.collect hal r tag : FM _).
Proof.
  intros w Hw. unfold Fsm.collect. rewrite bind_self. destruct r as [[]|e|]; [| |done].
  - destruct (err (fsm w)); [by apply keeps_err_triple|]. revert w Hw.
    change (keeps (Fsm.on_cmd (λ '(c, p), let '(b, c) := cmd_take_response c in
      (Ok (b, cmd_session_id c, cmd_app_vault_id c), (c, p))) : FM _)). counts.
  - destruct (HsmErr_pending e); [done|]. destruct (err (fsm w)) eqn:He; [by apply keeps_err_triple|].
    apply keeps_rollback; [by eexists| |done..].
    intros [|[]|]; try apply keeps_err_triple. apply keeps_ret.
Qed.

Lemma keeps_fail_out_dma e tag : keeps (Fsm.fail_out_dma hal e tag : FM ()).
Proof.
  intros w Hw. unfold Fsm.fail_out_dma. rewrite bind_self.
  destruct (err (fsm w)) eqn:He; [by apply keeps_send_err|].
  apply keeps_rollback; [by eexists| |done..].
  intros [|[]|]; try apply keeps_send_err. apply keeps_throw.
Qed.
#[local] Hint Resolve keeps_collect keeps_fail_out_dma : fsm.

Lemma keeps_respond tag : keeps (Fsm.respond hal tag : FM ()).
Proof. unfold Fsm.respond. counts. Qed.
#[local] Hint Resolve keeps_respond : fsm.

Lemma keeps_process event tag : keeps (Fsm.process_cmd_event hal event tag : FM ()).
Proof. unfold Fsm.process_cmd_event. counts. Qed.
#[local] Hint Resolve keeps_process : fsm.

Lemma keeps_rx_entry tag : keeps (Fsm.process_rx_entry hal tag : FM ()).
Proof. unfold Fsm.process_rx_entry, Fsm.flush_session, Fsm.allocate_from_pool. counts. Qed.
#[local] Hint Resolve keeps_rx_entry : fsm.

Lemma keeps_arrive : keeps (Fsm.arrive hal : FM ()).
Proof. intros w Hw. unfold Fsm.arrive. by destruct (dma_buf (fsm w)). Qed.
#[local] Hint Resolve keeps_arrive : fsm.

Lemma keeps_rx_ready tag : keeps (Fsm.on_rx_ready hal tag : FM ()).
Proof. unfold Fsm.on_rx_ready, Fsm.begin_recv_sqe, Fsm.find_ioq. counts. Qed.
Lemma keeps_in_dma tag : keeps (Fsm.on_in_dma_complete hal tag : FM ()).
Proof.
  assert (keeps (r ← Fsm.try (Fsm.begin_out_dma hal tag);
    match r with
    | Ok _ => throw HsmError.Pending
    | Err e => Fsm.send_err_cqe hal e tag
    | Panic => lift Panic
    end : FM ())) as Hd by counts.
  apply keeps_bind; [counts|]. intros _. apply keeps_bind; [|intros _; apply keeps_process].
  apply keeps_or_else; [apply keeps_init_cmd|]. intros []; (exact Hd || apply keeps_send_err).
Qed.
Lemma keeps_out_dma tag : keeps (Fsm.on_out_dma_complete hal tag : FM ()).
Proof. unfold Fsm.on_out_dma_complete. counts. Qed.
Lemma keeps_out_err event tag : keeps (Fsm.on_dma_out_err hal event tag : FM ()).
Proof.
  apply keeps_bind; [counts|]. intros [|[]|]; try apply keeps_throw.
  all: apply keeps_bind; [apply keeps_self|intros f; apply keeps_send_err].
Qed.
Lemma keeps_tx : keeps (Fsm.on_tx_complete hal : FM ()).
Proof. unfold Fsm.on_tx_complete. counts. Qed.

Lemma keeps_on_event event tag : keeps (Fsm.on_event hal event tag : FM ()).
Proof.
  apply keeps_bind; [apply keeps_self|]. intros f. destruct (state f), event.
  all: first [ apply keeps_throw | apply keeps_rx_ready | apply keeps_in_dma | apply keeps_process
             | apply keeps_out_dma | apply keeps_out_err | apply keeps_tx ].
Qed.

(** What other requests do leaves the count of this one alone. *)
Definition others (ev : HsmFsmEvent * (P → P)) : HsmFsmEvent * (P * nat → P * nat) :=
  (ev.1, λ x, (ev.2 x.1, x.2)).

Lemma keeps_run tag evs : keeps (run hal tag (others <$> evs)).
Proof.
  induction evs as [|[ev g] evs IH]; intros w Hw; [done|]. cbn.
  pose proof (keeps_on_event ev tag (mkFsmWorld (fsm w) (g (shared w).1, (shared w).2) (trace w)) Hw) as He.
  destruct (Fsm.on_event hal ev tag _) as [[a|e|] w1]; [done| |done].
  destruct e; try done. by apply IH.
Qed.

(** C12: whatever the events, the commands and what other requests do in
    between, the command of a request is rolled back at most once, and never
    when no error was met. *)
Theorem rollback_at_most_once (tag : Z) (evs : list (HsmFsmEvent * (P → P))) (p : P) :
  let w := (run hal tag (others <$> evs) (start (p, 0))).2 in
  rollbacks w ≤ 1 ∧ (err (fsm w) = None → rollbacks w = 0).
Proof.
  pose proof (keeps_run tag evs (start (p, 0)) eq_refl) as H. cbn zeta. revert H.
  generalize (run hal tag (others <$> evs) (start (p, 0))).2. intros w. unfold remembered.
  destruct (err (fsm w)); naive_solver lia.
Qed.

End rollback.
