(* ===== verification/HsmFsmOrigin.v ===== *)
(** * Where a command comes from

    Every call of a command is recorded with the kind and the arguments the
    command was made with and the partition it finds.  The first call of a run
    is the one that starts the command, on the partition its checks read. *)

From stdpp Require Import base list numbers option.
From S2P Require Import Prelude.
From S2P Require Import HsmError.
From S2P Require Import Wire.
From S2P Require Import Mbor.
From S2P Require Import DdiCodec.
From S2P Require Import DdiTypes.
From S2P Require Import HostStatus.
From S2P Require Import CmdResource.
From S2P Require Import Partition.
From S2P Require Import HsmSqe.
From S2P Require Import HsmFsm.
From S2P Require Import HsmFsmProps.
From S2P Require Import HsmFsmTheorems.
From S2P Require Import HsmFsmSession.

(** What the entry must say for [flush_session] to be reached. *)
Lemma flush_entry_ok s :
  Fsm.validate_sqe s = Ok tt → Cmd.op (sqe_cmd s) = Opcode.Flush →
  Flags.ctrl (sqe_session_flags s) = Close ∧ Flags.id_valid (sqe_session_flags s) = true.
Proof.
  unfold Fsm.validate_sqe, Fsm.validate_sqe_with_flush_opcode. intros H Ho. rewrite Ho in H.
  destruct (negb (_ =? 0)%Z); [done|].
  change (Opcode.Flush =? Opcode.Generic)%Z with false in H. cbn [Z.eqb] in H.
  rewrite Z.eqb_refl in H. case_bool_decide; [|done]. by destruct (Flags.id_valid _).
Qed.

Section origin.
Context {C P : Type} `{HC : HsmCmd C P, FP : FsmPartition P}.
Variable hal : HalEnv.

(** ** Commands that record their calls *)

Definition origin : Type := CmdKind * CmdInit.
(** A call of a command: the event it is given ([None] for a rollback), and
    the partition it finds. *)
Record called : Type := mkCalled {
  called_origin : origin; called_event : option HsmFsmEvent; called_part : P
}.

Definition record {A E} (ev : option HsmFsmEvent) (m : M (C * P) E A) :
    M ((C * origin) * (P * list called)) E A :=
  λ '((c, o), (p, l)), let '(r, (c, p')) := m (c, p) in (r, ((c, o), (p', l ++ [mkCalled o ev p]))).
Definition unrecorded {A E} (m : M P E A) : M (P * list called) E A :=
  λ '(p, l), let '(r, p) := m p in (r, (p, l)).

#[local] Instance recorded_cmd : HsmCmd (C * origin) (P * list called) := {|
  new_cmd kind i := (new_cmd (HsmCmd:=HC) kind i, (kind, i));
  cmd_on_event ev tag := record (Some ev) (cmd_on_event ev tag);
  cmd_rollback tag := record None (cmd_rollback tag);
  cmd_take_response x := let '(b, c) := cmd_take_response (HsmCmd:=HC) x.1 in (b, (c, x.2));
  cmd_session_id x := cmd_session_id (HsmCmd:=HC) x.1;
  cmd_app_vault_id x := cmd_app_vault_id (HsmCmd:=HC) x.1;
  cmd_retry x := cmd_retry (HsmCmd:=HC) x.1;
  cmd_requires_resource tag id x := cmd_requires_resource (HsmCmd:=HC) tag id x.1;
  cmd_acquire_resource tag id x :=
    let '(r, c) := cmd_acquire_resource (HsmCmd:=HC) tag id x.1 in (r, (c, x.2))
|}.

#[local] Instance recorded_partition : FsmPartition (P * list called) := {|
  fp_enabled fn x := fp_enabled fn x.1;
  fp_io_queue fn q := unrecorded (fp_io_queue fn q);
  fp_is_provisioned fn x := fp_is_provisioned fn x.1;
  fp_needs_renegotiation fn id x := fp_needs_renegotiation fn id x.1;
  fp_user_session fn id b x := fp_user_session fn id b x.1;
  fp_flush_session fn id := unrecorded (fp_flush_session fn id);
  fp_retire fn q x := (fp_retire fn q x.1, x.2)
|}.

Abbreviation world := (FsmWorld (C * origin) (P * list called)).
Abbreviation FM := (M world HsmErr).

Definition calls (w : world) : list called := (shared w).2.

(** ** Starting a command *)

(** A request of function [fn] with entry [s] starts its command on [p]. *)
Definition request_start (fn : Z) (s : HsmSqe) (kind : CmdKind) (i : CmdInit) (p : P) : Prop :=
  ∃ buf hd arg,
    let h := hdr_of hd in
    (decode_hdr (Ddi.decode (TyStruct Msg.DdiReqHdr)) (Dec.new (buf_data buf))).1 = Ok hd ∧
    kind = (Fsm.cmd_of_op (hdr_op h)).1 ∧ i = mkInit (Some buf) arg fn ∧
    fp_enabled fn p = true ∧
    Flags.ctrl (sqe_session_flags s) = Ctrl.from_op (hdr_op h) ∧
    (hdr_sess_id h = if Flags.id_valid (sqe_session_flags s) then Some (sqe_session_id s) else None) ∧
    session_ok fn h p ∧
    (Ctrl.from_op (hdr_op h) = InSession → fp_is_provisioned fn p = true) ∧
    arg_ok fn (sqe_session_id s) arg p.

(** A flush entry closes the session it names. *)
Definition flush_start (fn : Z) (s : HsmSqe) (kind : CmdKind) (i : CmdInit) (p : P) : Prop :=
  Cmd.op (sqe_cmd s) = Opcode.Flush ∧ kind = FlushSessionCmd (sqe_session_id s) ∧
  i = mkInit None ArgNone fn ∧ Flags.ctrl (sqe_session_flags s) = Close ∧
  Flags.id_valid (sqe_session_flags s) = true ∧
  ∃ us, fp_user_session fn (sqe_session_id s) true p = Ok us.

Definition start_ok (fn : Z) (s : HsmSqe) (o : origin) (p : P) : Prop :=
  request_start fn s o.1 o.2 p ∨ flush_start fn s o.1 o.2 p.

Definition started (fn : Z) (s : HsmSqe) (l : list called) : Prop :=
  match l with
  | [] => True
  | first :: later =>
      called_event first = Some StartCmd ∧ start_ok fn s (called_origin first) (called_part first) ∧
      Forall (λ x, called_origin x = called_origin first) later
  end.

(** ** Invariants *)

(** The entry was taken and no command is there yet; a command was made and
    not called; a command has been called, and is the one that was started. *)
Definition idle (w : world) : Prop := of_entry hal w ∧ cmd (fsm w) = None ∧ calls w = [].
Definition made (w : world) : Prop :=
  of_entry hal w ∧ calls w = [] ∧
  ∃ c o fn, cmd (fsm w) = Some (c, o) ∧ pfn (fsm w) = Some fn ∧ start_ok fn (sqe (fsm w)) o (shared w).1.
Definition running (w : world) : Prop :=
  of_entry hal w ∧ state (fsm w) ≠ DmaIn ∧
  ∃ c first later fn, cmd (fsm w) = Some (c, called_origin first) ∧ calls w = first :: later ∧
    pfn (fsm w) = Some fn ∧ started fn (sqe (fsm w)) (first :: later).
Definition traced (w : world) : Prop := idle w ∨ running w.

(** Steps that are not calls of the command. *)
Lemma traced_upd (g : HsmFsm (C * origin) → HsmFsm (C * origin)) :
  (∀ f, pfn (g f) = pfn f ∧ sqe (g f) = sqe f ∧ cmd (g f) = cmd f ∧
        (state (g f) = DmaIn → state f = DmaIn)) → keeps traced (Fsm.upd g : FM ()).
Proof.
  intros Hg. apply keeps_upd. intros w. destruct (Hg (fsm w)) as (E1 & E2 & E3 & E4).
  unfold traced, idle, running, of_entry, calls. cbn. rewrite E1, E2, E3. naive_solver.
Qed.
Lemma traced_call {A} (answer : nat → A) entry : keeps traced (Fsm.call answer entry : FM A).
Proof. by apply keeps_call. Qed.
Lemma traced_shared {A} (m : M P Empty_set A) : keeps traced (Fsm.on_shared (unrecorded m) : FM A).
Proof.
  intros [f [p l] t]. unfold traced, idle, running, of_entry, calls, Fsm.on_shared. cbn.
  by destruct (m p).
Qed.
Lemma traced_flush fn id : keeps traced (Fsm.on_shared (fp_flush_session fn id) : FM ()).
Proof. apply traced_shared. Qed.

(** Calls of the command. *)
Lemma traced_cmd {A} (m : M ((C * origin) * (P * list called)) HsmErr A) :
  (∀ c o x, ∃ c' p' l', (m ((c, o), x)).2 = ((c', o), (p', x.2 ++ l')) ∧
    Forall (λ y, called_origin y = o) l') → keeps traced (Fsm.on_cmd m : FM A).
Proof.
  intros Hm [f x t] Hw. unfold Fsm.on_cmd. cbn [fsm shared].
  destruct (cmd f) as [[c o]|] eqn:Hc; [|done].
  destruct Hw as [(_ & Hn & _)|(He & Hs & c0 & first & later & fn & H1 & H2 & H3 & Hf & H4 & H5)];
    [cbn in Hn; congruence|].
  cbn in *. rewrite Hc in H1. injection H1 as -> ->.
  destruct (Hm c0 (called_origin first) x) as (c' & p' & l' & E & Hl).
  destruct (m _) as [r [c2 x2]]. cbn in E. injection E as -> ->.
  right. split; [done|]. split; [done|]. unfold calls in *. cbn in *. rewrite H2. cbn.
  exists c', first, (later ++ l'), fn. split_and!; try done. by apply Forall_app.
Qed.
Lemma traced_record {A} ev (m : M (C * P) HsmErr A) : keeps traced (Fsm.on_cmd (record ev m) : FM A).
Proof.
  apply traced_cmd. intros c o [p l]. cbn. destruct (m (c, p)) as [r [c' p']].
  exists c', p', [mkCalled o ev p]. auto.
Qed.
Lemma traced_event ev tag : keeps traced (Fsm.on_cmd (cmd_on_event ev tag) : FM ()).
Proof. apply traced_record. Qed.
Lemma traced_rollback tag : keeps traced (Fsm.issue_command_rollback tag : FM ()).
Proof. apply traced_record. Qed.

#[local] Hint Resolve traced_call traced_flush traced_event traced_rollback : fsm.

Ltac traced := keeps_with ltac:(idtac; match goal with
    | |- keeps _ (Fsm.upd _) => apply traced_upd; done
    | |- keeps _ (Fsm.on_cmd (λ '(_, _), _)) =>
        apply traced_cmd; intros ? ? []; cbn; repeat case_match; simplify_eq/=;
        eexists _, _, []; rewrite app_nil_r; done
    end).

(** ** The handlers *)

Lemma traced_send_err {A} e tag : keeps traced (Fsm.send_err_cqe (A:=A) hal e tag : FM A).
Proof. unfold Fsm.send_err_cqe, Fsm.post. traced. Qed.
Lemma traced_send_cqe tag : keeps traced (Fsm.send_cqe hal tag : FM ()).
Proof. unfold Fsm.send_cqe, Fsm.post. traced. Qed.
Lemma traced_send_flush id fl tag : keeps traced (Fsm.send_flush_cqe hal id fl tag : FM ()).
Proof. unfold Fsm.send_flush_cqe, Fsm.post. traced. Qed.
Lemma traced_begin_out tag : keeps traced (Fsm.begin_out_dma hal tag : FM ()).
Proof. unfold Fsm.begin_out_dma, Fsm.begin_dma. traced. Qed.
Lemma traced_end_dma tag : keeps traced (Fsm.end_dma hal tag : FM ()).
Proof. unfold Fsm.end_dma. traced. Qed.
Lemma traced_err_resp f s st op : keeps traced (Fsm.err_resp hal f s st op : FM DmaBuffer).
Proof. unfold Fsm.err_resp, Fsm.encode_buf, Fsm.allocate_from_pool. traced. Qed.
Lemma traced_close_flag : keeps traced (Fsm.close_flag : FM ()).
Proof. unfold Fsm.close_flag. traced. Qed.
#[local] Hint Resolve traced_send_err traced_send_cqe traced_send_flush traced_begin_out
  traced_end_dma traced_err_resp traced_close_flag : fsm.

Lemma traced_collect r tag : keeps traced (Fsm.collect hal r tag : FM _).
Proof. unfold Fsm.collect, Fsm.cmd_err_resp. traced. Qed.
Lemma traced_fail_out_dma e tag : keeps traced (Fsm.fail_out_dma hal e tag : FM ()).
Proof. unfold Fsm.fail_out_dma. traced. Qed.
#[local] Hint Resolve traced_collect traced_fail_out_dma : fsm.

(** What follows the first call of [process_cmd_event]. *)
Definition after_event (event : HsmFsmEvent) (tag : Z) (r : outcome HsmErr ()) : FM () :=
  f ← Fsm.self;
  _ ← (if (HsmSqe.Cmd.op (sqe_cmd (sqe f)) =? Opcode.Flush)%Z && bool_decide (event = FpToHsmIpcResponse)
       then
         _ ← Fsm.close_flag;
         f ← Fsm.self;
         Fsm.send_flush_cqe hal (sqe_session_id (sqe f)) (session_flags f) tag
       else
         '(b, s, v) ← Fsm.collect hal r tag;
         _ ← Fsm.upd (Fsm.set_ids b s v);
         Fsm.respond hal tag);
  throw HsmError.Pending.

Lemma traced_after event tag r : keeps traced (after_event event tag r).
Proof. unfold after_event, Fsm.respond. traced. Qed.
Lemma traced_process event tag : keeps traced (Fsm.process_cmd_event hal event tag : FM ()).
Proof. apply keeps_bind; [traced|]. intros r. apply traced_after. Qed.
#[local] Hint Resolve traced_process : fsm.

(** The first call: the command runs on the partition that was checked. *)
Lemma made_process tag (w : world) :
  made w → state (fsm w) ≠ DmaIn → traced (Fsm.process_cmd_event hal StartCmd tag w).2.
Proof.
  intros (He & Hl & c & o & fn & Hc & Hp & Ho) Hs.
  change (Fsm.process_cmd_event hal StartCmd tag) with
    ((λ w : world, match cmd (fsm w) with
       | None => (Err ExpectedCmdFsm, w)
       | Some _ => Fsm.try (Fsm.on_cmd (cmd_on_event StartCmd tag)) w
       end) ≫= after_event StartCmd tag : FM ()).
  destruct w as [f [p l] t]. cbn in *. subst l.
  unfold mbind, M_bind, Fsm.try, Fsm.on_cmd. cbn [fsm shared trace]. rewrite Hc. cbn.
  destruct (cmd_on_event StartCmd tag (c, p)) as [r [c' p']].
  assert (∀ t, traced (mkFsmWorld (Fsm.set_cmd (Some (c', o)) f) (p', [mkCalled o (Some StartCmd) p]) t)) as H.
  { intros t'. right. split; [done|]. split; [done|].
    exists c', (mkCalled o (Some StartCmd) p), [], fn. by split_and!. }
  destruct r as [a|e|]; [apply traced_after, H..|apply H].
Qed.

(** ** Requests *)

Lemma idle_traced w : idle w → traced w.
Proof. by left. Qed.

(** Code before a command is made. *)
Lemma idle_upd (g : HsmFsm (C * origin) → HsmFsm (C * origin)) :
  (∀ f, pfn (g f) = pfn f ∧ sqe (g f) = sqe f ∧ cmd (g f) = cmd f) → keeps idle (Fsm.upd g : FM ()).
Proof.
  intros Hg. apply keeps_upd. intros w. destruct (Hg (fsm w)) as (E1 & E2 & E3).
  unfold idle, of_entry, calls. cbn. by rewrite E1, E2, E3.
Qed.
Lemma idle_call {A} (answer : nat → A) entry : keeps idle (Fsm.call answer entry : FM A).
Proof. by apply keeps_call. Qed.

Ltac idle := keeps_with ltac:(idtac; match goal with
    | |- keeps _ (Fsm.upd _) => apply idle_upd; done
    | |- keeps _ (Fsm.call _ _) => apply idle_call
    end).

Lemma idle_on_err s st op : keeps idle (Fsm.on_err hal s st op : FM ()).
Proof. unfold Fsm.on_err, Fsm.err_resp, Fsm.encode_buf, Fsm.allocate_from_pool. idle. Qed.
#[local] Hint Resolve idle_on_err : fsm.

(** A command is made, or none is. *)
Definition makes (m : FM ()) : Prop := ∀ w, idle w → match m w with (Ok _, _) => True | (_, w') => idle w' end.
Lemma makes_bind {A} (m : FM A) (f : A → FM ()) : keeps idle m → (∀ a, makes (f a)) → makes (m ≫= f).
Proof.
  intros Hm Hf w Hw. specialize (Hm w Hw). unfold mbind, M_bind.
  destruct (m w) as [[a|e|] w']; [by apply Hf|done..].
Qed.

Lemma init_cmd_makes tag : makes (Fsm.init_cmd hal tag : FM ()).
Proof.
  unfold Fsm.init_cmd, Fsm.read_hdr.
  repeat first [ apply makes_bind; [solve [idle]|intros; cbn zeta] | match goal with
    |- makes (let '_ := ?x in _) => destruct x end ].
  by intros w _.
Qed.

Lemma init_cmd_made tag (w : world) :
  idle w →
  match Fsm.init_cmd hal tag w with
  | (Ok _, w') => made w' ∧ state (fsm w') = Cmd
  | (_, w') => idle w'
  end.
Proof.
  intros Hw. pose proof (init_cmd_makes tag w Hw) as Hm.
  destruct (Fsm.init_cmd hal tag w) as [[[]|e|] w'] eqn:E; [|done..].
  destruct Hw as ((d & Hd & Hp & Hs) & _ & Hl).
  apply init_cmd_ok in E as (buf & fn & hd & arg & _ & Hfn & Hhd & Hsh & _ & Hen & Hc & Hi & Hse & Hpr
    & Ha & Hst & Hp' & Hs' & Hcmd).
  split; [|done]. split; [exists d; by rewrite Hp', Hs'|]. unfold calls. rewrite Hsh. split; [done|].
  do 2 eexists. exists fn. split; [exact Hcmd|]. rewrite Hp', Hs'. split; [done|].
  left. exists buf, hd, arg. done.
Qed.

Lemma traced_start (h : HsmErr → FM ()) tag (w : world) :
  (∀ e, keeps traced (h e)) → idle w →
  traced ((Fsm.or_else (Fsm.init_cmd hal tag) h ≫= λ _, Fsm.process_cmd_event hal StartCmd tag) w).2.
Proof.
  intros Hh Hw. pose proof (init_cmd_made tag w Hw) as Hi. unfold mbind, M_bind, Fsm.or_else.
  destruct (Fsm.init_cmd hal tag w) as [[[]|e|] w1]; [| |by left].
  - destruct Hi as [Hi Hs]. apply made_process; [done|]. by rewrite Hs.
  - pose proof (Hh e w1 (idle_traced w1 Hi)) as Ht.
    destruct (h e w1) as [[]w2]; [by apply traced_process|done..].
Qed.

Lemma traced_in_dma tag (w : world) : idle w → traced (Fsm.on_in_dma_complete hal tag w).2.
Proof.
  intros Hw. unfold Fsm.on_in_dma_complete. set (k := λ _ : (), (_ ← _; _)). set (m := Fsm.or_else _ _).
  assert (keeps idle m) as Hm.
  { apply keeps_or_else; [|intros e; unfold Fsm.send_err_cqe, Fsm.post; idle].
    apply keeps_bind; [unfold Fsm.end_dma; idle|]. intros _ w' Hw'. unfold Fsm.arrive.
    by destruct (dma_buf (fsm w')). }
  specialize (Hm w Hw). unfold mbind, M_bind. destruct (m w) as [[[]|e|] w']; [|by left..].
  apply traced_start; [|done]. traced.
Qed.

(** ** Taking the entry *)

Lemma traced_flush_session tag (w : world) :
  idle w → Fsm.validate_sqe (sqe (fsm w)) = Ok tt → Cmd.op (sqe_cmd (sqe (fsm w))) = Opcode.Flush →
  traced (Fsm.flush_session hal tag w).2.
Proof.
  intros Hw Hv Ho. pose proof Hw as (He & Hc & Hl). pose proof He as (d & _ & Hp & _).
  destruct (flush_entry_ok _ Hv Ho) as [Hctrl Hid].
  unfold Fsm.flush_session. rewrite bind_self, Hp. cbn [ok_or]. rewrite bind_lift_Ok. cbn zeta.
  rewrite bind_peek. destruct (fp_user_session _ _ _ _) as [us|e|] eqn:Hus; [| |by left].
  - rewrite !bind_upd. apply made_process; [|done]. split; [done|]. split; [done|].
    do 2 eexists. exists (rx_pfn d). split; [done|]. split; [done|]. right. cbn in *. split_and!; eauto.
  - match goal with |- traced (?m w).2 => cut (keeps traced m); [intros H; by apply H, idle_traced|] end.
    traced.
Qed.

Lemma never_ok_flush tag : never_ok (Fsm.flush_session hal tag : FM ()).
Proof.
  do 3 (apply never_ok_bind; intros ?). destruct a1; [| |done].
  - do 3 (apply never_ok_bind; intros ?). apply never_ok_process.
  - do 3 (apply never_ok_bind; intros ?). apply never_ok_throw.
Qed.

Lemma idle_fetch s tag :
  keeps idle (o ← Fsm.allocate_from_pool hal (Z.to_nat (desc_len (sqe_src s)));
    match o with
    | None => Fsm.send_err_cqe hal DmaAllocFailure tag
    | Some b =>
        _ ← Fsm.upd (Fsm.set_dma_buf (Some b));
        _ ← Fsm.or_else (Fsm.begin_in_dma hal tag) (λ e, Fsm.send_err_cqe hal e tag);
        throw HsmError.Pending
    end : FM ()).
Proof. unfold Fsm.allocate_from_pool, Fsm.send_err_cqe, Fsm.begin_in_dma, Fsm.begin_dma, Fsm.post. idle. Qed.

Lemma traced_rx_entry tag (w : world) : idle w → traced (Fsm.process_rx_entry hal tag w).2.
Proof.
  intros Hw. unfold Fsm.process_rx_entry. rewrite bind_self.
  destruct (Fsm.validate_sqe (sqe (fsm w))) as [[]|e|] eqn:Hv; [| |by left].
  - change (Fsm.or_else (lift (Ok tt)) (λ e, Fsm.send_err_cqe hal e tag) : FM ()) with (lift (Ok tt) : FM ()).
    rewrite bind_lift_Ok. destruct (Z.eqb_spec (Cmd.op (sqe_cmd (sqe (fsm w)))) Opcode.Flush) as [Ho|].
    + pose proof (traced_flush_session tag w Hw Hv Ho) as Ht. pose proof (never_ok_flush tag w tt) as Hn.
      destruct (Fsm.flush_session hal tag w) as [r w'] eqn:E.
      unfold mbind at 1, M_bind at 1. rewrite E. destruct r as [[]|e|]; [by destruct (Hn w')|done..].
    + left. by apply idle_fetch.
  - pose proof (traced_send_err (A:=()) e tag w (idle_traced w Hw)) as Ht.
    pose proof (never_ok_send_err hal (A:=()) e tag w tt) as Hn.
    unfold mbind at 1, M_bind at 1, Fsm.or_else, lift.
    destruct (Fsm.send_err_cqe hal e tag w) as [r w']. destruct r as [[]|e'|]; [by destruct (Hn w')|done..].
Qed.

(** ** Answering *)

Lemma traced_out_dma tag : keeps traced (Fsm.on_out_dma_complete hal tag : FM ()).
Proof. unfold Fsm.on_out_dma_complete. traced. Qed.
Lemma traced_out_err event tag : keeps traced (Fsm.on_dma_out_err hal event tag : FM ()).
Proof. unfold Fsm.on_dma_out_err. traced. Qed.
Lemma traced_tx : keeps traced (Fsm.on_tx_complete hal : FM ()).
Proof. unfold Fsm.on_tx_complete. traced. Qed.

(** No command yet, or the command of the entry taken. *)
Definition none_or_running (w : world) : Prop := (cmd (fsm w) = None ∧ calls w = []) ∨ running w.

Lemma traced_weaken w : traced w → none_or_running w.
Proof. unfold traced, idle, none_or_running. naive_solver. Qed.
Lemma of_entry_traced w : of_entry hal w → none_or_running w → traced w.
Proof. unfold traced, idle, none_or_running. naive_solver. Qed.

Lemma find_ioq_calls d (w : world) : calls (Fsm.find_ioq d w).2 = calls w.
Proof.
  destruct w as [f [p l] t]. unfold Fsm.find_ioq. rewrite bind_peek. unfold mbind, M_bind, Fsm.on_shared. cbn.
  destruct (fp_enabled _ _); cbn; [|done]. by destruct (fp_io_queue _ _ _) as [[[q|]|[]|] p'].
Qed.

Lemma traced_rx_ready tag (w : world) :
  fresh w → calls w = [] → none_or_running (Fsm.on_rx_ready hal tag w).2.
Proof.
  intros [Hf Ht] Hl. destruct w as [f x t]. cbn in Hf, Ht. subst f t.
  unfold Fsm.on_rx_ready. unfold mbind at 1, M_bind at 1. rewrite begin_recv_eq.
  destruct (hal_recv hal 0) as [d|] eqn:Hr; [|by left]. destruct (rx_status d); [|by left].
  rewrite bind_upd. cbn [trace fsm shared]. unfold mbind at 1, M_bind at 1, Fsm.or_else.
  destruct (Fsm.find_ioq d _) as [r1 [f1 x1 t1]] eqn:Ef.
  pose proof (find_ioq_calls d (mkFsmWorld (Fsm.set_pfn (Some (rx_pfn d)) Fsm.new) x [CallBeginRecv])) as Hc.
  rewrite Ef in Hc. apply find_ioq_frame in Ef as (Hf & Ht & _). unfold calls in *. cbn in Hf, Ht, Hc, Hl. subst f1 t1.
  rewrite Hl in Hc. destruct r1 as [q|e|]; [|by left..].
  rewrite !bind_upd. apply traced_weaken, traced_rx_entry. split; [by exists d|done].
Qed.

(** ** Any sequence of events *)

Lemma traced_on_event event tag (w : world) :
  waiting hal w → none_or_running w → none_or_running (Fsm.on_event hal event tag w).2.
Proof.
  intros Hw Hn. unfold Fsm.on_event. rewrite bind_self.
  destruct Hw as [Hf|Hw].
  - assert (calls w = []) as Hl.
    { destruct Hn as [[_ Hl]|(_ & _ & c & first & later & fn & Hc & _)]; [done|].
      destruct Hf as [Hf _]. by rewrite Hf in Hc. }
    pose proof Hf as [Hs _]. rewrite Hs. cbn [state Fsm.new]. destruct event; try exact Hn.
    by apply traced_rx_ready.
  - assert (traced w) as Ht.
    { apply of_entry_traced; [|done]. by destruct Hw as [(_ & _ & _ & _ & ? & _)|(_ & _ & _ & _ & ? & _)]. }
    apply traced_weaken. destruct (state (fsm w)) eqn:Hst.
    + destruct Hw as [(_ & _ & [_ Hi] & _)|(_ & _ & Hi & _)]; [by destruct Hi|by rewrite Hst in Hi].
    + destruct event; try exact Ht. apply traced_in_dma. destruct Ht as [Ht|(_ & Hd & _)]; [done|by rewrite Hst in Hd].
    + by apply traced_process.
    + destruct event; try exact Ht. by apply traced_out_dma.
    + destruct event; try exact Ht; by apply traced_out_err.
    + destruct event; try exact Ht. by apply traced_tx.
Qed.

(** What other requests do leaves the record of this one alone. *)
Definition apart (ev : HsmFsmEvent * (P → P)) : HsmFsmEvent * (P * list called → P * list called) :=
  (ev.1, λ x, (ev.2 x.1, x.2)).

Lemma run_traced tag evs : ∀ w : world,
  waiting hal w → none_or_running w → none_or_running (run hal tag (apart <$> evs) w).2.
Proof.
  induction evs as [|[ev g] evs IH]; intros w Hw Hn; [done|]. cbn.
  set (w0 := mkFsmWorld (fsm w) (g (shared w).1, (shared w).2) (trace w)).
  assert (none_or_running w0) as Hn0 by exact Hn.
  pose proof (traced_on_event ev tag w0 Hw Hn0) as He.
  destruct (Fsm.on_event hal ev tag w0) as [r w1] eqn:E.
  apply on_event_outcome in E; [|exact Hw].
  destruct r as [[]|e|]; [done| |done]. destruct e; try done. by apply IH.
Qed.

(** C8: no request runs in the session of another.  Whatever the events, the
    commands and what other requests do in between, the calls of a command in
    the life of a request are calls of one command; the first is its start
    event, on the partition that was checked, in one of two ways.
    A request: the header is decoded from the buffer of the command, its
    operation chooses the command, the function is enabled, entry and header
    agree on the kind of operation and name no session or the same, which is
    the one a command of a session is given.  The session of an operation that
    has one exists under the revision of the request; a reopen or a close may
    instead find a session that waits to be renegotiated.  An operation
    inside a session (not one that opens or closes it) starts only on a
    provisioned partition.
    A flush: the entry is a flush that announces a close and names a session
    that exists, and the command closes that session. *)
Theorem session_not_hijacked (tag : Z) (evs : list (HsmFsmEvent * (P → P))) (p : P) :
  let w := (run hal tag (apart <$> evs) (start (p, []))).2 in
  calls w = [] ∧ cmd (fsm w) = None ∨
  ∃ d first later,
    hal_recv hal 0 = Some d ∧ calls w = first :: later ∧
    Forall (λ x, called_origin x = called_origin first) later ∧
    called_event first = Some StartCmd ∧
    start_ok (rx_pfn d) (sqe_from (rx_entry d)) (called_origin first) (called_part first).
Proof.
  cbn zeta. pose proof (run_traced tag evs (start (p, [])) (start_waiting hal _) (or_introl (conj eq_refl eq_refl))) as H.
  revert H. generalize (run hal tag (apart <$> evs) (start (p, []))).2. intros w.
  intros [[]|((d & Hd & Hp & Hs) & _ & c & first & later & fn & _ & Hl & Hfn & He & Ho & Hf)]; [by left|].
  right. rewrite Hp in Hfn. injection Hfn as <-. rewrite Hs in Ho. by exists d, first, later.
Qed.

End origin.
