(* ===== verification/HsmFsmWitnesses.v ===== *)
(** * A request, from its entry to its completion

    A concrete request to open a key in session 3 of function 5, run with a
    command that answers at once, and what the theorems say of it. *)

From stdpp Require Import base list numbers option.
From S2P Require Import Prelude.
From S2P Require Import HsmError.
From S2P Require Import Wire.
From S2P Require Import Mbor.
From S2P Require Import DdiCodec.
From S2P Require Import DdiTypes.
From S2P Require Import HostStatus.
From S2P Require Import CmdResource.
From S2P Require Import Partition.
From S2P Require Import HsmSqe.
From S2P Require Import HsmFsm.
From S2P Require Import HsmFsmProps.
From S2P Require Import HsmFsmTheorems.
From S2P Require Import HsmFsmSession.
From S2P Require Import HsmFsmOrigin.

Local Open Scope Z_scope.

Definition sample_session : UserSession := mkUserSession 3 (mkApiRev 1 0).

(** The commands: the session they were given, and an answer of two bytes. *)
#[local] Instance sample_cmd : HsmCmd CmdArg () := {|
  new_cmd _ i := ci_arg i;
  cmd_on_event _ _ := λ s, (Ok tt, s);
  cmd_rollback _ := λ s, (Ok tt, s);
  cmd_take_response c := (Some (mkBuf 0x9000 [0xA0; 0xA0]), c);
  cmd_session_id _ := Some 3;
  cmd_app_vault_id _ := None;
  cmd_retry _ := false;
  cmd_requires_resource _ _ _ := false;
  cmd_acquire_resource _ _ c := (Ok StartCmd, c)
|}.

(** Function 5 with its queue 2 and its session 3. *)
#[local] Instance sample_partition : FsmPartition () := {|
  fp_enabled fn _ := (fn =? 5);
  fp_io_queue fn q := λ p, (Ok (if (q =? 2) then Some (mkIoq 0 2 2) else None), p);
  fp_is_provisioned _ _ := true;
  fp_needs_renegotiation _ _ _ := false;
  fp_user_session fn id _ _ := if (id =? 3) then Ok sample_session else Err SessionNotFound;
  fp_flush_session _ _ := λ p, (Ok tt, p);
  fp_retire _ _ p := p
|}.

Definition sample_sqe : HsmSqe :=
  mkSqe 0x70000 (mkDmaDesc 40 (mkAddr 0x1000 0) (mkAddr 0 0)) (mkDmaDesc 4096 (mkAddr 0x2000 0) (mkAddr 0 0))
    7 [0; 0; 0] 3 (replicate 14 0).

Definition sample_req : denote (TyStruct (Msg.cmd_req Msg.DdiOpenKeyReq)) :=
  ((Some (1, (0, tt)), (DdiOp.OpenKey, (Some 3, tt))), ((17, tt), tt)).

Definition sample_bytes : list Z :=
  e_buffer (Ddi.encode _ sample_req (Enc.new (replicate (Ddi.len _ sample_req 0) 0))).2.

Definition sample_rx : IoRxDesc := mkRx 2 0x500 (as_bytes HsmSqe_wire sample_sqe) 5 true.

Definition sample_hal : HalEnv := mkHal
  (λ _, Some sample_rx) (λ _, true) (λ _, Some true) (λ _ _, Some 0x8000) (λ _, true)
  (λ _, Some (true, 9)) (λ _ _, sample_bytes).

Definition sample_run (evs : list HsmFsmEvent) : outcome HsmErr () * FsmWorld CmdArg () :=
  run sample_hal 9 ((λ e, (e, λ p, p)) <$> evs) (start ()).

(** The request is fetched, run, answered and completed. *)
Example sample_run_ok :
  let '(r, w) := sample_run [RxReady; DmaComplete; DmaComplete; TxComplete] in
  r = Ok tt ∧ cmd (fsm w) = Some (ArgSession sample_session) ∧
  completions (trace w) = 1%nat ∧ length (transfers (trace w)) = 2%nat.
Proof. vm_compute. auto. Qed.

Lemma request_served_once_witness :
  let w := (sample_run [RxReady; DmaComplete; DmaComplete; TxComplete]).2 in
  completions (trace w) = 1%nat ∧ releases (trace (Fsm.drop w)) = 1%nat.
Proof.
  pose proof (request_served_once sample_hal 9
    ((λ e, (e, λ p, p)) <$> [RxReady; DmaComplete; DmaComplete; TxComplete]) ()) as H.
  unfold sample_run. destruct (run _ _ _ _) as [r w] eqn:E.
  assert (r = Ok tt) as Hr by (apply (f_equal fst) in E; vm_compute in E; by subst r).
  assert (entry_taken sample_hal (trace w) = true) as Ht
    by (apply (f_equal snd) in E; vm_compute in E; by subst w).
  destruct H as (_ & H1 & _ & H2). cbn [snd]. split.
  - by apply H1.
  - rewrite Ht in H2. apply H2. by rewrite Hr.
Defined.

(** The request is read from page 0x1000 of function 5: its transfer leaves
    the memory of function 6 alone. *)
Lemma dma_confined_witness :
  ∃ d, d ∈ transfers (trace (sample_run [RxReady]).2) ∧ Loc.loc 6 ∉ touches d.
Proof.
  pose (d := mkTxn (mkMem Prp 37 (mkAddr 4096 0)) None (mkMem Sgl 0 (mkAddr 32768 0))
    (Some (mkMem Sgl 0 (mkAddr 40 0))) 40 9).
  assert (d ∈ transfers (trace (sample_run [RxReady]).2)) as Hd
    by (vm_compute; apply list_elem_of_here).
  exists d. split; [exact Hd|].
  destruct (dma_confined sample_hal 9 ((λ e, (e, λ p, p)) <$> [RxReady]) () sample_rx) with (d := d) as [_ H].
  - reflexivity.
  - split; discriminate.
  - exact Hd.
  - apply H; [split; discriminate|discriminate].
Defined.

(** The command that opens the key is given session 3 of function 5. *)
Lemma session_not_hijacked_witness :
  start_ok 5 sample_sqe
    (OpenKeyCmd, mkInit (Some (mkBuf 0x8000 sample_bytes)) (ArgSession sample_session) 5) ().
Proof.
  destruct (session_not_hijacked (C:=CmdArg) sample_hal 9
    ((λ e, (e, λ p, p)) <$> [RxReady; DmaComplete; DmaComplete; TxComplete]) ())
    as [[H _]|(d & first & later & Hd & Hl & _ & _ & H)].
  - vm_compute in H. discriminate H.
  - injection Hd as <-. vm_compute in Hl. injection Hl as <- _. exact H.
Defined.
