(* ===== verification/DmaHeap.v ===== *)
(** * DMA buffers (hsm/src/heap.rs)

    Buffers for requests and responses come from a pool of 64 buffers, larger
    ones from a heap.  The heap allocator is the crate linked_list_allocator,
    an interface here ([FirstFit]); it keeps its own headers in free memory,
    so an operation may change any byte outside the live blocks. *)

From stdpp Require Import base list numbers option.
From S2P Require Import Prelude.

Definition memory := Z → Z.
Definition block : Set := Z * nat. (* address and size *)

Definition inside (b : block) (a : Z) : Prop := (b.1 ≤ a < b.1 + Z.of_nat b.2)%Z.
#[global] Instance inside_dec b a : Decision (inside b a).
Proof. unfold inside. apply _. Defined.

(** [slice.fill(v)] of [slice::from_raw_parts_mut(ptr, n)]. *)
Definition fill (ptr : Z) (n : nat) (v : Z) (mem : memory) : memory :=
  λ a, if decide (inside (ptr, n) a) then v else mem a.
Definition slice (mem : memory) (ptr : Z) (n : nat) : list Z :=
  (λ i, mem (ptr + Z.of_nat i)%Z) <$> seq 0 n.

(** ** [linked_list_allocator::Heap] *)

Definition apart (b c : block) : Prop :=
  (b.1 + Z.of_nat b.2 ≤ c.1 ∨ c.1 + Z.of_nat c.2 ≤ b.1)%Z.
Fixpoint separate (l : list block) : Prop :=
  match l with [] => True | b :: l => Forall (apart b) l ∧ separate l end.

(** Allocations are apart from every live block; freeing a live block ends its
    life; live blocks are not touched. *)
Class FirstFit (H : Type) := {
  heap_new : Z → nat → H;
  allocate_first_fit : nat → H → memory → option (Z * H * memory);
  heap_deallocate : Z → nat → H → memory → H * memory;
  live : H → list block;
  live_new start n : live (heap_new start n) = [];
  live_allocate n h mem p h' mem' :
    separate (live h) → allocate_first_fit n h mem = Some (p, h', mem') →
    live h' ≡ₚ (p, n) :: live h ∧ separate ((p, n) :: live h) ∧
    ∀ b a, b ∈ live h → inside b a → mem' a = mem a;
  live_deallocate p n l h mem h' mem' :
    separate (live h) → live h ≡ₚ (p, n) :: l → heap_deallocate p n h mem = (h', mem') →
    live h' ≡ₚ l ∧ ∀ b a, b ∈ l → inside b a → mem' a = mem a
}.

(** ** The heap *)

(** [HsmDmaAlloc]: the layout is an array of bytes, known by its size. *)
Record HsmDmaAlloc : Set := mkAlloc { ptr : Z; size : nat; layout : nat }.

Record HsmDmaHeapImpl (H : Type) : Type := mkHeap {
  heap : H;
  pool : list HsmDmaAlloc; (* a [Vec]: its end is the head of the list *)
  mem : memory
}.
Arguments mkHeap {H}. Arguments heap {H}. Arguments pool {H}. Arguments mem {H}.

Module DmaHeap.
Section heap.
Context `{HF : FirstFit H}.
Abbreviation HM := (M (HsmDmaHeapImpl H) Empty_set).

Definition POOL_SIZE : nat := 64.
Definition POOL_ALLOC_SIZE_REQ_RESP : nat := 3584.

(** [Layout::array::<u8>(size).unwrap()]: at most [isize::MAX] bytes. *)
Definition layout_array (size : nat) : HM nat :=
  if (Z.of_nat size <? 2 ^ 31)%Z then mret size else lift Panic.

Definition allocate_block (n : nat) : HM (option Z) := λ s,
  match allocate_first_fit n (heap s) (mem s) with
  | Some (p, h, m) => (Ok (Some p), mkHeap h (pool s) m)
  | None => (Ok None, s)
  end.
Definition zero (p : Z) (n : nat) : HM () :=
  modify (λ s, mkHeap (heap s) (pool s) (fill p n 0 (mem s))).
Definition push (a : HsmDmaAlloc) : HM () :=
  modify (λ s, mkHeap (heap s) (a :: pool s) (mem s)).

(** One turn of the loop of [populate_pool]. *)
Definition populate_one : HM () :=
  l ← layout_array POOL_ALLOC_SIZE_REQ_RESP;
  o ← allocate_block l;
  match o with
  | None => lift Panic
  | Some p =>
      _ ← zero p l;
      push (mkAlloc p POOL_ALLOC_SIZE_REQ_RESP l)
  end.
Fixpoint populate_pool (n : nat) : HM () :=
  match n with 0 => mret tt | S n => _ ← populate_one; populate_pool n end.

(** [HsmDmaHeap::new]. *)
Definition new (start size : Z) (mem : memory) : outcome Empty_set () * HsmDmaHeapImpl H :=
  populate_pool POOL_SIZE (mkHeap (heap_new start (Z.to_nat size)) [] mem).

Definition allocate (size : nat) : HM (option HsmDmaAlloc) :=
  l ← layout_array size;
  o ← allocate_block l;
  match o with
  | None => mret None
  | Some p => _ ← zero p l; mret (Some (mkAlloc p size l))
  end.

Definition allocate_from_pool (size : nat) : HM (option HsmDmaAlloc) := λ s,
  if size <=? POOL_ALLOC_SIZE_REQ_RESP then
    match pool s with
    | a :: rest => (Ok (Some (mkAlloc (ptr a) size (layout a))), mkHeap (heap s) rest (mem s))
    | [] => (Ok None, s)
    end
  else (Ok None, s).

Definition deallocate (a : HsmDmaAlloc) : HM () :=
  _ ← zero (ptr a) (size a);
  s ← get;
  if (layout a =? POOL_ALLOC_SIZE_REQ_RESP) && (length (pool s) <? POOL_SIZE) then
    push (mkAlloc (ptr a) POOL_ALLOC_SIZE_REQ_RESP (layout a))
  else λ s,
    let '(h, m) := heap_deallocate (ptr a) (layout a) (heap s) (mem s) in
    (Ok tt, mkHeap h (pool s) m).

(** [as_ref]; a store through [as_ref_mut], whose slice has [size] bytes. *)
Definition as_ref (a : HsmDmaAlloc) (s : HsmDmaHeapImpl H) : list Z := slice (mem s) (ptr a) (size a).
Definition store (a : HsmDmaAlloc) (i : nat) (v : Z) : HM () := λ s,
  if i <? size a then (Ok tt, mkHeap (heap s) (pool s) (fill (ptr a + Z.of_nat i) 1 v (mem s)))
  else (Panic, s).

Fixpoint store_all (a : HsmDmaAlloc) (i : nat) (bs : list Z) : HM () :=
  match bs with [] => mret tt | b :: bs => _ ← store a i b; store_all a (S i) bs end.

Definition copy_allocate (bs : list Z) : HM (option HsmDmaAlloc) :=
  o ← allocate (length bs);
  match o with
  | None => mret None
  | Some a => _ ← store_all a 0 bs; mret (Some a)
  end.

End heap.
End DmaHeap.
