(* ===== verification/DmaHeapProps.v ===== *)
(** * Correctness of the DMA buffers

    Whatever the order of allocations, writes and drops: buffers never
    overlap, a new buffer holds nothing of an earlier request, and the pool
    serves as long as fewer than 64 buffers are out. *)

From stdpp Require Import base list numbers option.
From S2P Require Import Prelude.
From S2P Require Import DmaHeap.

(** ** Blocks that are apart *)

Lemma apart_sym b c : apart b c → apart c b.
Proof. unfold apart. tauto. Qed.

Lemma separate_perm l l' : l ≡ₚ l' → separate l → separate l'.
Proof.
  induction 1 as [|b l l' Hp IH|b c l|l l' l'' _ IH1 _ IH2]; cbn; [done| |..].
  - intros [Hb Hl]. split; [by rewrite <-Hp|auto].
  - intros [[Hcb Hc]%Forall_cons_iff [Hb Hl]]. rewrite Forall_cons_iff. auto using apart_sym.
  - auto.
Qed.

Lemma separate_elem b l c : separate (b :: l) → c ∈ l → apart b c.
Proof. intros [Hb _] Hc. rewrite Forall_forall in Hb. apply Hb. by rewrite <-list_elem_of_In. Qed.

Lemma apart_outside b c a : apart b c → inside b a → ¬ inside c a.
Proof. unfold apart, inside. destruct b, c. cbn. lia. Qed.

(** ** Memory *)

Lemma fill_inside p n v m a : inside (p, n) a → fill p n v m a = v.
Proof. intros H. unfold fill. by rewrite decide_True. Qed.
Lemma fill_outside p n v m a : ¬ inside (p, n) a → fill p n v m a = m a.
Proof. intros H. unfold fill. by rewrite decide_False. Qed.

Lemma slice_zero m p n : (∀ a, inside (p, n) a → m a = 0%Z) → slice m p n = replicate n 0%Z.
Proof.
  intros Hz. apply list_eq_same_length with n; unfold slice; rewrite ?length_fmap, ?length_seq, ?length_replicate; try done.
  intros i x y Hi Hx Hy. apply lookup_replicate in Hy as [-> _].
  rewrite list_lookup_fmap, lookup_seq_lt in Hx by done. cbn in Hx. injection Hx as <-.
  apply Hz. unfold inside. cbn. lia.
Qed.

Definition block_of (a : HsmDmaAlloc) : block := (ptr a, layout a).

(** The bytes of a block from an offset on are zero. *)
Definition zero_from (m : memory) (a : HsmDmaAlloc) (off : nat) : Prop :=
  ∀ x, inside (block_of a) x → (ptr a + Z.of_nat off ≤ x)%Z → m x = 0%Z.

Definition in_pool (m : memory) (a : HsmDmaAlloc) : Prop :=
  size a = DmaHeap.POOL_ALLOC_SIZE_REQ_RESP ∧ layout a = DmaHeap.POOL_ALLOC_SIZE_REQ_RESP ∧ zero_from m a 0.
Definition in_use (m : memory) (a : HsmDmaAlloc) : Prop :=
  size a ≤ layout a ∧ zero_from m a (size a).

Definition pooled (a : HsmDmaAlloc) : bool := layout a =? DmaHeap.POOL_ALLOC_SIZE_REQ_RESP.
Definition pooled_count (l : list HsmDmaAlloc) : nat := length (filter (λ a, pooled a = true) l).

(** Memory that agrees on a block keeps what is known of it. *)
Definition same_on (m m' : memory) (a : HsmDmaAlloc) : Prop := ∀ x, inside (block_of a) x → m' x = m x.

Lemma in_pool_same m m' a : same_on m m' a → in_pool m a → in_pool m' a.
Proof. intros Hs (? & ? & Hz). split_and!; [done..|]. intros x Hx Ho. rewrite Hs by done. by apply Hz. Qed.
Lemma in_use_same m m' a : same_on m m' a → in_use m a → in_use m' a.
Proof. intros Hs (? & Hz). split; [done|]. intros x Hx Ho. rewrite Hs by done. by apply Hz. Qed.

Lemma Forall_same (Q : memory → HsmDmaAlloc → Prop) m m' l :
  (∀ a, same_on m m' a → Q m a → Q m' a) → (∀ a, a ∈ l → same_on m m' a) → Forall (Q m) l → Forall (Q m') l.
Proof.
  intros HQ Hs Hl. apply Forall_forall. intros a Ha. rewrite <-list_elem_of_In in Ha.
  apply HQ; [by apply Hs|]. rewrite Forall_forall in Hl. apply Hl. by rewrite <-list_elem_of_In.
Qed.

Section heap.
Context `{HF : FirstFit H}.
Abbreviation state := (HsmDmaHeapImpl H * list HsmDmaAlloc)%type.

(** The heap and the buffers that are out. *)
Record heap_inv (x : state) : Prop := {
  hi_live : live (heap x.1) ≡ₚ block_of <$> pool x.1 ++ x.2;
  hi_separate : separate (block_of <$> pool x.1 ++ x.2);
  hi_length : length (pool x.1) ≤ DmaHeap.POOL_SIZE;
  hi_pool : Forall (in_pool (mem x.1)) (pool x.1);
  hi_held : Forall (in_use (mem x.1)) x.2
}.

Lemma inv_live x : heap_inv x → separate (live (heap x.1)).
Proof. intros Hx. eapply separate_perm; [symmetry; apply Hx|apply Hx]. Qed.

Lemma inv_same (x : state) m' : heap_inv x →
  (∀ b a, b ∈ live (heap x.1) → inside b a → m' a = mem x.1 a) →
  Forall (in_pool m') (pool x.1) ∧ Forall (in_use m') x.2.
Proof.
  intros Hx Hm.
  assert (∀ a, a ∈ pool x.1 ++ x.2 → same_on (mem x.1) m' a) as Hs.
  { intros a Ha y Hy. apply (Hm (block_of a)); [|done]. rewrite (hi_live _ Hx). by apply list_elem_of_fmap_2. }
  split.
  - eapply Forall_same; [apply in_pool_same| |apply Hx]. intros a Ha. apply Hs. rewrite elem_of_app. auto.
  - eapply Forall_same; [apply in_use_same| |apply Hx]. intros a Ha. apply Hs. rewrite elem_of_app. auto.
Qed.

(** ** A block from the allocator, zeroed *)

Lemma block_inv n (s : HsmDmaHeapImpl H) held p h m :
  heap_inv (s, held) → allocate_first_fit n (heap s) (mem s) = Some (p, h, m) →
  let m' := fill p n 0 m in
  live h ≡ₚ (p, n) :: (block_of <$> pool s ++ held) ∧
  separate ((p, n) :: (block_of <$> pool s ++ held)) ∧
  Forall (in_pool m') (pool s) ∧ Forall (in_use m') held.
Proof.
  intros Hx E. cbn zeta. pose proof (inv_live _ Hx) as Hsep.
  apply live_allocate in E as (Hl & Hs & Hm); [|exact Hsep].
  rewrite (hi_live _ Hx) in Hl. split; [exact Hl|].
  split; [by eapply separate_perm; [|exact Hs]; apply perm_skip, Hx|].
  apply (inv_same (s, held) (fill p n 0 m)); [done|]. intros b a Hb Ha.
  rewrite fill_outside; [by apply (Hm b)|].
  apply apart_outside with b; [|done]. apply apart_sym. by eapply separate_elem.
Qed.

Lemma zeroed_in_use p n m : in_use (fill p n 0 m) (mkAlloc p n n).
Proof. split; [done|]. intros x Hx Ho. by apply fill_inside. Qed.

Lemma allocate_inv n s held a s' :
  heap_inv (s, held) → DmaHeap.allocate n s = (Ok (Some a), s') →
  heap_inv (s', a :: held) ∧ a = mkAlloc (ptr a) n n ∧ DmaHeap.as_ref a s' = replicate n 0%Z.
Proof.
  intros Hx. unfold DmaHeap.allocate, DmaHeap.layout_array, mbind, M_bind.
  destruct (_ <? _)%Z; [|done]. cbn. unfold DmaHeap.allocate_block.
  destruct (allocate_first_fit n (heap s) (mem s)) as [[[p h] m]|] eqn:E; [|done].
  cbn. intros [= <- <-]. destruct (block_inv _ _ _ _ _ _ Hx E) as (Hl & Hs & Hp & Hh).
  assert ((p, n) :: (block_of <$> pool s ++ held) ≡ₚ block_of <$> pool s ++ mkAlloc p n n :: held) as Hperm.
  { rewrite !fmap_app, fmap_cons. by apply Permutation_middle. }
  split_and!; [|done|].
  - split; cbn; [by rewrite Hl|by eapply separate_perm|apply Hx|done|].
    constructor; [apply zeroed_in_use|done].
  - apply slice_zero. intros a Ha. by apply fill_inside.
Qed.

Lemma allocate_from_pool_inv n s held a s' :
  heap_inv (s, held) → DmaHeap.allocate_from_pool n s = (Ok (Some a), s') →
  heap_inv (s', a :: held) ∧ (size a = n ∧ layout a = DmaHeap.POOL_ALLOC_SIZE_REQ_RESP) ∧
  DmaHeap.as_ref a s' = replicate n 0%Z.
Proof.
  intros Hx. unfold DmaHeap.allocate_from_pool. destruct (Nat.leb_spec n DmaHeap.POOL_ALLOC_SIZE_REQ_RESP) as [Hn|]; [|done].
  destruct (pool s) as [|b rest] eqn:Ep; [done|]. intros [= <- <-].
  pose proof (hi_pool _ Hx) as Hpool. cbn in Hpool. rewrite Ep in Hpool.
  apply Forall_cons_iff in Hpool as [(Hs & Hl & Hz) Hrest].
  set (a := mkAlloc (ptr b) n (layout b)).
  assert (block_of <$> pool s ++ held ≡ₚ block_of <$> rest ++ a :: held) as Hperm.
  { rewrite Ep, !fmap_app, !fmap_cons. apply Permutation_middle. }
  split_and!; [|done|done|].
  - split; cbn; [rewrite (hi_live _ Hx); exact Hperm|eapply separate_perm; [exact Hperm|apply Hx]| |done|].
    + pose proof (hi_length _ Hx). cbn in *. rewrite Ep in *. cbn in *. lia.
    + constructor; [|apply Hx]. split; [cbn; lia|]. intros x Hin Ho. apply Hz; [done|]. cbn in *. lia.
  - apply slice_zero. intros x Hin. apply Hz; unfold inside, block_of in *; cbn in *; lia.
Qed.

(** ** Writing and dropping *)

(** Changing a block that is out leaves every other one alone. *)
Lemma others_same (s : HsmDmaHeapImpl H) held a m' :
  separate (block_of a :: (block_of <$> pool s ++ held)) →
  Forall (in_pool (mem s)) (pool s) → Forall (in_use (mem s)) held →
  (∀ x, ¬ inside (block_of a) x → m' x = mem s x) →
  Forall (in_pool m') (pool s) ∧ Forall (in_use m') held.
Proof.
  intros Hs Hp Hh Hm.
  assert (∀ b, b ∈ pool s ++ held → same_on (mem s) m' b) as Hb.
  { intros b Hb x Hx. apply Hm. apply apart_outside with (block_of b); [|done].
    apply apart_sym. eapply separate_elem; [exact Hs|]. by apply list_elem_of_fmap_2. }
  split.
  - eapply Forall_same; [apply in_pool_same| |done]. intros b ?. apply Hb. rewrite elem_of_app. auto.
  - eapply Forall_same; [apply in_use_same| |done]. intros b ?. apply Hb. rewrite elem_of_app. auto.
Qed.

(** The invariant does not see the order of the buffers that are out. *)
Lemma inv_perm (s : HsmDmaHeapImpl H) held held' : held ≡ₚ held' → heap_inv (s, held) → heap_inv (s, held').
Proof.
  intros Hp Hx. assert (block_of <$> pool s ++ held ≡ₚ block_of <$> pool s ++ held') as Hb by (by rewrite Hp).
  split; cbn; [rewrite <-Hb; apply Hx|eapply separate_perm; [exact Hb|apply Hx]|apply Hx|apply Hx|].
  rewrite <-Hp. apply Hx.
Qed.

(** One buffer taken apart from the others. *)
Lemma inv_one (s : HsmDmaHeapImpl H) a held : heap_inv (s, a :: held) →
  separate (block_of a :: (block_of <$> pool s ++ held)) ∧ in_use (mem s) a ∧ Forall (in_use (mem s)) held.
Proof.
  intros Hx. pose proof (hi_held _ Hx) as Hh. cbn in Hh. apply Forall_cons_iff in Hh as [Ha Hh].
  split; [|done]. eapply separate_perm; [|apply Hx]. cbn. rewrite !fmap_app, fmap_cons.
  symmetry. apply Permutation_middle.
Qed.

Lemma store_inv a i v (s : HsmDmaHeapImpl H) held s' :
  heap_inv (s, held) → a ∈ held → DmaHeap.store a i v s = (Ok tt, s') → heap_inv (s', held).
Proof.
  intros Hx Ha. unfold DmaHeap.store. destruct (Nat.ltb_spec i (size a)) as [Hi|]; [|done]. intros [= <-].
  apply elem_of_Permutation in Ha as [rest Hr]. symmetry in Hr. apply (inv_perm _ _ (a :: rest)) in Hx; [|done].
  apply (inv_perm _ (a :: rest)); [done|]. destruct (inv_one _ _ _ Hx) as (Hs & (Hsz & Hz) & Hh).
  set (m' := fill (ptr a + Z.of_nat i) 1 v (mem s)).
  assert (∀ x, ¬ inside (ptr a, size a) x → m' x = mem s x) as Hm.
  { intros x Hn. apply fill_outside. unfold inside in *. cbn in *. lia. }
  destruct (others_same s rest a m') as [Hp' Hh']; [done|apply Hx|done| |].
  { intros x Hn. apply Hm. unfold inside, block_of in *. cbn in *. lia. }
  split; cbn; [apply Hx|apply Hx|apply Hx|done|]. constructor; [|done]. split; [done|].
  intros x Hin Ho. rewrite Hm; [by apply Hz|]. unfold inside. cbn. lia.
Qed.

Lemma pooled_count_perm l l' : l ≡ₚ l' → pooled_count l = pooled_count l'.
Proof. intros Hp. unfold pooled_count. by rewrite Hp. Qed.
Lemma pooled_count_cons a l : pooled_count (a :: l) = (if pooled a then 1 else 0) + pooled_count l.
Proof.
  unfold pooled_count. rewrite filter_cons. destruct (pooled a); [rewrite decide_True|rewrite decide_False]; done.
Qed.

Lemma deallocate_eq a (s : HsmDmaHeapImpl H) :
  DmaHeap.deallocate a s =
    let m := fill (ptr a) (size a) 0 (mem s) in
    if pooled a && (length (pool s) <? DmaHeap.POOL_SIZE) then
      (Ok tt, mkHeap (heap s) (mkAlloc (ptr a) DmaHeap.POOL_ALLOC_SIZE_REQ_RESP (layout a) :: pool s) m)
    else
      let '(h, m) := heap_deallocate (ptr a) (layout a) (heap s) m in (Ok tt, mkHeap h (pool s) m).
Proof.
  unfold DmaHeap.deallocate, mbind, M_bind, DmaHeap.zero, modify, get. cbn [pool].
  unfold pooled. by destruct (_ && _).
Qed.

(** A block given back to the allocator. *)
Lemma freed_inv (s : HsmDmaHeapImpl H) held p n h m :
  live (heap s) ≡ₚ (p, n) :: (block_of <$> pool s ++ held) →
  separate ((p, n) :: (block_of <$> pool s ++ held)) → length (pool s) ≤ DmaHeap.POOL_SIZE →
  Forall (in_pool (mem s)) (pool s) → Forall (in_use (mem s)) held →
  heap_deallocate p n (heap s) (mem s) = (h, m) → heap_inv (mkHeap h (pool s) m, held).
Proof.
  intros Hl Hs Hlen Hp Hh E.
  apply (live_deallocate _ _ (block_of <$> pool s ++ held)) in E as [Hl' Hm];
    [|eapply separate_perm; [symmetry; exact Hl|exact Hs]|exact Hl].
  assert (∀ b, b ∈ pool s ++ held → same_on (mem s) m b) as Hb.
  { intros b Hb x Hx. apply (Hm (block_of b)); [by apply list_elem_of_fmap_2|done]. }
  split; cbn; [done|by destruct Hs|done| |].
  - eapply Forall_same; [apply in_pool_same| |done]. intros b ?. apply Hb. rewrite elem_of_app. auto.
  - eapply Forall_same; [apply in_use_same| |done]. intros b ?. apply Hb. rewrite elem_of_app. auto.
Qed.

(** A buffer that is dropped goes back to the pool or to the heap; the pool
    loses nothing. *)
Lemma deallocate_inv a (s : HsmDmaHeapImpl H) held r s' :
  heap_inv (s, a :: held) → DmaHeap.deallocate a s = (r, s') →
  r = Ok tt ∧ heap_inv (s', held) ∧
  (length (pool s) + pooled_count (a :: held) ≥ DmaHeap.POOL_SIZE →
   length (pool s') + pooled_count held ≥ DmaHeap.POOL_SIZE).
Proof.
  intros Hx. destruct (inv_one _ _ _ Hx) as (Hs & (Hsz & Hz) & Hh).
  set (m' := fill (ptr a) (size a) 0 (mem s)).
  destruct (others_same s held a m') as [Hp' Hh']; [done|apply Hx|done| |].
  { intros x Hn. apply fill_outside. unfold inside, block_of in *. cbn in *. lia. }
  assert (zero_from m' a 0) as Hz'.
  { intros x Hin _. unfold m', fill. case_decide as Hd; [done|]. apply Hz; [done|].
    unfold inside, block_of in *. cbn in *. lia. }
  assert (live (heap s) ≡ₚ block_of a :: (block_of <$> pool s ++ held)) as Hl.
  { rewrite (hi_live _ Hx). cbn. rewrite !fmap_app, fmap_cons. symmetry. apply Permutation_middle. }
  rewrite pooled_count_cons, deallocate_eq. fold m'. cbn zeta.
  unfold pooled. destruct (Nat.eqb_spec (layout a) DmaHeap.POOL_ALLOC_SIZE_REQ_RESP) as [El|El]; cbn [andb].
  1: destruct (Nat.ltb_spec (length (pool s)) DmaHeap.POOL_SIZE) as [Hc|Hc].
  1: { intros [= <- <-]. split_and!; [done| |cbn [pool length]; lia].
       split; cbn; [exact Hl|exact Hs|unfold DmaHeap.POOL_SIZE in *; lia|constructor; [done|done]|done]. }
  all: destruct (heap_deallocate _ _ _ _) as [h m2] eqn:Ed; intros [= <- <-].
  all: split_and!; [done| |cbn [pool]; lia].
  all: eapply (freed_inv (mkHeap (heap s) (pool s) m')); [| | | | |exact Ed]; try done; apply Hx.
Qed.

(** ** Any order of operations *)

Lemma populate_one_inv (s : HsmDmaHeapImpl H) s' :
  heap_inv (s, []) → length (pool s) < DmaHeap.POOL_SIZE → DmaHeap.populate_one s = (Ok tt, s') →
  heap_inv (s', []) ∧ length (pool s') = S (length (pool s)).
Proof.
  intros Hx Hlt. unfold DmaHeap.populate_one, DmaHeap.layout_array, DmaHeap.allocate_block, mbind, M_bind.
  set (n := DmaHeap.POOL_ALLOC_SIZE_REQ_RESP). destruct (_ <? _)%Z; [|done].
  unfold mret at 1, M_ret at 1. destruct (allocate_first_fit n (heap s) (mem s)) as [[[p h] m]|] eqn:E; [|done].
  intros [= <-]. destruct (block_inv _ _ _ _ _ _ Hx E) as (Hl & Hs & Hp & Hh).
  split; [|done]. split; cbn [fst snd heap pool mem app length]; [exact Hl|exact Hs|lia| |done].
  constructor; [|done]. split_and!; [done..|]. intros x Hin _. by apply fill_inside.
Qed.

Lemma populate_pool_inv n (s : HsmDmaHeapImpl H) s' :
  heap_inv (s, []) → length (pool s) + n ≤ DmaHeap.POOL_SIZE → DmaHeap.populate_pool n s = (Ok tt, s') →
  heap_inv (s', []) ∧ length (pool s') = length (pool s) + n.
Proof.
  revert s. induction n as [|n IH]; intros s Hx Hn.
  - intros [= <-]. split; [done|lia].
  - intros ([] & s1 & [Hx1 Hl1]%populate_one_inv & E)%M_bind_Ok; [|done|lia].
    apply IH in E as [Hx' Hl']; [|done|lia]. split; [done|lia].
Qed.

(** What requests do with buffers. *)
Inductive step : state → state → Prop :=
  | step_pool n s held a s' :
      DmaHeap.allocate_from_pool n s = (Ok (Some a), s') → step (s, held) (s', a :: held)
  | step_allocate n s held a s' :
      DmaHeap.allocate n s = (Ok (Some a), s') → step (s, held) (s', a :: held)
  | step_store a i v s held s' :
      a ∈ held → DmaHeap.store a i v s = (Ok tt, s') → step (s, held) (s', held)
  | step_drop a s held held' s' :
      held ≡ₚ a :: held' → DmaHeap.deallocate a s = (Ok tt, s') → step (s, held) (s', held').

Inductive reachable : state → Prop :=
  | reach_new start size m s : DmaHeap.new start size m = (Ok tt, s) → reachable (s, [])
  | reach_step x x' : reachable x → step x x' → reachable x'.

(** The pool and the buffers of its size that are out. *)
Definition enough (x : state) : Prop := length (pool x.1) + pooled_count x.2 ≥ DmaHeap.POOL_SIZE.

Lemma new_inv start size m s : DmaHeap.new start size m = (Ok tt, s) → heap_inv (s, []) ∧ enough (s, []).
Proof.
  intros [Hx Hl]%populate_pool_inv.
  - split; [done|]. unfold enough. cbn [fst]. rewrite Hl. cbn [pool length snd]. lia.
  - split; cbn; rewrite ?live_new; (done || unfold DmaHeap.POOL_SIZE; lia).
  - cbn. lia.
Qed.

Lemma step_inv x x' : step x x' → heap_inv x ∧ enough x → heap_inv x' ∧ enough x'.
Proof.
  destruct 1 as [n s held a s' E|n s held a s' E|a i v s held s' Ha E|a s held held' s' Hp E]; intros [Hx Hn].
  - pose proof (allocate_from_pool_inv _ _ _ _ _ Hx E) as (Hx' & [_ Hl] & _). split; [done|].
    unfold enough in *. cbn [fst snd] in *. rewrite pooled_count_cons. unfold pooled. rewrite Hl.
    unfold DmaHeap.allocate_from_pool in E. destruct (_ <=? _); [|done]. destruct (pool s); [done|].
    injection E as <- <-. cbn in *. lia.
  - pose proof (allocate_inv _ _ _ _ _ Hx E) as (Hx' & _ & _). split; [done|].
    unfold enough in *. cbn [fst snd] in *. rewrite pooled_count_cons.
    unfold DmaHeap.allocate, DmaHeap.layout_array, DmaHeap.allocate_block, mbind, M_bind in E.
    destruct (_ <? _)%Z; [|done]. cbn in E.
    destruct (allocate_first_fit _ _ _) as [[[]]|]; [|done]. injection E as <- <-. cbn [pool]. lia.
  - split; [by eapply store_inv|]. unfold DmaHeap.store in E. destruct (_ <? _); [|done]. by injection E as <-.
  - apply (inv_perm _ _ (a :: held')) in Hx; [|done]. unfold enough in *. cbn [fst snd] in *.
    rewrite (pooled_count_perm _ _ Hp) in Hn. destruct (deallocate_inv _ _ _ _ _ Hx E) as (_ & Hx' & Hn').
    auto.
Qed.

Lemma reachable_inv x : reachable x → heap_inv x ∧ enough x.
Proof. induction 1; [by eapply new_inv|eauto using step_inv]. Qed.

(** The bytes of a buffer, and of two buffers that share none. *)
Definition overlap (a b : HsmDmaAlloc) : Prop := ∃ x, inside (block_of a) x ∧ inside (block_of b) x.

Lemma new_disjoint (s : HsmDmaHeapImpl H) a held b : heap_inv (s, a :: held) → b ∈ held → ¬ overlap a b.
Proof.
  intros Hx Hb (x & H1 & H2). destruct (inv_one _ _ _ Hx) as (Hs & _).
  apply (apart_outside (block_of a) (block_of b) x); [|done..].
  eapply separate_elem; [exact Hs|]. apply list_elem_of_fmap_2. rewrite elem_of_app. auto.
Qed.

(** C11: nothing leaks from one request to another through buffers.  After any
    allocations, writes and drops, a buffer taken from the pool or from the
    heap has the size asked for, is entirely zero, although a drop clears
    only the bytes the last owner had asked for, and shares no byte with a
    buffer that is still in use. *)
Theorem buffers_clean_and_disjoint (s s' : HsmDmaHeapImpl H) (held : list HsmDmaAlloc)
    (n : nat) (a : HsmDmaAlloc) :
  reachable (s, held) →
  DmaHeap.allocate_from_pool n s = (Ok (Some a), s') ∨ DmaHeap.allocate n s = (Ok (Some a), s') →
  DmaHeap.as_ref a s' = replicate n 0%Z ∧ ∀ b, b ∈ held → ¬ overlap a b.
Proof.
  intros [Hx _]%reachable_inv [E|E].
  - destruct (allocate_from_pool_inv _ _ _ _ _ Hx E) as (Hx' & _ & Hz). eauto using new_disjoint.
  - destruct (allocate_inv _ _ _ _ _ Hx E) as (Hx' & _ & Hz). eauto using new_disjoint.
Qed.

(** C29: the pool serves every request of at most 3584 bytes while fewer than
    64 buffers of its size are out, whatever was allocated from the heap and
    dropped before; it never serves a larger one; and its length never
    exceeds 64. *)
Theorem pool_serves (s : HsmDmaHeapImpl H) (held : list HsmDmaAlloc) (n : nat) :
  reachable (s, held) →
  length (pool s) ≤ DmaHeap.POOL_SIZE ∧
  (n ≤ DmaHeap.POOL_ALLOC_SIZE_REQ_RESP → pooled_count held < DmaHeap.POOL_SIZE →
   ∃ a s', DmaHeap.allocate_from_pool n s = (Ok (Some a), s') ∧ size a = n) ∧
  (DmaHeap.POOL_ALLOC_SIZE_REQ_RESP < n → DmaHeap.allocate_from_pool n s = (Ok None, s)).
Proof.
  intros [Hx Hn]%reachable_inv. split; [apply Hx|].
  unfold enough in Hn. cbn [fst snd] in *. unfold DmaHeap.allocate_from_pool. split.
  - intros Hd Hlt. rewrite (proj2 (Nat.leb_le _ _) Hd). destruct (pool s); [cbn in Hn; lia|]. eauto.
  - intros Hd. by rewrite (proj2 (Nat.leb_gt _ _)) by lia.
Qed.

End heap.

(** ** Witnesses: an allocator that never reuses addresses below a live block *)

Fixpoint top (l : list block) : Z := match l with [] => 0 | b :: l => Z.max (b.1 + Z.of_nat b.2) (top l) end.
Fixpoint remove_block (b : block) (l : list block) : list block :=
  match l with [] => [] | c :: l => if decide (b = c) then l else c :: remove_block b l end.

Lemma top_apart n l : Forall (apart (top l, n)) l.
Proof.
  assert (∀ t, (top l ≤ t)%Z → Forall (apart (t, n)) l) as H; [|by apply H].
  induction l as [|b l IH]; cbn; intros t Ht; [done|]. constructor; [right; cbn; lia|apply IH; lia].
Qed.

Lemma remove_block_perm b l l' : l ≡ₚ b :: l' → remove_block b l ≡ₚ l'.
Proof.
  intros Hp. assert (b ∈ l) as Hb by (rewrite Hp; apply list_elem_of_here).
  apply (Permutation_cons_inv (a := b)). rewrite <-Hp. clear Hp.
  induction l as [|c l IH]; [by apply not_elem_of_nil in Hb|]. cbn. case_decide as Hd; [by subst|].
  apply elem_of_cons in Hb as [->|Hb]; [done|]. rewrite <-(IH Hb) at 2. apply perm_swap.
Qed.

#[local] Instance top_first_fit : FirstFit (list block).
Proof.
  refine {| heap_new _ _ := [];
            allocate_first_fit n h m := Some (top h, (top h, n) :: h, m);
            heap_deallocate p n h m := (remove_block (p, n) h, m);
            live h := h |}.
  - done.
  - intros n h m p h' m' Hs [= <- <- <-]. split_and!; [done|split; [apply top_apart|done]|done].
  - intros p n l h m h' m' Hs Hp [= <- <-]. split; [by apply remove_block_perm|done].
Defined.

Definition sample_heap : HsmDmaHeapImpl (list block) := (DmaHeap.new 0 0 (λ _, 7%Z)).2.

Lemma sample_reachable : reachable (sample_heap, []).
Proof.
  apply (reach_new 0 0 (λ _, 7%Z)).
  assert ((DmaHeap.new (H:=list block) 0 0 (λ _, 7%Z)).1 = Ok tt) as E by (vm_compute; reflexivity).
  unfold sample_heap. revert E. generalize (DmaHeap.new (H:=list block) 0 0 (λ _, 7%Z)).
  intros [r s]. cbn [fst snd]. by intros ->.
Qed.

Lemma buffers_clean_and_disjoint_witness :
  ∃ a s', DmaHeap.allocate_from_pool 5 sample_heap = (Ok (Some a), s') ∧
    DmaHeap.as_ref a s' = replicate 5 0%Z.
Proof.
  destruct (DmaHeap.allocate_from_pool 5 sample_heap) as [[[a|]|[]|] s'] eqn:E.
  - exists a, s'. split; [reflexivity|].
    exact (proj1 (buffers_clean_and_disjoint sample_heap s' [] 5 a sample_reachable (or_introl E))).
  - apply (f_equal fst) in E. vm_compute in E. discriminate.
  - apply (f_equal fst) in E. vm_compute in E. discriminate.
Defined.

Lemma pool_serves_witness :
  ∃ a s', DmaHeap.allocate_from_pool 5 sample_heap = (Ok (Some a), s') ∧ size a = 5.
Proof.
  destruct (pool_serves sample_heap [] 5 sample_reachable) as (_ & H & _).
  apply H.
  - unfold DmaHeap.POOL_ALLOC_SIZE_REQ_RESP. lia.
  - unfold DmaHeap.POOL_SIZE, pooled_count. cbn. lia.
Defined.
