(* ===== verification/SessionCmds.v ===== *)
(** * The commands that close a session or delete a key
      (fsm/close_session.rs, flush_session.rs, delete_key.rs)

    They are split in two by a message to the fast-path processor, which
    forgets its copies of the keys before the vault does: the first half
    invalidates the session or the key and sends the message, the second half
    deletes when the answer arrives.  The IPC channel is an environment of
    answers with a trace of the calls made to it. *)

From stdpp Require Import base list numbers option.
From S2P Require Import Prelude.
From S2P Require Import HsmError.
From S2P Require Import KeyEntry.
From S2P Require Import Crates.
From S2P Require Import KeyTable.
From S2P Require Import KeyStore.
From S2P Require Import StoreInterface.
From S2P Require Import VaultKeys.
From S2P Require Import KeyVault.
From S2P Require Import SessionTable.
From S2P Require Import CmdResource.
From S2P Require Import Mbor.
From S2P Require Import Wire.
From S2P Require Import IpcChannel.
From S2P Require Import IpcMessages.
From S2P Require Import IpcMessageTypes.
From S2P Require Import CdmaVault.
From S2P Require Import Partition.
From S2P Require Import DdiCodec.
From S2P Require Import DdiTypes.
From S2P Require Import HsmFsm.

(** ** The channel to the fast path and the heap *)

Inductive fp_call : Type :=
  | FpAcquire (ok : bool)
  | FpSend (m : message KeyUpdateInfo) (ok : bool)
  | FpReceive
  | FpAlloc (size : nat).

(** The answers; the [nat] is the number of calls before. *)
Record FpEnv : Type := mkFpEnv {
  fe_acquire : nat → bool;
  fe_send : nat → bool;
  fe_receive : nat → option IpcMessage;
  fe_alloc : nat → nat → option Z;
  fe_fips_approved : bool
}.

Record CmdWorld : Type := mkCmdWorld { cw_part : World; cw_calls : list fp_call }.

(** The operations started here that the fast path answers. *)
Inductive AesBulk256Cmd : Set :=
  | CloseAppSession (id : nat)
  | DeleteKeyOp (cdma_key_id key_id : Z).

Inductive CmdState : Set := Init | WaitForResource | WaitForCmd | Final.

Module SessionCmds.
Section cmds.
Context `{ZC : Zerocopy, ZZ : Zeroize, BC : BitCrate, RNG : Rng}.
Variable cdma_vault_addr : Z.
Variable env : FpEnv.

Abbreviation CM := (M CmdWorld HsmErr).

Definition on_part {A} (m : M World HsmErr A) : CM A := λ c,
  let '(r, w) := m (cw_part c) in (r, mkCmdWorld w (cw_calls c)).
Definition world : CM World := λ c, (Ok (cw_part c), c).
Definition call {A} (answer : nat → A) (entry : A → fp_call) : CM A := λ c,
  let a := answer (length (cw_calls c)) in
  (Ok a, mkCmdWorld (cw_part c) (cw_calls c ++ [entry a])).

(** [fp_ipc_channel().acquire(tag, ()).ok_or(Pending)?] *)
Definition acquire : CM () := ok ← call (fe_acquire env) FpAcquire; unless ok HsmError.Pending.
(** [channel_ref.map(|c| c.send_request(tag, msg.encode()))] *)
Definition send (m : message KeyUpdateInfo) : CM () :=
  ok ← call (fe_send env) (FpSend m); unless ok IpcSendFailure.
Definition receive : CM (option IpcMessage) := call (fe_receive env) (λ _, FpReceive).

Definition key_update (i : KeyUpdateInfo) : message KeyUpdateInfo :=
  mkMessage (header KeyUpdate_default) i (rsvd KeyUpdate_default).
Definition session_only_flag (b : bool) : Z := Z.b2z b.

(** The status of the answer; [None] when there is none or it has no header. *)
Definition answer_status : CM (option Z) :=
  o ← receive;
  match o with
  | None => mret None
  | Some m =>
      match decode_header m with
      | Ok h => mret (Some (Header.get Header.status h))
      | Err _ => mret None
      | Panic => lift Panic
      end
  end.

(** ** Closing a session (part.rs) *)

Definition begin_close_user_session (pfn : Z) (id : nat) : CM AesBulk256Cmd :=
  w ← world;
  session ← lift (Part.user_session w id true);
  _ ← on_part (Session.invalidate session);
  w ← world;
  _ ← acquire;
  _ ← send (key_update (mkKeyUpdate 0 0 pfn KeyUpdateAction_DeleteEphemeral (Z.of_nat id)
              (Part.vault_id w) (session_only_flag true) (replicate 32 0%Z)));
  mret (CloseAppSession id).

Definition end_close_user_session (op : AesBulk256Cmd) : CM () :=
  match op with
  | CloseAppSession id =>
      s ← answer_status;
      match s with
      | Some s =>
          if (s =? status_code Success)%Z || (s =? status_code InvalidField)%Z
          then on_part (Part.close_user_session cdma_vault_addr id)
          else throw IpcResponseError
      | None => throw IpcResponseError
      end
  | _ => throw AesBulk256InvalidParameter
  end.

(** ** Deleting a bulk key (session/app_sess/aes.rs) *)

Definition disable_key (key_id : Z) : CM () := on_part (State.on_vault (λ I, Vault.disable_key key_id)).
(** [let _ = self.enable_key(key_id)] *)
Definition enable_key_ignored (key_id : Z) : CM () := λ c,
  match on_part (State.on_vault (λ I, Vault.enable_key key_id)) c with
  | (Panic, c) => (Panic, c)
  | (_, c) => (Ok tt, c)
  end.

Definition undo_aesbulk256_key_import (s : UserSession) (key_id cdma_key_id : Z) : CM () :=
  _ ← on_part (State.on_cdma cdma_vault_addr (λ v, Cdma.delete_key v cdma_key_id));
  on_part (Session.delete_key s key_id).

Definition begin_delete_aesbulk256_key (pfn : Z) (s : UserSession) (key_id : Z) : CM AesBulk256Cmd :=
  _ ← acquire;
  w ← world;
  let I := State.vault w in
  let sid := Z.of_nat (us_id s) in
  vault_key ← lift (Vault.key (I := I) (vault_mem w) (Part.vault_id w) sid key_id true);
  key_blob ← lift (VKey.blob (I := I) (vault_mem w) vault_key);
  b ← lift (slice key_blob 0 2);
  let cdma_key_id := from_le_bytes b in
  attributes ← lift (VKey.attributes (I := I) (vault_mem w) vault_key);
  let session_only := af_session (ca_flags (ea_common attributes)) in
  _ ← send (key_update (mkKeyUpdate (BulkId.key_index cdma_key_id) (BulkId.vault_id cdma_key_id) pfn
              KeyUpdateAction_Delete sid (Part.vault_id w) (session_only_flag session_only)
              (replicate 32 0%Z)));
  _ ← disable_key key_id;
  mret (DeleteKeyOp cdma_key_id key_id).

Definition end_delete_aesbulk256_key (s : UserSession) (op : AesBulk256Cmd) : CM () :=
  match op with
  | DeleteKeyOp cdma_key_id key_id =>
      st ← answer_status;
      match st with
      | Some st =>
          if negb (st =? status_code Success)%Z
          then _ ← enable_key_ignored key_id; throw IpcResponseError
          else
            _ ← enable_key_ignored key_id;
            undo_aesbulk256_key_import s key_id cdma_key_id
      | None => _ ← enable_key_ignored key_id; throw IpcResponseError
      end
  | _ => throw AesBulk256InvalidParameter
  end.

(** ** Buffers *)

Definition encode_buf (t : ddi_type) (v : denote t) : CM DmaBuffer :=
  o ← call (λ n, fe_alloc env n (Ddi.len t v 0)) (λ _, FpAlloc (Ddi.len t v 0));
  match o with
  | None => throw DmaAllocFailure
  | Some p =>
      match Ddi.encode t v (Enc.new (replicate (Ddi.len t v 0) 0%Z)) with
      | (Ok _, e) => mret (mkBuf p (e_buffer e))
      | (Err _, _) => throw DdiEncodeFailed
      | (Panic, _) => lift Panic
      end
  end.

Definition decode_buf (t : ddi_type) (buf : DmaBuffer) : CM (denote t) :=
  match Ddi.decode t (Dec.new (buf_data buf)) with
  | (Ok v, _) => mret v
  | (Err _, _) => throw DdiDecodeFailed
  | (Panic, _) => lift Panic
  end.

(** The header of a decoded request. *)
Definition req_of {fs} (d : denote (TyStruct (Msg.cmd_req fs))) : ReqHdr := hdr_of d.1.

(** The response of both commands: a header and no data. *)
Definition cmd_resp (op : Z) (rev : option DdiApiRev) (sess_id : option Z) :
    denote (TyStruct (Msg.cmd_resp FNil)) :=
  ((rev_to <$> rev, (op, (sess_id, (DdiStatus.Success, (fe_fips_approved env, tt))))), (tt, tt)).

(** ** [CloseSessionCmd] *)

Record CloseSessionCmd : Type := mkCloseSession {
  cs_state : CmdState;
  cs_req : DmaBuffer;
  cs_decoded_req : option ReqHdr;
  cs_resp : option DmaBuffer;
  cs_committed : bool;
  cs_op : option AesBulk256Cmd;
  cs_pfn : Z;
  cs_sess_id : option Z
}.

Definition close_new (req : DmaBuffer) (pfn : Z) : CloseSessionCmd :=
  mkCloseSession Init req None None false None pfn None.

Abbreviation CS := (M (CloseSessionCmd * CmdWorld) HsmErr).
Definition on_world {C A} (m : CM A) : M (C * CmdWorld) HsmErr A := λ '(c, w),
  let '(r, w) := m w in (r, (c, w)).
Definition self {C} : M (C * CmdWorld) HsmErr C := λ s, (Ok s.1, s).
Definition upd {C} (g : C → C) : M (C * CmdWorld) HsmErr () := modify (λ '(c, w), (g c, w)).
Definition try {S A} (m : M S HsmErr A) : M S HsmErr (outcome HsmErr A) := λ s,
  match m s with (Panic, s) => (Panic, s) | (r, s) => (Ok r, s) end.

Definition cs_set_state x c := mkCloseSession x (cs_req c) (cs_decoded_req c) (cs_resp c) (cs_committed c) (cs_op c) (cs_pfn c) (cs_sess_id c).
Definition cs_set_req x c := mkCloseSession (cs_state c) (cs_req c) x (cs_resp c) (cs_committed c) (cs_op c) (cs_pfn c) (cs_sess_id c).
Definition cs_set_resp x c := mkCloseSession (cs_state c) (cs_req c) (cs_decoded_req c) x (cs_committed c) (cs_op c) (cs_pfn c) (cs_sess_id c).
Definition cs_set_committed c := mkCloseSession (cs_state c) (cs_req c) (cs_decoded_req c) (cs_resp c) true (cs_op c) (cs_pfn c) (cs_sess_id c).
Definition cs_set_op x c := mkCloseSession (cs_state c) (cs_req c) (cs_decoded_req c) (cs_resp c) (cs_committed c) x (cs_pfn c) (cs_sess_id c).
Definition cs_set_sess_id x c := mkCloseSession (cs_state c) (cs_req c) (cs_decoded_req c) (cs_resp c) (cs_committed c) (cs_op c) (cs_pfn c) x.

(** Committing and answering. *)
Definition close_respond (h : ReqHdr) : CS () :=
  _ ← upd cs_set_committed;
  b ← on_world (encode_buf (TyStruct (Msg.cmd_resp Msg.DdiCloseSessionResp))
                  (cmd_resp DdiOp.CloseSession (hdr_rev h) (hdr_sess_id h)));
  _ ← upd (cs_set_resp (Some b));
  upd (cs_set_state Final).

(** The first half; [on_error] gives the error and the state after a failure. *)
Definition close_begin (sess_id : Z) (on_error : HsmErr → HsmErr * CmdState) : CS () :=
  c ← self;
  r ← try (on_world (begin_close_user_session (cs_pfn c) (Z.to_nat sess_id)));
  match r with
  | Ok op =>
      _ ← upd (cs_set_op (Some op));
      _ ← upd (cs_set_state WaitForCmd);
      throw HsmError.Pending
  | Err e => let '(e, st) := on_error e in _ ← upd (cs_set_state st); throw e
  | Panic => lift Panic
  end.

(** On the first try the command waits for the channel; when it was handed the
    channel it must get it. *)
Definition start_error (e : HsmErr) : HsmErr * CmdState :=
  (e, if HsmErr_pending e then WaitForResource else Final).
Definition ready_error (e : HsmErr) : HsmErr * CmdState :=
  (if HsmErr_pending e then InvalidState else e, Final).

Definition close_on_start : CS () :=
  c ← self;
  d ← on_world (decode_buf (TyStruct (Msg.cmd_req Msg.DdiCloseSessionReq)) (cs_req c));
  let h := req_of (fs := Msg.DdiCloseSessionReq) d in
  _ ← upd (cs_set_req (Some h));
  match hdr_sess_id h with
  | None => throw SessionExpected
  | Some id =>
      _ ← upd (cs_set_sess_id (Some id));
      w ← on_world world;
      if Part.needs_renegotiation w (Z.to_nat id) then
        _ ← on_world (on_part (Part.delete_user_session (Z.to_nat id)));
        close_respond h
      else close_begin id start_error
  end.

Definition close_on_engine_ready : CS () :=
  c ← self;
  id ← lift (ok_or (cs_sess_id c) InvalidState);
  close_begin id ready_error.

Definition close_on_cmd_complete : CS () :=
  c ← self;
  h ← lift (ok_or (cs_decoded_req c) InvalidState);
  op ← lift (ok_or (cs_op c) InvalidState);
  _ ← on_world (end_close_user_session op);
  close_respond h.

Definition close_on_event (event : HsmFsmEvent) : CS () :=
  c ← self;
  match cs_state c, event with
  | Init, StartCmd => close_on_start
  | WaitForResource, ResourceReady _ => close_on_engine_ready
  | WaitForCmd, FpToHsmIpcResponse => close_on_cmd_complete
  | _, CheckAlive => throw HsmError.Pending
  | Final, _ => throw InvalidState
  | _, _ => throw InvalidEvent
  end.

Definition close_retry (c : CloseSessionCmd) : bool := negb (cs_committed c).

(** ** [FlushSessionCmd] *)

Record FlushSessionCmd : Type := mkFlushSession {
  fl_state : CmdState;
  fl_committed : bool;
  fl_op : option AesBulk256Cmd;
  fl_pfn : Z;
  fl_sess_id : Z
}.

Definition flush_new (sess_id pfn : Z) : FlushSessionCmd := mkFlushSession Init false None pfn sess_id.

Abbreviation FL := (M (FlushSessionCmd * CmdWorld) HsmErr).
Definition fl_set_state x c := mkFlushSession x (fl_committed c) (fl_op c) (fl_pfn c) (fl_sess_id c).
Definition fl_set_committed c := mkFlushSession (fl_state c) true (fl_op c) (fl_pfn c) (fl_sess_id c).
Definition fl_set_op x c := mkFlushSession (fl_state c) (fl_committed c) x (fl_pfn c) (fl_sess_id c).

Definition flush_begin (on_error : HsmErr → HsmErr * CmdState) : FL () :=
  c ← self;
  r ← try (on_world (begin_close_user_session (fl_pfn c) (Z.to_nat (fl_sess_id c))));
  match r with
  | Ok op =>
      _ ← upd (fl_set_op (Some op));
      _ ← upd (fl_set_state WaitForCmd);
      throw HsmError.Pending
  | Err e => let '(e, st) := on_error e in _ ← upd (fl_set_state st); throw e
  | Panic => lift Panic
  end.

Definition flush_on_start : FL () := flush_begin start_error.
Definition flush_on_engine_ready : FL () := flush_begin ready_error.

Definition flush_on_cmd_complete : FL () :=
  c ← self;
  op ← lift (ok_or (fl_op c) InvalidState);
  _ ← on_world (end_close_user_session op);
  _ ← upd fl_set_committed;
  upd (fl_set_state Final).

Definition flush_on_event (event : HsmFsmEvent) : FL () :=
  c ← self;
  match fl_state c, event with
  | Init, StartCmd => flush_on_start
  | WaitForResource, ResourceReady _ => flush_on_engine_ready
  | WaitForCmd, FpToHsmIpcResponse => flush_on_cmd_complete
  | _, CheckAlive => throw HsmError.Pending
  | Final, _ => throw InvalidState
  | _, _ => throw InvalidEvent
  end.

Definition flush_retry (c : FlushSessionCmd) : bool := negb (fl_committed c).

(** ** [DeleteKeyCmd] *)

Record DeleteKeyCmd : Type := mkDeleteKey {
  dk_state : CmdState;
  dk_session : UserSession;
  dk_req : DmaBuffer;
  dk_decoded_req : option (ReqHdr * Z);
  dk_resp : option DmaBuffer;
  dk_committed : bool;
  dk_op : option AesBulk256Cmd;
  dk_pfn : Z;
  dk_entry_kind : EntryKind
}.

Definition delete_new (req : DmaBuffer) (session : UserSession) (pfn : Z) : DeleteKeyCmd :=
  mkDeleteKey Init session req None None false None pfn EK_Free.

Abbreviation DK := (M (DeleteKeyCmd * CmdWorld) HsmErr).
Definition dk_set_state x c := mkDeleteKey x (dk_session c) (dk_req c) (dk_decoded_req c) (dk_resp c) (dk_committed c) (dk_op c) (dk_pfn c) (dk_entry_kind c).
Definition dk_set_req x c := mkDeleteKey (dk_state c) (dk_session c) (dk_req c) x (dk_resp c) (dk_committed c) (dk_op c) (dk_pfn c) (dk_entry_kind c).
Definition dk_set_resp x c := mkDeleteKey (dk_state c) (dk_session c) (dk_req c) (dk_decoded_req c) x (dk_committed c) (dk_op c) (dk_pfn c) (dk_entry_kind c).
Definition dk_set_committed c := mkDeleteKey (dk_state c) (dk_session c) (dk_req c) (dk_decoded_req c) (dk_resp c) true (dk_op c) (dk_pfn c) (dk_entry_kind c).
Definition dk_set_op x c := mkDeleteKey (dk_state c) (dk_session c) (dk_req c) (dk_decoded_req c) (dk_resp c) (dk_committed c) x (dk_pfn c) (dk_entry_kind c).
Definition dk_set_kind x c := mkDeleteKey (dk_state c) (dk_session c) (dk_req c) (dk_decoded_req c) (dk_resp c) (dk_committed c) (dk_op c) (dk_pfn c) x.

Definition delete_key_id (d : denote (TyStruct (Msg.cmd_req Msg.DdiDeleteKeyReq))) : Z := d.2.1.1.

Definition delete_respond (h : ReqHdr) : DK () :=
  _ ← upd dk_set_committed;
  b ← on_world (encode_buf (TyStruct (Msg.cmd_resp Msg.DdiDeleteKeyResp))
                  (cmd_resp DdiOp.DeleteKey (hdr_rev h) (hdr_sess_id h)));
  upd (dk_set_resp (Some b)).

Definition delete_begin (key_id : Z) (on_error : HsmErr → HsmErr * CmdState) : DK () :=
  c ← self;
  r ← try (on_world (begin_delete_aesbulk256_key (dk_pfn c) (dk_session c) key_id));
  match r with
  | Ok op =>
      _ ← upd (dk_set_op (Some op));
      _ ← upd (dk_set_state WaitForCmd);
      throw HsmError.Pending
  | Err e => let '(e, st) := on_error e in _ ← upd (dk_set_state st); throw e
  | Panic => lift Panic
  end.

Definition delete_on_start : DK () :=
  _ ← upd (dk_set_state Final);
  c ← self;
  d ← on_world (decode_buf (TyStruct (Msg.cmd_req Msg.DdiDeleteKeyReq)) (dk_req c));
  let h := req_of (fs := Msg.DdiDeleteKeyReq) d in
  let key_id := delete_key_id d in
  _ ← upd (dk_set_req (Some (h, key_id)));
  w ← on_world world;
  kind ← lift (Session.get_key_kind w (dk_session c) key_id);
  _ ← upd (dk_set_kind kind);
  if bool_decide (kind = EK_Session) then throw KeyNotFound
  else if is_bulk_key kind then delete_begin key_id start_error
  else
    _ ← on_world (on_part (Session.delete_key (dk_session c) key_id));
    delete_respond h.

Definition delete_on_engine_ready : DK () :=
  c ← self;
  d ← lift (ok_or (dk_decoded_req c) InvalidState);
  if is_bulk_key (dk_entry_kind c) then delete_begin d.2 ready_error else lift Panic.

Definition delete_on_cmd_complete : DK () :=
  c ← self;
  if is_bulk_key (dk_entry_kind c) then
    d ← lift (ok_or (dk_decoded_req c) InvalidState);
    op ← lift (ok_or (dk_op c) InvalidState);
    _ ← on_world (end_delete_aesbulk256_key (dk_session c) op);
    _ ← delete_respond d.1;
    upd (dk_set_state Final)
  else lift Panic.

Definition delete_on_event (event : HsmFsmEvent) : DK () :=
  c ← self;
  match dk_state c, event with
  | Init, StartCmd => delete_on_start
  | WaitForResource, ResourceReady _ => delete_on_engine_ready
  | WaitForCmd, FpToHsmIpcResponse => delete_on_cmd_complete
  | Final, _ => throw InvalidState
  | _, _ => throw InvalidEvent
  end.

Definition delete_retry (c : DeleteKeyCmd) : bool := negb (dk_committed c).

(** ** The commands as [HsmCmdTrait], beside any others *)

Inductive SessionCmd (C : Type) : Type :=
  | CmdClose (c : CloseSessionCmd)
  | CmdFlush (c : FlushSessionCmd)
  | CmdDelete (c : DeleteKeyCmd)
  | CmdUnsupported
  | CmdOther (c : C).
Arguments CmdClose {C}. Arguments CmdFlush {C}. Arguments CmdDelete {C}.
Arguments CmdUnsupported {C}. Arguments CmdOther {C}.

Definition wrap_cmd {C C' A} (f : C → C') (m : M (C * CmdWorld) HsmErr A) (c : C) (w : CmdWorld) :
    outcome HsmErr A * (C' * CmdWorld) :=
  let '(r, (c, w)) := m (c, w) in (r, (f c, w)).

(** Only the channel to the fast path is handed to these commands. *)
Definition fp_ready (id : HsmFsmResourceId) : outcome HsmErr HsmFsmEvent :=
  match id with RFpIpcChannel => Ok (ResourceReady RFpIpcChannel) | _ => Panic end.

Definition session_cmds {C} (OC : HsmCmd C CmdWorld) : HsmCmd (SessionCmd C) CmdWorld := {|
  new_cmd k i :=
    match k, ci_req i, ci_arg i with
    | HsmFsm.CloseSessionCmd, Some req, _ => CmdClose (close_new req (ci_pfn i))
    | HsmFsm.FlushSessionCmd id, _, _ => CmdFlush (flush_new id (ci_pfn i))
    | HsmFsm.DeleteKeyCmd, Some req, ArgSession s => CmdDelete (delete_new req s (ci_pfn i))
    | HsmFsm.UnsupportedCmd, _, _ => CmdUnsupported
    | _, _, _ => CmdOther (new_cmd k i)
    end;
  cmd_on_event ev tag := λ '(c, w),
    match c with
    | CmdClose c => wrap_cmd CmdClose (close_on_event ev) c w
    | CmdFlush c => wrap_cmd CmdFlush (flush_on_event ev) c w
    | CmdDelete c => wrap_cmd CmdDelete (delete_on_event ev) c w
    | CmdUnsupported => (Err HsmError.UnsupportedCmd, (CmdUnsupported, w))
    | CmdOther c => wrap_cmd CmdOther (cmd_on_event ev tag) c w
    end;
  cmd_rollback tag := λ '(c, w),
    match c with
    | CmdOther c => wrap_cmd CmdOther (cmd_rollback tag) c w
    | _ => (Ok tt, (c, w)) (* the default of the trait *)
    end;
  cmd_take_response c :=
    match c with
    | CmdClose c => (cs_resp c, CmdClose (cs_set_resp None c))
    | CmdDelete c => (dk_resp c, CmdDelete (dk_set_resp None c))
    | CmdFlush _ | CmdUnsupported => (None, c)
    | CmdOther c => let '(b, c) := cmd_take_response c in (b, CmdOther c)
    end;
  cmd_session_id c :=
    match c with
    | CmdClose c => cs_sess_id c
    | CmdFlush c => Some (fl_sess_id c)
    | CmdDelete c => Some (Z.of_nat (us_id (dk_session c)))
    | CmdUnsupported => None
    | CmdOther c => cmd_session_id c
    end;
  cmd_app_vault_id c := match c with CmdOther c => cmd_app_vault_id c | _ => None end;
  cmd_retry c :=
    match c with
    | CmdClose c => close_retry c
    | CmdFlush c => flush_retry c
    | CmdDelete c => delete_retry c
    | CmdUnsupported => false
    | CmdOther c => cmd_retry c
    end;
  cmd_requires_resource tag id c :=
    match c with
    | CmdClose _ | CmdFlush _ => true
    | CmdDelete c => is_bulk_key (dk_entry_kind c)
    | CmdUnsupported => false
    | CmdOther c => cmd_requires_resource tag id c
    end;
  cmd_acquire_resource tag id c :=
    match c with
    | CmdClose _ => (Ok (ResourceReady RFpIpcChannel), c)
    | CmdFlush _ | CmdDelete _ => (fp_ready id, c)
    | CmdUnsupported => (Panic, c)
    | CmdOther c => let '(r, c) := cmd_acquire_resource tag id c in (r, CmdOther c)
    end
|}.

End cmds.
End SessionCmds.
