(* ===== verification/SessionCmdsProps.v ===== *)
(** * Commands that close a session tell the truth about it

    The commands that close a session ask for no retry exactly when they freed
    the slot of the session, and the fast path was told to forget the keys of
    the session before. *)

From stdpp Require Import base list numbers option.
From S2P Require Import Prelude.
From S2P Require Import HsmError.
From S2P Require Import KeyEntry.
From S2P Require Import Crates.
From S2P Require Import KeyTable.
From S2P Require Import KeyStore.
From S2P Require Import StoreInterface.
From S2P Require Import VaultKeys.
From S2P Require Import KeyVault.
From S2P Require Import SessionTable.
From S2P Require Import CmdResource.
From S2P Require Import Mbor.
From S2P Require Import Wire.
From S2P Require Import IpcChannel.
From S2P Require Import IpcMessages.
From S2P Require Import IpcMessageTypes.
From S2P Require Import CdmaVault.
From S2P Require Import Partition.
From S2P Require Import DdiCodec.
From S2P Require Import DdiTypes.
From S2P Require Import HsmFsm.
From S2P Require Import SessionCmds.

Definition table_of (w : CmdWorld) : HsmPartSessionTable := session_table (pstore (cw_part w)).

(** The slots once a session is deleted. *)
Definition free_slot (i : nat) (ss : list slot) : list slot :=
  if decide (i < MAX_SESSIONS) then <[i := SlotFree]> ss else ss.

Lemma free_slot_idem i ss : free_slot i (free_slot i ss) = free_slot i ss.
Proof. unfold free_slot. case_decide; [by rewrite list_insert_insert_eq|done]. Qed.

(** The fast path was told to forget the keys of a session. *)
Definition fp_told (pfn : Z) (i : nat) (l : list fp_call) : Prop :=
  ∃ m, FpSend m true ∈ l ∧ ku_action (info m) = KeyUpdateAction_DeleteEphemeral ∧
    ku_session_id (info m) = Z.of_nat i ∧ ku_pfn (info m) = pfn.

Lemma fp_told_app pfn i l l' : fp_told pfn i l → fp_told pfn i (l ++ l').
Proof. intros (m & Hm & H). exists m. split; [|done]. rewrite elem_of_app. auto. Qed.

Lemma fp_told_prefix pfn i l l' : l `prefix_of` l' → fp_told pfn i l → fp_told pfn i l'.
Proof. intros [k ->]. apply fp_told_app. Qed.

Section truth.
Context `{ZC : Zerocopy, ZZ : Zeroize, BC : BitCrate, RNG : Rng}.
Variable cdma_vault_addr : Z.
Variable env : FpEnv.

(** ** What the halves do to the sessions *)

(** Code that leaves the sessions alone. *)
Definition sessions_kept {A} (m : M World HsmErr A) : Prop :=
  ∀ w, session_table (pstore (m w).2) = session_table (pstore w).

Lemma kept_bind {A B} (m : M World HsmErr A) (f : A → M World HsmErr B) :
  sessions_kept m → (∀ a, sessions_kept (f a)) → sessions_kept (m ≫= f).
Proof.
  intros Hm Hf w. unfold mbind, M_bind. specialize (Hm w).
  destruct (m w) as [[a|e|] w']; cbn in *; [by rewrite Hf|done..].
Qed.
Lemma kept_on_vault {A} (f : KeyStoreI memory → M memory HsmErr A) : sessions_kept (State.on_vault f).
Proof. intros w. unfold State.on_vault. by destruct (f _ _). Qed.
Lemma kept_on_cdma {A} (f : Cdma.CdmaKeyVault → M Cdma.metadata HsmErr A) :
  sessions_kept (State.on_cdma cdma_vault_addr f).
Proof. intros w. unfold State.on_cdma. by destruct (f _ _). Qed.

Lemma kept_invalidate s : sessions_kept (Session.invalidate s).
Proof.
  intros w. unfold Session.invalidate. pose proof (kept_on_vault (λ I, Vault.disable_key (Session.physical_session_id w s)) w) as H.
  by destruct (State.on_vault _ w) as [[] w'].
Qed.
Lemma kept_delete_session_keys id : sessions_kept (Part.delete_session_keys cdma_vault_addr id).
Proof.
  apply kept_bind; [done|]. intros w0. apply kept_bind; [apply kept_on_cdma|]. intros l. apply kept_on_vault.
Qed.
Lemma kept_delete_session_key id : sessions_kept (Part.delete_session_key id).
Proof.
  apply kept_bind; [done|]. intros w0. apply kept_bind; [done|]. intros t. apply kept_on_vault.
Qed.

Lemma delete_user_session_effect id w r w' :
  st_wf (session_table (pstore w)) → Part.delete_user_session id w = (r, w') →
  r = Ok tt ∧ st_wf (session_table (pstore w')) ∧
  slots (session_table (pstore w')) = free_slot id (slots (session_table (pstore w))).
Proof.
  intros Hwf E. unfold Part.delete_user_session, State.on_sessions in E.
  destruct (session_updates_refine (session_table (pstore w)) id 0 Hwf) as ((t' & Ed & Hwf' & Hs) & _).
  rewrite Ed in E. injection E as <- <-. done.
Qed.

(** Closing frees the slot, or leaves the sessions alone. *)
Lemma close_user_session_effect id w r w' :
  st_wf (session_table (pstore w)) → Part.close_user_session cdma_vault_addr id w = (r, w') →
  st_wf (session_table (pstore w')) ∧
  slots (session_table (pstore w')) =
    (if r is Ok _ then free_slot id (slots (session_table (pstore w))) else slots (session_table (pstore w))).
Proof.
  intros Hwf E. unfold Part.close_user_session, mbind, M_bind in E.
  pose proof (kept_delete_session_keys id w) as H1.
  destruct (Part.delete_session_keys cdma_vault_addr id w) as [[[]|e|] w1]; cbn in H1;
    [|injection E as <- <-; by rewrite H1..].
  pose proof (kept_delete_session_key id w1) as H2.
  destruct (Part.delete_session_key id w1) as [[[]|e|] w2]; cbn in H2;
    [|injection E as <- <-; by rewrite H2, H1..].
  apply delete_user_session_effect in E as (-> & Hwf' & Hs); [|by rewrite H2, H1].
  by rewrite Hs, H2, H1.
Qed.

(** The calls of a computation: the sessions are kept, calls are added. *)
Definition quiet {A} (m : M CmdWorld HsmErr A) : Prop := ∀ w,
  table_of (m w).2 = table_of w ∧ cw_calls w `prefix_of` cw_calls (m w).2.

Lemma quiet_bind {A B} (m : M CmdWorld HsmErr A) (f : A → M CmdWorld HsmErr B) :
  quiet m → (∀ a, quiet (f a)) → quiet (m ≫= f).
Proof.
  intros Hm Hf w. unfold mbind, M_bind. specialize (Hm w).
  destruct (m w) as [[a|e|] w']; cbn in *; [|done..]. destruct Hm as [H1 H2], (Hf a w') as [H3 H4].
  split; [by rewrite H3|by etrans].
Qed.
Lemma quiet_id {A} (m : M CmdWorld HsmErr A) : (∀ w, (m w).2 = w) → quiet m.
Proof. intros H w. by rewrite H. Qed.
Lemma quiet_call {A} (answer : nat → A) entry : quiet (SessionCmds.call answer entry).
Proof. intros w. split; [done|]. by exists [entry (answer (length (cw_calls w)))]. Qed.
Lemma quiet_on_part {A} (m : M World HsmErr A) : sessions_kept m → quiet (SessionCmds.on_part m).
Proof.
  intros Hm w. specialize (Hm (cw_part w)). unfold SessionCmds.on_part, table_of.
  by destruct (m (cw_part w)).
Qed.
Lemma quiet_unless b e : quiet (unless b e).
Proof. apply quiet_id. by destruct b. Qed.

Lemma quiet_status : quiet (SessionCmds.answer_status env).
Proof.
  apply quiet_bind; [apply quiet_call|]. intros [m|]; [|by apply quiet_id].
  apply quiet_id. by destruct (decode_header m).
Qed.
Lemma quiet_encode t v : quiet (SessionCmds.encode_buf env t v).
Proof.
  apply quiet_bind; [apply quiet_call|]. intros [p|]; [|by apply quiet_id]. apply quiet_id.
  by destruct (Ddi.encode t v _) as [[]].
Qed.
Lemma quiet_decode t b : quiet (SessionCmds.decode_buf t b).
Proof. apply quiet_id. intros w. unfold SessionCmds.decode_buf. by destruct (Ddi.decode t _) as [[]]. Qed.

(** The first half keeps the sessions; when it succeeds the fast path was
    told. *)
Lemma quiet_begin pfn id : quiet (SessionCmds.begin_close_user_session env pfn id).
Proof.
  apply quiet_bind; [by apply quiet_id|]. intros w0. apply quiet_bind; [by apply quiet_id|]. intros s.
  apply quiet_bind; [apply quiet_on_part, kept_invalidate|]. intros _.
  apply quiet_bind; [by apply quiet_id|]. intros w1.
  apply quiet_bind; [apply quiet_bind; [apply quiet_call|intros; apply quiet_unless]|]. intros _.
  apply quiet_bind; [apply quiet_bind; [apply quiet_call|intros; apply quiet_unless]|]. intros _.
  by apply quiet_id.
Qed.

Lemma begin_told pfn id w op w' :
  SessionCmds.begin_close_user_session env pfn id w = (Ok op, w') →
  op = CloseAppSession id ∧ fp_told pfn id (cw_calls w').
Proof.
  unfold SessionCmds.begin_close_user_session. intros E. invert_ok.
  match goal with H : SessionCmds.send _ _ _ = _ |- _ => rename H into Hsend end.
  unfold SessionCmds.send, SessionCmds.call, mbind, M_bind in Hsend.
  destruct (fe_send env _); [|done]. injection Hsend as <- <-. injection E as <- <-.
  split; [done|]. eexists. cbn [cw_calls]. split.
  - rewrite elem_of_app. right. apply list_elem_of_here.
  - done.
Qed.

(** The second half. *)
Lemma end_close_effect id w r w' :
  st_wf (table_of w) → SessionCmds.end_close_user_session cdma_vault_addr env (CloseAppSession id) w = (r, w') →
  st_wf (table_of w') ∧ cw_calls w `prefix_of` cw_calls w' ∧
  slots (table_of w') = (if r is Ok _ then free_slot id (slots (table_of w)) else slots (table_of w)).
Proof.
  intros Hwf E. unfold SessionCmds.end_close_user_session, mbind, M_bind in E.
  destruct (quiet_status w) as [Ht Hc].
  destruct (SessionCmds.answer_status env w) as [[[s|]|e|] w1]; cbn in Ht, Hc;
    try (injection E as <- <-; rewrite Ht; done).
  destruct (_ || _); [|injection E as <- <-; by rewrite Ht].
  unfold SessionCmds.on_part in E.
  destruct (Part.close_user_session cdma_vault_addr id (cw_part w1)) as [r1 w2] eqn:Ec.
  injection E as <- <-. unfold table_of in *. rewrite <-Ht in Hwf.
  apply close_user_session_effect in Ec as [Hwf' Hs]; [|done]. cbn [cw_part cw_calls]. by rewrite Hs, Ht.
Qed.

(** ** What a command knows *)

(** What the host is told is true: a committed command has freed the slot of
    its session and nothing else, after the fast path was told (a session that
    waits to be renegotiated has no keys there); any other has changed no
    slot. *)
Definition truthful (t0 : HsmPartSessionTable) (pfn : Z) (oid : option nat) (committed : bool) (w : CmdWorld) : Prop :=
  if committed then
    ∃ i, oid = Some i ∧ slots (table_of w) = free_slot i (slots t0) ∧
      (slots t0 !! i ≠ Some SlotPending → fp_told pfn i (cw_calls w))
  else slots (table_of w) = slots t0.

Record knows (t0 : HsmPartSessionTable) (pfn : Z) (oid : option nat) (op : option AesBulk256Cmd)
    (committed : bool) (w : CmdWorld) : Prop := {
  kn_wf : st_wf (table_of w);
  kn_op o : op = Some o → ∃ i, oid = Some i ∧ o = CloseAppSession i ∧ fp_told pfn i (cw_calls w);
  kn_truth : truthful t0 pfn oid committed w
}.

Lemma knows_same t0 pfn oid op b w w' :
  st_wf (table_of w') → slots (table_of w') = slots (table_of w) → cw_calls w `prefix_of` cw_calls w' →
  knows t0 pfn oid op b w → knows t0 pfn oid op b w'.
Proof.
  intros Hwf Hs Hc [_ Hop Htr]. split; [done| |].
  - intros o Ho. destruct (Hop o Ho) as (i & ? & ? & ?). eauto using fp_told_prefix.
  - unfold truthful in *. rewrite Hs. destruct b; [|done]. destruct Htr as (i & ? & ? & Hf).
    exists i. split_and!; [done..|]. eauto using fp_told_prefix.
Qed.

Lemma knows_quiet t0 pfn oid op b w w' :
  table_of w' = table_of w → cw_calls w `prefix_of` cw_calls w' →
  knows t0 pfn oid op b w → knows t0 pfn oid op b w'.
Proof. intros Ht Hc Hk. eapply knows_same; [rewrite Ht; apply Hk|by rewrite Ht|done|done]. Qed.

(** Freeing the slot commits. *)
Lemma knows_free t0 pfn i op b w w' :
  knows t0 pfn (Some i) op b w → st_wf (table_of w') → cw_calls w `prefix_of` cw_calls w' →
  slots (table_of w') = free_slot i (slots (table_of w)) →
  (b = false → slots t0 !! i ≠ Some SlotPending → fp_told pfn i (cw_calls w')) →
  knows t0 pfn (Some i) op true w'.
Proof.
  intros [Hwf Hop Htr] Hwf' Hc Hs Hf. split; [done| |].
  - intros o Ho. destruct (Hop o Ho) as (j & ? & ? & ?). eauto using fp_told_prefix.
  - exists i. split; [done|]. unfold truthful in Htr. destruct b.
    + destruct Htr as (j & [= <-] & Hs0 & Hf0). rewrite Hs, Hs0, free_slot_idem.
      split; [done|]. eauto using fp_told_prefix.
    + rewrite Hs, Htr. auto.
Qed.

Lemma knows_end t0 pfn oid o b w r w' :
  knows t0 pfn oid (Some o) b w → SessionCmds.end_close_user_session cdma_vault_addr env o w = (r, w') →
  knows t0 pfn oid (Some o) (if r is Ok _ then true else b) w'.
Proof.
  intros Hk E. destruct (kn_op _ _ _ _ _ _ Hk o eq_refl) as (i & Hi & -> & Hf). subst oid.
  apply end_close_effect in E as (Hwf & Hc & Hs); [|apply Hk]. destruct r as [[]|e|].
  - eapply knows_free; [exact Hk|done..|]. intros _ _. by eapply fp_told_prefix.
  - by eapply knows_same.
  - by eapply knows_same.
Qed.

Lemma knows_begin t0 pfn i op b w r w' :
  knows t0 pfn (Some i) op b w → SessionCmds.begin_close_user_session env pfn i w = (r, w') →
  knows t0 pfn (Some i) (if r is Ok o then Some o else op) b w'.
Proof.
  intros Hk E. destruct (quiet_begin pfn i w) as [Ht Hc]. rewrite E in Ht, Hc. cbn in Ht, Hc.
  pose proof (knows_quiet _ _ _ _ _ _ _ Ht Hc Hk) as Hk'. destruct r as [o|e|]; [|done..].
  apply begin_told in E as [-> Hf]. split; [apply Hk'| |apply Hk'].
  intros o [= <-]. eauto.
Qed.

(** ** [FlushSessionCmd] *)

Definition flush_inv (t0 : HsmPartSessionTable) (id pfn : Z) (s : SessionCmds.FlushSessionCmd * CmdWorld) : Prop :=
  SessionCmds.fl_sess_id s.1 = id ∧ SessionCmds.fl_pfn s.1 = pfn ∧
  knows t0 pfn (Some (Z.to_nat id)) (SessionCmds.fl_op s.1) (SessionCmds.fl_committed s.1) s.2.

Lemma flush_begin_inv t0 id pfn f s :
  flush_inv t0 id pfn s → flush_inv t0 id pfn (SessionCmds.flush_begin env f s).2.
Proof.
  destruct s as [c w]. intros (<- & <- & Hk). cbn in Hk.
  unfold SessionCmds.flush_begin, SessionCmds.self, SessionCmds.try, SessionCmds.on_world, mbind, M_bind.
  cbn [fst snd].
  destruct (SessionCmds.begin_close_user_session env _ _ w) as [r w'] eqn:E.
  eapply knows_begin in E; [|exact Hk]. destruct r as [o|e|]; [done| |done].
  by destruct (f e) as [e' st].
Qed.

Lemma flush_event_inv t0 id pfn ev s :
  flush_inv t0 id pfn s → flush_inv t0 id pfn (SessionCmds.flush_on_event cdma_vault_addr env ev s).2.
Proof.
  intros Hs. unfold SessionCmds.flush_on_event, SessionCmds.self, mbind, M_bind.
  destruct (SessionCmds.fl_state s.1), ev; try exact Hs; try (by apply flush_begin_inv).
  destruct s as [c w]. destruct Hs as (<- & <- & Hk). cbn in Hk.
  unfold SessionCmds.flush_on_cmd_complete, SessionCmds.self, SessionCmds.on_world, mbind, M_bind.
  cbn [fst snd]. destruct (SessionCmds.fl_op c) as [o|] eqn:Ho; [|cbn; unfold flush_inv; cbn; rewrite Ho; done].
  cbn [ok_or lift].
  destruct (SessionCmds.end_close_user_session cdma_vault_addr env o w) as [r w'] eqn:E.
  eapply knows_end in E; [|exact Hk]. destruct r as [[]|e|]; unfold flush_inv; cbn; rewrite Ho; done.
Qed.

(** ** [CloseSessionCmd] *)

(** The session the request names. *)
Definition close_id (req : DmaBuffer) : option nat :=
  match Ddi.decode (TyStruct (Msg.cmd_req Msg.DdiCloseSessionReq)) (Dec.new (buf_data req)) with
  | (Ok d, _) => Z.to_nat <$> hdr_sess_id (SessionCmds.req_of (fs := Msg.DdiCloseSessionReq) d)
  | _ => None
  end.

Definition close_inv (t0 : HsmPartSessionTable) (req : DmaBuffer) (pfn : Z)
    (s : SessionCmds.CloseSessionCmd * CmdWorld) : Prop :=
  SessionCmds.cs_req s.1 = req ∧ SessionCmds.cs_pfn s.1 = pfn ∧
  (∀ id, SessionCmds.cs_sess_id s.1 = Some id → close_id req = Some (Z.to_nat id)) ∧
  knows t0 pfn (close_id req) (SessionCmds.cs_op s.1) (SessionCmds.cs_committed s.1) s.2.

Lemma close_begin_inv t0 req pfn f id s :
  close_id req = Some (Z.to_nat id) →
  close_inv t0 req pfn s → close_inv t0 req pfn (SessionCmds.close_begin env id f s).2.
Proof.
  destruct s as [c w]. intros Hid (Hreq & Hpfn & Hsid & Hk). cbn in Hreq, Hpfn, Hk, Hsid.
  unfold SessionCmds.close_begin, SessionCmds.self, SessionCmds.try, SessionCmds.on_world, mbind, M_bind.
  cbn [fst snd]. rewrite Hpfn. unfold close_inv. rewrite Hid in Hk, Hsid |- *.
  destruct (SessionCmds.begin_close_user_session env _ _ w) as [r w'] eqn:E.
  eapply knows_begin in E; [|exact Hk]. destruct r as [o|e|].
  - done.
  - by destruct (f e) as [e' st].
  - done.
Qed.

Lemma close_respond_inv t0 req pfn h c w :
  SessionCmds.cs_req c = req → SessionCmds.cs_pfn c = pfn →
  (∀ id, SessionCmds.cs_sess_id c = Some id → close_id req = Some (Z.to_nat id)) →
  knows t0 pfn (close_id req) (SessionCmds.cs_op c) true w →
  close_inv t0 req pfn (SessionCmds.close_respond env h (c, w)).2.
Proof.
  intros <- <- Hsid Hk.
  unfold SessionCmds.close_respond, SessionCmds.upd, modify, SessionCmds.on_world, mbind, M_bind.
  destruct (quiet_encode (TyStruct (Msg.cmd_resp Msg.DdiCloseSessionResp))
    (SessionCmds.cmd_resp env DdiOp.CloseSession (hdr_rev h) (hdr_sess_id h)) w) as [Ht Hc].
  destruct (SessionCmds.encode_buf _ _ _ w) as [r w']. cbn [snd] in Ht, Hc.
  pose proof (knows_quiet _ _ _ _ _ _ _ Ht Hc Hk). by destruct r as [b|e|].
Qed.

Lemma close_start_inv t0 req pfn s :
  close_inv t0 req pfn s → close_inv t0 req pfn (SessionCmds.close_on_start env s).2.
Proof.
  destruct s as [c w]. intros (Hreq & Hpfn & Hsid & Hk). cbn in *.
  unfold SessionCmds.close_on_start, SessionCmds.self, mbind at 1, M_bind at 1. cbn [fst].
  unfold mbind at 1, M_bind at 1, SessionCmds.on_world at 1, SessionCmds.decode_buf.
  rewrite Hreq. pose proof (eq_refl (close_id req)) as Hid. unfold close_id at 1 in Hid.
  destruct (Ddi.decode _ _) as [[d|e|] dec]; [|by cbn..].
  cbn [mret M_ret]. unfold mbind at 1, M_bind at 1, SessionCmds.upd at 1, modify at 1.
  cbv zeta. destruct (hdr_sess_id (SessionCmds.req_of (fs := Msg.DdiCloseSessionReq) d)) as [id|]; [|exact (conj Hreq (conj Hpfn (conj Hsid Hk)))]. cbn [fmap option_fmap option_map] in Hid. symmetry in Hid.
  unfold mbind at 1, M_bind at 1, SessionCmds.upd at 1, modify at 1.
  unfold mbind at 1, M_bind at 1, SessionCmds.on_world at 1, SessionCmds.world at 1.
  set (c' := SessionCmds.cs_set_sess_id _ _).
  assert (∀ i, SessionCmds.cs_sess_id c' = Some i → close_id req = Some (Z.to_nat i)) as Hsid'
    by (intros i [= <-]; done).
  destruct (Part.needs_renegotiation _ _) eqn:Hn.
  - unfold mbind at 1, M_bind at 1, SessionCmds.on_world at 1, SessionCmds.on_part at 1.
    destruct (Part.delete_user_session _ _) as [r w'] eqn:Ed.
    apply delete_user_session_effect in Ed as (-> & Hwf' & Hs); [|apply Hk].
    apply close_respond_inv; [done..|]. change (SessionCmds.cs_op c') with (SessionCmds.cs_op c).
    rewrite Hid in *. eapply knows_free; [exact Hk|done|done|done|].
    intros Hb Hp. exfalso. apply Hp. pose proof (kn_truth _ _ _ _ _ _ Hk) as Ht. rewrite Hb in Ht. unfold truthful in Ht.
    rewrite <-Ht. unfold Part.needs_renegotiation in Hn.
    rewrite (proj1 (proj2 (session_lookups_refine _ _ (kn_wf _ _ _ _ _ _ Hk)))) in Hn.
    by apply bool_decide_eq_true in Hn.
  - apply close_begin_inv; [done|]. done.
Qed.

Lemma close_event_inv t0 req pfn ev s :
  close_inv t0 req pfn s → close_inv t0 req pfn (SessionCmds.close_on_event cdma_vault_addr env ev s).2.
Proof.
  intros Hs. unfold SessionCmds.close_on_event, SessionCmds.self, mbind, M_bind.
  destruct (SessionCmds.cs_state s.1), ev; try exact Hs; try (by apply close_start_inv).
  - unfold SessionCmds.close_on_engine_ready, SessionCmds.self, mbind, M_bind.
    destruct (SessionCmds.cs_sess_id s.1) as [id|] eqn:Hid; [|exact Hs].
    apply close_begin_inv; [|done]. by apply Hs.
  - destruct s as [c w]. destruct Hs as (Hreq & Hpfn & Hsid & Hk). cbn in *.
    unfold SessionCmds.close_on_cmd_complete, SessionCmds.self, mbind, M_bind. cbn [fst].
    destruct (SessionCmds.cs_decoded_req c) as [h|]; [|done]. cbn [ok_or lift].
    destruct (SessionCmds.cs_op c) as [o|] eqn:Ho; [|unfold close_inv; cbn; rewrite Ho; done]. cbn [ok_or lift].
    unfold SessionCmds.on_world.
    destruct (SessionCmds.end_close_user_session cdma_vault_addr env o w) as [r w'] eqn:E.
    eapply knows_end in E; [|exact Hk]. destruct r as [[]|e|].
    + apply close_respond_inv; [done..|]. by rewrite Ho.
    + unfold close_inv. cbn. by rewrite Ho.
    + unfold close_inv. cbn. by rewrite Ho.
Qed.

(** ** [DeleteKeyCmd] leaves the sessions alone *)

Lemma quiet_enable k : quiet (SessionCmds.enable_key_ignored k).
Proof.
  intros w. unfold SessionCmds.enable_key_ignored.
  pose proof (quiet_on_part _ (kept_on_vault (λ I, Vault.enable_key k)) w) as H.
  by destruct (SessionCmds.on_part _ w) as [[] w'].
Qed.
Lemma kept_delete_key s k : sessions_kept (Session.delete_key s k).
Proof.
  apply kept_bind; [done|]. intros w. apply kept_bind; [|intros _; apply kept_on_vault].
  by destruct (Vault.key _ _ _ _ _).
Qed.
Lemma quiet_end_delete s o : quiet (SessionCmds.end_delete_aesbulk256_key cdma_vault_addr env s o).
Proof.
  destruct o as [id|cdma_key_id key_id]; [by apply quiet_id|].
  assert (quiet (_ ← SessionCmds.enable_key_ignored key_id; throw (A:=()) IpcResponseError)) as Hfail
    by (apply quiet_bind; [apply quiet_enable|intros; by apply quiet_id]).
  apply quiet_bind; [apply quiet_status|]. intros [st|]; [|exact Hfail].
  destruct (negb _); [exact Hfail|]. apply quiet_bind; [apply quiet_enable|]. intros _.
  apply quiet_bind; [apply quiet_on_part, kept_on_cdma|]. intros _. apply quiet_on_part, kept_delete_key.
Qed.
Lemma quiet_begin_delete pfn s k : quiet (SessionCmds.begin_delete_aesbulk256_key env pfn s k).
Proof.
  apply quiet_bind; [apply quiet_bind; [apply quiet_call|intros; apply quiet_unless]|]. intros _.
  do 5 (apply quiet_bind; [by apply quiet_id|intros ?]).
  apply quiet_bind; [apply quiet_bind; [apply quiet_call|intros; apply quiet_unless]|]. intros _.
  apply quiet_bind; [apply quiet_on_part, kept_on_vault|]. intros _. by apply quiet_id.
Qed.

(** ** Runs *)

(** Events are delivered one by one while the command waits; between them
    other requests may change the partition, its sessions included.  The
    result lists the worlds before and after every event. *)
Fixpoint handled {C} (on_event : HsmFsmEvent → M (C * CmdWorld) HsmErr ())
    (s : C * CmdWorld) (evs : list (HsmFsmEvent * (CmdWorld → CmdWorld))) : list (CmdWorld * CmdWorld) * C :=
  match evs with
  | [] => ([], s.1)
  | (ev, g) :: evs =>
      match on_event ev (s.1, g s.2) with
      | (Err HsmError.Pending, s') =>
          let '(l, c) := handled on_event s' evs in ((g s.2, s'.2) :: l, c)
      | (_, s') => ([(g s.2, s'.2)], s'.1)
      end
  end.

(** What other requests do: they keep the session table well formed, and the
    calls made to the fast path stay made. *)
Definition others_ok (g : CmdWorld → CmdWorld) : Prop :=
  ∀ w, (st_wf (table_of w) → st_wf (table_of (g w))) ∧ cw_calls w `prefix_of` cw_calls (g w).

Definition untouched (ww : CmdWorld * CmdWorld) : Prop := slots (table_of ww.2) = slots (table_of ww.1).

(** A run of a committed command freed the slot of its session at its last
    event and did nothing to the slots before; any other run did nothing to
    them at all. *)
Definition truthful_run (pfn : Z) (oid : option nat) (committed : bool) (l : list (CmdWorld * CmdWorld)) : Prop :=
  if committed then
    ∃ before w w', l = before ++ [(w, w')] ∧ Forall untouched before ∧ truthful (table_of w) pfn oid true w'
  else Forall untouched l.

Section run.
Context {C : Type} (on_event : HsmFsmEvent → M (C * CmdWorld) HsmErr ()) (committed : C → bool).
Context (inv : HsmPartSessionTable → C * CmdWorld → Prop) (pfn : Z) (oid : option nat).
Hypothesis inv_event : ∀ t0 ev s, inv t0 s → inv t0 (on_event ev s).2.
Hypothesis inv_truth : ∀ t0 s, inv t0 s → truthful t0 pfn oid (committed s.1) s.2.
Hypothesis inv_others : ∀ t0 c w g, others_ok g → inv t0 (c, w) → committed c = false →
  inv (table_of (g w)) (c, g w).
Hypothesis inv_pending : ∀ ev s s', on_event ev s = (Err HsmError.Pending, s') → committed s.1 = false →
  committed s'.1 = false.

Lemma handled_truthful t0 s evs :
  Forall (λ ev, others_ok ev.2) evs → inv t0 s → committed s.1 = false →
  let '(l, c) := handled on_event s evs in truthful_run pfn oid (committed c) l.
Proof.
  revert t0 s. induction evs as [|[ev g] evs IH]; intros t0 [c w] Hall Hs Hc; cbn [handled fst snd] in *.
  { rewrite Hc. constructor. }
  apply Forall_cons_iff in Hall as [Hg Hall]. cbn [snd] in Hg.
  apply (inv_others _ _ _ _ Hg) in Hs; [|done].
  pose proof (inv_event _ ev _ Hs) as Hs'. destruct (on_event ev (c, g w)) as [r s'] eqn:E. cbn [snd] in Hs'.
  pose proof (inv_truth _ _ Hs') as Ht.
  assert (truthful_run pfn oid (committed s'.1) [(g w, s'.2)]) as Hlast.
  { unfold truthful_run. destruct (committed s'.1); [|by repeat constructor]. by exists [], (g w), s'.2. }
  destruct r as [|e|]; [done| |done]. destruct e; try done.
  pose proof (inv_pending _ _ _ E Hc) as Hc'. rewrite Hc' in Ht. specialize (IH _ _ Hall Hs' Hc').
  destruct (handled on_event s' evs) as [l c']. unfold truthful_run in *.
  destruct (committed c'); [|by constructor]. destruct IH as (l0 & w1 & w2 & -> & Hl & Ht').
  exists ((g w, s'.2) :: l0), w1, w2. split_and!; [done| |done]. by constructor.
Qed.
End run.

Lemma knows_others t0 pfn oid op w g :
  others_ok g → knows t0 pfn oid op false w → knows (table_of (g w)) pfn oid op false (g w).
Proof.
  intros Hg [Hwf Hop _]. destruct (Hg w) as [Hwf' Hc]. split; [auto| |done].
  intros o Ho. destruct (Hop o Ho) as (i & ? & ? & ?). eauto using fp_told_prefix.
Qed.

(** A command that waits has not committed. *)
Lemma close_begin_committed f id s :
  SessionCmds.cs_committed (SessionCmds.close_begin env id f s).2.1 = SessionCmds.cs_committed s.1.
Proof.
  destruct s as [c w]. unfold SessionCmds.close_begin, SessionCmds.self, SessionCmds.try, SessionCmds.on_world, mbind, M_bind.
  cbn [fst snd]. destruct (SessionCmds.begin_close_user_session env _ _ w) as [[o|e|] w']; [done| |done].
  by destruct (f e).
Qed.
Lemma close_respond_ends h s : (SessionCmds.close_respond env h s).1 ≠ Err HsmError.Pending.
Proof.
  destruct s as [c w].
  unfold SessionCmds.close_respond, SessionCmds.upd, modify, SessionCmds.on_world, SessionCmds.encode_buf,
    SessionCmds.call, mbind, M_bind.
  destruct (fe_alloc env _ _); [|done]. by destruct (Ddi.encode _ _ _) as [[]].
Qed.

Lemma close_pending ev s s' :
  SessionCmds.close_on_event cdma_vault_addr env ev s = (Err HsmError.Pending, s') →
  SessionCmds.cs_committed s.1 = false → SessionCmds.cs_committed s'.1 = false.
Proof.
  intros E Hc. replace s' with (SessionCmds.close_on_event cdma_vault_addr env ev s).2 by (by rewrite E).
  apply (f_equal fst) in E. cbn [fst] in E. revert E.
  unfold SessionCmds.close_on_event, SessionCmds.self, mbind, M_bind.
  destruct (SessionCmds.cs_state s.1), ev; try (intros; exact Hc).
  - destruct s as [c w]. unfold SessionCmds.close_on_start, SessionCmds.self, SessionCmds.on_world,
      SessionCmds.decode_buf, SessionCmds.upd, modify, SessionCmds.world, SessionCmds.on_part, mbind, M_bind. cbn [fst snd].
    destruct (Ddi.decode _ _) as [[d|e|] dec]; [|done..]. cbn [mret M_ret].
    destruct (hdr_sess_id _) as [id|]; [|done]. destruct (Part.needs_renegotiation _ _).
    + destruct (Part.delete_user_session _ _) as [[a|e|] w']; [|done..]. intros E. by apply close_respond_ends in E.
    + intros _. rewrite close_begin_committed. exact Hc.
  - unfold SessionCmds.close_on_engine_ready, SessionCmds.self, mbind, M_bind.
    destruct (SessionCmds.cs_sess_id s.1) as [id|]; [|done]. intros _. cbn [ok_or lift].
    by rewrite close_begin_committed.
  - destruct s as [c w]. unfold SessionCmds.close_on_cmd_complete, SessionCmds.self, SessionCmds.on_world, mbind, M_bind.
    cbn [fst]. destruct (SessionCmds.cs_decoded_req c); [|done]. cbn [ok_or lift].
    destruct (SessionCmds.cs_op c) as [o|]; [|done]. cbn [ok_or lift].
    destruct (SessionCmds.end_close_user_session cdma_vault_addr env o w) as [[a|e|] w']; [|done..].
    intros E. by apply close_respond_ends in E.
Qed.

Lemma flush_pending ev s s' :
  SessionCmds.flush_on_event cdma_vault_addr env ev s = (Err HsmError.Pending, s') →
  SessionCmds.fl_committed s.1 = false → SessionCmds.fl_committed s'.1 = false.
Proof.
  assert (∀ f s, SessionCmds.fl_committed (SessionCmds.flush_begin env f s).2.1 = SessionCmds.fl_committed s.1) as Hb.
  { intros f [c w]. unfold SessionCmds.flush_begin, SessionCmds.self, SessionCmds.try, SessionCmds.on_world, mbind, M_bind.
    cbn [fst snd]. destruct (SessionCmds.begin_close_user_session env _ _ w) as [[o|e|] w']; [done| |done].
    by destruct (f e). }
  intros E Hc. replace s' with (SessionCmds.flush_on_event cdma_vault_addr env ev s).2 by (by rewrite E).
  apply (f_equal fst) in E. cbn [fst] in E. revert E.
  unfold SessionCmds.flush_on_event, SessionCmds.flush_on_start, SessionCmds.flush_on_engine_ready,
    SessionCmds.self, mbind, M_bind.
  destruct (SessionCmds.fl_state s.1), ev; try (intros; exact Hc); try (intros _; by rewrite Hb).
  destruct s as [c w]. unfold SessionCmds.flush_on_cmd_complete, SessionCmds.self, SessionCmds.on_world, mbind, M_bind.
  cbn [fst]. destruct (SessionCmds.fl_op c) as [o|]; [|done]. cbn [ok_or lift].
  by destruct (SessionCmds.end_close_user_session cdma_vault_addr env o w) as [[a|e|] w'].
Qed.

(** C9: a command that closes or flushes a session answers [retry] truthfully.
    Whatever the events, the answers of the fast path and of the heap, and
    whatever other requests do to the partition in between, opening and
    closing sessions included (they keep the session table well formed and
    unmake no call to the fast path): the command answers that no retry is
    needed, the answer [close_flag] turns into the session-closed flag, exactly
    when it freed the slot of its session, once and at its last event; it
    changes no other slot; it frees the slot only after the fast path was told
    to forget the keys of the session (unless the session only waited to be
    renegotiated); and a command that asks for a retry has changed no slot.
    The statement is about the commands: completions the machine posts without
    asking the command are outside it. *)
Theorem session_close_truthful (pfn id : Z) (req : DmaBuffer)
    (evs : list (HsmFsmEvent * (CmdWorld → CmdWorld))) (w : CmdWorld) :
  st_wf (table_of w) → Forall (λ ev, others_ok ev.2) evs →
  (let '(l, c) := handled (SessionCmds.close_on_event cdma_vault_addr env)
                    (SessionCmds.close_new req pfn, w) evs in
   truthful_run pfn (close_id req) (negb (SessionCmds.close_retry c)) l) ∧
  (let '(l, c) := handled (SessionCmds.flush_on_event cdma_vault_addr env)
                    (SessionCmds.flush_new id pfn, w) evs in
   truthful_run pfn (Some (Z.to_nat id)) (negb (SessionCmds.flush_retry c)) l).
Proof.
  intros Hwf Hall. split.
  - pose proof (handled_truthful (SessionCmds.close_on_event cdma_vault_addr env) SessionCmds.cs_committed
      (λ t0, close_inv t0 req pfn) pfn (close_id req)) as H.
    specialize (H ltac:(intros; by apply close_event_inv) ltac:(intros ?? (_ & _ & _ & Hk); apply Hk)).
    specialize (H ltac:(intros ? c ? g Hg (? & ? & ? & Hk) Hc; cbn in *; rewrite Hc in Hk; split_and!; [done..|];
      cbn; rewrite Hc; by eapply knows_others)
      close_pending (table_of w) (SessionCmds.close_new req pfn, w) evs Hall).
    destruct (handled _ _ _) as [l c]. unfold SessionCmds.close_retry. rewrite negb_involutive.
    apply H; [|done]. split_and!; [done..|]. by split.
  - pose proof (handled_truthful (SessionCmds.flush_on_event cdma_vault_addr env) SessionCmds.fl_committed
      (λ t0, flush_inv t0 id pfn) pfn (Some (Z.to_nat id))) as H.
    specialize (H ltac:(intros; by apply flush_event_inv) ltac:(intros ?? (_ & _ & Hk); apply Hk)).
    specialize (H ltac:(intros ? c ? g Hg (? & ? & Hk) Hc; cbn in *; rewrite Hc in Hk; split_and!; [done..|];
      cbn; rewrite Hc; by eapply knows_others)
      flush_pending (table_of w) (SessionCmds.flush_new id pfn, w) evs Hall).
    destruct (handled _ _ _) as [l c]. unfold SessionCmds.flush_retry. rewrite negb_involutive.
    apply H; [|done]. split_and!; [done..|]. by split.
Qed.

End truth.
