(* ===== verification/SessionCmdsWitness.v ===== *)
(** * Closing the session of the sample partition *)

From stdpp Require Import base list numbers option.
From S2P Require Import Prelude.
From S2P Require Import HsmError.
From S2P Require Import KeyEntry.
From S2P Require Import Crates.
From S2P Require Import KeyTable.
From S2P Require Import KeyStore.
From S2P Require Import StoreInterface.
From S2P Require Import VaultKeys.
From S2P Require Import KeyVault.
From S2P Require Import SessionTable.
From S2P Require Import Partition.
From S2P Require Import PartitionProps.
From S2P Require Import PartitionWitnesses.
From S2P Require Import IpcChannel.
From S2P Require Import IpcMessages.
From S2P Require Import HsmFsm.
From S2P Require Import SessionCmds.
From S2P Require Import SessionCmdsProps.

#[local] Existing Instance zerocopy_le.
#[local] Existing Instance zeroize_fill.
#[local] Existing Instance bit_crate_Z.
#[local] Existing Instance sample_rng.

(** A fast path that answers with success. *)
Definition sample_fp : FpEnv :=
  mkFpEnv (λ _, true) (λ _, true) (λ _, Some (replicate 16 0%Z)) (λ _ _, Some 0%Z) true.

(** Another request is served while the fast path works: it allocates a
    buffer. *)
Definition sample_other (w : CmdWorld) : CmdWorld := mkCmdWorld (cw_part w) (cw_calls w ++ [FpAlloc 8]).

Definition sample_events : list (HsmFsmEvent * (CmdWorld → CmdWorld)) :=
  [(StartCmd, id); (CheckAlive, sample_other); (FpToHsmIpcResponse, id)].

Abbreviation sample_flush :=
  (handled (SessionCmds.flush_on_event 0 sample_fp)
    (SessionCmds.flush_new 0 5, mkCmdWorld w1 []) sample_events).

Example sample_flush_committed : SessionCmds.flush_retry sample_flush.2 = false ∧ length sample_flush.1 = 3.
Proof. vm_compute. done. Qed.

Lemma w1_table_wf : st_wf (table_of (mkCmdWorld w1 [])).
Proof. destruct w1_rep as (k & K & Hrep & _). exact (pr_table _ _ _ Hrep). Qed.

Lemma sample_events_ok : Forall (λ ev, others_ok ev.2) sample_events.
Proof.
  assert (others_ok id) as Hid by (intros w; split; [done|exists []; by rewrite app_nil_r]).
  repeat apply Forall_cons_2; [exact Hid| |exact Hid|constructor].
  intros w. split; [done|by eexists].
Qed.

(** The last of the three events frees the slot of the session. *)
Lemma session_close_truthful_witness :
  ∃ before w w', sample_flush.1 = before ++ [(w, w')] ∧ length before = 2 ∧ Forall untouched before ∧
    slots (table_of w') = free_slot 0 (slots (table_of w)).
Proof.
  destruct (session_close_truthful 0 sample_fp 5 0 (mkBuf 0 []) sample_events
    (mkCmdWorld w1 []) w1_table_wf sample_events_ok) as [_ H].
  destruct sample_flush_committed as [Hc Hl]. revert H Hc Hl. generalize sample_flush.
  intros [l c]. cbn [fst snd]. intros H Hc Hl. rewrite Hc in H.
  destruct H as (before & w & w' & -> & Hb & i & Hi & Hs & _). injection Hi as <-.
  exists before, w, w'. split; [done|]. rewrite length_app in Hl. cbn in Hl. split; [lia|]. done.
Defined.
